(* ===== verification/_CoqProject ===== *)
-Q . S2P
Prelude.v
JsValue.v
Utf8.v
Regex.v
JsMap.v
Path.v
LocalFile.v
JsObject.v
Base64.v
JsonCodec.v
Validate.v
Codec.v
SecureStore.v
TaskPolicy.v
TaskRegistry.v
TaskParser.v
TaskManager.v
HarnessParser.v
HarnessEvents.v
TurnPreparation.v
WorkspaceStore.v
RepositoryInspection.v
AgentParser.v
AgentEval.v
AgentMemory.v
AgentSession.v
AgentLoop.v
AgentOrchestrator.v
AgentGraph.v
AgentWorkers.v
AgentPolicy.v
Governance.v
CodexProtocol.v
CodexJsonRpc.v
CodexThreadStore.v
CodexNative.v
VerifiedTurn.v
CodexHost.v
CodexRuntimePool.v
BrowserCommands.v
ReviewLoop.v
ReviewOwnership.v
RuntimeLog.v
DaemonOrphan.v
DaemonLog.v
DaemonManager.v
WorkspaceManager.v
RuntimeProfile.v
WorkspaceGrants.v
UpdateCompatibility.v
UpdateManager.v
CrashMarkers.v
PluginManifest.v
PluginPackage.v
PluginRegistry.v
SkillPolicy.v
PluginManager.v
ActivityDiff.v
ActivityEvents.v
ActivityStore.v
ActivityFile.v
