(* ===== verification/Prelude.v ===== *)
(** * SourceNerve desktop: a verification library

    This development models the core logic of the SourceNerve desktop
    application, the TypeScript under [src/desktop/src/main], and proves what
    makes it correct. The application lets a language model work on a
    repository under the control of a local daemon: an agent loop calls
    governed tools, Codex processes run turns on threads, a ChatGPT
    conversation plans and reviews them, and organisation policy decides which
    MCP extensions may be used.

    ** How the code is modelled

    - JavaScript data is in [JsValue]: strings are lists of UTF-16 code units
      with their UTF-8 length, numbers are integral or fractional doubles with
      their rounding, and what crosses a boundary is a [value] of type
      [unknown]. [JsMap] is an insertion-ordered [Map], [Path] the POSIX path
      functions, [Regex] the backtracking matcher of regular expressions, and
      [Validate] the field validators that the parsers share.
    - A function that may throw returns a [result]; stateful code is in the
      monad [M] below, in which a throw keeps the state written so far.
    - Shared pieces: [Utf8] cuts text to a number of bytes, [LocalFile] is a disk
      whose writes may fail at any point, [JsObject] the property order and the
      inherited names of plain objects, [Base64] the encoding of buffers, and
      [Codec] pairs of a field's reader and its wire form, from which parsers and
      their round trips are put together. [JsonCodec] is one JSON codec for the
      concrete runs.
    - An [await] splits a handler into steps when other handlers may run in
      between ([CodexRuntimePool], [CodexThreadStore], [CodexHost],
      [DaemonManager], [SecureStore], [TaskRegistry], [TurnPreparation],
      [VerifiedTurn], [WorkspaceManager]); where nothing else touches the state
      it is an ordinary call.
    - Collaborators that are passed in (the model, the tool gateway, the
      daemon, the drivers, listeners) and the environment (clock, [JSON], the URL
      parser, the file system's failures) are arguments, most often oracles
      whose answer may depend on everything that happened before. Nothing is
      assumed of them unless a theorem says so.

    ** The files and the code they model

    - [AgentParser], [AgentEval], [AgentMemory]: agent-parser.ts, agent-eval.ts,
      agent-memory.ts, the parsers of the daemon's answers. They accept exactly
      the well-formed answers and invert their encoding.
    - [AgentSession], [AgentLoop]: agent-session.ts, agent-loop.ts. The byte
      account of a session is exact and bounded; the loop announces a tool
      before it executes it, ends in time and counts its tokens exactly.
    - [AgentOrchestrator]: agent-orchestrator.ts on top of the loop and the
      parsers. A run follows the daemon's begin, record, complete and evaluate
      protocol for the turn that was begun, whatever anyone answers.
    - [AgentGraph]: agent-graph.ts. Runs end within [maxSteps] node executions
      and merge waves deterministically.
    - [AgentWorkers]: agent-worker-family.ts. Workers move along their status
      machine, leases are exclusive, retirement is final.
    - [AgentPolicy]: agent-policy.ts, agent-ipc.ts, agent-manager.ts. The IPC
      boundary sends the daemon at most one bounded request.
    - [Governance]: mcp-enterprise-governance.ts. The policy parser fails
      closed, the decision is exactly the conjunction of the rules, tool
      policies only tighten, wildcards and versions mean what they should.
    - [CodexJsonRpc]: codex-jsonrpc.ts. Framing does not depend on how the output
      is cut while an unfinished line fits; every request settles once, closing
      is final.
    - [CodexThreadStore]: codex-thread-store.ts. The registry file is never
      torn, and a restart restores the bindings.
    - [CodexProtocol]: codex-protocol.ts. The parsers of the app-server's
      answers and notifications, and the inputs of a turn.
    - [CodexNative], [CodexHost]: codex-app-server-host.ts on top of the protocol
      and the connection. Thread lists stay inside their directory, histories
      and account views within their bounds; under the [admits] discipline a
      waiting turn is woken by what ends it (two examples hang otherwise), there
      is one live process, and a turn's text is exactly what the
      server sent.
    - [CodexRuntimePool]: codex-runtime-pool.ts on top of the store. One turn per
      host and one writer per thread, over all interleavings of the calls.
    - [BrowserCommands]: browser-command-state.ts. The journal that calls
      made in turn leave is read back, but for slashes at the end of project
      URLs, and routes each logical conversation to its own provider one.
    - [ReviewLoop], [ReviewOwnership]: chatgpt-review-loop.ts and
      chatgpt-review-response-ownership.ts. Executions are ordered by a
      matching plan, verified before they are reviewed and bounded in number;
      stale replies are ignored.
    - [ActivityDiff], [ActivityEvents], [ActivityStore], [ActivityFile]:
      conversation-activity-store.ts. Cutting a diff into files loses nothing;
      for events whose parts the log can express (streaming ChatGPT responses
      are not among them) the timeline that streamed live is the one a replay of
      the event log renders, over any calls, failing writes and restarts, and a
      flush makes it durable.
    - [RuntimeLog]: runtime-log-store.ts. The buffer and the files stay within
      their limits and in order, whatever fails; sanitized text is bounded.
    - [DaemonOrphan], [DaemonLog], [DaemonManager]: daemon-manager.ts. Only the
      one orphaned daemon is signalled, and no plain secret of eight units or more
      reaches the log; while
      launches do not overlap a running daemon is the manager's child, a stop
      settles, and the listeners know the state.

    - [SecureStore]: secure-store.ts. For keys that objects do not inherit, the
      encrypted store behaves like a map whose mutations take effect one at a
      time, and every promise settles.
    - [TaskPolicy], [TaskRegistry], [TaskParser]: task-policy.ts,
      task-registry.ts, task-parser.ts. Repository paths stay inside the
      repository, the registry's file is its memory, the parsers are exact.
    - [TaskManager], [TurnPreparation], [VerifiedTurn]: task-manager.ts. The
      lifecycle calls of a task are guarded by its phase and repeat their keys
      when they are retried; a prepared turn is claimed once; a verified turn is
      supervised to the end of its run.
    - [HarnessParser], [HarnessEvents]: harness-parser.ts. The run parser is
      exact, and an event's view shows nothing of its payload but safe fields.
    - [WorkspaceStore], [RepositoryInspection], [WorkspaceManager]:
      workspace-store.ts and workspace-manager.ts. While saves and removals do
      not overlap the registry file is well-formed with distinct workspaces; an
      inspection only runs commands that read.
    - [RuntimeProfile]: runtime-profile.ts. The daemon's configuration, read by
      a strict TOML reader, is exactly the managed workspaces, and holds no secret.
    - [WorkspaceGrants]: workspace-grant-manager.ts. The managed daemon is given
      exactly the registry's workspaces, and stopped when there are none; a daemon
      of another owner is left alone.
    - [UpdateCompatibility], [UpdateManager]: update-compatibility.ts,
      single-instance-version-handoff.ts and update-manager.ts. Only a newer,
      compatible release is shown, and only a downloaded one is installed.
    - [PluginManifest], [PluginPackage]: plugin-package.ts. An inspection stays
      inside the package, and what it accepts runs nothing and holds no secret;
      a harness extension is accepted exactly when each of its items says one of
      the values that tighten what the harness allows.
    - [PluginRegistry]: plugin-registry.ts. The registry in memory is always
      well-formed and, with paths the check leaves alone, is what a restart reads.
    - [SkillPolicy]: workspace-skill-policy.ts. A workspace is searched within
      bounds and inside its root, a skill is used exactly when the policy says
      so, and up to 256 policies survive a restart.
    - [PluginManager]: plugin-manager.ts and plugin-native-compat.ts on top of
      the three. Whoever owns an MCP extension is an installed plugin that
      lists it, extensions of others are left alone, the runtime is given only
      what was reviewed, and a failed installation asks for the removal of what it
      made and puts the registry back.
    - [CrashMarkers]: crash-marker-store.ts. When its last write is through, the
      next start learns how this run ended, and a run that stops anywhere is not
      taken for a clean one.

    Definitions carry the names of the code they model; each file's header
    names its sources. Theorems that are claims about the program are marked
    C1, C2, ... in the order of their importance. Examples named after a defect
    ([capacity_race], [concurrent_records_lose_update] and the like) show on a
    concrete run where the code does not do what it means to.

    ** Fuel and bounds

    Loops that are not structural take fuel: the agent loop and the review loop
    their iteration limit (at most 64 and 12), the graph its step limit, the
    line drain, the bisection, replacing and chopping the length of their
    text, and the pages of a thread list (at most 2000 threads) or a history,
    for which a theorem names when the server's pages end. In each case the
    theorems show that the fuel is enough - the result is exact, or running out
    is the code's own limit. Byte limits, sequence numbers and token totals keep
    their widths; where a sum may leave the integers a double represents
    exactly, the theorem says so.

    ** What is not modelled

    The daemon itself (Rust), the renderer, Electron's windows and IPC
    registration, child processes, HTTP and the operating system are outside;
    the daemon's answers and file system failures are arbitrary instead. Of the
    Codex app-server host, the tail of stderr kept for messages, the signals
    sent to the child and the final parse of [account()] are left out. Of the
    task manager, the calls that only pass on to the harness, the direct ChatGPT
    agent and the lists of conversations are left out. Of the
    plugin manager, the marketplace with the automatic installation of skills
    and the views of a workspace's skills are left out, and its calls do not
    overlap. The MCP client, the terminal, and desktop control are not
    modelled.

    This file holds results, the stateful monad, and the shared automation. *)

From stdpp Require Export base tactics option list list_numbers strings gmap sets fin_maps sorting.
From Stdlib Require Export ZArith Lia.

#[global] Open Scope Z_scope.

(** ** Results: a JavaScript computation returns a value or throws *)

(** The message of a thrown [Error], as the UTF-16 code units of a string. *)
Abbreviation jstr := (list N).

(** What a [throw] carries: an [Error] with its message, or any other thrown
    value (only its being no [Error] matters to the handlers modelled). *)
Inductive exn :=
| Error (message : jstr)
| NotAnError (tag : jstr).

Inductive result (A : Type) :=
| Ok (a : A)
| Throw (e : exn).
Arguments Ok {A} a.
Arguments Throw {A} e.

#[export] Instance result_ret : MRet result := fun A a => Ok a.
#[export] Instance result_bind : MBind result := fun A B f m =>
  match m with Ok a => f a | Throw e => Throw e end.
#[export] Instance result_fmap : FMap result := fun A B f m =>
  match m with Ok a => Ok (f a) | Throw e => Throw e end.

#[export] Instance exn_eq_dec : EqDecision exn.
Proof. solve_decision. Defined.
#[export] Instance result_eq_dec `{EqDecision A} : EqDecision (result A).
Proof. solve_decision. Defined.

Definition is_ok {A} (r : result A) : bool := match r with Ok _ => true | Throw _ => false end.

(** String literals of the source, as code units. *)
Definition js (s : string) : jstr := map Ascii.N_of_ascii (String.list_ascii_of_string s).

(** [throw new Error(msg)] *)
Definition fail {A} (msg : string) : result A := Throw (Error (js msg)).

(** [if (!cond) throw new Error(msg)] *)
Definition require (cond : bool) (msg : string) : result unit :=
  if cond then Ok tt else fail msg.

(** [values.map(f)] where [f] may throw: the first throw wins. *)
Fixpoint map_result {A B} (f : A -> result B) (l : list A) : result (list B) :=
  match l with
  | [] => Ok []
  | x :: l' => y ← f x; ys ← map_result f l'; Ok (y :: ys)
  end.

(** [Array.prototype.sort]: the stable sort by a comparator *)
Fixpoint insert_by {A} (cmp : A -> A -> Z) (x : A) (l : list A) : list A :=
  match l with
  | [] => [x]
  | y :: l' => if cmp x y <=? 0 then x :: l else y :: insert_by cmp x l'
  end.
Definition sort_by {A} (cmp : A -> A -> Z) (l : list A) : list A := foldr (insert_by cmp) [] l.

(** [values.slice(-n)]: the last [n] values *)
Definition last_n {A} (n : Z) (l : list A) : list A := drop (length l - Z.to_nat n) l.

(** ** Stateful computations

    A throw keeps the state written so far, as in JavaScript: there is no
    rollback. *)
Definition M (S A : Type) : Type := S -> result A * S.

#[export] Instance M_ret S : MRet (M S) := fun A a s => (Ok a, s).
#[export] Instance M_bind S : MBind (M S) := fun A B f m s =>
  match m s with
  | (Ok a, s') => f a s'
  | (Throw e, s') => (Throw e, s')
  end.

Definition get_state {S} : M S S := fun s => (Ok s, s).
Definition gets {S A} (f : S -> A) : M S A := fun s => (Ok (f s), s).
Definition put_state {S} (s : S) : M S unit := fun _ => (Ok tt, s).
Definition modify {S} (f : S -> S) : M S unit := fun s => (Ok tt, f s).
Definition lift {S A} (r : result A) : M S A := fun s => (r, s).
Definition throw {S A} (msg : string) : M S A := fun s => (fail msg, s).

(** [if (bad) throw new Error(msg)] *)
Definition js_guard {S} (bad : bool) (msg : string) : M S unit :=
  fun s => if bad then (fail msg, s) else (Ok tt, s).

(** [throw error] of a caught error *)
Definition rethrow {S A} (e : exn) : M S A := fun s => (Throw e, s).

(** [try { m } catch (error) { h error }] *)
Definition try_catch {S A} (m : M S A) (h : exn -> M S A) : M S A := fun s =>
  match m s with
  | (Ok a, s') => (Ok a, s')
  | (Throw e, s') => h e s'
  end.

(** [try { m } finally { f }]: [f] runs on both paths; its own throw wins. *)
Definition try_finally {S A} (m : M S A) (f : M S unit) : M S A := fun s =>
  let (r, s') := m s in
  match f s' with
  | (Ok _, s'') => (r, s'')
  | (Throw e, s'') => (Throw e, s'')
  end.

(** ** Inversion lemmas and automation *)

Lemma bind_Ok {A B} (m : result A) (f : A -> result B) b :
  (m ≫= f) = Ok b <-> exists a, m = Ok a /\ f a = Ok b.
Proof. destruct m; cbn; naive_solver. Qed.

Lemma fmap_Ok {A B} (f : A -> B) (m : result A) b :
  (f <$> m) = Ok b <-> exists a, m = Ok a /\ b = f a.
Proof. destruct m; cbn; naive_solver. Qed.

Lemma require_Ok c msg u : require c msg = Ok u <-> c = true.
Proof. destruct c, u; cbn; naive_solver. Qed.

Lemma map_result_Ok {A B} (f : A -> result B) l k :
  map_result f l = Ok k <-> Forall2 (fun x y => f x = Ok y) l k.
Proof.
  revert k. induction l as [|x l IH]; intros k; cbn.
  - split; [intros [= <-]; constructor | by inversion 1].
  - rewrite bind_Ok. setoid_rewrite bind_Ok. setoid_rewrite IH. split.
    + intros (y & Hy & ys & Hys & [= <-]). by constructor.
    + inversion 1; subst. naive_solver.
Qed.

Lemma map_result_length {A B} (f : A -> result B) l k :
  map_result f l = Ok k -> length k = length l.
Proof. rewrite map_result_Ok. intros H. by rewrite (Forall2_length _ _ _ H). Qed.

Lemma map_result_Forall {A B} (P : B -> Prop) (f : A -> result B) l k :
  map_result f l = Ok k -> (forall x y, f x = Ok y -> P y) -> Forall P k.
Proof. rewrite map_result_Ok. intros H HP. induction H; constructor; eauto. Qed.

Lemma M_bind_run {S A B} (m : M S A) (f : A -> M S B) s :
  (m ≫= f) s = match m s with (Ok a, s') => f a s' | (Throw e, s') => (Throw e, s') end.
Proof. reflexivity. Qed.

Lemma filter_all {A} (P : A -> Prop) `{forall x, Decision (P x)} l : Forall P l -> filter P l = l.
Proof. induction 1; [done|]. by rewrite filter_cons_True, IHForall. Qed.

Lemma NoDup_fmap_filter {A B} (f : A -> B) (P : A -> Prop) `{forall x, Decision (P x)} l :
  NoDup (f <$> l) -> NoDup (f <$> filter P l).
Proof.
  induction l as [|x l IH]; [done|]. rewrite fmap_cons, filter_cons. intros [Hx Hl]%NoDup_cons.
  case_decide; [|by apply IH]. rewrite fmap_cons. constructor; [|by apply IH].
  intros (y & Hy & [_ Hin]%list_elem_of_filter)%list_elem_of_fmap. apply Hx. rewrite Hy. by apply list_elem_of_fmap_2.
Qed.

(** A sorted array is sorted already. *)
Lemma sort_by_sorted {A} (cmp : A -> A -> Z) l : StronglySorted (fun x y => cmp x y <= 0) l -> sort_by cmp l = l.
Proof.
  induction 1 as [|x l _ IH Hx]; [done|]. unfold sort_by in *. cbn. rewrite IH.
  destruct l as [|y l]; [done|]. cbn. apply Forall_cons in Hx as [Hx _]. apply Z.leb_le in Hx. by rewrite Hx.
Qed.

Lemma sort_by_perm {A} (cmp : A -> A -> Z) l : sort_by cmp l ≡ₚ l.
Proof.
  unfold sort_by. induction l as [|x l IH]; [done|]. simpl.
  enough (H : forall k, insert_by cmp x k ≡ₚ x :: k) by by rewrite H, IH.
  clear. induction k as [|y k IH]; [done|]. simpl. destruct (_ <=? _); [done|]. rewrite IH. apply Permutation_swap.
Qed.
Lemma elem_of_sort_by {A} (cmp : A -> A -> Z) l x : x ∈ sort_by cmp l <-> x ∈ l.
Proof. by rewrite sort_by_perm. Qed.

(** Sorting by a total, transitive comparator sorts. *)
Lemma insert_by_sorted {A} (cmp : A -> A -> Z) x l : (forall x y, 0 < cmp x y -> cmp y x <= 0) ->
  (forall x y z, cmp x y <= 0 -> cmp y z <= 0 -> cmp x z <= 0) ->
  StronglySorted (fun x y => cmp x y <= 0) l -> StronglySorted (fun x y => cmp x y <= 0) (insert_by cmp x l).
Proof.
  intros Ht Htr. induction l as [|y l IH]; intros H; cbn [insert_by]; [by repeat constructor|].
  apply StronglySorted_inv in H as [Hl Hy]. destruct (Z.leb_spec (cmp x y) 0) as [Hc|Hc].
  - constructor; [by constructor|]. constructor; [done|]. eapply Forall_impl; [exact Hy|]. intros z Hz. by eapply Htr.
  - constructor; [by apply IH|]. apply Forall_forall. intros z Hz.
    assert (z = x \/ z ∈ l) as [->|Hin].
    { clear -Hz. induction l as [|w l IHl]; cbn in Hz; [apply list_elem_of_singleton in Hz; by left|]. destruct (_ <=? _).
      - apply elem_of_cons in Hz as [->|Hz]; [by left|by right].
      - apply elem_of_cons in Hz as [->|Hz]; [right; by left|]. destruct (IHl Hz); [by left|right; by right]. }
    + by apply Ht.
    + rewrite Forall_forall in Hy. by apply Hy.
Qed.
Lemma sort_by_StronglySorted {A} (cmp : A -> A -> Z) l : (forall x y, 0 < cmp x y -> cmp y x <= 0) ->
  (forall x y z, cmp x y <= 0 -> cmp y z <= 0 -> cmp x z <= 0) -> StronglySorted (fun x y => cmp x y <= 0) (sort_by cmp l).
Proof. intros Ht Htr. unfold sort_by. induction l as [|x l IH]; [constructor|]. cbn. by apply insert_by_sorted. Qed.

Lemma last_n_all {A} n (l : list A) : Z.of_nat (length l) <= n -> last_n n l = l.
Proof. intros H. unfold last_n. replace (length l - Z.to_nat n)%nat with 0%nat by lia. done. Qed.

Lemma last_n_length {A} n (l : list A) : 0 <= n -> Z.of_nat (length (last_n n l)) <= n.
Proof. intros H. unfold last_n. rewrite length_drop. lia. Qed.

Lemma last_n_Forall {A} (P : A -> Prop) n l : Forall P l -> Forall P (last_n n l).
Proof. apply Forall_drop. Qed.

Lemma last_n_sorted {A} (R : A -> A -> Prop) n l : StronglySorted R l -> StronglySorted R (last_n n l).
Proof.
  unfold last_n. generalize (length l - Z.to_nat n)%nat as m. intros m H. revert m.
  induction H as [|x l Hs IH Hx]; intros [|m]; cbn; try constructor; auto.
Qed.

(** ** Triples

    [triple I m Q]: a run of [m] keeps [I], and what it returns has [Q]. *)
Definition triple {S A} (I : S -> Prop) (m : M S A) (Q : A -> Prop) : Prop := forall s, I s ->
  I (m s).2 /\ forall a, (m s).1 = Ok a -> Q a.

Section triples.
Context {S : Type} (I : S -> Prop).

Lemma triple_bind {A B} (m : M S A) (f : A -> M S B) Q R :
  triple I m Q -> (forall a, Q a -> triple I (f a) R) -> triple I (m ≫= f) R.
Proof.
  intros Hm Hf s Hs. specialize (Hm s Hs) as [HI HQ]. rewrite M_bind_run. destruct (m s) as [[a|e] s']; [|by split].
  by apply Hf; [apply HQ|].
Qed.
Lemma triple_ret {A} (a : A) (Q : A -> Prop) : Q a -> triple I (mret a) Q.
Proof. intros Ha s Hs. split; [done|]. by intros ? [= <-]. Qed.
Lemma triple_lift {A} (r : result A) : triple I (lift r) (fun a => r = Ok a).
Proof. intros s Hs. by split. Qed.
Lemma triple_guard bad msg : triple I (js_guard bad msg) (fun _ => bad = false).
Proof. intros s Hs. unfold js_guard. by destruct bad. Qed.
Lemma triple_throw {A} msg (Q : A -> Prop) : triple I (throw msg) Q.
Proof. intros s Hs. by split. Qed.
Lemma triple_catch {A} (m : M S A) h Q : triple I m Q -> (forall e, triple I (h e) Q) -> triple I (try_catch m h) Q.
Proof.
  intros Hm Hh s Hs. specialize (Hm s Hs) as [HI HQ]. unfold try_catch. destruct (m s) as [[a|e] s']; [by split|by apply Hh].
Qed.
Lemma triple_weaken {A} (m : M S A) (Q R : A -> Prop) : triple I m Q -> (forall a, Q a -> R a) -> triple I m R.
Proof. intros Hm HQ s Hs. specialize (Hm s Hs) as [? ?]. split; [done|]. auto. Qed.
End triples.

(** Split a successful computation into its successful steps. *)
Ltac inv_ok :=
  repeat match goal with
  | H : Ok _ = Ok _ |- _ => injection H as H; subst
  | H : Throw _ = Ok _ |- _ => discriminate H
  | H : Ok _ = Throw _ |- _ => discriminate H
  | H : fail _ = Ok _ |- _ => discriminate H
  | H : mret _ = Ok _ |- _ => injection H as H; subst
  | H : require _ _ = Ok _ |- _ => apply require_Ok in H
  | H : (_ ≫= _) = Ok _ |- _ => apply bind_Ok in H as (? & ? & H)
  | H : (_ <$> _) = Ok _ |- _ => apply fmap_Ok in H as (? & ? & ?)
  end.

(** Turn the boolean guards of the code into propositions. *)
Ltac to_prop :=
  repeat match goal with
  | H : (_ && _)%bool = true |- _ => apply andb_prop in H as [? ?]
  | H : (_ || _)%bool = false |- _ => apply orb_false_elim in H as [? ?]
  | H : negb _ = true |- _ => apply negb_true_iff in H
  | H : negb _ = false |- _ => apply negb_false_iff in H
  | H : bool_decide _ = true |- _ => apply bool_decide_eq_true in H
  | H : bool_decide _ = false |- _ => apply bool_decide_eq_false in H
  | H : (_ =? _)%Z = true |- _ => apply Z.eqb_eq in H
  | H : (_ =? _)%Z = false |- _ => apply Z.eqb_neq in H
  | H : (_ <=? _)%Z = true |- _ => apply Z.leb_le in H
  | H : (_ <=? _)%Z = false |- _ => apply Z.leb_gt in H
  | H : (_ <? _)%Z = true |- _ => apply Z.ltb_lt in H
  | H : (_ <? _)%Z = false |- _ => apply Z.ltb_ge in H
  end.

(** Split a [Forall] over an explicit list into its elements. *)
Ltac forall_list := repeat first [apply Forall_cons_2 | apply Forall_nil_2].

Create HintDb sn discriminated.
#[export] Hint Resolve map_result_length : sn.
