(* ===== verification/JsValue.v ===== *)
(** * The JavaScript data the program works on

    Strings as UTF-16 code units, IEEE numbers as far as the code observes
    them, and the [unknown] values that cross the IPC and HTTP boundaries,
    with the library calls the source makes on them. *)

From stdpp Require Import pretty.
From S2P Require Import Prelude.

(** ** Strings *)

(** [value.length]: the number of code units. *)
Definition slen (s : jstr) : Z := Z.of_nat (length s).

Definition is_high_surrogate (u : N) : bool := (0xD800 <=? u)%N && (u <=? 0xDBFF)%N.
Definition is_low_surrogate (u : N) : bool := (0xDC00 <=? u)%N && (u <=? 0xDFFF)%N.

(** [Buffer.byteLength(value, "utf8")]: a surrogate pair takes four bytes, a
    lone surrogate is replaced by U+FFFD, which takes three. *)
Fixpoint utf8_len (s : jstr) : Z :=
  match s with
  | [] => 0
  | u :: rest =>
      if (u <? 0x80)%N then 1 + utf8_len rest
      else if (u <? 0x800)%N then 2 + utf8_len rest
      else match is_high_surrogate u, rest with
           | true, v :: rest' =>
               if is_low_surrogate v then 4 + utf8_len rest' else 3 + utf8_len rest
           | _, _ => 3 + utf8_len rest
           end
  end.

(** [/[\u0000-\u001f\u007f]/] on one code unit. *)
Definition is_control (u : N) : bool := (u <=? 0x1f)%N || (u =? 0x7f)%N.
(** [/[\r\n\0]/] on one code unit. *)
Definition is_line_break_or_nul (u : N) : bool := (u =? 13)%N || (u =? 10)%N || (u =? 0)%N.
(** [/\u0000/] on one code unit. *)
Definition is_nul (u : N) : bool := (u =? 0)%N.

Definition has_control (s : jstr) : bool := existsb is_control s.
Definition has_line_break_or_nul (s : jstr) : bool := existsb is_line_break_or_nul s.
Definition has_nul (s : jstr) : bool := existsb is_nul s.

(** [WhiteSpace] and [LineTerminator] of ECMAScript, which [trim] and [\s] share. *)
Definition is_space (u : N) : bool :=
  ((9 <=? u)%N && (u <=? 13)%N) || (u =? 32)%N || (u =? 0xA0)%N || (u =? 0x1680)%N
  || ((0x2000 <=? u)%N && (u <=? 0x200A)%N) || (u =? 0x2028)%N || (u =? 0x2029)%N
  || (u =? 0x202F)%N || (u =? 0x205F)%N || (u =? 0x3000)%N || (u =? 0xFEFF)%N.

Fixpoint trim_start (s : jstr) : jstr :=
  match s with
  | u :: rest => if is_space u then trim_start rest else s
  | [] => []
  end.
Definition trim_end (s : jstr) : jstr := reverse (trim_start (reverse s)).
Definition trim (s : jstr) : jstr := trim_end (trim_start s).

(** [value.startsWith(p)], [value.includes(p)] *)
Fixpoint starts_with (s p : jstr) : bool :=
  match p, s with
  | [], _ => true
  | c :: p', u :: s' => (c =? u)%N && starts_with s' p'
  | _ :: _, [] => false
  end.
Fixpoint includes (s p : jstr) : bool :=
  starts_with s p || match s with [] => false | _ :: s' => includes s' p end.

(** [value.slice(0, n)] and [value.slice(n)] for an index in range. *)
Definition slice_to (n : nat) (s : jstr) : jstr := take n s.
Definition slice_from (n : nat) (s : jstr) : jstr := drop n s.
(** [value.slice(0, -1)] *)
Definition slice_last (s : jstr) : jstr := take (length s - 1) s.

(** [while (byteLength(result) > maxBytes) result = result.slice(0, -1)],
    with as much fuel as there are code units. *)
Fixpoint chop_to_bytes (fuel : nat) (s : jstr) (maxBytes : Z) : jstr :=
  if utf8_len s <=? maxBytes then s
  else match fuel with O => s | S fuel' => chop_to_bytes fuel' (slice_last s) maxBytes end.

(** [value.split(c)] for a separator of one code unit: never empty. *)
Fixpoint split_char (c : N) (s : jstr) : list jstr :=
  match s with
  | [] => [[]]
  | u :: rest =>
      match split_char c rest with
      | w :: ws => if (u =? c)%N then [] :: w :: ws else (u :: w) :: ws
      | [] => [[u]]
      end
  end.

(** [values.join(sep)] *)
Fixpoint join (sep : jstr) (l : list jstr) : jstr :=
  match l with
  | [] => []
  | [x] => x
  | x :: l' => x ++ sep ++ join sep l'
  end.

(** A template literal's [${n}] for an integer. *)
Definition js_int (z : Z) : jstr := js (pretty z).

(** [Boolean(value)] of a string *)
Definition truthy (s : jstr) : bool := match s with [] => false | _ => true end.
Definition truthy_opt (s : option jstr) : bool := match s with Some s => truthy s | None => false end.

(** [[...new Set(values)]]: the first occurrence of each value, in order. *)
Fixpoint unique_from (seen : list jstr) (l : list jstr) : list jstr :=
  match l with
  | [] => []
  | x :: l' =>
      if bool_decide (x ∈ seen) then unique_from seen l' else x :: unique_from (x :: seen) l'
  end.
Definition unique (l : list jstr) : list jstr := unique_from [] l.

(** ** Numbers

    An IEEE double: an integral value, another finite value [m * 2^-e], an
    infinity or NaN. (The sign of zero is never observed by the code.) *)
Inductive num :=
| NInt (z : Z)
| NFrac (m : Z) (e : positive)
| NInf (negative : bool)
| NNaN.

Definition MAX_SAFE_INTEGER : Z := 2 ^ 53 - 1.
Definition MIN_SAFE_INTEGER : Z := - MAX_SAFE_INTEGER.

(** [Number.isSafeInteger(value)], with the integer it is *)
Definition safe_integer (n : num) : option Z :=
  match n with
  | NInt z => if (MIN_SAFE_INTEGER <=? z) && (z <=? MAX_SAFE_INTEGER) then Some z else None
  | _ => None
  end.

(** [!Number.isSafeInteger(value) || value < min || value > max], negated *)
Definition safe_in_range (lo hi : Z) (n : num) : option Z :=
  match safe_integer n with
  | Some z => if (lo <=? z) && (z <=? hi) then Some z else None
  | None => None
  end.

(** The double nearest to an integer (ties to even). *)
Definition round_to_double (z : Z) : num :=
  let a := Z.abs z in
  if a <=? 2 ^ 53 then NInt z
  else
    let ulp := 2 ^ (Z.log2 a - 52) in
    let q := a / ulp in
    let r := a mod ulp in
    let up := (ulp <? 2 * r) || ((2 * r =? ulp) && Z.odd q) in
    let m := (if up then q + 1 else q) * ulp in
    if m <? 2 ^ 1024 then NInt (Z.sgn z * m) else NInf (z <? 0).

(** [a + b] on integers held in doubles *)
Definition double_add (a b : Z) : num := round_to_double (a + b).

(** ** Values of type [unknown] *)

Inductive value :=
| VUndefined
| VNull
| VBool (b : bool)
| VNumber (n : num)
| VString (s : jstr)
| VArray (items : list value)
| VObject (fields : list (jstr * value)).

(** [if (value)] *)
Definition truthy_value (v : value) : bool :=
  match v with
  | VUndefined | VNull | VBool false | VNumber (NInt 0) | VNumber NNaN => false
  | VString s => truthy s
  | _ => true
  end.

(** [typeof v === "object" && v !== null && !Array.isArray(v)] *)
Definition is_record (v : value) : option (list (jstr * value)) :=
  match v with VObject fs => Some fs | _ => None end.

(** [row.key]: the field of an object, [undefined] when it is absent. *)
Fixpoint field (fs : list (jstr * value)) (key : jstr) : value :=
  match fs with
  | [] => VUndefined
  | (k, v) :: fs' => if bool_decide (k = key) then v else field fs' key
  end.

(** [key in row] for an own key *)
Definition has_field (fs : list (jstr * value)) (key : jstr) : bool :=
  existsb (fun kv => bool_decide (kv.1 = key)) fs.

(** The names every plain object inherits from [Object.prototype], so that
    [row[key]] is never [undefined] for them. *)
Definition inherited_names : list jstr := map js
  ["constructor"; "__proto__"; "hasOwnProperty"; "isPrototypeOf"; "propertyIsEnumerable";
   "toLocaleString"; "toString"; "valueOf"; "__defineGetter__"; "__defineSetter__";
   "__lookupGetter__"; "__lookupSetter__"]%string.
Definition inherited (id : jstr) : bool := bool_decide (id ∈ inherited_names).

(** [v == null] *)
Definition is_nullish (v : value) : bool :=
  match v with VUndefined | VNull => true | _ => false end.

(** [Object.keys(row).every((key) => allowed.includes(key))] *)
Definition keys_allowed (allowed : list jstr) (fs : list (jstr * value)) : bool :=
  forallb (fun kv => bool_decide (kv.1 ∈ allowed)) fs.

(** [v === "literal"] *)
Definition is_string (v : value) (s : jstr) : bool :=
  match v with VString t => bool_decide (t = s) | _ => false end.

(** [v === n] for an integer literal *)
Definition is_int (v : value) (z : Z) : bool :=
  match v with VNumber (NInt y) => y =? z | _ => false end.

(** ** Facts about byte lengths *)

(** Induction that follows surrogate pairs: two code units at a time. *)
Lemma list_two_ind {A} (P : list A -> Prop) :
  P [] -> (forall x, P [x]) ->
  (forall x y l, P (y :: l) -> P l -> P (x :: y :: l)) -> forall l, P l.
Proof.
  intros H0 H1 H2 l. enough (P l /\ forall x, P (x :: l)) by tauto.
  induction l as [|y l [IHl IHc]]; split; auto.
Qed.

Ltac utf8_cases :=
  repeat match goal with
  | |- context [if ?b then _ else _] => destruct b
  | |- context [match is_high_surrogate ?u with _ => _ end] => destruct (is_high_surrogate u)
  end.

Lemma utf8_len_nonneg s : 0 <= utf8_len s.
Proof.
  induction s as [|x|x y l IH1 IH2] using list_two_ind; simpl in *; utf8_cases; lia.
Qed.

Lemma utf8_len_cons u s : utf8_len s + 1 <= utf8_len (u :: s) <= utf8_len s + 3.
Proof.
  induction s as [|x|x y l IH1 IH2] using list_two_ind; simpl in *; utf8_cases; lia.
Qed.

Lemma utf8_len_ge_length s : slen s <= utf8_len s.
Proof.
  unfold slen. induction s as [|u s IH]; [done|]. pose proof (utf8_len_cons u s).
  rewrite length_cons. lia.
Qed.

Lemma utf8_len_le_length s : utf8_len s <= 3 * slen s.
Proof.
  unfold slen. induction s as [|u s IH]; [done|]. pose proof (utf8_len_cons u s).
  rewrite length_cons. lia.
Qed.

Lemma utf8_len_take n s : utf8_len (take n s) <= utf8_len s.
Proof.
  revert n. induction s as [|x|x y l IH1 IH2] using list_two_ind; intros n.
  - by rewrite take_nil.
  - destruct n as [|n]; [apply utf8_len_nonneg|]. by rewrite firstn_cons, take_nil.
  - destruct n as [|[|n]]; [apply utf8_len_nonneg | |].
    + pose proof (utf8_len_nonneg l). pose proof (utf8_len_nonneg (y :: l)).
      simpl in *. utf8_cases; lia.
    + specialize (IH1 (S n)). specialize (IH2 n). simpl in *. utf8_cases; lia.
Qed.

Lemma utf8_len_take_mono n m s : (n <= m)%nat -> utf8_len (take n s) <= utf8_len (take m s).
Proof.
  intros H. replace (take n s) with (take n (take m s)); [apply utf8_len_take|].
  rewrite take_take. f_equal. lia.
Qed.

Lemma utf8_len_app a b : utf8_len (a ++ b) <= utf8_len a + utf8_len b.
Proof.
  induction a as [|x|x y l IH1 IH2] using list_two_ind.
  - simpl. lia.
  - destruct b as [|v b]; [simpl; utf8_cases; lia|].
    generalize (utf8_len_cons v b). simpl. utf8_cases; lia.
  - revert IH1 IH2. simpl. utf8_cases; lia.
Qed.

Lemma utf8_len_slice_last s : utf8_len (slice_last s) <= utf8_len s.
Proof. apply utf8_len_take. Qed.

Lemma chop_to_bytes_spec fuel s maxBytes : 0 <= maxBytes -> (length s <= fuel)%nat ->
  exists n, chop_to_bytes fuel s maxBytes = take n s /\
    utf8_len (take n s) <= maxBytes /\
    forall k, utf8_len (take k s) <= maxBytes -> take k s = take k (take n s).
Proof.
  intros Hmax. revert s. induction fuel as [|fuel IH]; intros s Hlen; cbn [chop_to_bytes].
  - destruct s; [|simpl in Hlen; lia]. exists 0%nat. simpl. rewrite (proj2 (Z.leb_le 0 maxBytes)) by done.
    split_and!; [done|done|]. intros k _. by rewrite !take_nil.
  - destruct (utf8_len s <=? maxBytes) eqn:E.
    + exists (length s). rewrite firstn_all. apply Z.leb_le in E. split_and!; done.
    + apply Z.leb_gt in E. assert (Hpos : (0 < length s)%nat) by (destruct s; simpl in *; lia).
      destruct (IH (slice_last s)) as (n & Hn & Hb & Hk).
      { unfold slice_last. rewrite length_take. lia. }
      unfold slice_last in *. rewrite take_take in *. exists (n `min` (length s - 1))%nat.
      split_and!; [done|done|]. intros k Hle.
      assert (k <= length s - 1)%nat.
      { destruct (decide (k <= length s - 1)%nat); [done|].
        rewrite take_ge in Hle by lia. lia. }
      specialize (Hk k). rewrite (take_take s k (length s - 1)), Nat.min_l in Hk by done.
      by apply Hk.
Qed.

(** ** Facts about numbers *)

Lemma safe_integer_bounds n z : safe_integer n = Some z ->
  n = NInt z /\ MIN_SAFE_INTEGER <= z <= MAX_SAFE_INTEGER.
Proof.
  destruct n; cbn [safe_integer]; try done. destruct (_ && _) eqn:E; [|done].
  intros [= <-]. to_prop. split; [done | lia].
Qed.

Lemma safe_in_range_Some lo hi n z : safe_in_range lo hi n = Some z ->
  n = NInt z /\ lo <= z <= hi /\ MIN_SAFE_INTEGER <= z <= MAX_SAFE_INTEGER.
Proof.
  unfold safe_in_range. destruct (safe_integer n) as [y|] eqn:E; [|done].
  apply safe_integer_bounds in E as [-> ?]. destruct (_ && _) eqn:E; [|done].
  intros [= <-]. to_prop. split; [done | lia].
Qed.

Lemma safe_in_range_NInt lo hi z :
  lo <= z <= hi -> MIN_SAFE_INTEGER <= z <= MAX_SAFE_INTEGER ->
  safe_in_range lo hi (NInt z) = Some z.
Proof.
  intros ? ?. unfold safe_in_range, safe_integer.
  rewrite (proj2 (andb_true_iff _ _)) by (split; apply Z.leb_le; lia).
  by rewrite (proj2 (andb_true_iff _ _)) by (split; apply Z.leb_le; lia).
Qed.

Lemma double_add_exact a b : Z.abs (a + b) <= 2 ^ 53 -> double_add a b = NInt (a + b).
Proof.
  intros H. unfold double_add, round_to_double. by rewrite (proj2 (Z.leb_le _ _) H).
Qed.

(** ** Facts about strings and objects *)

Lemma elem_of_unique_from seen l x :
  x ∈ unique_from seen l <-> x ∈ l /\ x ∉ seen.
Proof.
  revert seen. induction l as [|y l IH]; intros seen; simpl; [set_solver|].
  case_bool_decide as Hy.
  { rewrite IH, elem_of_cons. set_solver. }
  rewrite !elem_of_cons, IH, elem_of_cons.
  destruct (decide (x = y)); set_solver.
Qed.

Lemma NoDup_unique_from seen l : NoDup (unique_from seen l).
Proof.
  revert seen. induction l as [|y l IH]; intros seen; simpl; [constructor|].
  case_bool_decide; [done|]. constructor; [|done]. rewrite elem_of_unique_from. set_solver.
Qed.

Lemma elem_of_unique l x : x ∈ unique l <-> x ∈ l.
Proof. unfold unique. rewrite elem_of_unique_from. set_solver. Qed.
Lemma NoDup_unique l : NoDup (unique l).
Proof. apply NoDup_unique_from. Qed.

Lemma unique_from_NoDup seen l :
  NoDup l -> (forall x, x ∈ l -> x ∉ seen) -> unique_from seen l = l.
Proof.
  revert seen. induction l as [|y l IH]; intros seen Hnd Hs; simpl; [done|].
  apply NoDup_cons in Hnd as [? ?]. rewrite bool_decide_eq_false_2 by set_solver.
  f_equal. apply IH; [done|]. set_solver.
Qed.

Lemma truthy_true s : truthy s = true <-> s <> [].
Proof. destruct s; simpl; naive_solver. Qed.

Lemma existsb_take {A} (f : A -> bool) n l : existsb f l = false -> existsb f (take n l) = false.
Proof.
  revert n. induction l as [|x l IH]; intros [|n]; simpl; try done.
  intros [-> ?]%orb_false_elim. simpl. auto.
Qed.

#[export] Hint Resolve utf8_len_nonneg utf8_len_take utf8_len_slice_last NoDup_unique : sn.

(** ** Prefixes and parts *)

Lemma starts_with_spec s p : starts_with s p = true <-> exists t, s = p ++ t.
Proof.
  revert s. induction p as [|c p IH]; intros s; cbn.
  - split; [intros _; by exists s|]. by destruct s.
  - destruct s as [|u s]; cbn; [split; [done|]; by intros [t ?]|]. rewrite andb_true_iff, N.eqb_eq, IH. split.
    + intros [-> [t ->]]. by exists t.
    + intros [t [= -> ->]]. split; [done|]. by exists t.
Qed.

Lemma includes_spec s p : includes s p = true <-> exists a b, s = a ++ p ++ b.
Proof.
  induction s as [|u s IH]; cbn [includes].
  - rewrite orb_false_r, starts_with_spec. split; [intros [t H]; by exists [], t|].
    intros (a & b & H). destruct a; [|done]. by exists b.
  - rewrite orb_true_iff, starts_with_spec, IH. split.
    + intros [[t H]|(a & b & ->)]; [by exists [], t|by exists (u :: a), b].
    + intros (a & b & H). destruct a as [|x a]; [left; by exists b|]. injection H as -> ->. right. by exists a, b.
Qed.

(** ** Trimming keeps a part of the text *)

Lemma trim_start_drop s : exists n, trim_start s = drop n s.
Proof.
  induction s as [|u s [n IH]]; simpl; [by exists 0%nat|]. destruct (is_space u); [by exists (S n)|by exists 0%nat].
Qed.
Lemma trim_slice s : exists n m, trim s = take m (drop n s).
Proof.
  unfold trim, trim_end. destruct (trim_start_drop s) as [n ->]. destruct (trim_start_drop (reverse (drop n s))) as [k ->].
  exists n, (length (drop n s) - k)%nat. rewrite drop_reverse. by rewrite reverse_involutive.
Qed.
