(* ===== verification/Utf8.v ===== *)
(** * Text cut at a number of bytes

    What is left of a string when its UTF-8 encoding is cut at a byte offset and
    decoded again, and the shorter forms of bounded text built on it; trimming
    twice; the order in which strings sort, and their lower case. *)

From S2P Require Import Prelude JsValue.

(** [Buffer.from(s).subarray(0, n).toString("utf8")]: a lone surrogate and a
    sequence that is cut short become U+FFFD. *)
Definition REPLACEMENT : N := 0xFFFD.
Fixpoint cut_bytes (n : Z) (s : jstr) : jstr :=
  match s with
  | [] => []
  | u :: t =>
      let cut := if 0 <? n then [REPLACEMENT] else [] in
      if (u <? 0x80)%N then if 1 <=? n then u :: cut_bytes (n - 1) t else cut
      else if (u <? 0x800)%N then if 2 <=? n then u :: cut_bytes (n - 2) t else cut
      else match is_high_surrogate u, t with
           | true, v :: t' =>
               if is_low_surrogate v then if 4 <=? n then u :: v :: cut_bytes (n - 4) t' else cut
               else if 3 <=? n then REPLACEMENT :: cut_bytes (n - 3) t else cut
           | _, _ => if 3 <=? n then (if (0xD800 <=? u)%N && (u <=? 0xDFFF)%N then REPLACEMENT else u)
                                     :: cut_bytes (n - 3) t else cut
           end
  end.

Lemma utf8_len_drop n s : utf8_len (drop n s) <= utf8_len s.
Proof.
  revert n. induction s as [|u s IH]; intros [|n]; simpl drop; [lia..|].
  pose proof (utf8_len_cons u s). specialize (IH n). lia.
Qed.
Lemma utf8_len_trim s : utf8_len (trim s) <= utf8_len s.
Proof.
  destruct (trim_slice s) as (n & m & ->). etransitivity; [apply utf8_len_take|apply utf8_len_drop].
Qed.

Lemma cut_bytes_len s : forall n, 0 <= n -> utf8_len (cut_bytes n s) <= n + 2.
Proof.
  assert (Hcut : forall n, 0 <= n -> utf8_len (if 0 <? n then [REPLACEMENT] else []) <= n + 2).
  { intros n Hn. destruct (0 <? n) eqn:E; to_prop; [change (utf8_len [REPLACEMENT]) with 3|simpl]; lia. }
  assert (Hstep : forall k n x l, 3 <= k -> k <= n -> utf8_len l <= n - k + 2 -> utf8_len (x :: l) <= n + 2).
  { intros k n x l ? ? ?. pose proof (utf8_len_cons x l). lia. }
  assert (Hone : forall u t, (forall n, 0 <= n -> utf8_len (cut_bytes n t) <= n + 2) ->
    (forall v t', t = v :: t' -> forall n, 0 <= n -> utf8_len (cut_bytes n t') <= n + 2) ->
    forall n, 0 <= n -> utf8_len (cut_bytes n (u :: t)) <= n + 2).
  { intros u t Ht Ht' n Hn. cbn [cut_bytes]. specialize (Hcut n Hn).
    destruct (u <? 0x80)%N eqn:E1; [|destruct (u <? 0x800)%N eqn:E2].
    - destruct (1 <=? n) eqn:E; to_prop; [|done]. cbn [utf8_len]. rewrite E1. specialize (Ht (n - 1)). lia.
    - destruct (2 <=? n) eqn:E; to_prop; [|done]. cbn [utf8_len]. rewrite E1, E2. specialize (Ht (n - 2)). lia.
    - destruct (is_high_surrogate u) eqn:Eh; [destruct t as [|v t']; [|destruct (is_low_surrogate v) eqn:El]|].
      + destruct (3 <=? n) eqn:E; to_prop; [|done]. eapply (Hstep 3); [lia|lia|apply Ht; lia].
      + destruct (4 <=? n) eqn:E; to_prop; [|done]. cbn [utf8_len]. rewrite E1, E2, Eh, El.
        specialize (Ht' v t' eq_refl (n - 4)). lia.
      + destruct (3 <=? n) eqn:E; to_prop; [|done]. eapply (Hstep 3); [lia|lia|apply Ht; lia].
      + destruct (3 <=? n) eqn:E; to_prop; [|done]. eapply (Hstep 3); [lia|lia|apply Ht; lia]. }
  induction s as [|x|x y l IH1 IH2] using list_two_ind; intros n Hn.
  - simpl. lia.
  - apply Hone; [intros k ?; simpl; lia|done|done].
  - apply Hone; [done| |done]. by intros v t' [= -> ->].
Qed.

Lemma cut_bytes_Forall (Q : N -> Prop) s : Q REPLACEMENT -> Forall Q s -> forall n, Forall Q (cut_bytes n s).
Proof.
  intros Hr.
  assert (Hone : forall u t, Q u -> (forall n, Forall Q (cut_bytes n t)) ->
    (forall v t', t = v :: t' -> Q v /\ forall n, Forall Q (cut_bytes n t')) ->
    forall n, Forall Q (cut_bytes n (u :: t))).
  { intros u t Hu Ht Ht' n. cbn [cut_bytes].
    assert (Hcut : Forall Q (if 0 <? n then [REPLACEMENT] else [])) by (destruct (0 <? n); by repeat constructor).
    destruct (u <? 0x80)%N; [|destruct (u <? 0x800)%N].
    - destruct (1 <=? n); [by constructor|done].
    - destruct (2 <=? n); [by constructor|done].
    - destruct (is_high_surrogate u); [destruct t as [|v t']; [|destruct (is_low_surrogate v)]|].
      + destruct (3 <=? n); [|done]. constructor; [by destruct (_ && _)|apply Ht].
      + destruct (4 <=? n); [|done]. destruct (Ht' v t' eq_refl) as [? ?]. by repeat constructor.
      + destruct (3 <=? n); [|done]. by constructor.
      + destruct (3 <=? n); [|done]. constructor; [by destruct (_ && _)|apply Ht]. }
  induction s as [|x|x y l IH1 IH2] using list_two_ind; intros Hs.
  - constructor.
  - apply Forall_cons in Hs as [? ?]. apply Hone; [done|constructor|done].
  - apply Forall_cons in Hs as [Hx Hs]. apply Forall_cons in Hs as Hyl. destruct Hyl as [Hy Hl].
    apply Hone; [done|by apply IH1|]. intros v t' [= -> ->]. split; [done|by apply IH2].
Qed.

(** [s.replace(/\uFFFD+$/, "")] *)
Fixpoint strip_start (s : jstr) : jstr :=
  match s with u :: t => if (u =? REPLACEMENT)%N then strip_start t else s | [] => [] end.
Definition strip_replacements (s : jstr) : jstr := reverse (strip_start (reverse s)).

Lemma strip_replacements_take s : exists n, strip_replacements s = take n s.
Proof.
  assert (H : forall r, exists n, strip_start r = drop n r).
  { induction r as [|u r [n IH]]; [by exists 0%nat|]. simpl. destruct (u =? REPLACEMENT)%N; [by exists (S n)|by exists 0%nat]. }
  unfold strip_replacements. destruct (H (reverse s)) as [n ->]. exists (length s - n)%nat.
  by rewrite drop_reverse, reverse_involutive.
Qed.
Lemma strip_replacements_snoc s : strip_replacements (s ++ [REPLACEMENT]) = strip_replacements s.
Proof. unfold strip_replacements. by rewrite reverse_app. Qed.

(** The cut text is what fits, and at most one replacement character. *)
Lemma cut_bytes_fits s : forall n, 0 <= n -> exists p, utf8_len p <= n /\ (cut_bytes n s = p \/ cut_bytes n s = p ++ [REPLACEMENT]).
Proof.
  assert (Hcut : forall n, 0 <= n -> exists p, utf8_len p <= n /\
    ((if 0 <? n then [REPLACEMENT] else []) = p \/ (if 0 <? n then [REPLACEMENT] else []) = p ++ [REPLACEMENT])).
  { intros n Hn. exists []. split; [done|]. destruct (0 <? n); auto. }
  assert (Hstep : forall k n xs l, utf8_len xs <= k -> k <= n ->
    (exists p, utf8_len p <= n - k /\ (l = p \/ l = p ++ [REPLACEMENT])) ->
    exists p, utf8_len p <= n /\ (xs ++ l = p \/ xs ++ l = p ++ [REPLACEMENT])).
  { intros k n xs l Hx Hk (p & Hp & Hl). exists (xs ++ p). pose proof (utf8_len_app xs p). split; [lia|].
    destruct Hl as [-> | ->]; [by left|right; by rewrite app_assoc]. }
  assert (Hthree : forall x, utf8_len [x] <= 3) by (intros x; pose proof (utf8_len_cons x []) as Hx; simpl in *; lia).
  assert (Hone : forall u t, (forall n, 0 <= n -> exists p, utf8_len p <= n /\ (cut_bytes n t = p \/ cut_bytes n t = p ++ [REPLACEMENT])) ->
    (forall v t', t = v :: t' -> forall n, 0 <= n -> exists p, utf8_len p <= n /\ (cut_bytes n t' = p \/ cut_bytes n t' = p ++ [REPLACEMENT])) ->
    forall n, 0 <= n -> exists p, utf8_len p <= n /\ (cut_bytes n (u :: t) = p \/ cut_bytes n (u :: t) = p ++ [REPLACEMENT])).
  { intros u t Ht Ht' n Hn. cbn [cut_bytes]. specialize (Hcut n Hn).
    destruct (u <? 0x80)%N eqn:E1; [|destruct (u <? 0x800)%N eqn:E2].
    - destruct (1 <=? n) eqn:E; to_prop; [|done]. apply (Hstep 1 n [u]); [simpl; rewrite E1; lia|lia|apply Ht; lia].
    - destruct (2 <=? n) eqn:E; to_prop; [|done]. apply (Hstep 2 n [u]); [simpl; rewrite E1, E2; lia|lia|apply Ht; lia].
    - destruct (is_high_surrogate u) eqn:Eh; [destruct t as [|v t']; [|destruct (is_low_surrogate v) eqn:El]|].
      + destruct (3 <=? n) eqn:E; to_prop; [|done]. apply (Hstep 3 n [_]); [apply Hthree|lia|apply Ht; lia].
      + destruct (4 <=? n) eqn:E; to_prop; [|done].
        apply (Hstep 4 n [u; v]); [simpl; rewrite E1, E2, Eh, El; lia|lia|apply (Ht' v t' eq_refl); lia].
      + destruct (3 <=? n) eqn:E; to_prop; [|done]. apply (Hstep 3 n [_]); [apply Hthree|lia|apply Ht; lia].
      + destruct (3 <=? n) eqn:E; to_prop; [|done]. apply (Hstep 3 n [_]); [apply Hthree|lia|apply Ht; lia]. }
  induction s as [|x|x y l IH1 IH2] using list_two_ind; intros n Hn.
  - exists []. by auto.
  - apply Hone; [intros k ?; exists []; by auto|done|done].
  - apply Hone; [done| |done]. by intros v t' [= -> ->].
Qed.

Lemma strip_cut_len n s : 0 <= n -> utf8_len (strip_replacements (cut_bytes n s)) <= n.
Proof.
  intros Hn. destruct (cut_bytes_fits s n Hn) as (p & Hp & [-> | ->]); rewrite ?strip_replacements_snoc;
    destruct (strip_replacements_take p) as [k ->]; pose proof (utf8_len_take k p); lia.
Qed.

(** Cutting and stripping keep an ASCII beginning that fits. *)
Lemma cut_bytes_ascii p t : forall n, Forall (fun u => (u < 0x80)%N) p -> slen p <= n ->
  cut_bytes n (p ++ t) = p ++ cut_bytes (n - slen p) t.
Proof.
  induction p as [|u p IH]; intros n Hp Hn; [simpl; f_equal; unfold slen; simpl; lia|]. apply Forall_cons in Hp as [Hu Hp].
  unfold slen in *. simpl length in *. cbn [app cut_bytes]. rewrite (proj2 (N.ltb_lt u 0x80)) by done.
  rewrite (proj2 (Z.leb_le 1 n)) by lia. f_equal. rewrite IH by (done || lia). do 2 f_equal. lia.
Qed.
Lemma strip_replacements_app p s : match last p with Some u => u <> REPLACEMENT | None => False end ->
  strip_replacements (p ++ s) = p ++ strip_replacements s.
Proof.
  intros Hp. unfold strip_replacements. rewrite reverse_app. assert (H : forall a, strip_start (a ++ reverse p) = strip_start a ++ reverse p).
  { destruct p as [|u p _] using rev_ind; [done|]. rewrite last_snoc in Hp. rewrite reverse_snoc.
    induction a as [|x a IH]; simpl; [by rewrite (proj2 (N.eqb_neq _ _))|]. by destruct (x =? REPLACEMENT)%N. }
  by rewrite H, reverse_app, reverse_involutive.
Qed.

(** ** Trimming twice *)

Definition trimmed (s : jstr) : Prop := trim s = s.
Lemma trim_start_head s : match trim_start s with [] => True | u :: _ => is_space u = false end.
Proof. induction s as [|u s IH]; simpl; [done|]. by destruct (is_space u) eqn:E. Qed.
Lemma trim_start_fixed s : match s with [] => True | u :: _ => is_space u = false end -> trim_start s = s.
Proof. destruct s as [|u s]; [done|]. simpl. by intros ->. Qed.
Lemma trim_trimmed s : trimmed (trim s).
Proof.
  unfold trimmed, trim, trim_end. pose proof (trim_start_head s) as Hh. set (a := trim_start s) in *. clearbody a.
  pose proof (trim_start_head (reverse a)) as Hl. destruct (trim_start_drop (reverse a)) as [k Hk].
  assert (trim_start (reverse (trim_start (reverse a))) = reverse (trim_start (reverse a))) as ->.
  { apply trim_start_fixed. rewrite Hk, drop_reverse, reverse_involutive. destruct a as [|u a]; [by rewrite take_nil|].
    by destruct (length (u :: a) - k)%nat. }
  rewrite reverse_involutive. by rewrite trim_start_fixed.
Qed.

(** ** The order of [sort()]: by code units *)

Fixpoint jstr_compare (l r : jstr) : Z :=
  match l, r with
  | [], [] => 0
  | [], _ => -1
  | _, [] => 1
  | a :: l', b :: r' => if (a <? b)%N then -1 else if (b <? a)%N then 1 else jstr_compare l' r'
  end.

Lemma jstr_compare_total x : forall y, 0 < jstr_compare x y -> jstr_compare y x <= 0.
Proof.
  induction x as [|a x IH]; intros [|b y]; cbn; try lia. destruct (N.ltb_spec a b), (N.ltb_spec b a); try lia. by apply IH.
Qed.
Lemma jstr_compare_trans x : forall y z, jstr_compare x y <= 0 -> jstr_compare y z <= 0 -> jstr_compare x z <= 0.
Proof.
  induction x as [|a x IH]; intros [|b y] [|c z]; cbn; try lia.
  destruct (N.ltb_spec a b), (N.ltb_spec b a), (N.ltb_spec b c), (N.ltb_spec c b), (N.ltb_spec a c), (N.ltb_spec c a); try lia; eauto.
Qed.

(** [toLowerCase], exact on every code unit whose lower case has an ASCII part:
    besides the capitals, the Kelvin sign and the dotted capital I. *)
Definition lower_units (u : N) : jstr :=
  if ((65 <=? u) && (u <=? 90))%N then [(u + 32)%N]
  else if (u =? 0x212A)%N then [107%N] else if (u =? 0x130)%N then [105; 0x307]%N else [u].
Definition toLowerCase (s : jstr) : jstr := concat (map lower_units s).
