(* ===== verification/Regex.v ===== *)
(** * Regular expressions of the source

    ECMAScript's backtracking matcher (without the [u] flag) for the constructs
    the source's patterns use, so that a pattern is written down as data and
    executed. An iteration of a star that consumes nothing fails, as the
    standard has it, which also bounds the iterations by the input's length. *)

From S2P Require Import Prelude JsValue.

Inductive regex :=
| Class (p : N -> bool)          (* one code unit *)
| Eps
| Seq (a b : regex)
| Alt (a b : regex)
| Star (greedy : bool) (a : regex)
| Group (i : nat) (a : regex)    (* the i-th capture *)
| LineStart | LineEnd            (* [^] and [$] with the [m] flag *)
| InputStart | InputEnd          (* [^] and [$] without it *)
| WordBoundary.

(** Where a match stands: the code units before it (last first), those after
    it, and the captures made, latest first. *)
Record scan := Scan { before : jstr; rest : jstr; caps : list (nat * jstr) }.

Definition is_word (u : N) : bool :=
  ((48 <=? u) && (u <=? 57) || (65 <=? u) && (u <=? 90) || (97 <=? u) && (u <=? 122) || (u =? 95))%N.
Definition is_newline (u : N) : bool := ((u =? 10) || (u =? 13) || (u =? 0x2028) || (u =? 0x2029))%N.
Definition head_is (p : N -> bool) (s : jstr) : bool := match s with u :: _ => p u | [] => false end.
Definition line_edge (s : jstr) : bool := match s with u :: _ => is_newline u | [] => true end.
Definition input_edge (s : jstr) : bool := match s with _ :: _ => false | [] => true end.

Definition advance (u : N) (t : jstr) (s : scan) : scan := Scan (u :: before s) t (caps s).
Definition capture (i : nat) (from : scan) (s : scan) : scan :=
  Scan (before s) (rest s) ((i, take (length (rest from) - length (rest s)) (rest from)) :: caps s).
Definition orelse {A} (a b : option A) : option A := match a with Some _ => a | None => b end.

(** The iterations of a star around the match [body] of its operand. *)
Fixpoint star_loop (body : (scan -> option scan) -> scan -> option scan) (greedy : bool)
    (k : scan -> option scan) (fuel : nat) (s : scan) : option scan :=
  match fuel with
  | O => k s
  | S fuel =>
      let again := body (fun s' => if Nat.ltb (length (rest s')) (length (rest s))
                                   then star_loop body greedy k fuel s' else None) s in
      if greedy then orelse again (k s) else orelse (k s) again
  end.

Fixpoint matcher (r : regex) (k : scan -> option scan) (s : scan) {struct r} : option scan :=
  match r with
  | Class p => match rest s with
               | u :: t => if p u then k (advance u t s) else None
               | [] => None
               end
  | Eps => k s
  | Seq a b => matcher a (matcher b k) s
  | Alt a b => orelse (matcher a k s) (matcher b k s)
  | Star greedy a => star_loop (matcher a) greedy k (length (rest s)) s
  | Group i a => matcher a (fun s' => k (capture i s s')) s
  | LineStart => if line_edge (before s) then k s else None
  | LineEnd => if line_edge (rest s) then k s else None
  | InputStart => if input_edge (before s) then k s else None
  | InputEnd => if input_edge (rest s) then k s else None
  | WordBoundary => if xorb (head_is is_word (before s)) (head_is is_word (rest s)) then k s else None
  end.

(** The leftmost match: where it starts and where it ends. *)
Fixpoint search (r : regex) (before rest : jstr) : option (scan * scan) :=
  match matcher r Some (Scan before rest []) with
  | Some s' => Some (Scan before rest [], s')
  | None => match rest with [] => None | u :: t => search r (u :: before) t end
  end.

Definition exec (r : regex) (s : jstr) : option (scan * scan) := search r [] s.
Definition test (r : regex) (s : jstr) : bool := bool_decide (is_Some (exec r s)).

(** [match[i] ?? ""] *)
Fixpoint group (i : nat) (c : list (nat * jstr)) : jstr :=
  match c with [] => [] | (j, s) :: c' => if Nat.eqb i j then s else group i c' end.
(** [match[0]] *)
Definition matched (start stop : scan) : jstr := take (length (rest start) - length (rest stop)) (rest start).

(** [s.replace(r, f)] with the [g] flag; after an empty match the scan moves
    one code unit on. *)
Fixpoint replace_from (fuel : nat) (r : regex) (f : list (nat * jstr) -> jstr) (before rest : jstr) : jstr :=
  match fuel with
  | O => rest
  | S fuel =>
      let move rest := match rest with [] => [] | u :: t => u :: replace_from fuel r f (u :: before) t end in
      match matcher r Some (Scan before rest []) with
      | Some (Scan before' rest' c) =>
          f c ++ (if Nat.ltb (length rest') (length rest) then replace_from fuel r f before' rest'
                  else move rest)
      | None => move rest
      end
  end.
Definition replace_all (r : regex) (f : list (nat * jstr) -> jstr) (s : jstr) : jstr :=
  replace_from (S (length s)) r f [] s.

(** ** Building patterns *)

Definition one (c : N) : regex := Class (N.eqb c).
Definition seqs (l : list regex) : regex := fold_right Seq Eps l.
Definition lit (s : string) : regex := seqs (map one (js s)).
(** a literal with the [i] flag *)
Definition fold_case (u : N) : N := if ((65 <=? u) && (u <=? 90))%N then (u + 32)%N else u.
Definition ilit (s : string) : regex := seqs (map (fun c => Class (fun u => (fold_case u =? fold_case c)%N)) (js s)).
Definition opt (a : regex) : regex := Alt a Eps.
Definition star (a : regex) : regex := Star true a.
Definition plus (a : regex) : regex := Seq a (Star true a).
Definition lazy_plus (a : regex) : regex := Seq a (Star false a).
Fixpoint times (n : nat) (a : regex) : regex := match n with O => Eps | S n => Seq a (times n a) end.
(** [a{n,}] *)
Definition at_least (n : nat) (a : regex) : regex := Seq (times n a) (Star true a).
Definition alts (l : list regex) : regex :=
  match l with [] => Class (fun _ => false) | a :: l' => fold_left Alt l' a end.
Definition space : regex := Class is_space.
Definition spaces : regex := star space.
Definition dot : regex := Class (fun u => negb (is_newline u)).
Definition any_of (s : string) (u : N) : bool := existsb (N.eqb u) (js s).
Definition alnum (u : N) : bool := is_word u && negb (u =? 95)%N.

(** ** What a match means *)

(** [consumes r b m a]: [r] matches the text [m] between [b] (reversed) and [a]. *)
Inductive consumes : regex -> jstr -> jstr -> jstr -> Prop :=
| c_class p b u a : p u = true -> consumes (Class p) b [u] a
| c_eps b a : consumes Eps b [] a
| c_seq r1 r2 b m1 m2 a : consumes r1 b m1 (m2 ++ a) -> consumes r2 (reverse m1 ++ b) m2 a ->
    consumes (Seq r1 r2) b (m1 ++ m2) a
| c_alt_l r1 r2 b m a : consumes r1 b m a -> consumes (Alt r1 r2) b m a
| c_alt_r r1 r2 b m a : consumes r2 b m a -> consumes (Alt r1 r2) b m a
| c_star_stop g r b a : consumes (Star g r) b [] a
| c_star_more g r b m1 m2 a : m1 <> [] -> consumes r b m1 (m2 ++ a) ->
    consumes (Star g r) (reverse m1 ++ b) m2 a -> consumes (Star g r) b (m1 ++ m2) a
| c_group i r b m a : consumes r b m a -> consumes (Group i r) b m a
| c_line_start b a : line_edge b = true -> consumes LineStart b [] a
| c_line_end b a : line_edge a = true -> consumes LineEnd b [] a
| c_input_start b a : input_edge b = true -> consumes InputStart b [] a
| c_input_end b a : input_edge a = true -> consumes InputEnd b [] a
| c_boundary b a : xorb (head_is is_word b) (head_is is_word a) = true -> consumes WordBoundary b [] a.

(** A scan that has moved over [m] *)
Definition moved (s s' : scan) (m : jstr) : Prop := rest s = m ++ rest s' /\ before s' = reverse m ++ before s.

Lemma moved_nil s : moved s s []. Proof. done. Qed.
Lemma moved_app s1 s2 s3 m1 m2 : moved s1 s2 m1 -> moved s2 s3 m2 -> moved s1 s3 (m1 ++ m2).
Proof. intros [H1 H2] [H3 H4]. split; [by rewrite H1, H3, app_assoc|]. by rewrite H4, H2, reverse_app, app_assoc. Qed.

(** The code units a scan still reads or has captured *)
Definition units (P : N -> Prop) (s : scan) : Prop :=
  Forall P (rest s) /\ Forall (fun c => Forall P c.2) (caps s).

Lemma units_capture P i s s' : units P s -> units P s' -> units P (capture i s s').
Proof. intros [H _] [? ?]. split; [done|]. constructor; [|done]. by apply Forall_take. Qed.

(** The matcher is sound: what its continuation is called on lies one match
    further on, and captures only text of the input. *)
Lemma matcher_sound r : forall k s x, matcher r k s = Some x ->
  exists s' m, moved s s' m /\ consumes r (before s) m (rest s') /\ k s' = Some x /\
    forall P, units P s -> units P s'.
Proof.
  induction r as [p| |r1 IH1 r2 IH2|r1 IH1 r2 IH2|g r IH|i r IH| | | | |]; intros k s x H; cbn [matcher] in H.
  - destruct (rest s) as [|u t] eqn:E; [done|]. destruct (p u) eqn:Ep; [|done].
    exists (advance u t s), [u]. split_and!; [by split|by constructor|done|].
    intros P [Hr Hc]. rewrite E in Hr. split; [by apply Forall_cons in Hr as [_ ?]|done].
  - exists s, []. split_and!; [done|constructor|done|done].
  - apply IH1 in H as (s1 & m1 & Hm1 & Hc1 & H & ?). apply IH2 in H as (s2 & m2 & Hm2 & Hc2 & H & ?).
    exists s2, (m1 ++ m2). split_and!; [by eapply moved_app| |done|by auto].
    destruct Hm1 as [E1 E2], Hm2 as [E3 E4]. constructor; [by rewrite <- E3|by rewrite <- E2].
  - unfold orelse in H. destruct (matcher r1 k s) eqn:E.
    + rewrite H in E. apply IH1 in E as (s' & m & ? & ? & ? & ?). exists s', m. split_and!; [done|by constructor|done|done].
    + apply IH2 in H as (s' & m & ? & ? & ? & ?). exists s', m. split_and!; [done|by constructor|done|done].
  - revert H. generalize (length (rest s)). intros fuel. revert s. induction fuel as [|fuel IHf]; intros s H.
    + exists s, []. split_and!; [done|constructor|done|done].
    + cbn [star_loop] in H. set (again := matcher r _ s) in H. assert (Hor : k s = Some x \/ again = Some x).
      { destruct g, (k s), again; simpl in H; auto. }
      destruct Hor as [Hk|Ha]; [by exists s, []; split_and!; [|constructor| |]|].
      apply IH in Ha as (s1 & m1 & Hm1 & Hc1 & Ha & ?). destruct (Nat.ltb _ _) eqn:El; [|done].
      apply IHf in Ha as (s2 & m2 & Hm2 & Hc2 & Ha & ?). exists s2, (m1 ++ m2).
      split_and!; [by eapply moved_app| |done|by auto]. destruct Hm1 as [E1 E2], Hm2 as [E3 E4].
      constructor; [|by rewrite <- E3|by rewrite <- E2]. intros ->. apply Nat.ltb_lt in El.
      rewrite E1 in El. simpl in El. lia.
  - apply IH in H as (s' & m & [? ?] & Hc & Hk & ?). exists (capture i s s'), m.
    split_and!; [done|by constructor|done|]. intros P HP. apply units_capture; auto.
  - destruct (line_edge (before s)) eqn:E; [|done]. exists s, []. split_and!; [done|by constructor|done|done].
  - destruct (line_edge (rest s)) eqn:E; [|done]. exists s, []. split_and!; [done|by constructor|done|done].
  - destruct (input_edge (before s)) eqn:E; [|done]. exists s, []. split_and!; [done|by constructor|done|done].
  - destruct (input_edge (rest s)) eqn:E; [|done]. exists s, []. split_and!; [done|by constructor|done|done].
  - destruct (xorb _ _) eqn:E; [|done]. exists s, []. split_and!; [done|by constructor|done|done].
Qed.

Lemma matcher_none r k s : (forall s', k s' = None) -> matcher r k s = None.
Proof. intros Hk. destruct (matcher r k s) eqn:E; [|done]. apply matcher_sound in E as (? & ? & _ & _ & E & _). congruence. Qed.

Lemma star_loop_ext body g k k' n s : (forall k k' s, (forall s, k s = k' s) -> body k s = body k' s) ->
  (forall s, k s = k' s) -> star_loop body g k n s = star_loop body g k' n s.
Proof.
  intros Hb Hk. revert s. induction n as [|n IH]; intros s; simpl; [apply Hk|].
  rewrite (Hb _ (fun s' => if Nat.ltb (length (rest s')) (length (rest s)) then star_loop body g k' n s' else None)).
  - by rewrite Hk.
  - intros s'. by rewrite IH.
Qed.
Lemma matcher_ext r : forall k k' s, (forall s, k s = k' s) -> matcher r k s = matcher r k' s.
Proof.
  induction r as [p| |r1 IH1 r2 IH2|r1 IH1 r2 IH2|g r IH|i r IH| | | | |]; intros k k' s Hk; cbn [matcher].
  - destruct (rest s) as [|u t]; [done|]. by rewrite Hk.
  - apply Hk.
  - apply IH1. intros s'. by apply IH2.
  - by rewrite (IH1 k k'), (IH2 k k').
  - by apply star_loop_ext.
  - by apply IH.
  - by rewrite Hk.
  - by rewrite Hk.
  - by rewrite Hk.
  - by rewrite Hk.
  - by rewrite Hk.
Qed.

Lemma orelse_is_Some {A} (a b : option A) : is_Some a \/ is_Some b -> is_Some (orelse a b).
Proof. destruct a, b; simpl; intros [[? H]|[? H]]; done || by eexists. Qed.

(** As many iterations as there are code units left are enough. *)
Lemma star_loop_fuel r g k n n' s : (length (rest s) <= n)%nat -> (length (rest s) <= n')%nat ->
  star_loop (matcher r) g k n s = star_loop (matcher r) g k n' s.
Proof.
  revert n' s. induction n as [|n IH]; intros n' s Hn Hn'; destruct n' as [|n']; cbn [star_loop]; [done| | |].
  1,2: rewrite matcher_none by (intros s'; by replace (length (rest s)) with O by lia);
    by destruct g, (k s).
  erewrite matcher_ext; [done|]. intros s'. cbn beta. destruct (Nat.ltb _ _) eqn:E; [|done].
  apply Nat.ltb_lt in E. apply IH; lia.
Qed.
(** The matcher is complete: it finds a match when there is one its
    continuation accepts. *)
Lemma matcher_complete r b m a : consumes r b m a -> forall k c,
  (forall c', is_Some (k (Scan (reverse m ++ b) a c'))) -> is_Some (matcher r k (Scan b (m ++ a) c)).
Proof.
  induction 1 as [p b u a Hp|b a|r1 r2 b m1 m2 a _ IH1 _ IH2|r1 r2 b m a _ IH|r1 r2 b m a _ IH|g r b a
    |g r b m1 m2 a Hne Hc1 IH1 Hc2 IH2|i r b m a _ IH|b a E|b a E|b a E|b a E|b a E]; intros k c Hk; cbn [matcher].
  - simpl. rewrite Hp. apply Hk.
  - apply Hk.
  - rewrite <- app_assoc. apply IH1. intros c1. apply IH2. intros c2.
    specialize (Hk c2). by rewrite reverse_app, <- app_assoc in Hk.
  - apply orelse_is_Some. left. by apply IH.
  - apply orelse_is_Some. right. by apply IH.
  - rewrite (star_loop_fuel _ _ _ _ (S (length a))) by (simpl; lia).
    cbn [star_loop]. destruct g; apply orelse_is_Some; [right|left]; apply Hk.
  - assert (Hl : (length (m2 ++ a) < length (m1 ++ m2 ++ a))%nat).
    { destruct m1; [done|]. rewrite (length_app (n :: m1)). simpl. lia. }
    rewrite <- app_assoc. rewrite (star_loop_fuel _ _ _ _ (S (length (m1 ++ m2 ++ a)))) by (simpl; lia).
    cbn [star_loop]. assert (is_Some (matcher r (fun s' => if Nat.ltb (length (rest s')) (length (m1 ++ m2 ++ a))
      then star_loop (matcher r) g k (length (m1 ++ m2 ++ a)) s' else None) (Scan b (m1 ++ m2 ++ a) c))) as Hs.
    { apply IH1. intros c1. cbn [rest]. rewrite (proj2 (Nat.ltb_lt _ _)) by done.
      rewrite (star_loop_fuel _ _ _ _ (length (m2 ++ a))) by (simpl; lia).
      apply (IH2 k c1). intros c2. specialize (Hk c2). by rewrite reverse_app, <- app_assoc in Hk. }
    destruct g; apply orelse_is_Some; [left|right]; exact Hs.
  - apply IH. intros c1. apply Hk.
  - simpl. rewrite E. apply Hk.
  - simpl. rewrite E. apply Hk.
  - simpl. rewrite E. apply Hk.
  - simpl. rewrite E. apply Hk.
  - simpl. rewrite E. apply Hk.
Qed.

(** ** Captures *)

Fixpoint group_free (r : regex) : bool :=
  match r with
  | Seq a b | Alt a b => group_free a && group_free b
  | Star _ a => group_free a
  | Group _ _ => false
  | _ => true
  end.

(** A pattern without groups leaves the captures alone. *)
Lemma matcher_caps r : group_free r = true -> forall k s x, matcher r k s = Some x ->
  exists s', k s' = Some x /\ caps s' = caps s.
Proof.
  induction r as [p| |r1 IH1 r2 IH2|r1 IH1 r2 IH2|g r IH|i r IH| | | | |]; intros Hg k s x H; cbn [matcher] in H; cbn in Hg.
  - destruct (rest s) as [|u t]; [done|]. destruct (p u); [|done]. by exists (advance u t s).
  - by exists s.
  - apply andb_prop in Hg as [G1 G2]. apply (IH1 G1) in H as (s1 & H & E1).
    apply (IH2 G2) in H as (s2 & H & E2). exists s2. split; [done|congruence].
  - apply andb_prop in Hg as [G1 G2]. unfold orelse in H. destruct (matcher r1 k s) eqn:E; [|by apply (IH2 G2)].
    rewrite H in E. by apply (IH1 G1).
  - revert H. generalize (length (rest s)). intros fuel. revert s. induction fuel as [|fuel IHf]; intros s H; [by exists s|].
    cbn [star_loop] in H. set (again := matcher r _ s) in H. assert (Hor : k s = Some x \/ again = Some x).
    { destruct g, (k s), again; simpl in H; auto. }
    destruct Hor as [Hk|Ha]; [by exists s|]. apply (IH Hg) in Ha as (s1 & Ha & E1).
    destruct (Nat.ltb _ _); [|done]. apply IHf in Ha as (s2 & Ha & E2). exists s2. split; [done|congruence].
  - done.
  - destruct (line_edge (before s)); [|done]. by exists s.
  - destruct (line_edge (rest s)); [|done]. by exists s.
  - destruct (input_edge (before s)); [|done]. by exists s.
  - destruct (input_edge (rest s)); [|done]. by exists s.
  - destruct (xorb _ _); [|done]. by exists s.
Qed.

(** ** Searching and replacing *)

Lemma search_sound r b t start stop : search r b t = Some (start, stop) ->
  exists m, reverse b ++ t = reverse (before start) ++ rest start /\ moved start stop m /\
    consumes r (before start) m (rest stop) /\ forall P, Forall P t -> units P start /\ units P stop.
Proof.
  revert b. induction t as [|u t IH]; intros b; simpl; destruct (matcher _ _ _) eqn:E; try done.
  1,2: intros [= <- <-]; apply matcher_sound in E as (s' & m & Hm & Hc & [= ->] & Hu); exists m;
    split_and!; [done..|]; intros P HP; (split; [by split|]; apply Hu; by split).
  intros H. apply IH in H as (m & Ht & Hm & Hc & Hu). exists m. split_and!; [|done..|].
  - by rewrite <- Ht, reverse_cons, <- app_assoc.
  - intros P [_ HP]%Forall_cons. by apply Hu.
Qed.
Lemma search_complete r b t m1 m2 m3 : t = m1 ++ m2 ++ m3 -> consumes r (reverse m1 ++ b) m2 m3 ->
  is_Some (search r b t).
Proof.
  intros -> Hc. revert b Hc. induction m1 as [|u m1 IH]; intros b Hc.
  - assert (is_Some (matcher r Some (Scan b (m2 ++ m3) []))) as [x Hx] by by apply matcher_complete.
    simpl. destruct (m2 ++ m3); simpl; rewrite Hx; by eexists.
  - simpl. destruct (matcher _ _ _); [by eexists|]. apply IH. by rewrite reverse_cons, <- app_assoc in Hc.
Qed.

(** A pattern is found in a string exactly when some part of it matches. *)
Lemma test_spec r s : test r s = true <->
  exists m1 m2 m3, s = m1 ++ m2 ++ m3 /\ consumes r (reverse m1) m2 m3.
Proof.
  unfold test, exec. rewrite bool_decide_eq_true. split.
  - intros [[start stop] H]. apply search_sound in H as (m & Hs & [Hm _] & Hc & _).
    exists (reverse (before start)), m, (rest stop). rewrite reverse_involutive, <- Hm. by rewrite reverse_nil in Hs.
  - intros (m1 & m2 & m3 & Hs & Hc). eapply search_complete; [exact Hs|]. by rewrite app_nil_r.
Qed.

(** Replacing keeps a property of all code units that the replacements have
    whenever their captures have it. *)
Lemma replace_from_Forall (P : N -> Prop) r f n : (forall c, Forall (fun c => Forall P c.2) c -> Forall P (f c)) ->
  forall b t, Forall P t -> Forall P (replace_from n r f b t).
Proof.
  intros Hf. induction n as [|n IH]; intros b t Ht; [done|]. cbn [replace_from].
  assert (Hmove : Forall P match t with [] => [] | u :: t => u :: replace_from n r f (u :: b) t end).
  { destruct t as [|u t]; [done|]. apply Forall_cons in Ht as [? ?]. constructor; [done|by apply IH]. }
  destruct (matcher _ _ _) as [[b' t' c]|] eqn:E; [|done].
  apply matcher_sound in E as (s' & m & _ & _ & [= ->] & Hu). destruct (Hu P) as [? ?]; [by split|].
  apply Forall_app. split; [by apply Hf|]. destruct (Nat.ltb _ _); [by apply IH|done].
Qed.
Lemma replace_all_Forall P r f s : (forall c, Forall (fun c => Forall P c.2) c -> Forall P (f c)) ->
  Forall P s -> Forall P (replace_all r f s).
Proof. intros Hf. by apply replace_from_Forall. Qed.

(** Text without a match is left alone. *)
Lemma replace_from_id r f n b t : search r b t = None -> (length t < n)%nat -> replace_from n r f b t = t.
Proof.
  revert b t. induction n as [|n IH]; intros b t Hs Hn; [lia|]. cbn [replace_from].
  destruct t as [|u t]; cbn [search] in Hs; destruct (matcher _ _ _); try done.
  f_equal. apply IH; [done|]. simpl in Hn. lia.
Qed.
Lemma replace_all_id r f s : test r s = false -> replace_all r f s = s.
Proof.
  intros H. apply replace_from_id; [|lia]. unfold test, exec in H. apply bool_decide_eq_false in H.
  destruct (search _ _ _); [|done]. by exfalso; apply H; eexists.
Qed.

(** ** Classes *)

(** A class under [*] matches exactly the texts of its code units. *)
Lemma consumes_star_class g p b m a : consumes (Star g (Class p)) b m a <-> Forall (fun u => p u = true) m.
Proof.
  split.
  - remember (Star g (Class p)) as r eqn:E. intros H. revert E. induction H; intros E; try done.
    injection E as -> ->. apply Forall_app. split; [|by apply IHconsumes2]. inversion H0; subst. by constructor.
  - intros H. revert b. induction H as [|u m Hu _ IH]; intros b; [constructor|].
    apply (c_star_more g (Class p) b [u] m a); [done|by constructor|apply IH].
Qed.
Lemma consumes_plus_class p b m a : consumes (plus (Class p)) b m a <-> m <> [] /\ Forall (fun u => p u = true) m.
Proof.
  split.
  - intros H. inversion H as [| |r1 r2 b' m1 m2 a' H1 H2| | | | | | | | | |]; subst. inversion H1; subst.
    apply consumes_star_class in H2. split; [done|by constructor].
  - intros [Hne H]. destruct H as [|u m Hu Hm]; [done|].
    apply (c_seq _ _ b [u] m a); [by constructor|by apply consumes_star_class].
Qed.

(** Inversion of matches *)
Lemma consumes_seq r1 r2 b m a : consumes (Seq r1 r2) b m a <->
  exists m1 m2, m = m1 ++ m2 /\ consumes r1 b m1 (m2 ++ a) /\ consumes r2 (reverse m1 ++ b) m2 a.
Proof.
  split; [|intros (m1 & m2 & -> & ? & ?); by constructor].
  intros H. inversion H; subst. by exists m1, m2.
Qed.
Lemma consumes_class p b m a : consumes (Class p) b m a <-> exists u, m = [u] /\ p u = true.
Proof. split; [intros H; inversion H; subst; by exists u|intros (u & -> & ?); by constructor]. Qed.
Lemma consumes_one c b m a : consumes (one c) b m a <-> m = [c].
Proof.
  unfold one. rewrite consumes_class. split; [by intros (u & -> & ->%N.eqb_eq)|]. intros ->. exists c. by rewrite N.eqb_refl.
Qed.
Lemma consumes_eps b m a : consumes Eps b m a <-> m = [].
Proof. split; [by inversion 1|intros ->; constructor]. Qed.
Lemma consumes_input_start b m a : consumes InputStart b m a <-> m = [] /\ b = [].
Proof. split; [inversion 1; by destruct b|intros [-> ->]; by constructor]. Qed.
Lemma consumes_input_end b m a : consumes InputEnd b m a <-> m = [] /\ a = [].
Proof. split; [inversion 1; by destruct a|intros [-> ->]; by constructor]. Qed.

(** Deleting a character leaves none of it. *)
Lemma delete_one c s : Forall (fun u => u <> c) (replace_all (one c) (fun _ => []) s).
Proof.
  unfold replace_all. assert (H : forall n b t, (length t < n)%nat -> Forall (fun u => u <> c) (replace_from n (one c) (fun _ => []) b t)).
  { induction n as [|n IH]; intros b t Hn; [lia|]. cbn [replace_from one]. destruct t as [|u t]; [constructor|].
    simpl in Hn. change (matcher (one c) Some (Scan b (u :: t) [])) with
      (if (c =? u)%N then Some (advance u t (Scan b (u :: t) [])) else None).
    destruct (c =? u)%N eqn:E.
    - cbn [advance app]. rewrite (proj2 (Nat.ltb_lt (length t) _)) by (simpl; lia). apply IH. lia.
    - constructor; [apply N.eqb_neq in E; congruence|apply IH; lia]. }
  apply H. lia.
Qed.

Example lazy_group : group 1 (caps (default (Scan [] [] [], Scan [] [] [])
  (exec (seqs [LineStart; ilit "state:"; spaces; Group 1 (lazy_plus dot); spaces; LineEnd]) (js "x
State:  done  
y"))).2) = js "done".
Proof. vm_compute. reflexivity. Qed.
