(* ===== verification/JsMap.v ===== *)
(** * JavaScript's [Map]: a finite map that iterates in insertion order

    [set] of a present key keeps its place, [set] of a new one appends. The
    components that list their maps in order, or rewrite them to disk, are
    modelled on these; a map whose order is never observed is a [gmap]. *)

From S2P Require Import Prelude.

Section JsMap.
Context {K V : Type} `{EqDecision K}.
Implicit Types (m : list (K * V)) (k : K) (v : V).

Definition map_get m k : option V := snd <$> head (filter (fun kv => kv.1 = k) m).
Definition map_has m k : bool := existsb (fun kv => bool_decide (kv.1 = k)) m.
Fixpoint map_set m k v : list (K * V) :=
  match m with
  | [] => [(k, v)]
  | (k', v') :: m' => if bool_decide (k' = k) then (k', v) :: m' else (k', v') :: map_set m' k v
  end.
Definition map_delete m k : list (K * V) := filter (fun kv => kv.1 <> k) m.
Definition map_values m : list V := map snd m.
Definition map_of (l : list (K * V)) : list (K * V) :=
  fold_left (fun m kv => map_set m kv.1 kv.2) l [].

Definition map_wf m : Prop := NoDup (map fst m).

Lemma map_get_nil k : map_get [] k = None. Proof. done. Qed.
Lemma map_get_cons k' v' m k :
  map_get ((k', v') :: m) k = if bool_decide (k' = k) then Some v' else map_get m k.
Proof. unfold map_get. rewrite filter_cons. simpl. case_decide; case_bool_decide; naive_solver. Qed.

Lemma map_get_set m k v k' :
  map_get (map_set m k v) k' = if bool_decide (k = k') then Some v else map_get m k'.
Proof.
  induction m as [|[k1 v1] m IH]; simpl map_set; [by rewrite map_get_cons|].
  destruct (decide (k1 = k)) as [->|H1].
  - rewrite (bool_decide_eq_true_2 (k = k)), !map_get_cons by done. by case_bool_decide.
  - rewrite (bool_decide_eq_false_2 (k1 = k)), !map_get_cons, IH by done.
    repeat case_bool_decide; congruence.
Qed.
Lemma map_get_set_eq m k v : map_get (map_set m k v) k = Some v.
Proof. by rewrite map_get_set, bool_decide_eq_true_2. Qed.
Lemma map_get_set_ne m k v k' : k <> k' -> map_get (map_set m k v) k' = map_get m k'.
Proof. intros. by rewrite map_get_set, bool_decide_eq_false_2. Qed.

Lemma map_get_filter (P : K * V -> Prop) `{forall x, Decision (P x)} m k : map_wf m ->
  map_get (filter P m) k = (v ← map_get m k; if decide (P (k, v)) then Some v else None).
Proof.
  unfold map_wf. induction m as [|[k1 v1] m IH]; [done|]. simpl. intros [Hn Hnd]%NoDup_cons.
  rewrite filter_cons, (map_get_cons k1 v1 m). case_bool_decide as Hk.
  - subst. simpl. case_decide; [by rewrite map_get_cons, bool_decide_eq_true_2|].
    unfold map_get. enough (filter (fun kv => kv.1 = k) (filter P m) = []) as -> by done.
    destruct (filter _ (filter P m)) as [|[k2 v2] l] eqn:E; [done|].
    assert (Hin : (k2, v2) ∈ filter (fun kv => kv.1 = k) (filter P m)) by (rewrite E; by left).
    apply list_elem_of_filter in Hin as [Hk2 [_ Hin]%list_elem_of_filter]. simpl in Hk2. subst.
    exfalso. apply Hn. by apply (list_elem_of_fmap_2 fst m (k, v2)) in Hin.
  - case_decide; [|by apply IH]. rewrite map_get_cons, bool_decide_eq_false_2 by done. by apply IH.
Qed.

Lemma map_get_delete m k k' :
  map_get (map_delete m k) k' = if bool_decide (k = k') then None else map_get m k'.
Proof.
  unfold map_delete. induction m as [|[k1 v1] m IH]; [by case_bool_decide|].
  rewrite filter_cons. simpl. destruct (decide (k1 = k)) as [->|H1].
  - rewrite decide_False, map_get_cons, IH by naive_solver. by case_bool_decide.
  - rewrite decide_True, !map_get_cons, IH by done. repeat case_bool_decide; congruence.
Qed.

Lemma map_get_elem m k v : map_get m k = Some v -> (k, v) ∈ m.
Proof.
  induction m as [|[k1 v1] m IH]; [done|]. rewrite map_get_cons. case_bool_decide.
  - intros [= ->]. subst. by left.
  - intros. right. auto.
Qed.
Lemma map_elem_get m k v : map_wf m -> (k, v) ∈ m -> map_get m k = Some v.
Proof.
  unfold map_wf. induction m as [|[k1 v1] m IH]; simpl; [by intros _ ?%not_elem_of_nil|].
  intros [Hn Hnd]%NoDup_cons. rewrite map_get_cons.
  intros [[= <- <-]|Hin]%elem_of_cons; [by rewrite bool_decide_eq_true_2|].
  rewrite bool_decide_eq_false_2; [auto|]. intros <-. apply Hn.
  by apply (list_elem_of_fmap_2 fst m (k1, v)) in Hin.
Qed.

Lemma map_has_get m k : map_has m k = bool_decide (is_Some (map_get m k)).
Proof.
  induction m as [|[k1 v1] m IH]; [done|]. simpl. rewrite map_get_cons, IH.
  repeat case_bool_decide; naive_solver.
Qed.

Lemma map_delete_absent m k : map_get m k = None -> map_delete m k = m.
Proof.
  induction m as [|[k1 v1] m IH]; [done|]. rewrite map_get_cons. unfold map_delete in *.
  case_bool_decide; [done|]. intros Hm. rewrite filter_cons_True by done. f_equal. auto.
Qed.

Lemma map_set_keys m k v :
  map fst (map_set m k v) = if bool_decide (k ∈ map fst m) then map fst m else map fst m ++ [k].
Proof.
  induction m as [|[k1 v1] m IH]; [done|]. simpl map_set. simpl (map fst (_ :: m)).
  destruct (decide (k1 = k)) as [->|H1].
  - rewrite !bool_decide_eq_true_2 by (done || by left). done.
  - rewrite (bool_decide_eq_false_2 (k1 = k)) by done. simpl. rewrite IH.
    rewrite (bool_decide_ext (k ∈ k1 :: map fst m) (k ∈ map fst m)); [by case_bool_decide|].
    rewrite elem_of_cons. naive_solver.
Qed.

Lemma map_delete_keys m k v : map_wf m -> map_get m k = Some v ->
  map fst m ≡ₚ k :: map fst (map_delete m k).
Proof.
  unfold map_wf. induction m as [|[k1 v1] m IH]; [done|]. simpl. intros [Hn Hnd]%NoDup_cons.
  rewrite map_get_cons. unfold map_delete in *. destruct (decide (k1 = k)) as [->|Hk].
  - intros _. rewrite filter_cons_False by (simpl; naive_solver). f_equiv.
    change (filter _ m) with (map_delete m k). rewrite map_delete_absent; [done|].
    destruct (map_get m k) as [w|] eqn:E; [|done]. exfalso. apply Hn.
    apply map_get_elem in E. by apply (list_elem_of_fmap_2 fst m (k, w)).
  - rewrite bool_decide_eq_false_2, filter_cons_True by done. intros Hg. simpl.
    rewrite (IH Hnd Hg) at 1. apply perm_swap.
Qed.

Lemma map_set_wf m k v : map_wf m -> map_wf (map_set m k v).
Proof.
  unfold map_wf. rewrite map_set_keys. case_bool_decide; [done|]. intros H1.
  apply NoDup_app. split_and!; [done| |apply NoDup_singleton].
  intros x Hx ->%list_elem_of_singleton. done.
Qed.

Lemma map_filter_wf (P : K * V -> Prop) `{forall x, Decision (P x)} m : map_wf m -> map_wf (filter P m).
Proof.
  unfold map_wf. intros Hnd. eapply sublist_NoDup; [exact Hnd|]. apply (fmap_sublist fst), sublist_filter.
Qed.
Lemma map_delete_wf m k : map_wf m -> map_wf (map_delete m k).
Proof. apply map_filter_wf. Qed.
Lemma map_of_wf l : map_wf (map_of l).
Proof.
  unfold map_of. assert (H : map_wf []) by constructor. revert H. generalize (@nil (K * V)).
  induction l; simpl; [done|]. intros. by apply IHl, map_set_wf.
Qed.

Lemma map_get_none m k : map_get m k = None -> k ∉ map fst m.
Proof.
  induction m as [|[k1 v1] m IH]; [intros _; apply not_elem_of_nil|]. rewrite map_get_cons. simpl.
  case_bool_decide; [done|]. intros Hm. apply not_elem_of_cons. split; [congruence|by apply IH].
Qed.

Lemma map_set_new m k v : k ∉ map fst m -> map_set m k v = m ++ [(k, v)].
Proof.
  induction m as [|[k1 v1] m IH]; [done|]. simpl. rewrite elem_of_cons. intros Hn.
  rewrite bool_decide_eq_false_2 by naive_solver. f_equal. apply IH. naive_solver.
Qed.
Lemma map_of_NoDup l : NoDup (map fst l) -> map_of l = l.
Proof.
  unfold map_of. intros Hnd. enough (forall a, NoDup (map fst (a ++ l)) ->
    fold_left (fun m kv => map_set m kv.1 kv.2) l a = a ++ l) as H by by apply (H []).
  clear Hnd. induction l as [|[k v] l IH]; intros a Hnd; simpl; [by rewrite app_nil_r|].
  rewrite map_app in Hnd. apply NoDup_app in Hnd as (Ha & Hd & Hl).
  rewrite map_set_new, IH.
  - by rewrite <- app_assoc.
  - rewrite <- app_assoc, map_app. apply NoDup_app. done.
  - intros Hin. apply (Hd k Hin). by left.
Qed.

Lemma Forall_map_set (P : K * V -> Prop) m k v :
  P (k, v) -> Forall P m -> Forall P (map_set m k v).
Proof.
  intros HP. induction m as [|[k1 v1] m IH]; intros Hm; simpl; [by constructor|].
  inversion_clear Hm. case_bool_decide; [subst|]; constructor; auto.
Qed.

Lemma map_set_elem m k v x : x ∈ map_set m k v -> x = (k, v) \/ x ∈ m.
Proof.
  induction m as [|[k1 v1] m IH]; simpl; [intros ->%list_elem_of_singleton; by left|].
  case_bool_decide; rewrite !elem_of_cons; [|naive_solver]. subst. naive_solver.
Qed.
Lemma map_wf_sublist m m' : sublist m' m -> map_wf m -> map_wf m'.
Proof.
  unfold map_wf. intros Hs H. eapply sublist_NoDup; [exact H|]. clear H. induction Hs; simpl; by constructor.
Qed.

Lemma map_set_length m k v :
  length (map_set m k v) = if map_has m k then length m else S (length m).
Proof.
  induction m as [|[k1 v1] m IH]; [done|]. simpl. case_bool_decide; simpl; [done|].
  rewrite IH. by destruct (map_has m k).
Qed.
End JsMap.

#[export] Hint Resolve map_set_wf map_delete_wf map_filter_wf map_of_wf : sn.
