(* ===== verification/Path.v ===== *)
(** * Node's [path] module on POSIX

    [path.isAbsolute], [path.resolve] of one argument and [path.join] with
    absolute roots, as the stores use them to name working directories. *)

From S2P Require Import Prelude JsValue.

Definition SLASH : N := 47.

(** [path.isAbsolute(p)] *)
Definition isAbsolute (p : jstr) : bool :=
  match p with c :: _ => (c =? SLASH)%N | [] => false end.

Definition is_dot (s : jstr) : bool := bool_decide (s = js ".").
Definition is_dotdot (s : jstr) : bool := bool_decide (s = js "..").

(** [normalizeString(path, allowAboveRoot = false)]: the segments so far,
    last first. *)
Fixpoint normalize_segments (acc : list jstr) (segs : list jstr) : list jstr :=
  match segs with
  | [] => reverse acc
  | s :: segs' =>
      if negb (truthy s) || is_dot s then normalize_segments acc segs'
      else if is_dotdot s then normalize_segments (tail acc) segs'
      else normalize_segments (s :: acc) segs'
  end.

Definition render_path (segs : list jstr) : jstr := SLASH :: join [SLASH] segs.

(** The segments of [path.resolve(p)] *)
Definition segments (process_cwd p : jstr) : list jstr :=
  normalize_segments [] (split_char SLASH (if isAbsolute p then p else process_cwd ++ [SLASH] ++ p)).

(** Both lists without their longest common prefix *)
Fixpoint strip_common (a b : list jstr) : list jstr * list jstr :=
  match a, b with
  | x :: a', y :: b' => if bool_decide (x = y) then strip_common a' b' else (a, b)
  | _, _ => (a, b)
  end.
(** [path.relative(from, to)]: up from what is left of [from], down into what
    is left of [to] *)
Definition relative (process_cwd from to : jstr) : jstr :=
  let (a, b) := strip_common (segments process_cwd from) (segments process_cwd to) in
  join [SLASH] (replicate (length a) (js "..") ++ b).

(** A relative path that does not lead upwards: what the code accepts as
    lying inside: empty, or neither [..] nor beginning with [../] nor
    absolute. *)
Definition leads_down (rel : jstr) : bool :=
  negb (truthy rel) ||
  (negb (bool_decide (rel = js "..")) && negb (starts_with rel (js "../")) && negb (isAbsolute rel)).

(** [path.resolve(p)] for a process whose working directory is [process_cwd] *)
Definition resolve (process_cwd p : jstr) : jstr :=
  render_path (normalize_segments [] (split_char SLASH
    (if isAbsolute p then p else process_cwd ++ [SLASH] ++ p))).

(** ** Facts *)

(** A segment that [normalizeString] keeps. *)
Definition kept_segment (s : jstr) : Prop :=
  s <> [] /\ s <> js "." /\ s <> js ".." /\ SLASH ∉ s.

Lemma split_char_nonempty c s : split_char c s <> [].
Proof.
  destruct s as [|u s]; simpl; [done|].
  destruct (split_char c s); [done|]. by destruct (u =? c)%N.
Qed.

Lemma split_char_no_sep c s : forall w, w ∈ split_char c s -> c ∉ w.
Proof.
  induction s as [|u s IH]; intros w; simpl.
  - intros ->%list_elem_of_singleton. apply not_elem_of_nil.
  - destruct (split_char c s) as [|w0 ws] eqn:E.
    { by apply split_char_nonempty in E. }
    destruct (u =? c)%N eqn:Hu.
    + intros [->|H]%elem_of_cons; [apply not_elem_of_nil | by apply IH].
    + intros [->|H]%elem_of_cons; [|apply IH; by right].
      rewrite not_elem_of_cons. split; [|apply IH; by left].
      intros ->. by rewrite N.eqb_refl in Hu.
Qed.

Lemma split_char_none c s : c ∉ s -> split_char c s = [s].
Proof.
  induction s as [|u s IH]; [done|]. rewrite not_elem_of_cons. intros [Hu Hs]. simpl.
  rewrite IH by done. by rewrite (proj2 (N.eqb_neq u c)).
Qed.

Lemma split_char_app c s t : c ∉ s -> split_char c (s ++ c :: t) = s :: split_char c t.
Proof.
  induction s as [|u s IH].
  - intros _. simpl. rewrite N.eqb_refl. by destruct (split_char c t) eqn:E;
      [apply split_char_nonempty in E|].
  - rewrite not_elem_of_cons. intros [Hu Hs]. simpl. rewrite IH by done.
    by rewrite (proj2 (N.eqb_neq u c)).
Qed.

Lemma split_char_join c l : l <> [] -> Forall (fun s => c ∉ s) l -> split_char c (join [c] l) = l.
Proof.
  intros Hne Hl. induction Hl as [|s l Hs Hl IH]; [done|].
  destruct l as [|s' l]; [by apply split_char_none|].
  change (join [c] (s :: s' :: l)) with (s ++ c :: join [c] (s' :: l)).
  rewrite split_char_app, IH by done. done.
Qed.

Lemma normalize_segments_kept acc segs :
  Forall kept_segment acc -> Forall (fun s => SLASH ∉ s) segs ->
  Forall kept_segment (normalize_segments acc segs).
Proof.
  intros Hacc Hsegs. revert acc Hacc. induction Hsegs as [|s segs Hs Hsegs IH]; intros acc Hacc; simpl.
  { by apply Forall_reverse. }
  destruct (negb (truthy s)) eqn:E1; simpl; [auto|]. destruct (is_dot s) eqn:E2; [auto|].
  destruct (is_dotdot s) eqn:E3.
  - apply IH. destruct Hacc; [constructor|done].
  - apply IH. constructor; [|done]. unfold is_dot, is_dotdot in *. to_prop.
    apply truthy_true in E1. done.
Qed.

Lemma normalize_segments_id acc segs :
  Forall kept_segment segs -> normalize_segments acc segs = reverse acc ++ segs.
Proof.
  intros H. revert acc. induction H as [|s segs (H1 & H2 & H3 & _) _ IH]; intros acc; simpl.
  { by rewrite app_nil_r. }
  rewrite (proj2 (truthy_true s) H1). unfold is_dot, is_dotdot.
  rewrite !bool_decide_eq_false_2 by done. simpl. rewrite IH, reverse_cons, <- app_assoc. done.
Qed.

Lemma resolve_normal_form cwd p : exists segs,
  resolve cwd p = render_path segs /\ Forall kept_segment segs.
Proof.
  eexists. split; [reflexivity|]. apply normalize_segments_kept; [constructor|].
  apply Forall_forall. intros s Hs. by eapply split_char_no_sep.
Qed.

Lemma resolve_isAbsolute cwd p : isAbsolute (resolve cwd p) = true.
Proof. done. Qed.

(** [path.resolve] is idempotent, whatever the working directory. *)
Lemma resolve_idem cwd cwd' p : resolve cwd' (resolve cwd p) = resolve cwd p.
Proof.
  destruct (resolve_normal_form cwd p) as (segs & -> & Hsegs).
  unfold resolve. simpl isAbsolute. cbv iota. unfold render_path at 2.
  change (SLASH :: join [SLASH] segs) with ([] ++ SLASH :: join [SLASH] segs).
  rewrite split_char_app by apply not_elem_of_nil. simpl normalize_segments.
  destruct segs as [|s segs]; [done|].
  rewrite split_char_join, normalize_segments_id; [done..|].
  eapply Forall_impl; [exact Hsegs|]. unfold kept_segment. naive_solver.
Qed.

Example resolve_dots : resolve (js "/home") (js "/a//b/./../c/") = js "/a/c".
Proof. reflexivity. Qed.
Example resolve_relative : resolve (js "/home") (js "../x") = js "/x".
Proof. reflexivity. Qed.

(** ** [path.relative] *)

Lemma segments_kept cwd p : Forall kept_segment (segments cwd p).
Proof.
  apply normalize_segments_kept; [constructor|]. apply Forall_forall. intros s Hs. by eapply split_char_no_sep.
Qed.

Lemma strip_common_spec a b : exists c, a = c ++ (strip_common a b).1 /\ b = c ++ (strip_common a b).2.
Proof.
  revert b. induction a as [|x a IH]; intros [|y b]; simpl; try (by exists []).
  case_bool_decide as Hxy; [|by exists []]. subst. destruct (IH b) as (c & H1 & H2). exists (y :: c).
  by rewrite <- !app_comm_cons, <- H1, <- H2.
Qed.
Lemma strip_common_prefix a b : (strip_common a b).1 = [] <-> prefix a b.
Proof.
  revert b. induction a as [|x a IH]; intros [|y b]; simpl.
  - split; [exists []; done|done].
  - split; [intros _; by exists (y :: b)|done].
  - split; [done|]. by intros H%prefix_nil_inv.
  - case_bool_decide as Hxy.
    + subst. rewrite IH. split; [apply prefix_cons|apply prefix_cons_inv_2].
    + split; [done|]. by intros H%prefix_cons_inv_1.
Qed.

Lemma starts_with_app s p : starts_with (p ++ s) p = true.
Proof. induction p as [|c p IH]; simpl; [by destruct s|]. by rewrite N.eqb_refl. Qed.

Lemma leads_down_join b : Forall kept_segment b -> leads_down (join [SLASH] b) = true.
Proof.
  intros Hb. destruct Hb as [|s b (Hne & Hdot & Hdd & Hs) _]; [done|].
  unfold leads_down. apply orb_true_iff. right.
  assert (exists t, join [SLASH] (s :: b) = s ++ t /\ (t = [] \/ exists t', t = SLASH :: t')) as (t & -> & Ht).
  { destruct b as [|s' b]; [exists []; rewrite app_nil_r; split; [done|by left]|].
    exists (SLASH :: join [SLASH] (s' :: b)). split; [done|right; by eexists]. }
  destruct s as [|c1 s]; [done|]. rewrite not_elem_of_cons in Hs. destruct Hs as [Hc1 Hs].
  rewrite !andb_true_iff, !negb_true_iff. split_and!.
  - apply bool_decide_eq_false. intros E. destruct Ht as [->|[t' ->]]; [by rewrite app_nil_r in E|].
    assert (SLASH ∈ js "..") as Hin by (rewrite <- E; apply elem_of_app; right; left).
    apply (bool_decide_eq_true_2 (SLASH ∈ js "..")) in Hin. by vm_compute in Hin.
  - apply not_true_is_false. intros E. cbn in E. apply andb_true_iff in E as [E1 E].
    destruct s as [|c2 s]; [destruct Ht as [->|[t' ->]]; done|]. cbn in E. apply andb_true_iff in E as [E2 E].
    destruct s as [|c3 s].
    + apply Hdd. apply N.eqb_eq in E1, E2. by subst.
    + cbn in E. apply andb_true_iff in E as [E3 _]. apply N.eqb_eq in E3. subst.
      apply Hs. right. left.
  - cbn. by apply N.eqb_neq.
Qed.
Lemma leads_up_join n b : leads_down (join [SLASH] (js ".." :: replicate n (js "..") ++ b)) = false.
Proof.
  destruct n as [|n]; [destruct b as [|s b]; [done|]|]; cbn [replicate app];
  match goal with |- leads_down (join _ (_ :: ?s :: ?b)) = false =>
    change (join [SLASH] (js ".." :: s :: b)) with (js "../" ++ join [SLASH] (s :: b)) end;
  unfold leads_down; rewrite starts_with_app; by rewrite andb_false_r.
Qed.

(** The containment test by [path.relative]: the segments of the directory
    begin those of the path. *)
Lemma relative_leads_down cwd from to :
  leads_down (relative cwd from to) = bool_decide (prefix (segments cwd from) (segments cwd to)).
Proof.
  unfold relative. pose proof (strip_common_spec (segments cwd from) (segments cwd to)) as (c & _ & Hb).
  pose proof (strip_common_prefix (segments cwd from) (segments cwd to)) as Hp.
  pose proof (segments_kept cwd to) as Hk. rewrite Hb in Hk. apply Forall_app in Hk as [_ Hk].
  destruct (strip_common _ _) as [a b]. cbn [fst snd] in *. destruct a as [|x a].
  - rewrite bool_decide_eq_true_2 by by apply Hp. by apply leads_down_join.
  - rewrite bool_decide_eq_false_2 by (intros H%Hp; done). cbn [length replicate app]. by apply leads_up_join.
Qed.

(** ** Paths below a directory *)

Lemma split_char_app_sep c s t : split_char c (s ++ c :: t) = split_char c s ++ split_char c t.
Proof.
  induction s as [|u s IH]; simpl.
  - rewrite N.eqb_refl. destruct (split_char c t) eqn:E; [by apply split_char_nonempty in E|done].
  - rewrite IH. destruct (split_char c s) as [|w ws] eqn:E; [by apply split_char_nonempty in E|]. simpl.
    by destruct (u =? c)%N.
Qed.

Lemma normalize_segments_app acc a b : Forall kept_segment b ->
  normalize_segments acc (a ++ b) = normalize_segments acc a ++ b.
Proof.
  intros Hb. revert acc. induction a as [|s a IH]; intros acc; simpl.
  - by rewrite normalize_segments_id.
  - destruct (negb (truthy s) || is_dot s); [done|]. by destruct (is_dotdot s).
Qed.

(** A relative path of kept segments stays below the directory it is joined to. *)
Lemma segments_below cwd root p : isAbsolute root = true -> Forall kept_segment (split_char SLASH p) ->
  segments cwd (root ++ SLASH :: p) = segments cwd root ++ split_char SLASH p.
Proof.
  intros Hr Hp. unfold segments. assert (isAbsolute (root ++ SLASH :: p) = true) as ->.
  { destruct root; [done|]. exact Hr. }
  rewrite Hr, split_char_app_sep. by apply normalize_segments_app.
Qed.

Lemma join_split_char c s : join [c] (split_char c s) = s.
Proof.
  induction s as [|u s IH]; [done|]. simpl. destruct (split_char c s) as [|w ws] eqn:E; [by apply split_char_nonempty in E|].
  destruct (u =? c)%N eqn:Hu.
  - apply N.eqb_eq in Hu. rewrite <- Hu, <- IH at 1. by rewrite Hu.
  - destruct ws; simpl in *; by rewrite IH.
Qed.

(** [path.basename(p)]: the last segment, without trailing slashes *)
Definition path_basename (p : jstr) : jstr := default [] (last (filter (fun w => w <> []) (split_char SLASH p))).
