(* ===== verification/LocalFile.v ===== *)
(** * Files the application replaces as a whole

    The stores write a file the same way: make the directory, write the whole
    content to a temporary file beside it, and rename that over the file. The
    file system is a map from paths to contents; every step of a write can
    fail, and a failing [writeFile] leaves any prefix behind. *)

From S2P Require Import Prelude JsValue.

Abbreviation Disk := (gmap jstr jstr).

(** Where a write can be interrupted. *)
Inductive write_fault := NoFault | MkdirFails | WriteFails (written : nat) | RenameFails.

(** [await mkdir(...); await writeFile(temporary, content); await rename(temporary, filePath)] *)
Definition replaceFile (fault : write_fault) (temporary filePath content : jstr) : M Disk unit :=
  match fault with
  | MkdirFails => throw "mkdir failed"
  | WriteFails n => _ ← modify (fun d => <[temporary := take n content]> d); throw "write failed"
  | RenameFails => _ ← modify (fun d => <[temporary := content]> d); throw "rename failed"
  | NoFault =>
      _ ← modify (fun d => <[temporary := content]> d);
      modify (fun d => <[filePath := content]> (delete temporary d))
  end.

Definition write_succeeds (fault : write_fault) : bool :=
  match fault with NoFault => true | _ => false end.

(** The outcome of [readFile] *)
Inductive read_outcome := Contents (raw : jstr) | Missing | ReadError (e : exn).
Definition readFile (d : Disk) (filePath : jstr) : read_outcome :=
  match d !! filePath with Some raw => Contents raw | None => Missing end.

(** A temporary name extends the name of the file. *)
Lemma temporary_ne (filePath tag suffix : jstr) : tag <> [] -> filePath ++ tag ++ suffix <> filePath.
Proof. intros Ht H. apply (f_equal length) in H. rewrite !length_app in H. destruct tag; [done|]. simpl in H. lia. Qed.

(** A write replaces the file by the whole content, or leaves it alone. *)
Lemma replaceFile_atomic fault temporary filePath content d : temporary <> filePath ->
  let (r, d') := replaceFile fault temporary filePath content d in
  is_ok r = write_succeeds fault /\
  d' !! filePath = (if write_succeeds fault then Some content else d !! filePath).
Proof.
  intros Hne. unfold replaceFile.
  destruct fault as [| |n|]; cbn; (split; [done|]).
  - by rewrite lookup_insert_eq.
  - done.
  - by rewrite lookup_insert_ne.
  - by rewrite lookup_insert_ne.
Qed.
