(* ===== verification/JsObject.v ===== *)
(** * A JavaScript object used as a dictionary

    Own keys come in the order of the language: array indices in ascending
    order, then the other keys in the order of their creation. A plain object
    also inherits the names of [Object.prototype]: reading one of them never
    gives [undefined], and assigning a primitive to [__proto__] does nothing. *)

From S2P Require Import Prelude JsValue JsMap.

Definition is_digit (u : N) : bool := ((48 <=? u) && (u <=? 57))%N.
Definition digits_value (s : jstr) : N := fold_left (fun n u => n * 10 + (u - 48))%N s 0%N.

(** The array index a key denotes: the decimal form of an integer below
    2^32 - 1. *)
Definition array_index (k : jstr) : option N :=
  match k with
  | [] => None
  | u :: k' =>
      if forallb is_digit k && (negb (u =? 48)%N || bool_decide (k' = [])) && (digits_value k <? 2 ^ 32 - 1)%N
      then Some (digits_value k) else None
  end.

(** [k1] comes before [k2] whatever the order they were created in. *)
Definition key_lt (k1 k2 : jstr) : bool :=
  match array_index k1, array_index k2 with
  | Some i, Some j => (i <? j)%N
  | Some _, None => true
  | None, _ => false
  end.

Section JsObject.
Context {V : Type}.
Implicit Types (o : list (jstr * V)) (k : jstr) (v : V).

Fixpoint insert_key k v o : list (jstr * V) :=
  match o with
  | [] => [(k, v)]
  | (k', v') :: o' => if key_lt k k' then (k, v) :: o else (k', v') :: insert_key k v o'
  end.

(** Defining an own property keeps the place of a present one. *)
Definition define_property o k v : list (jstr * V) :=
  if map_has o k then map_set o k v else insert_key k v o.

(** [o[k] = v] for a primitive [v] *)
Definition put o k v : list (jstr * V) :=
  if bool_decide (k = js "__proto__") then o else define_property o k v.

(** [o[k]]: the own property, what the prototype has, or [undefined]. *)
Inductive property_read := Own (v : V) | FromPrototype | Undefined.
Definition get_property o k : property_read :=
  match map_get o k with
  | Some v => Own v
  | None => if inherited k then FromPrototype else Undefined
  end.

Definition key_le (k1 k2 : jstr) : Prop := key_lt k2 k1 = false.
(** The keys of an object: distinct and in property order. *)
Definition object_wf o : Prop := map_wf o /\ StronglySorted key_le (map fst o).

End JsObject.
Arguments property_read : clear implicits.

Lemma key_lt_irrefl k : key_lt k k = false.
Proof. unfold key_lt. destruct (array_index k); [|done]. apply N.ltb_irrefl. Qed.
Lemma key_lt_le_trans k1 k2 k3 : key_lt k1 k2 = true -> key_le k2 k3 -> key_lt k1 k3 = true.
Proof.
  unfold key_le, key_lt. destruct (array_index k1), (array_index k2), (array_index k3); try done.
  rewrite N.ltb_lt, N.ltb_ge, N.ltb_lt. lia.
Qed.
Lemma key_lt_asym k1 k2 : key_lt k1 k2 = true -> key_le k1 k2.
Proof.
  unfold key_le, key_lt. destruct (array_index k1), (array_index k2); try done. rewrite N.ltb_lt, N.ltb_ge. lia.
Qed.

Section lemmas.
Context {V : Type}.
Implicit Types (o : list (jstr * V)) (k : jstr) (v : V).

Lemma insert_key_perm k v o : insert_key k v o ≡ₚ (k, v) :: o.
Proof.
  induction o as [|[k' v'] o IH]; [done|]. simpl. destruct (key_lt k k'); [done|]. rewrite IH. apply Permutation_swap.
Qed.

Lemma insert_key_get k v o k' : map_get o k = None ->
  map_get (insert_key k v o) k' = if bool_decide (k = k') then Some v else map_get o k'.
Proof.
  induction o as [|[k1 v1] o IH]; simpl insert_key; intros Ho; [by rewrite map_get_cons|].
  rewrite map_get_cons in Ho. case_bool_decide as H1; [done|].
  destruct (key_lt k k1); [by rewrite (map_get_cons k)|].
  rewrite !map_get_cons. rewrite IH by done. repeat case_bool_decide; congruence.
Qed.

Lemma insert_key_sorted k v o : StronglySorted key_le (map fst o) -> StronglySorted key_le (map fst (insert_key k v o)).
Proof.
  induction o as [|[k1 v1] o IH]; simpl; [repeat constructor|].
  intros [Hs H1]%StronglySorted_inv. destruct (key_lt k k1) eqn:E; simpl.
  - constructor; [by constructor|]. constructor; [by apply key_lt_asym|].
    eapply Forall_impl; [exact H1|]. intros k2 H2. by apply key_lt_asym, (key_lt_le_trans _ k1).
  - constructor; [by apply IH|].
    assert (Hp : map fst (insert_key k v o) ≡ₚ k :: map fst o) by (by rewrite insert_key_perm).
    rewrite Hp. by constructor.
Qed.

Lemma map_has_None o k : map_has o k = false <-> map_get o k = None.
Proof. rewrite map_has_get, bool_decide_eq_false. apply symmetry, eq_None_not_Some. Qed.

Lemma map_set_fst_present o k v : map_has o k = true -> map fst (map_set o k v) = map fst o.
Proof. rewrite map_has_get. intros H. to_prop. rewrite map_set_keys. destruct H as [x H%map_get_elem].
  rewrite bool_decide_eq_true_2; [done|]. by apply (list_elem_of_fmap_2 fst _ (k, x)). Qed.

Lemma put_get o k v k' : k <> js "__proto__" ->
  map_get (put o k v) k' = if bool_decide (k = k') then Some v else map_get o k'.
Proof.
  intros Hk. unfold put, define_property. rewrite bool_decide_eq_false_2 by done.
  destruct (map_has o k) eqn:E; [apply map_get_set|]. apply insert_key_get. by apply map_has_None.
Qed.

Lemma put_wf o k v : object_wf o -> object_wf (put o k v).
Proof.
  intros [Hn Hs]. unfold put, define_property. case_bool_decide; [done|].
  destruct (map_has o k) eqn:E.
  - split; [by apply map_set_wf|]. by rewrite map_set_fst_present.
  - split; [|by apply insert_key_sorted]. unfold map_wf in *.
    assert (Hp : map fst (insert_key k v o) ≡ₚ k :: map fst o) by (by rewrite insert_key_perm).
    rewrite Hp. constructor; [|done]. intros (kv & E1 & Hin)%list_elem_of_fmap. destruct kv as [k1 v1]. simpl in E1. subst k1.
    apply map_has_None in E. apply (map_elem_get _ _ _ Hn) in Hin. congruence.
Qed.

Lemma delete_wf o k : object_wf o -> object_wf (map_delete o k).
Proof.
  intros [Hn Hs]. split; [by apply map_delete_wf|]. unfold map_delete. clear Hn.
  induction o as [|[k1 v1] o IH]; [done|]. simpl in Hs. apply StronglySorted_inv in Hs as [Hs H1].
  rewrite filter_cons. case_decide; [|by apply IH]. simpl. constructor; [by apply IH|].
  apply Forall_forall. intros k2 (kv & -> & [_ Hin]%list_elem_of_filter)%list_elem_of_fmap.
  rewrite Forall_forall in H1. apply H1. by apply list_elem_of_fmap_2.
Qed.

(** Filling an empty object in property order reproduces the object. *)
Lemma insert_key_last k v o : Forall (fun k' => key_le k' k) (map fst o) -> insert_key k v o = o ++ [(k, v)].
Proof.
  induction o as [|[k1 v1] o IH]; [done|]. simpl. intros [H1 H2]%Forall_cons. unfold key_le in H1.
  rewrite H1. by rewrite IH.
Qed.
Lemma put_all_id o : object_wf o -> js "__proto__" ∉ map fst o ->
  fold_left (fun o kv => put o kv.1 kv.2) o [] = o.
Proof.
  enough (H : forall l o, object_wf (l ++ o) -> js "__proto__" ∉ map fst o ->
    fold_left (fun o kv => put o kv.1 kv.2) o l = l ++ o) by apply (H []).
  intros l o1. revert l. induction o1 as [|[k v] o1 IH]; intros l Hwf Hp; [by rewrite app_nil_r|]. simpl in *.
  apply not_elem_of_cons in Hp as [Hk Hp].
  assert (put l k v = l ++ [(k, v)]) as ->.
  { unfold put, define_property. rewrite bool_decide_eq_false_2 by done. destruct Hwf as [Hn Hs].
    unfold map_wf in Hn. rewrite map_app in Hn, Hs. simpl in *. apply NoDup_app in Hn as (_ & Hn & _).
    destruct (map_has l k) eqn:E.
    - rewrite map_has_get in E. to_prop. destruct E as [x Hx%map_get_elem]. exfalso.
      apply (Hn k); [by apply (list_elem_of_fmap_2 fst _ (k, x))|by left].
    - apply insert_key_last. apply Forall_forall. intros k1 H1.
      apply (StronglySorted_app_1_elem_of key_le (map fst l) (k :: map fst o1)); [done|done|by left]. }
  rewrite IH; [by rewrite <- app_assoc|by rewrite <- app_assoc|done].
Qed.
End lemmas.
