(* ===== verification/Base64.v ===== *)
(** * Base64, as Node's [Buffer] writes and reads it

    [bytes.toString("base64")] and [Buffer.from(text, "base64")]. The reader
    also knows the URL alphabet and skips every other character. *)

From S2P Require Import Prelude.

Abbreviation bytes := (list N).

Definition alphabet : jstr := js "ABCDEFGHIJKLMNOPQRSTUVWXYZabcdefghijklmnopqrstuvwxyz0123456789+/".
Definition PAD : N := 61.

Definition digit (n : N) : N := nth (N.to_nat n) alphabet 0%N.

Fixpoint toBase64 (b : bytes) : jstr :=
  match b with
  | [] => []
  | [x] => [digit (x / 4); digit (x mod 4 * 16); PAD; PAD]
  | [x; y] => [digit (x / 4); digit (x mod 4 * 16 + y / 16); digit (y mod 16 * 4); PAD]
  | x :: y :: z :: b' =>
      digit (x / 4) :: digit (x mod 4 * 16 + y / 16) :: digit (y mod 16 * 4 + z / 64) :: digit (z mod 64)
      :: toBase64 b'
  end%N.

(** The six bits a character stands for. *)
Definition sextet (u : N) : option N :=
  (if (65 <=? u) && (u <=? 90) then Some (u - 65)
  else if (97 <=? u) && (u <=? 122) then Some (u - 71)
  else if (48 <=? u) && (u <=? 57) then Some (u + 4)
  else if (u =? 43) || (u =? 45) then Some 62
  else if (u =? 47) || (u =? 95) then Some 63
  else None)%N.

Fixpoint join_sextets (l : list N) : bytes :=
  match l with
  | a :: b :: c :: d :: l' =>
      a * 4 + b / 16 :: b mod 16 * 16 + c / 4 :: c mod 4 * 64 + d :: join_sextets l'
  | [a; b; c] => [a * 4 + b / 16; b mod 16 * 16 + c / 4]
  | [a; b] => [a * 4 + b / 16]
  | _ => []
  end%N.

Definition fromBase64 (s : jstr) : bytes := join_sextets (omap sextet s).

Lemma sextet_digit n : (n < 64)%N -> sextet (digit n) = Some n.
Proof.
  intros Hn. enough (H : forall k, (k < 64)%nat -> sextet (digit (N.of_nat k)) = Some (N.of_nat k)).
  { rewrite <- (N2Nat.id n). apply H. lia. }
  intros k Hk. do 64 (destruct k as [|k]; [reflexivity|]). lia.
Qed.

Lemma sextet_pad : sextet PAD = None.
Proof. reflexivity. Qed.

#[local] Ltac Zify.zify_post_hook ::= Z.to_euclidean_division_equations.
#[local] Ltac sextets := repeat rewrite sextet_digit by lia.

Lemma fromBase64_toBase64 b : Forall (fun u => u < 256)%N b -> fromBase64 (toBase64 b) = b.
Proof.
  unfold fromBase64. revert b.
  fix IH 1. intros [|x [|y [|z b]]] H; repeat apply Forall_cons in H as [? H]; [done|..]; simpl; rewrite ?sextet_pad; sextets; simpl.
  - f_equal. lia.
  - f_equal; [lia|]. f_equal. lia.
  - rewrite IH by done. f_equal; [lia|]. f_equal; [lia|]. f_equal. lia.
Qed.

Lemma toBase64_nil b : toBase64 b = [] <-> b = [].
Proof. by destruct b as [|? [|? [|]]]. Qed.
