(* ===== verification/JsonCodec.v ===== *)
(** * A JSON codec for examples

    [JSON.stringify] and [JSON.parse] are arguments of the models that use
    them. Here is one pair of functions that keeps every value, for the
    concrete runs: the text is one code unit that numbers the value, and the
    reader tolerates the line feed that some files end in. *)

From S2P Require Import Prelude JsValue.
From stdpp Require Import countable.

Definition leaf : Type := Z + list N.
Fixpoint to_tree (v : value) : gen_tree leaf :=
  match v with
  | VUndefined => GenNode 0 []
  | VNull => GenNode 1 []
  | VBool b => GenNode (if b then 2 else 3) []
  | VNumber (NInt z) => GenNode 4 [GenLeaf (inl z)]
  | VNumber (NFrac m e) => GenNode 5 [GenLeaf (inl m); GenLeaf (inl (Zpos e))]
  | VNumber (NInf b) => GenNode (if b then 6 else 7) []
  | VNumber NNaN => GenNode 8 []
  | VString s => GenLeaf (inr s)
  | VArray l => GenNode 9 (map to_tree l)
  | VObject fs => GenNode 10 (map (fun kv => GenNode 0 [GenLeaf (inr kv.1); to_tree kv.2]) fs)
  end.
Fixpoint of_tree (t : gen_tree leaf) : value :=
  match t with
  | GenLeaf (inr s) => VString s
  | GenNode 1 _ => VNull
  | GenNode 2 _ => VBool true
  | GenNode 3 _ => VBool false
  | GenNode 4 [GenLeaf (inl z)] => VNumber (NInt z)
  | GenNode 5 [GenLeaf (inl m); GenLeaf (inl (Zpos e))] => VNumber (NFrac m e)
  | GenNode 6 _ => VNumber (NInf true)
  | GenNode 7 _ => VNumber (NInf false)
  | GenNode 8 _ => VNumber NNaN
  | GenNode 9 l => VArray (map of_tree l)
  | GenNode 10 l => VObject (map (fun t =>
      match t with GenNode _ [GenLeaf (inr k); v] => (k, of_tree v) | _ => ([], VUndefined) end) l)
  | _ => VUndefined
  end.

Lemma of_to_tree : forall v, of_tree (to_tree v) = v.
Proof.
  fix IH 1. intros [| |[]|[| |[]|]|s|l|fs]; try reflexivity; cbn; f_equal.
  - induction l as [|v l IHl]; cbn; [reflexivity|]. by rewrite IH, IHl.
  - induction fs as [|[k v] fs IHfs]; cbn; [reflexivity|]. by rewrite IH, IHfs.
Qed.

Definition sample_stringify (v : value) : jstr := [Npos (encode (to_tree v))].
Definition sample_parse (t : jstr) : result value :=
  match t with
  | Npos p :: _ => match decode p with Some t => Ok (of_tree t) | None => fail "Unexpected token" end
  | _ => fail "Unexpected token"
  end.
Lemma sample_json v : sample_parse (sample_stringify v) = Ok v.
Proof. unfold sample_parse, sample_stringify. by rewrite decode_encode, of_to_tree. Qed.
Lemma sample_json_line v : sample_parse (sample_stringify v ++ [10%N]) = Ok v.
Proof. unfold sample_parse, sample_stringify. simpl. by rewrite decode_encode, of_to_tree. Qed.
