(* ===== verification/Validate.v ===== *)
(** * Field validators

    The daemon's answers are [unknown] values that each parser takes apart
    with the same few helpers ([record], [array], [text], [integer]), which
    the source re-declares per file with small differences. They are defined
    once here, with the differences as parameters; each parser file
    instantiates them under the source's names. *)

From S2P Require Import Prelude JsValue.

(** [throw new Error(`SourceNerve ${label} is invalid`)] *)
Definition invalid {A} (label : string) : result A :=
  fail ("SourceNerve " +:+ label +:+ " is invalid").

Definition record_field (v : value) (label : string) : result (list (jstr * value)) :=
  match is_record v with Some fs => Ok fs | None => invalid label end.

(** [parsed.key] on a parsed value: reading a property of [null] throws. *)
Definition property (v : value) (key : string) : result value :=
  match v with
  | VUndefined | VNull => fail "Cannot read properties of null"
  | VObject fs => Ok (field fs (js key))
  | _ => Ok VUndefined
  end.

Definition array_field (v : value) (label : string) : result (list value) :=
  match v with VArray l => Ok l | _ => invalid label end.

(** The condition under which [text] accepts a string. *)
Definition text_ok (allowEmpty : bool) (bad : N -> bool) (maxBytes : Z) (s : jstr) : bool :=
  (allowEmpty || truthy s) && (utf8_len s <=? maxBytes) && negb (existsb bad s).

Definition text_field (allowEmpty : bool) (bad : N -> bool)
    (v : value) (maxBytes : Z) (label : string) : result jstr :=
  match v with
  | VString s => if text_ok allowEmpty bad maxBytes s then Ok s else invalid label
  | _ => invalid label
  end.

Definition int_field (v : value) (lo hi : Z) (label : string) : result Z :=
  match v with
  | VNumber n => match safe_in_range lo hi n with Some z => Ok z | None => invalid label end
  | _ => invalid label
  end.

Definition bool_field (v : value) (label : string) : result bool :=
  match v with VBool b => Ok b | _ => invalid label end.

(** [row.x == null ? {} : { x: f(row.x) }] *)
Definition optional {A} (f : value -> result A) (v : value) : result (option A) :=
  if is_nullish v then Ok None else Some <$> f v.

(** [if (v === "a" || v === "b" ...) return v; throw ...], as a table *)
Fixpoint enum_lookup {A} (table : list (string * A)) (s : jstr) : option A :=
  match table with
  | [] => None
  | (name, a) :: table' => if bool_decide (js name = s) then Some a else enum_lookup table' s
  end.
Definition enum_field {A} (table : list (string * A)) (v : value) (label : string) : result A :=
  match v with
  | VString s => match enum_lookup table s with Some a => Ok a | None => invalid label end
  | _ => invalid label
  end.

(** The wire form of an optional field, for the round trips. *)
Definition opt_value {A} (f : A -> value) (o : option A) : value :=
  match o with Some a => f a | None => VNull end.
Definition VInt (z : Z) : value := VNumber (NInt z).

(** ** Specifications *)

Lemma record_field_Ok v label fs : record_field v label = Ok fs <-> v = VObject fs.
Proof. destruct v; cbn; naive_solver. Qed.

Lemma array_field_Ok v label l : array_field v label = Ok l <-> v = VArray l.
Proof. destruct v; cbn; naive_solver. Qed.

Lemma text_field_Ok e bad v m label s :
  text_field e bad v m label = Ok s <-> v = VString s /\ text_ok e bad m s = true.
Proof.
  destruct v; cbn [text_field]; try naive_solver.
  destruct (text_ok _ _ _ _) eqn:E; naive_solver congruence.
Qed.

Lemma text_ok_spec e bad m s : text_ok e bad m s = true <->
  (e = true \/ s <> []) /\ utf8_len s <= m /\ existsb bad s = false.
Proof.
  unfold text_ok. rewrite !andb_true_iff, orb_true_iff, truthy_true, Z.leb_le, negb_true_iff.
  tauto.
Qed.

Lemma int_field_Ok v lo hi label z : MIN_SAFE_INTEGER <= lo -> hi <= MAX_SAFE_INTEGER ->
  int_field v lo hi label = Ok z <-> v = VInt z /\ lo <= z <= hi.
Proof.
  intros Hlo Hhi. destruct v; cbn [int_field]; try naive_solver. split.
  - destruct (safe_in_range lo hi n) eqn:E; [|done]. intros [= <-].
    apply safe_in_range_Some in E as (-> & ? & ?). done.
  - intros [[= ->] ?]. by rewrite safe_in_range_NInt by lia.
Qed.

Lemma bool_field_Ok v label b : bool_field v label = Ok b <-> v = VBool b.
Proof. destruct v; cbn; naive_solver. Qed.

(** What [optional f] accepts, from what [f] accepts. *)
Lemma optional_Ok {A} (f : value -> result A) v o :
  optional f v = Ok o <->
  (is_nullish v = true /\ o = None) \/
  (is_nullish v = false /\ exists a, o = Some a /\ f v = Ok a).
Proof.
  unfold optional. destruct (is_nullish v); [naive_solver|]. rewrite fmap_Ok. naive_solver.
Qed.

Lemma optional_opt_value {A} (f : value -> result A) (g : A -> value) o :
  (forall a, o = Some a -> is_nullish (g a) = false /\ f (g a) = Ok a) ->
  optional f (opt_value g o) = Ok o.
Proof.
  intros H. destruct o as [a|]; [|done]. destruct (H a eq_refl) as [Hn Hf].
  unfold optional. simpl. by rewrite Hn, Hf.
Qed.

Lemma map_result_map {A B} (f : value -> result A) (g : B -> value) (h : B -> A) l :
  (forall x, x ∈ l -> f (g x) = Ok (h x)) -> map_result f (map g l) = Ok (map h l).
Proof.
  intros H. rewrite map_result_Ok. induction l as [|x l IH]; simpl; constructor.
  - apply H. by left.
  - apply IH. intros y Hy. apply H. by right.
Qed.

Lemma enum_field_Ok {A} (table : list (string * A)) v label a :
  enum_field table v label = Ok a ->
  exists name, v = VString (js name) /\ (name, a) ∈ table.
Proof.
  destruct v; cbn [enum_field]; try done. destruct (enum_lookup table s) eqn:E; [|done].
  intros [= <-]. revert E. induction table as [|[name b] t IH]; simpl; [done|].
  case_bool_decide as Hn.
  - intros [= <-]. exists name. subst. split; [done | by left].
  - intros (name' & ? & ?)%IH. exists name'. split; [done | by right].
Qed.

#[export] Hint Rewrite @bind_Ok @fmap_Ok record_field_Ok array_field_Ok text_field_Ok bool_field_Ok
  @map_result_Ok @optional_Ok : sn_ok.

(** ** Reading the fields of a literal object *)

Lemma field_here k v fs : field ((k, v) :: fs) k = v.
Proof. simpl. by rewrite bool_decide_eq_true_2. Qed.
Lemma field_next k v fs key : bool_decide (k = key) = false ->
  field ((k, v) :: fs) key = field fs key.
Proof. simpl. by intros ->. Qed.

(** Evaluate [field fs (js "key")] when the keys of [fs] are literals. *)
Ltac read_fields :=
  repeat first
    [ rewrite field_here
    | rewrite field_next by (vm_compute; reflexivity) ].

(** [JSON.stringify] leaves out a field that is undefined. *)
Definition opt_field (key : string) (v : value) (rest : list (jstr * value)) : list (jstr * value) :=
  match v with VUndefined => rest | _ => (js key, v) :: rest end.

Lemma field_opt_here key v rest : field rest (js key) = VUndefined ->
  field (opt_field key v rest) (js key) = v.
Proof. intros H. destruct v; [exact H|apply field_here..]. Qed.
Lemma field_opt_next key v rest k : bool_decide (js key = k) = false ->
  field (opt_field key v rest) k = field rest k.
Proof. intros H. destruct v; [done|by apply field_next..]. Qed.
Lemma field_nil k : field [] k = VUndefined. Proof. done. Qed.

(** [read_fields] through optional fields *)
Ltac read_opt_fields :=
  repeat first
    [ rewrite field_nil
    | rewrite field_here
    | rewrite field_next by (vm_compute; reflexivity)
    | rewrite field_opt_next by (vm_compute; reflexivity)
    | rewrite field_opt_here by
        (repeat first [ rewrite field_nil
                      | rewrite field_next by (vm_compute; reflexivity)
                      | rewrite field_opt_next by (vm_compute; reflexivity) ]; reflexivity) ].
