(* ===== verification/Codec.v ===== *)
(** * Parsers and their wire forms

    A validator [f] of a [value] together with the wire form [g] of what it
    returns: [f] only returns what satisfies [P], and reads the wire form of
    everything that does. The parsers of the daemon's answers are put together
    from such pairs, and so are their round trips: instance search finds the
    pair for each field. *)

From S2P Require Import Prelude JsValue Validate.

Class Codec {A : Type} (f : value -> result A) (g : A -> value) (P : A -> Prop) : Prop := {
  codec_sound v a : f v = Ok a -> P a;
  codec_complete a : P a -> f (g a) = Ok a }.
#[export] Hint Mode Codec ! ! - - : typeclass_instances.

(** A wire form that is never [null] or missing *)
Class Present {A : Type} (g : A -> value) : Prop := present a : is_nullish (g a) = false.

#[export] Instance present_string : Present VString. Proof. done. Qed.
#[export] Instance present_int : Present VInt. Proof. done. Qed.
#[export] Instance present_bool : Present VBool. Proof. done. Qed.

Definition opt_ok {A} (P : A -> Prop) (o : option A) : Prop :=
  match o with Some a => P a | None => True end.

Lemma opt_any {A} (o : option A) : opt_ok (fun _ => True) o. Proof. by destruct o. Qed.
Lemma list_any {A} (l : list A) : Forall (fun _ => True) l. Proof. by apply Forall_true. Qed.

Lemma omap_length {A B} (f : A -> option B) l : (length (omap f l) <= length l)%nat.
Proof. induction l as [|x l IH]; csimpl; [lia|]. destruct (f x); csimpl; lia. Qed.

Section codecs.
Context {A : Type} (f : value -> result A) (g : A -> value) (P : A -> Prop).

(** A step of a parser that reads a field from its wire form *)
Lemma codec_bind {B} `{!Codec f g P} a (k : A -> result B) : P a -> (f (g a) ≫= k) = k a.
Proof. intros Ha. by rewrite (codec_complete a Ha). Qed.

#[export] Instance codec_optional `{!Codec f g P, !Present g} : Codec (optional f) (opt_value g) (opt_ok P).
Proof.
  split.
  - intros v o. rewrite optional_Ok. intros [[_ ->]|(_ & a & -> & Ha)]; [done|]. by apply (codec_sound (f := f)) in Ha.
  - intros [a|] Ha; [|done]. unfold optional. simpl. rewrite present. by rewrite (codec_complete a Ha).
Qed.

Lemma codec_map_result `{!Codec f g P} l : Forall P l -> map_result f (map g l) = Ok l.
Proof.
  intros Hl. rewrite <- (map_id l) at 2. apply map_result_map. intros x Hx. apply codec_complete.
  rewrite Forall_forall in Hl. by apply Hl.
Qed.
Lemma codec_map_result_sound `{!Codec f g P} vs l : map_result f vs = Ok l -> Forall P l.
Proof. intros H. eapply map_result_Forall; [exact H|]. intros v a. apply codec_sound. Qed.
End codecs.

#[export] Typeclasses Opaque optional.

(** ** The field readers the parsers share

    A reader fails with the message it is given. *)

(** A string that passes a test *)
Definition checked_string (test : jstr -> bool) (message : string) (v : value) : result jstr :=
  match v with VString s => if test s then Ok s else fail message | _ => fail message end.
(** [Number.isSafeInteger(value) && value >= 0] *)
Definition checked_count (message : string) (v : value) : result Z :=
  match v with
  | VNumber n => match safe_in_range 0 MAX_SAFE_INTEGER n with Some z => Ok z | None => fail message end
  | _ => fail message
  end.
Definition checked_bool (message : string) (v : value) : result bool :=
  match v with VBool b => Ok b | _ => fail message end.
(** [if (value === "a" || value === "b" ...) return value; throw ...] *)
Definition checked_name {A} (table : list (string * A)) (message : string) (v : value) : result A :=
  match v with
  | VString s => match enum_lookup table s with Some a => Ok a | None => fail message end
  | _ => fail message
  end.

#[export] Instance codec_checked_string test message : Codec (checked_string test message) VString (fun s => test s = true).
Proof.
  split; unfold checked_string.
  - intros [] a; try done. destruct (test s) eqn:E; [by intros [= <-]|done].
  - by intros a ->.
Qed.
Definition count_ok (z : Z) : Prop := 0 <= z <= MAX_SAFE_INTEGER.
#[export] Instance codec_checked_count message : Codec (checked_count message) VInt count_ok.
Proof.
  split; unfold checked_count.
  - intros [| | |n| | |] a; try done. destruct (safe_in_range 0 MAX_SAFE_INTEGER n) as [z|] eqn:E; [|done].
    intros [= <-]. apply safe_in_range_Some in E. apply E.
  - intros a Ha. simpl. rewrite safe_in_range_NInt; [done|unfold count_ok, MIN_SAFE_INTEGER, MAX_SAFE_INTEGER in *; lia..].
Qed.
#[export] Instance codec_checked_bool message : Codec (checked_bool message) VBool (fun _ => True).
Proof. by split. Qed.
(** A table of names read back through its own printer *)
Lemma codec_checked_name {A} (table : list (string * A)) message (name : A -> jstr) :
  (forall a, enum_lookup table (name a) = Some a) ->
  Codec (checked_name table message) (fun a => VString (name a)) (fun _ => True).
Proof. intros H. split; [done|]. intros a _. unfold checked_name. by rewrite H. Qed.

Definition list_value {A} (g : A -> value) (l : list A) : value := VArray (map g l).
#[export] Instance present_list {A} (g : A -> value) : Present (list_value g). Proof. done. Qed.
(** [if (!Array.isArray(value)) throw ...; return value.map(f)] *)
Definition checked_list {A} (message : string) (f : value -> result A) (v : value) : result (list A) :=
  match v with VArray l => map_result f l | _ => fail message end.
#[export] Instance codec_checked_list {A} (f : value -> result A) g P message `{!Codec f g P} :
  Codec (checked_list message f) (list_value g) (Forall P).
Proof.
  split; unfold checked_list.
  - intros [] a; try done. apply (codec_map_result_sound f g P).
  - intros a Ha. by apply (codec_map_result f g P).
Qed.

#[export] Typeclasses Opaque checked_string checked_count checked_bool checked_name checked_list.

(** ** Fields that are dropped when they are malformed *)

Class Lenient {A : Type} (f : value -> option A) (g : A -> value) (P : A -> Prop) : Prop := {
  lenient_sound v : opt_ok P (f v);
  lenient_complete o : opt_ok P o -> f (opt_value g o) = o }.
#[export] Hint Mode Lenient ! ! - - : typeclass_instances.

Definition lenient_string (test : jstr -> bool) (v : value) : option jstr :=
  match v with VString s => if test s then Some s else None | _ => None end.
Definition lenient_count (v : value) : option Z :=
  match v with VNumber n => safe_in_range 0 MAX_SAFE_INTEGER n | _ => None end.
Definition lenient_integer (v : value) : option Z :=
  match v with VNumber n => safe_integer n | _ => None end.
Definition lenient_bool (v : value) : option bool := match v with VBool b => Some b | _ => None end.

#[export] Instance codec_lenient_string test : Lenient (lenient_string test) VString (fun s => test s = true).
Proof.
  split.
  - intros []; try exact I. simpl. by destruct (test s) eqn:E.
  - intros [s|] Hs; [|done]. simpl in *. by rewrite Hs.
Qed.
#[export] Instance codec_lenient_count : Lenient lenient_count VInt count_ok.
Proof.
  split.
  - intros [| | |n| | |]; try exact I. simpl. destruct (safe_in_range _ _ n) eqn:E; [|done]. apply safe_in_range_Some in E. apply E.
  - intros [z|] Hz; [|done]. simpl in *. by rewrite safe_in_range_NInt by (unfold count_ok, MIN_SAFE_INTEGER, MAX_SAFE_INTEGER in *; lia).
Qed.
Definition integer_ok (z : Z) : Prop := MIN_SAFE_INTEGER <= z <= MAX_SAFE_INTEGER.
#[export] Instance codec_lenient_integer : Lenient lenient_integer VInt integer_ok.
Proof.
  split.
  - intros [| | |[]| | |]; try exact I. simpl. destruct (_ && _) eqn:E; [|done]. to_prop. by split.
  - intros [z|]; [intros [H1 H2]|done]. simpl. by rewrite (proj2 (Z.leb_le _ _) H1), (proj2 (Z.leb_le _ _) H2).
Qed.
#[export] Instance codec_lenient_bool : Lenient lenient_bool VBool (fun _ => True).
Proof. split; [by intros []|by intros [[]|]]. Qed.
#[export] Typeclasses Opaque lenient_string lenient_count lenient_integer lenient_bool.

(** Read a parser's fields off its own wire form. *)
Ltac decode_field := match goal with
  | |- context [mbind ?k (?f (?g ?a))] => rewrite (codec_bind f g _ a k) by first [assumption | exact I | apply opt_any | apply list_any] end.
Ltac decode_lenient := match goal with
  | |- context [?f (opt_value ?g ?o)] => rewrite (lenient_complete (f := f) (g := g) o) by first [assumption | exact I | apply opt_any | apply list_any] end.
Ltac decode := repeat (first [progress read_fields | decode_field | decode_lenient | progress cbn [mbind result_bind]]).
(** What a parser checked of each field it returned; the fields of the object
    itself are no field. *)
Ltac decoded := repeat match goal with
  | H : _ = Ok ?a |- _ => lazymatch type of a with list (jstr * value) => clear H end
  | H : ?f ?v = Ok ?a |- _ => let H' := fresh "D" in pose proof (codec_sound (f := f) v a H) as H'; clear H end.
