(* ===== verification/SecureStore.v ===== *)
(** * The encrypted secret store (secure-store.ts)

    Secrets are kept encrypted in one JSON file. Mutations run one after the
    other through a queue of promises, each reading the file, changing one
    record and replacing the file; a read waits for the mutations enqueued
    before it and then reads the file, while later mutations may already run.

    The encryption backend, [JSON] and the process id are arguments; the
    ciphertext may differ from one encryption to the next. *)

From S2P Require Import Prelude JsValue JsMap Validate LocalFile JsObject Base64 JsonCodec.

Module SecureStore.

Definition SECRET_NAMES : list jstr := map js
  ["localBearer"; "githubToken"; "gitlabToken"; "cloudflareTunnelToken"; "pluginChallengeToken"]%string.

(** [SecretFile.records] *)
Abbreviation Records := (list (jstr * jstr)).

Definition key_unit (u : N) : bool :=
  ((65 <=? u) && (u <=? 90) || (97 <=? u) && (u <=? 122) || is_digit u
   || (u =? 46) || (u =? 95) || (u =? 58) || (u =? 45))%N.
Definition secret_key_ok (key : jstr) : bool :=
  truthy key && (slen key <=? 256) && forallb key_unit key.
Definition assertSecretKey (key : jstr) : result unit :=
  if secret_key_ok key then Ok tt else fail "secret key must be 1-256 safe ASCII characters".

Definition secret_value_ok (v : jstr) : bool :=
  truthy v && (slen v <=? 32 * 1024) && negb (has_nul v).
Definition assertSecretValue (v : jstr) : result unit :=
  if secret_value_ok v then Ok tt else fail "secret value must be 1-32768 bytes without NUL".

(** [Object.entries(parsed.records)] *)
Definition entries (v : value) : option (list (jstr * value)) :=
  match v with
  | VObject fs => Some fs
  | VArray l => Some (imap (fun i v => (js_int (Z.of_nat i), v)) l)
  | _ => None
  end.

(** The loop of [readFile], on the records read so far *)
Fixpoint load_records (records : Records) (es : list (jstr * value)) : result Records :=
  match es with
  | [] => Ok records
  | (key, VString s) :: es' =>
      _ ← assertSecretKey key;
      load_records (put records key s) es'
  | _ => fail "SourceNerve Desktop secure-store contains an invalid record"
  end.

Inductive mutation := SetOpaque (key value : jstr) | DeleteOpaque (key : jstr).
Inductive query := GetOpaque (key : jstr) | HasOpaque (key : jstr) | Presence.

(** What a query's promise settles with *)
Inductive answer :=
| Secret (v : option jstr)
| Flag (b : bool)
| Presences (l : list (jstr * bool))
| SecretDecryptionError (key : jstr)
| Rejected (e : exn).

Definition isSecretDecryptionError (a : answer) (key : option jstr) : bool :=
  match a with
  | SecretDecryptionError k => match key with Some key => bool_decide (k = key) | None => true end
  | _ => false
  end.

(** A settled promise: a mutation, with what went wrong around it, or a query
    that had waited for the first [waited] mutations. *)
Inductive entry :=
| Mutated (m : mutation) (broken : option exn) (fault : write_fault) (ok : bool)
| Answered (q : query) (waited : nat) (broken : option exn) (a : answer).

Record Store := {
  disk : Disk;
  writeSequence : Z;
  (** [mutationQueue]: the mutations whose turn has not come *)
  mutationQueue : list mutation;
  completed : nat;
  queries : list (query * nat);
  log : list entry }.

Definition set_disk (d : Disk) (n : Z) (s : Store) : Store :=
  {| disk := d; writeSequence := n; mutationQueue := mutationQueue s; completed := completed s;
     queries := queries s; log := log s |}.
Definition enqueueMutation (m : mutation) (s : Store) : Store :=
  {| disk := disk s; writeSequence := writeSequence s; mutationQueue := mutationQueue s ++ [m];
     completed := completed s; queries := queries s; log := log s |}.
Definition dequeue (s : Store) : Store :=
  {| disk := disk s; writeSequence := writeSequence s; mutationQueue := tail (mutationQueue s);
     completed := S (completed s); queries := queries s; log := log s |}.
Definition set_queries (qs : list (query * nat)) (s : Store) : Store :=
  {| disk := disk s; writeSequence := writeSequence s; mutationQueue := mutationQueue s;
     completed := completed s; queries := qs; log := log s |}.
Definition settle (e : entry) (s : Store) : Store :=
  {| disk := disk s; writeSequence := writeSequence s; mutationQueue := mutationQueue s;
     completed := completed s; queries := queries s; log := log s ++ [e] |}.

(** The store of a process that starts on a disk *)
Definition new_store (d : Disk) : Store :=
  {| disk := d; writeSequence := 0; mutationQueue := []; completed := 0; queries := []; log := [] |}.

(** A call of the store, or something it waits for happening: the head of the
    queue running, or a query reading the file. [available] is the outcome of
    [backend.assertAvailable()], [broken] an error of [readFile] other than
    the file missing. *)
Inductive event :=
| CallMutation (available : result unit) (m : mutation)
| CallQuery (available : result unit) (q : query)
| RunMutation (broken : option exn) (fault : write_fault)
| RunQuery (i : nat) (broken : option exn).

Section Store.
Context (JSON_parse : jstr -> result value) (JSON_stringify : value -> jstr).
(** [backend.encrypt] of the n-th mutation, [backend.decrypt] *)
Context (encrypt : nat -> jstr -> result bytes) (decrypt : bytes -> result jstr).
Context (filePath pid : jstr).

Definition file_value (records : Records) : value :=
  VObject [(js "version", VInt 1); (js "records", VObject (prod_map id VString <$> records))].
Definition serialize (records : Records) : jstr := JSON_stringify (file_value records) ++ [10%N].

Definition readSecretFile (file : read_outcome) : result Records :=
  match file with
  | Missing => Ok []
  | ReadError e => Throw e
  | Contents raw =>
      parsed ← JSON_parse raw;
      version ← property parsed "version";
      records ← property parsed "records";
      match is_int version 1, entries records with
      | true, Some es => load_records [] es
      | _, _ => fail "unsupported SourceNerve Desktop secure-store format"
      end
  end.

Definition read_disk (broken : option exn) (d : Disk) : result Records :=
  readSecretFile (match broken with Some e => ReadError e | None => readFile d filePath end).

Definition writeSecretFile (fault : write_fault) (records : Records) : M Store unit := fun s =>
  match fault with
  | MkdirFails => (fail "mkdir failed", s)
  | _ =>
      let n := writeSequence s + 1 in
      let temporary := filePath ++ js ".tmp-" ++ (pid ++ js "-" ++ js_int n) in
      let (r, d) := replaceFile fault temporary filePath (serialize records) (disk s) in
      (r, set_disk d n s)
  end.

(** The operation that [setOpaque] or [deleteOpaque] enqueues *)
Definition change (n : nat) (m : mutation) (records : Records) : result Records :=
  match m with
  | SetOpaque key v => b ← encrypt n v; Ok (put records key (toBase64 b))
  | DeleteOpaque key => Ok (map_delete records key)
  end.
Definition operation (n : nat) (m : mutation) (broken : option exn) (fault : write_fault) : M Store unit :=
  s ← get_state;
  records ← lift (read_disk broken (disk s));
  records' ← lift (change n m records);
  writeSecretFile fault records'.

(** [Boolean(file.records[key])] *)
Definition configured (records : Records) (key : jstr) : bool :=
  match get_property records key with
  | Own encoded => truthy encoded
  | FromPrototype => true
  | Undefined => false
  end.

(** [getOpaque] after it has read the file: what the prototype provides is no
    string, and [Buffer.from] throws on it. *)
Definition reveal (records : Records) (key : jstr) : answer :=
  match get_property records key with
  | Undefined => Secret None
  | FromPrototype => SecretDecryptionError key
  | Own encoded =>
      if truthy encoded then
        match decrypt (fromBase64 encoded) with
        | Ok v => Secret (Some v)
        | Throw _ => SecretDecryptionError key
        end
      else Secret None
  end.
Definition answer_query (records : Records) (q : query) : answer :=
  match q with
  | GetOpaque key => reveal records key
  | HasOpaque key => Flag (configured records key)
  | Presence => Presences (map (fun name => (name, configured records name)) SECRET_NAMES)
  end.
Definition run_query (broken : option exn) (q : query) (d : Disk) : answer :=
  match read_disk broken d with Ok records => answer_query records q | Throw e => Rejected e end.

(** The checks a call makes before it waits *)
Definition admit_mutation (available : result unit) (m : mutation) : result unit :=
  _ ← available;
  match m with
  | SetOpaque key v => _ ← assertSecretKey key; assertSecretValue v
  | DeleteOpaque key => assertSecretKey key
  end.
Definition admit_query (available : result unit) (q : query) : result unit :=
  _ ← available;
  match q with
  | GetOpaque key | HasOpaque key => assertSecretKey key
  | Presence => Ok tt
  end.

Definition step (s : Store) (e : event) : Store :=
  match e with
  | CallMutation available m =>
      match admit_mutation available m with Ok _ => enqueueMutation m s | Throw _ => s end
  | CallQuery available q =>
      match admit_query available q with
      | Ok _ => set_queries (queries s ++ [(q, (completed s + length (mutationQueue s))%nat)]) s
      | Throw _ => s
      end
  | RunMutation broken fault =>
      match mutationQueue s with
      | [] => s
      | m :: _ =>
          let (r, s') := operation (completed s) m broken fault s in
          settle (Mutated m broken fault (is_ok r)) (dequeue s')
      end
  | RunQuery i broken =>
      match queries s !! i with
      | Some (q, waited) =>
          if bool_decide (waited <= completed s)%nat
          then settle (Answered q waited broken (run_query broken q (disk s)))
                      (set_queries (delete i (queries s)) s)
          else s
      | None => s
      end
  end.
Definition run (es : list event) (s : Store) : Store := fold_left step es s.
End Store.

(** ** What the store promises: a map of secrets with atomic operations *)

Abbreviation Secrets := (gmap jstr jstr).

Definition spec_mutate (m : mutation) (secrets : Secrets) : Secrets :=
  match m with SetOpaque key v => <[key := v]> secrets | DeleteOpaque key => delete key secrets end.
Definition spec_answer (secrets : Secrets) (q : query) : answer :=
  match q with
  | GetOpaque key => Secret (secrets !! key)
  | HasOpaque key => Flag (bool_decide (is_Some (secrets !! key)))
  | Presence => Presences (map (fun name => (name, bool_decide (is_Some (secrets !! name)))) SECRET_NAMES)
  end.

Definition spec_step (secrets : Secrets) (e : entry) : Secrets :=
  match e with Mutated m _ _ true => spec_mutate m secrets | _ => secrets end.
Definition replay (secrets : Secrets) (l : list entry) : Secrets := fold_left spec_step l secrets.

Definition mutated (e : entry) : option mutation := match e with Mutated m _ _ _ => Some m | _ => None end.
(** The mutations that the store accepted, in the order of the calls *)
Definition accepted (e : event) : option mutation :=
  match e with
  | CallMutation available m => if is_ok (admit_mutation available m) then Some m else None
  | _ => None
  end.

(** A key that no object inherits *)
Definition plain_mutation (m : mutation) : Prop :=
  match m with SetOpaque key _ | DeleteOpaque key => inherited key = false end.
Definition plain_query (q : query) : Prop :=
  match q with GetOpaque key | HasOpaque key => inherited key = false | Presence => True end.
Definition plain_event (e : event) : Prop :=
  match e with CallMutation _ m => plain_mutation m | CallQuery _ q => plain_query q | _ => True end.

Lemma secret_names_plain : Forall (fun name => inherited name = false) SECRET_NAMES.
Proof. repeat constructor. Qed.

(** ** The proof *)

Section Proofs.
Context (JSON_parse : jstr -> result value) (JSON_stringify : value -> jstr).
Context (encrypt : nat -> jstr -> result bytes) (decrypt : bytes -> result jstr).
Context (filePath pid : jstr).
Let read_disk := read_disk JSON_parse filePath.
Let serialize := serialize JSON_stringify.
Let step := step JSON_parse JSON_stringify encrypt decrypt filePath pid.
Let operation := operation JSON_parse JSON_stringify encrypt filePath pid.

(** A mutation takes effect unless something around it fails. *)
Definition effective (n : nat) (m : mutation) (broken : option exn) (fault : write_fault) : bool :=
  bool_decide (broken = None) && write_succeeds fault &&
  match m with SetOpaque _ v => is_ok (encrypt n v) | DeleteOpaque _ => true end.

(** The settled promises are those of one map on which the mutations act in
    their order and the queries read atomically, each after all the mutations
    it had waited for. [n] counts the mutations so far. *)
Inductive linearized : Secrets -> nat -> list entry -> Prop :=
| linearized_nil secrets n : linearized secrets n []
| linearized_mutated secrets n m broken fault ok l : ok = effective n m broken fault ->
    linearized (spec_step secrets (Mutated m broken fault ok)) (S n) l ->
    linearized secrets n (Mutated m broken fault ok :: l)
| linearized_answered secrets n q waited broken a l : (waited <= n)%nat ->
    a = match broken with Some e => Rejected e | None => spec_answer secrets q end ->
    linearized secrets n l ->
    linearized secrets n (Answered q waited broken a :: l).

Definition count_mutated (l : list entry) : nat := length (omap mutated l).

Lemma linearized_snoc_mutated secrets n l m broken fault ok : linearized secrets n l ->
  ok = effective (n + count_mutated l) m broken fault -> linearized secrets n (l ++ [Mutated m broken fault ok]).
Proof.
  intros Hl Hok. induction Hl as [secrets n|secrets n m' b' f' ok' l Hok' _ IH|secrets n q w b a l Hw Ha _ IH]; simpl.
  - constructor; [|constructor]. by rewrite Nat.add_0_r in Hok.
  - constructor; [done|]. apply IH. rewrite Hok. unfold count_mutated. simpl. by rewrite Nat.add_succ_r.
  - constructor; [done..|]. by apply IH.
Qed.

Lemma linearized_snoc_answered secrets n l q waited broken a : linearized secrets n l ->
  (waited <= n + count_mutated l)%nat ->
  a = match broken with Some e => Rejected e | None => spec_answer (replay secrets l) q end ->
  linearized secrets n (l ++ [Answered q waited broken a]).
Proof.
  intros Hl. induction Hl as [secrets n|secrets n m' b' f' ok' l Hok' _ IH|secrets n q' w b a' l Hw Ha _ IH]; simpl; intros H1 H2.
  - constructor; [|done|constructor]. unfold count_mutated in H1. simpl in H1. lia.
  - constructor; [done|]. apply IH; [|done].
    change (count_mutated (Mutated m' b' f' ok' :: l)) with (S (count_mutated l)) in H1. lia.
  - constructor; [done..|]. by apply IH.
Qed.

(** *** The records on disk *)

(** The records decrypt to the secrets. *)
Definition represents (records : Records) (secrets : Secrets) : Prop := forall key,
  match map_get records key with
  | Some encoded => truthy encoded = true /\
      exists v, decrypt (fromBase64 encoded) = Ok v /\ secrets !! key = Some v
  | None => secrets !! key = None
  end.
Definition records_ok (records : Records) : Prop :=
  object_wf records /\ Forall (fun kv => secret_key_ok kv.1 = true /\ kv.1 <> js "__proto__") records.

Definition holds (d : Disk) (secrets : Secrets) : Prop := exists records,
  read_disk None d = Ok records /\ records_ok records /\ represents records secrets.

Lemma empty_disk_holds d : d !! filePath = None -> holds d ∅.
Proof.
  intros Hd. exists []. unfold read_disk, SecureStore.read_disk, readFile. rewrite Hd. split; [done|]. split.
  - split; [|constructor]. split; [constructor|constructor].
  - intros key. by rewrite lookup_empty.
Qed.

Lemma represents_configured records secrets key : represents records secrets -> inherited key = false ->
  configured records key = bool_decide (is_Some (secrets !! key)).
Proof.
  intros Hr Hk. unfold configured, get_property. specialize (Hr key). rewrite Hk. destruct (map_get records key) as [e|].
  - destruct Hr as (-> & v & _ & ->). by rewrite bool_decide_eq_true_2.
  - rewrite Hr. by rewrite bool_decide_eq_false_2 by by intros [? ?].
Qed.

Lemma represents_answer records secrets q : represents records secrets -> plain_query q ->
  answer_query decrypt records q = spec_answer secrets q.
Proof.
  intros Hr. destruct q as [key|key|]; cbn [answer_query spec_answer plain_query]; intros Hk.
  - unfold reveal, get_property. pose proof (Hr key) as H. rewrite Hk. destruct (map_get records key) as [e|].
    + destruct H as (-> & v & -> & ->). done.
    + by rewrite H.
  - f_equal. by apply represents_configured.
  - f_equal. apply map_ext_in. intros name Hin%list_elem_of_In. f_equal. apply represents_configured; [done|].
    pose proof secret_names_plain as Hp. rewrite Forall_forall in Hp. by apply Hp.
Qed.

Lemma plain_not_proto key : inherited key = false -> key <> js "__proto__".
Proof. intros H ->. done. Qed.

(** What is documented of the collaborators: JSON reads back the files the
    store writes, and the backend decrypts what it has encrypted. *)
Context (Hjson : forall records, records_ok records ->
  JSON_parse (serialize records) = Ok (file_value records)).
Context (Hbackend : forall n v b, encrypt n v = Ok b ->
  b <> [] /\ Forall (fun u => u < 256)%N b /\ decrypt b = Ok v).

Lemma represents_change n m records secrets records' : represents records secrets -> plain_mutation m ->
  records_ok records -> change encrypt n m records = Ok records' -> represents records' (spec_mutate m secrets).
Proof.
  intros Hr Hm Hok Hc key. destruct m as [k v|k]; simpl in *.
  - inv_ok. destruct (Hbackend _ _ _ H) as (Hne & Hb & Hd). rewrite put_get by by apply plain_not_proto.
    case_bool_decide as Hk.
    + subst. rewrite fromBase64_toBase64, lookup_insert_eq by done. split; [|by exists v].
      apply truthy_true. by rewrite toBase64_nil.
    + rewrite lookup_insert_ne by done. apply Hr.
  - inv_ok. destruct (decide (k = key)) as [->|Hk].
    + rewrite map_get_delete, bool_decide_eq_true_2 by done. apply lookup_delete_eq.
    + rewrite map_get_delete, bool_decide_eq_false_2, lookup_delete_ne by done. apply Hr.
Qed.

Lemma records_ok_change n m records records' : records_ok records ->
  match m with SetOpaque key _ | DeleteOpaque key => secret_key_ok key = true end -> plain_mutation m ->
  change encrypt n m records = Ok records' -> records_ok records'.
Proof.
  intros [Hwf Hkeys] Hkey Hm Hc. destruct m as [k v|k]; simpl in *; inv_ok.
  - split; [by apply put_wf|]. rewrite Forall_forall in *. intros [k1 v1] Hin.
    apply (map_elem_get (put records k _)) in Hin; [|by apply (put_wf records k)].
    rewrite put_get in Hin by by apply plain_not_proto. case_bool_decide as Hk.
    + subst. split; [done|by apply plain_not_proto].
    + by apply map_get_elem, Hkeys in Hin.
  - split; [by apply delete_wf|]. rewrite Forall_forall in *. intros kv [_ Hin]%list_elem_of_filter. by apply Hkeys.
Qed.

Lemma load_records_put es : forall records, Forall (fun kv => secret_key_ok kv.1 = true) es ->
  load_records records (prod_map id VString <$> es) = Ok (fold_left (fun o kv => put o kv.1 kv.2) es records).
Proof.
  induction es as [|[k v] es IH]; intros records; [done|]. intros [Hk Hes]%Forall_cons. simpl in *.
  unfold assertSecretKey. rewrite Hk. simpl. by apply IH.
Qed.

Lemma read_serialized records : records_ok records ->
  readSecretFile JSON_parse (Contents (serialize records)) = Ok records.
Proof.
  intros Hok. unfold readSecretFile. rewrite Hjson by done. destruct Hok as [Hwf Hkeys]. simpl.
  rewrite load_records_put.
  - rewrite put_all_id; [done|done|]. intros (kv & Hk & Hin)%list_elem_of_fmap. rewrite Forall_forall in Hkeys.
    by destruct (Hkeys kv Hin).
  - eapply Forall_impl; [exact Hkeys|]. by intros kv [? _].
Qed.

Lemma write_holds fault records s r s' : writeSecretFile JSON_stringify filePath pid fault records s = (r, s') ->
  is_ok r = write_succeeds fault /\
  (if write_succeeds fault then disk s' !! filePath = Some (serialize records) else disk s' !! filePath = disk s !! filePath) /\
  s' = set_disk (disk s') (writeSequence s') s.
Proof.
  unfold writeSecretFile. intros H. destruct fault as [| |k|].
  all: try (injection H as <- <-; by destruct s).
  all: pose proof (replaceFile_atomic) as Ha.
  all: match type of H with context [replaceFile ?f ?t ?p ?c ?d] =>
    specialize (Ha f t p c d (temporary_ne filePath (js ".tmp-") _ ltac:(done))); destruct (replaceFile f t p c d) as [r0 d0] end.
  all: injection H as <- <-; destruct Ha as [-> Ha]; by split_and!.
Qed.

Definition mutation_ok (m : mutation) : Prop :=
  plain_mutation m /\ match m with SetOpaque key _ | DeleteOpaque key => secret_key_ok key = true end.

(** One mutation, from the file to the file. *)
Lemma operation_holds n m broken fault s r s' secrets : holds (disk s) secrets -> mutation_ok m ->
  operation n m broken fault s = (r, s') ->
  is_ok r = effective n m broken fault /\
  holds (disk s') (spec_step secrets (Mutated m broken fault (is_ok r))) /\
  s' = set_disk (disk s') (writeSequence s') s.
Proof.
  intros (records & Hread & Hok & Hr) [Hm Hkey]. unfold operation, SecureStore.operation, effective.
  destruct broken as [e|].
  { cbn. intros [= <- <-]. split_and!; [done|by exists records|by destruct s]. }
  unfold mbind, M_bind, get_state, lift. unfold read_disk in Hread. rewrite Hread.
  destruct (change encrypt n m records) as [records'|e] eqn:Hc.
  - intros H%write_holds. destruct H as (Hres & Hdisk & Hs). rewrite bool_decide_eq_true_2 by done.
    assert (match m with SetOpaque _ v => is_ok (encrypt n v) | DeleteOpaque _ => true end = true) as ->.
    { destruct m as [k v|k]; [|done]. simpl in Hc. by destruct (encrypt n v). }
    rewrite andb_true_r. split_and!; [done| |done].
    rewrite Hres. destruct (write_succeeds fault).
    + exists records'. split_and!.
      * unfold read_disk, SecureStore.read_disk, readFile. rewrite Hdisk. apply read_serialized.
        by apply (records_ok_change n m records).
      * by apply (records_ok_change n m records).
      * by apply (represents_change n m records).
    + exists records. split; [|done]. unfold read_disk, SecureStore.read_disk, readFile in *. by rewrite Hdisk.
  - intros [= <- <-]. split_and!; [|by exists records|by destruct s].
    destruct m as [k v|k]; [|done]. simpl in Hc. destruct (encrypt n v); [done|]. by rewrite andb_false_r.
Qed.

Let run := run JSON_parse JSON_stringify encrypt decrypt filePath pid.

Record store_ok (secrets : Secrets) (es : list event) (s : Store) : Prop := {
  ok_disk : holds (disk s) (replay secrets (log s));
  ok_log : linearized secrets 0 (log s);
  ok_completed : completed s = count_mutated (log s);
  ok_queue : Forall mutation_ok (mutationQueue s);
  ok_queries : Forall (fun qw => plain_query qw.1) (queries s);
  ok_order : omap accepted es = omap mutated (log s) ++ mutationQueue s }.

Lemma accepted_ok e m : plain_event e -> accepted e = Some m -> mutation_ok m.
Proof.
  destruct e as [av m'|av q|b f|i b]; simpl; [|done..]. intros Hp.
  destruct (admit_mutation av m') as [u|] eqn:E; [|done]. intros [= <-]. split; [done|].
  unfold admit_mutation in E. destruct m' as [k v|k]; inv_ok.
  all: match goal with H : assertSecretKey _ = Ok _ |- _ => unfold assertSecretKey in H;
    destruct (secret_key_ok k) eqn:Ek; [done|discriminate H] end.
Qed.

Lemma event_linearized secrets es s e : store_ok secrets es s -> plain_event e -> store_ok secrets (es ++ [e]) (step s e).
Proof.
  intros [Hd Hl Hc Hq Hqs Ho] He. unfold step. pose proof (accepted_ok e) as Hacc.
  destruct e as [av m|av q|broken fault|i broken]; cbn [SecureStore.step accepted] in *.
  - destruct (admit_mutation av m) eqn:E; cbn [is_ok] in *.
    + constructor; [done..| | |].
      * apply Forall_app_2; [done|]. forall_list. by apply Hacc.
      * done.
      * rewrite omap_app, Ho. cbn. rewrite E. by rewrite <- app_assoc.
    + constructor; [done..|]. rewrite omap_app, Ho. cbn. rewrite E. by rewrite app_nil_r.
  - destruct (admit_query av q) eqn:E.
    + constructor; [done..| |].
      * apply Forall_app_2; [done|]. forall_list. done.
      * by rewrite omap_app, app_nil_r.
    + constructor; [done..|]. by rewrite omap_app, app_nil_r.
  - destruct (mutationQueue s) as [|m q] eqn:Eq.
    + constructor; [done|done|done|by rewrite Eq|done|]. by rewrite omap_app, app_nil_r, Eq.
    + apply Forall_cons in Hq as [Hm Hq].
      destruct (SecureStore.operation JSON_parse JSON_stringify encrypt filePath pid (completed s) m broken fault s)
        as [r s'] eqn:Eo.
      destruct (operation_holds _ _ _ _ _ _ _ _ Hd Hm Eo) as (Hr & Hd' & ->).
      constructor; cbn; rewrite ?Eq; [|by apply linearized_snoc_mutated; rewrite <- ?Hc| |done|done|].
      * unfold replay. by rewrite fold_left_app.
      * unfold count_mutated. rewrite omap_app, length_app. cbn. rewrite Hc. unfold count_mutated. lia.
      * by rewrite !omap_app, app_nil_r, Ho, <- app_assoc.
  - destruct (queries s !! i) as [[q waited]|] eqn:Eq.
    + case_bool_decide as Hw.
      * constructor; cbn.
        -- unfold replay. by rewrite fold_left_app.
        -- apply linearized_snoc_answered; [done|simpl; lia|].
           rewrite Forall_forall in Hqs. specialize (Hqs _ (list_elem_of_lookup_2 _ _ _ Eq)).
           destruct Hd as (records & Hread & _ & Hr). unfold run_query. destruct broken as [e|]; [done|].
           unfold read_disk in Hread. rewrite Hread. by apply represents_answer.
        -- unfold count_mutated. rewrite omap_app, app_nil_r. done.
        -- done.
        -- by apply Forall_delete.
        -- by rewrite !omap_app, !app_nil_r, Ho.
      * constructor; [done..|]. by rewrite omap_app, app_nil_r.
    + constructor; [done..|]. by rewrite omap_app, app_nil_r.
Qed.

Lemma run_linearized secrets es : Forall plain_event es -> forall es0 s, store_ok secrets es0 s ->
  store_ok secrets (es0 ++ es) (run es s).
Proof.
  unfold run, SecureStore.run. induction 1 as [|e es He _ IH]; intros es0 s Hs; [by rewrite app_nil_r|]. simpl.
  rewrite (cons_middle e es0 es), app_assoc. apply IH. by apply event_linearized.
Qed.
End Proofs.

(** ** Properties *)

(** C6: whatever calls, failing reads and failing writes interleave, the store
    is a map of secrets, for keys that are not the name of a property every
    object inherits (as [constructor] or [__proto__]; for those the code reads
    the inherited property, [inherited_key_is_configured]): its mutations take effect
    atomically, each unless its own read, encryption or write fails, in the
    order of the calls; every query gets what that map held at one moment, not
    before the mutations that were called before it; and a store started on the
    file finds that map again. The encryption decrypts what it encrypted to
    non-empty bytes, and [JSON] keeps the records. *)
Theorem secrets_are_a_map JSON_parse JSON_stringify encrypt decrypt filePath pid es d secrets
  (Hjson : forall records, records_ok records ->
     JSON_parse (serialize JSON_stringify records) = Ok (file_value records))
  (Hbackend : forall n v b, encrypt n v = Ok b ->
     b <> [] /\ Forall (fun u => u < 256)%N b /\ decrypt b = Ok v)
  (Hd : holds JSON_parse decrypt filePath d secrets) (Hes : Forall plain_event es) :
  let s := run JSON_parse JSON_stringify encrypt decrypt filePath pid es (new_store d) in
  linearized encrypt secrets 0 (log s) /\
  omap accepted es = omap mutated (log s) ++ mutationQueue s /\
  holds JSON_parse decrypt filePath (disk s) (replay secrets (log s)).
Proof.
  intros s. assert (Hs : store_ok JSON_parse encrypt decrypt filePath secrets es s).
  { apply (run_linearized JSON_parse JSON_stringify encrypt decrypt filePath pid Hjson Hbackend secrets es Hes [] (new_store d)).
    constructor; try done; constructor. }
  by destruct Hs.
Qed.

(** The steps that are left once nobody calls any more: every queued mutation
    runs, then every query. *)
Definition drain_events (faults : list (option exn * write_fault)) (broken : list (option exn)) : list event :=
  map (fun f => RunMutation f.1 f.2) faults ++ map (RunQuery 0) broken.

Section Drain.
Context (JSON_parse : jstr -> result value) (JSON_stringify : value -> jstr).
Context (encrypt : nat -> jstr -> result bytes) (decrypt : bytes -> result jstr) (filePath pid : jstr).
Let step := step JSON_parse JSON_stringify encrypt decrypt filePath pid.
Let run := run JSON_parse JSON_stringify encrypt decrypt filePath pid.

(** A query waits for mutations that have been called already. *)
Definition waits_ok (s : Store) : Prop :=
  Forall (fun qw => (qw.2 <= completed s + length (mutationQueue s))%nat) (queries s).

Lemma operation_set_disk n m b f s r s' : operation JSON_parse JSON_stringify encrypt filePath pid n m b f s = (r, s') ->
  s' = set_disk (disk s') (writeSequence s') s.
Proof.
  unfold operation, mbind, M_bind, get_state, lift.
  destruct (read_disk _ _ _ _) as [rs|]; [|intros [= <- <-]; by destruct s].
  destruct (change _ _ _ _) as [rs'|]; [|intros [= <- <-]; by destruct s].
  intros (_ & _ & H)%write_holds. exact H.
Qed.

Lemma run_mutation_step s b f : match mutationQueue s with
  | [] => step s (RunMutation b f) = s
  | m :: q => exists d n ok, step s (RunMutation b f) = settle (Mutated m b f ok) (dequeue (set_disk d n s))
  end.
Proof.
  unfold step. simpl. destruct (mutationQueue s) as [|m q]; [done|].
  destruct (operation _ _ _ _ _ _ _ _ _ _) as [r s'] eqn:E. apply operation_set_disk in E. rewrite E. by eexists _, _, _.
Qed.

Lemma step_waits_ok s e : waits_ok s -> waits_ok (step s e).
Proof.
  unfold waits_ok. intros H. destruct e as [av m|av q|b f|i b].
  - unfold step. simpl. destruct (admit_mutation av m); [|done]. simpl. rewrite length_app.
    eapply Forall_impl; [exact H|]. simpl. intros; lia.
  - unfold step. simpl. destruct (admit_query av q); [|done]. simpl. apply Forall_app_2; [done|]. forall_list. simpl. lia.
  - pose proof (run_mutation_step s b f) as Hs. destruct (mutationQueue s) as [|m q] eqn:E; [rewrite Hs; by rewrite E|].
    destruct Hs as (d & n & ok & ->). simpl. rewrite E. simpl. eapply Forall_impl; [exact H|]. simpl. intros; lia.
  - unfold step. simpl. destruct (queries s !! i) as [[q w]|] eqn:E; [|done]. case_bool_decide; [|done]. simpl.
    by apply Forall_delete.
Qed.
Lemma run_waits_ok es s : waits_ok s -> waits_ok (run es s).
Proof. revert s. induction es as [|e es IH]; intros s Hs; [done|]. by apply IH, step_waits_ok. Qed.

Lemma run_mutations faults : forall s, length faults = length (mutationQueue s) ->
  let s' := run (map (fun f => RunMutation f.1 f.2) faults) s in
  mutationQueue s' = [] /\ queries s' = queries s.
Proof.
  induction faults as [|[b f] faults IH]; intros s Hlen.
  { split; [|done]. by apply nil_length_inv. }
  assert (Hs : mutationQueue (step s (RunMutation b f)) = tail (mutationQueue s) /\
               queries (step s (RunMutation b f)) = queries s).
  { pose proof (run_mutation_step s b f) as Hs. destruct (mutationQueue s) as [|m q] eqn:E; [by rewrite Hs|].
    destruct Hs as (d & n & ok & ->). simpl. by rewrite E. }
  destruct Hs as [H1 H2]. destruct (IH (step s (RunMutation b f))) as [H3 H4].
  { rewrite H1. destruct (mutationQueue s); simpl in *; lia. }
  split; [exact H3|]. rewrite <- H2. exact H4.
Qed.

Lemma run_queries broken : forall s, length broken = length (queries s) -> waits_ok s -> mutationQueue s = [] ->
  let s' := run (map (RunQuery 0) broken) s in mutationQueue s' = [] /\ queries s' = [].
Proof.
  induction broken as [|b broken IH]; intros s Hlen Hw Hq.
  { split; [done|]. by apply nil_length_inv. }
  cbv zeta. pose proof (step_waits_ok s (RunQuery 0 b) Hw) as Hw'. revert Hw'. unfold run, SecureStore.run. simpl map.
  cbn [fold_left]. change (SecureStore.step JSON_parse JSON_stringify encrypt decrypt filePath pid s (RunQuery 0 b))
    with (step s (RunQuery 0 b)). intros Hw'.
  assert (Hs : mutationQueue (step s (RunQuery 0 b)) = [] /\ queries (step s (RunQuery 0 b)) = tail (queries s)).
  { unfold step. simpl. destruct (queries s) as [|[q w] qs] eqn:E; [done|]. simpl.
    unfold waits_ok in Hw. rewrite E, Hq in Hw. apply Forall_cons in Hw as [Hw _]. simpl in Hw.
    rewrite bool_decide_eq_true_2 by lia. done. }
  destruct Hs as [H1 H2]. apply IH; [|done|done]. rewrite H2. destruct (queries s); simpl in *; lia.
Qed.
End Drain.

(** No promise waits forever: from any state the store can reach, once the
    queued mutations have had their turn, each succeeding or failing as it may,
    every query is answered; a failed mutation holds up nothing behind it. *)
Theorem every_promise_settles JSON_parse JSON_stringify encrypt decrypt filePath pid es d faults broken :
  let run := run JSON_parse JSON_stringify encrypt decrypt filePath pid in
  let s := run es (new_store d) in
  length faults = length (mutationQueue s) -> length broken = length (queries s) ->
  let s' := run (drain_events faults broken) s in mutationQueue s' = [] /\ queries s' = [].
Proof.
  intros run0 s Hf Hb s'. unfold s', drain_events, run0, run. rewrite fold_left_app.
  destruct (run_mutations JSON_parse JSON_stringify encrypt decrypt filePath pid faults s Hf) as [H1 H2].
  apply run_queries; [unfold run in H2; by rewrite H2| |done].
  apply run_waits_ok. apply (run_waits_ok JSON_parse JSON_stringify encrypt decrypt filePath pid). constructor.
Qed.

(** ** Concrete runs *)

Definition sample_encrypt (n : nat) (v : jstr) : result bytes :=
  if forallb (fun u => u <? 256)%N v then Ok (N.of_nat (n mod 256) :: v) else fail "encryption failed".
Definition sample_decrypt (b : bytes) : result jstr :=
  match b with _ :: v => Ok v | [] => fail "decryption failed" end.
Abbreviation sample_run := (run sample_parse sample_stringify sample_encrypt sample_decrypt (js "/secure-store.json") (js "42")).

Lemma sample_backend n v b : sample_encrypt n v = Ok b ->
  b <> [] /\ Forall (fun u => u < 256)%N b /\ sample_decrypt b = Ok v.
Proof.
  unfold sample_encrypt. destruct (forallb _ v) eqn:E; [|done]. intros [= <-]. split_and!; [done| |done].
  constructor.
  - pose proof (Nat.mod_upper_bound n 256 ltac:(lia)). lia.
  - apply Forall_forall. intros u Hu. apply list_elem_of_In in Hu.
    rewrite forallb_forall in E. apply N.ltb_lt. by apply E.
Qed.

Definition sample_events : list event := [
  CallMutation (Ok tt) (SetOpaque (js "githubToken") (js "abc")); CallQuery (Ok tt) (GetOpaque (js "githubToken"));
  CallMutation (Ok tt) (DeleteOpaque (js "githubToken")); RunQuery 0 None; RunMutation None NoFault;
  CallQuery (Ok tt) Presence; RunQuery 0 None; RunMutation None (WriteFails 3); RunQuery 0 None].

Lemma sample_events_plain : Forall plain_event sample_events.
Proof. repeat constructor. Qed.

Example sample_log : omap (fun e => match e with Answered _ _ _ a => Some a | _ => None end) (log (sample_run sample_events (new_store ∅)))
  = [Secret (Some (js "abc")); Presences (map (fun n => (n, bool_decide (n = js "githubToken"))) SECRET_NAMES)].
Proof. vm_compute. reflexivity. Qed.

Lemma secrets_are_a_map_witness :
  linearized sample_encrypt ∅ 0 (log (sample_run sample_events (new_store ∅))).
Proof.
  destruct (secrets_are_a_map sample_parse sample_stringify sample_encrypt sample_decrypt (js "/secure-store.json") (js "42")
    sample_events ∅ ∅ (fun records _ => sample_json_line _) sample_backend
    (empty_disk_holds _ _ _ _ (lookup_empty _)) sample_events_plain) as (H & _). exact H.
Defined.

Lemma every_promise_settles_witness :
  queries (sample_run (drain_events [(None, RenameFails)] [Some (Error (js "EIO"))])
    (sample_run (take 2 sample_events) (new_store ∅))) = [].
Proof.
  destruct (every_promise_settles sample_parse sample_stringify sample_encrypt sample_decrypt (js "/secure-store.json") (js "42")
    (take 2 sample_events) ∅ [(None, RenameFails)] [Some (Error (js "EIO"))] eq_refl eq_refl) as [_ H]. exact H.
Defined.

(** The records are a plain object, and every safe key is accepted. A key that
    objects inherit is therefore found configured though nobody set it, and
    what is stored under [__proto__] is lost. *)
Example inherited_key_is_configured :
  let es := [CallQuery (Ok tt) (HasOpaque (js "constructor")); RunQuery 0 None;
    CallMutation (Ok tt) (SetOpaque (js "__proto__") (js "abc")); RunMutation None NoFault;
    CallQuery (Ok tt) (GetOpaque (js "__proto__")); RunQuery 0 None] in
  log (sample_run es (new_store ∅)) =
  [Answered (HasOpaque (js "constructor")) 0 None (Flag true);
   Mutated (SetOpaque (js "__proto__") (js "abc")) None NoFault true;
   Answered (GetOpaque (js "__proto__")) 1 None (SecretDecryptionError (js "__proto__"))].
Proof. vm_compute. reflexivity. Qed.

End SecureStore.
