(* ===== verification/TaskPolicy.v ===== *)
(** * What the renderer may ask about tasks (task-policy.ts)

    The checks of the task channels' arguments, and the shapes of ids that
    task-registry.ts exports. *)

From S2P Require Import Prelude JsValue Path JsObject.

Module TaskPolicy.

Definition MAX_CONTEXT_QUERY_BYTES : Z := 4096.
Definition MAX_PATCH_BYTES : Z := 1000000.
Definition MAX_COMMIT_MESSAGE_BYTES : Z := 16 * 1024.
Definition MAX_EXPECTATIONS : Z := 128.
Definition MAX_REPOSITORY_PATH : Z := 1024.
Definition MAX_BRANCH : Z := 240.
Definition BACKSLASH : N := 92.

(** [TASK_IPC] *)
Inductive channel := List | Begin | Remember | Get | Cancel | Branch | Propose | Apply | Review | Commit | Push | ReadFile.
Definition channel_name (c : channel) : jstr := js
  match c with
  | List => "desktop:tasks-list" | Begin => "desktop:tasks-begin" | Remember => "desktop:tasks-remember"
  | Get => "desktop:tasks-get" | Cancel => "desktop:tasks-cancel" | Branch => "desktop:tasks-branch"
  | Propose => "desktop:tasks-propose" | Apply => "desktop:tasks-apply" | Review => "desktop:tasks-review"
  | Commit => "desktop:tasks-commit" | Push => "desktop:tasks-push" | ReadFile => "desktop:tasks-file-read"
  end.
Definition TASK_INBOUND_IPC_CHANNELS : list channel :=
  [List; Begin; Remember; Get; Cancel; Branch; Propose; Apply; Review; Commit; Push; ReadFile].

(** ** Ids *)

Definition is_letter (u : N) : bool := ((65 <=? u) && (u <=? 90) || (97 <=? u) && (u <=? 122))%N.
Definition is_hex (u : N) : bool :=
  (is_digit u || (65 <=? u) && (u <=? 70) || (97 <=? u) && (u <=? 102))%N.
(** [[A-Za-z0-9._-]] *)
Definition is_id_unit (u : N) : bool := (is_letter u || is_digit u || (u =? 46) || (u =? 95) || (u =? 45))%N.

(** A pattern that fixes the class of every code unit. *)
Fixpoint fits (pattern : list (N -> bool)) (s : jstr) : bool :=
  match pattern, s with
  | [], [] => true
  | p :: pattern', u :: s' => p u && fits pattern' s'
  | _, _ => false
  end.

Definition uuid_pattern : list (N -> bool) :=
  let dash := N.eqb 45 in
  replicate 8 is_hex ++ dash :: replicate 4 is_hex ++ dash :: N.eqb 52 :: replicate 3 is_hex ++ dash
  :: (fun u => existsb (N.eqb u) (js "89abAB")) :: replicate 3 is_hex ++ dash :: replicate 12 is_hex.
Definition uuid_ok (s : jstr) : bool := fits uuid_pattern s.
Definition isUuid (v : value) : bool := match v with VString s => uuid_ok s | _ => false end.

Definition workspace_id_ok (s : jstr) : bool := (1 <=? slen s) && (slen s <=? 128) && forallb is_id_unit s.
Definition isWorkspaceId (v : value) : bool := match v with VString s => workspace_id_ok s | _ => false end.

Definition sha256_ok (s : jstr) : bool := fits (replicate 64 is_hex) s.
Definition isSha256 (v : value) : bool := match v with VString s => sha256_ok s | _ => false end.

(** ** Paths and branches *)

(** [value.replaceAll("\\", "/")] *)
Definition to_slashes (s : jstr) : jstr := map (fun u => if (u =? BACKSLASH)%N then SLASH else u) s.

(** [/^[A-Za-z]:\//] *)
Definition has_drive (s : jstr) : bool :=
  match s with u :: c :: d :: _ => is_letter u && (c =? 58)%N && (d =? SLASH)%N | _ => false end.

Definition plain_segment (s : jstr) : bool :=
  truthy s && negb (is_dot s) && negb (is_dotdot s).

Definition path_ok (s : jstr) : bool :=
  (1 <=? slen s) && (slen s <=? MAX_REPOSITORY_PATH) &&
  negb (starts_with s [SLASH]) && negb (starts_with s [BACKSLASH]) && negb (has_control s) &&
  negb (has_drive (to_slashes s)) && forallb plain_segment (split_char SLASH (to_slashes s)).
Definition isRelativeRepositoryPath (v : value) : bool := match v with VString s => path_ok s | _ => false end.

Definition ends_with (s p : jstr) : bool := starts_with (reverse s) (reverse p).

(** [/[\u0000-\u0020~^:?*\[]/] *)
Definition bad_branch_unit (u : N) : bool := ((u <=? 0x20) || existsb (N.eqb u) (js "~^:?*["))%N.

Definition branch_ok (s : jstr) : bool :=
  (1 <=? slen s) && (slen s <=? MAX_BRANCH) &&
  negb (starts_with s (js "-")) && negb (starts_with s [SLASH]) && negb (ends_with s [SLASH]) && negb (ends_with s (js ".")) &&
  negb (includes s (js "..")) && negb (includes s (js "@{")) && negb (includes s [BACKSLASH]) &&
  negb (existsb bad_branch_unit s) &&
  forallb (fun part => plain_segment part && negb (ends_with part (js ".lock"))) (split_char SLASH s).
Definition isSafeBranch (v : value) : bool := match v with VString s => branch_ok s | _ => false end.

(** ** Arguments *)

Definition exactKeys (fs : list (jstr * value)) (allowed : list string) : bool := keys_allowed (map js allowed) fs.
(** [isRecord(value) && exactKeys(value, allowed) && test] *)
Definition record_of (v : value) (allowed : list string) (test : list (jstr * value) -> bool) : bool :=
  match is_record v with Some fs => exactKeys fs allowed && test fs | None => false end.

Definition boundedUtf8 (v : value) (minBytes maxBytes : Z) : bool :=
  match v with
  | VString s => truthy (trim s) && negb (has_nul s) && (minBytes <=? utf8_len s) && (utf8_len s <=? maxBytes)
  | _ => false
  end.
Definition is_undefined (v : value) : bool := match v with VUndefined => true | _ => false end.

Definition isBeginInput (v : value) : bool := record_of v ["workspace"; "contextQuery"]%string (fun fs =>
  isWorkspaceId (field fs (js "workspace")) &&
  (is_undefined (field fs (js "contextQuery")) || boundedUtf8 (field fs (js "contextQuery")) 1 MAX_CONTEXT_QUERY_BYTES)).

Definition isFileReadInput (v : value) : bool := record_of v ["taskId"; "path"]%string (fun fs =>
  isUuid (field fs (js "taskId")) && isRelativeRepositoryPath (field fs (js "path"))).

Definition isBranchInput (v : value) : bool := record_of v ["taskId"; "branch"]%string (fun fs =>
  isUuid (field fs (js "taskId")) && isSafeBranch (field fs (js "branch"))).

Definition isExpectation (v : value) : bool := record_of v ["path"; "sha256"]%string (fun fs =>
  isRelativeRepositoryPath (field fs (js "path")) &&
  (is_undefined (field fs (js "sha256")) || isSha256 (field fs (js "sha256")))).

(** The loop over [expectedFiles], on the paths seen so far *)
Fixpoint expectations_ok (paths : list jstr) (items : list value) : bool :=
  match items with
  | [] => true
  | item :: items' =>
      isExpectation item &&
      match item with
      | VObject fs =>
          match field fs (js "path") with
          | VString p => negb (bool_decide (p ∈ paths)) && expectations_ok (p :: paths) items'
          | _ => false
          end
      | _ => false
      end
  end.

Definition isProposeInput (v : value) : bool := record_of v ["taskId"; "expectedFiles"; "patch"]%string (fun fs =>
  isUuid (field fs (js "taskId")) &&
  match field fs (js "patch") with
  | VString patch => (1 <=? utf8_len patch) && (utf8_len patch <=? MAX_PATCH_BYTES) && negb (has_nul patch)
  | _ => false
  end &&
  match field fs (js "expectedFiles") with
  | VArray items => (1 <=? Z.of_nat (length items)) && (Z.of_nat (length items) <=? MAX_EXPECTATIONS) && expectations_ok [] items
  | _ => false
  end).

Definition isApplyInput (v : value) : bool := record_of v ["taskId"; "proposalId"]%string (fun fs =>
  isUuid (field fs (js "taskId")) && isUuid (field fs (js "proposalId"))).

Definition isCommitInput (v : value) : bool := record_of v ["taskId"; "message"]%string (fun fs =>
  isUuid (field fs (js "taskId")) && boundedUtf8 (field fs (js "message")) 1 MAX_COMMIT_MESSAGE_BYTES).

Definition one_argument (p : value -> bool) (args : list value) : bool :=
  match args with [a] => p a | _ => false end.

(** [None] is the [null] of an allowed invocation. *)
Definition validateTaskIpcInvocation (c : channel) (args : list value) : option string :=
  let check (p : value -> bool) (message : string) := if one_argument p args then None else Some message in
  match c with
  | List => if bool_decide (args = []) then None else Some "task operation does not accept arguments"
  | Begin => check isBeginInput "task begin input is invalid"
  | ReadFile => check isFileReadInput "task file read input is invalid"
  | Remember | Get | Cancel | Review | Push => check isUuid "task ID must be a SourceNerve task UUID"
  | Branch => check isBranchInput "task branch input is invalid"
  | Propose => check isProposeInput "task proposal input is invalid"
  | Apply => check isApplyInput "task apply input is invalid"
  | Commit => check isCommitInput "task commit input is invalid"
  end%string.

(** ** Accepted paths *)

Lemma to_slashes_id w : BACKSLASH ∉ w -> to_slashes w = w.
Proof.
  intros H. rewrite <- (map_id w) at 2. apply map_ext_in. intros u Hu%list_elem_of_In.
  destruct (u =? BACKSLASH)%N eqn:E; [|done]. apply N.eqb_eq in E. by subst.
Qed.

Lemma split_to_slashes l : Forall (fun w => SLASH ∉ w) l -> l <> [] ->
  split_char SLASH (to_slashes (join [SLASH] l)) = l ≫= (fun w => split_char SLASH (to_slashes w)).
Proof.
  induction l as [|w l IH]; [done|]. intros [Hw Hl]%Forall_cons _. destruct l as [|w' l]; [simpl; by rewrite app_nil_r|].
  change (join [SLASH] (w :: w' :: l)) with (w ++ SLASH :: join [SLASH] (w' :: l)).
  unfold to_slashes at 1. rewrite map_app. change (map _ (SLASH :: ?x)) with (SLASH :: to_slashes x).
  rewrite split_char_app_sep. fold (to_slashes w). by rewrite IH.
Qed.

Lemma plain_segment_kept s : plain_segment s = true -> SLASH ∉ s -> kept_segment s.
Proof.
  unfold plain_segment, is_dot, is_dotdot. intros H Hs. to_prop. split_and!; try done. by apply truthy_true.
Qed.

Lemma path_ok_kept p : path_ok p = true ->
  Forall kept_segment (split_char SLASH (to_slashes p)) /\ Forall kept_segment (split_char SLASH p).
Proof.
  unfold path_ok. intros H. apply andb_prop in H as [_ H].
  assert (Hn : Forall kept_segment (split_char SLASH (to_slashes p))).
  { apply Forall_forall. intros s Hs. apply plain_segment_kept; [|by eapply split_char_no_sep].
    rewrite forallb_forall in H. apply H. by apply list_elem_of_In. }
  split; [done|]. apply Forall_forall. intros s Hs.
  assert (Hslash : SLASH ∉ s) by by eapply split_char_no_sep.
  destruct (decide (BACKSLASH ∈ s)) as [Hb|Hb].
  - split_and!; [| | |done]; intros ->; refine (bool_decide_eq_false_1 _ _ Hb); by vm_compute.
  - rewrite Forall_forall in Hn. apply Hn. rewrite <- (join_split_char SLASH p).
    rewrite split_to_slashes; [|apply Forall_forall; intros w Hw; by eapply split_char_no_sep|apply split_char_nonempty].
    apply list_elem_of_bind. exists s. split; [|done]. rewrite to_slashes_id by done. rewrite split_char_none by done. by left.
Qed.


Lemma to_slashes_idem p : to_slashes (to_slashes p) = to_slashes p.
Proof.
  unfold to_slashes. rewrite map_map. apply map_ext. intros u. destruct (u =? BACKSLASH)%N eqn:E; [done|by rewrite E].
Qed.
Lemma starts_with_one u p c : starts_with (u :: p) [c] = (c =? u)%N.
Proof. destruct p; simpl; apply andb_true_r. Qed.

(** The normal form of an accepted path is accepted. *)
Lemma path_ok_slashes p : path_ok p = true -> path_ok (to_slashes p) = true.
Proof.
  unfold path_ok. rewrite to_slashes_idem. intros H. repeat (apply andb_prop in H as [H ?]).
  assert (Hl : slen (to_slashes p) = slen p) by (unfold slen, to_slashes; by rewrite length_map).
  rewrite Hl.
  repeat match goal with H : ?b = true |- context [?b] => rewrite H end. rewrite !andb_true_r, ?andb_true_l.
  assert (Hc : has_control (to_slashes p) = has_control p).
  { unfold has_control, to_slashes. clear. induction p as [|u p IH]; [done|]. simpl. rewrite IH. f_equal.
    destruct (u =? BACKSLASH)%N eqn:E; [|done]. apply N.eqb_eq in E. by subst. }
  rewrite Hc, H2, andb_true_r. destruct p as [|u p]; [done|]. unfold to_slashes. cbn [map].
  rewrite !starts_with_one in *. apply negb_true_iff in H3, H4.
  destruct (u =? BACKSLASH)%N eqn:E; [by rewrite N.eqb_sym, E in H3|]. by rewrite H3, H4.
Qed.

(** A repository path that the renderer may name stays below the
    repository: resolved against any absolute root, written with slashes or as
    it came, it is that root followed by the segments of the path, none of
    which is empty, a dot or two dots. *)
Theorem repository_path_confined cwd root p (Hroot : isAbsolute root = true) (Hp : path_ok p = true) :
  segments cwd (root ++ SLASH :: to_slashes p) = segments cwd root ++ split_char SLASH (to_slashes p) /\
  segments cwd (root ++ SLASH :: p) = segments cwd root ++ split_char SLASH p /\
  Forall kept_segment (split_char SLASH (to_slashes p)).
Proof.
  destruct (path_ok_kept p Hp) as [H1 H2]. split_and!; [by apply segments_below..|done].
Qed.

Lemma repository_path_confined_witness :
  isAbsolute (js "/repo") = true /\ path_ok (js "src\lib/main.ts") = true /\
  segments [] (js "/repo" ++ SLASH :: to_slashes (js "src\lib/main.ts")) = map js ["repo"; "src"; "lib"; "main.ts"]%string.
Proof.
  split; [done|]. split; [by vm_compute|].
  destruct (repository_path_confined [] (js "/repo") (js "src\lib/main.ts") eq_refl eq_refl) as (-> & _). by vm_compute.
Defined.
End TaskPolicy.
