(* ===== verification/TaskRegistry.v ===== *)
(** * The registry of the user's tasks (task-registry.ts)

    The newest 200 task references, in memory and in a file that every
    [remember] rewrites. A call of [remember] computes the new list at once and
    then awaits the directory, the temporary file and the rename before it
    replaces the list in memory: these are steps of their own here, and the
    temporary file has one name for the whole process.

    [JSON], [localeCompare] and the finiteness of [Date.parse] are arguments. *)

From S2P Require Import Prelude JsValue Validate LocalFile TaskPolicy JsonCodec.
Import TaskPolicy.

Module TaskRegistry.

Definition SCHEMA_VERSION : Z := 1.
Definition MAX_REFERENCES : nat := 200.

Record DesktopTaskReference := { taskId : jstr; workspace : jstr; createdAt : jstr }.
#[global] Instance DesktopTaskReference_eq_dec : EqDecision DesktopTaskReference.
Proof. solve_decision. Defined.

(** Where a call of [remember] waits, with the list it will install *)
Inductive stage := AtMkdir | AtWrite | AtRename.
Record Registry := {
  tasks : list DesktopTaskReference;
  disk : Disk;
  pending : list (stage * list DesktopTaskReference) }.

Definition set_pending (p : list (stage * list DesktopTaskReference)) (r : Registry) : Registry :=
  {| tasks := tasks r; disk := disk r; pending := p |}.
Definition set_disk (d : Disk) (r : Registry) : Registry :=
  {| tasks := tasks r; disk := d; pending := pending r |}.
Definition set_tasks (l : list DesktopTaskReference) (r : Registry) : Registry :=
  {| tasks := l; disk := disk r; pending := pending r |}.
Definition new_registry (d : Disk) : Registry := {| tasks := []; disk := d; pending := [] |}.

Section Registry.
Context (localeCompare : jstr -> jstr -> Z) (date_finite : jstr -> bool).
Context (JSON_parse : jstr -> result value) (JSON_stringify : value -> jstr).
Context (filePath pid : jstr).

Definition temporary : jstr := filePath ++ js ".tmp-" ++ pid.

Definition reference_value (t : DesktopTaskReference) : value :=
  VObject [(js "taskId", VString (taskId t)); (js "workspace", VString (workspace t)); (js "createdAt", VString (createdAt t))].

Definition validateReference (v : value) : result DesktopTaskReference :=
  match is_record v with
  | None => fail "Desktop task reference is invalid"
  | Some fs =>
      if negb (keys_allowed (map js ["taskId"; "workspace"; "createdAt"]%string) fs)
      then fail "Desktop task reference contains unknown fields"
      else match field fs (js "taskId"), field fs (js "workspace"), field fs (js "createdAt") with
      | VString id, ws, created =>
          if negb (uuid_ok id) then fail "Desktop task ID is invalid"
          else match ws with
          | VString w =>
              if negb (workspace_id_ok w) then fail "Desktop task workspace is invalid"
              else match created with
              | VString c => if date_finite c then Ok {| taskId := id; workspace := w; createdAt := c |}
                             else fail "Desktop task timestamp is invalid"
              | _ => fail "Desktop task timestamp is invalid"
              end
          | _ => fail "Desktop task workspace is invalid"
          end
      | _, _, _ => fail "Desktop task ID is invalid"
      end
  end.

Definition parseRegistry (v : value) : result (list DesktopTaskReference) :=
  match v with
  | VObject fs =>
      match is_int (field fs (js "schemaVersion")) SCHEMA_VERSION, field fs (js "tasks") with
      | true, VArray items =>
          if (length items <=? MAX_REFERENCES)%nat then map_result validateReference items
          else fail "unsupported Desktop task registry schema"
      | _, _ => fail "unsupported Desktop task registry schema"
      end
  | _ => fail "unsupported Desktop task registry schema"
  end.

Definition registry_value (l : list DesktopTaskReference) : value :=
  VObject [(js "schemaVersion", VInt SCHEMA_VERSION); (js "tasks", VArray (map reference_value l))].
Definition serialize (l : list DesktopTaskReference) : jstr := JSON_stringify (registry_value l) ++ [10%N].

(** [initialize] on what [readFile] gives: only a missing file keeps the list. *)
Definition initialize (file : read_outcome) (r : Registry) : Registry :=
  match file with
  | Missing => r
  | ReadError _ => set_tasks [] r
  | Contents raw =>
      match (_ ← require (utf8_len raw <=? 256 * 1024) "Desktop task registry exceeds 256 KiB";
             parsed ← JSON_parse raw; parseRegistry parsed) with
      | Ok l => set_tasks l r
      | Throw _ => set_tasks [] r
      end
  end.

(** The list that [remember] installs *)
Definition next_tasks (t : DesktopTaskReference) (l : list DesktopTaskReference) : list DesktopTaskReference :=
  take MAX_REFERENCES (sort_by (fun left right => localeCompare (createdAt right) (createdAt left))
    (filter (fun item => taskId item <> taskId t) l ++ [t])).

(** A call of [remember], and a step of the i-th call that waits *)
Inductive event := Remember (t : DesktopTaskReference) | Step (i : nat) (fault : option nat).

Definition remember (t : DesktopTaskReference) (r : Registry) : Registry :=
  match validateReference (reference_value t) with
  | Ok _ => set_pending (pending r ++ [(AtMkdir, next_tasks t (tasks r))]) r
  | Throw _ => r
  end.

(** [fault] says that the awaited operation fails, after writing that many
    code units where it writes. *)
Definition advance (i : nat) (fault : option nat) (r : Registry) : Registry :=
  match pending r !! i with
  | None => r
  | Some (AtMkdir, next) =>
      match fault with
      | Some _ => set_pending (delete i (pending r)) r
      | None => set_pending (<[i := (AtWrite, next)]> (pending r)) r
      end
  | Some (AtWrite, next) =>
      match fault with
      | Some n => set_pending (delete i (pending r)) (set_disk (<[temporary := take n (serialize next)]> (disk r)) r)
      | None => set_pending (<[i := (AtRename, next)]> (pending r)) (set_disk (<[temporary := serialize next]> (disk r)) r)
      end
  | Some (AtRename, next) =>
      match fault, disk r !! temporary with
      | None, Some content =>
          set_tasks next (set_pending (delete i (pending r)) (set_disk (<[filePath := content]> (delete temporary (disk r))) r))
      | _, _ => set_pending (delete i (pending r)) r
      end
  end.

Definition step (r : Registry) (e : event) : Registry :=
  match e with Remember t => remember t r | Step i fault => advance i fault r end.
Definition run (es : list event) (r : Registry) : Registry := fold_left step es r.

(** ** Calls that do not overlap *)

(** No call is made while another waits. *)
Inductive sequential : Registry -> list event -> Prop :=
| sequential_nil r : sequential r []
| sequential_call r t es : pending r = [] -> sequential (remember t r) es -> sequential r (Remember t :: es)
| sequential_step r i fault es : sequential (advance i fault r) es -> sequential r (Step i fault :: es).

Definition reference_ok (t : DesktopTaskReference) : Prop :=
  uuid_ok (taskId t) = true /\ workspace_id_ok (workspace t) = true /\ date_finite (createdAt t) = true.
Definition list_ok (l : list DesktopTaskReference) : Prop :=
  Forall reference_ok l /\ (length l <= MAX_REFERENCES)%nat /\ NoDup (map taskId l).

Lemma validateReference_value t : reference_ok t <-> is_ok (validateReference (reference_value t)) = true.
Proof.
  unfold validateReference, reference_value, reference_ok. cbn [is_record]. change (keys_allowed _ _) with true. cbn [negb].
  read_fields. destruct (uuid_ok (taskId t)), (workspace_id_ok (workspace t)), (date_finite (createdAt t)); cbn; naive_solver.
Qed.
Lemma validateReference_ok t : reference_ok t -> validateReference (reference_value t) = Ok t.
Proof.
  intros (H1 & H2 & H3). unfold validateReference, reference_value. cbn [is_record]. change (keys_allowed _ _) with true.
  cbn [negb]. read_fields. rewrite H1, H2, H3. by destruct t.
Qed.

Lemma next_tasks_ok t l : reference_ok t -> list_ok l -> list_ok (next_tasks t l).
Proof.
  intros Ht (Hl & _ & Hnd). unfold next_tasks.
  set (cmp := fun left right => _). pose proof (sort_by_perm cmp (filter (fun item => taskId item <> taskId t) l ++ [t])) as Hp.
  split_and!.
  - apply Forall_take. rewrite Hp. apply Forall_app_2; [|by forall_list].
    apply Forall_forall. intros y [_ Hy]%list_elem_of_filter. rewrite Forall_forall in Hl. by apply Hl.
  - rewrite length_take. lia.
  - change (map taskId) with (fmap (M := list) taskId). rewrite fmap_take. eapply sublist_NoDup; [|apply sublist_take].
    assert (Hp' : taskId <$> sort_by cmp (filter (fun item => taskId item <> taskId t) l ++ [t]) ≡ₚ
      taskId <$> (filter (fun item => taskId item <> taskId t) l ++ [t])) by by rewrite Hp.
    rewrite Hp', fmap_app. apply NoDup_app. split_and!; [|intros x Hx Hx2%list_elem_of_singleton|apply NoDup_singleton].
    + by apply NoDup_fmap_filter.
    + subst. apply list_elem_of_fmap in Hx as (y & Hy & [Hne _]%list_elem_of_filter). by rewrite Hy in Hne.
Qed.

(** The file holds the list in memory, or nothing was ever installed; at most
    one call waits, for a well-formed list that is on its way to the file. *)
Definition on_disk (r : Registry) : Prop :=
  match disk r !! filePath with
  | None => tasks r = []
  | Some content => content = serialize (tasks r)
  end.
Definition settled (r : Registry) : Prop :=
  list_ok (tasks r) /\ on_disk r /\
  match pending r with
  | [] => True
  | [(AtRename, next)] => list_ok next /\ disk r !! temporary = Some (serialize next)
  | [(_, next)] => list_ok next
  | _ => False
  end.

Lemma temporary_is_new : temporary <> filePath.
Proof. by apply temporary_ne. Qed.

Lemma advance_settled i fault r : settled r -> settled (advance i fault r).
Proof.
  intros Hr. pose proof Hr as (Hl & Hd & Hp). unfold advance. pose proof temporary_is_new as Hne.
  destruct (pending r) as [|[st next] [|]] eqn:Ep; [exact Hr| |by destruct st].
  destruct i as [|i]; [|exact Hr]. simpl.
  destruct st, fault as [n|]; try (by split_and!).
  - split_and!; [done| |done]. unfold on_disk in *. simpl. by rewrite lookup_insert_ne.
  - split_and!; [done| |]; simpl.
    + unfold on_disk in *. simpl. by rewrite lookup_insert_ne.
    + split; [done|]. by rewrite lookup_insert_eq.
  - destruct Hp as [Hn ->]. split_and!; [done| |done]. unfold on_disk. simpl. by rewrite lookup_insert_eq.
Qed.

Lemma remember_settled t r : settled r -> pending r = [] -> settled (remember t r).
Proof.
  intros (Hl & Hd & _) Hp. unfold remember. pose proof (validateReference_value t) as Hv.
  destruct (validateReference (reference_value t)) eqn:E; cbn in Hv; [|by split_and!; [..|rewrite Hp]].
  split_and!; [done|done|]. simpl. rewrite Hp. simpl. apply next_tasks_ok; [by apply Hv|done].
Qed.

Lemma run_settled es : forall r, sequential r es -> settled r -> settled (run es r).
Proof.
  induction es as [|e es IH]; intros r Hs Hr; [done|]. inversion Hs; subst; apply IH; try done.
  - by apply remember_settled.
  - by apply advance_settled.
Qed.

Lemma parse_registry_value l : list_ok l -> parseRegistry (registry_value l) = Ok l.
Proof.
  intros (Hl & Hlen & _). unfold parseRegistry, registry_value. read_fields.
  change (is_int (VInt SCHEMA_VERSION) SCHEMA_VERSION) with true. cbv iota.
  rewrite length_map, (proj2 (Nat.leb_le _ _) Hlen). rewrite (map_result_map _ _ id); [by rewrite map_id|].
  intros t Ht. rewrite Forall_forall in Hl. by apply validateReference_ok, Hl.
Qed.

Lemma reload_serialized l : list_ok l -> utf8_len (serialize l) <= 256 * 1024 ->
  JSON_parse (serialize l) = Ok (registry_value l) -> forall r, tasks (initialize (Contents (serialize l)) r) = l.
Proof.
  intros Hl Hsize Hj r. unfold initialize. rewrite (proj2 (Z.leb_le _ _) Hsize), Hj. cbn [require mbind result_bind].
  by rewrite parse_registry_value.
Qed.

(** As long as calls of [remember] do not overlap, whichever of their steps
    fail: the list in memory has valid references to distinct tasks, at most
    200 of them, and the file holds exactly this list (or nothing was installed
    yet), so that a registry started on the file has it again. *)
Theorem task_file_is_memory es d (Hfile : d !! filePath = None) (Hes : sequential (new_registry d) es) :
  let r := run es (new_registry d) in
  list_ok (tasks r) /\ on_disk r /\
  (utf8_len (serialize (tasks r)) <= 256 * 1024 -> JSON_parse (serialize (tasks r)) = Ok (registry_value (tasks r)) ->
   tasks (initialize (readFile (disk r) filePath) (new_registry (disk r))) = tasks r).
Proof.
  intros r. assert (Hr : settled r).
  { apply run_settled; [done|]. split_and!; [|by unfold on_disk; simpl; rewrite Hfile|done].
    split_and!; [constructor|simpl; unfold MAX_REFERENCES; lia|constructor]. }
  destruct Hr as (Hl & Hd & _). split_and!; [done|done|]. intros Hsize Hj. unfold readFile, on_disk in *.
  destruct (disk r !! filePath) as [content|]; [|by rewrite Hd]. subst. by apply reload_serialized.
Qed.
End Registry.

(** ** Concrete runs *)

Definition sample_compare (a b : jstr) : Z :=
  match (fix compare (a b : jstr) := match a, b with
         | [], [] => Eq | [], _ => Lt | _, [] => Gt
         | x :: a', y :: b' => match N.compare x y with Eq => compare a' b' | c => c end end) a b with
  | Eq => 0 | Lt => -1 | Gt => 1 end.
Definition sample_reference (n w c : string) : DesktopTaskReference :=
  {| taskId := js "01234567-89ab-4def-8123-456789abcde" ++ js n; workspace := js w; createdAt := js c |}.
Abbreviation sample_run := (run sample_compare (fun _ => true) sample_stringify (js "/tasks.json") (js "42")).
Definition one_call : list event := [Step 0 None; Step 0 None; Step 0 None].
Definition sample_events : list event :=
  Remember (sample_reference "1" "api" "2026-01-01") :: one_call ++
  [Remember (sample_reference "2" "web" "2026-01-02"); Step 0 None; Step 0 (Some 3%nat)] ++
  Remember (sample_reference "3" "web" "2026-01-03") :: one_call.

Lemma task_file_is_memory_witness :
  tasks (sample_run sample_events (new_registry ∅))
  = tasks (initialize (fun _ => true) sample_parse (readFile (disk (sample_run sample_events (new_registry ∅))) (js "/tasks.json"))
      (new_registry ∅)).
Proof.
  destruct (task_file_is_memory sample_compare (fun _ => true) sample_parse sample_stringify (js "/tasks.json") (js "42")
    sample_events ∅ (lookup_empty _)) as (_ & _ & H).
  - repeat (constructor; [reflexivity|] || constructor).
  - symmetry. apply H; [vm_compute; congruence|apply sample_json_line].
Defined.

(** Two calls that overlap: the second computes its list before the first has
    installed its own. Both promises resolve, and the first task is in neither
    the memory nor the file. *)
Example overlapping_calls_lose_task :
  let a := sample_reference "1" "api" "2026-01-01" in
  let b := sample_reference "2" "api" "2026-01-02" in
  let r := sample_run [Remember a; Remember b; Step 0 None; Step 0 None; Step 0 None; Step 0 None; Step 0 None; Step 0 None] (new_registry ∅) in
  tasks r = [b] /\ disk r !! js "/tasks.json" = Some (serialize sample_stringify [b]).
Proof. vm_compute. done. Qed.

(** The temporary file has one name: the second writer overwrites it before the
    first renames it. The first call installs its list in memory over the
    other's file, and the second call fails on the missing temporary file. *)
Example overlapping_writes_share_a_file :
  let a := sample_reference "1" "api" "2026-01-01" in
  let b := sample_reference "2" "api" "2026-01-02" in
  let r := sample_run [Remember a; Remember b; Step 0 None; Step 1 None; Step 0 None; Step 1 None; Step 0 None; Step 0 None] (new_registry ∅) in
  tasks r = [a] /\ disk r !! js "/tasks.json" = Some (serialize sample_stringify [b]) /\ pending r = [].
Proof. vm_compute. done. Qed.
End TaskRegistry.
