(* ===== verification/TaskParser.v ===== *)
(** * The daemon's answers about tasks (task-parser.ts)

    Every parser of the task routes, with the records of task-api.ts, and the
    sanitizing of event metadata. *)

From S2P Require Import Prelude JsValue JsMap Path Validate JsObject Codec TaskPolicy.
Import TaskPolicy.

Module TaskParser.

Inductive DesktopTaskStatus := active | stale | applied | cancelled.
Inductive DesktopTaskPhase :=
| snapshot | branched | patched | reviewed | committed | pushed | pr_open | merged | completed.
Inductive DesktopTaskProposalStatus := proposed | proposal_applied | rejected.
#[global] Instance status_eq_dec : EqDecision DesktopTaskStatus.
Proof. solve_decision. Defined.
#[global] Instance phase_eq_dec : EqDecision DesktopTaskPhase.
Proof. solve_decision. Defined.
#[global] Instance proposal_status_eq_dec : EqDecision DesktopTaskProposalStatus.
Proof. solve_decision. Defined.

Definition TASK_STATUSES : list (string * DesktopTaskStatus) :=
  [("active", active); ("stale", stale); ("applied", applied); ("cancelled", cancelled)]%string.
Definition TASK_PHASES : list (string * DesktopTaskPhase) :=
  [("snapshot", snapshot); ("branched", branched); ("patched", patched); ("reviewed", reviewed);
   ("committed", committed); ("pushed", pushed); ("pr_open", pr_open); ("merged", merged); ("completed", completed)]%string.
Definition PROPOSAL_STATUSES : list (string * DesktopTaskProposalStatus) :=
  [("proposed", proposed); ("applied", proposal_applied); ("rejected", rejected)]%string.
Definition DROP_EVENT_KEYS : list jstr :=
  map js ["patch"; "body"; "token"; "secret"; "credential"; "authorization"]%string.

Record DesktopTaskView := {
  task_id : jstr; task_workspace : jstr; baseHead : jstr; task_status : DesktopTaskStatus;
  contextQuery : option jstr; staleReason : option jstr; task_createdAt : Z; task_updatedAt : Z }.

Record DesktopTaskProposalView := {
  proposal_id : jstr; proposal_taskId : jstr; expectedHead : jstr; patchSha256 : jstr; changedPaths : list jstr;
  proposal_status : DesktopTaskProposalStatus; changesetId : option jstr; proposal_createdAt : Z; appliedAt : option Z }.

Record DesktopTaskLifecycleView := {
  lifecycle_taskId : jstr; phase : DesktopTaskPhase; branch : option jstr; reviewedDiffSha256 : option jstr;
  commitSha : option jstr; pushSha : option jstr; issueNumber : option Z; pullNumber : option Z; pullHeadSha : option jstr;
  mergeSha : option jstr; defaultSyncedHead : option jstr; lifecycle_updatedAt : Z; provider : option jstr }.

Record DesktopTaskEventView := {
  event_id : Z; eventType : jstr; metadata : list (jstr * value); event_createdAt : Z }.

Record DesktopTaskSnapshot := {
  task : DesktopTaskView; proposals : list DesktopTaskProposalView; events : list DesktopTaskEventView;
  lifecycle : DesktopTaskLifecycleView }.

Record DesktopTaskGitReview := {
  review_workspace : jstr; review_branch : jstr; review_head : jstr; dirty : bool; review_status : jstr; diff : jstr;
  diffSha256 : jstr }.
Record DesktopTaskCommitView := {
  commit_workspace : jstr; commit_branch : jstr; parentHead : jstr; commit : jstr; clean : bool; commit_status : jstr }.
Record DesktopTaskPushView := {
  push_workspace : jstr; push_remote : jstr; push_branch : jstr; push_head : jstr }.
Record DesktopTaskApplyResult := {
  apply_taskId : jstr; apply_proposalId : jstr; apply_changesetId : jstr; apply_head : jstr;
  apply_changedPaths : list jstr; apply_diff : jstr }.

Definition status_name (s : DesktopTaskStatus) : jstr := js
  match s with active => "active" | stale => "stale" | applied => "applied" | cancelled => "cancelled" end.
Definition phase_name (p : DesktopTaskPhase) : jstr := js
  match p with
  | snapshot => "snapshot" | branched => "branched" | patched => "patched" | reviewed => "reviewed"
  | committed => "committed" | pushed => "pushed" | pr_open => "pr_open" | merged => "merged" | completed => "completed" end.

(** ** Fields *)

Definition invalid {A} (text : string) : result A :=
  fail ("SourceNerve task response invalid: " +:+ text).

Definition requireRecord (label : string) (v : value) : result (list (jstr * value)) :=
  match is_record v with Some fs => Ok fs | None => invalid (label +:+ " is not an object") end.
Definition requireArray (max : Z) (label : string) (v : value) : result (list value) :=
  match v with
  | VArray l => if Z.of_nat (length l) <=? max then Ok l else invalid (label +:+ " is invalid")
  | _ => invalid (label +:+ " is invalid")
  end.
Definition message (text : string) : string := "SourceNerve task response invalid: " +:+ text.
(** The checks of a string field *)
Definition checked (test : jstr -> bool) (label : string) : value -> result jstr :=
  checked_string test (message (label +:+ " is invalid")).
Definition text_within (max : Z) (s : jstr) : bool := (utf8_len s <=? max) && negb (has_nul s).
Definition requireTextAllowEmpty (max : Z) := checked (text_within max).
Definition requireText (max : Z) := checked (fun s => (1 <=? slen s) && text_within max s).
Definition requireUuid := checked uuid_ok.
Definition requireWorkspace := checked workspace_id_ok.
Definition commit_sha_ok (s : jstr) : bool := fits (replicate 40 is_hex) s.
Definition requireCommitSha := checked commit_sha_ok.
Definition requireSha256 := checked sha256_ok.
Definition requirePath (v : value) : result jstr :=
  match v with
  | VString s => if path_ok s then Ok (to_slashes s) else invalid "repository path is unsafe"
  | _ => invalid "repository path is unsafe"
  end.
Definition requireNonNegativeInteger (label : string) : value -> result Z :=
  checked_count (message (label +:+ " is invalid")).
Definition requirePositiveInteger (label : string) (v : value) : result Z :=
  number ← requireNonNegativeInteger label v;
  if number <? 1 then invalid (label +:+ " is invalid") else Ok number.
(** [if (typeof item.flag !== "boolean") throw invalid(...)] *)
Definition requireBoolean (label : string) : value -> result bool :=
  checked_bool (message (label +:+ " is invalid")).
(** [requireText] and then the membership in a set of names *)
Definition requireName {A} (table : list (string * A)) (label unknown : string) (v : value) : result A :=
  s ← requireText 32 label v;
  match enum_lookup table s with Some a => Ok a | None => invalid (unknown +:+ " is unknown") end.
Definition requireList {A} (max : Z) (label : string) (f : value -> result A) (v : value) : result (list A) :=
  l ← requireArray max label v; map_result f l.

(** ** Event metadata *)

(** [toLowerCase], as far as it can produce the ASCII names of a fixed set:
    besides the capitals only the Kelvin sign becomes an ASCII letter. *)
Definition lower (u : N) : N :=
  if ((65 <=? u) && (u <=? 90))%N then (u + 32)%N else if (u =? 0x212A)%N then 107%N else u.
Definition dropped_key (key : jstr) : bool :=
  bool_decide (map lower key ∈ DROP_EVENT_KEYS) || (128 <? slen key).

Definition ELLIPSIS : N := 0x2026.
Definition bound_text (s : jstr) : jstr := if slen s <=? 4096 then s else slice_to 4096 s ++ [ELLIPSIS].
Definition is_finite (n : num) : bool := match n with NInt _ | NFrac _ _ => true | _ => false end.

Section Metadata.
Context (safe : value -> option value).
(** The loop of [sanitizeMetadata] over the first [n] entries *)
Fixpoint safe_entries (n : nat) (fs acc : list (jstr * value)) {struct fs} : list (jstr * value) :=
  match n, fs with
  | S n', (key, raw) :: fs' =>
      safe_entries n' fs'
        (if dropped_key key then acc
         else match safe raw with Some x => put acc key x | None => acc end)
  | _, _ => acc
  end.
End Metadata.

(** [safeMetadataValue]; the object case is [sanitizeMetadata]. *)
Fixpoint safeMetadataValue (depth : nat) (v : value) : option value :=
  match v with
  | VString s => Some (VString (bound_text s))
  | VNumber n => if is_finite n then Some v else None
  | VBool _ | VNull => Some v
  | VArray items => if (length items <=? 64)%nat then Some (VArray (omap (safeMetadataValue depth) items)) else None
  | VObject fs => if (depth <=? 3)%nat then Some (VObject (safe_entries (safeMetadataValue (S depth)) 64 fs [])) else None
  | VUndefined => None
  end.

Definition sanitizeMetadata (v : value) : list (jstr * value) :=
  match v with
  | VObject _ => match safeMetadataValue 0 v with Some (VObject fs) => fs | _ => [] end
  | _ => []
  end.

(** ** The parsers *)

Definition parseTaskView (v : value) : result DesktopTaskView :=
  item ← requireRecord "task" v;
  status ← requireName TASK_STATUSES "task status" "task status" (field item (js "status"));
  id ← requireUuid "task id" (field item (js "id"));
  workspace ← requireWorkspace "task workspace" (field item (js "workspace"));
  base ← requireCommitSha "task base head" (field item (js "base_head"));
  query ← optional (requireText (16 * 1024) "task context query") (field item (js "context_query"));
  reason ← optional (requireText 512 "task stale reason") (field item (js "stale_reason"));
  created ← requireNonNegativeInteger "task created_at" (field item (js "created_at"));
  updated ← requireNonNegativeInteger "task updated_at" (field item (js "updated_at"));
  Ok {| task_id := id; task_workspace := workspace; baseHead := base; task_status := status; contextQuery := query;
        staleReason := reason; task_createdAt := created; task_updatedAt := updated |}.

Definition parseTaskBegin (v : value) : result (DesktopTaskView * bool) :=
  item ← requireRecord "task begin" v;
  replayed ← requireBoolean "task begin replay flag" (field item (js "replayed"));
  t ← parseTaskView (field item (js "task"));
  Ok (t, replayed).

Definition parseProposal (v : value) : result DesktopTaskProposalView :=
  item ← requireRecord "task proposal" v;
  status ← requireName PROPOSAL_STATUSES "proposal status" "task proposal status" (field item (js "status"));
  id ← requireUuid "proposal id" (field item (js "id"));
  taskId ← requireUuid "proposal task id" (field item (js "task_id"));
  head ← requireCommitSha "proposal expected head" (field item (js "expected_head"));
  patch ← requireSha256 "proposal patch hash" (field item (js "patch_sha256"));
  paths ← requireList 128 "proposal changed paths" requirePath (field item (js "changed_paths"));
  changeset ← optional (requireUuid "proposal changeset id") (field item (js "changeset_id"));
  created ← requireNonNegativeInteger "proposal created_at" (field item (js "created_at"));
  at_ ← optional (requireNonNegativeInteger "proposal applied_at") (field item (js "applied_at"));
  Ok {| proposal_id := id; proposal_taskId := taskId; expectedHead := head; patchSha256 := patch; changedPaths := paths;
        proposal_status := status; changesetId := changeset; proposal_createdAt := created; appliedAt := at_ |}.

Definition parseLifecycle (v : value) : result DesktopTaskLifecycleView :=
  item ← requireRecord "task lifecycle" v;
  ph ← requireName TASK_PHASES "task lifecycle phase" "task lifecycle phase" (field item (js "phase"));
  taskId ← requireUuid "lifecycle task id" (field item (js "task_id"));
  br ← optional (requireText 240 "task branch") (field item (js "branch"));
  rev ← optional (requireSha256 "reviewed diff hash") (field item (js "reviewed_diff_sha256"));
  com ← optional (requireCommitSha "task commit sha") (field item (js "commit_sha"));
  psh ← optional (requireCommitSha "task push sha") (field item (js "push_sha"));
  issue ← optional (requirePositiveInteger "issue number") (field item (js "issue_number"));
  pull ← optional (requirePositiveInteger "pull number") (field item (js "pull_number"));
  pullHead ← optional (requireCommitSha "pull head sha") (field item (js "pull_head_sha"));
  merge ← optional (requireCommitSha "merge sha") (field item (js "merge_sha"));
  synced ← optional (requireCommitSha "default synced head") (field item (js "default_synced_head"));
  updated ← requireNonNegativeInteger "lifecycle updated_at" (field item (js "updated_at"));
  prov ← optional (requireText 64 "task provider") (field item (js "provider"));
  Ok {| lifecycle_taskId := taskId; phase := ph; branch := br; reviewedDiffSha256 := rev; commitSha := com; pushSha := psh;
        issueNumber := issue; pullNumber := pull; pullHeadSha := pullHead; mergeSha := merge; defaultSyncedHead := synced;
        lifecycle_updatedAt := updated; provider := prov |}.

Definition parseEvent (v : value) : result DesktopTaskEventView :=
  item ← requireRecord "task event" v;
  id ← requireNonNegativeInteger "task event id" (field item (js "id"));
  type ← requireText 128 "task event type" (field item (js "event_type"));
  created ← requireNonNegativeInteger "task event created_at" (field item (js "created_at"));
  Ok {| event_id := id; eventType := type; metadata := sanitizeMetadata (field item (js "metadata")); event_createdAt := created |}.

Definition parseTaskSnapshot (v : value) : result DesktopTaskSnapshot :=
  item ← requireRecord "task snapshot" v;
  t ← parseTaskView (field item (js "task"));
  ps ← requireList 128 "task proposals" parseProposal (field item (js "proposals"));
  es ← requireList 512 "task events" parseEvent (field item (js "events"));
  l ← parseLifecycle (field item (js "lifecycle"));
  Ok {| task := t; proposals := ps; events := es; lifecycle := l |}.

Definition parseTaskProposalResult (v : value) : result (DesktopTaskProposalView * bool) :=
  item ← requireRecord "task proposal result" v;
  replayed ← requireBoolean "task proposal replay flag" (field item (js "replayed"));
  p ← parseProposal (field item (js "proposal"));
  Ok (p, replayed).

Definition parseTaskApplyResult (v : value) : result DesktopTaskApplyResult :=
  item ← requireRecord "task apply result" v;
  taskId ← requireUuid "apply task id" (field item (js "task_id"));
  proposalId ← requireUuid "apply proposal id" (field item (js "proposal_id"));
  changeset ← requireUuid "changeset id" (field item (js "changeset_id"));
  head ← requireCommitSha "apply head" (field item (js "head"));
  paths ← requireList 128 "changed paths" requirePath (field item (js "changed_paths"));
  d ← requireTextAllowEmpty 2000000 "applied diff" (field item (js "diff"));
  Ok {| apply_taskId := taskId; apply_proposalId := proposalId; apply_changesetId := changeset; apply_head := head;
        apply_changedPaths := paths; apply_diff := d |}.

Definition parseTaskBranchResult (v : value) : result (DesktopTaskLifecycleView * bool) :=
  item ← requireRecord "task branch result" v;
  replayed ← requireBoolean "task branch replay flag" (field item (js "replayed"));
  l ← parseLifecycle (field item (js "lifecycle"));
  Ok (l, replayed).

Definition parseGitReview (v : value) : result DesktopTaskGitReview :=
  item ← requireRecord "git review" v;
  d ← requireBoolean "git review dirty flag" (field item (js "dirty"));
  workspace ← requireWorkspace "review workspace" (field item (js "workspace"));
  br ← requireText 240 "review branch" (field item (js "branch"));
  head ← requireCommitSha "review head" (field item (js "head"));
  status ← requireTextAllowEmpty (512 * 1024) "review status" (field item (js "status"));
  df ← requireTextAllowEmpty 2000000 "review diff" (field item (js "diff"));
  sha ← requireSha256 "review diff hash" (field item (js "diff_sha256"));
  Ok {| review_workspace := workspace; review_branch := br; review_head := head; dirty := d; review_status := status;
        diff := df; diffSha256 := sha |}.

Definition parseTaskReviewResult (v : value) : result (DesktopTaskLifecycleView * DesktopTaskGitReview * bool) :=
  item ← requireRecord "task review result" v;
  replayed ← requireBoolean "task review replay flag" (field item (js "replayed"));
  l ← parseLifecycle (field item (js "lifecycle"));
  r ← parseGitReview (field item (js "review"));
  Ok (l, r, replayed).

Definition parseCommit (v : value) : result DesktopTaskCommitView :=
  item ← requireRecord "task commit" v;
  c ← requireBoolean "commit clean flag" (field item (js "clean"));
  workspace ← requireWorkspace "commit workspace" (field item (js "workspace"));
  br ← requireText 240 "commit branch" (field item (js "branch"));
  parent ← requireCommitSha "commit parent head" (field item (js "parent_head"));
  sha ← requireCommitSha "commit sha" (field item (js "commit"));
  status ← requireTextAllowEmpty (512 * 1024) "commit status" (field item (js "status"));
  Ok {| commit_workspace := workspace; commit_branch := br; parentHead := parent; commit := sha; clean := c;
        commit_status := status |}.

Definition parseTaskCommitResult (v : value) : result (DesktopTaskLifecycleView * DesktopTaskCommitView * bool) :=
  item ← requireRecord "task commit result" v;
  replayed ← requireBoolean "task commit replay flag" (field item (js "replayed"));
  l ← parseLifecycle (field item (js "lifecycle"));
  c ← parseCommit (field item (js "commit"));
  Ok (l, c, replayed).

Definition parsePush (v : value) : result DesktopTaskPushView :=
  item ← requireRecord "task push" v;
  workspace ← requireWorkspace "push workspace" (field item (js "workspace"));
  remote ← requireText 128 "push remote" (field item (js "remote"));
  br ← requireText 240 "push branch" (field item (js "branch"));
  head ← requireCommitSha "push head" (field item (js "head"));
  Ok {| push_workspace := workspace; push_remote := remote; push_branch := br; push_head := head |}.

Definition parseTaskPushResult (v : value) : result (DesktopTaskLifecycleView * DesktopTaskPushView * bool) :=
  item ← requireRecord "task push result" v;
  replayed ← requireBoolean "task push replay flag" (field item (js "replayed"));
  l ← parseLifecycle (field item (js "lifecycle"));
  p ← parsePush (field item (js "push"));
  Ok (l, p, replayed).

(** ** Codecs of the fields *)

#[export] Typeclasses Opaque requireTextAllowEmpty requireText requireUuid requireWorkspace requireCommitSha requireSha256
  requirePath requireNonNegativeInteger requirePositiveInteger requireBoolean requireName requireList checked.

#[export] Instance codec_checked test label : Codec (checked test label) VString (fun s => test s = true) :=
  codec_checked_string _ _.
Definition text_ok (max : Z) (s : jstr) : Prop := ((1 <=? slen s) && text_within max s)%bool = true.
#[export] Instance codec_text max label : Codec (requireText max label) VString (text_ok max) :=
  codec_checked _ _.
#[export] Instance codec_text_allow_empty max label : Codec (requireTextAllowEmpty max label) VString (fun s => text_within max s = true) :=
  codec_checked _ _.
#[export] Instance codec_uuid label : Codec (requireUuid label) VString (fun s => uuid_ok s = true) := codec_checked _ _.
#[export] Instance codec_workspace label : Codec (requireWorkspace label) VString (fun s => workspace_id_ok s = true) := codec_checked _ _.
#[export] Instance codec_commit_sha label : Codec (requireCommitSha label) VString (fun s => commit_sha_ok s = true) := codec_checked _ _.
#[export] Instance codec_sha256 label : Codec (requireSha256 label) VString (fun s => sha256_ok s = true) := codec_checked _ _.

#[export] Instance codec_count label : Codec (requireNonNegativeInteger label) VInt count_ok := codec_checked_count _.
Definition positive_ok (z : Z) : Prop := 1 <= z <= MAX_SAFE_INTEGER.
#[export] Instance codec_positive label : Codec (requirePositiveInteger label) VInt positive_ok.
Proof.
  split; unfold requirePositiveInteger, positive_ok.
  - intros v a H. inv_ok. decoded. unfold count_ok in *.
    destruct (x <? 1) eqn:E; [done|]. inv_ok. to_prop. lia.
  - intros a Ha. rewrite (codec_bind _ VInt count_ok) by (unfold count_ok; lia). rewrite (proj2 (Z.ltb_ge _ _)) by lia. done.
Qed.
#[export] Instance codec_boolean label : Codec (requireBoolean label) VBool (fun _ => True) := codec_checked_bool _.

Definition status_value (s : DesktopTaskStatus) : value := VString (status_name s).
Definition phase_value (p : DesktopTaskPhase) : value := VString (phase_name p).
Definition proposal_status_value (s : DesktopTaskProposalStatus) : value := VString (js
  match s with proposed => "proposed" | proposal_applied => "applied" | rejected => "rejected" end).
#[export] Instance codec_status l u : Codec (requireName TASK_STATUSES l u) status_value (fun _ => True).
Proof. split; [done|]. by intros []. Qed.
#[export] Instance codec_phase l u : Codec (requireName TASK_PHASES l u) phase_value (fun _ => True).
Proof. split; [done|]. by intros []. Qed.
#[export] Instance codec_proposal_status l u : Codec (requireName PROPOSAL_STATUSES l u) proposal_status_value (fun _ => True).
Proof. split; [done|]. by intros []. Qed.

(** A repository path in normal form *)
Definition repository_path (p : jstr) : Prop := path_ok p = true /\ to_slashes p = p.
#[export] Instance codec_path : Codec requirePath VString repository_path.
Proof.
  split; unfold requirePath, repository_path.
  - intros [] a; try done. destruct (path_ok s) eqn:E; [|done]. intros [= <-]. split; [by apply path_ok_slashes|apply to_slashes_idem].
  - by intros a [-> ->].
Qed.

Definition list_within {A} (P : A -> Prop) (max : Z) (l : list A) : Prop := Z.of_nat (length l) <= max /\ Forall P l.
#[export] Instance codec_list {A} (f : value -> result A) g P max label `{!Codec f g P} :
  Codec (requireList max label f) (list_value g) (list_within P max).
Proof.
  split; unfold requireList, requireArray, list_within.
  - intros v a H. inv_ok. destruct v; try done. destruct (_ <=? max) eqn:E; [|done]. inv_ok. to_prop.
    rewrite (map_result_length _ _ _ H). split; [done|]. by eapply (codec_map_result_sound f g P).
  - intros a [Hlen Ha]. unfold list_value. rewrite length_map, (proj2 (Z.leb_le _ _) Hlen). simpl. by apply (codec_map_result f g P).
Qed.

(** ** Metadata *)

Definition key_kept (key : jstr) : Prop := dropped_key key = false /\ key <> js "__proto__".

(** What [safeMetadataValue] returns: it is left alone when sanitized again. *)
Fixpoint metadata_ok (depth : nat) (v : value) : Prop :=
  match v with
  | VString s => bound_text s = s
  | VNumber n => is_finite n = true
  | VBool _ | VNull => True
  | VArray items => (length items <= 64)%nat /\
      (fix all_ok (l : list value) : Prop := match l with [] => True | x :: l' => metadata_ok depth x /\ all_ok l' end) items
  | VObject fs => (depth <= 3)%nat /\ (length fs <= 64)%nat /\ object_wf fs /\
      (fix all_ok (l : list (jstr * value)) : Prop :=
        match l with [] => True | (key, x) :: l' => key_kept key /\ metadata_ok (S depth) x /\ all_ok l' end) fs
  | VUndefined => False
  end.

Definition entries_ok (depth : nat) (l : list (jstr * value)) : Prop :=
  Forall (fun kv => key_kept kv.1 /\ metadata_ok (S depth) kv.2) l.

Lemma metadata_array depth items : metadata_ok depth (VArray items) <->
  (length items <= 64)%nat /\ Forall (metadata_ok depth) items.
Proof.
  cbn [metadata_ok]. apply and_iff_compat_l. induction items as [|x l IH]; [by split; constructor|].
  rewrite Forall_cons, <- IH. done.
Qed.
Lemma metadata_object depth fs : metadata_ok depth (VObject fs) <->
  (depth <= 3)%nat /\ (length fs <= 64)%nat /\ object_wf fs /\ entries_ok depth fs.
Proof.
  cbn [metadata_ok]. do 3 apply and_iff_compat_l. unfold entries_ok. induction fs as [|[k x] l IH]; [by split; constructor|].
  rewrite Forall_cons, <- IH. cbn. tauto.
Qed.

Lemma bound_text_idem s : bound_text (bound_text s) = bound_text s.
Proof.
  unfold bound_text, slice_to. destruct (slen s <=? 4096) eqn:E; [by rewrite E|]. to_prop. unfold slen in *.
  assert (Hl : length (take 4096 s) = 4096%nat) by (rewrite length_take; lia).
  rewrite length_app, Hl. rewrite (proj2 (Z.leb_gt _ _)) by (simpl length; lia). by rewrite take_app_length'.
Qed.

Lemma put_length (acc : list (jstr * value)) k x : (length (put acc k x) <= S (length acc))%nat.
Proof.
  unfold put, define_property. case_bool_decide; [lia|]. destruct (map_has acc k) eqn:E.
  - rewrite map_set_length. destruct (map_has acc k); lia.
  - rewrite insert_key_perm. simpl. lia.
Qed.

Lemma put_Forall (Q : jstr * value -> Prop) acc k x : (k <> js "__proto__" -> Q (k, x)) -> Forall Q acc -> Forall Q (put acc k x).
Proof.
  intros Hk Hacc. unfold put, define_property. case_bool_decide; [done|]. destruct (map_has acc k).
  - apply Forall_map_set; auto.
  - rewrite insert_key_perm. constructor; auto.
Qed.

Lemma safe_entries_ok depth fs : forall n acc,
  (forall key raw x, (key, raw) ∈ fs -> safeMetadataValue (S depth) raw = Some x -> metadata_ok (S depth) x) ->
  object_wf acc -> entries_ok depth acc ->
  object_wf (safe_entries (safeMetadataValue (S depth)) n fs acc) /\ entries_ok depth (safe_entries (safeMetadataValue (S depth)) n fs acc) /\
  (length (safe_entries (safeMetadataValue (S depth)) n fs acc) <= n + length acc)%nat.
Proof.
  induction fs as [|[key raw] fs IH]; intros n acc Hfs Hwf Hacc; simpl; (destruct n as [|n]; [by split_and!; [..|lia]|]).
  { split_and!; [done..|lia]. }
  assert (Hfs' : forall key raw x, (key, raw) ∈ fs -> safeMetadataValue (S depth) raw = Some x -> metadata_ok (S depth) x).
  { intros k r x Hin. apply (Hfs k). by right. }
  destruct (dropped_key key) eqn:Ek.
  { destruct (IH n acc) as (? & ? & ?); [done..|]. split_and!; [done..|lia]. }
  destruct (safeMetadataValue (S depth) raw) as [x|] eqn:Ex.
  - destruct (IH n (put acc key x)) as (? & ? & ?); [done|by apply put_wf| |].
    { apply put_Forall; [|done]. intros ?. split; [done|]. apply (Hfs key raw); [by left|done]. }
    split_and!; [done..|]. pose proof (put_length acc key x). lia.
  - destruct (IH n acc) as (? & ? & ?); [done..|]. split_and!; [done..|lia].
Qed.

Lemma object_nil_wf : object_wf (@nil (jstr * value)).
Proof. split; constructor. Qed.

(** Sanitizing yields sanitized values. *)
Lemma safeMetadataValue_ok : forall v depth x, safeMetadataValue depth v = Some x -> metadata_ok depth x.
Proof.
  fix IH 1. intros [| | |n|s|items|fs] depth x.
  - done.
  - by intros [= <-].
  - by intros [= <-].
  - simpl. destruct (is_finite n) eqn:E; [|done]. intros [= <-]. exact E.
  - intros [= <-]. apply bound_text_idem.
  - cbn [safeMetadataValue]. destruct (_ <=? _)%nat eqn:E; [|done]. intros [= <-]. apply metadata_array. split.
    + apply Nat.leb_le in E. etransitivity; [apply omap_length|exact E].
    + clear E. induction items as [|y l IHl]; [constructor|]. csimpl.
      destruct (safeMetadataValue depth y) as [z|] eqn:Ez; [|exact IHl]. constructor; [exact (IH y depth z Ez)|exact IHl].
  - cbn [safeMetadataValue]. destruct (depth <=? 3)%nat eqn:E; [|done]. intros [= <-]. apply metadata_object.
    assert (Hfs : forall key raw x, (key, raw) ∈ fs -> safeMetadataValue (S depth) raw = Some x -> metadata_ok (S depth) x).
    { clear E. induction fs as [|[k r] fs IHfs]; intros key raw x Hin; [by apply elem_of_nil in Hin|].
      apply elem_of_cons in Hin as [[= _ ->]|Hin]; intros Hx; [exact (IH r (S depth) x Hx)|exact (IHfs key raw x Hin Hx)]. }
    destruct (safe_entries_ok depth fs 64 [] Hfs object_nil_wf) as (? & ? & ?); [constructor|].
    split_and!; [by apply Nat.leb_le|simpl in *; lia|done|done].
Qed.

Lemma safe_entries_id (safe : value -> option value) fs : forall n acc, (length fs <= n)%nat ->
  Forall (fun kv => key_kept kv.1 /\ safe kv.2 = Some kv.2) fs ->
  safe_entries safe n fs acc = fold_left (fun o kv => put o kv.1 kv.2) fs acc.
Proof.
  induction fs as [|[k x] fs IH]; intros n acc Hn; (destruct n as [|n]; [simpl in Hn; try done; lia|]); [done|].
  intros [[[Hk _] Hx] Hfs]%Forall_cons. simpl in *. rewrite Hk, Hx. apply IH; [lia|done].
Qed.

(** Sanitized values are left alone. *)
Lemma metadata_ok_safe : forall v depth, metadata_ok depth v -> safeMetadataValue depth v = Some v.
Proof.
  fix IH 1. intros [| |b|n|s|items|fs] depth H.
  - destruct H.
  - done.
  - done.
  - cbn in *. by rewrite H.
  - cbn [metadata_ok safeMetadataValue] in *. by rewrite H.
  - apply metadata_array in H as [Hlen Hall]. cbn [safeMetadataValue]. rewrite (proj2 (Nat.leb_le _ _) Hlen).
    do 2 f_equal. clear Hlen. induction items as [|y l IHl]; [done|]. csimpl.
    apply Forall_cons in Hall as [Hy Hl]. rewrite (IH y depth Hy). f_equal. exact (IHl Hl).
  - apply metadata_object in H as (Hd & Hlen & Hwf & Hall). cbn [safeMetadataValue].
    rewrite (proj2 (Nat.leb_le _ _) Hd). do 2 f_equal. rewrite safe_entries_id; [|lia|].
    + apply put_all_id; [done|]. intros (kv & Hk & Hin)%list_elem_of_fmap. unfold entries_ok in Hall.
      rewrite Forall_forall in Hall. by destruct (Hall kv Hin) as [[_ ?] _].
    + clear Hlen Hwf. unfold entries_ok in Hall. induction fs as [|[k x] fs IHfs]; [constructor|].
      apply Forall_cons in Hall as [[Hk Hx] Hfs]. constructor; [split; [exact Hk|exact (IH x (S depth) Hx)]|exact (IHfs Hfs)].
Qed.

Lemma sanitize_ok v : metadata_ok 0 (VObject (sanitizeMetadata v)).
Proof.
  assert (Hnil : metadata_ok 0 (VObject [])) by (apply metadata_object; split_and!; [lia|simpl; lia|apply object_nil_wf|constructor]).
  unfold sanitizeMetadata. destruct v; try done. destruct (safeMetadataValue 0 (VObject fields)) as [[]|] eqn:E; try done.
  by apply safeMetadataValue_ok in E.
Qed.

(** ** What the parsers accept *)

Record task_ok (t : DesktopTaskView) : Prop := {
  ok_task_id : uuid_ok (task_id t) = true; ok_task_workspace : workspace_id_ok (task_workspace t) = true;
  ok_base : commit_sha_ok (baseHead t) = true; ok_query : opt_ok (text_ok (16 * 1024)) (contextQuery t);
  ok_reason : opt_ok (text_ok 512) (staleReason t); ok_task_created : count_ok (task_createdAt t);
  ok_task_updated : count_ok (task_updatedAt t) }.
Record proposal_ok (p : DesktopTaskProposalView) : Prop := {
  ok_proposal_id : uuid_ok (proposal_id p) = true; ok_proposal_task : uuid_ok (proposal_taskId p) = true;
  ok_expected : commit_sha_ok (expectedHead p) = true; ok_patch : sha256_ok (patchSha256 p) = true;
  ok_paths : list_within repository_path 128 (changedPaths p);
  ok_changeset : opt_ok (fun s => uuid_ok s = true) (changesetId p);
  ok_proposal_created : count_ok (proposal_createdAt p); ok_applied : opt_ok count_ok (appliedAt p) }.
Record lifecycle_ok (l : DesktopTaskLifecycleView) : Prop := {
  ok_lifecycle_task : uuid_ok (lifecycle_taskId l) = true; ok_branch : opt_ok (text_ok 240) (branch l);
  ok_reviewed : opt_ok (fun s => sha256_ok s = true) (reviewedDiffSha256 l);
  ok_commit : opt_ok (fun s => commit_sha_ok s = true) (commitSha l);
  ok_push : opt_ok (fun s => commit_sha_ok s = true) (pushSha l);
  ok_issue : opt_ok positive_ok (issueNumber l); ok_pull : opt_ok positive_ok (pullNumber l);
  ok_pull_head : opt_ok (fun s => commit_sha_ok s = true) (pullHeadSha l);
  ok_merge : opt_ok (fun s => commit_sha_ok s = true) (mergeSha l);
  ok_synced : opt_ok (fun s => commit_sha_ok s = true) (defaultSyncedHead l);
  ok_lifecycle_updated : count_ok (lifecycle_updatedAt l); ok_provider : opt_ok (text_ok 64) (provider l) }.
Record event_ok (e : DesktopTaskEventView) : Prop := {
  ok_event_id : count_ok (event_id e); ok_event_type : text_ok 128 (eventType e);
  ok_metadata : metadata_ok 0 (VObject (metadata e)); ok_event_created : count_ok (event_createdAt e) }.
Record snapshot_ok (s : DesktopTaskSnapshot) : Prop := {
  ok_task : task_ok (task s); ok_proposals : list_within proposal_ok 128 (proposals s);
  ok_events : list_within event_ok 512 (events s); ok_lifecycle : lifecycle_ok (lifecycle s) }.

(** The daemon's wire forms *)
Definition task_value (t : DesktopTaskView) : value := VObject
  [(js "id", VString (task_id t)); (js "workspace", VString (task_workspace t)); (js "base_head", VString (baseHead t));
   (js "status", status_value (task_status t)); (js "context_query", opt_value VString (contextQuery t));
   (js "stale_reason", opt_value VString (staleReason t)); (js "created_at", VInt (task_createdAt t));
   (js "updated_at", VInt (task_updatedAt t))].
Definition proposal_value (p : DesktopTaskProposalView) : value := VObject
  [(js "id", VString (proposal_id p)); (js "task_id", VString (proposal_taskId p));
   (js "expected_head", VString (expectedHead p)); (js "patch_sha256", VString (patchSha256 p));
   (js "changed_paths", list_value VString (changedPaths p)); (js "status", proposal_status_value (proposal_status p));
   (js "changeset_id", opt_value VString (changesetId p)); (js "created_at", VInt (proposal_createdAt p));
   (js "applied_at", opt_value VInt (appliedAt p))].
Definition lifecycle_value (l : DesktopTaskLifecycleView) : value := VObject
  [(js "task_id", VString (lifecycle_taskId l)); (js "phase", phase_value (phase l)); (js "branch", opt_value VString (branch l));
   (js "reviewed_diff_sha256", opt_value VString (reviewedDiffSha256 l)); (js "commit_sha", opt_value VString (commitSha l));
   (js "push_sha", opt_value VString (pushSha l)); (js "issue_number", opt_value VInt (issueNumber l));
   (js "pull_number", opt_value VInt (pullNumber l)); (js "pull_head_sha", opt_value VString (pullHeadSha l));
   (js "merge_sha", opt_value VString (mergeSha l)); (js "default_synced_head", opt_value VString (defaultSyncedHead l));
   (js "updated_at", VInt (lifecycle_updatedAt l)); (js "provider", opt_value VString (provider l))].
Definition event_value (e : DesktopTaskEventView) : value := VObject
  [(js "id", VInt (event_id e)); (js "event_type", VString (eventType e)); (js "metadata", VObject (metadata e));
   (js "created_at", VInt (event_createdAt e))].
Definition snapshot_value (s : DesktopTaskSnapshot) : value := VObject
  [(js "task", task_value (task s)); (js "proposals", list_value proposal_value (proposals s));
   (js "events", list_value event_value (events s)); (js "lifecycle", lifecycle_value (lifecycle s))].

#[export] Instance codec_task : Codec parseTaskView task_value task_ok.
Proof.
  split.
  - intros v t H. unfold parseTaskView in H. inv_ok. decoded. constructor; assumption.
  - intros t []. unfold parseTaskView, task_value. cbn [requireRecord is_record mbind result_bind]. decode. by destruct t.
Qed.

#[export] Instance codec_proposal : Codec parseProposal proposal_value proposal_ok.
Proof.
  split.
  - intros v p H. unfold parseProposal in H. inv_ok. decoded. constructor; assumption.
  - intros p []. unfold parseProposal, proposal_value. cbn [requireRecord is_record mbind result_bind]. decode. by destruct p.
Qed.
#[export] Instance codec_lifecycle : Codec parseLifecycle lifecycle_value lifecycle_ok.
Proof.
  split.
  - intros v l H. unfold parseLifecycle in H. inv_ok. decoded. constructor; assumption.
  - intros l []. unfold parseLifecycle, lifecycle_value. cbn [requireRecord is_record mbind result_bind]. decode. by destruct l.
Qed.
#[export] Instance codec_event : Codec parseEvent event_value event_ok.
Proof.
  split.
  - intros v e H. unfold parseEvent in H. inv_ok. decoded. constructor; try assumption. apply sanitize_ok.
  - intros e []. unfold parseEvent, event_value. cbn [requireRecord is_record mbind result_bind]. decode.
    unfold sanitizeMetadata. rewrite metadata_ok_safe by done. by destruct e.
Qed.
#[export] Typeclasses Opaque parseTaskView parseProposal parseLifecycle parseEvent.
#[export] Instance codec_snapshot : Codec parseTaskSnapshot snapshot_value snapshot_ok.
Proof.
  split.
  - intros v s H. unfold parseTaskSnapshot in H. inv_ok. decoded. constructor; assumption.
  - intros s []. unfold parseTaskSnapshot, snapshot_value. cbn [requireRecord is_record mbind result_bind]. decode. by destruct s.
Qed.

(** ** Properties *)

(** The snapshot parser accepts exactly the well-formed snapshots:
    whatever it returns has ids, hashes, names and numbers in their shapes and
    limits, repository paths that are normal and stay below the repository,
    and sanitized metadata; and every such snapshot is read back unchanged
    from its wire form. *)
Theorem parseTaskSnapshot_exact s :
  (forall v, parseTaskSnapshot v = Ok s -> snapshot_ok s) /\
  (snapshot_ok s -> parseTaskSnapshot (snapshot_value s) = Ok s).
Proof. split; [intros v; apply codec_sound | apply codec_complete]. Qed.

(** Some object below a value has a key that names a secret, in any case. *)
Inductive names_secret : value -> Prop :=
| secret_here fs key x : (key, x) ∈ fs -> map lower key ∈ DROP_EVENT_KEYS -> names_secret (VObject fs)
| secret_in_field fs key x : (key, x) ∈ fs -> names_secret x -> names_secret (VObject fs)
| secret_in_item l x : x ∈ l -> names_secret x -> names_secret (VArray l).

(** No key of the metadata shown for an event names a patch, a body, a
    token, a secret, a credential or an authorization, in whatever case, at any
    depth. *)
Theorem metadata_names_no_secret v : ~ names_secret (VObject (sanitizeMetadata v)).
Proof.
  pose proof (sanitize_ok v) as H. revert H. generalize (VObject (sanitizeMetadata v)) as x. generalize 0%nat as d. clear v.
  intros d x H Hx. revert d H. induction Hx as [fs key x Hin Hk|fs key x Hin _ IH|l x Hin _ IH]; intros d H.
  - apply metadata_object in H as (_ & _ & _ & H). unfold entries_ok in H. rewrite Forall_forall in H.
    destruct (H _ Hin) as [[Hd _] _]. unfold dropped_key in Hd. to_prop. done.
  - apply metadata_object in H as (_ & _ & _ & H). unfold entries_ok in H. rewrite Forall_forall in H.
    destruct (H _ Hin) as [_ ?]. by eapply IH.
  - apply metadata_array in H as [_ H]. rewrite Forall_forall in H. by eapply IH, H.
Qed.

Definition sample_uuid : jstr := js "01234567-89ab-4def-8123-456789abcdef".
Definition sample_sha : jstr := js "0123456789abcdef0123456789abcdef01234567".
Definition sample_lifecycle (p : DesktopTaskPhase) : DesktopTaskLifecycleView := {|
  lifecycle_taskId := sample_uuid; phase := p; branch := Some (js "fix/log"); reviewedDiffSha256 := None;
  commitSha := None; pushSha := None; issueNumber := Some 7; pullNumber := None; pullHeadSha := None; mergeSha := None;
  defaultSyncedHead := None; lifecycle_updatedAt := 2; provider := None |}.
Definition sample_snapshot (p : DesktopTaskPhase) : DesktopTaskSnapshot := {|
  task := {| task_id := sample_uuid; task_workspace := js "api"; baseHead := sample_sha; task_status := active;
             contextQuery := None; staleReason := None; task_createdAt := 1; task_updatedAt := 2 |};
  proposals := [];
  events := [{| event_id := 1; eventType := js "begun"; metadata := [(js "note", VArray [VString (js "x"); VNull])]; event_createdAt := 1 |}];
  lifecycle := sample_lifecycle p |}.

Lemma parseTaskSnapshot_exact_witness : parseTaskSnapshot (snapshot_value (sample_snapshot branched)) = Ok (sample_snapshot branched).
Proof.
  apply (proj2 (parseTaskSnapshot_exact (sample_snapshot branched))).
  apply (proj1 (parseTaskSnapshot_exact (sample_snapshot branched)) (snapshot_value (sample_snapshot branched))).
  vm_compute. reflexivity.
Defined.

Example metadata_example : sanitizeMetadata (VObject
    [(js "Token", VString (js "t")); (js "a", VObject [(js "PATCH", VNull); (js "b", VNumber NNaN); (js "c", VBool true)])])
  = [(js "a", VObject [(js "c", VBool true)])].
Proof. vm_compute. reflexivity. Qed.
End TaskParser.
