(* ===== verification/TaskManager.v ===== *)
(** * The task workflow (task-manager.ts)

    The calls that take a task through its life: begin, branch, propose, apply,
    review, commit, push and cancel, with the reads beside them. The daemon, the
    workspaces, the registry, the clock and the hashes are oracles that may
    answer anything, depending on everything that happened before; what a call
    asks of them and tells the listener is its log.

    The turns that Codex runs for a task are in [VerifiedTurn]. *)

From S2P Require Import Prelude JsValue JsMap JsonCodec Validate TaskPolicy TaskRegistry TaskParser.
Import TaskPolicy TaskParser.

Module TaskManager.

Definition MAX_COMPLETION_NOTIFICATION_KEYS : nat := 128.
Definition MAX_BEGIN_KEYS : nat := 16.
Abbreviation DesktopTaskReference := TaskRegistry.DesktopTaskReference.

(** What the workflow looks at of a [ManagedWorkspaceView] *)
Record ManagedWorkspaceView := {
  ws_id : jstr; read_write : bool; ready : bool; defaultBranch : jstr; ws_branch : option jstr }.

Record BeginInput := { b_workspace : jstr; b_contextQuery : option jstr }.
Record BranchInput := { br_taskId : jstr; br_branch : jstr }.
Record ProposeInput := { p_taskId : jstr; expectedFiles : list (list (jstr * value)); patch : jstr }.
Record ApplyInput := { a_taskId : jstr; a_proposalId : jstr }.
Record CommitInput := { c_taskId : jstr; c_message : jstr }.
Record FileReadInput := { f_taskId : jstr; f_path : jstr }.

Inductive entry :=
| Workspaces
| TaskRequest (path : string) (body : value)
| ReadWorkspaceFile (workspace path : jstr)
| Remembered (t : DesktopTaskReference)
| Emitted (state : string) (message : jstr).

Record World := {
  listManagedWorkspaces : list entry -> result (list ManagedWorkspaceView);
  taskRequest : list entry -> string -> value -> result value;
  readWorkspaceFile : list entry -> jstr -> jstr -> result (jstr * jstr);
  registry_remember : list entry -> DesktopTaskReference -> result unit;
  now : list entry -> jstr;
  randomUUID : list entry -> jstr;
  sha256 : jstr -> jstr;
  JSON_stringify : value -> jstr }.

Record Manager := {
  log : list entry;
  (** a [Map], in insertion order *)
  beginKeys : list (jstr * jstr);
  (** a [Set], in insertion order *)
  completionNotificationKeys : list jstr }.

Definition add_entry (e : entry) (s : Manager) : Manager :=
  {| log := log s ++ [e]; beginKeys := beginKeys s; completionNotificationKeys := completionNotificationKeys s |}.
Definition set_beginKeys (m : list (jstr * jstr)) (s : Manager) : Manager :=
  {| log := log s; beginKeys := m; completionNotificationKeys := completionNotificationKeys s |}.
Definition set_completionKeys (l : list jstr) (s : Manager) : Manager :=
  {| log := log s; beginKeys := beginKeys s; completionNotificationKeys := l |}.

Definition get_path : string := "/api/v1/tasks/get".
Definition begin_path : string := "/api/v1/tasks/begin".
Definition cancel_path : string := "/api/v1/tasks/cancel".
Definition branch_path : string := "/api/v1/tasks/lifecycle/branch".
Definition propose_path : string := "/api/v1/tasks/proposals/create".
Definition apply_path : string := "/api/v1/tasks/proposals/apply".
Definition review_path : string := "/api/v1/tasks/lifecycle/review".
Definition commit_path : string := "/api/v1/tasks/lifecycle/commit".
Definition push_path : string := "/api/v1/tasks/lifecycle/push".

Definition shortSha (v : jstr) : jstr := if 12 <? slen v then slice_to 12 v else v.
Definition task_ref (id : jstr) : value := VObject [(js "task_id", VString id)].

(** [workspace.branch && workspace.branch !== workspace.defaultBranch] *)
Definition off_default (workspace : ManagedWorkspaceView) : bool :=
  match ws_branch workspace with
  | Some b => truthy b && negb (bool_decide (b = defaultBranch workspace))
  | None => false
  end.

Section Manager.
Context (w : World).

(** An await of one of the collaborators *)
Definition ask {A} (e : entry) (oracle : list entry -> result A) : M Manager A := fun s =>
  (oracle (log s), add_entry e s).
Definition request (path : string) (body : value) : M Manager value :=
  ask (TaskRequest path body) (fun l => taskRequest w l path body).
Definition emit (state : string) (message : jstr) : M Manager unit := modify (add_entry (Emitted state message)).

(** [throw new Error(...)] and [if (bad) throw new Error(...)] with a template *)
Definition throw_text {A} (message : jstr) : M Manager A := fun s => (Throw (Error message), s).
Definition guard_text (bad : bool) (message : jstr) : M Manager unit := if bad then throw_text message else mret tt.

Definition requireManagedWorkspace (workspaceId : jstr) (writable beginReady : bool) : M Manager ManagedWorkspaceView :=
  workspaces ← ask Workspaces (listManagedWorkspaces w);
  match List.find (fun item => bool_decide (ws_id item = workspaceId)) workspaces with
  | Some workspace =>
      if negb (ready workspace) then throw_text (js "Workspace " ++ workspaceId ++ js " is not a ready Desktop-managed workspace")
      else if writable && negb (read_write workspace)
      then throw_text (js "Workspace " ++ workspaceId ++ js " is read-only; task mutation actions are unavailable")
      else if beginReady && off_default workspace
      then throw_text (js "Workspace " ++ workspaceId ++ js " must be on default branch " ++ defaultBranch workspace
                       ++ js " before beginning a task")
      else mret workspace
  | None => throw_text (js "Workspace " ++ workspaceId ++ js " is not a ready Desktop-managed workspace")
  end.

Definition get (taskId : jstr) : M Manager DesktopTaskSnapshot :=
  raw ← request get_path (task_ref taskId); lift (parseTaskSnapshot raw).

Definition registry_call (t : DesktopTaskReference) : M Manager unit :=
  ask (Remembered t) (fun l => registry_remember w l t).
Definition reference_of (snapshot : DesktopTaskSnapshot) (l : list entry) : DesktopTaskReference :=
  {| TaskRegistry.taskId := task_id (task snapshot); TaskRegistry.workspace := task_workspace (task snapshot);
     TaskRegistry.createdAt := now w l |}.

(** [createHash("sha256").update(JSON.stringify(input), "utf8").digest("hex")] *)
Definition fingerprint (input : BeginInput) : jstr :=
  sha256 w (JSON_stringify w (VObject ((js "workspace", VString (b_workspace input)) ::
    match b_contextQuery input with Some q => [(js "contextQuery", VString q)] | None => [] end))).

(** The request key of a begin: the one an earlier begin of the same input
    left behind, or a new one, for which the oldest of 16 makes room. *)
Definition begin_key (fp : jstr) : M Manager jstr := fun s =>
  match map_get (beginKeys s) fp with
  | Some key => if truthy key then (Ok key, s)
                else (Ok (js "desktop:begin:" ++ randomUUID w (log s)),
                      set_beginKeys (map_set (beginKeys s) fp (js "desktop:begin:" ++ randomUUID w (log s))) s)
  | None =>
      let key := js "desktop:begin:" ++ randomUUID w (log s) in
      let m := if (MAX_BEGIN_KEYS <=? length (beginKeys s))%nat then tail (beginKeys s) else beginKeys s in
      (Ok key, set_beginKeys (map_set m fp key) s)
  end.

Definition begin_body (input : BeginInput) (key : jstr) : value :=
  VObject ([(js "workspace", VString (b_workspace input)); (js "client_request_id", VString key)]
    ++ match b_contextQuery input with
       | Some q => if truthy q then [(js "context_query", VString q)] else []
       | None => [] end).

Definition begin (input : BeginInput) : M Manager (DesktopTaskSnapshot * bool) :=
  _ ← requireManagedWorkspace (b_workspace input) true true;
  key ← begin_key (fingerprint input);
  raw ← request begin_path (begin_body input key);
  begun ← lift (parseTaskBegin raw);
  _ ← js_guard (negb (bool_decide (task_workspace begun.1 = b_workspace input))) "SourceNerve task begin workspace mismatch";
  snap ← get (task_id begun.1);
  s ← get_state;
  _ ← registry_call (reference_of snap (log s));
  _ ← modify (fun s => set_beginKeys (map_delete (beginKeys s) (fingerprint input)) s);
  _ ← emit "ready" (js "Task " ++ task_id (task snap) ++ js " created at " ++ shortSha (baseHead (task snap)));
  mret (snap, begun.2).

Definition readFile (input : FileReadInput) : M Manager (jstr * jstr) :=
  snap ← get (f_taskId input);
  _ ← requireManagedWorkspace (task_workspace (task snap)) false false;
  ask (ReadWorkspaceFile (task_workspace (task snap)) (f_path input))
      (fun l => readWorkspaceFile w l (task_workspace (task snap)) (f_path input)).

Definition remember (taskId : jstr) : M Manager DesktopTaskSnapshot :=
  snap ← get taskId;
  _ ← requireManagedWorkspace (task_workspace (task snap)) false false;
  s ← get_state;
  _ ← registry_call (reference_of snap (log s));
  mret snap.

Definition cancel (taskId : jstr) : M Manager DesktopTaskSnapshot :=
  snap ← get taskId;
  _ ← requireManagedWorkspace (task_workspace (task snap)) false false;
  raw ← request cancel_path (task_ref taskId);
  cancelled ← lift (parseTaskView raw);
  _ ← js_guard (negb (bool_decide (task_id cancelled = taskId))) "SourceNerve cancelled a different task";
  _ ← emit "cancelled" (js "Task " ++ taskId ++ js " cancelled");
  get taskId.

Definition branch_body (input : BranchInput) : value :=
  VObject [(js "task_id", VString (br_taskId input)); (js "branch", VString (br_branch input))].
Definition checkoutBranch (input : BranchInput) : M Manager (DesktopTaskLifecycleView * bool) :=
  snap ← get (br_taskId input);
  workspace ← requireManagedWorkspace (task_workspace (task snap)) true false;
  _ ← guard_text (negb (branch_ok (br_branch input)) || bool_decide (br_branch input = defaultBranch workspace))
        (js "Feature branch must be safe and different from default branch " ++ defaultBranch workspace);
  raw ← request branch_path (branch_body input);
  result ← lift (parseTaskBranchResult raw);
  _ ← emit "branched" (js "Task " ++ br_taskId input ++ js " branch "
        ++ default (br_branch input) (branch result.1) ++ js " ready");
  mret result.

(** [expectedFiles] of a proposal, as the daemon gets it *)
Definition expected_file (item : list (jstr * value)) : value :=
  VObject [(js "path", field item (js "path"));
           (js "sha256", if is_nullish (field item (js "sha256")) then VNull else field item (js "sha256"))].
Definition proposal_hash (input : ProposeInput) : jstr :=
  sha256 w (JSON_stringify w (VObject
    [(js "taskId", VString (p_taskId input)); (js "expectedFiles", VArray (map VObject (expectedFiles input)));
     (js "patch", VString (patch input))])).
Definition propose_body (input : ProposeInput) : value := VObject
  [(js "task_id", VString (p_taskId input));
   (js "idempotency_key", VString (js "desktop:proposal:" ++ slice_to 40 (proposal_hash input)));
   (js "expected_files", VArray (map expected_file (expectedFiles input)));
   (js "patch", VString (patch input))].
Definition propose (input : ProposeInput) : M Manager (DesktopTaskProposalView * bool) :=
  snap ← get (p_taskId input);
  _ ← requireManagedWorkspace (task_workspace (task snap)) true false;
  _ ← guard_text (negb (bool_decide (task_status (task snap) = active)) || negb (bool_decide (phase (lifecycle snap) = branched)))
        (js "Task must be active and branched before proposing a patch (status=" ++ status_name (task_status (task snap))
         ++ js ", phase=" ++ phase_name (phase (lifecycle snap)) ++ js ")");
  raw ← request propose_path (propose_body input);
  result ← lift (parseTaskProposalResult raw);
  _ ← js_guard (negb (bool_decide (proposal_taskId result.1 = p_taskId input))) "SourceNerve proposal task mismatch";
  _ ← emit "working" (js "Patch proposal " ++ proposal_id result.1 ++ js " validated for "
        ++ js_int (Z.of_nat (length (changedPaths result.1))) ++ js " path(s)");
  mret result.

Definition apply_body (input : ApplyInput) : value :=
  VObject [(js "task_id", VString (a_taskId input)); (js "proposal_id", VString (a_proposalId input))].
Definition apply (input : ApplyInput) : M Manager DesktopTaskApplyResult :=
  snap ← get (a_taskId input);
  _ ← requireManagedWorkspace (task_workspace (task snap)) true false;
  _ ← js_guard (match List.find (fun p => bool_decide (proposal_id p = a_proposalId input)) (proposals snap) with
               | Some p => negb (bool_decide (proposal_status p = proposed))
               | None => true end)
        "Selected task proposal is no longer applicable; refresh the task";
  raw ← request apply_path (apply_body input);
  result ← lift (parseTaskApplyResult raw);
  _ ← emit "patched" (js "Task " ++ a_taskId input ++ js " patch applied; review the complete delta before commit");
  mret result.

Definition review (taskId : jstr) : M Manager (DesktopTaskLifecycleView * DesktopTaskGitReview * bool) :=
  snap ← get taskId;
  _ ← requireManagedWorkspace (task_workspace (task snap)) true false;
  raw ← request review_path (task_ref taskId);
  result ← lift (parseTaskReviewResult raw);
  _ ← emit "reviewed" (js "Task " ++ taskId ++ js " reviewed diff " ++ shortSha (diffSha256 result.1.2));
  mret result.

Definition commit_body (input : CommitInput) : value :=
  VObject [(js "task_id", VString (c_taskId input)); (js "message", VString (c_message input))].
Definition commit (input : CommitInput) : M Manager (DesktopTaskLifecycleView * DesktopTaskCommitView * bool) :=
  snap ← get (c_taskId input);
  _ ← requireManagedWorkspace (task_workspace (task snap)) true false;
  _ ← guard_text (negb (bool_decide (phase (lifecycle snap) = reviewed)))
        (js "Task must be reviewed before commit (phase=" ++ phase_name (phase (lifecycle snap)) ++ js ")");
  raw ← request commit_path (commit_body input);
  result ← lift (parseTaskCommitResult raw);
  _ ← emit "committed" (js "Task " ++ c_taskId input ++ js " committed " ++ shortSha (TaskParser.commit result.1.2));
  mret result.

Definition push (taskId : jstr) : M Manager (DesktopTaskLifecycleView * DesktopTaskPushView * bool) :=
  snap ← get taskId;
  _ ← requireManagedWorkspace (task_workspace (task snap)) true false;
  _ ← guard_text (negb (bool_decide (phase (lifecycle snap) = committed)))
        (js "Task must be committed before push (phase=" ++ phase_name (phase (lifecycle snap)) ++ js ")");
  raw ← request push_path (task_ref taskId);
  result ← lift (parseTaskPushResult raw);
  _ ← emit "pushed" (js "Task " ++ taskId ++ js " pushed exact commit " ++ shortSha (push_head result.1.2));
  mret result.

Definition notifyCompleted (taskId head : jstr) : M Manager unit := fun s =>
  let key := taskId ++ js ":" ++ head in
  if bool_decide (key ∈ completionNotificationKeys s) then (Ok tt, s)
  else
    let keys := if (MAX_COMPLETION_NOTIFICATION_KEYS <=? length (completionNotificationKeys s))%nat
                then tail (completionNotificationKeys s) else completionNotificationKeys s in
    emit "completed" (js "Task " ++ taskId ++ js " completed at " ++ shortSha head) (set_completionKeys (keys ++ [key]) s).

(** ** The calls *)

Inductive call :=
| Begin (i : BeginInput) | Cancel (id : jstr) | Branch (i : BranchInput) | Propose (i : ProposeInput) | Apply (i : ApplyInput)
| Review (id : jstr) | Commit (i : CommitInput) | Push (id : jstr)
| Get (id : jstr) | ReadFile (i : FileReadInput) | Remember (id : jstr) | NotifyCompleted (id head : jstr).

Definition discard {A} (m : M Manager A) : M Manager unit := _ ← m; mret tt.
Definition run_call (c : call) : M Manager unit :=
  match c with
  | Begin i => discard (begin i) | Cancel id => discard (cancel id) | Branch i => discard (checkoutBranch i)
  | Propose i => discard (propose i) | Apply i => discard (apply i) | Review id => discard (review id)
  | Commit i => discard (commit i) | Push id => discard (push id) | Get id => discard (get id)
  | ReadFile i => discard (readFile i) | Remember id => discard (remember id) | NotifyCompleted id head => notifyCompleted id head
  end.
Definition run_calls (cs : list call) (s : Manager) : Manager := fold_left (fun s c => (run_call c s).2) cs s.
Definition new_manager : Manager := {| log := []; beginKeys := []; completionNotificationKeys := [] |}.
End Manager.

(** ** Mutations and their guards *)

(** The requests that change a task, each with the entries before it *)
Fixpoint mutations (pre l : list entry) : list (list entry * string * value) :=
  match l with
  | [] => []
  | e :: l' =>
      match e with TaskRequest p b => if bool_decide (p = get_path) then [] else [(pre, p, b)] | _ => [] end
      ++ mutations (pre ++ [e]) l'
  end.

(** What a call sends to change its task: the task, whether the workspace must
    be writable, the request *)
Definition target (w : World) (c : call) : option (jstr * bool * string * value) :=
  match c with
  | Cancel id => Some (id, false, cancel_path, task_ref id)
  | Branch i => Some (br_taskId i, true, branch_path, branch_body i)
  | Propose i => Some (p_taskId i, true, propose_path, propose_body w i)
  | Apply i => Some (a_taskId i, true, apply_path, apply_body i)
  | Review id => Some (id, true, review_path, task_ref id)
  | Commit i => Some (c_taskId i, true, commit_path, commit_body i)
  | Push id => Some (id, true, push_path, task_ref id)
  | _ => None
  end.
(** The state of the task in which the call may change it *)
Definition lifecycle_allows (c : call) (snap : DesktopTaskSnapshot) (ws : ManagedWorkspaceView) : Prop :=
  match c with
  | Branch i => branch_ok (br_branch i) = true /\ br_branch i <> defaultBranch ws
  | Propose _ => task_status (task snap) = active /\ phase (lifecycle snap) = branched
  | Apply i => exists p, p ∈ proposals snap /\ proposal_id p = a_proposalId i /\ proposal_status p = proposed
  | Commit _ => phase (lifecycle snap) = reviewed
  | Push _ => phase (lifecycle snap) = committed
  | _ => True
  end.

Definition managed (w : World) (l : list entry) (id : jstr) (ws : ManagedWorkspaceView) : Prop :=
  exists views, listManagedWorkspaces w l = Ok views /\ ws ∈ views /\ ws_id ws = id /\ ready ws = true.

(** A mutating request of call [c] on a log [l], after [pre] *)
Definition admitted (w : World) (c : call) (l : list entry) (m : list entry * string * value) : Prop :=
  let '(pre, path, body) := m in
  match c with
  | Begin i =>
      path = begin_path /\ pre = [Workspaces] /\ (exists key, body = begin_body i key) /\
      exists ws, managed w l (b_workspace i) ws /\ read_write ws = true /\
        (forall b, ws_branch ws = Some b -> b <> [] -> b = defaultBranch ws)
  | _ =>
      exists id writable, target w c = Some (id, writable, path, body) /\
        pre = [TaskRequest get_path (task_ref id); Workspaces] /\
        exists raw snap ws, taskRequest w l get_path (task_ref id) = Ok raw /\ parseTaskSnapshot raw = Ok snap /\
          managed w (l ++ [TaskRequest get_path (task_ref id)]) (task_workspace (task snap)) ws /\
          (writable = true -> read_write ws = true) /\ lifecycle_allows c snap ws
  end.

Definition is_mutation (c : call) : bool :=
  match c with Get _ | ReadFile _ | Remember _ | NotifyCompleted _ _ => false | _ => true end.

Section Guards.
Context (w : World).

Lemma find_Some {A} (f : A -> bool) l x : List.find f l = Some x -> x ∈ l /\ f x = true.
Proof. intros H. apply List.find_some in H as [? ?]. split; [by apply list_elem_of_In|done]. Qed.

Lemma requireManagedWorkspace_run id writable beginReady s :
  requireManagedWorkspace w id writable beginReady s = (Throw (match (requireManagedWorkspace w id writable beginReady s).1 with
    | Throw e => e | Ok _ => Error [] end), add_entry Workspaces s) \/
  exists ws, requireManagedWorkspace w id writable beginReady s = (Ok ws, add_entry Workspaces s) /\
    managed w (log s) id ws /\ (writable = true -> read_write ws = true) /\
    (beginReady = true -> forall b, ws_branch ws = Some b -> b <> [] -> b = defaultBranch ws).
Proof.
  unfold requireManagedWorkspace, ask, mbind, M_bind. destruct (listManagedWorkspaces w (log s)) as [views|e] eqn:Ev; [|by left].
  destruct (List.find _ views) as [ws|] eqn:Ef; [|by left]. apply find_Some in Ef as [Hin Hid]. to_prop.
  destruct (ready ws) eqn:Er; [|by left]. cbn [negb]. destruct (writable && negb (read_write ws)) eqn:Ew; [by left|].
  destruct (beginReady && off_default ws) eqn:Eb; [by left|]. right. exists ws. split_and!; [done|by exists views| |].
  - intros ->. by destruct (read_write ws).
  - intros ->. simpl in Eb. unfold off_default in Eb. intros b Hb Hne. rewrite Hb in Eb.
    rewrite (proj2 (truthy_true b) Hne) in Eb. cbn [andb] in Eb. to_prop. done.
Qed.

(** The start that the calls on a task share *)
Lemma guarded_run {A} id writable (k : DesktopTaskSnapshot -> ManagedWorkspaceView -> M Manager A) s :
  let g := TaskRequest get_path (task_ref id) in
  let s1 := add_entry g s in
  let m := (snap ← get w id; ws ← requireManagedWorkspace w (task_workspace (task snap)) writable false; k snap ws) in
  (exists e, m s = (Throw e, s1) \/ m s = (Throw e, add_entry Workspaces s1)) \/
  exists raw snap ws, taskRequest w (log s) get_path (task_ref id) = Ok raw /\ parseTaskSnapshot raw = Ok snap /\
    managed w (log s ++ [g]) (task_workspace (task snap)) ws /\ (writable = true -> read_write ws = true) /\
    m s = k snap ws (add_entry Workspaces s1).
Proof.
  cbv zeta. unfold get, request, ask, lift, mbind, M_bind.
  destruct (taskRequest w (log s) get_path (task_ref id)) as [raw|e] eqn:Er; [|left; eexists; by left].
  destruct (parseTaskSnapshot raw) as [snap|e] eqn:Es; [|left; eexists; by left].
  destruct (requireManagedWorkspace_run (task_workspace (task snap)) writable false
    (add_entry (TaskRequest get_path (task_ref id)) s)) as [->|(ws & -> & Hm & Hw & _)].
  - left. eexists. by right.
  - right. by exists raw, snap, ws.
Qed.

(** *** Computations that change no task *)

Definition harmless {A} (m : M Manager A) : Prop :=
  forall s, exists added, log (m s).2 = log s ++ added /\ forall pre, mutations pre added = [].

Lemma mutations_app pre l k : mutations pre (l ++ k) = mutations pre l ++ mutations (pre ++ l) k.
Proof.
  revert pre. induction l as [|e l IH]; intros pre; simpl; [by rewrite app_nil_r|].
  by rewrite IH, <- !app_assoc.
Qed.

Lemma harmless_ret {A} (a : A) : harmless (mret a).
Proof. intros s. exists []. by rewrite app_nil_r. Qed.
Lemma harmless_lift {A} (r : result A) : harmless (lift r).
Proof. intros s. exists []. by rewrite app_nil_r. Qed.
Lemma harmless_guard bad msg : harmless (js_guard (S := Manager) bad msg).
Proof. intros s. exists []. rewrite app_nil_r. unfold js_guard. by destruct bad. Qed.
Lemma harmless_guard_text bad msg : harmless (guard_text bad msg).
Proof. intros s. exists []. rewrite app_nil_r. unfold guard_text. by destruct bad. Qed.
Lemma harmless_bind {A B} (m : M Manager A) (k : A -> M Manager B) : harmless m -> (forall a, harmless (k a)) -> harmless (m ≫= k).
Proof.
  intros Hm Hk s. rewrite M_bind_run. destruct (Hm s) as (l1 & E1 & Q1). destruct (m s) as [[a|e] s1]; simpl in *; [|by exists l1].
  destruct (Hk a s1) as (l2 & E2 & Q2). exists (l1 ++ l2). split; [by rewrite E2, E1, <- app_assoc|].
  intros pre. by rewrite mutations_app, Q1, Q2.
Qed.
Lemma harmless_ask {A} e (oracle : list entry -> result A) : (forall pre, mutations pre [e] = []) -> harmless (ask e oracle).
Proof. intros He s. by exists [e]. Qed.
Lemma harmless_get id : harmless (get w id).
Proof. apply harmless_bind; [by apply harmless_ask|intros; apply harmless_lift]. Qed.
Lemma harmless_emit st msg : harmless (emit st msg).
Proof. intros s. by exists [Emitted st msg]. Qed.
Lemma harmless_registry t : harmless (registry_call w t).
Proof. by apply harmless_ask. Qed.
Lemma harmless_state : harmless get_state.
Proof. intros s. exists []. by rewrite app_nil_r. Qed.
Lemma harmless_keys f : harmless (modify (fun s => set_beginKeys (f s) s)).
Proof. intros s. exists []. by rewrite app_nil_r. Qed.
Lemma harmless_require id wr br : harmless (requireManagedWorkspace w id wr br).
Proof.
  apply harmless_bind; [by apply harmless_ask|]. intros views. destruct (List.find _ views) as [ws|]; [|intros s; exists []; by rewrite app_nil_r].
  destruct (negb _); [intros s; exists []; by rewrite app_nil_r|]. destruct (wr && _); [intros s; exists []; by rewrite app_nil_r|].
  destruct (br && _); [intros s; exists []; by rewrite app_nil_r|]. apply harmless_ret.
Qed.

Lemma request_mutates {A} path body (k : value -> M Manager A) s : path <> get_path -> (forall raw, harmless (k raw)) ->
  exists added, log ((request w path body ≫= k) s).2 = log s ++ added /\
    forall pre, mutations pre added = [(pre, path, body)].
Proof.
  intros Hp Hk. unfold request, ask. rewrite M_bind_run. destruct (taskRequest w (log s) path body) as [raw|e]; simpl.
  - destruct (Hk raw (add_entry (TaskRequest path body) s)) as (l & E & Q). exists (TaskRequest path body :: l).
    split; [rewrite E; simpl; by rewrite <- app_assoc|]. intros pre. simpl. by rewrite bool_decide_eq_false_2, Q.
  - eexists [_]. split; [done|]. intros pre. simpl. by rewrite bool_decide_eq_false_2.
Qed.
End Guards.

Create HintDb harmless discriminated.
#[export] Hint Resolve harmless_ret harmless_lift harmless_guard harmless_guard_text harmless_get harmless_emit harmless_registry harmless_state
  harmless_keys harmless_require : harmless.
Ltac harmless := repeat first [solve [auto with harmless] | by apply harmless_ask | apply harmless_bind; intros].

Section Calls.
Context (w : World).

(** What a call is held to, for the entries it adds to the log *)
Definition guarded (c : call) (l added : list entry) (ok : bool) : Prop :=
  match mutations [] added with
  | [] => is_mutation c = true -> ok = false
  | [m] => admitted w c l m
  | _ => False
  end.

Lemma discard_run {A} (m : M Manager A) s : discard m s = (match (m s).1 with Ok _ => Ok tt | Throw e => Throw e end, (m s).2).
Proof. unfold discard. rewrite M_bind_run. by destruct (m s) as [[]]. Qed.

(** A call on a task whose tail is a check and then its request *)
Lemma task_call_guarded {A} c id writable path body (k : DesktopTaskSnapshot -> ManagedWorkspaceView -> M Manager A) s :
  (match c with Begin _ => False | _ => True end) ->
  target w c = Some (id, writable, path, body) ->
  (forall snap ws s, (exists e, k snap ws s = (Throw e, s)) \/
     (lifecycle_allows c snap ws /\ exists added, log (k snap ws s).2 = log s ++ added /\
        forall pre, mutations pre added = [(pre, path, body)])) ->
  let (r, s') := (snap ← get w id; ws ← requireManagedWorkspace w (task_workspace (task snap)) writable false; k snap ws) s in
  exists added, log s' = log s ++ added /\ guarded c (log s) added (is_ok r).
Proof.
  intros Hc Ht Hk. destruct (guarded_run w id writable k s) as [(e & [->| ->])|(raw & snap & ws & Hr & Hs & Hm & Hw & ->)].
  - by eexists [_].
  - eexists [_; _]. split; [simpl; by rewrite <- app_assoc|done].
  - destruct (Hk snap ws (add_entry Workspaces (add_entry (TaskRequest get_path (task_ref id)) s))) as [[e ->]|(Ha & added & E & Q)].
    + eexists [_; _]. split; [simpl; by rewrite <- app_assoc|done].
    + destruct (k snap ws _) as [r s']. simpl in E. exists ([TaskRequest get_path (task_ref id); Workspaces] ++ added).
      split; [rewrite E; by rewrite <- !app_assoc|]. unfold guarded. rewrite mutations_app, Q. simpl.
      destruct c; try done; eexists _, _; (split; [exact Ht|]); (split; [done|]); by exists raw, snap, ws.
Qed.

Lemma discard_guarded {A} c (m : M Manager A) s :
  (let (r, s') := m s in exists added, log s' = log s ++ added /\ guarded c (log s) added (is_ok r)) ->
  let (r, s') := discard m s in exists added, log s' = log s ++ added /\ guarded c (log s) added (is_ok r).
Proof. rewrite discard_run. destruct (m s) as [[a|e] s']; done. Qed.

Lemma harmless_guarded {A} c (m : M Manager A) s : is_mutation c = false -> harmless m ->
  let (r, s') := m s in exists added, log s' = log s ++ added /\ guarded c (log s) added (is_ok r).
Proof.
  intros Hc Hm. destruct (Hm s) as (added & E & Q). destruct (m s) as [r s']. exists added. split; [done|].
  unfold guarded. rewrite Q. by rewrite Hc.
Qed.

Lemma begin_key_log fp s : log (begin_key w fp s).2 = log s /\ is_ok (begin_key w fp s).1 = true.
Proof. unfold begin_key. destruct (map_get (beginKeys s) fp) as [key|]; [destruct (truthy key)|]; done. Qed.

Lemma begin_guarded i s :
  let (r, s') := begin w i s in exists added, log s' = log s ++ added /\ guarded (Begin i) (log s) added (is_ok r).
Proof.
  unfold begin. rewrite M_bind_run. destruct (requireManagedWorkspace_run w (b_workspace i) true true s) as [->|(ws & -> & Hm & Hw & Hb)].
  { by eexists [_]. }
  rewrite M_bind_run. destruct (begin_key_log (fingerprint w i) (add_entry Workspaces s)) as [Hl Hok].
  destruct (begin_key w (fingerprint w i) (add_entry Workspaces s)) as [[key|e] s1]; [|done]. simpl in Hl.
  match goal with |- let (_, _) := (_ ≫= ?k) s1 in _ =>
    destruct (request_mutates w begin_path (begin_body i key) k s1) as (added & E & Q); [done|intros; harmless|];
    destruct ((request w begin_path (begin_body i key) ≫= k) s1) as [r s'] end.
  simpl in E. exists (Workspaces :: added). split; [rewrite E, Hl; simpl; by rewrite <- app_assoc|].
  unfold guarded. simpl. rewrite Q. split_and!; [done|done|by exists key|]. exists ws. split_and!; [done|by apply Hw|by apply Hb].
Qed.

(** C7: whatever the daemon, the workspaces and the registry answer, a call
    sends at most one request that changes a task, and when the call succeeds
    it did. It is sent only after the workspace of the task (for a begin, the
    named workspace) was found among the managed workspaces, ready and, except
    to cancel, writable; to begin, on its default branch; to branch, with a
    safe branch other than the default one; to propose, to apply, to commit and
    to push, in the state of the task that the daemon has just reported to
    allow it. *)
Theorem task_mutations_are_guarded c s :
  let (r, s') := run_call w c s in
  exists added, log s' = log s ++ added /\ guarded c (log s) added (is_ok r).
Proof.
  destruct c as [i|id|i|i|i|id|i|id|id|i|id|id head]; cbn [run_call].
  - apply discard_guarded, begin_guarded.
  - apply discard_guarded. unfold cancel. eapply task_call_guarded; [done|reflexivity|]. intros snap ws s1. right.
    split; [done|]. apply request_mutates; [done|]. intros; harmless.
  - apply discard_guarded. unfold checkoutBranch. eapply task_call_guarded; [done|reflexivity|]. intros snap ws s1.
    unfold guard_text. destruct (negb (branch_ok (br_branch i)) || _) eqn:E; [left; by eexists|right]. to_prop.
    split; [done|]. apply request_mutates; [done|]. intros; harmless.
  - apply discard_guarded. unfold propose. eapply task_call_guarded; [done|reflexivity|]. intros snap ws s1.
    unfold guard_text. destruct (negb _ || negb _) eqn:E; [left; by eexists|right]. to_prop.
    split; [done|]. apply request_mutates; [done|]. intros; harmless.
  - apply discard_guarded. unfold apply. eapply task_call_guarded; [done|reflexivity|]. intros snap ws s1.
    destruct (List.find _ (proposals snap)) as [p|] eqn:Ef; [|left; by eexists].
    destruct (negb (bool_decide (proposal_status p = proposed))) eqn:E; [left; by eexists|right]. to_prop.
    apply find_Some in Ef as [Hin Hp]. to_prop. split; [by exists p|].
    apply request_mutates; [done|]. intros; harmless.
  - apply discard_guarded. unfold review. eapply task_call_guarded; [done|reflexivity|]. intros snap ws s1. right.
    split; [done|]. apply request_mutates; [done|]. intros; harmless.
  - apply discard_guarded. unfold commit. eapply task_call_guarded; [done|reflexivity|]. intros snap ws s1.
    unfold guard_text. destruct (negb _) eqn:E; [left; by eexists|right]. to_prop.
    split; [done|]. apply request_mutates; [done|]. intros; harmless.
  - apply discard_guarded. unfold push. eapply task_call_guarded; [done|reflexivity|]. intros snap ws s1.
    unfold guard_text. destruct (negb _) eqn:E; [left; by eexists|right]. to_prop.
    split; [done|]. apply request_mutates; [done|]. intros; harmless.
  - apply discard_guarded, harmless_guarded; [done|]. apply harmless_get.
  - apply discard_guarded, harmless_guarded; [done|]. unfold readFile. harmless.
  - apply discard_guarded, harmless_guarded; [done|]. unfold remember. harmless.
  - apply harmless_guarded; [done|]. intros s1. unfold notifyCompleted. case_bool_decide; [exists []; by rewrite app_nil_r|].
    by eexists [_].
Qed.
End Calls.

(** ** The request keys of begins *)

Section Keys.
Context (w : World).

Definition keeps_keys {A} (m : M Manager A) : Prop := forall s, beginKeys (m s).2 = beginKeys s.
Lemma keeps_bind {A B} (m : M Manager A) (k : A -> M Manager B) : keeps_keys m -> (forall a, keeps_keys (k a)) -> keeps_keys (m ≫= k).
Proof.
  intros Hm Hk s. rewrite M_bind_run. pose proof (Hm s) as H. destruct (m s) as [[a|e] s1]; [|done]. by rewrite Hk.
Qed.
Lemma keeps_ret {A} (a : A) : keeps_keys (mret a). Proof. done. Qed.
Lemma keeps_lift {A} (r : result A) : keeps_keys (lift r). Proof. done. Qed.
Lemma keeps_ask {A} e (oracle : list entry -> result A) : keeps_keys (ask e oracle). Proof. done. Qed.
Lemma keeps_emit st msg : keeps_keys (emit st msg). Proof. done. Qed.
Lemma keeps_guard bad msg : keeps_keys (js_guard (S := Manager) bad msg). Proof. intros s. unfold js_guard. by destruct bad. Qed.
Lemma keeps_guard_text bad msg : keeps_keys (guard_text bad msg). Proof. intros s. unfold guard_text. by destruct bad. Qed.
Lemma keeps_state : keeps_keys get_state. Proof. done. Qed.
Lemma keeps_require id wr br : keeps_keys (requireManagedWorkspace w id wr br).
Proof. intros s. by destruct (requireManagedWorkspace_run w id wr br s) as [->|(ws & -> & _)]. Qed.
Lemma keeps_get id : keeps_keys (get w id).
Proof. apply keeps_bind; [done|intros; apply keeps_lift]. Qed.
Ltac keeps := repeat first [apply keeps_require | apply keeps_get | apply keeps_lift | apply keeps_ask | apply keeps_emit
  | apply keeps_guard | apply keeps_guard_text | apply keeps_state | apply keeps_ret | apply keeps_bind; intros].

Lemma other_calls_keep c : (forall i, c <> Begin i) -> keeps_keys (run_call w c).
Proof.
  intros Hc. destruct c as [i|id|i|i|i|id|i|id|id|i|id|id head]; cbn [run_call]; [by destruct (Hc i)|..].
  all: unfold discard, cancel, checkoutBranch, propose, apply, review, commit, push, readFile, remember, request, registry_call.
  all: try solve [keeps].
  intros s. unfold notifyCompleted. by case_bool_decide.
Qed.

(** A begin that fails before its request leaves the table alone; one that
    sends it has its key in the table until it succeeds. *)
Lemma begin_shape i s : let (r, s') := run_call w (Begin i) s in
  (log s' = log s ++ [Workspaces] /\ is_ok r = false /\ beginKeys s' = beginKeys s) \/
  exists key s2 rest, begin_key w (fingerprint w i) (add_entry Workspaces s) = (Ok key, s2) /\
    log s' = log s ++ [Workspaces; TaskRequest begin_path (begin_body i key)] ++ rest /\
    (forall pre, mutations pre rest = []) /\
    ((is_ok r = false /\ beginKeys s' = beginKeys s2) \/
     (is_ok r = true /\ beginKeys s' = map_delete (beginKeys s2) (fingerprint w i))).
Proof.
  cbn [run_call]. rewrite discard_run. unfold begin. rewrite M_bind_run.
  destruct (requireManagedWorkspace_run w (b_workspace i) true true s) as [->|(ws & -> & _)]; [by left|].
  right. rewrite M_bind_run. destruct (begin_key_log w (fingerprint w i) (add_entry Workspaces s)) as [Hl Hok].
  destruct (begin_key w (fingerprint w i) (add_entry Workspaces s)) as [[key|e] s2]; [|done]. simpl in Hl. exists key, s2.
  unfold request, ask. rewrite M_bind_run. cbn [fst snd]. pose proof (f_equal (fun l => l ++ [TaskRequest begin_path (begin_body i key)]) Hl) as Hl1.
  cbn beta in Hl1. rewrite <- app_assoc in Hl1. simpl in Hl1.
  destruct (taskRequest w (log s2) begin_path _) as [raw|e]; [|exists []; rewrite app_nil_r; simpl; rewrite ?Hl1; split_and!; [done..|by left]].
  rewrite M_bind_run. unfold lift. destruct (parseTaskBegin raw) as [begun|e]; [|exists []; rewrite app_nil_r; simpl; rewrite ?Hl1; split_and!; [done..|by left]].
  rewrite M_bind_run. unfold js_guard. destruct (negb _); [exists []; rewrite app_nil_r; simpl; rewrite ?Hl1; split_and!; [done..|by left]|].
  rewrite M_bind_run. match goal with |- context [get w ?id ?s] => pose proof (keeps_get id s) as Hg;
    destruct (harmless_get w id s) as (l1 & Hl2 & Hq); destruct (get w id s) as [[snap|e] s3] end; simpl in Hg, Hl2.
  2: { exists l1. simpl. rewrite Hl2, Hl1, <- app_assoc. simpl. split_and!; [done..|by left]. }
  rewrite Hl1, <- app_assoc in Hl2. rewrite M_bind_run. cbn [get_state]. rewrite M_bind_run. unfold registry_call, ask.
  destruct (registry_remember w (log s3) _) as [[]|e]; simpl.
  - eexists (l1 ++ [Remembered _; Emitted _ _]). split_and!; [done| | |right; by rewrite Hg].
    + rewrite Hl2. simpl. by rewrite <- !app_assoc.
    + intros pre. by rewrite mutations_app, Hq.
  - exists (l1 ++ [Remembered (reference_of w snap (log s3))]). split_and!; [done| | |left; by rewrite Hg].
    + rewrite Hl2. simpl. by rewrite <- !app_assoc.
    + intros pre. by rewrite mutations_app, Hq.
Qed.

(** The key of [fp] is in the table, with at most [n] younger ones. *)
Definition held (n : nat) (fp key : jstr) (m : list (jstr * jstr)) : Prop := exists a b,
  m = a ++ (fp, key) :: b /\ fp ∉ map fst a /\ (length b <= n)%nat /\ (length m <= MAX_BEGIN_KEYS)%nat.

Lemma held_get n fp key m : held n fp key m -> map_get m fp = Some key.
Proof.
  intros (a & b & -> & Ha & _). induction a as [|[k v] a IH]; simpl in *.
  - by rewrite map_get_cons, bool_decide_eq_true_2.
  - apply not_elem_of_cons in Ha as [Hk Ha]. by rewrite map_get_cons, bool_decide_eq_false_2, IH by done.
Qed.

Lemma held_delete n fp key m fp' : fp' <> fp -> held n fp key m -> held n fp key (map_delete m fp').
Proof.
  intros Hne (a & b & -> & Ha & Hb & Hm). unfold map_delete. exists (filter (fun kv => kv.1 <> fp') a), (filter (fun kv => kv.1 <> fp') b).
  rewrite filter_app, filter_cons_True by done. split_and!; [done| | |].
  - intros (kv & -> & [_ Hin]%list_elem_of_filter)%list_elem_of_fmap. apply Ha. by apply (list_elem_of_fmap_2 fst).
  - etransitivity; [apply length_filter|done].
  - rewrite !length_app in *. simpl in *. pose proof (length_filter (fun kv => kv.1 <> fp') a).
    pose proof (length_filter (fun kv => kv.1 <> fp') b). lia.
Qed.

Lemma held_set n fp key fp' v a b : fp' <> fp -> fp' ∈ map fst (a ++ (fp, key) :: b) -> (length b <= n)%nat -> fp ∉ map fst a ->
  (length (a ++ (fp, key) :: b) <= MAX_BEGIN_KEYS)%nat -> held n fp key (map_set (a ++ (fp, key) :: b) fp' v).
Proof.
  intros Hne Hin Hb Ha Hm.
  assert (length (map_set (a ++ (fp, key) :: b) fp' v) = length (a ++ (fp, key) :: b)) as Hlen.
  { rewrite <- (length_map fst), map_set_keys, bool_decide_eq_true_2 by done. apply length_map. }
  assert (exists a' b', map_set (a ++ (fp, key) :: b) fp' v = a' ++ (fp, key) :: b' /\ map fst a' = map fst a) as (a' & b' & E & Ea).
  { clear -Hne. induction a as [|[k1 v1] a IH]; simpl.
    - rewrite bool_decide_eq_false_2 by done. by eexists [], _.
    - case_bool_decide; [by eexists ((k1, v) :: a), b|]. destruct IH as (a' & b' & -> & <-). by eexists ((k1, v1) :: a'), b'. }
  rewrite E in Hlen. exists a', b'. split; [done|]. rewrite Ea. split; [done|]. apply (f_equal length) in Ea.
  rewrite !length_map in Ea. rewrite E. rewrite !length_app in *. simpl in *. lia.
Qed.

Lemma held_begin n fp key fp' s : fp' <> fp -> (S n < MAX_BEGIN_KEYS)%nat -> held n fp key (beginKeys s) ->
  held (S n) fp key (beginKeys (begin_key w fp' s).2).
Proof.
  intros Hne Hn (a & b & Hm & Ha & Hb & Hlen). unfold begin_key. rewrite Hm.
  destruct (map_get _ fp') as [k|] eqn:E.
  - destruct (truthy k); simpl; [rewrite Hm; exists a, b; rewrite <- Hm; split_and!; done || lia|].
    apply held_set; [done| |lia|done|by rewrite <- Hm]. apply map_get_elem in E. by apply (list_elem_of_fmap_2 fst) in E.
  - rewrite <- Hm in *. set (m1 := if (_ <=? _)%nat then _ else _).
    assert (exists a', m1 = a' ++ (fp, key) :: b /\ fp ∉ map fst a' /\ (length m1 < MAX_BEGIN_KEYS)%nat /\ map_get m1 fp' = None)
      as (a' & -> & Ha' & Hl & Hg).
    { unfold m1. destruct (Nat.leb_spec MAX_BEGIN_KEYS (length (beginKeys s))); [|exists a; split_and!; done || lia].
      rewrite Hm in *. destruct a as [|[k1 v1] a]; [rewrite length_app in *; simpl in *; lia|]. exists a. simpl in *.
      rewrite map_get_cons in E. apply not_elem_of_cons in Ha as [? ?]. split_and!; [done|done|lia|by case_bool_decide]. }
    simpl. rewrite map_set_new by (by apply map_get_none). exists a', (b ++ [(fp', js "desktop:begin:" ++ randomUUID w (log s))]).
    rewrite <- app_assoc. split_and!; [done|done| |]; rewrite ?length_app in *; simpl in *; rewrite ?length_app; simpl; lia.
Qed.
Definition begun_input (c : call) : option jstr := match c with Begin i => Some (fingerprint w i) | _ => None end.

Lemma begin_key_fresh fp s key s1 : map_get (beginKeys s) fp = None -> (length (beginKeys s) <= MAX_BEGIN_KEYS)%nat ->
  begin_key w fp s = (Ok key, s1) -> held 0 fp key (beginKeys s1) /\ truthy key = true.
Proof.
  intros Hn Hlen. unfold begin_key. rewrite Hn. pose proof (map_get_none _ _ Hn) as Hm.
  set (m := if (_ <=? _)%nat then _ else _).
  assert (fp ∉ map fst m /\ (length m < MAX_BEGIN_KEYS)%nat) as [Hm' Hl].
  { unfold m. destruct (Nat.leb_spec MAX_BEGIN_KEYS (length (beginKeys s))); [|by split].
    destruct (beginKeys s) as [|kv l]; [simpl in *; unfold MAX_BEGIN_KEYS in *; lia|]. simpl in *.
    apply not_elem_of_cons in Hm as [_ Hm]. split; [done|lia]. }
  intros [= <- <-]. split; [|done]. cbn [beginKeys set_beginKeys]. rewrite map_set_new by done. exists m, []. rewrite length_app. simpl. split_and!; [done|done|lia|lia].
Qed.

Lemma held_call fp key c n s : begun_input c <> Some fp -> held n fp key (beginKeys s) ->
  (length (option_list (begun_input c)) + n < MAX_BEGIN_KEYS)%nat ->
  held (length (option_list (begun_input c)) + n) fp key (beginKeys (run_call w c s).2).
Proof.
  intros Hc Hh Hn. destruct (begun_input c) as [fp'|] eqn:E.
  - destruct c as [i| | | | | | | | | | |]; simplify_eq. injection E as <-. cbn [length option_list] in *.
    assert (fingerprint w i <> fp) by congruence. pose proof (begin_shape i s) as Hb.
    destruct (run_call w (Begin i) s) as [r s'].
    destruct Hb as [(_ & _ & Hk)|(k & s2 & rest & Hk & _ & _ & Hs)]; simpl.
    + rewrite Hk. destruct Hh as (a & b & ? & ? & ? & ?). exists a, b. split_and!; done || lia.
    + pose proof (held_begin n fp key (fingerprint w i) (add_entry Workspaces s)) as Hb. rewrite Hk in Hb.
      destruct Hs as [[_ ->]|[_ ->]]; [|apply held_delete; [done|]]; apply Hb; done.
  - simpl. assert (forall i, c <> Begin i) by (intros i ->; done). by rewrite other_calls_keep.
Qed.

Lemma held_calls fp key cs n s : fp ∉ omap begun_input cs -> held n fp key (beginKeys s) ->
  (length (omap begun_input cs) + n < MAX_BEGIN_KEYS)%nat ->
  held (length (omap begun_input cs) + n) fp key (beginKeys (run_calls w cs s)).
Proof.
  revert n s. induction cs as [|c cs IH]; intros n s Hc Hh Hn; [done|].
  assert (omap begun_input (c :: cs) = option_list (begun_input c) ++ omap begun_input cs) as E by (csimpl; by destruct (begun_input c)).
  rewrite E in *. apply not_elem_of_app in Hc as [Hc1 Hc2]. rewrite length_app in *. simpl.
  replace (length (option_list (begun_input c)) + length (omap begun_input cs) + n)%nat
    with (length (omap begun_input cs) + (length (option_list (begun_input c)) + n))%nat in * by lia.
  apply IH; [done| |done]. apply held_call; [|done|lia]. intros Hf. rewrite Hf in Hc1. apply Hc1. by left.
Qed.

(** A begin that sent its request and failed, with no key left behind by an
    earlier one, is sent again with the same [client_request_id], so that the
    daemon can tell that it is the same request: whatever the answers, whatever
    other calls come between, up to fifteen begins of other inputs among them. *)
Theorem retried_begin_repeats_its_key i s e s1 pre key cs :
  map_get (beginKeys s) (fingerprint w i) = None -> (length (beginKeys s) <= MAX_BEGIN_KEYS)%nat ->
  run_call w (Begin i) s = (Throw e, s1) ->
  log s1 = log s ++ pre -> mutations [] pre = [([Workspaces], begin_path, begin_body i key)] ->
  fingerprint w i ∉ omap begun_input cs -> (length (omap begun_input cs) <= 15)%nat ->
  let s2 := run_calls w cs s1 in
  exists added, log (run_call w (Begin i) s2).2 = log s2 ++ added /\
    forall l p body, (l, p, body) ∈ mutations [] added -> p = begin_path /\ body = begin_body i key.
Proof.
  intros Hn Hlen Hrun Hlog Hpre Hcs Hcount s2. pose proof (begin_shape i s) as H1. rewrite Hrun in H1.
  assert (held 0 (fingerprint w i) key (beginKeys s1) /\ truthy key = true) as [Hh Ht].
  { destruct H1 as [(El & _)|(key' & s' & rest & Hk & El & _ & Hs)]; rewrite El in Hlog; apply app_inv_head in Hlog; subst pre; [done|].
    simpl in Hpre. injection Hpre as Hbody _. unfold begin_body in Hbody. simplify_eq.
    destruct Hs as [[_ ->]|[? _]]; [|done]. by apply (begin_key_fresh _ (add_entry Workspaces s) _ _ Hn Hlen) in Hk. }
  apply (held_calls _ _ cs) in Hh; [|done|unfold MAX_BEGIN_KEYS; lia]. fold s2 in Hh. apply held_get in Hh.
  pose proof (begin_shape i s2) as H2. destruct (run_call w (Begin i) s2) as [r s3]. simpl.
  destruct H2 as [(El & _)|(key' & s' & rest & Hk & El & Hq & _)].
  - exists [Workspaces]. split; [done|]. simpl. by intros l p body ?%elem_of_nil.
  - unfold begin_key in Hk. simpl in Hk. rewrite Hh, Ht in Hk. injection Hk as <- <-.
    exists ([Workspaces; TaskRequest begin_path (begin_body i key)] ++ rest). split; [done|]. rewrite mutations_app, Hq, app_nil_r.
    simpl. intros l p body [= -> -> ->]%list_elem_of_singleton. done.
Qed.
End Keys.
(** A daemon that is down, seen by a manager of one writable workspace *)
Definition offline_world : World := {|
  listManagedWorkspaces := fun _ => Ok [{| ws_id := js "api"; read_write := true; ready := true; defaultBranch := js "main"; ws_branch := None |}];
  taskRequest := fun _ _ _ => Throw (Error (js "connect ECONNREFUSED"));
  readWorkspaceFile := fun _ _ _ => Throw (Error (js "connect ECONNREFUSED"));
  registry_remember := fun _ _ => Ok tt;
  now := fun _ => js "2026-01-01T00:00:00.000Z";
  randomUUID := fun l => js (String.concat EmptyString (repeat "0"%string (length l)));
  sha256 := fun s => s;
  JSON_stringify := JsonCodec.sample_stringify |}.
Definition sample_begin (query : string) : BeginInput := {| b_workspace := js "api"; b_contextQuery := Some (js query) |}.

Lemma retried_begin_repeats_its_key_witness :
  let i := sample_begin "first" in
  let s1 := (run_call offline_world (Begin i) new_manager).2 in
  let s2 := run_calls offline_world [Begin (sample_begin "second"); Cancel (js "t")] s1 in
  exists added, log (run_call offline_world (Begin i) s2).2 = log s2 ++ added /\
    forall l p body, (l, p, body) ∈ mutations [] added -> p = begin_path /\ body = begin_body i (js "desktop:begin:0").
Proof.
  cbv zeta. refine (retried_begin_repeats_its_key offline_world (sample_begin "first") new_manager _ _
    [Workspaces; TaskRequest begin_path (begin_body (sample_begin "first") (js "desktop:begin:0"))] (js "desktop:begin:0")
    [Begin (sample_begin "second"); Cancel (js "t")] _ _ _ _ _ _ _).
  - reflexivity.
  - simpl. unfold MAX_BEGIN_KEYS. lia.
  - vm_compute. reflexivity.
  - vm_compute. reflexivity.
  - vm_compute. reflexivity.
  - apply (bool_decide_unpack _). vm_compute. exact I.
  - vm_compute. lia.
Defined.
End TaskManager.
