(* ===== verification/HarnessParser.v ===== *)
(** * The daemon's answers about harness runs (harness-parser.ts)

    Every parser of the harness routes: context routes, runs, events, jobs,
    commands, with the summaries shown for events. The wire forms and the
    shapes the parsers check are stated beside them. *)

From S2P Require Import Prelude JsValue Utf8 Validate Codec.

Module HarnessParser.

(** ** Names *)

Inductive HarnessSandboxMode := read_only | workspace_write | workspace_gui | danger_full_access.
Inductive HarnessPolicyDecision := allow | ask | deny.
Inductive HarnessWorkShape := shape_read_only | bounded | durable | operate_application | invariant.
Inductive HarnessProofType := focused_test | integration | e2e | recovery_rehearsal | measurement.
Inductive HarnessContextRoute :=
| route_none | exact_source | impact | architecture | symbol_graph | git_state | semantic | text_search | mixed.
Inductive Enforcement := full | partial | unavailable.
Inductive Phase := context | execute | verify | recover | learn.
Inductive VerificationStatus := verification_idle | verification_pending | verification_passed | verification_failed.
Inductive RecoveryStatus := recovery_idle | recovery_needed | recovery_in_progress | recovery_recovered.
Inductive Actor := operator | external_agent.
Inductive Origin := manual | automatic.
Inductive HintState := candidate | fresh_run_validated.
#[global] Instance sandbox_eq_dec : EqDecision HarnessSandboxMode. Proof. solve_decision. Defined.
#[global] Instance policy_eq_dec : EqDecision HarnessPolicyDecision. Proof. solve_decision. Defined.

Definition sandbox_names : list (string * HarnessSandboxMode) :=
  [("read-only", read_only); ("workspace-write", workspace_write); ("workspace-gui", workspace_gui);
   ("danger-full-access", danger_full_access)]%string.
Definition policy_names : list (string * HarnessPolicyDecision) := [("allow", allow); ("ask", ask); ("deny", deny)]%string.
Definition shape_names : list (string * HarnessWorkShape) :=
  [("read-only", shape_read_only); ("bounded", bounded); ("durable", durable);
   ("operate-application", operate_application); ("invariant", invariant)]%string.
Definition proof_names : list (string * HarnessProofType) :=
  [("focused-test", focused_test); ("integration", integration); ("e2e", e2e);
   ("recovery-rehearsal", recovery_rehearsal); ("measurement", measurement)]%string.
Definition route_names : list (string * HarnessContextRoute) :=
  [("none", route_none); ("exact-source", exact_source); ("impact", impact); ("architecture", architecture);
   ("symbol-graph", symbol_graph); ("git-state", git_state); ("semantic", semantic); ("text-search", text_search);
   ("mixed", mixed)]%string.
Definition enforcement_names : list (string * Enforcement) :=
  [("full", full); ("partial", partial); ("unavailable", unavailable)]%string.
Definition phase_names : list (string * Phase) :=
  [("context", context); ("execute", execute); ("verify", verify); ("recover", recover); ("learn", learn)]%string.
Definition verification_names : list (string * VerificationStatus) :=
  [("idle", verification_idle); ("pending", verification_pending); ("passed", verification_passed);
   ("failed", verification_failed)]%string.
Definition recovery_names : list (string * RecoveryStatus) :=
  [("idle", recovery_idle); ("needed", recovery_needed); ("in-progress", recovery_in_progress);
   ("recovered", recovery_recovered)]%string.

Definition SAFE_EVENT_KEYS : list string :=
  ["tool"; "tool_name"; "execution_id"; "duration_ms"; "capability_id"; "job_id"; "approval_id"; "parent_run_id"; "kind";
   "state"; "route"; "retrieve"; "query_bytes"; "reason"; "result_category"; "error_category"; "verification_tool";
   "verification"; "recovered"; "fresh_confirmations"; "work_shape"; "work_scope"; "closed_loop_role"; "proof_type";
   "proof_source"; "proof_status"; "selected_proof_type"; "selected_proof_source"; "sandbox"; "enforcement"]%string.
Definition CONTEXT_SURFACES : list jstr :=
  map js ["read_file"; "git_diff"; "repo_snapshot"; "plugin_catalog"; "mcp_extension_catalog"]%string.

(** ** Views *)

Record DesktopHarnessContextRouteView := {
  ctx_workspace : jstr; retrieve : bool; route : HarnessContextRoute; searchQuery : jstr; ctx_reason : jstr;
  surfaces : list jstr }.
Record DesktopHarnessCommandView := {
  cmd_workspace : jstr; command : jstr; requestId : jstr; cmd_sandbox : option HarnessSandboxMode;
  sandboxEnforcement : option Enforcement; success : option bool; exitCode : option Z; timedOut : option bool;
  stdout : option jstr; stderr : option jstr; cmd_truncated : option bool }.
Record DesktopHarnessCheckpointView := {
  checkpoint_id : jstr; eventSeq : Z; checkpoint_state : jstr; checkpoint_reason : jstr; checkpoint_createdAt : Z }.
Record DesktopHarnessChildRunView := {
  child_id : jstr; child_profile : jstr; child_status : jstr; child_parentRunId : jstr; child_startedAt : Z;
  child_updatedAt : Z; child_completedAt : option Z }.
Record DesktopHarnessLearningHint := {
  hint_tool : jstr; errorCategory : jstr; failures : Z; recoveries : Z; confirmations : Z; hint_state : HintState;
  suggestion : jstr }.
Record DesktopHarnessProofCandidate := {
  candidate_type : HarnessProofType; candidate_source : jstr; cwd : option jstr; candidate_command : jstr;
  candidate_reason : jstr }.
Record DesktopHarnessRepositoryContext := {
  entrypoints : list jstr; guidance : list jstr; activePlans : list jstr; validationOwners : list jstr;
  proofCandidates : list DesktopHarnessProofCandidate; context_truncated : bool }.
Record DesktopHarnessClosedLoopView := {
  phase : Phase; workShape : HarnessWorkShape; workScope : option jstr; contextReads : Z; executions : Z;
  verificationRequired : bool; verificationStatus : VerificationStatus; recoveryStatus : RecoveryStatus;
  selectedProofType : option HarnessProofType; selectedProofSource : option jstr; selectedProofCommand : option jstr;
  satisfiedProofs : list HarnessProofType; failureCount : Z; learningCount : Z; lastFailureTool : option jstr;
  lastFailureCategory : option jstr; learningHints : list DesktopHarnessLearningHint }.
Record Policies := {
  policy_read : HarnessPolicyDecision; policy_write : HarnessPolicyDecision; policy_exec : HarnessPolicyDecision;
  policy_git : HarnessPolicyDecision; policy_provider : HarnessPolicyDecision; policy_job : HarnessPolicyDecision }.
Record ProfileView := { description : jstr; profile_sandbox : HarnessSandboxMode; profile_policies : Policies }.
Record DesktopHarnessRunView := {
  run_id : jstr; actor : Actor; run_workspace : jstr; run_profile : jstr; run_capabilities : ProfileView; origin : Origin;
  run_status : jstr; parentRunId : option jstr; children : list DesktopHarnessChildRunView; childrenTruncated : bool;
  freshnessState : jstr; freshnessReason : option jstr; recoveryState : jstr; recoveryReason : jstr;
  closedLoop : DesktopHarnessClosedLoopView; repositoryContext : DesktopHarnessRepositoryContext; pendingApprovals : Z;
  activeJobs : Z; uncertainMutations : Z; retryableReadExecutions : Z; retryablePreDispatchExecutions : Z;
  blockedPreDispatchExecutions : Z; checkpoint : option DesktopHarnessCheckpointView; startedAt : Z; updatedAt : Z;
  completedAt : option Z }.
Record DesktopHarnessEventView := {
  seq : Z; eventType : jstr; summary : jstr; event_createdAt : Z; displayInput : option jstr; displayOutput : option jstr }.
Record DesktopHarnessJobView := {
  job_id : jstr; job_runId : jstr; job_workspace : jstr; job_kind : jstr; taskId : option jstr; job_status : jstr;
  job_createdAt : Z; job_updatedAt : Z }.

(** ** Fields *)

Definition message (label : string) : string := "SourceNerve Harness " +:+ label +:+ " is invalid".
Definition invalid {A} (label : string) : result A := fail (message label).
(** [if (!isRecord(value)) throw ...] *)
Definition record_or (label : string) (v : value) : result (list (jstr * value)) :=
  match is_record v with Some fs => Ok fs | None => invalid label end.
(** [value.flag === true] *)
Definition is_true (v : value) : bool := match v with VBool true => true | _ => false end.

Definition isBoundedSafeText (max : Z) (s : jstr) : bool := (1 <=? slen s) && (slen s <=? max) && negb (has_control s).
Definition boundedText (max : Z) (label : string) : value -> result jstr := checked_string (isBoundedSafeText max) (message label).
Definition optionalBoundedText (max : Z) : value -> option jstr := lenient_string (isBoundedSafeText max).
Definition nonNegativeInteger (label : string) : value -> result Z := checked_count (message label).
Definition optionalNonNegativeInteger : value -> option Z := lenient_count.
Definition optionalInteger : value -> option Z := lenient_integer.
Definition booleanValue (label : string) : value -> result bool := checked_bool (message label).

(** [/[\u0000-\u0008\u000b\u000c\u000e-\u001f\u007f-\u009f]/] on one code unit: tab, line feed and carriage return pass *)
Definition is_display_control (u : N) : bool :=
  (u <=? 8)%N || (u =? 11)%N || (u =? 12)%N || ((14 <=? u) && (u <=? 31))%N || ((0x7f <=? u) && (u <=? 0x9f))%N.
Definition displayable (maxBytes : Z) (s : jstr) : bool := (utf8_len s <=? maxBytes) && negb (existsb is_display_control s).
Definition context_query_ok (s : jstr) : bool := negb (utf8_len s <? 1) && displayable (16 * 1024) s.
Definition boundedContextQuery : value -> result jstr := checked_string context_query_ok (message "context route search query").
Definition contextSearchQuery (fallback : option jstr) (v : value) : result jstr :=
  match boundedContextQuery v with
  | Ok q => Ok q
  | Throw e => match fallback with None => Throw e | Some f => boundedContextQuery (VString (trim f)) end
  end.
Definition optionalMultilineText (maxBytes : Z) (v : value) : option jstr :=
  match v with
  | VString s => if displayable maxBytes s then (let trimmed := trim s in if truthy trimmed then Some trimmed else None) else None
  | _ => None
  end.
Definition boundedCommandText : value -> result jstr :=
  checked_string (fun s => negb (slen (trim s) <? 1) && (utf8_len s <=? 32 * 1024) && negb (has_nul s)) (message "command text").
(** [typeof value === "string" ? { out: boundedOutput(value) } : {}] *)
Definition optionalOutput (v : value) : result (option jstr) :=
  match v with
  | VString s => if 300 * 1024 <? utf8_len s then fail "SourceNerve Harness command output is oversized" else Ok (Some s)
  | _ => Ok None
  end.

Definition sandboxMode : value -> result HarnessSandboxMode := checked_name sandbox_names (message "sandbox mode").
Definition policyDecision (label : string) : value -> result HarnessPolicyDecision :=
  checked_name policy_names (message (label +:+ " policy")).
Definition harnessWorkShape : value -> result HarnessWorkShape := checked_name shape_names (message "work shape").
Definition proofType : value -> result HarnessProofType := checked_name proof_names (message "proof type").
Definition contextRoute : value -> result HarnessContextRoute := checked_name route_names (message "context route").
Definition contextSurface : value -> result jstr :=
  checked_string (fun s => bool_decide (s ∈ CONTEXT_SURFACES)) (message "context surface").
Definition stringArray (label : string) : value -> result (list jstr) := checked_list (message label) (boundedText 512 label).

Definition actor_of (v : value) : Actor :=
  match v with VString s => if starts_with s (js "oauth:") then external_agent else operator | _ => operator end.
Definition origin_of (v : value) : Origin := if is_string v (js "automatic") then automatic else manual.
Definition hint_state_of (v : value) : HintState := if is_string v (js "fresh-run-validated") then fresh_run_validated else candidate.

(** ** The parsers *)

Definition parseHarnessContextRoute (fallbackSearchQuery : option jstr) (v : value) : result DesktopHarnessContextRouteView :=
  fs ← record_or "context route response" v;
  match field fs (js "surfaces") with
  | VArray items =>
      workspace ← boundedText 128 "context route workspace" (field fs (js "workspace"));
      retr ← booleanValue "context route retrieve" (field fs (js "retrieve"));
      r ← contextRoute (field fs (js "route"));
      q ← contextSearchQuery fallbackSearchQuery (field fs (js "search_query"));
      why ← boundedText 512 "context route reason" (field fs (js "reason"));
      ss ← map_result contextSurface items;
      Ok {| ctx_workspace := workspace; retrieve := retr; route := r; searchQuery := q; ctx_reason := why; surfaces := ss |}
  | _ => invalid "context route response"
  end.

Definition parseHarnessCommand (v : value) : result DesktopHarnessCommandView :=
  fs ← record_or "command response" v;
  if negb (is_string (field fs (js "status")) (js "completed")) then invalid "command status"
  else
    sandbox ← optional sandboxMode (field fs (js "sandbox"));
    enforcement ← optional (checked_name enforcement_names (message "command sandbox enforcement")) (field fs (js "sandbox_enforcement"));
    let code := optionalInteger (field fs (js "exit_code")) in
    workspace ← boundedText 128 "command workspace" (field fs (js "workspace"));
    cmd ← boundedCommandText (field fs (js "command"));
    id ← boundedText 128 "command request id" (field fs (js "request_id"));
    out ← optionalOutput (field fs (js "stdout"));
    err ← optionalOutput (field fs (js "stderr"));
    Ok {| cmd_workspace := workspace; command := cmd; requestId := id; cmd_sandbox := sandbox;
          sandboxEnforcement := enforcement; success := lenient_bool (field fs (js "success")); exitCode := code;
          timedOut := lenient_bool (field fs (js "timed_out")); stdout := out; stderr := err;
          cmd_truncated := lenient_bool (field fs (js "truncated")) |}.

Definition parseChild (v : value) : result DesktopHarnessChildRunView :=
  fs ← record_or "child run item" v;
  let completed := optionalNonNegativeInteger (field fs (js "completed_at")) in
  id ← boundedText 128 "child run id" (field fs (js "id"));
  profile ← boundedText 128 "child run profile" (field fs (js "profile"));
  status ← boundedText 64 "child run status" (field fs (js "status"));
  parent ← boundedText 128 "child parent run id" (field fs (js "parent_run_id"));
  started ← nonNegativeInteger "child started at" (field fs (js "started_at"));
  updated ← nonNegativeInteger "child updated at" (field fs (js "updated_at"));
  Ok {| child_id := id; child_profile := profile; child_status := status; child_parentRunId := parent;
        child_startedAt := started; child_updatedAt := updated; child_completedAt := completed |}.
Definition parseChildren : value -> result (list DesktopHarnessChildRunView) := checked_list (message "child run list") parseChild.

Definition parseHarnessJob (v : value) : result DesktopHarnessJobView :=
  fs ← record_or "job item" v;
  let task := optionalBoundedText 128 (field fs (js "task_id")) in
  id ← boundedText 128 "job id" (field fs (js "id"));
  run ← boundedText 128 "job run id" (field fs (js "run_id"));
  workspace ← boundedText 128 "job workspace" (field fs (js "workspace"));
  kind ← boundedText 64 "job kind" (field fs (js "kind"));
  status ← boundedText 64 "job status" (field fs (js "status"));
  created ← nonNegativeInteger "job created at" (field fs (js "created_at"));
  updated ← nonNegativeInteger "job updated at" (field fs (js "updated_at"));
  Ok {| job_id := id; job_runId := run; job_workspace := workspace; job_kind := kind; taskId := task; job_status := status;
        job_createdAt := created; job_updatedAt := updated |}.
(** [if (!isRecord(value) || !Array.isArray(value.key)) throw ...] and its elements *)
Definition list_of {A} (label key : string) (f : value -> result A) (v : value) : result (list A) :=
  fs ← record_or label v; checked_list (message label) f (field fs (js key)).
Definition parseHarnessJobList : value -> result (list DesktopHarnessJobView) := list_of "job list response" "jobs" parseHarnessJob.
Definition parseHarnessJobCall (v : value) : result DesktopHarnessJobView :=
  fs ← record_or "job response" v; parseHarnessJob (field fs (js "job")).

Definition parseProofCandidate (v : value) : result DesktopHarnessProofCandidate :=
  fs ← record_or "proof candidate" v;
  let dir := optionalBoundedText 512 (field fs (js "cwd")) in
  kind ← proofType (field fs (js "proof_type"));
  source ← boundedText 512 "proof candidate source" (field fs (js "source"));
  cmd ← boundedText 1024 "proof candidate command" (field fs (js "command"));
  why ← boundedText 1024 "proof candidate reason" (field fs (js "reason"));
  Ok {| candidate_type := kind; candidate_source := source; cwd := dir; candidate_command := cmd; candidate_reason := why |}.

Definition parseRepositoryContext (v : value) : result DesktopHarnessRepositoryContext :=
  fs ← record_or "repository context" v;
  match field fs (js "proof_candidates") with
  | VArray items =>
      entry ← stringArray "repository context entrypoints" (field fs (js "entrypoints"));
      guide ← stringArray "repository context guidance" (field fs (js "guidance"));
      plans ← stringArray "repository context active plans" (field fs (js "active_plans"));
      owners ← stringArray "repository context validation owners" (field fs (js "validation_owners"));
      candidates ← map_result parseProofCandidate items;
      Ok {| entrypoints := entry; guidance := guide; activePlans := plans; validationOwners := owners;
            proofCandidates := candidates; context_truncated := is_true (field fs (js "truncated")) |}
  | _ => invalid "repository context"
  end.

Definition parseLearningHint (v : value) : result DesktopHarnessLearningHint :=
  fs ← record_or "learning hint" v;
  tool ← boundedText 128 "learning hint tool" (field fs (js "tool"));
  category ← boundedText 64 "learning hint error category" (field fs (js "error_category"));
  fails ← nonNegativeInteger "learning hint failures" (field fs (js "failures"));
  recs ← nonNegativeInteger "learning hint recoveries" (field fs (js "recoveries"));
  confs ← nonNegativeInteger "learning hint confirmations" (field fs (js "confirmations"));
  text ← boundedText 512 "learning hint suggestion" (field fs (js "suggestion"));
  Ok {| hint_tool := tool; errorCategory := category; failures := fails; recoveries := recs; confirmations := confs;
        hint_state := hint_state_of (field fs (js "state")); suggestion := text |}.

Definition parseClosedLoop (v : value) : result DesktopHarnessClosedLoopView :=
  fs ← record_or "closed loop" v;
  match field fs (js "learning_hints") with
  | VArray items =>
      ph ← checked_name phase_names (message "closed-loop phase") (field fs (js "phase"));
      shape ← harnessWorkShape (field fs (js "work_shape"));
      selected ← optional proofType (field fs (js "selected_proof_type"));
      satisfied ← checked_list (message "satisfied proof list") proofType (field fs (js "satisfied_proofs"));
      verification ← checked_name verification_names (message "verification status") (field fs (js "verification_status"));
      recovery ← checked_name recovery_names (message "closed-loop recovery status") (field fs (js "recovery_status"));
      reads ← nonNegativeInteger "context reads" (field fs (js "context_reads"));
      execs ← nonNegativeInteger "closed-loop executions" (field fs (js "executions"));
      fails ← nonNegativeInteger "closed-loop failures" (field fs (js "failure_count"));
      learned ← nonNegativeInteger "closed-loop learnings" (field fs (js "learning_count"));
      hints ← map_result parseLearningHint items;
      Ok {| phase := ph; workShape := shape; workScope := optionalBoundedText 512 (field fs (js "work_scope"));
            contextReads := reads; executions := execs; verificationRequired := is_true (field fs (js "verification_required"));
            verificationStatus := verification; recoveryStatus := recovery; selectedProofType := selected;
            selectedProofSource := optionalBoundedText 512 (field fs (js "selected_proof_source"));
            selectedProofCommand := optionalBoundedText 1024 (field fs (js "selected_proof_command"));
            satisfiedProofs := satisfied; failureCount := fails; learningCount := learned;
            lastFailureTool := optionalBoundedText 128 (field fs (js "last_failure_tool"));
            lastFailureCategory := optionalBoundedText 64 (field fs (js "last_failure_category")); learningHints := hints |}
  | _ => invalid "closed loop"
  end.

Definition parseCheckpoint (v : value) : result DesktopHarnessCheckpointView :=
  fs ← record_or "checkpoint" v;
  id ← boundedText 128 "checkpoint id" (field fs (js "id"));
  sq ← nonNegativeInteger "checkpoint sequence" (field fs (js "event_seq"));
  st ← boundedText 64 "checkpoint state" (field fs (js "state"));
  why ← boundedText 128 "checkpoint reason" (field fs (js "reason"));
  created ← nonNegativeInteger "checkpoint created at" (field fs (js "created_at"));
  Ok {| checkpoint_id := id; eventSeq := sq; checkpoint_state := st; checkpoint_reason := why; checkpoint_createdAt := created |}.

Definition parseProfile (v : value) : result ProfileView :=
  outer ← record_or "capability profile" v;
  fs ← record_or "capability profile" (field outer (js "profile"));
  ps ← record_or "capability policies" (field fs (js "policies"));
  sandbox ← sandboxMode (field fs (js "sandbox"));
  exec ← policyDecision "exec" (field ps (js "exec"));
  text ← boundedText 512 "profile description" (field fs (js "description"));
  rd ← policyDecision "read" (field ps (js "read"));
  wr ← policyDecision "write" (field ps (js "write"));
  git ← policyDecision "git" (field ps (js "git"));
  prov ← policyDecision "provider" (field ps (js "provider"));
  job ← policyDecision "job" (field ps (js "job"));
  Ok {| description := text; profile_sandbox := sandbox;
        profile_policies := {| policy_read := rd; policy_write := wr;
          policy_exec := if bool_decide (sandbox = danger_full_access) && negb (bool_decide (exec = deny)) then ask else exec;
          policy_git := git; policy_provider := prov; policy_job := job |} |}.

Definition parseHarnessRunSnapshot (v : value) : result DesktopHarnessRunView :=
  fs ← record_or "run response" v;
  run ← record_or "run response" (field fs (js "run"));
  freshness ← record_or "run response" (field fs (js "freshness"));
  recovery ← record_or "run response" (field fs (js "recovery"));
  _ ← record_or "run response" (field fs (js "closed_loop"));
  _ ← record_or "run response" (field fs (js "repository_context"));
  loop ← parseClosedLoop (field fs (js "closed_loop"));
  repository ← parseRepositoryContext (field fs (js "repository_context"));
  profile ← parseProfile (field run (js "capability_snapshot"));
  let completed := optionalNonNegativeInteger (field run (js "completed_at")) in
  let parent := optionalBoundedText 128 (field run (js "parent_run_id")) in
  let why := optionalBoundedText 256 (field freshness (js "reason")) in
  point ← optional parseCheckpoint (field recovery (js "checkpoint"));
  kids ← (if is_nullish (field fs (js "children")) then Ok [] else parseChildren (field fs (js "children")));
  id ← boundedText 128 "run id" (field run (js "id"));
  workspace ← boundedText 128 "workspace" (field run (js "workspace"));
  name ← boundedText 128 "profile" (field run (js "profile"));
  status ← boundedText 64 "run status" (field run (js "status"));
  fresh ← boundedText 64 "freshness state" (field freshness (js "state"));
  rstate ← boundedText 64 "recovery state" (field recovery (js "state"));
  rwhy ← boundedText 128 "recovery reason" (field recovery (js "reason"));
  approvals ← nonNegativeInteger "pending approvals" (field recovery (js "pending_approvals"));
  jobs ← nonNegativeInteger "active jobs" (field recovery (js "active_jobs"));
  uncertain ← nonNegativeInteger "uncertain mutations" (field recovery (js "uncertain_mutations"));
  reads ← nonNegativeInteger "retryable reads" (field recovery (js "retryable_read_executions"));
  pre ← nonNegativeInteger "retryable pre-dispatch" (field recovery (js "retryable_pre_dispatch_executions"));
  blocked ← nonNegativeInteger "blocked pre-dispatch" (field recovery (js "blocked_pre_dispatch_executions"));
  started ← nonNegativeInteger "started at" (field run (js "started_at"));
  updated ← nonNegativeInteger "updated at" (field run (js "updated_at"));
  Ok {| run_id := id; actor := actor_of (field run (js "principal_id")); run_workspace := workspace; run_profile := name;
        run_capabilities := profile; origin := origin_of (field run (js "origin")); run_status := status; parentRunId := parent;
        children := kids; childrenTruncated := is_true (field fs (js "children_truncated")); freshnessState := fresh;
        freshnessReason := why; recoveryState := rstate; recoveryReason := rwhy; closedLoop := loop;
        repositoryContext := repository; pendingApprovals := approvals; activeJobs := jobs; uncertainMutations := uncertain;
        retryableReadExecutions := reads; retryablePreDispatchExecutions := pre; blockedPreDispatchExecutions := blocked;
        checkpoint := point; startedAt := started; updatedAt := updated; completedAt := completed |}.

Definition parseHarnessRunBegin (v : value) : result DesktopHarnessRunView :=
  fs ← record_or "begin response" v;
  _ ← record_or "begin response" (field fs (js "snapshot"));
  parseHarnessRunSnapshot (field fs (js "snapshot")).
Definition parseHarnessRunList : value -> result (list DesktopHarnessRunView) :=
  list_of "run list response" "runs" parseHarnessRunSnapshot.

(** [ · ] between the details of an event *)
Definition DOT : jstr := [32; 183; 32]%N.
Definition event_detail (fs : list (jstr * value)) (key : string) : option jstr :=
  match field fs (js key) with
  | VString s => if isBoundedSafeText 128 s then Some (js key ++ js "=" ++ s) else None
  | VNumber n => match safe_integer n with Some z => Some (js key ++ js "=" ++ js_int z) | None => None end
  | VBool b => Some (js key ++ js "=" ++ js (if b then "true" else "false"))
  | _ => None
  end.
Definition summarizeEvent (eventType : jstr) (payload : value) : jstr :=
  match is_record payload with
  | None => eventType
  | Some fs =>
      let suffix := join DOT (omap (event_detail fs) SAFE_EVENT_KEYS) in
      if truthy suffix then eventType ++ DOT ++ suffix else eventType
  end.

Definition parseHarnessEvent (v : value) : result DesktopHarnessEventView :=
  fs ← record_or "event item" v;
  type ← boundedText 64 "event type" (field fs (js "event_type"));
  let payload := is_record (field fs (js "payload")) in
  let shown max key := match payload with Some p => optionalMultilineText max (field p (js key)) | None => None end in
  sq ← nonNegativeInteger "event sequence" (field fs (js "seq"));
  created ← nonNegativeInteger "event created at" (field fs (js "created_at"));
  Ok {| seq := sq; eventType := type; summary := summarizeEvent type (field fs (js "payload")); event_createdAt := created;
        displayInput := shown (8 * 1024) "display_input"; displayOutput := shown (16 * 1024) "display_output" |}.
Definition parseHarnessEvents : value -> result (list DesktopHarnessEventView) :=
  list_of "event response" "events" parseHarnessEvent.

(** ** Codecs of the fields *)

#[export] Typeclasses Opaque boundedText optionalBoundedText nonNegativeInteger optionalNonNegativeInteger optionalInteger
  booleanValue boundedContextQuery optionalMultilineText boundedCommandText optionalOutput sandboxMode policyDecision
  harnessWorkShape proofType contextRoute contextSurface stringArray isBoundedSafeText displayable context_query_ok.

Definition safe_ok (max : Z) (s : jstr) : Prop := isBoundedSafeText max s = true.
#[export] Instance codec_boundedText max label : Codec (boundedText max label) VString (safe_ok max) := codec_checked_string _ _.
#[export] Instance codec_optionalBoundedText max : Lenient (optionalBoundedText max) VString (safe_ok max) := codec_lenient_string _.
#[export] Instance codec_nonNegativeInteger label : Codec (nonNegativeInteger label) VInt count_ok := codec_checked_count _.
#[export] Instance codec_optionalNonNegativeInteger : Lenient optionalNonNegativeInteger VInt count_ok := codec_lenient_count.
#[export] Instance codec_optionalInteger : Lenient optionalInteger VInt integer_ok := codec_lenient_integer.
#[export] Instance codec_booleanValue label : Codec (booleanValue label) VBool (fun _ => True) := codec_checked_bool _.
Definition query_ok (s : jstr) : Prop := context_query_ok s = true.
Definition command_ok (s : jstr) : Prop :=
  (negb (slen (trim s) <? 1) && (utf8_len s <=? 32 * 1024) && negb (has_nul s))%bool = true.
#[export] Instance codec_boundedCommandText : Codec boundedCommandText VString command_ok := codec_checked_string _ _.
#[export] Instance codec_contextSurface : Codec contextSurface VString (fun s => bool_decide (s ∈ CONTEXT_SURFACES) = true) :=
  codec_checked_string _ _.
#[export] Instance codec_stringArray label : Codec (stringArray label) (list_value VString) (Forall (safe_ok 512)) :=
  codec_checked_list _ _ _ _.

(** The name of a value in its table *)
Definition name_in {A} `{EqDecision A} (table : list (string * A)) (a : A) : jstr :=
  match List.find (fun x => bool_decide (x.2 = a)) table with Some x => js x.1 | None => [] end.
#[global] Instance shape_eq_dec : EqDecision HarnessWorkShape. Proof. solve_decision. Defined.
#[global] Instance proof_eq_dec : EqDecision HarnessProofType. Proof. solve_decision. Defined.
#[global] Instance route_eq_dec : EqDecision HarnessContextRoute. Proof. solve_decision. Defined.
#[global] Instance enforcement_eq_dec : EqDecision Enforcement. Proof. solve_decision. Defined.
#[global] Instance phase_eq_dec : EqDecision Phase. Proof. solve_decision. Defined.
#[global] Instance verification_eq_dec : EqDecision VerificationStatus. Proof. solve_decision. Defined.
#[global] Instance recovery_eq_dec : EqDecision RecoveryStatus. Proof. solve_decision. Defined.
Definition name_value {A} `{EqDecision A} (table : list (string * A)) (a : A) : value := VString (name_in table a).
#[export] Instance present_name {A} `{EqDecision A} (table : list (string * A)) : Present (name_value table). Proof. done. Qed.

Ltac name_codec := apply codec_checked_name; intros []; reflexivity.
#[export] Instance codec_sandbox : Codec sandboxMode (name_value sandbox_names) (fun _ => True). Proof. name_codec. Qed.
#[export] Instance codec_policy label : Codec (policyDecision label) (name_value policy_names) (fun _ => True). Proof. name_codec. Qed.
#[export] Instance codec_shape : Codec harnessWorkShape (name_value shape_names) (fun _ => True). Proof. name_codec. Qed.
#[export] Instance codec_proof : Codec proofType (name_value proof_names) (fun _ => True). Proof. name_codec. Qed.
#[export] Instance codec_route : Codec contextRoute (name_value route_names) (fun _ => True). Proof. name_codec. Qed.
#[export] Instance codec_enforcement m : Codec (checked_name enforcement_names m) (name_value enforcement_names) (fun _ => True).
Proof. name_codec. Qed.
#[export] Instance codec_loop_phase m : Codec (checked_name phase_names m) (name_value phase_names) (fun _ => True). Proof. name_codec. Qed.
#[export] Instance codec_verification m : Codec (checked_name verification_names m) (name_value verification_names) (fun _ => True).
Proof. name_codec. Qed.
#[export] Instance codec_recovery m : Codec (checked_name recovery_names m) (name_value recovery_names) (fun _ => True).
Proof. name_codec. Qed.

Definition shown_ok (maxBytes : Z) (s : jstr) : Prop := displayable maxBytes s = true /\ trimmed s /\ s <> [].
Lemma displayable_trim max s : displayable max s = true -> displayable max (trim s) = true.
Proof.
  unfold displayable. intros H. to_prop. pose proof (utf8_len_trim s).
  apply andb_true_intro. split; [apply Z.leb_le; lia|]. apply negb_true_iff.
  match goal with H : existsb _ s = false |- _ => rename H into Hs end.
  destruct (trim_slice s) as (n & m & ->). apply existsb_take. rewrite <- (take_drop n s), existsb_app in Hs.
  by apply orb_false_iff in Hs as [_ ?].
Qed.
#[export] Instance codec_multiline max : Lenient (optionalMultilineText max) VString (shown_ok max).
Proof.
  split; unfold optionalMultilineText.
  - intros [| | | |s| |]; try exact I. destruct (displayable max s) eqn:E; [|exact I]. cbv zeta.
    destruct (truthy (trim s)) eqn:Et; [|exact I]. split_and!; [by apply displayable_trim|apply trim_trimmed|by apply truthy_true].
  - intros [s|] Hs; [|done]. destruct Hs as (Hd & Ht & Hn). simpl. rewrite Hd. cbv zeta. rewrite Ht.
    by rewrite (proj2 (truthy_true s)).
Qed.
Definition output_ok (o : option jstr) : Prop := opt_ok (fun s => utf8_len s <= 300 * 1024) o.
#[export] Instance codec_output : Codec optionalOutput (opt_value VString) output_ok.
Proof.
  split; unfold optionalOutput.
  - intros [| | | |s| |] o; try by intros [= <-]. destruct (300 * 1024 <? utf8_len s) eqn:E; [done|]. intros [= <-]. to_prop. done.
  - intros [s|] Hs; [|done]. cbn [opt_value]. cbn in Hs. by rewrite (proj2 (Z.ltb_ge _ _)).
Qed.

(** ** What the parsers accept, and the daemon's wire forms *)

Record route_ok (r : DesktopHarnessContextRouteView) : Prop := {
  ok_ctx_workspace : safe_ok 128 (ctx_workspace r); ok_query : query_ok (searchQuery r); ok_ctx_reason : safe_ok 512 (ctx_reason r);
  ok_surfaces : Forall (fun s => bool_decide (s ∈ CONTEXT_SURFACES) = true) (surfaces r) }.
Record command_view_ok (c : DesktopHarnessCommandView) : Prop := {
  ok_cmd_workspace : safe_ok 128 (cmd_workspace c); ok_command : command_ok (command c); ok_requestId : safe_ok 128 (requestId c);
  ok_exit : opt_ok integer_ok (exitCode c); ok_stdout : output_ok (stdout c); ok_stderr : output_ok (stderr c) }.
Record child_ok (c : DesktopHarnessChildRunView) : Prop := {
  ok_child_id : safe_ok 128 (child_id c); ok_child_profile : safe_ok 128 (child_profile c);
  ok_child_status : safe_ok 64 (child_status c); ok_child_parent : safe_ok 128 (child_parentRunId c);
  ok_child_started : count_ok (child_startedAt c); ok_child_updated : count_ok (child_updatedAt c);
  ok_child_completed : opt_ok count_ok (child_completedAt c) }.
Record job_ok (j : DesktopHarnessJobView) : Prop := {
  ok_job_id : safe_ok 128 (job_id j); ok_job_run : safe_ok 128 (job_runId j); ok_job_workspace : safe_ok 128 (job_workspace j);
  ok_job_kind : safe_ok 64 (job_kind j); ok_job_task : opt_ok (safe_ok 128) (taskId j); ok_job_status : safe_ok 64 (job_status j);
  ok_job_created : count_ok (job_createdAt j); ok_job_updated : count_ok (job_updatedAt j) }.
Record candidate_ok (c : DesktopHarnessProofCandidate) : Prop := {
  ok_cwd : opt_ok (safe_ok 512) (cwd c); ok_source : safe_ok 512 (candidate_source c);
  ok_candidate_command : safe_ok 1024 (candidate_command c); ok_candidate_reason : safe_ok 1024 (candidate_reason c) }.
Record repository_ok (r : DesktopHarnessRepositoryContext) : Prop := {
  ok_entrypoints : Forall (safe_ok 512) (entrypoints r); ok_guidance : Forall (safe_ok 512) (guidance r);
  ok_plans : Forall (safe_ok 512) (activePlans r); ok_owners : Forall (safe_ok 512) (validationOwners r);
  ok_candidates : Forall candidate_ok (proofCandidates r) }.
Record hint_ok (h : DesktopHarnessLearningHint) : Prop := {
  ok_hint_tool : safe_ok 128 (hint_tool h); ok_hint_category : safe_ok 64 (errorCategory h); ok_failures : count_ok (failures h);
  ok_recoveries : count_ok (recoveries h); ok_confirmations : count_ok (confirmations h); ok_suggestion : safe_ok 512 (suggestion h) }.
Record loop_ok (l : DesktopHarnessClosedLoopView) : Prop := {
  ok_scope : opt_ok (safe_ok 512) (workScope l); ok_reads : count_ok (contextReads l); ok_executions : count_ok (executions l);
  ok_proof_source : opt_ok (safe_ok 512) (selectedProofSource l); ok_proof_command : opt_ok (safe_ok 1024) (selectedProofCommand l);
  ok_failure_count : count_ok (failureCount l); ok_learning_count : count_ok (learningCount l);
  ok_failure_tool : opt_ok (safe_ok 128) (lastFailureTool l); ok_failure_category : opt_ok (safe_ok 64) (lastFailureCategory l);
  ok_hints : Forall hint_ok (learningHints l) }.
Record checkpoint_ok (c : DesktopHarnessCheckpointView) : Prop := {
  ok_checkpoint_id : safe_ok 128 (checkpoint_id c); ok_event_seq : count_ok (eventSeq c);
  ok_checkpoint_state : safe_ok 64 (checkpoint_state c); ok_checkpoint_reason : safe_ok 128 (checkpoint_reason c);
  ok_checkpoint_created : count_ok (checkpoint_createdAt c) }.
(** With full access nothing is executed without asking. *)
Record profile_ok (p : ProfileView) : Prop := {
  ok_description : safe_ok 512 (description p);
  ok_full_access : profile_sandbox p = danger_full_access -> policy_exec (profile_policies p) <> allow }.
Record run_ok (r : DesktopHarnessRunView) : Prop := {
  ok_run_id : safe_ok 128 (run_id r); ok_run_workspace : safe_ok 128 (run_workspace r); ok_run_profile : safe_ok 128 (run_profile r);
  ok_capabilities : profile_ok (run_capabilities r); ok_run_status : safe_ok 64 (run_status r);
  ok_parent : opt_ok (safe_ok 128) (parentRunId r); ok_children : Forall child_ok (children r);
  ok_freshness : safe_ok 64 (freshnessState r); ok_freshness_reason : opt_ok (safe_ok 256) (freshnessReason r);
  ok_recovery_state : safe_ok 64 (recoveryState r); ok_recovery_reason : safe_ok 128 (recoveryReason r);
  ok_loop : loop_ok (closedLoop r); ok_repository : repository_ok (repositoryContext r);
  ok_approvals : count_ok (pendingApprovals r); ok_jobs : count_ok (activeJobs r); ok_uncertain : count_ok (uncertainMutations r);
  ok_retry_reads : count_ok (retryableReadExecutions r); ok_retry_pre : count_ok (retryablePreDispatchExecutions r);
  ok_blocked : count_ok (blockedPreDispatchExecutions r); ok_checkpoint : opt_ok checkpoint_ok (checkpoint r);
  ok_started : count_ok (startedAt r); ok_updated : count_ok (updatedAt r); ok_completed : opt_ok count_ok (completedAt r) }.

Definition context_route_value (r : DesktopHarnessContextRouteView) : value := VObject
  [(js "workspace", VString (ctx_workspace r)); (js "retrieve", VBool (retrieve r)); (js "route", name_value route_names (route r));
   (js "search_query", VString (searchQuery r)); (js "reason", VString (ctx_reason r));
   (js "surfaces", list_value VString (surfaces r))].
Definition command_value (c : DesktopHarnessCommandView) : value := VObject
  [(js "status", VString (js "completed")); (js "workspace", VString (cmd_workspace c)); (js "command", VString (command c));
   (js "request_id", VString (requestId c)); (js "sandbox", opt_value (name_value sandbox_names) (cmd_sandbox c));
   (js "sandbox_enforcement", opt_value (name_value enforcement_names) (sandboxEnforcement c));
   (js "success", opt_value VBool (success c)); (js "exit_code", opt_value VInt (exitCode c));
   (js "timed_out", opt_value VBool (timedOut c)); (js "stdout", opt_value VString (stdout c));
   (js "stderr", opt_value VString (stderr c)); (js "truncated", opt_value VBool (cmd_truncated c))].
Definition child_value (c : DesktopHarnessChildRunView) : value := VObject
  [(js "id", VString (child_id c)); (js "profile", VString (child_profile c)); (js "status", VString (child_status c));
   (js "parent_run_id", VString (child_parentRunId c)); (js "started_at", VInt (child_startedAt c));
   (js "updated_at", VInt (child_updatedAt c)); (js "completed_at", opt_value VInt (child_completedAt c))].
Definition job_value (j : DesktopHarnessJobView) : value := VObject
  [(js "id", VString (job_id j)); (js "run_id", VString (job_runId j)); (js "workspace", VString (job_workspace j));
   (js "kind", VString (job_kind j)); (js "task_id", opt_value VString (taskId j)); (js "status", VString (job_status j));
   (js "created_at", VInt (job_createdAt j)); (js "updated_at", VInt (job_updatedAt j))].
Definition candidate_value (c : DesktopHarnessProofCandidate) : value := VObject
  [(js "proof_type", name_value proof_names (candidate_type c)); (js "source", VString (candidate_source c));
   (js "cwd", opt_value VString (cwd c)); (js "command", VString (candidate_command c));
   (js "reason", VString (candidate_reason c))].
Definition repository_value (r : DesktopHarnessRepositoryContext) : value := VObject
  [(js "entrypoints", list_value VString (entrypoints r)); (js "guidance", list_value VString (guidance r));
   (js "active_plans", list_value VString (activePlans r)); (js "validation_owners", list_value VString (validationOwners r));
   (js "proof_candidates", list_value candidate_value (proofCandidates r)); (js "truncated", VBool (context_truncated r))].
Definition hint_value (h : DesktopHarnessLearningHint) : value := VObject
  [(js "tool", VString (hint_tool h)); (js "error_category", VString (errorCategory h)); (js "failures", VInt (failures h));
   (js "recoveries", VInt (recoveries h)); (js "confirmations", VInt (confirmations h));
   (js "state", VString (js match hint_state h with candidate => "candidate" | fresh_run_validated => "fresh-run-validated" end));
   (js "suggestion", VString (suggestion h))].
Definition loop_value (l : DesktopHarnessClosedLoopView) : value := VObject
  [(js "phase", name_value phase_names (phase l)); (js "work_shape", name_value shape_names (workShape l));
   (js "work_scope", opt_value VString (workScope l)); (js "context_reads", VInt (contextReads l));
   (js "executions", VInt (executions l)); (js "verification_required", VBool (verificationRequired l));
   (js "verification_status", name_value verification_names (verificationStatus l));
   (js "recovery_status", name_value recovery_names (recoveryStatus l));
   (js "selected_proof_type", opt_value (name_value proof_names) (selectedProofType l));
   (js "selected_proof_source", opt_value VString (selectedProofSource l));
   (js "selected_proof_command", opt_value VString (selectedProofCommand l));
   (js "satisfied_proofs", list_value (name_value proof_names) (satisfiedProofs l));
   (js "failure_count", VInt (failureCount l)); (js "learning_count", VInt (learningCount l));
   (js "last_failure_tool", opt_value VString (lastFailureTool l));
   (js "last_failure_category", opt_value VString (lastFailureCategory l));
   (js "learning_hints", list_value hint_value (learningHints l))].
Definition checkpoint_value (c : DesktopHarnessCheckpointView) : value := VObject
  [(js "id", VString (checkpoint_id c)); (js "event_seq", VInt (eventSeq c)); (js "state", VString (checkpoint_state c));
   (js "reason", VString (checkpoint_reason c)); (js "created_at", VInt (checkpoint_createdAt c))].
Definition profile_value (p : ProfileView) : value :=
  let d f := name_value policy_names (f (profile_policies p)) in
  VObject [(js "profile", VObject
    [(js "description", VString (description p)); (js "sandbox", name_value sandbox_names (profile_sandbox p));
     (js "policies", VObject
       [(js "read", d policy_read); (js "write", d policy_write); (js "exec", d policy_exec); (js "git", d policy_git);
        (js "provider", d policy_provider); (js "job", d policy_job)])])].
Definition run_value (r : DesktopHarnessRunView) : value := VObject
  [(js "run", VObject
     [(js "id", VString (run_id r));
      (js "principal_id", match actor r with external_agent => VString (js "oauth:agent") | operator => VNull end);
      (js "workspace", VString (run_workspace r)); (js "profile", VString (run_profile r));
      (js "capability_snapshot", profile_value (run_capabilities r));
      (js "origin", VString (js match origin r with automatic => "automatic" | manual => "manual" end));
      (js "status", VString (run_status r)); (js "parent_run_id", opt_value VString (parentRunId r));
      (js "started_at", VInt (startedAt r)); (js "updated_at", VInt (updatedAt r));
      (js "completed_at", opt_value VInt (completedAt r))]);
   (js "freshness", VObject [(js "state", VString (freshnessState r)); (js "reason", opt_value VString (freshnessReason r))]);
   (js "recovery", VObject
     [(js "state", VString (recoveryState r)); (js "reason", VString (recoveryReason r));
      (js "pending_approvals", VInt (pendingApprovals r)); (js "active_jobs", VInt (activeJobs r));
      (js "uncertain_mutations", VInt (uncertainMutations r)); (js "retryable_read_executions", VInt (retryableReadExecutions r));
      (js "retryable_pre_dispatch_executions", VInt (retryablePreDispatchExecutions r));
      (js "blocked_pre_dispatch_executions", VInt (blockedPreDispatchExecutions r));
      (js "checkpoint", opt_value checkpoint_value (checkpoint r))]);
   (js "closed_loop", loop_value (closedLoop r)); (js "repository_context", repository_value (repositoryContext r));
   (js "children", list_value child_value (children r)); (js "children_truncated", VBool (childrenTruncated r))].
#[export] Instance present_checkpoint : Present checkpoint_value. Proof. done. Qed.

(** Split on the elements of a field that must be an array. *)
Ltac inv_array := match goal with
  | H : match field ?fs ?k with VArray _ => _ | _ => _ end = Ok _ |- _ => destruct (field fs k); try discriminate H; cbn beta iota in H end.
Ltac shape := constructor; first
  [ assumption | exact (lenient_sound (f := optionalBoundedText _) _) | exact (lenient_sound (f := optionalNonNegativeInteger) _)
  | exact (lenient_sound (f := optionalInteger) _) ].
Ltac start f g := unfold f, g; cbn [record_or is_record mbind result_bind].

Lemma is_true_bool b : is_true (VBool b) = b. Proof. by destruct b. Qed.

Lemma contextSearchQuery_ok fallback v q : contextSearchQuery fallback v = Ok q -> query_ok q.
Proof.
  assert (H : forall v q, boundedContextQuery v = Ok q -> query_ok q) by (intros v' q'; apply (codec_checked_string context_query_ok)).
  unfold contextSearchQuery. destruct (boundedContextQuery v) eqn:E; [intros [= <-]; by apply H in E|].
  destruct fallback; [apply H|done].
Qed.
Lemma contextSearchQuery_read fallback q : query_ok q -> contextSearchQuery fallback (VString q) = Ok q.
Proof. intros Hq. unfold contextSearchQuery, boundedContextQuery. by rewrite (codec_complete (f := checked_string _ _) q Hq). Qed.

#[export] Instance codec_context_route fallback : Codec (parseHarnessContextRoute fallback) context_route_value route_ok.
Proof.
  split.
  - intros v r H. unfold parseHarnessContextRoute in H. inv_ok. inv_array. inv_ok.
    match goal with H : contextSearchQuery _ _ = _ |- _ => apply contextSearchQuery_ok in H end.
    match goal with H : map_result _ _ = _ |- _ => apply (codec_map_result_sound _ VString _) in H end. decoded. constructor; assumption.
  - intros r []. start parseHarnessContextRoute context_route_value. decode. unfold list_value at 1. decode.
    rewrite (contextSearchQuery_read fallback) by done. decode.
    rewrite (codec_map_result contextSurface VString _) by eassumption. by destruct r.
Qed.
#[export] Instance codec_command : Codec parseHarnessCommand command_value command_view_ok.
Proof.
  split.
  - intros v c H. unfold parseHarnessCommand in H. inv_ok. destruct (negb _); [done|]. inv_ok. decoded. shape.
  - intros c []. start parseHarnessCommand command_value. decode. cbn [is_string negb]. rewrite bool_decide_eq_true_2 by done.
    cbn [negb]. decode. by destruct c.
Qed.
#[export] Instance codec_child : Codec parseChild child_value child_ok.
Proof.
  split.
  - intros v c H. unfold parseChild in H. inv_ok. decoded. shape.
  - intros c []. start parseChild child_value. decode. by destruct c.
Qed.
#[export] Instance codec_job : Codec parseHarnessJob job_value job_ok.
Proof.
  split.
  - intros v c H. unfold parseHarnessJob in H. inv_ok. decoded. shape.
  - intros c []. start parseHarnessJob job_value. decode. by destruct c.
Qed.
#[export] Instance codec_candidate : Codec parseProofCandidate candidate_value candidate_ok.
Proof.
  split.
  - intros v c H. unfold parseProofCandidate in H. inv_ok. decoded. shape.
  - intros c []. start parseProofCandidate candidate_value. decode. by destruct c.
Qed.
#[export] Instance codec_hint : Codec parseLearningHint hint_value hint_ok.
Proof.
  split.
  - intros v c H. unfold parseLearningHint in H. inv_ok. decoded. shape.
  - intros c []. start parseLearningHint hint_value. decode. by destruct c as [????? [] ?].
Qed.
#[export] Instance codec_checkpoint : Codec parseCheckpoint checkpoint_value checkpoint_ok.
Proof.
  split.
  - intros v c H. unfold parseCheckpoint in H. inv_ok. decoded. shape.
  - intros c []. start parseCheckpoint checkpoint_value. decode. by destruct c.
Qed.
#[export] Typeclasses Opaque parseChild parseHarnessJob parseProofCandidate parseLearningHint parseCheckpoint.
#[export] Instance codec_repository : Codec parseRepositoryContext repository_value repository_ok.
Proof.
  split.
  - intros v c H. unfold parseRepositoryContext in H. inv_ok. inv_array. inv_ok.
    match goal with H : map_result _ _ = _ |- _ => apply (codec_map_result_sound _ candidate_value _) in H end. decoded. constructor; assumption.
  - intros c []. start parseRepositoryContext repository_value. decode. unfold list_value at 1. decode.
    rewrite (codec_map_result parseProofCandidate candidate_value _) by eassumption. decode. rewrite is_true_bool. by destruct c.
Qed.
#[export] Instance codec_loop : Codec parseClosedLoop loop_value loop_ok.
Proof.
  split.
  - intros v c H. unfold parseClosedLoop in H. inv_ok. inv_array. inv_ok.
    match goal with H : map_result _ _ = _ |- _ => apply (codec_map_result_sound _ hint_value _) in H end. decoded. shape.
  - intros c []. start parseClosedLoop loop_value. decode. unfold list_value at 1. decode.
    rewrite (codec_map_result parseLearningHint hint_value _) by eassumption. decode. rewrite is_true_bool. by destruct c.
Qed.
#[export] Instance codec_profile : Codec parseProfile profile_value profile_ok.
Proof.
  split.
  - intros v c H. unfold parseProfile in H. inv_ok. decoded. constructor; [assumption|]. cbn. intros ->.
    rewrite bool_decide_eq_true_2 by done. cbn. by case_bool_decide; subst.
  - intros c [Hd Hf]. start parseProfile profile_value. decode. cbn [record_or is_record mbind result_bind]. decode.
    cbn [record_or is_record mbind result_bind]. decode. destruct c as [d sb [rd wr ex git prov job]]. cbn in *.
    destruct (bool_decide (sb = danger_full_access)) eqn:E; [|done]. to_prop. destruct ex; [by destruct (Hf E)|done..].
Qed.
#[export] Typeclasses Opaque parseClosedLoop parseProfile parseRepositoryContext.

Lemma actor_read a : actor_of match a with external_agent => VString (js "oauth:agent") | operator => VNull end = a.
Proof. by destruct a. Qed.
Lemma origin_read o : origin_of (VString (js match o with automatic => "automatic" | manual => "manual" end)) = o.
Proof. by destruct o. Qed.
#[export] Instance codec_children : Codec parseChildren (list_value child_value) (Forall child_ok) := codec_checked_list _ _ _ _.
#[export] Typeclasses Opaque parseChildren.

#[export] Instance codec_run : Codec parseHarnessRunSnapshot run_value run_ok.
Proof.
  split.
  - intros v c H. unfold parseHarnessRunSnapshot in H. inv_ok.
    match goal with H : (if is_nullish ?x then Ok [] else _) = Ok ?l |- _ => assert (Forall child_ok l)
      by (destruct (is_nullish x); [by inv_ok; constructor|by apply (codec_sound (f := parseChildren)) in H]) end.
    decoded. shape.
  - intros c []. start parseHarnessRunSnapshot run_value. decode. cbn [record_or is_record mbind result_bind loop_value repository_value].
    repeat progress (decode; cbn [record_or is_record mbind result_bind]).
    cbn [is_nullish list_value]. rewrite (codec_bind parseChildren (list_value child_value) _) by assumption. decode.
    rewrite is_true_bool, actor_read, origin_read. by destruct c.
Qed.
End HarnessParser.
