(* ===== verification/HarnessEvents.v ===== *)
(** * What the views of harness answers promise (harness-parser.ts)

    The properties of the parsers of [HarnessParser]: which runs they accept,
    and what of an event's payload its view can show. *)

From stdpp Require Import pretty.
From S2P Require Import Prelude JsValue Utf8 Validate Codec HarnessParser.
Import HarnessParser.

Module HarnessEvents.

(** ** The summary of an event *)

Definition digit_or_dash (u : N) : bool := (u =? 45)%N || ((48 <=? u) && (u <=? 57))%N.
Lemma js_cons a s : js (String a s) = Ascii.N_of_ascii a :: js s. Proof. done. Qed.
Lemma js_app s t : js (s +:+ t) = js s ++ js t.
Proof. induction s as [|a s IH]; [done|]. change (String a s +:+ t) with (String a (s +:+ t)). by rewrite !js_cons, IH. Qed.

Lemma pretty_digits n : forall d x s, (x < 10 ^ N.of_nat d)%N -> (x < n)%N ->
  exists t, js (pretty_N_go x s) = t ++ js s /\ forallb digit_or_dash t = true /\ (length t <= d)%nat.
Proof.
  induction n as [|n IH] using N.peano_ind; intros d x s Hd Hx; [lia|].
  destruct (decide (0 < x)%N) as [Hp|Hp].
  - rewrite pretty_N_go_step by done. destruct d as [|d]; [simpl in Hd; lia|].
    destruct (IH d (x / 10)%N (String (pretty_N_char (x mod 10)) s)) as (t & -> & Ht & Hl).
    + apply N.Div0.div_lt_upper_bound. rewrite <- N.pow_succ_r'. by rewrite <- Nat2N.inj_succ.
    + pose proof (N.div_lt x 10). lia.
    + exists (t ++ [Ascii.N_of_ascii (pretty_N_char (x mod 10))]). rewrite js_cons, <- app_assoc, forallb_app, length_app. simpl.
      split_and!; [done| |lia]. rewrite Ht. unfold pretty_N_char. by repeat case_match.
  - assert (x = 0)%N as -> by lia. rewrite pretty_N_go_0. exists []. split_and!; [done|done|simpl; lia].
Qed.
Lemma js_int_digits z : integer_ok z -> forallb digit_or_dash (js_int z) = true /\ (length (js_int z) <= 17)%nat.
Proof.
  intros Hz. assert (H : forall n, (n < 10 ^ 16)%N -> forallb digit_or_dash (js (pretty n)) = true /\ (length (js (pretty n)) <= 16)%nat).
  { intros n Hn. unfold pretty, pretty_N. case_decide; [by split; [|simpl; lia]|].
    destruct (pretty_digits (N.succ n) 16 n EmptyString) as (t & -> & ? & ?); [done|lia|]. rewrite app_nil_r. by split. }
  assert (Hp : forall p, Zpos p <= MAX_SAFE_INTEGER -> (Npos p < 10 ^ 16)%N).
  { intros p Hp. apply N2Z.inj_lt. change (Z.of_N (10 ^ 16)) with 10000000000000000. change MAX_SAFE_INTEGER with 9007199254740991 in Hp.
    change (Z.of_N (Npos p)) with (Zpos p). lia. }
  unfold js_int. unfold integer_ok, MIN_SAFE_INTEGER in Hz. destruct z as [|p|p].
  - by split; [|simpl; lia].
  - destruct (H (Npos p)) as [? Hl]; [apply Hp; lia|]. split; [done|]. etransitivity; [exact Hl|lia].
  - destruct (H (Npos p)); [apply Hp; lia|]. change (pretty (Zneg p)) with ("-" +:+ pretty (Npos p)). rewrite js_app, forallb_app, length_app.
    split; [by apply andb_true_intro|]. apply le_n_S. exact (proj2 (H (Npos p) (Hp p ltac:(lia)))).
Qed.

Lemma has_control_app a b : has_control (a ++ b) = has_control a || has_control b.
Proof. apply existsb_app. Qed.
Lemma digits_no_control s : forallb digit_or_dash s = true -> has_control s = false.
Proof.
  induction s as [|u s IH]; [done|]. cbn. intros [Hu Hs]%andb_true_iff. unfold has_control in IH. rewrite IH by done.
  unfold digit_or_dash, is_control in *. rewrite orb_false_r. apply orb_false_iff. split.
  - apply N.leb_gt. apply orb_true_iff in Hu as [->%N.eqb_eq|[H1%N.leb_le _]%andb_true_iff]; lia.
  - apply N.eqb_neq. intros ->. done.
Qed.

(** What one key adds to a summary *)
Lemma event_detail_ok fs : forall key d, (slen (js key) <= 21 /\ has_control (js key) = false) -> event_detail fs key = Some d ->
  has_control d = false /\ slen d <= 21 + 1 + 128.
Proof.
  intros key d [Hk1 Hk2] H. unfold event_detail in H.
  assert (Hd : forall s, has_control s = false -> slen s <= 128 -> has_control (js key ++ js "=" ++ s) = false /\ slen (js key ++ js "=" ++ s) <= 150).
  { intros s H1 H2. rewrite !has_control_app, Hk2, H1. split; [done|]. unfold slen in *. rewrite !length_app. change (length (js "=")) with 1%nat. lia. }
  destruct (field fs (js key)) as [| |b|n|s| |]; try done.
  - injection H as <-. by destruct b; apply Hd.
  - destruct (safe_integer n) as [z|] eqn:E; [|done]. injection H as <-. apply safe_integer_bounds in E as [_ Hz].
    destruct (js_int_digits z Hz) as [Hc Hl]. apply Hd; [by apply digits_no_control|unfold slen; lia].
  - destruct (isBoundedSafeText 128 s) eqn:E; [|done]. injection H as <-. unfold isBoundedSafeText in E. to_prop. by apply Hd.
Qed.

Lemma join_ok sep n l : has_control sep = false -> Forall (fun d => has_control d = false /\ slen d <= n) l -> 0 <= n ->
  has_control (join sep l) = false /\ slen (join sep l) <= Z.of_nat (length l) * (n + slen sep).
Proof.
  intros Hs Hl Hn. assert (0 <= slen sep) by (unfold slen; lia). induction l as [|d l IH]; [by split|].
  apply Forall_cons in Hl as [[Hd1 Hd2] Hl]. destruct (IH Hl) as [IH1 IH2]. destruct l as [|d' l].
  { cbn [join length]. split; [done|]. change (Z.of_nat 1) with 1. lia. }
  change (join sep (d :: d' :: l)) with (d ++ sep ++ join sep (d' :: l)). rewrite !has_control_app, Hd1, Hs, IH1.
  split; [done|].
  cbn [length] in *. rewrite (Nat2Z.inj_succ (S (length l))), Z.mul_succ_l. unfold slen in *. rewrite !length_app. lia.
Qed.

Lemma safe_keys_ok :
  Forall (fun key => slen (js key) <= 21 /\ has_control (js key) = false) SAFE_EVENT_KEYS /\ length SAFE_EVENT_KEYS = 30%nat.
Proof. split; [|done]. unfold SAFE_EVENT_KEYS. repeat constructor; try (apply Z.leb_le; vm_compute; reflexivity). Qed.

Lemma summarizeEvent_ok type payload : has_control type = false ->
  has_control (summarizeEvent type payload) = false /\ slen (summarizeEvent type payload) <= slen type + 3 + 30 * 153.
Proof.
  intros Ht. unfold summarizeEvent. destruct (is_record payload) as [fs|]; [|split; [done|lia]]. cbv zeta.
  pose proof safe_keys_ok as Hkeys. revert Hkeys. generalize SAFE_EVENT_KEYS as keys. intros keys [Hs Hlen].
  destruct (join_ok DOT 150 (omap (event_detail fs) keys)) as [H1 H2]; [done| |lia|].
  { apply Forall_forall. intros d (key & Hk & Hd)%list_elem_of_omap. rewrite Forall_forall in Hs.
    by apply (event_detail_ok fs key d); [apply Hs|]. }
  pose proof (omap_length (event_detail fs) keys) as Hl. rewrite Hlen in Hl.
  change (slen DOT) with 3 in H2. destruct (truthy _); [|split; [done|lia]]. rewrite !has_control_app, Ht, H1. split; [done|].
  unfold slen in *. rewrite !length_app. change (length DOT) with 3%nat. lia.
Qed.

(** ** Properties *)

(** C8: the run parser accepts exactly the well-formed runs, children,
    checkpoint, closed loop and repository context included: what it returns
    has all its texts within their limits and without control characters, its
    counts non-negative safe integers, and never shows command execution as
    allowed without asking in a sandbox with full access; and every such run is
    read back unchanged from its wire form. *)
Theorem parseHarnessRunSnapshot_exact r :
  (forall v, parseHarnessRunSnapshot v = Ok r -> run_ok r) /\
  (run_ok r -> parseHarnessRunSnapshot (run_value r) = Ok r).
Proof. split; [intros v; apply codec_sound | apply codec_complete]. Qed.

(** The fields of an event from which its view is made *)
Definition agree_on (keys : list string) (a b : list (jstr * value)) : Prop := forall key, key ∈ keys -> field a (js key) = field b (js key).

Lemma summarizeEvent_agree type a b : agree_on SAFE_EVENT_KEYS a b ->
  summarizeEvent type (VObject a) = summarizeEvent type (VObject b).
Proof.
  intros Hab. assert (H : forall keys, agree_on keys a b -> omap (event_detail a) keys = omap (event_detail b) keys).
  { clear. intros keys H. induction keys as [|key l IH]; [done|]. csimpl.
    assert (event_detail a key = event_detail b key) as -> by (unfold event_detail; rewrite (H key); [done|by left]).
    rewrite IH; [done|]. intros k Hk. apply H. by right. }
  unfold summarizeEvent. cbn [is_record]. by rewrite (H _ Hab).
Qed.

(** C9: the view of an event shows nothing of its payload but the thirty safe
    fields, as far as they are short texts, integers or flags, and the two
    display texts: two events whose payloads agree there have the same view.
    The summary is one line without control characters, of bounded length, and
    the display texts are trimmed, not empty, free of control characters other
    than tabs and line breaks, and within 8 KiB and 16 KiB. *)
Theorem event_view_is_safe fs p e :
  parseHarnessEvent (VObject ((js "payload", VObject p) :: fs)) = Ok e ->
  has_control (summary e) = false /\ slen (summary e) <= 64 + 3 + 30 * 153 /\
  opt_ok (shown_ok (8 * 1024)) (displayInput e) /\ opt_ok (shown_ok (16 * 1024)) (displayOutput e) /\
  forall p', agree_on (SAFE_EVENT_KEYS ++ ["display_input"; "display_output"]%string) p p' ->
    parseHarnessEvent (VObject ((js "payload", VObject p') :: fs)) = Ok e.
Proof.
  unfold parseHarnessEvent. cbn [record_or is_record mbind result_bind]. read_fields. cbn [is_record]. cbv zeta. intros H. inv_ok.
  match goal with H : boundedText 64 _ _ = Ok ?x |- _ => rename x into type, H into Htype end.
  pose proof (codec_sound (f := boundedText 64 _) _ _ Htype) as Ht. unfold safe_ok, isBoundedSafeText in Ht. to_prop.
  cbn [summary displayInput displayOutput]. destruct (summarizeEvent_ok type (VObject p)) as [Hs Hl]; [done|].
  split_and!; [done|lia|exact (lenient_sound (f := optionalMultilineText _) _)..|]. intros p' Hp. read_fields. cbn [is_record].
  rewrite Htype. cbn [mbind result_bind].
  repeat match goal with H : nonNegativeInteger _ _ = Ok _ |- _ => rewrite H; clear H; cbn [mbind result_bind] end.
  assert (Hd : forall key, key ∈ ["display_input"; "display_output"]%string -> field p (js key) = field p' (js key)).
  { intros key Hk. apply Hp, elem_of_app. by right. }
  rewrite <- !Hd by (rewrite !elem_of_cons; auto). rewrite <- (summarizeEvent_agree type p p'); [done|].
  intros key Hk. apply Hp, elem_of_app. by left.
Qed.

Definition sample_run : DesktopHarnessRunView := {|
  run_id := js "run-1"; actor := external_agent; run_workspace := js "api"; run_profile := js "interactive-local";
  run_capabilities := {| description := js "Interactive"; profile_sandbox := danger_full_access;
    profile_policies := {| policy_read := allow; policy_write := ask; policy_exec := ask; policy_git := ask; policy_provider := deny;
                           policy_job := ask |} |};
  origin := manual; run_status := js "running"; parentRunId := None; children := []; childrenTruncated := false;
  freshnessState := js "current"; freshnessReason := None; recoveryState := js "clean"; recoveryReason := js "none";
  closedLoop := {| phase := verify; workShape := bounded; workScope := Some (js "src"); contextReads := 2; executions := 1;
    verificationRequired := true; verificationStatus := verification_pending; recoveryStatus := recovery_idle;
    selectedProofType := Some focused_test; selectedProofSource := None; selectedProofCommand := Some (js "npm test");
    satisfiedProofs := [integration]; failureCount := 0; learningCount := 0; lastFailureTool := None; lastFailureCategory := None;
    learningHints := [] |};
  repositoryContext := {| entrypoints := [js "src/main.ts"]; guidance := []; activePlans := []; validationOwners := [];
    proofCandidates := []; context_truncated := false |};
  pendingApprovals := 0; activeJobs := 0; uncertainMutations := 0; retryableReadExecutions := 0;
  retryablePreDispatchExecutions := 0; blockedPreDispatchExecutions := 0; checkpoint := None; startedAt := 1; updatedAt := 2;
  completedAt := None |}.

Lemma parseHarnessRunSnapshot_exact_witness : run_ok sample_run /\ parseHarnessRunSnapshot (run_value sample_run) = Ok sample_run.
Proof.
  assert (H : run_ok sample_run).
  { apply (proj1 (parseHarnessRunSnapshot_exact sample_run) (run_value sample_run)). vm_compute. reflexivity. }
  split; [exact H|]. by apply (proj2 (parseHarnessRunSnapshot_exact sample_run)).
Defined.

Definition sample_payload (secret : string) : list (jstr * value) :=
  [(js "tool", VString (js "exec")); (js "authorization", VString (js secret)); (js "display_output", VString (js " ok "))].
Definition sample_event : list (jstr * value) :=
  [(js "event_type", VString (js "tool.completed")); (js "seq", VInt 3); (js "created_at", VInt 9)].
Lemma event_view_is_safe_witness :
  parseHarnessEvent (VObject ((js "payload", VObject (sample_payload "one")) :: sample_event)) =
  parseHarnessEvent (VObject ((js "payload", VObject (sample_payload "two")) :: sample_event)).
Proof.
  destruct (event_view_is_safe sample_event (sample_payload "one") {|
    seq := 3; eventType := js "tool.completed"; summary := js "tool.completed" ++ DOT ++ js "tool=exec"; event_createdAt := 9;
    displayInput := None; displayOutput := Some (js "ok") |}) as (_ & _ & _ & _ & H).
  - vm_compute. reflexivity.
  - rewrite (H (sample_payload "two")); [vm_compute; reflexivity|].
    intros key Hk. apply list_elem_of_In in Hk. simpl in Hk. repeat destruct Hk as [<-|Hk]; vm_compute; done.
Defined.
End HarnessEvents.
