(* ===== verification/TurnPreparation.v ===== *)
(** * Prepared turns (task-manager.ts)

    The table of prepared turns: what the skill preflight found for a prompt,
    kept until the turn of that prompt claims it. Preparing and claiming each
    touch the table in one go, so that the calls in flight interleave as a
    sequence of operations on it. *)

From S2P Require Import Prelude JsValue JsMap.

Module TurnPreparation.

Definition CODEX_TURN_PREPARATION_TTL_MS : Z := 5 * 60000.
Definition MAX_CODEX_TURN_PREPARATIONS : nat := 64.

Record SkillActivity := {
  npmSearches : list jstr; npmInstalled : list jstr; pluginAutoInstalled : list jstr; selectedSkillKeys : list jstr }.
Record Preparation := {
  p_runId : jstr; p_workspace : jstr; promptHash : jstr; skillKeys : list jstr; skillActivity : SkillActivity; createdAt : Z }.

(** A [Map], in insertion order *)
Definition Table := list (jstr * Preparation).

(** [while (size >= 64) { oldest = keys().next().value; if (!oldest) break; delete(oldest) }] *)
Fixpoint drop_oldest (fuel : nat) (t : Table) : Table :=
  match fuel with
  | O => t
  | S fuel' =>
      if (MAX_CODEX_TURN_PREPARATIONS <=? length t)%nat then
        match t with
        | (oldest, _) :: _ => if truthy oldest then drop_oldest fuel' (map_delete t oldest) else t
        | [] => t
        end
      else t
  end.
Definition expired (now : Z) (p : Preparation) : bool := CODEX_TURN_PREPARATION_TTL_MS <? now - createdAt p.
Definition prunePreparedCodexTurns (now : Z) (t : Table) : Table :=
  let t := filter (fun kv => expired now kv.2 = false) t in drop_oldest (length t) t.

(** The end of [prepareHarnessCodexTurn] *)
Definition prepare (now : Z) (id : jstr) (p : Preparation) (t : Table) : Table :=
  map_set (prunePreparedCodexTurns now t) id p.

Definition consumePreparedCodexTurn (sha256 : jstr -> jstr) (now : Z) (runId prompt preparationId workspace : jstr) (t : Table) :
    result Preparation * Table :=
  let t := prunePreparedCodexTurns now t in
  match map_get t preparationId with
  | None => (fail "Codex turn skill preparation is missing or expired", t)
  | Some p =>
      let t := map_delete t preparationId in
      if negb (bool_decide (p_runId p = runId)) || negb (bool_decide (p_workspace p = workspace))
         || negb (bool_decide (promptHash p = sha256 prompt))
      then (fail "Codex turn skill preparation no longer matches this prompt", t)
      else (Ok p, t)
  end.

Inductive op :=
| Prepare (now : Z) (id : jstr) (p : Preparation)
| Consume (now : Z) (runId prompt id workspace : jstr).
Definition step (sha256 : jstr -> jstr) (t : Table) (o : op) : Table :=
  match o with
  | Prepare now id p => prepare now id p t
  | Consume now runId prompt id workspace => (consumePreparedCodexTurn sha256 now runId prompt id workspace t).2
  end.
Definition steps (sha256 : jstr -> jstr) (ops : list op) : Table := fold_left (step sha256) ops [].
Definition prepared_id (o : op) : option jstr := match o with Prepare _ id _ => Some id | _ => None end.

(** ** The table *)

Lemma drop_oldest_sub fuel t : sublist (drop_oldest fuel t) t.
Proof.
  revert t. induction fuel as [|fuel IH]; intros t; cbn [drop_oldest]; [done|]. destruct (_ <=? _)%nat; [|done].
  destruct t as [|[k p] t]; [done|]. destruct (truthy k); [|done].
  etransitivity; [apply IH|]. unfold map_delete. apply sublist_filter.
Qed.
Lemma prune_sub now t : sublist (prunePreparedCodexTurns now t) t.
Proof. unfold prunePreparedCodexTurns. etransitivity; [apply drop_oldest_sub|apply sublist_filter]. Qed.
Lemma prune_elem now t kv : kv ∈ prunePreparedCodexTurns now t -> kv ∈ t /\ expired now kv.2 = false.
Proof.
  intros H. unfold prunePreparedCodexTurns in H. eapply elem_of_sublist in H; [|apply drop_oldest_sub].
  by apply list_elem_of_filter in H as [? ?].
Qed.

(** With no empty id, pruning leaves room. *)
Lemma drop_oldest_length fuel t : (length t <= fuel)%nat -> Forall (fun kv => kv.1 <> []) t ->
  (length (drop_oldest fuel t) < MAX_CODEX_TURN_PREPARATIONS)%nat.
Proof.
  revert t. induction fuel as [|fuel IH]; intros t Hl Ht; cbn [drop_oldest].
  - unfold MAX_CODEX_TURN_PREPARATIONS. lia.
  - destruct (Nat.leb_spec MAX_CODEX_TURN_PREPARATIONS (length t)); [|done].
    destruct t as [|[k p] t]; [simpl in *; unfold MAX_CODEX_TURN_PREPARATIONS in *; lia|].
    pose proof Ht as Ht0. apply Forall_cons in Ht as [Hk Ht]. simpl in Hk. rewrite (proj2 (truthy_true k) Hk). apply IH.
    + unfold map_delete. rewrite filter_cons_False by (simpl; naive_solver). etransitivity; [apply length_filter|]. simpl in Hl. lia.
    + rewrite Forall_forall in Ht0. apply Forall_forall. intros x [_ Hx]%list_elem_of_filter. by apply Ht0.
Qed.

Section Steps.
Context (sha256 : jstr -> jstr).

(** What the operations so far say of the table *)
Record table_ok (ops : list op) (t : Table) : Prop := {
  ok_room : (length t <= MAX_CODEX_TURN_PREPARATIONS)%nat;
  ok_wf : map_wf t;
  ok_entries : forall id p, (id, p) ∈ t -> exists now, Prepare now id p ∈ ops }.

Lemma prune_wf now t : map_wf t -> map_wf (prunePreparedCodexTurns now t).
Proof. apply map_wf_sublist, prune_sub. Qed.

Lemma consume_elem now runId prompt id workspace t kv : kv ∈ (consumePreparedCodexTurn sha256 now runId prompt id workspace t).2 -> kv ∈ t /\ kv.1 <> id.
Proof.
  unfold consumePreparedCodexTurn. cbv zeta. destruct (map_get (prunePreparedCodexTurns now t) id) as [p|] eqn:E.
  - intros H. assert (Hin : kv ∈ map_delete (prunePreparedCodexTurns now t) id) by (by destruct (_ || _)).
    unfold map_delete in Hin. apply list_elem_of_filter in Hin as [Hne Hin]. by apply prune_elem in Hin as [? _].
  - simpl. intros H. split; [by apply prune_elem in H as [? _]|]. intros <-. apply map_get_none in E. apply E.
    destruct kv as [k p]. by apply (list_elem_of_fmap_2 fst) in H.
Qed.

Lemma step_ok_table ops o t : Forall (fun id => id <> []) (omap prepared_id (ops ++ [o])) ->
  table_ok ops t -> table_ok (ops ++ [o]) (step sha256 t o).
Proof.
  intros Hids [Hroom Hwf Hent].
  assert (Hne : forall now, Forall (fun kv => kv.1 <> []) (filter (fun kv : jstr * Preparation => expired now kv.2 = false) t)).
  { intros now. apply Forall_forall. intros [id p] [_ Hin]%list_elem_of_filter. destruct (Hent id p Hin) as [now' Hp].
    rewrite Forall_forall in Hids. apply Hids. apply list_elem_of_omap. exists (Prepare now' id p). split; [|done].
    apply elem_of_app. by left. }
  destruct o as [now id p|now runId prompt id workspace]; simpl.
  - unfold prepare. assert (Hlt : (length (prunePreparedCodexTurns now t) < MAX_CODEX_TURN_PREPARATIONS)%nat)
      by (apply drop_oldest_length; [done|apply Hne]).
    split; [rewrite map_set_length; destruct (map_has _ _); lia|by apply map_set_wf, prune_wf|].
    intros id' p' Hin. apply map_set_elem in Hin as [[= -> ->]|Hin].
    + exists now. apply elem_of_app. right. by left.
    + apply prune_elem in Hin as [Hin _]. destruct (Hent _ _ Hin) as [now' ?]. exists now'. apply elem_of_app. by left.
  - unfold consumePreparedCodexTurn. cbv zeta.
    assert (Hsub : forall t', sublist t' (prunePreparedCodexTurns now t) -> table_ok (ops ++ [Consume now runId prompt id workspace]) t').
    { intros t' Hs. assert (sublist t' t) as Ht by (etransitivity; [exact Hs|apply prune_sub]). split.
      - apply sublist_length in Ht. lia.
      - by eapply map_wf_sublist.
      - intros id' p' Hin. eapply elem_of_sublist in Hin; [|exact Ht]. destruct (Hent _ _ Hin) as [now' ?]. exists now'.
        apply elem_of_app. by left. }
    destruct (map_get _ id); [destruct (_ || _)|]; simpl; apply Hsub; try done; apply sublist_filter.
Qed.

Lemma steps_table_ok ops : Forall (fun id => id <> []) (omap prepared_id ops) -> table_ok ops (steps sha256 ops).
Proof.
  induction ops as [|o ops IH] using rev_ind; intros Hids.
  - split; [simpl; unfold MAX_CODEX_TURN_PREPARATIONS; lia|constructor|]. by intros id p ?%elem_of_nil.
  - unfold steps. rewrite fold_left_app. apply step_ok_table; [done|]. apply IH.
    rewrite omap_app in Hids. by apply Forall_app in Hids as [? _].
Qed.

(** Once claimed, and not prepared again, an id stays out of the table. *)
Lemma absent_stays id ops t : id ∉ map fst t -> id ∉ omap prepared_id ops -> id ∉ map fst (fold_left (step sha256) ops t).
Proof.
  revert t. induction ops as [|o ops IH]; intros t Ht Hops; [done|]. simpl. apply IH.
  - destruct o as [now id' p|now runId prompt id' workspace]; simpl.
    + intros ([k q] & -> & Hin)%list_elem_of_fmap. unfold prepare in Hin. apply map_set_elem in Hin as [[= -> ->]|Hin].
      * apply Hops. apply list_elem_of_omap. exists (Prepare now id' p). split; [by left|done].
      * apply prune_elem in Hin as [Hin _]. apply Ht. by apply (list_elem_of_fmap_2 fst) in Hin.
    + intros ([k q] & -> & Hin)%list_elem_of_fmap. apply consume_elem in Hin as [Hin _]. apply Ht.
      by apply (list_elem_of_fmap_2 fst) in Hin.
  - intros Hin. apply Hops. apply list_elem_of_omap in Hin as (o' & ? & ?). apply list_elem_of_omap. exists o'. split; [by right|done].
Qed.

(** C10: however preparing and claiming interleave, at most 64 prepared turns
    are kept; a claim succeeds only for a turn that was prepared for the same
    run, workspace and prompt (up to the hash of prompts) no more than five
    minutes before, by the clock; and then no later claim of it succeeds, nor
    does one after a claim that did not match. *)
Theorem preparation_is_claimed_once ops now runId prompt id workspace p later now' runId' prompt' workspace' :
  Forall (fun id => id <> []) (omap prepared_id (ops ++ later)) -> NoDup (omap prepared_id (ops ++ later)) ->
  let claim := Consume now runId prompt id workspace in
  (length (steps sha256 ops) <= MAX_CODEX_TURN_PREPARATIONS)%nat /\
  ((consumePreparedCodexTurn sha256 now runId prompt id workspace (steps sha256 ops)).1 = Ok p ->
   (exists at_, Prepare at_ id p ∈ ops) /\ p_runId p = runId /\ p_workspace p = workspace /\ promptHash p = sha256 prompt /\
   now - createdAt p <= CODEX_TURN_PREPARATION_TTL_MS) /\
  ((exists at_, Prepare at_ id p ∈ ops) ->
   is_ok (consumePreparedCodexTurn sha256 now' runId' prompt' id workspace' (steps sha256 (ops ++ claim :: later))).1 = false).
Proof.
  intros Hids Hnd claim. assert (Hok : table_ok ops (steps sha256 ops)).
  { apply steps_table_ok. rewrite omap_app in Hids. by apply Forall_app in Hids as [? _]. }
  split_and!; [apply Hok| |].
  - unfold consumePreparedCodexTurn. cbv zeta. destruct (map_get _ id) as [q|] eqn:E; [|done].
    destruct (_ || _) eqn:Em; [done|]. intros [= ->]. to_prop. apply map_get_elem, prune_elem in E as [Hin He].
    split_and!; [by apply Hok|done|done|done|]. unfold expired in He. simpl in He. to_prop. lia.
  - intros [at_ Hp]. assert (Hab : id ∉ map fst (steps sha256 (ops ++ claim :: later))).
    { unfold steps. rewrite fold_left_app. cbn [fold_left]. apply absent_stays.
      - intros ([k q] & -> & Hin)%list_elem_of_fmap. by apply consume_elem in Hin as [_ ?].
      - rewrite omap_app in Hnd. apply NoDup_app in Hnd as (_ & Hd & _). apply Hd. apply list_elem_of_omap. by exists (Prepare at_ id p). }
    set (t := steps sha256 (ops ++ claim :: later)) in *. unfold consumePreparedCodexTurn. cbv zeta.
    destruct (map_get _ id) as [q|] eqn:E; [|done]. apply map_get_elem, prune_elem in E as [Hin _].
    destruct Hab. by apply (list_elem_of_fmap_2 fst) in Hin.
Qed.
End Steps.

Definition sample_preparation (at_ : Z) : Preparation := {|
  p_runId := js "run-1"; p_workspace := js "api"; promptHash := js "fix it"; skillKeys := [js "typescript"];
  skillActivity := {| npmSearches := []; npmInstalled := []; pluginAutoInstalled := []; selectedSkillKeys := [js "typescript"] |};
  createdAt := at_ |}.

Lemma preparation_is_claimed_once_witness :
  let ops := [Prepare 0 (js "a") (sample_preparation 0); Prepare 5 (js "b") (sample_preparation 5)] in
  let claim := Consume 10 (js "run-1") (js "fix it") (js "a") (js "api") in
  (consumePreparedCodexTurn (fun s => s) 10 (js "run-1") (js "fix it") (js "a") (js "api") (steps (fun s => s) ops)).1
    = Ok (sample_preparation 0) /\
  is_ok (consumePreparedCodexTurn (fun s => s) 11 (js "run-1") (js "fix it") (js "a") (js "api")
    (steps (fun s => s) (ops ++ claim :: [Prepare 11 (js "c") (sample_preparation 11)]))).1 = false.
Proof.
  cbv zeta. split; [vm_compute; reflexivity|].
  refine (proj2 (proj2 (preparation_is_claimed_once (fun s => s)
    [Prepare 0 (js "a") (sample_preparation 0); Prepare 5 (js "b") (sample_preparation 5)] 10 (js "run-1") (js "fix it") (js "a")
    (js "api") (sample_preparation 0) [Prepare 11 (js "c") (sample_preparation 11)] 11 (js "run-1") (js "fix it") (js "api") _ _)) _).
  - repeat constructor; done.
  - apply (bool_decide_unpack _). vm_compute. exact I.
  - exists 0. by left.
Defined.

(** At its capacity the table is unable to give out its oldest turn: claiming
    makes room for one more first. *)
Example oldest_turn_is_dropped :
  let ops := map (fun n => Prepare n (js "t" ++ js_int n) (sample_preparation n)) (seqZ 0 64) in
  length (steps (fun s => s) ops) = 64%nat /\
  is_ok (consumePreparedCodexTurn (fun s => s) 70 (js "run-1") (js "fix it") (js "t0") (js "api") (steps (fun s => s) ops)).1 = false.
Proof. vm_compute. split; reflexivity. Qed.
End TurnPreparation.
