(* ===== verification/WorkspaceStore.v ===== *)
(** * The registry of managed workspaces on disk (workspace-store.ts)

    The file lists at most 256 workspaces under distinct ids. A save checks the
    whole list, then replaces the file; a load checks what it reads with the
    same function, so that a file which does not pass is never handed out.

    [JSON] is an argument. *)

From S2P Require Import Prelude JsValue JsObject Path Validate LocalFile TaskPolicy JsonCodec.
Import TaskPolicy.

Module WorkspaceStore.

Definition REGISTRY_SCHEMA_VERSION : Z := 1.
Definition MAX_REGISTRY_BYTES : Z := 1024 * 1024.
Definition MAX_WORKSPACES : nat := 256.

Inductive Access := read_only | read_write.
Inductive Provider := github | gitlab.
#[global] Instance Access_eq_dec : EqDecision Access. Proof. solve_decision. Defined.
#[global] Instance Provider_eq_dec : EqDecision Provider. Proof. solve_decision. Defined.

Definition access_names : list (string * Access) := [("read-only", read_only); ("read-write", read_write)]%string.
Definition provider_names : list (string * Provider) := [("github", github); ("gitlab", gitlab)]%string.
Definition access_name (a : Access) : jstr := js match a with read_only => "read-only" | read_write => "read-write" end.
Definition provider_name (p : Provider) : jstr := js match p with github => "github" | gitlab => "gitlab" end.

Record ManagedWorkspace := {
  id : jstr; name : jstr; root : jstr; access : Access; remote : jstr; defaultBranch : jstr;
  provider : option Provider; repository : option jstr }.
#[global] Instance ManagedWorkspace_eq_dec : EqDecision ManagedWorkspace. Proof. solve_decision. Defined.

(** ** Fields *)

Definition boundedText (min max : Z) (s : jstr) : bool :=
  (min <=? slen s) && (slen s <=? max) && truthy (trim s) && negb (has_control s).

(** [/^[A-Za-z0-9][A-Za-z0-9._/-]*$/] *)
Definition is_alnum (u : N) : bool := is_letter u || is_digit u.
Definition is_remote_unit (u : N) : bool := is_id_unit u || (u =? SLASH)%N.
Definition remoteName (s : jstr) : bool :=
  (1 <=? slen s) && (slen s <=? 128) &&
  match s with u :: s' => is_alnum u && forallb is_remote_unit s' | [] => false end.

(** [/^[A-Za-z0-9_.-]+(?:\/[A-Za-z0-9_.-]+)+$/]: two or more words between slashes *)
Definition slug_words (s : jstr) : bool :=
  let words := split_char SLASH s in
  (2 <=? Z.of_nat (length words)) && forallb (fun w => truthy w && forallb is_id_unit w) words.
Definition repositorySlug (s : jstr) : bool :=
  (3 <=? slen s) && (slen s <=? 512) && negb (starts_with s [SLASH]) && negb (ends_with s [SLASH])
  && negb (includes s (js "..")) && slug_words s.

Definition branch_name (s : jstr) : bool := boundedText 1 256 s && negb (starts_with s (js "-")).
Definition root_path (s : jstr) : bool := boundedText 1 4096 s && isAbsolute s.

Definition allowed_keys : list jstr :=
  map js ["id"; "name"; "root"; "access"; "remote"; "defaultBranch"; "provider"; "repository"]%string.

(** [throw new Error(`...: ${candidate.id}`)] *)
Definition fail_for {A} (msg : string) (id : jstr) : result A := Throw (Error (js msg ++ js ": " ++ id)).

(** A string field that passes [test], or the error *)
Definition text_or {A} (test : jstr -> bool) (v : value) (otherwise : result A) (k : jstr -> result A) : result A :=
  match v with VString s => if test s then k s else otherwise | _ => otherwise end.
Definition name_or {A B} (table : list (string * A)) (v : value) (otherwise : result B) (k : A -> result B) : result B :=
  match v with
  | VString s => match enum_lookup table s with Some a => k a | None => otherwise end
  | _ => otherwise
  end.

(** An item of the list, with the ids of the items before it *)
Definition validateItem (ids : list jstr) (candidate : value) : result ManagedWorkspace :=
  match is_record candidate with
  | None => fail "Desktop workspace registry item is invalid"
  | Some fs =>
      if negb (keys_allowed allowed_keys fs) then fail "Desktop workspace registry item contains unknown fields" else
      text_or workspace_id_ok (field fs (js "id")) (fail "Desktop workspace registry has invalid id") (fun i =>
      if bool_decide (i ∈ ids) then fail_for "duplicate workspace id" i else
      text_or (boundedText 1 128) (field fs (js "name")) (fail_for "invalid workspace name" i) (fun n =>
      text_or root_path (field fs (js "root")) (fail_for "workspace root must be absolute" i) (fun r =>
      name_or access_names (field fs (js "access")) (fail_for "invalid workspace access" i) (fun a =>
      text_or remoteName (field fs (js "remote")) (fail_for "invalid workspace remote" i) (fun rem =>
      text_or branch_name (field fs (js "defaultBranch")) (fail_for "invalid workspace default branch" i) (fun b =>
      p ← (match field fs (js "provider") with
           | VUndefined => Ok None
           | v => name_or provider_names v (fail_for "invalid workspace provider" i) (fun p => Ok (Some p)) end);
      s ← (match field fs (js "repository") with
           | VUndefined => Ok None
           | v => text_or repositorySlug v (fail_for "invalid workspace repository" i) (fun s => Ok (Some s)) end);
      if xorb (bool_decide (p = None)) (bool_decide (s = None))
      then fail_for "workspace provider/repository must be configured together" i
      else Ok {| id := i; name := n; root := r; access := a; remote := rem; defaultBranch := b;
                 provider := p; repository := s |}))))))
  end.

Fixpoint validateItems (ids : list jstr) (items : list value) : result (list ManagedWorkspace) :=
  match items with
  | [] => Ok []
  | v :: items' =>
      w ← validateItem ids v;
      ws ← validateItems (id w :: ids) items';
      Ok (w :: ws)
  end.

Definition validateRegistry (v : value) : result (list ManagedWorkspace) :=
  match v with
  | VObject fs =>
      match is_int (field fs (js "schemaVersion")) REGISTRY_SCHEMA_VERSION, field fs (js "workspaces") with
      | true, VArray items =>
          if (length items <=? MAX_WORKSPACES)%nat then validateItems [] items
          else fail "Desktop workspace registry exceeds 256 workspace limit"
      | _, _ => fail "Desktop workspace registry has invalid schema"
      end
  | _ => fail "Desktop workspace registry has invalid schema"
  end.

(** ** The objects written *)

Definition workspace_value (w : ManagedWorkspace) : value :=
  VObject ([(js "id", VString (id w)); (js "name", VString (name w)); (js "root", VString (root w));
            (js "access", VString (access_name (access w))); (js "remote", VString (remote w));
            (js "defaultBranch", VString (defaultBranch w))]
           ++ match provider w with Some p => [(js "provider", VString (provider_name p))] | None => [] end
           ++ match repository w with Some s => [(js "repository", VString s)] | None => [] end).
Definition registry_value (l : list ManagedWorkspace) : value :=
  VObject [(js "schemaVersion", VInt REGISTRY_SCHEMA_VERSION); (js "workspaces", VArray (map workspace_value l))].

(** What every workspace of a registry satisfies *)
Record workspace_ok (w : ManagedWorkspace) : Prop := {
  ok_id : workspace_id_ok (id w) = true;
  ok_name : boundedText 1 128 (name w) = true;
  ok_root : root_path (root w) = true;
  ok_remote : remoteName (remote w) = true;
  ok_branch : branch_name (defaultBranch w) = true;
  ok_repository : match repository w with Some s => repositorySlug s = true | None => True end;
  ok_together : provider w = None <-> repository w = None }.
Definition registry_ok (l : list ManagedWorkspace) : Prop :=
  Forall workspace_ok l /\ NoDup (map id l) /\ (length l <= MAX_WORKSPACES)%nat.

Lemma text_or_Ok {A} test v (otherwise : result A) k a : is_ok otherwise = false ->
  text_or test v otherwise k = Ok a <-> exists s, v = VString s /\ test s = true /\ k s = Ok a.
Proof.
  intros Ho. assert (Hne : otherwise <> Ok a) by (by intros ->). split.
  - destruct v as [| | | |s| |]; simpl; try (by intros ?). destruct (test s) eqn:E; [by exists s|by intros ?].
  - intros (s & -> & E & H). simpl. by rewrite E.
Qed.
Lemma name_or_Ok {A B} (table : list (string * A)) v (otherwise : result B) k b : is_ok otherwise = false ->
  name_or table v otherwise k = Ok b <-> exists s a, v = VString s /\ enum_lookup table s = Some a /\ k a = Ok b.
Proof.
  intros Ho. assert (Hne : otherwise <> Ok b) by (by intros ->). split.
  - destruct v as [| | | |s| |]; simpl; try (by intros ?). destruct (enum_lookup table s) as [a|] eqn:E; [by exists s, a|by intros ?].
  - intros (s & a & -> & E & H). simpl. by rewrite E.
Qed.

Lemma access_read a : enum_lookup access_names (access_name a) = Some a. Proof. by destruct a. Qed.
Lemma provider_read p : enum_lookup provider_names (provider_name p) = Some p. Proof. by destruct p. Qed.

(** What a successful check says of the fields it read *)
Lemma validateItem_inv ids v w : validateItem ids v = Ok w -> exists fs, v = VObject fs /\
  workspace_ok w /\ id w ∉ ids /\
  field fs (js "id") = VString (id w) /\ field fs (js "name") = VString (name w) /\ field fs (js "root") = VString (root w) /\
  (exists a, field fs (js "access") = VString a /\ enum_lookup access_names a = Some (access w)) /\
  field fs (js "remote") = VString (remote w) /\ field fs (js "defaultBranch") = VString (defaultBranch w) /\
  match provider w with
  | Some p => exists k, field fs (js "provider") = VString k /\ enum_lookup provider_names k = Some p
  | None => field fs (js "provider") = VUndefined end /\
  match repository w with
  | Some s => field fs (js "repository") = VString s
  | None => field fs (js "repository") = VUndefined end.
Proof.
  unfold validateItem. destruct (is_record v) as [fs|] eqn:Ev; [|done]. destruct (negb _); [done|].
  intros (i & Fi & Hi & H)%text_or_Ok; [|done]. case_bool_decide as Hin; [done|].
  apply text_or_Ok in H as (n & Fn & Hn & H); [|done]. apply text_or_Ok in H as (r & Fr & Hr & H); [|done].
  apply name_or_Ok in H as (an & a & Fa & Ha & H); [|done]. apply text_or_Ok in H as (rem & Frem & Hrem & H); [|done].
  apply text_or_Ok in H as (b & Fb & Hb & H); [|done]. apply bind_Ok in H as (p & Hp & H). apply bind_Ok in H as (s & Hs & H).
  destruct (xorb _ _) eqn:Ex; [done|]. injection H as <-. exists fs. cbn.
  assert (Hp' : match p with Some p => exists k, field fs (js "provider") = VString k /\ enum_lookup provider_names k = Some p
                | None => field fs (js "provider") = VUndefined end).
  { destruct (field fs (js "provider")); try (by injection Hp as <-); try done.
    apply name_or_Ok in Hp as (k & p' & [= <-] & ? & [= <-]); [|done]. by eexists. }
  assert (Hs' : match s with Some s => repositorySlug s = true /\ field fs (js "repository") = VString s
                | None => field fs (js "repository") = VUndefined end).
  { destruct (field fs (js "repository")); try (by injection Hs as <-); try done.
    by apply text_or_Ok in Hs as (s' & [= <-] & Hs' & [= <-]). }
  split; [by destruct v; simplify_eq/=|]. split; [|by destruct s; naive_solver].
  constructor; simpl; try done; [by destruct s as [s|]; [destruct Hs'|]|]. repeat case_bool_decide; naive_solver.
Qed.
Lemma validateItem_sound ids v w : validateItem ids v = Ok w -> workspace_ok w /\ id w ∉ ids.
Proof. intros (fs & _ & H1 & H2 & _)%validateItem_inv. by split. Qed.
(** A check never changes the workspace it is given. *)
Lemma validateItem_value ids w w' : validateItem ids (workspace_value w) = Ok w' -> w' = w.
Proof.
  destruct w as [i n r a rem b p s]. unfold workspace_value. cbn [id name root access remote defaultBranch provider repository].
  intros (fs & [= <-] & _ & _ & H)%validateItem_inv. destruct w' as [i' n' r' a' rem' b' p' s'].
  cbn [id name root access remote defaultBranch provider repository] in H.
  destruct p as [p|], s as [s|]; cbn [app] in H; revert H; read_fields;
    intros ([= <-] & [= <-] & [= <-] & (an & [= <-] & Ha) & [= <-] & [= <-] & Hp & Hs);
    rewrite access_read in Ha; injection Ha as <-;
    destruct p' as [p'|], s' as [s'|]; try discriminate; repeat match goal with
      | H : exists _, _ |- _ => destruct H as (? & [= <-] & H); rewrite ?provider_read in H; injection H as <-
      | H : exists _, _ |- _ => destruct H as (? & [=] & _)
      | H : VString _ = VString _ |- _ => injection H as <- end; reflexivity.
Qed.

Lemma validateItem_complete ids w : workspace_ok w -> id w ∉ ids -> validateItem ids (workspace_value w) = Ok w.
Proof.
  intros [H1 H2 H3 H4 H5 H6 H7] Hin. destruct w as [i n r a rem b p s].
  cbn [id name root access remote defaultBranch provider repository] in *. unfold validateItem, workspace_value.
  cbn [is_record id name root access remote defaultBranch provider repository].
  destruct p as [p|], s as [s|]; try naive_solver; cbn [app];
    change (keys_allowed allowed_keys _) with true; cbn [negb]; read_fields; unfold text_or, name_or;
    rewrite H1, (bool_decide_eq_false_2 _ Hin), H2, H3, access_read, H4, H5; cbn [mbind result_bind];
    rewrite ?provider_read, ?H6; reflexivity.
Qed.

Lemma validateItems_sound items : forall ids l, validateItems ids items = Ok l ->
  Forall workspace_ok l /\ NoDup (map id l) /\ Forall (fun w => id w ∉ ids) l /\ length l = length items.
Proof.
  induction items as [|v items IH]; intros ids l H; simpl in H.
  - injection H as <-. split_and!; constructor.
  - inv_ok. match goal with H : validateItem _ _ = Ok ?w, H' : validateItems _ _ = Ok ?ws |- _ =>
      rename w into w0, ws into ws0; apply validateItem_sound in H as [Hw Hi]; apply IH in H' as (Hws & Hnd & Hne & Hl) end.
    rewrite Forall_forall in Hne. split_and!.
    + by constructor.
    + simpl. constructor; [|done]. intros (w & Ew & Hw')%list_elem_of_fmap. apply (Hne w Hw'). rewrite <- Ew. by left.
    + constructor; [done|]. apply Forall_forall. intros w Hw' Hin. apply (Hne w Hw'). by right.
    + simpl. by rewrite Hl.
Qed.
Lemma validateItems_complete l : forall ids, Forall workspace_ok l -> NoDup (map id l) -> Forall (fun w => id w ∉ ids) l ->
  validateItems ids (map workspace_value l) = Ok l.
Proof.
  induction l as [|w l IH]; intros ids Hl Hnd Hne; [done|]. simpl in *.
  apply Forall_cons in Hl as [Hw Hl]. apply Forall_cons in Hne as [Hi Hne]. apply NoDup_cons in Hnd as [Hn Hnd].
  rewrite validateItem_complete by done. cbn [mbind result_bind]. rewrite IH; [done..|].
  rewrite Forall_forall in Hne |- *. intros w' Hw'. apply not_elem_of_cons. split; [|by apply Hne].
  intros E. apply Hn. rewrite <- E. by apply list_elem_of_fmap_2.
Qed.

Lemma validateRegistry_sound v l : validateRegistry v = Ok l -> registry_ok l.
Proof.
  unfold validateRegistry. destruct v; try done. destruct (is_int _ _); [|done]. destruct (field _ _) as [| | | | |items|]; try done.
  destruct (_ <=? _)%nat eqn:E; [|done]. intros (? & ? & _ & Hl)%validateItems_sound. apply Nat.leb_le in E.
  split_and!; [done..|]. by rewrite Hl.
Qed.
Lemma validateRegistry_complete l : registry_ok l -> validateRegistry (registry_value l) = Ok l.
Proof.
  intros (Hl & Hnd & Hlen). unfold validateRegistry, registry_value. read_fields.
  change (is_int _ _) with true. cbv iota. rewrite length_map, (proj2 (Nat.leb_le _ _) Hlen).
  apply validateItems_complete; [done..|]. apply Forall_forall. intros w _. apply not_elem_of_nil.
Qed.

Section Store.
Context (JSON_parse : jstr -> result value) (JSON_stringify : value -> jstr).
Context (filePath pid : jstr).

Definition temporary : jstr := filePath ++ js ".tmp-" ++ pid.
Definition serialize (l : list ManagedWorkspace) : jstr := JSON_stringify (registry_value l) ++ [10%N].

(** [None] is the answer for a missing file. *)
Definition loadWorkspaceRegistry (file : read_outcome) : result (option (list ManagedWorkspace)) :=
  match file with
  | Missing => Ok None
  | ReadError e => Throw e
  | Contents raw =>
      _ ← require (utf8_len raw <=? MAX_REGISTRY_BYTES) "Desktop workspace registry exceeds 1 MiB limit";
      parsed ← JSON_parse raw;
      Some <$> validateRegistry parsed
  end.

Definition saveWorkspaceRegistry (fault : write_fault) (l : list ManagedWorkspace) : M Disk unit :=
  registry ← lift (validateRegistry (registry_value l));
  let content := serialize registry in
  _ ← js_guard (MAX_REGISTRY_BYTES <? utf8_len content) "Desktop workspace registry exceeds 1 MiB limit";
  replaceFile fault temporary filePath content.

Definition load (d : Disk) : result (option (list ManagedWorkspace)) := loadWorkspaceRegistry (readFile d filePath).

(** A save that resolves is a write of the whole list, which passed the checks;
    one that rejects leaves the file alone. *)
Lemma save_cases fault l d :
  let (r, d') := saveWorkspaceRegistry fault l d in
  if is_ok r then registry_ok l /\ utf8_len (serialize l) <= MAX_REGISTRY_BYTES /\ d' !! filePath = Some (serialize l)
  else d' !! filePath = d !! filePath.
Proof.
  unfold saveWorkspaceRegistry. cbv [mbind M_bind lift js_guard]. destruct (validateRegistry (registry_value l)) as [l'|e] eqn:E; [|done].
  apply validateRegistry_sound in E as Hok.
  assert (l' = l) as ->.
  { clear Hok. unfold validateRegistry, registry_value in E. revert E. read_fields. change (is_int _ _) with true. cbv iota.
    destruct (_ <=? _)%nat; [|done]. generalize (@nil jstr). revert l'. induction l as [|w l IH]; intros l' ids H; [by injection H as <-|].
    simpl in H. inv_ok. match goal with H : validateItem _ _ = Ok ?x |- _ => rename x into w', H into Hw end.
    apply validateItem_value in Hw as ->. f_equal. eauto. }
  destruct (MAX_REGISTRY_BYTES <? utf8_len (serialize l)) eqn:Es; [reflexivity|]. to_prop.
  pose proof (replaceFile_atomic fault temporary filePath (serialize l) d (temporary_ne filePath (js ".tmp-") pid ltac:(done))) as H.
  destruct (replaceFile _ _ _ _ _) as [r d']. destruct H as [Hr Hd]. destruct fault, r as [[]|e]; try done; simpl in *; auto.
Qed.

(** The file holds the list that a load returns. *)
Definition holds (d : Disk) (l : option (list ManagedWorkspace)) : Prop :=
  d !! filePath = (serialize <$> l) /\
  match l with Some l => registry_ok l /\ utf8_len (serialize l) <= MAX_REGISTRY_BYTES | None => True end.

Context (json_inverse : forall l, JSON_parse (serialize l) = Ok (registry_value l)).

Lemma load_holds d l : holds d l -> load d = Ok l.
Proof.
  intros [Hd Hl]. unfold load, readFile. rewrite Hd. destruct l as [l|]; [|done]. destruct Hl as [Hl Hs]. simpl.
  rewrite (proj2 (Z.leb_le _ _) Hs), json_inverse. cbn [require mbind result_bind]. by rewrite validateRegistry_complete.
Qed.

Lemma save_holds fault l d o : holds d o ->
  let (r, d') := saveWorkspaceRegistry fault l d in
  (is_ok r = true -> registry_ok l) /\ holds d' (if is_ok r then Some l else o).
Proof.
  intros [Hd Ho]. pose proof (save_cases fault l d) as H. destruct (saveWorkspaceRegistry fault l d) as [r d'].
  destruct (is_ok r); [destruct H as (H1 & H2 & H3); split; [done|by split]|]. split; [done|]. split; [congruence|exact Ho].
Qed.
End Store.
End WorkspaceStore.
