(* ===== verification/AgentParser.v ===== *)
(** * Agent turn parser

    [desktop/src/main/agent-parser.ts]: the daemon's agent-turn rows, checked
    field by field before the desktop host acts on them. *)

From S2P Require Import Prelude JsValue Validate.

Module AgentParser.

Inductive AgentTurnStatus := running | completed | failed | cancelled | iteration_limit.
Inductive AgentTurnStopReason :=
| model_reply | no_tool | stop_iteration_limit | stop_cancelled | stop_error.

#[global] Instance AgentTurnStatus_eq_dec : EqDecision AgentTurnStatus.
Proof. solve_decision. Defined.
#[global] Instance AgentTurnStopReason_eq_dec : EqDecision AgentTurnStopReason.
Proof. solve_decision. Defined.

Record AgentTurnView := {
  turn_id : jstr;
  runId : jstr;
  clientRequestId : option jstr;
  turn_status : AgentTurnStatus;
  maxIterations : Z;
  iterationCount : Z;
  providerId : option jstr;
  modelId : option jstr;
  turn_stopReason : option AgentTurnStopReason;
  inputTokens : Z;
  outputTokens : Z;
  startedAt : Z;
  updatedAt : Z;
  completedAt : option Z
}.

Definition integer := int_field.
Definition text (v : value) (maxBytes : Z) (label : string) : result jstr :=
  text_field false is_control v maxBytes label.
Definition record := record_field.

Definition status_names : list (string * AgentTurnStatus) :=
  [("running", running); ("completed", completed); ("failed", failed);
   ("cancelled", cancelled); ("iteration-limit", iteration_limit)]%string.
Definition stop_reason_names : list (string * AgentTurnStopReason) :=
  [("model-reply", model_reply); ("no-tool", no_tool);
   ("iteration-limit", stop_iteration_limit); ("cancelled", stop_cancelled);
   ("error", stop_error)]%string.

Definition status (v : value) : result AgentTurnStatus :=
  enum_field status_names v "agent turn status".
Definition stopReason (v : value) : result AgentTurnStopReason :=
  enum_field stop_reason_names v "agent stop reason".

Definition parseAgentTurn (v : value) : result AgentTurnView :=
  row ← record v "agent turn";
  id ← text (field row (js "id")) 128 "agent turn id";
  run ← text (field row (js "run_id")) 128 "agent run id";
  request ← optional (fun x => text x 128 "agent request id") (field row (js "client_request_id"));
  st ← status (field row (js "status"));
  maxIter ← integer (field row (js "max_iterations")) 1 64 "agent max iterations";
  iterCount ← integer (field row (js "iteration_count")) 0 64 "agent iteration count";
  provider ← optional (fun x => text x 128 "agent provider id") (field row (js "provider_id"));
  model ← optional (fun x => text x 128 "agent model id") (field row (js "model_id"));
  stop ← optional stopReason (field row (js "stop_reason"));
  inTok ← integer (field row (js "input_tokens")) 0 MAX_SAFE_INTEGER "agent input tokens";
  outTok ← integer (field row (js "output_tokens")) 0 MAX_SAFE_INTEGER "agent output tokens";
  start ← integer (field row (js "started_at")) 0 MAX_SAFE_INTEGER "agent started at";
  upd ← integer (field row (js "updated_at")) 0 MAX_SAFE_INTEGER "agent updated at";
  compl ← optional (fun x => integer x 0 MAX_SAFE_INTEGER "agent completed at")
            (field row (js "completed_at"));
  Ok {| turn_id := id; runId := run; clientRequestId := request; turn_status := st;
        maxIterations := maxIter; iterationCount := iterCount; providerId := provider;
        modelId := model; turn_stopReason := stop; inputTokens := inTok; outputTokens := outTok;
        startedAt := start; updatedAt := upd; completedAt := compl |}.

Definition parseAgentTurnBegin (v : value) : result (AgentTurnView * bool) :=
  row ← record v "agent turn begin";
  replayed ← bool_field (field row (js "replayed")) "agent replay flag";
  turn ← parseAgentTurn (field row (js "turn"));
  Ok (turn, replayed).

Definition parseAgentTurnList (v : value) : result (list AgentTurnView) :=
  row ← record v "agent turn list";
  turns ← array_field (field row (js "turns")) "agent turn list";
  map_result parseAgentTurn turns.

Definition parseAgentIteration (v : value) : result (AgentTurnView * bool) :=
  row ← record v "agent iteration";
  reached ← bool_field (field row (js "iteration_limit_reached")) "agent iteration limit flag";
  turn ← parseAgentTurn (field row (js "turn"));
  Ok (turn, reached).

(** ** What an accepted turn satisfies, and the daemon's wire form of a turn *)

Definition id_ok (s : jstr) : Prop := s <> [] /\ utf8_len s <= 128 /\ has_control s = false.
Definition opt_ok {A} (P : A -> Prop) (o : option A) : Prop := forall a, o = Some a -> P a.
Definition count_ok (z : Z) : Prop := 0 <= z <= MAX_SAFE_INTEGER.

Record turn_ok (t : AgentTurnView) : Prop := {
  ok_id : id_ok (turn_id t);
  ok_run : id_ok (runId t);
  ok_request : opt_ok id_ok (clientRequestId t);
  ok_max : 1 <= maxIterations t <= 64;
  ok_count : 0 <= iterationCount t <= 64;
  ok_provider : opt_ok id_ok (providerId t);
  ok_model : opt_ok id_ok (modelId t);
  ok_in : count_ok (inputTokens t);
  ok_out : count_ok (outputTokens t);
  ok_start : count_ok (startedAt t);
  ok_upd : count_ok (updatedAt t);
  ok_compl : opt_ok count_ok (completedAt t)
}.

Definition status_name (s : AgentTurnStatus) : jstr := js
  match s with
  | running => "running" | completed => "completed" | failed => "failed"
  | cancelled => "cancelled" | iteration_limit => "iteration-limit"
  end.
Definition stop_reason_name (s : AgentTurnStopReason) : jstr := js
  match s with
  | model_reply => "model-reply" | no_tool => "no-tool" | stop_iteration_limit => "iteration-limit"
  | stop_cancelled => "cancelled" | stop_error => "error"
  end.

Definition encode_turn (t : AgentTurnView) : value := VObject
  [(js "id", VString (turn_id t));
   (js "run_id", VString (runId t));
   (js "client_request_id", opt_value VString (clientRequestId t));
   (js "status", VString (status_name (turn_status t)));
   (js "max_iterations", VInt (maxIterations t));
   (js "iteration_count", VInt (iterationCount t));
   (js "provider_id", opt_value VString (providerId t));
   (js "model_id", opt_value VString (modelId t));
   (js "stop_reason", opt_value (fun r => VString (stop_reason_name r)) (turn_stopReason t));
   (js "input_tokens", VInt (inputTokens t));
   (js "output_tokens", VInt (outputTokens t));
   (js "started_at", VInt (startedAt t));
   (js "updated_at", VInt (updatedAt t));
   (js "completed_at", opt_value VInt (completedAt t))].

(** ** Lemmas *)

Lemma text_Ok v label s :
  text v 128 label = Ok s <-> v = VString s /\ id_ok s.
Proof.
  unfold text. rewrite text_field_Ok, text_ok_spec. unfold id_ok, has_control. naive_solver.
Qed.

Lemma integer_Ok v lo hi label z : 0 <= lo -> hi <= MAX_SAFE_INTEGER ->
  integer v lo hi label = Ok z <-> v = VInt z /\ lo <= z <= hi.
Proof. intros. apply int_field_Ok; [unfold MIN_SAFE_INTEGER, MAX_SAFE_INTEGER in *|]; lia. Qed.

Lemma integer_VInt z lo hi label : 0 <= lo -> hi <= MAX_SAFE_INTEGER -> lo <= z <= hi ->
  integer (VInt z) lo hi label = Ok z.
Proof. intros. by apply integer_Ok. Qed.

Lemma status_name_Ok s : status (VString (status_name s)) = Ok s.
Proof. by destruct s. Qed.
Lemma stop_reason_name_Ok s : stopReason (VString (stop_reason_name s)) = Ok s.
Proof. by destruct s. Qed.

Lemma optional_ok {A} (f : value -> result A) (P : A -> Prop) v o :
  optional f v = Ok o -> (forall x a, f x = Ok a -> P a) -> opt_ok P o.
Proof.
  rewrite optional_Ok. intros [[_ ->]|(_ & a & -> & Hf)] HP; [done|].
  intros b [= <-]. eauto.
Qed.

Ltac num_bound := unfold MAX_SAFE_INTEGER; lia.
Lemma parseAgentTurn_ok v t : parseAgentTurn v = Ok t -> turn_ok t.
Proof.
  unfold parseAgentTurn. intros H. inv_ok.
  repeat match goal with
  | H : text _ _ _ = Ok _ |- _ => apply text_Ok in H as [_ H]
  | H : integer _ _ _ _ = Ok _ |- _ => apply integer_Ok in H as [_ H]; [|num_bound..]
  end.
  constructor; cbn [turn_id runId clientRequestId maxIterations iterationCount providerId modelId
                    inputTokens outputTokens startedAt updatedAt completedAt]; try done.
  all: eapply optional_ok; [done|]; cbn beta; intros y b Hb.
  1-3: by apply text_Ok in Hb as [_ ?].
  by apply integer_Ok in Hb as [_ ?]; [|num_bound..].
Qed.

Lemma optional_text o label : opt_ok id_ok o ->
  optional (fun x => text x 128 label) (opt_value VString o) = Ok o.
Proof.
  intros Ho. apply optional_opt_value. intros a ->. split; [done|]. apply text_Ok.
  split; [done | by apply Ho].
Qed.

Lemma optional_count o label : opt_ok count_ok o ->
  optional (fun x => integer x 0 MAX_SAFE_INTEGER label) (opt_value VInt o) = Ok o.
Proof.
  intros Ho. apply optional_opt_value. intros a ->. split; [done|].
  apply integer_Ok; [num_bound..|]. split; [done | by apply Ho].
Qed.

Lemma parse_encode_turn t : turn_ok t -> parseAgentTurn (encode_turn t) = Ok t.
Proof.
  intros [Hid Hrun Hreq Hmax Hcnt Hpr Hmo Hin Hout Hst Hup Hco].
  unfold parseAgentTurn, encode_turn. cbn [record record_field is_record mbind result_bind].
  repeat first
    [ progress read_fields
    | rewrite (proj2 (text_Ok (VString _) _ _)) by (split; done)
    | rewrite optional_text by done
    | rewrite optional_count by done
    | rewrite status_name_Ok
    | rewrite optional_opt_value by (intros ? _; split; [done | apply stop_reason_name_Ok])
    | rewrite integer_VInt by (done || num_bound)
    | progress cbn [mbind result_bind] ].
  by destruct t.
Qed.

(** The parser accepts exactly the well-formed turns: whatever it returns
    has bounded identifiers free of control characters, 1-64 allowed and 0-64
    spent iterations and safe non-negative counters, and every such turn is
    read back unchanged from its wire form. *)
Theorem parseAgentTurn_exact t :
  (forall v, parseAgentTurn v = Ok t -> turn_ok t) /\
  (turn_ok t -> parseAgentTurn (encode_turn t) = Ok t).
Proof. split; [intros v; apply parseAgentTurn_ok | apply parse_encode_turn]. Qed.

Definition sample_turn : AgentTurnView := {|
  turn_id := js "t1"; runId := js "r1"; clientRequestId := Some (js "q");
  turn_status := completed; maxIterations := 12; iterationCount := 3;
  providerId := None; modelId := Some (js "m"); turn_stopReason := Some model_reply;
  inputTokens := 10; outputTokens := 20; startedAt := 1; updatedAt := 2; completedAt := Some 2 |}.

Lemma parseAgentTurn_exact_witness :
  parseAgentTurn (encode_turn sample_turn) = Ok sample_turn.
Proof.
  apply (proj2 (parseAgentTurn_exact sample_turn)).
  apply (proj1 (parseAgentTurn_exact sample_turn) (encode_turn sample_turn)).
  vm_compute. reflexivity.
Defined.

End AgentParser.
