(* ===== verification/AgentEval.v ===== *)
(** * Agent evaluation client

    [desktop/src/main/agent-eval.ts]: the requests of the evaluation client
    and the parser of the daemon's verdicts. *)

From S2P Require Import Prelude JsValue Validate.

Module AgentEval.

Inductive AgentVerdict := pass | fail_.
#[global] Instance AgentVerdict_eq_dec : EqDecision AgentVerdict.
Proof. solve_decision. Defined.

Record AgentEvaluationCheck := { check_name : jstr; passed : bool; detail : jstr }.

Record AgentEvaluationMetrics := {
  iterations : Z; maxIterations : Z; contextReads : Z; executions : Z; failureCount : Z;
  learningCount : Z; satisfiedProofs : Z; inputTokens : Z; outputTokens : Z }.

Record AgentEvaluationView := {
  eval_id : jstr;
  turnId : jstr;
  evaluatorVersion : Z;
  deterministicVerdict : AgentVerdict;
  checks : list AgentEvaluationCheck;
  metrics : AgentEvaluationMetrics;
  judgeVerdict : option AgentVerdict;
  judgeProviderId : option jstr;
  judgeModelId : option jstr;
  finalVerdict : AgentVerdict;
  createdAt : Z
}.

Definition integer := int_field.
Definition text (v : value) (maxBytes : Z) (label : string) : result jstr :=
  text_field false is_nul v maxBytes label.
Definition array := array_field.
Definition record := record_field.
Definition booleanValue := bool_field.
Definition verdict_names : list (string * AgentVerdict) := [("pass", pass); ("fail", fail_)]%string.
Definition verdict (v : value) (label : string) : result AgentVerdict :=
  enum_field verdict_names v ("agent " +:+ label).
Definition nonNegative (v : value) (label : string) : result Z :=
  integer v 0 MAX_SAFE_INTEGER ("agent evaluation " +:+ label).

Definition parseCheck (item : value) : result AgentEvaluationCheck :=
  check ← record item "agent evaluation check";
  name ← text (field check (js "name")) 128 "agent evaluation check name";
  ok ← booleanValue (field check (js "passed")) "agent evaluation check passed";
  det ← text (field check (js "detail")) 1024 "agent evaluation check detail";
  Ok {| check_name := name; passed := ok; detail := det |}.

Definition parseMetrics (m : list (jstr * value)) : result AgentEvaluationMetrics :=
  a ← nonNegative (field m (js "iterations")) "iterations";
  b ← nonNegative (field m (js "max_iterations")) "max iterations";
  c ← nonNegative (field m (js "context_reads")) "context reads";
  d ← nonNegative (field m (js "executions")) "executions";
  e ← nonNegative (field m (js "failure_count")) "failure count";
  f ← nonNegative (field m (js "learning_count")) "learning count";
  g ← nonNegative (field m (js "satisfied_proofs")) "satisfied proofs";
  h ← nonNegative (field m (js "input_tokens")) "input tokens";
  i ← nonNegative (field m (js "output_tokens")) "output tokens";
  Ok {| iterations := a; maxIterations := b; contextReads := c; executions := d;
        failureCount := e; learningCount := f; satisfiedProofs := g;
        inputTokens := h; outputTokens := i |}.

Definition parseAgentEvaluation (v : value) : result AgentEvaluationView :=
  row ← record v "agent evaluation";
  m ← record (field row (js "metrics")) "agent evaluation metrics";
  items ← array (field row (js "checks")) "agent evaluation checks";
  cs ← map_result parseCheck items;
  id ← text (field row (js "id")) 128 "agent evaluation id";
  turn ← text (field row (js "turn_id")) 128 "agent evaluation turn id";
  ver ← integer (field row (js "evaluator_version")) 1 MAX_SAFE_INTEGER "agent evaluator version";
  det ← verdict (field row (js "deterministic_verdict")) "deterministic verdict";
  ms ← parseMetrics m;
  jv ← optional (fun x => verdict x "judge verdict") (field row (js "judge_verdict"));
  jp ← optional (fun x => text x 128 "judge provider id") (field row (js "judge_provider_id"));
  jm ← optional (fun x => text x 128 "judge model id") (field row (js "judge_model_id"));
  final ← verdict (field row (js "final_verdict")) "final verdict";
  created ← nonNegative (field row (js "created_at")) "created at";
  Ok {| eval_id := id; turnId := turn; evaluatorVersion := ver; deterministicVerdict := det;
        checks := cs; metrics := ms; judgeVerdict := jv; judgeProviderId := jp;
        judgeModelId := jm; finalVerdict := final; createdAt := created |}.

(** The client: each method is one request whose answer is parsed. The
    transport is the caller's [harnessRequest]. *)
Section client.
Context {S : Type} (harnessRequest : string -> value -> M S value).

Definition evaluate (turnId : jstr) : M S AgentEvaluationView :=
  raw ← harnessRequest "/api/v1/harness/agent/evaluations/run"
          (VObject [(js "turn_id", VString turnId)]);
  lift (parseAgentEvaluation raw).

Definition list_evaluations (turnId : jstr) (limit : option num) : M S (list AgentEvaluationView) :=
  answer ← harnessRequest "/api/v1/harness/agent/evaluations/list"
             (VObject [(js "turn_id", VString turnId);
                       (js "limit", VNumber (default (NInt 20) limit))]);
  raw ← lift (record answer "agent evaluation list");
  evaluations ← lift (array_field (field raw (js "evaluations")) "agent evaluation list");
  lift (map_result parseAgentEvaluation evaluations).

Definition recordJudge (evaluationId : jstr) (v : AgentVerdict) (providerId modelId : jstr)
  : M S AgentEvaluationView :=
  raw ← harnessRequest "/api/v1/harness/agent/evaluations/judge"
          (VObject [(js "evaluation_id", VString evaluationId);
                    (js "verdict", VString (js (match v with pass => "pass" | fail_ => "fail" end)));
                    (js "provider_id", VString providerId);
                    (js "model_id", VString modelId)]);
  lift (parseAgentEvaluation raw).
End client.

(** ** What an accepted evaluation satisfies, and its wire form *)

Definition text_valid (m : Z) (s : jstr) : Prop := s <> [] /\ utf8_len s <= m /\ has_nul s = false.
Definition opt_ok {A} (P : A -> Prop) (o : option A) : Prop := forall a, o = Some a -> P a.
Definition count_ok (z : Z) : Prop := 0 <= z <= MAX_SAFE_INTEGER.
Definition check_ok (c : AgentEvaluationCheck) : Prop :=
  text_valid 128 (check_name c) /\ text_valid 1024 (detail c).
Definition metrics_ok (m : AgentEvaluationMetrics) : Prop :=
  Forall count_ok [iterations m; maxIterations m; contextReads m; executions m; failureCount m;
                   learningCount m; satisfiedProofs m; inputTokens m; outputTokens m].

Record evaluation_ok (e : AgentEvaluationView) : Prop := {
  ok_id : text_valid 128 (eval_id e);
  ok_turn : text_valid 128 (turnId e);
  ok_version : 1 <= evaluatorVersion e <= MAX_SAFE_INTEGER;
  ok_checks : Forall check_ok (checks e);
  ok_metrics : metrics_ok (metrics e);
  ok_provider : opt_ok (text_valid 128) (judgeProviderId e);
  ok_model : opt_ok (text_valid 128) (judgeModelId e);
  ok_created : count_ok (createdAt e)
}.

Definition verdict_value (v : AgentVerdict) : value :=
  VString (js (match v with pass => "pass" | fail_ => "fail" end)).
Definition encode_check (c : AgentEvaluationCheck) : value := VObject
  [(js "name", VString (check_name c)); (js "passed", VBool (passed c));
   (js "detail", VString (detail c))].
Definition encode_metrics (m : AgentEvaluationMetrics) : value := VObject
  [(js "iterations", VInt (iterations m)); (js "max_iterations", VInt (maxIterations m));
   (js "context_reads", VInt (contextReads m)); (js "executions", VInt (executions m));
   (js "failure_count", VInt (failureCount m)); (js "learning_count", VInt (learningCount m));
   (js "satisfied_proofs", VInt (satisfiedProofs m)); (js "input_tokens", VInt (inputTokens m));
   (js "output_tokens", VInt (outputTokens m))].
Definition encode_evaluation (e : AgentEvaluationView) : value := VObject
  [(js "id", VString (eval_id e)); (js "turn_id", VString (turnId e));
   (js "evaluator_version", VInt (evaluatorVersion e));
   (js "deterministic_verdict", verdict_value (deterministicVerdict e));
   (js "checks", VArray (map encode_check (checks e)));
   (js "metrics", encode_metrics (metrics e));
   (js "judge_verdict", opt_value verdict_value (judgeVerdict e));
   (js "judge_provider_id", opt_value VString (judgeProviderId e));
   (js "judge_model_id", opt_value VString (judgeModelId e));
   (js "final_verdict", verdict_value (finalVerdict e));
   (js "created_at", VInt (createdAt e))].

(** ** Lemmas *)

Lemma eval_text_Ok v m label s : text v m label = Ok s <-> v = VString s /\ text_valid m s.
Proof.
  unfold text. rewrite text_field_Ok, text_ok_spec. unfold text_valid, has_nul. naive_solver.
Qed.
Lemma text_VString s m label : text_valid m s -> text (VString s) m label = Ok s.
Proof. intros. by apply eval_text_Ok. Qed.

Lemma nonNegative_Ok v label z : nonNegative v label = Ok z <-> v = VInt z /\ count_ok z.
Proof.
  unfold nonNegative, integer. rewrite int_field_Ok; [done | unfold MIN_SAFE_INTEGER, MAX_SAFE_INTEGER; lia | done].
Qed.
Lemma nonNegative_VInt z label : count_ok z -> nonNegative (VInt z) label = Ok z.
Proof. intros. by apply nonNegative_Ok. Qed.

Lemma verdict_value_Ok v label : verdict (verdict_value v) label = Ok v.
Proof. by destruct v. Qed.

Lemma parseCheck_ok v c : parseCheck v = Ok c -> check_ok c.
Proof.
  unfold parseCheck. intros H. inv_ok.
  repeat match goal with H : text _ _ _ = Ok _ |- _ => apply eval_text_Ok in H as [_ H] end.
  by split.
Qed.

Lemma parse_encode_check c : check_ok c -> parseCheck (encode_check c) = Ok c.
Proof.
  intros [? ?]. unfold parseCheck, encode_check. cbn [record record_field is_record mbind result_bind].
  read_fields. rewrite !text_VString by done. cbn. by destruct c.
Qed.

Lemma parseMetrics_ok m ms : parseMetrics m = Ok ms -> metrics_ok ms.
Proof.
  unfold parseMetrics. intros H. inv_ok.
  repeat match goal with H : nonNegative _ _ = Ok _ |- _ => apply nonNegative_Ok in H as [_ H] end.
  unfold metrics_ok. cbn. by forall_list.
Qed.

Lemma parse_encode_metrics m : metrics_ok m ->
  exists fs, encode_metrics m = VObject fs /\ parseMetrics fs = Ok m.
Proof.
  intros Hm. unfold metrics_ok in Hm. rewrite !Forall_cons in Hm.
  destruct_and? Hm. eexists. split; [reflexivity|]. unfold parseMetrics. read_fields.
  repeat (rewrite nonNegative_VInt by done; cbn [mbind result_bind]). by destruct m.
Qed.

Lemma eval_optional_text_ok (v : value) o label : optional (fun x => text x 128 label) v = Ok o ->
  opt_ok (text_valid 128) o.
Proof.
  rewrite optional_Ok. intros [[_ ->]|(_ & a & -> & Hf)]; [done|].
  intros b [= <-]. by apply eval_text_Ok in Hf as [_ ?].
Qed.

Lemma eval_optional_text o label : opt_ok (text_valid 128) o ->
  optional (fun x => text x 128 label) (opt_value VString o) = Ok o.
Proof. intros Ho. apply optional_opt_value. intros a ->. split; [done|]. by apply text_VString, Ho. Qed.

Lemma parseAgentEvaluation_ok v e : parseAgentEvaluation v = Ok e -> evaluation_ok e.
Proof.
  unfold parseAgentEvaluation. intros H. inv_ok.
  repeat match goal with
  | H : text _ _ _ = Ok _ |- _ => apply eval_text_Ok in H as [_ H]
  | H : nonNegative _ _ = Ok _ |- _ => apply nonNegative_Ok in H as [_ H]
  | H : optional (fun _ => text _ _ _) _ = Ok _ |- _ => apply eval_optional_text_ok in H
  | H : parseMetrics _ = Ok _ |- _ => apply parseMetrics_ok in H
  | H : integer _ 1 _ _ = Ok _ |- _ =>
      apply int_field_Ok in H as [_ H]; [|unfold MIN_SAFE_INTEGER, MAX_SAFE_INTEGER; lia|done]
  end.
  constructor; try done. cbn [checks].
  eauto using map_result_Forall, parseCheck_ok.
Qed.

Lemma parse_encode_checks l : Forall check_ok l -> map_result parseCheck (map encode_check l) = Ok l.
Proof.
  intros Hl. rewrite <- (map_id l) at 2. apply map_result_map. intros c Hc.
  rewrite parse_encode_check; [done|]. by eapply Forall_forall in Hl.
Qed.

Lemma parse_encode_evaluation e : evaluation_ok e -> parseAgentEvaluation (encode_evaluation e) = Ok e.
Proof.
  intros [? ? Hver ? Hm ? ? ?]. destruct (parse_encode_metrics _ Hm) as (fs & Hfs & Hparse).
  unfold parseAgentEvaluation, encode_evaluation. rewrite Hfs.
  assert (Hint : integer (VInt (evaluatorVersion e)) 1 MAX_SAFE_INTEGER "agent evaluator version"
                 = Ok (evaluatorVersion e)).
  { apply int_field_Ok; [unfold MIN_SAFE_INTEGER, MAX_SAFE_INTEGER; lia | done..]. }
  cbn [record record_field is_record array array_field mbind result_bind].
  repeat first
    [ progress read_fields
    | rewrite text_VString by done | rewrite nonNegative_VInt by done
    | rewrite eval_optional_text by done | rewrite verdict_value_Ok | rewrite Hparse | rewrite Hint
    | rewrite parse_encode_checks by done
    | rewrite optional_opt_value by (intros ? _; split; [done | apply verdict_value_Ok])
    | progress cbn [record record_field is_record array array_field mbind result_bind] ].
  by destruct e.
Qed.

(** The evaluation parser accepts exactly the well-formed evaluations, and
    reads each one back unchanged from its wire form. *)
Theorem parseAgentEvaluation_exact e :
  (forall v, parseAgentEvaluation v = Ok e -> evaluation_ok e) /\
  (evaluation_ok e -> parseAgentEvaluation (encode_evaluation e) = Ok e).
Proof. split; [intros v; apply parseAgentEvaluation_ok | apply parse_encode_evaluation]. Qed.

End AgentEval.
