(* ===== verification/AgentMemory.v ===== *)
(** * Agent memory client

    [desktop/src/main/agent-memory.ts]: the memory request, the parser of the
    daemon's memory bundle, and the context messages built from it. *)

From S2P Require Import Prelude JsValue Validate.

Module AgentMemory.

Record AgentSemanticMemoryItem := {
  path : jstr; startLine : Z; endLine : Z; content : jstr; score : Z }.

Record AgentMemoryEpisode := {
  seq : Z; eventType : jstr; createdAt : Z;
  tool : option jstr; state : option jstr; decision : option jstr; route : option jstr;
  resultCategory : option jstr; errorCategory : option jstr; proofType : option jstr }.

Record AgentLearningHint := {
  hint_tool : jstr; hint_errorCategory : jstr; suggestion : jstr; hint_state : jstr }.

Record AgentProceduralMemory := {
  entrypoints : list jstr; guidance : list jstr; activePlans : list jstr;
  validationOwners : list jstr; closedLoopPhase : jstr; verificationStatus : jstr;
  recoveryStatus : jstr; selectedProofType : option jstr; learningHints : list AgentLearningHint }.

Record AgentMemoryBundle := {
  runId : jstr;
  semantic : list AgentSemanticMemoryItem;
  episodic : list AgentMemoryEpisode;
  procedural : AgentProceduralMemory }.

Definition integer := int_field.
Definition text (v : value) (maxBytes : Z) (label : string) (allowEmpty : bool) : result jstr :=
  text_field allowEmpty is_nul v maxBytes label.
Definition array := array_field.
Definition record := record_field.
Definition stringArray (v : value) (label : string) : result (list jstr) :=
  items ← array v label; map_result (fun item => text item 4096 label false) items.

Definition parseSemanticItem (item : value) : result AgentSemanticMemoryItem :=
  row ← record item "agent semantic item";
  p ← text (field row (js "path")) 4096 "agent semantic path" false;
  a ← integer (field row (js "start_line")) 1 MAX_SAFE_INTEGER "agent semantic start line";
  b ← integer (field row (js "end_line")) 1 MAX_SAFE_INTEGER "agent semantic end line";
  c ← text (field row (js "content")) (128 * 1024) "agent semantic content" true;
  sc ← integer (field row (js "score")) MIN_SAFE_INTEGER MAX_SAFE_INTEGER "agent semantic score";
  Ok {| path := p; startLine := a; endLine := b; content := c; score := sc |}.

(** [optionalFields]: the optional facts of an episode, in the table's order. *)
Definition optionalField (row : list (jstr * value)) (source : string) (max : Z)
  : result (option jstr) :=
  optional (fun v => text v max ("agent episode " +:+ source) false) (field row (js source)).

Definition optionalFields (row : list (jstr * value)) (seq : Z) (eventType : jstr) (createdAt : Z)
  : result AgentMemoryEpisode :=
  t ← optionalField row "tool" 128;
  s ← optionalField row "state" 64;
  d ← optionalField row "decision" 32;
  r ← optionalField row "route" 64;
  rc ← optionalField row "result_category" 64;
  ec ← optionalField row "error_category" 64;
  pt ← optionalField row "proof_type" 64;
  Ok {| seq := seq; eventType := eventType; createdAt := createdAt; tool := t; state := s;
        decision := d; route := r; resultCategory := rc; errorCategory := ec; proofType := pt |}.

Definition parseEpisode (item : value) : result AgentMemoryEpisode :=
  row ← record item "agent episodic item";
  n ← integer (field row (js "seq")) 0 MAX_SAFE_INTEGER "agent episode seq";
  ty ← text (field row (js "event_type")) 128 "agent episode type" false;
  at_ ← integer (field row (js "created_at")) 0 MAX_SAFE_INTEGER "agent episode timestamp";
  optionalFields row n ty at_.

Definition parseLearningHint (item : value) : result AgentLearningHint :=
  row ← record item "agent learning hint";
  t ← text (field row (js "tool")) 128 "agent learning tool" false;
  e ← text (field row (js "error_category")) 128 "agent learning error category" false;
  s ← text (field row (js "suggestion")) 1024 "agent learning suggestion" true;
  st ← text (field row (js "state")) 64 "agent learning state" false;
  Ok {| hint_tool := t; hint_errorCategory := e; suggestion := s; hint_state := st |}.

Definition parseAgentMemory (v : value) : result AgentMemoryBundle :=
  root ← record v "agent memory";
  semanticRoot ← record (field root (js "semantic")) "agent semantic memory";
  proceduralRoot ← record (field root (js "procedural")) "agent procedural memory";
  repository ← record (field proceduralRoot (js "repository_context")) "agent repository context";
  run ← text (field root (js "run_id")) 128 "agent memory run id" false;
  semItems ← array (field semanticRoot (js "items")) "agent semantic items";
  sem ← map_result parseSemanticItem semItems;
  epItems ← array (field root (js "episodic")) "agent episodic memory";
  eps ← map_result parseEpisode epItems;
  entry ← stringArray (field repository (js "entrypoints")) "agent entrypoints";
  guide ← stringArray (field repository (js "guidance")) "agent guidance";
  plans ← stringArray (field repository (js "active_plans")) "agent active plans";
  owners ← stringArray (field repository (js "validation_owners")) "agent validation owners";
  phase ← text (field proceduralRoot (js "closed_loop_phase")) 64 "agent closed loop phase" false;
  verif ← text (field proceduralRoot (js "verification_status")) 64 "agent verification status" false;
  recov ← text (field proceduralRoot (js "recovery_status")) 64 "agent recovery status" false;
  proof ← optional (fun x => text x 64 "agent proof type" false)
            (field proceduralRoot (js "selected_proof_type"));
  hintItems ← array (field proceduralRoot (js "learning_hints")) "agent learning hints";
  hints ← map_result parseLearningHint hintItems;
  Ok {| runId := run; semantic := sem; episodic := eps;
        procedural := {| entrypoints := entry; guidance := guide; activePlans := plans;
          validationOwners := owners; closedLoopPhase := phase; verificationStatus := verif;
          recoveryStatus := recov; selectedProofType := proof; learningHints := hints |} |}.

(** [AgentMemoryClient.retrieve], over the caller's [harnessRequest]. *)
Definition retrieve {S} (harnessRequest : string -> value -> M S value)
    (runId query : jstr) (maxItems maxBytes maxEpisodes : option num) : M S AgentMemoryBundle :=
  raw ← harnessRequest "/api/v1/harness/agent/memory"
          (VObject [(js "run_id", VString runId); (js "query", VString query);
                    (js "max_items", VNumber (default (NInt 12) maxItems));
                    (js "max_bytes", VNumber (default (NInt (48 * 1024)) maxBytes));
                    (js "max_episodes", VNumber (default (NInt 20) maxEpisodes))]);
  lift (parseAgentMemory raw).

(** ** Context messages *)

Definition nl : jstr := [10%N].

Definition semanticMessage (item : AgentSemanticMemoryItem) : jstr :=
  js "[repository:" ++ path item ++ js ":" ++ js_int (startLine item) ++ js "-"
    ++ js_int (endLine item) ++ js " score=" ++ js_int (score item) ++ js "]" ++ nl ++ content item.

(** [[...].filter(Boolean)] *)
Definition present (facts : list (option jstr)) : list jstr := filter truthy (omap id facts).

Definition episodeLine (e : AgentMemoryEpisode) : jstr :=
  let facts := join (js " | ") (present
    [Some (eventType e); tool e; decision e; route e; resultCategory e; errorCategory e; proofType e]) in
  js "#" ++ js_int (seq e) ++ js " " ++ facts.

(** [list.length ? `label: ${list.join(sep)}` : ""] *)
Definition listLine (label sep : string) (l : list jstr) : jstr :=
  match l with [] => [] | _ => js label ++ join (js sep) l end.

Definition hintText (h : AgentLearningHint) : jstr :=
  hint_tool h ++ js "/" ++ hint_errorCategory h ++ js ": " ++ suggestion h.

Definition procedureMessage (p : AgentProceduralMemory) : jstr :=
  join nl (filter truthy
    [js "[procedural] phase=" ++ closedLoopPhase p ++ js " verification=" ++ verificationStatus p
       ++ js " recovery=" ++ recoveryStatus p;
     listLine "entrypoints: " ", " (entrypoints p);
     listLine "guidance: " ", " (guidance p);
     listLine "active plans: " ", " (activePlans p);
     listLine "learning: " "; " (map hintText (learningHints p))]).

Definition memoryContextMessages (m : AgentMemoryBundle) : list jstr :=
  let sem := map semanticMessage (semantic m) in
  let episodes := match episodic m with
                  | [] => []
                  | _ => [js "[episodic]" ++ nl ++ join nl (map episodeLine (episodic m))]
                  end in
  let procedure := procedureMessage (procedural m) in
  filter (fun v => 0 <? slen v) (sem ++ episodes ++ [procedure]).

(** ** Bounds of an accepted bundle *)

Definition text_valid (e : bool) (m : Z) (s : jstr) : Prop :=
  (e = true \/ s <> []) /\ utf8_len s <= m /\ has_nul s = false.
Definition opt_valid (m : Z) (o : option jstr) : Prop := forall s, o = Some s -> text_valid false m s.

Definition item_ok (i : AgentSemanticMemoryItem) : Prop :=
  text_valid false 4096 (path i) /\ 1 <= startLine i <= MAX_SAFE_INTEGER /\
  1 <= endLine i <= MAX_SAFE_INTEGER /\ text_valid true (128 * 1024) (content i) /\
  MIN_SAFE_INTEGER <= score i <= MAX_SAFE_INTEGER.
Definition episode_ok (e : AgentMemoryEpisode) : Prop :=
  0 <= seq e <= MAX_SAFE_INTEGER /\ text_valid false 128 (eventType e) /\
  0 <= createdAt e <= MAX_SAFE_INTEGER /\
  opt_valid 128 (tool e) /\ opt_valid 64 (state e) /\ opt_valid 32 (decision e) /\
  opt_valid 64 (route e) /\ opt_valid 64 (resultCategory e) /\ opt_valid 64 (errorCategory e) /\
  opt_valid 64 (proofType e).
Definition hint_ok (h : AgentLearningHint) : Prop :=
  text_valid false 128 (hint_tool h) /\ text_valid false 128 (hint_errorCategory h) /\
  text_valid true 1024 (suggestion h) /\ text_valid false 64 (hint_state h).
Definition procedural_ok (p : AgentProceduralMemory) : Prop :=
  Forall (Forall (text_valid false 4096))
    [entrypoints p; guidance p; activePlans p; validationOwners p] /\
  Forall (text_valid false 64) [closedLoopPhase p; verificationStatus p; recoveryStatus p] /\
  opt_valid 64 (selectedProofType p) /\ Forall hint_ok (learningHints p).
Definition bundle_ok (m : AgentMemoryBundle) : Prop :=
  text_valid false 128 (runId m) /\ Forall item_ok (semantic m) /\
  Forall episode_ok (episodic m) /\ procedural_ok (procedural m).

(** ** Lemmas *)

Lemma memory_text_Ok v m label e s : text v m label e = Ok s <-> v = VString s /\ text_valid e m s.
Proof.
  unfold text. rewrite text_field_Ok, text_ok_spec. unfold text_valid, has_nul. naive_solver.
Qed.

Lemma memory_integer_Ok v lo hi label z : MIN_SAFE_INTEGER <= lo -> hi <= MAX_SAFE_INTEGER ->
  integer v lo hi label = Ok z -> lo <= z <= hi.
Proof. intros ? ? H. by apply int_field_Ok in H as [_ ?]. Qed.

Lemma memory_optional_text_ok (v : value) m label o :
  optional (fun x => text x m label false) v = Ok o -> opt_valid m o.
Proof.
  rewrite optional_Ok. intros [[_ ->]|(_ & a & -> & Hf)]; [done|].
  intros b [= <-]. by apply memory_text_Ok in Hf as [_ ?].
Qed.

Lemma stringArray_ok v label l : stringArray v label = Ok l -> Forall (text_valid false 4096) l.
Proof.
  unfold stringArray. intros H. inv_ok. eapply map_result_Forall; [done|].
  cbn beta. intros y s Hs. by apply memory_text_Ok in Hs as [_ ?].
Qed.

Ltac memory_bounds :=
  repeat match goal with
  | H : text _ _ _ _ = Ok _ |- _ => apply memory_text_Ok in H as [_ H]
  | H : integer _ _ _ _ = Ok _ |- _ =>
      apply memory_integer_Ok in H; [|unfold MIN_SAFE_INTEGER, MAX_SAFE_INTEGER; lia|unfold MIN_SAFE_INTEGER, MAX_SAFE_INTEGER; lia]
  | H : optionalField _ _ _ = Ok _ |- _ => apply memory_optional_text_ok in H
  | H : optional (fun _ => text _ _ _ false) _ = Ok _ |- _ => apply memory_optional_text_ok in H
  | H : stringArray _ _ = Ok _ |- _ => apply stringArray_ok in H
  end.

Lemma parseSemanticItem_ok v i : parseSemanticItem v = Ok i -> item_ok i.
Proof. unfold parseSemanticItem. intros H. inv_ok. memory_bounds. unfold item_ok. cbn. tauto. Qed.

Lemma parseEpisode_ok v e : parseEpisode v = Ok e -> episode_ok e.
Proof. unfold parseEpisode, optionalFields. intros H. inv_ok. memory_bounds. unfold episode_ok. cbn. tauto. Qed.

Lemma parseLearningHint_ok v h : parseLearningHint v = Ok h -> hint_ok h.
Proof. unfold parseLearningHint. intros H. inv_ok. memory_bounds. unfold hint_ok. cbn. tauto. Qed.

Lemma parseAgentMemory_ok v m : parseAgentMemory v = Ok m -> bundle_ok m.
Proof.
  unfold parseAgentMemory. intros H. inv_ok. memory_bounds.
  split; [done|]. split; [|split]; cbn [semantic episodic procedural].
  - eauto using map_result_Forall, parseSemanticItem_ok.
  - eauto using map_result_Forall, parseEpisode_ok.
  - unfold procedural_ok. cbn. rewrite !Forall_cons, !Forall_nil.
    match goal with H : map_result parseLearningHint _ = Ok _ |- _ =>
      eapply map_result_Forall in H; [|exact parseLearningHint_ok] end.
    tauto.
Qed.

Lemma semanticMessage_length i : 1 <= slen (semanticMessage i).
Proof. unfold semanticMessage, slen. rewrite length_app. simpl. lia. Qed.

Lemma join_cons_nonempty sep x l : x <> [] -> join sep (x :: l) <> [].
Proof. destruct x; [done|]. by destruct l. Qed.

Lemma procedureMessage_nonempty p : procedureMessage p <> [].
Proof. unfold procedureMessage. rewrite filter_cons_True by done. by apply join_cons_nonempty. Qed.


(** The memory parser enforces its bounds on every field of the bundle, and
    the context built from an accepted bundle consists of one message per
    semantic item, one for the episodes when there are any, and the procedural
    message last; none of them is empty and none is dropped. *)
Theorem memory_context_shape v m : parseAgentMemory v = Ok m ->
  bundle_ok m /\
  memoryContextMessages m =
    map semanticMessage (semantic m)
    ++ (if bool_decide (episodic m = []) then []
        else [js "[episodic]" ++ nl ++ join nl (map episodeLine (episodic m))])
    ++ [procedureMessage (procedural m)].
Proof.
  intros Hv. split; [by eapply parseAgentMemory_ok|].
  unfold memoryContextMessages. rewrite filter_all.
  - f_equal. f_equal. by destruct (episodic m).
  - apply Forall_app. split; [|apply Forall_app; split].
    + apply Forall_map, Forall_true. intros i. pose proof (semanticMessage_length i).
      apply Is_true_true, Z.ltb_lt. lia.
    + destruct (episodic m); repeat constructor.
    + constructor; [|done]. apply Is_true_true, Z.ltb_lt. unfold slen.
      pose proof (procedureMessage_nonempty (procedural m)).
      destruct (procedureMessage _); [done|]. simpl. lia.
Qed.

Definition sample_memory : value := VObject
  [(js "run_id", VString (js "run"));
   (js "semantic", VObject [(js "items", VArray [VObject
      [(js "path", VString (js "src/a.ts")); (js "start_line", VInt 1); (js "end_line", VInt 9);
       (js "content", VString []); (js "score", VInt (-3))]])]);
   (js "episodic", VArray [VObject
      [(js "seq", VInt 4); (js "event_type", VString (js "tool")); (js "created_at", VInt 7);
       (js "tool", VString (js "git_diff")); (js "route", VNull)]]);
   (js "procedural", VObject
     [(js "repository_context", VObject
        [(js "entrypoints", VArray [VString (js "main.ts")]); (js "guidance", VArray []);
         (js "active_plans", VArray []); (js "validation_owners", VArray [])]);
      (js "closed_loop_phase", VString (js "idle")); (js "verification_status", VString (js "none"));
      (js "recovery_status", VString (js "none")); (js "learning_hints", VArray [])])].

Lemma memory_context_shape_witness :
  exists m, parseAgentMemory sample_memory = Ok m /\ bundle_ok m.
Proof.
  eexists. assert (H : parseAgentMemory sample_memory = Ok _) by (vm_compute; reflexivity).
  split; [exact H | exact (proj1 (memory_context_shape _ _ H))].
Defined.

End AgentMemory.
