(* ===== verification/AgentSession.v ===== *)
(** * Agent working session

    [desktop/src/main/agent-session.ts] and the message type of
    [agent-model-adapter.ts]: the bounded in-memory context of one turn. *)

From S2P Require Import Prelude JsValue.

Module AgentSession.

Definition DEFAULT_MAX_SESSION_BYTES : Z := 128 * 1024.
Definition MAX_MESSAGE_BYTES : Z := 32 * 1024.

Inductive Role := user | context | tool.
#[global] Instance Role_eq_dec : EqDecision Role.
Proof. solve_decision. Defined.
Definition role_name (r : Role) : string :=
  match r with user => "user" | context => "context" | tool => "tool" end.

Record AgentModelMessage := { role : Role; content : jstr; toolName : option jstr }.

Record AgentSession := {
  messages : list AgentModelMessage;
  usedBytes : Z;
  maxBytes : Z }.

Record AgentSessionSeed := {
  seed_userMessage : jstr;
  seed_context : option (list jstr);
  seed_maxBytes : option num }.

Definition boundedText (s : jstr) (max : Z) (label : string) : result jstr :=
  if negb (truthy s) || has_nul s then fail (label +:+ " is invalid")
  else if max <? utf8_len s
  then Throw (Error (js label ++ js " exceeds " ++ js_int max ++ js " bytes"))
  else Ok s.

Definition boundedPositive (v : num) (min max : Z) (label : string) : result Z :=
  match safe_in_range min max v with
  | Some z => Ok z
  | None => Throw (Error (js label ++ js " must be " ++ js_int min ++ js "-" ++ js_int max))
  end.

(** Bytes a message is charged for. *)
Definition tool_bytes (t : option jstr) : Z :=
  match t with Some n => if truthy n then utf8_len n else 0 | None => 0 end.
Definition message_bytes (m : AgentModelMessage) : Z := utf8_len (content m) + tool_bytes (toolName m).

(** [append]: either the message is recorded and charged, or the session is
    left as it was and the call throws. *)
Definition append (s : AgentSession) (r : Role) (text : jstr) (name : option jstr)
  : result AgentSession :=
  bounded ← boundedText text MAX_MESSAGE_BYTES ("agent " +:+ role_name r +:+ " message");
  let bytes := utf8_len bounded + tool_bytes name in
  if maxBytes s <? usedBytes s + bytes
  then fail "Agent working context exceeded its bounded session budget"
  else Ok {| messages := messages s ++
               [{| role := r; content := bounded;
                   toolName := match name with
                               | Some n => if truthy n then Some n else None
                               | None => None end |}];
             usedBytes := usedBytes s + bytes;
             maxBytes := maxBytes s |}.

Definition appendContext (s : AgentSession) (text : jstr) : result AgentSession :=
  append s context text None.

(** [for (const context of ...) this.append("context", context)] *)
Fixpoint append_all (s : AgentSession) (contexts : list jstr) : result AgentSession :=
  match contexts with
  | [] => Ok s
  | c :: rest => s' ← append s context c None; append_all s' rest
  end.

(** The constructor. *)
Definition new_session (seed : AgentSessionSeed) : result AgentSession :=
  max ← boundedPositive (default (NInt DEFAULT_MAX_SESSION_BYTES) (seed_maxBytes seed))
          1024 (512 * 1024) "agent session maxBytes";
  s ← append {| messages := []; usedBytes := 0; maxBytes := max |} user (seed_userMessage seed) None;
  append_all s (default [] (seed_context seed)).

Definition snapshot (s : AgentSession) : list AgentModelMessage := messages s.

Section observation.
(** [JSON.stringify]: [None] when it throws, [Some None] when it returns
    [undefined] (for a value that has no JSON form). *)
Context (JSON_stringify : value -> option (option jstr)).

Definition stableObservation (v : value) : result jstr :=
  match v with
  | VString s => boundedText s MAX_MESSAGE_BYTES "agent tool observation"
  | _ =>
      match JSON_stringify v with
      | None => fail "Agent tool observation is not JSON serializable"
      | Some serialized =>
          boundedText (default (js "null") serialized) MAX_MESSAGE_BYTES "agent tool observation"
      end
  end.

Definition appendToolObservation (s : AgentSession) (name : jstr) (v : value)
  : result AgentSession :=
  safeName ← boundedText name 128 "agent tool name";
  observation ← stableObservation v;
  append s tool observation (Some safeName).
End observation.

(** ** The session invariant *)

Definition message_ok (m : AgentModelMessage) : Prop :=
  content m <> [] /\ has_nul (content m) = false /\ utf8_len (content m) <= MAX_MESSAGE_BYTES.

Fixpoint total_bytes (l : list AgentModelMessage) : Z :=
  match l with [] => 0 | m :: l' => message_bytes m + total_bytes l' end.

Record session_ok (s : AgentSession) : Prop := {
  ok_used : usedBytes s = total_bytes (messages s);
  ok_budget : usedBytes s <= maxBytes s;
  ok_max : 1024 <= maxBytes s <= 512 * 1024;
  ok_messages : Forall message_ok (messages s)
}.

(** ** Lemmas *)

Lemma boundedText_Ok s max label t : boundedText s max label = Ok t ->
  t = s /\ s <> [] /\ has_nul s = false /\ utf8_len s <= max.
Proof.
  unfold boundedText. destruct (negb (truthy s) || has_nul s) eqn:E; [done|].
  destruct (max <? utf8_len s) eqn:E'; [done|]. intros [= <-]. to_prop.
  split_and!; try done. by apply truthy_true.
Qed.

Lemma total_bytes_app l1 l2 : total_bytes (l1 ++ l2) = total_bytes l1 + total_bytes l2.
Proof. induction l1 as [|m l1 IH]; simpl; lia. Qed.

Lemma tool_bytes_kept name :
  tool_bytes (match name with Some n => if truthy n then Some n else None | None => None end)
  = tool_bytes name.
Proof. destruct name as [[|u n]|]; done. Qed.

Lemma append_Ok s r text name s' : append s r text name = Ok s' -> session_ok s ->
  session_ok s' /\ maxBytes s' = maxBytes s /\
  exists m, messages s' = messages s ++ [m] /\ role m = r /\ content m = text /\
            usedBytes s' = usedBytes s + message_bytes m.
Proof.
  unfold append. intros H [Hu Hb Hm Hf]. apply bind_Ok in H as (t & Ht & H).
  apply boundedText_Ok in Ht as (-> & ? & ? & ?).
  destruct (maxBytes s <? _) eqn:E; [done|]. injection H as <-. to_prop.
  split; [|split; [done|]].
  - constructor; cbn; [|lia|done|].
    + rewrite total_bytes_app. cbn. unfold message_bytes. cbn. rewrite tool_bytes_kept. lia.
    + apply Forall_app. split; [done|]. by repeat constructor.
  - eexists. cbn. split_and!; try done. unfold message_bytes. cbn. by rewrite tool_bytes_kept.
Qed.

Lemma append_all_Ok contexts s s' : append_all s contexts = Ok s' -> session_ok s ->
  session_ok s' /\ maxBytes s' = maxBytes s /\
  map content (messages s') = map content (messages s) ++ contexts.
Proof.
  revert s. induction contexts as [|c l IH]; simpl; intros s H Hs.
  - injection H as <-. by rewrite app_nil_r.
  - apply bind_Ok in H as (s1 & H1 & H).
    apply append_Ok in H1 as (Hs1 & Hmax & m & Hm & _ & Hc & _); [|done].
    destruct (IH _ H Hs1) as (? & ? & Hmap). split_and!; [done|congruence|].
    rewrite Hmap, Hm, map_app, <- app_assoc. simpl. by rewrite Hc.
Qed.

Lemma empty_session_ok max : 1024 <= max <= 512 * 1024 ->
  session_ok {| messages := []; usedBytes := 0; maxBytes := max |}.
Proof. intros. by constructor; cbn; [|lia|..]. Qed.

Lemma new_session_ok seed s : new_session seed = Ok s ->
  session_ok s /\
  map content (messages s) = seed_userMessage seed :: default [] (seed_context seed).
Proof.
  unfold new_session. intros H. apply bind_Ok in H as (max & Hmax & H).
  apply bind_Ok in H as (s1 & H1 & H). unfold boundedPositive in Hmax.
  destruct (safe_in_range _ _ _) as [z|] eqn:E; [|done]. injection Hmax as ->.
  apply safe_in_range_Some in E as (_ & ? & _).
  apply append_Ok in H1 as (Hs1 & _ & m & Hm & _ & Hc & _); [|by apply empty_session_ok].
  apply append_all_Ok in H as (? & _ & ->); [|done]. rewrite Hm. simpl. by rewrite Hc.
Qed.

Lemma appendToolObservation_ok stringify s name v s' :
  appendToolObservation stringify s name v = Ok s' -> session_ok s ->
  session_ok s' /\ maxBytes s' = maxBytes s /\
  exists m, messages s' = messages s ++ [m] /\ role m = tool.
Proof.
  unfold appendToolObservation. intros H Hs. inv_ok.
  apply append_Ok in H as (? & ? & m & ? & ? & _); [|done]. eauto 10.
Qed.

(** The byte account of a session is exact and never exceeds its budget.
    A constructed session holds the user message and then the contexts, in
    order; every message appended later is charged its UTF-8 bytes (and its
    tool name's), holds 1 to 32768 bytes without NUL, and an append that would
    exceed the budget is refused. *)
Theorem session_budget stringify seed s name v s' :
  new_session seed = Ok s -> appendToolObservation stringify s name v = Ok s' ->
  session_ok s /\ session_ok s' /\
  map content (messages s) = seed_userMessage seed :: default [] (seed_context seed) /\
  prefix (messages s) (messages s').
Proof.
  intros Hs Hs'. apply new_session_ok in Hs as [Hok Hc].
  apply appendToolObservation_ok in Hs' as (? & _ & m & Hm & _); [|done].
  split_and!; try done. by exists [m].
Qed.

Lemma session_budget_witness : exists s s',
  new_session {| seed_userMessage := js "fix it"; seed_context := Some [js "ctx"];
                 seed_maxBytes := Some (NInt 1024) |} = Ok s /\
  appendToolObservation (fun _ => Some None) s (js "git") VNull = Ok s' /\
  usedBytes s' = 16 /\ session_ok s'.
Proof.
  eexists _, _.
  assert (H : new_session {| seed_userMessage := js "fix it"; seed_context := Some [js "ctx"];
                 seed_maxBytes := Some (NInt 1024) |} = Ok _) by (vm_compute; reflexivity).
  split; [exact H|].
  match type of H with _ = Ok ?s =>
    assert (H' : appendToolObservation (fun _ => Some None) s (js "git") VNull = Ok _)
      by (vm_compute; reflexivity) end.
  split; [exact H'|]. split; [reflexivity|]. apply (session_budget _ _ _ _ _ _ H H').
Defined.

End AgentSession.
