(* ===== verification/AgentLoop.v ===== *)
(** * The governed agent loop

    [desktop/src/main/agent-loop.ts] with the decision type of
    [agent-model-adapter.ts]: the model proposes, the loop validates the
    proposal, reports it, and only then calls the governed tool gateway. *)

From S2P Require Import Prelude JsValue AgentSession.
Import AgentSession.AgentSession.

Module AgentLoop.

Definition MAX_TOOL_NAME_BYTES : Z := 128.

(** Token totals are JavaScript numbers: a sum may leave the safe range. *)
Record AgentTokenUsage := { inputTokens : num; outputTokens : num }.

Inductive AgentModelDecision :=
| reply (text : jstr) (usage : option AgentTokenUsage)
| use_tool (name : jstr) (arguments : value) (usage : option AgentTokenUsage)
| stop (usage : option AgentTokenUsage).

Definition decision_usage (d : AgentModelDecision) : option AgentTokenUsage :=
  match d with reply _ u | use_tool _ _ u | stop u => u end.

Record AgentModelInput := {
  input_messages : list AgentModelMessage; input_iteration : Z; input_maxIterations : Z }.

Inductive AgentLoopEvent :=
| ev_iteration (iteration : Z)
| ev_decision (iteration : Z) (decision : string) (toolName : option jstr)
| ev_tool_result (iteration : Z) (toolName : jstr).

Inductive LoopStatus := completed | iteration_limit.
Inductive LoopStopReason := model_reply | no_tool | limit_reached.

Record AgentLoopResult := {
  loop_status : LoopStatus;
  loop_stopReason : LoopStopReason;
  loop_reply : option jstr;
  loop_iterations : Z;
  loop_usage : AgentTokenUsage }.

Definition boundedIterations (v : num) : result Z :=
  match safe_in_range 1 64 v with
  | Some z => Ok z
  | None => fail "Agent maxIterations must be 1-64"
  end.

Definition boundedToolName (v : jstr) : result jstr :=
  if negb (truthy v) || (MAX_TOOL_NAME_BYTES <? utf8_len v) || has_control v
  then fail "Agent model returned an invalid tool name" else Ok v.

Definition boundedReply (v : jstr) : result jstr :=
  if (128 * 1024 <? utf8_len v) || has_nul v
  then fail "Agent model returned an invalid reply" else Ok v.

(** [Number.isSafeInteger(value) && value >= 0] *)
Definition safe_nonneg (n : num) : option Z := safe_in_range 0 MAX_SAFE_INTEGER n.

(** [current + next] where [next] is a safe integer and [current] a running
    total, which starts at 0 and stays integral (see [total_integral]). *)
Definition add_tokens (current : num) (next : Z) : num :=
  match current with NInt c => double_add c next | other => other end.

Definition addUsage (current : AgentTokenUsage) (next : option AgentTokenUsage)
  : result AgentTokenUsage :=
  match next with
  | None => Ok current
  | Some n =>
      match safe_nonneg (inputTokens n), safe_nonneg (outputTokens n) with
      | Some i, Some o => Ok {| inputTokens := add_tokens (inputTokens current) i;
                                outputTokens := add_tokens (outputTokens current) o |}
      | _, _ => fail "Agent model returned invalid token usage"
      end
  end.

Section loop.
(** The injected collaborators, as actions on the outside world [E]. *)
Context {E : Type}.
Context (decide : AgentModelInput -> M E AgentModelDecision).
Context (execute : jstr -> jstr -> value -> M E value).
Context (onEvent : AgentLoopEvent -> M E unit).
Context (JSON_stringify : value -> option (option jstr)).
Context (runId : jstr) (maxIterations : Z).

(** The body of the [for] loop, [fuel] iterations from [iteration] on. *)
Fixpoint loop (fuel : nat) (iteration : Z) (session : AgentSession) (usage : AgentTokenUsage)
  : M E (AgentLoopResult * AgentSession) :=
  match fuel with
  | O => mret ({| loop_status := iteration_limit; loop_stopReason := limit_reached;
                  loop_reply := None; loop_iterations := maxIterations;
                  loop_usage := usage |}, session)
  | S fuel' =>
      _ ← onEvent (ev_iteration iteration);
      decision ← decide {| input_messages := snapshot session; input_iteration := iteration;
                           input_maxIterations := maxIterations |};
      usage' ← lift (addUsage usage (decision_usage decision));
      match decision with
      | reply text _ =>
          r ← lift (boundedReply text);
          _ ← onEvent (ev_decision iteration "reply" None);
          mret ({| loop_status := completed; loop_stopReason := model_reply;
                   loop_reply := Some r; loop_iterations := iteration;
                   loop_usage := usage' |}, session)
      | stop _ =>
          _ ← onEvent (ev_decision iteration "stop" None);
          mret ({| loop_status := completed; loop_stopReason := no_tool;
                   loop_reply := None; loop_iterations := iteration;
                   loop_usage := usage' |}, session)
      | use_tool name arguments _ =>
          toolName ← lift (boundedToolName name);
          _ ← onEvent (ev_decision iteration "tool" (Some toolName));
          result ← execute runId toolName arguments;
          session' ← lift (appendToolObservation JSON_stringify session toolName result);
          _ ← onEvent (ev_tool_result iteration toolName);
          loop fuel' (iteration + 1) session' usage'
      end
  end.
End loop.

(** [runAgentLoop]: the [for] loop runs [maxIterations] times at most. *)
Definition runAgentLoop {E} (decide : AgentModelInput -> M E AgentModelDecision)
    (execute : jstr -> jstr -> value -> M E value) (onEvent : AgentLoopEvent -> M E unit)
    (JSON_stringify : value -> option (option jstr))
    (runId : jstr) (maxIterations : num) (session : AgentSession)
  : M E (AgentLoopResult * AgentSession) :=
  max ← lift (boundedIterations maxIterations);
  loop decide execute onEvent JSON_stringify runId max (Z.to_nat max) 1 session
    {| inputTokens := NInt 0; outputTokens := NInt 0 |}.

(** ** An observed world: every call to a collaborator is logged, and each
    answer may depend on all the calls made before it. *)

Inductive call :=
| Decide (input : AgentModelInput)
| Execute (runId name : jstr) (arguments : value)
| Event (ev : AgentLoopEvent).

Record World := {
  on_decide : list call -> AgentModelInput -> result AgentModelDecision;
  on_execute : list call -> jstr -> jstr -> value -> result value;
  on_event : list call -> AgentLoopEvent -> result unit }.

Definition w_decide (w : World) (i : AgentModelInput) : M (list call) AgentModelDecision :=
  fun log => (on_decide w log i, log ++ [Decide i]).
Definition w_execute (w : World) (r n : jstr) (a : value) : M (list call) value :=
  fun log => (on_execute w log r n a, log ++ [Execute r n a]).
Definition w_event (w : World) (e : AgentLoopEvent) : M (list call) unit :=
  fun log => (on_event w log e, log ++ [Event e]).

(** The order of calls the loop may make, as an automaton on the log. *)
Inductive phase :=
| at_iteration (i : Z)
| at_decide (i : Z)
| at_decision (i : Z)
| at_execute (i : Z) (name : jstr)
| at_result (i : Z) (name : jstr)
| finished (i : Z) (how : LoopStopReason).

Definition tool_name_ok (n : jstr) : bool :=
  truthy n && (utf8_len n <=? MAX_TOOL_NAME_BYTES) && negb (has_control n).

Definition step_phase (run : jstr) (max : Z) (p : phase) (c : call) : option phase :=
  match p, c with
  | at_iteration i, Event (ev_iteration j) =>
      if (j =? i) && (i <=? max) then Some (at_decide i) else None
  | at_decide i, Decide inp =>
      if (input_iteration inp =? i) && (input_maxIterations inp =? max)
      then Some (at_decision i) else None
  | at_decision i, Event (ev_decision j what name) =>
      if negb (j =? i) then None else
      match name with
      | Some n => if bool_decide (what = "tool"%string) && tool_name_ok n
                  then Some (at_execute i n) else None
      | None => if bool_decide (what = "reply"%string) then Some (finished i model_reply)
                else if bool_decide (what = "stop"%string) then Some (finished i no_tool) else None
      end
  | at_execute i n, Execute r m _ =>
      if bool_decide (r = run) && bool_decide (m = n) then Some (at_result i n) else None
  | at_result i n, Event (ev_tool_result j m) =>
      if (j =? i) && bool_decide (m = n) then Some (at_iteration (i + 1)) else None
  | _, _ => None
  end.

Fixpoint run_phase (run : jstr) (max : Z) (p : phase) (log : list call) : option phase :=
  match log with
  | [] => Some p
  | c :: log' => p' ← step_phase run max p c; run_phase run max p' log'
  end.

Definition is_execute (c : call) : bool := match c with Execute _ _ _ => true | _ => false end.
Definition is_decide (c : call) : bool := match c with Decide _ => true | _ => false end.
Definition count (f : call -> bool) (l : list call) : Z := Z.of_nat (length (filter f l)).

(** ** Lemmas *)

Lemma run_phase_app run max p l1 l2 :
  run_phase run max p (l1 ++ l2) = run_phase run max p l1 ≫= fun p' => run_phase run max p' l2.
Proof.
  revert p. induction l1 as [|c l1 IH]; intros p; simpl; [done|].
  destruct (step_phase run max p c); simpl; [apply IH | done].
Qed.

Lemma run_phase_snoc run max p log c q r :
  run_phase run max p log = Some q -> step_phase run max q c = Some r ->
  run_phase run max p (log ++ [c]) = Some r.
Proof. intros Hq Hr. rewrite run_phase_app, Hq. simpl. by rewrite Hr. Qed.

(** Calls made so far in each phase. *)
Definition decides_done (p : phase) : Z :=
  match p with
  | at_iteration i | at_decide i => i - 1
  | at_decision i | at_execute i _ | at_result i _ | finished i _ => i
  end.
Definition executes_done (p : phase) : Z :=
  match p with
  | at_result i _ => i
  | at_iteration i | at_decide i | at_decision i | at_execute i _ | finished i _ => i - 1
  end.
Definition phase_ok (max : Z) (p : phase) : Prop :=
  match p with
  | at_iteration i => 1 <= i <= max + 1
  | at_decide i | at_decision i | at_execute i _ | at_result i _ | finished i _ => 1 <= i <= max
  end.

Lemma step_phase_counts run max p c q : step_phase run max p c = Some q -> phase_ok max p ->
  phase_ok max q /\
  decides_done q = decides_done p + (if is_decide c then 1 else 0) /\
  executes_done q = executes_done p + (if is_execute c then 1 else 0).
Proof.
  intros H Hp. destruct p, c as [inp|r n a|[j|j what [n|]|j n]]; simpl in *; try done;
    repeat match type of H with
    | context [if ?b then _ else _] => destruct b eqn:?; simplify_eq; simpl
    end; try done; to_prop; lia.
Qed.

Lemma run_phase_counts run max p log q : run_phase run max p log = Some q -> phase_ok max p ->
  phase_ok max q /\ decides_done q = decides_done p + count is_decide log /\
  executes_done q = executes_done p + count is_execute log.
Proof.
  revert p. induction log as [|c log IH]; simpl; intros p H Hp.
  - injection H as <-. unfold count. simpl. split_and!; [done|lia|lia].
  - apply bind_Some in H as (p' & Hs & H).
    apply step_phase_counts in Hs as (Hp' & Hd & He); [|done].
    destruct (IH _ H Hp') as (? & ? & ?). unfold count in *.
    split; [done|]. rewrite !filter_cons.
    destruct (is_decide c), (is_execute c); simpl; lia.
Qed.

Lemma boundedToolName_Ok v n : boundedToolName v = Ok n -> n = v /\ tool_name_ok n = true.
Proof.
  unfold boundedToolName, tool_name_ok. destruct (_ || _ || _) eqn:E; [done|].
  intros [= <-]. split; [done|]. to_prop. apply andb_true_intro. split.
  - apply andb_true_intro. split; [done|]. by apply Z.leb_le.
  - by apply negb_true_iff.
Qed.

(** ** A proof rule for the loop

    [I p s]: the world [s] is in phase [p]; [F s]: the world as a throw may
    leave it. If every collaborator moves the phase as the automaton says, the
    whole loop does. *)
Section hoare.
Context {E : Type}.
Context (decide : AgentModelInput -> M E AgentModelDecision).
Context (execute : jstr -> jstr -> value -> M E value).
Context (onEvent : AgentLoopEvent -> M E unit).
Context (stringify : value -> option (option jstr)) (run : jstr) (max : Z).
Context (I : phase -> E -> Prop) (F : E -> Prop).

Definition after {A} (q : phase) (rs : result A * E) : Prop :=
  match rs with (Ok _, s) => I q s | (Throw _, s) => F s end.

Hypothesis I_F : forall p s, I p s -> F s.
Hypothesis decide_ok : forall p q i s, I p s -> step_phase run max p (Decide i) = Some q ->
  after q (decide i s).
Hypothesis execute_ok : forall p q r n a s, I p s ->
  step_phase run max p (Execute r n a) = Some q -> after q (execute r n a s).
Hypothesis event_ok : forall p q e s, I p s -> step_phase run max p (Event e) = Some q ->
  after q (onEvent e s).

(** What the final phase says about the outcome. *)
Definition outcome_ok (r : result (AgentLoopResult * AgentSession)) (p : phase) : Prop :=
  match r with
  | Throw _ => True
  | Ok (res, s) =>
      session_ok s /\
      match loop_status res with
      | completed => p = finished (loop_iterations res) (loop_stopReason res)
      | iteration_limit =>
          p = at_iteration (max + 1) /\ loop_iterations res = max /\
          loop_stopReason res = limit_reached /\ loop_reply res = None
      end
  end.
Definition loop_post (rs : result (AgentLoopResult * AgentSession) * E) : Prop :=
  match rs with
  | (Ok o, s) => exists p, I p s /\ outcome_ok (Ok o) p
  | (Throw _, s) => F s
  end.

Lemma after_bind {A B} q (m : M E A) (f : A -> M E B) s (P : result B * E -> Prop) :
  after q (m s) -> (forall e s', F s' -> P (Throw e, s')) ->
  (forall a s', I q s' -> P (f a s')) -> P ((m ≫= f) s).
Proof. intros Hm HF Hf. unfold mbind, M_bind. destruct (m s) as [[a|e] s']; eauto. Qed.

Lemma lift_bind {A B} (r : result A) (f : A -> M E B) s (P : result B * E -> Prop) :
  (forall e, r = Throw e -> P (Throw e, s)) -> (forall a, r = Ok a -> P (f a s)) ->
  P ((lift r ≫= f) s).
Proof. intros HF Hf. unfold lift, mbind, M_bind. destruct r; eauto. Qed.

(** One call: the automaton's step is computed from the shape of the call. *)
Ltac stepped := simpl; rewrite ?Z.eqb_refl, ?bool_decide_eq_true_2 by done; simpl;
  repeat match goal with H : ?b = true |- context [?b] => rewrite H end; reflexivity.
Ltac call := eapply after_bind;
  [ first [eapply event_ok | eapply decide_ok | eapply execute_ok]; [done | stepped]
  | by intros | intros ? ? ? ].
Ltac pure H := apply lift_bind; [intros; by eapply I_F | intros ? H].

Lemma loop_hoare fuel iteration session usage s :
  session_ok session -> 1 <= iteration -> max = iteration + Z.of_nat fuel - 1 ->
  I (at_iteration iteration) s ->
  loop_post (loop decide execute onEvent stringify run max fuel iteration session usage s).
Proof.
  revert iteration session usage s.
  induction fuel as [|fuel IH]; intros i ss u s Hss H1 Hmax Hi.
  { eexists. split; [done|]. split; [done|]. split_and!; try done. f_equal. lia. }
  assert (Hle : (i <=? max) = true) by (apply Z.leb_le; lia).
  cbn [loop]. call. call. pure Hu. destruct a0 as [text ud|name args ud|ud].
  - pure Ht. call. by eexists.
  - pure Hn. apply boundedToolName_Ok in Hn as [-> Hn]. call. call. pure Ho.
    apply appendToolObservation_ok in Ho as (Hs' & _); [|done]. call.
    apply IH; [done|lia|lia|done].
  - call. by eexists.
Qed.
End hoare.

Lemma loop_protocol w stringify run max fuel iteration session usage log p0 :
  session_ok session -> 1 <= iteration -> max = iteration + Z.of_nat fuel - 1 ->
  run_phase run max p0 log = Some (at_iteration iteration) ->
  let '(r, log') := loop (w_decide w) (w_execute w) (w_event w) stringify run max
                      fuel iteration session usage log in
  exists p, run_phase run max p0 log' = Some p /\ outcome_ok max r p.
Proof.
  intros Hs H1 Hmax Hp.
  assert (H : loop_post max (fun p l => run_phase run max p0 l = Some p)
    (fun l => exists p, run_phase run max p0 l = Some p)
    (loop (w_decide w) (w_execute w) (w_event w) stringify run max fuel iteration session usage log)).
  { apply loop_hoare; try done; unfold after, w_decide, w_execute, w_event; cbn beta.
    - eauto.
    - intros p q i l Hl Hq. destruct (on_decide w l i); eauto using run_phase_snoc.
    - intros p q r n a l Hl Hq. destruct (on_execute w l r n a); eauto using run_phase_snoc.
    - intros p q e l Hl Hq. destruct (on_event w l e); eauto using run_phase_snoc. }
  revert H. unfold loop_post. destruct (loop _ _ _ _ _ _ _ _ _ _ _) as [[o|e] l]; naive_solver.
Qed.

(** Adding up the usage of successive decisions, as the loop does. *)
Fixpoint total_usage (current : AgentTokenUsage) (us : list AgentTokenUsage)
  : result AgentTokenUsage :=
  match us with
  | [] => Ok current
  | u :: us' => c ← addUsage current (Some u); total_usage c us'
  end.
Definition usage_of (io : Z * Z) : AgentTokenUsage :=
  {| inputTokens := NInt io.1; outputTokens := NInt io.2 |}.
Definition sum_z (l : list Z) : Z := foldr Z.add 0 l.

Lemma safe_nonneg_NInt z : 0 <= z <= MAX_SAFE_INTEGER -> safe_nonneg (NInt z) = Some z.
Proof.
  intros. apply safe_in_range_NInt; [done|]. unfold MIN_SAFE_INTEGER, MAX_SAFE_INTEGER in *. lia.
Qed.

Lemma sum_z_nonneg l : Forall (fun z => 0 <= z) l -> 0 <= sum_z l.
Proof. induction 1; simpl; lia. Qed.

Lemma total_usage_exact i o us :
  Forall (fun z => 0 <= z <= MAX_SAFE_INTEGER) (map fst us) ->
  Forall (fun z => 0 <= z <= MAX_SAFE_INTEGER) (map snd us) ->
  0 <= i -> 0 <= o ->
  i + sum_z (map fst us) <= 2 ^ 53 -> o + sum_z (map snd us) <= 2 ^ 53 ->
  total_usage (usage_of (i, o)) (map usage_of us)
  = Ok (usage_of (i + sum_z (map fst us), o + sum_z (map snd us))).
Proof.
  revert i o. induction us as [|[a b] us IH]; cbn [map fst snd]; intros i o Ha Hb Hi Ho Hsi Hso.
  - simpl. by rewrite !Z.add_0_r.
  - apply Forall_cons in Ha as [Ha Has]. apply Forall_cons in Hb as [Hb Hbs].
    assert (0 <= sum_z (map fst us)) by (apply sum_z_nonneg; eapply Forall_impl; [done|]; cbn; lia).
    assert (0 <= sum_z (map snd us)) by (apply sum_z_nonneg; eapply Forall_impl; [done|]; cbn; lia).
    cbn [sum_z foldr] in *. fold (sum_z (map fst us)) in *. fold (sum_z (map snd us)) in *.
    cbn [total_usage]. unfold addUsage. cbn [usage_of inputTokens outputTokens fst snd].
    rewrite !safe_nonneg_NInt by done. cbn [add_tokens mbind result_bind].
    rewrite !double_add_exact by lia.
    change {| inputTokens := NInt (i + a); outputTokens := NInt (o + b) |} with (usage_of (i + a, o + b)).
    rewrite IH; [|done|done|lia..]. by rewrite !Z.add_assoc.
Qed.

(** C33: the loop's protocol with its collaborators, in any world. A limit
    outside 1-64 is refused before anything is called. Otherwise the log of
    calls follows the automaton: in iteration i the iteration is announced, the
    model is asked once, its decision is announced, and only an announced tool
    with a valid name is executed, under this run, with its result recorded
    before the next iteration. The model is asked at most [max] times, a tool is
    never executed without a decision, and the result reports the iteration and
    reason at which the automaton stopped. *)
Theorem agent_loop_protocol w stringify run maxIterations session :
  session_ok session ->
  let '(r, log) := runAgentLoop (w_decide w) (w_execute w) (w_event w) stringify run
                     maxIterations session [] in
  match safe_in_range 1 64 maxIterations with
  | None => r = fail "Agent maxIterations must be 1-64" /\ log = []
  | Some max =>
      exists p, run_phase run max (at_iteration 1) log = Some p /\ outcome_ok max r p /\
        count is_execute log <= count is_decide log <= max /\ max <= 64
  end.
Proof.
  intros Hs. unfold runAgentLoop, boundedIterations.
  destruct (safe_in_range 1 64 maxIterations) as [max|] eqn:E; [|done].
  apply safe_in_range_Some in E as (_ & Hmax & _).
  cbn [lift mbind M_bind].
  pose proof (loop_protocol w stringify run max (Z.to_nat max) 1 session
    {| inputTokens := NInt 0; outputTokens := NInt 0 |} [] (at_iteration 1) Hs ltac:(lia) ltac:(lia) eq_refl) as H.
  change ((lift (Ok max) ≫= ?f) []) with (f max []). cbn beta.
  destruct (loop _ _ _ _ _ _ _ _ _ _ _) as [r log] eqn:El. destruct H as (p & Hp & Ho).
  exists p. split; [done|]. split; [done|].
  destruct (run_phase_counts _ _ _ _ _ Hp) as (Hok & Hd & He); [simpl; lia|].
  destruct p; simpl in *; lia.
Qed.

(** Token totals are exact as long as they stay within 2^53, however many
    decisions contribute; each contribution must be a safe non-negative
    integer. *)
Theorem agent_usage_exact us :
  Forall (fun io => 0 <= io.1 <= MAX_SAFE_INTEGER /\ 0 <= io.2 <= MAX_SAFE_INTEGER) us ->
  sum_z (map fst us) <= 2 ^ 53 -> sum_z (map snd us) <= 2 ^ 53 ->
  total_usage (usage_of (0, 0)) (map usage_of us)
  = Ok (usage_of (sum_z (map fst us), sum_z (map snd us))).
Proof.
  intros Hf Hi Ho. rewrite total_usage_exact; try done; try lia.
  - apply Forall_map. eapply Forall_impl; [done|]. cbn. tauto.
  - apply Forall_map. eapply Forall_impl; [done|]. cbn. tauto.
Qed.

Definition sample_world : World := {|
  on_decide := fun log i =>
    if input_iteration i <? 3 then Ok (use_tool (js "git_diff") VNull (Some (usage_of (5, 7))))
    else Ok (reply (js "done") None);
  on_execute := fun log _ _ _ => Ok (VString (js "diff"));
  on_event := fun log _ => Ok tt |}.
Definition sample_session : AgentSession :=
  {| messages := []; usedBytes := 0; AgentSession.maxBytes := 1024 |}.

Lemma agent_loop_protocol_witness :
  let '(r, log) := runAgentLoop (w_decide sample_world) (w_execute sample_world)
                     (w_event sample_world) (fun _ => None) (js "run") (NInt 5) sample_session [] in
  exists p, run_phase (js "run") 5 (at_iteration 1) log = Some p /\ outcome_ok 5 r p /\
    count is_execute log <= count is_decide log <= 5 /\ 5 <= 64.
Proof.
  exact (agent_loop_protocol sample_world (fun _ => None) (js "run") (NInt 5) sample_session
    (empty_session_ok 1024 ltac:(lia))).
Defined.

Example sample_run_outcome :
  let '(r, log) := runAgentLoop (w_decide sample_world) (w_execute sample_world)
                     (w_event sample_world) (fun _ => None) (js "run") (NInt 5) sample_session [] in
  (match r with Ok (res, _) => Some (loop_iterations res, loop_reply res, loop_usage res)
              | Throw _ => None end, count is_execute log)
  = (Some (3, Some (js "done"), usage_of (10, 14)), 2).
Proof. vm_compute. reflexivity. Qed.

Lemma agent_usage_exact_witness :
  total_usage (usage_of (0, 0)) (map usage_of [(1, 2); (3, 4)]) = Ok (usage_of (4, 6)).
Proof. apply (agent_usage_exact [(1, 2); (3, 4)]); [forall_list; cbn; unfold MAX_SAFE_INTEGER; lia | cbn; lia..]. Defined.

End AgentLoop.
