(* ===== verification/AgentOrchestrator.v ===== *)
(** * Agent orchestrator

    [desktop/src/main/agent-orchestrator.ts]: one agent turn from its durable
    begin to its durable completion, with the daemon, the model and the tool
    gateway as the outside world. *)

From S2P Require Import Prelude JsValue Validate AgentParser AgentEval AgentMemory AgentSession AgentLoop.
Import AgentParser.AgentParser(AgentTurnView, AgentTurnStatus, running).
Import AgentEval.AgentEval(AgentEvaluationView).

Module AgentOrchestrator.

(** Calls to the world: a daemon request, or one of the loop's calls. (The
    loop's [Event] calls are not effects of their own: they record in the log
    what the loop announced to [onEvent].) *)
Inductive ocall :=
| Request (path : string) (body : value)
| OLoop (c : AgentLoop.call).

Record World := {
  on_request : list ocall -> string -> value -> result value;
  on_decide : list ocall -> AgentLoop.AgentModelInput -> result AgentLoop.AgentModelDecision;
  on_execute : list ocall -> jstr -> jstr -> value -> result value;
  JSON_stringify : value -> option (option jstr);
  providerId : jstr;
  modelId : jstr;
  randomUUID : jstr }.

Record AgentOrchestrationResult := {
  turn : AgentTurnView;
  orchestration_reply : option jstr;
  evaluation : AgentEvaluationView }.

Record RunInput := {
  in_runId : jstr; in_userMessage : jstr; in_maxIterations : option num;
  in_clientRequestId : option jstr }.

Definition begin_path : string := "/api/v1/harness/agent/turns/begin".
Definition iteration_path : string := "/api/v1/harness/agent/turns/iteration".
Definition complete_path : string := "/api/v1/harness/agent/turns/complete".
Definition memory_path : string := "/api/v1/harness/agent/memory".
Definition evaluate_path : string := "/api/v1/harness/agent/evaluations/run".

Definition loop_status_name (s : AgentLoop.LoopStatus) : jstr := js
  match s with AgentLoop.completed => "completed" | AgentLoop.iteration_limit => "iteration-limit" end.
Definition loop_stop_name (s : AgentLoop.LoopStopReason) : jstr := js
  match s with
  | AgentLoop.model_reply => "model-reply" | AgentLoop.no_tool => "no-tool"
  | AgentLoop.limit_reached => "iteration-limit"
  end.

Section orchestrator.
Context (w : World).

Definition harnessRequest (path : string) (body : value) : M (list ocall) value :=
  fun log => (on_request w log path body, log ++ [Request path body]).
Definition decide (i : AgentLoop.AgentModelInput) : M (list ocall) AgentLoop.AgentModelDecision :=
  fun log => (on_decide w log i, log ++ [OLoop (AgentLoop.Decide i)]).
Definition execute (r n : jstr) (a : value) : M (list ocall) value :=
  fun log => (on_execute w log r n a, log ++ [OLoop (AgentLoop.Execute r n a)]).

Definition begin_body (input : RunInput) (maxIterations : num) : value := VObject
  [(js "run_id", VString (in_runId input));
   (js "client_request_id",
      VString (default (js "desktop:agent:" ++ randomUUID w) (in_clientRequestId input)));
   (js "max_iterations", VNumber maxIterations);
   (js "provider_id", VString (providerId w));
   (js "model_id", VString (modelId w))].

Definition iteration_body (turnId : jstr) (iteration : Z) (decision : string)
    (toolName : option jstr) : value := VObject
  ([(js "turn_id", VString turnId); (js "iteration", VInt iteration);
    (js "decision", VString (js decision))]
   ++ match toolName with
      | Some n => if truthy n then [(js "tool_name", VString n)] else []
      | None => [] end).

Definition complete_body (turnId status stop_reason : jstr) (i o : num) : value := VObject
  [(js "turn_id", VString turnId); (js "status", VString status);
   (js "stop_reason", VString stop_reason);
   (js "input_tokens", VNumber i); (js "output_tokens", VNumber o)].

(** The [onEvent] closure: only decisions are reported to the daemon. *)
Definition onEvent (turnId : jstr) (ev : AgentLoop.AgentLoopEvent) : M (list ocall) unit :=
  _ ← modify (fun log => log ++ [OLoop (AgentLoop.Event ev)]);
  match ev with
  | AgentLoop.ev_decision iteration decision toolName =>
      raw ← harnessRequest iteration_path (iteration_body turnId iteration decision toolName);
      _ ← lift (AgentParser.parseAgentIteration raw);
      mret tt
  | _ => mret tt
  end.

(** The [try] block. *)
Definition attempt (runId turnId : jstr) (maxIterations : num) (session : AgentSession.AgentSession)
  : M (list ocall) AgentOrchestrationResult :=
  loop_session ← AgentLoop.runAgentLoop decide execute (onEvent turnId) (JSON_stringify w)
                   runId maxIterations session;
  let loop := loop_session.1 in
  raw ← harnessRequest complete_path
    (complete_body turnId (loop_status_name (AgentLoop.loop_status loop))
       (loop_stop_name (AgentLoop.loop_stopReason loop))
       (AgentLoop.inputTokens (AgentLoop.loop_usage loop))
       (AgentLoop.outputTokens (AgentLoop.loop_usage loop)));
  t ← lift (AgentParser.parseAgentTurn raw);
  ev ← AgentEval.evaluate harnessRequest (AgentParser.turn_id t);
  mret {| turn := t; orchestration_reply := AgentLoop.loop_reply loop; evaluation := ev |}.

(** The [catch] block: report the failure, ignore a failing report, rethrow. *)
Definition report_failure {A} (turnId : jstr) (error : exn) : M (list ocall) A :=
  _ ← try_catch
        (_ ← harnessRequest complete_path
               (complete_body turnId (js "failed") (js "error") (NInt 0) (NInt 0)); mret tt)
        (fun _ => mret tt);
  rethrow error.

Definition run (input : RunInput) : M (list ocall) AgentOrchestrationResult :=
  let maxIterations := default (NInt 12) (in_maxIterations input) in
  raw ← harnessRequest begin_path (begin_body input maxIterations);
  begun ← lift (AgentParser.parseAgentTurnBegin raw);
  let t := begun.1 in
  if bool_decide (AgentParser.turn_status t ≠ running) then
    ev ← AgentEval.evaluate harnessRequest (AgentParser.turn_id t);
    mret {| turn := t; orchestration_reply := None; evaluation := ev |}
  else if begun.2 && (0 <? AgentParser.iterationCount t) then
    throw "Agent turn already has durable iterations; reload the turn instead of replaying its non-durable model session"
  else
    memory ← AgentMemory.retrieve harnessRequest (in_runId input) (in_userMessage input) None None None;
    session ← lift (AgentSession.new_session
      {| AgentSession.seed_userMessage := in_userMessage input;
         AgentSession.seed_context := Some (AgentMemory.memoryContextMessages memory);
         AgentSession.seed_maxBytes := None |});
    try_catch (attempt (in_runId input) (AgentParser.turn_id t) maxIterations session)
              (report_failure (AgentParser.turn_id t)).

Definition listTurns (runId : jstr) (limit : option num) : M (list ocall) (list AgentTurnView) :=
  raw ← harnessRequest "/api/v1/harness/agent/turns/list"
          (VObject [(js "run_id", VString runId);
                    (js "limit", VNumber (default (NInt 25) limit))]);
  lift (AgentParser.parseAgentTurnList raw).
End orchestrator.

(** ** The contract of one run *)

Section contract_of_a_run.
Context (w : World) (input : RunInput).

Definition limit : num := default (NInt 12) (in_maxIterations input).
(** The world's answer to a request, as [parse] reads it *)
Definition answer {A} (log : list ocall) (path : string) (body : value) (parse : value -> result A) : result A :=
  match on_request w log path body with Ok raw => parse raw | Throw e => Throw e end.

Definition turn_body (turnId : jstr) : value := VObject [(js "turn_id", VString turnId)].
Definition memory_body : value := VObject
  [(js "run_id", VString (in_runId input)); (js "query", VString (in_userMessage input));
   (js "max_items", VInt 12); (js "max_bytes", VInt (48 * 1024)); (js "max_episodes", VInt 20)].
Definition completed_body (turnId : jstr) (loop : AgentLoop.AgentLoopResult) : value :=
  complete_body turnId (loop_status_name (AgentLoop.loop_status loop)) (loop_stop_name (AgentLoop.loop_stopReason loop))
    (AgentLoop.inputTokens (AgentLoop.loop_usage loop)) (AgentLoop.outputTokens (AgentLoop.loop_usage loop)).
Definition failed_body (turnId : jstr) : value := complete_body turnId (js "failed") (js "error") (NInt 0) (NInt 0).

Definition begin_call : ocall := Request begin_path (begin_body w input limit).
Definition memory_call : ocall := Request memory_path memory_body.
(** What was asked before the loop *)
Definition before_loop : list ocall := [begin_call; memory_call].

Definition begun : result (AgentTurnView * bool) := answer [] begin_path (begin_body w input limit) AgentParser.parseAgentTurnBegin.
Definition context : result AgentSession.AgentSession :=
  memory ← answer [begin_call] memory_path memory_body AgentMemory.parseAgentMemory;
  AgentSession.new_session
    {| AgentSession.seed_userMessage := in_userMessage input;
       AgentSession.seed_context := Some (AgentMemory.memoryContextMessages memory);
       AgentSession.seed_maxBytes := None |}.
Definition evaluated (log : list ocall) (t : AgentTurnView) (reply : option jstr) : result AgentOrchestrationResult :=
  match answer log evaluate_path (turn_body (AgentParser.turn_id t)) AgentEval.parseAgentEvaluation with
  | Ok ev => Ok {| turn := t; orchestration_reply := reply; evaluation := ev |}
  | Throw e => Throw e
  end.

(** Between a decision the loop announces and its record at the daemon nothing
    else may happen, and nothing follows a record the daemon refuses. *)
Inductive recording := calm | to_record (body : value) | refused.
Definition recording_after (turnId : jstr) (c : AgentLoop.call) : recording :=
  match c with
  | AgentLoop.Event (AgentLoop.ev_decision i d n) => to_record (iteration_body turnId i d n)
  | _ => calm
  end.
Inductive loop_log (turnId : jstr) (max : Z) : list ocall -> AgentLoop.phase -> recording -> Prop :=
| log_nil : loop_log turnId max [] (AgentLoop.at_iteration 1) calm
| log_call l p c q :
    loop_log turnId max l p calm -> AgentLoop.step_phase (in_runId input) max p c = Some q ->
    loop_log turnId max (l ++ [OLoop c]) q (recording_after turnId c)
| log_record l p body :
    loop_log turnId max l p (to_record body) ->
    loop_log turnId max (l ++ [Request iteration_path body]) p
      (if is_ok (answer (before_loop ++ l) iteration_path body AgentParser.parseAgentIteration) then calm else refused).

Notation loop_result := (result (AgentLoop.AgentLoopResult * AgentSession.AgentSession)).

(** What the loop has asked, and how it ended: a number of iterations that is
    no integer from 1 to 64 is refused before anything is asked. *)
Definition looped (turnId : jstr) (body : list ocall) (r : loop_result) : Prop :=
  match safe_in_range 1 64 limit with
  | None => body = [] /\ is_ok r = false
  | Some max => exists p q, loop_log turnId max body p q /\
      match r with Ok _ => q = calm /\ AgentLoop.outcome_ok max r p | Throw _ => True end
  end.

(** What follows the loop, and what the run returns *)
Inductive ended (t : AgentTurnView) (log : list ocall) : loop_result -> result AgentOrchestrationResult -> list ocall -> Prop :=
| loop_threw e : ended t log (Throw e) (Throw e) [Request complete_path (failed_body (AgentParser.turn_id t))]
| completion_failed loop s e :
    answer log complete_path (completed_body (AgentParser.turn_id t) loop) AgentParser.parseAgentTurn = Throw e ->
    ended t log (Ok (loop, s)) (Throw e)
      [Request complete_path (completed_body (AgentParser.turn_id t) loop);
       Request complete_path (failed_body (AgentParser.turn_id t))]
| evaluation_failed loop s completed e :
    let completion := Request complete_path (completed_body (AgentParser.turn_id t) loop) in
    answer log complete_path (completed_body (AgentParser.turn_id t) loop) AgentParser.parseAgentTurn = Ok completed ->
    evaluated (log ++ [completion]) completed (AgentLoop.loop_reply loop) = Throw e ->
    ended t log (Ok (loop, s)) (Throw e)
      [completion; Request evaluate_path (turn_body (AgentParser.turn_id completed));
       Request complete_path (failed_body (AgentParser.turn_id t))]
| run_ended loop s completed o :
    let completion := Request complete_path (completed_body (AgentParser.turn_id t) loop) in
    answer log complete_path (completed_body (AgentParser.turn_id t) loop) AgentParser.parseAgentTurn = Ok completed ->
    evaluated (log ++ [completion]) completed (AgentLoop.loop_reply loop) = Ok o ->
    ended t log (Ok (loop, s)) (Ok o)
      [completion; Request evaluate_path (turn_body (AgentParser.turn_id completed))].

(** A turn the daemon has begun for this run, to be driven from the start *)
Definition fresh (t : AgentTurnView) (replayed : bool) : Prop :=
  begun = Ok (t, replayed) /\ AgentParser.turn_status t = running /\
  ~ (replayed = true /\ 0 < AgentParser.iterationCount t).

(** How a run may end, with everything it asked of the world *)
Inductive orchestrated : result AgentOrchestrationResult -> list ocall -> Prop :=
| not_begun e : begun = Throw e -> orchestrated (Throw e) [begin_call]
| settled t replayed : begun = Ok (t, replayed) -> AgentParser.turn_status t <> running ->
    orchestrated (evaluated [begin_call] t None) [begin_call; Request evaluate_path (turn_body (AgentParser.turn_id t))]
| not_replayable t : begun = Ok (t, true) -> AgentParser.turn_status t = running -> 0 < AgentParser.iterationCount t ->
    orchestrated
      (fail "Agent turn already has durable iterations; reload the turn instead of replaying its non-durable model session")
      [begin_call]
| no_context t replayed e : fresh t replayed -> context = Throw e -> orchestrated (Throw e) before_loop
| driven t replayed session lr body r tail : fresh t replayed -> context = Ok session ->
    AgentLoop.runAgentLoop (decide w) (execute w) (onEvent w (AgentParser.turn_id t)) (JSON_stringify w)
      (in_runId input) limit session before_loop = (lr, before_loop ++ body) ->
    looped (AgentParser.turn_id t) body lr ->
    ended t (before_loop ++ body) lr r tail ->
    orchestrated r (before_loop ++ body ++ tail).
End contract_of_a_run.

(** ** Lemmas *)

Section proofs.
Context (w : World) (input : RunInput).
Notation pre := (before_loop w input).

Lemma event_log turnId ev (log : list ocall) :
  let '(r, log') := onEvent w turnId ev log in
  let log1 := log ++ [OLoop (AgentLoop.Event ev)] in
  match recording_after turnId (AgentLoop.Event ev) with
  | to_record b => log' = log1 ++ [Request iteration_path b] /\
      is_ok r = is_ok (answer w log1 iteration_path b AgentParser.parseAgentIteration)
  | _ => r = Ok tt /\ log' = log1
  end.
Proof.
  destruct ev as [i|i d n|i n]; cbn; try done.
  unfold onEvent, modify, harnessRequest, lift, mret, M_ret, mbind, M_bind, answer.
  destruct (on_request w _ _ _) as [raw|e]; [|done].
  by destruct (AgentParser.parseAgentIteration raw).
Qed.

(** The loop inside the turn, with the turn's [onEvent] *)
Lemma loop_looped turnId session : AgentSession.session_ok session ->
  exists r body, AgentLoop.runAgentLoop (decide w) (execute w) (onEvent w turnId) (JSON_stringify w)
    (in_runId input) (limit input) session pre = (r, pre ++ body) /\ looped w input turnId body r.
Proof.
  intros Hs. unfold AgentLoop.runAgentLoop, AgentLoop.boundedIterations, looped.
  destruct (safe_in_range 1 64 (limit input)) as [max|] eqn:E.
  2:{ eexists _, []. rewrite app_nil_r. split; [reflexivity|done]. }
  apply safe_in_range_Some in E as (_ & Hmax & _).
  change ((lift (Ok max) ≫= ?f) pre) with (f max pre). cbn beta.
  set (I := fun p l => exists body, l = pre ++ body /\ loop_log w input turnId max body p calm).
  set (F := fun l => exists body p q, l = pre ++ body /\ loop_log w input turnId max body p q).
  assert (HI : forall p l, I p l -> F l) by (intros p l (b & -> & Hb); by exists b, p, calm).
  pose proof (fun H1 H2 H3 => AgentLoop.loop_hoare (decide w) (execute w) (onEvent w turnId)
    (JSON_stringify w) (in_runId input) max I F HI H1 H2 H3 (Z.to_nat max) 1 session
    {| AgentLoop.inputTokens := NInt 0; AgentLoop.outputTokens := NInt 0 |} pre) as H.
  destruct (AgentLoop.loop _ _ _ _ _ _ _ _ _ _ _) as [r log'].
  assert (Hpost : AgentLoop.loop_post max I F (r, log')).
  { apply H; [ | | |done|lia|lia|exists []; rewrite app_nil_r; split; [done|constructor]]; clear H.
    - intros p q i l (b & -> & Hb) Hq. cbn -[before_loop].
      assert (Hc := log_call _ _ _ _ _ _ _ _ Hb Hq). cbn -[before_loop] in Hc.
      destruct (on_decide w _ _); rewrite <- app_assoc; [|eapply HI]; by eexists.
    - intros p q r' n a l (b & -> & Hb) Hq. cbn -[before_loop].
      assert (Hc := log_call _ _ _ _ _ _ _ _ Hb Hq). cbn -[before_loop] in Hc.
      destruct (on_execute w _ _ _ _); rewrite <- app_assoc; [|eapply HI]; by eexists.
    - intros p q e l (b & -> & Hb) Hq.
      assert (Hc := log_call _ _ _ _ _ _ _ _ Hb Hq).
      pose proof (event_log turnId e (pre ++ b)) as He.
      destruct (onEvent w turnId e (pre ++ b)) as [r' l']. cbn zeta in He.
      destruct (recording_after turnId (AgentLoop.Event e)) as [|bd|] eqn:Er.
      + destruct He as [-> ->]. rewrite <- app_assoc. by eexists.
      + destruct He as [-> He]. apply log_record in Hc.
        rewrite (app_assoc pre), <- He, <- (app_assoc b) in Hc. rewrite <- !app_assoc.
        destruct r'; [by eexists|by eexists _, _, _].
      + by destruct e. }
  destruct r as [o|e]; cbn -[before_loop] in Hpost.
  - destruct Hpost as (p & (b & -> & Hb) & Ho). exists (Ok o), b. split; [done|]. by exists p, calm.
  - destruct Hpost as (b & p & q & -> & Hb). exists (Throw e), b. split; [done|]. by exists p, q.
Qed.

Lemma request_bind {A} path body (f : value -> M (list ocall) A) log :
  (harnessRequest w path body ≫= f) log =
  match on_request w log path body with
  | Ok v => f v (log ++ [Request path body])
  | Throw e => (Throw e, log ++ [Request path body])
  end.
Proof. reflexivity. Qed.
Lemma lift_bind_run {A B} (r : result A) (f : A -> M (list ocall) B) log :
  (lift r ≫= f) log = match r with Ok a => f a log | Throw e => (Throw e, log) end.
Proof. by destruct r. Qed.
(** A request whose answer is parsed at once *)
Lemma answer_bind {A B} path body (parse : value -> result A) (f : A -> M (list ocall) B) log :
  (harnessRequest w path body ≫= (fun raw => lift (parse raw) ≫= f)) log =
  match answer w log path body parse with
  | Ok a => f a (log ++ [Request path body])
  | Throw e => (Throw e, log ++ [Request path body])
  end.
Proof. rewrite request_bind. unfold answer. destruct (on_request w _ _ _); [|done]. by destruct (parse _). Qed.

Lemma evaluate_run t reply log :
  (ev ← AgentEval.evaluate (harnessRequest w) (AgentParser.turn_id t);
   mret {| turn := t; orchestration_reply := reply; evaluation := ev |}) log =
  (evaluated w log t reply, log ++ [Request evaluate_path (turn_body (AgentParser.turn_id t))]).
Proof.
  unfold AgentEval.evaluate, evaluated, answer. unfold mbind at 1, M_bind at 1. rewrite request_bind.
  destruct (on_request w _ _ _) as [raw|e]; [|done]. by destruct (AgentEval.parseAgentEvaluation raw).
Qed.

Lemma report_failure_run {A} turnId e log :
  report_failure w (A := A) turnId e log = (Throw e, log ++ [Request complete_path (failed_body turnId)]).
Proof.
  unfold report_failure, try_catch, rethrow, mbind at 1, M_bind at 1. rewrite request_bind.
  by destruct (on_request w _ _ _).
Qed.

(** The [try] block with its [catch], once the loop has ended *)
Lemma attempt_ended t session lr body :
  AgentLoop.runAgentLoop (decide w) (execute w) (onEvent w (AgentParser.turn_id t)) (JSON_stringify w)
    (in_runId input) (limit input) session pre = (lr, pre ++ body) ->
  exists r tail, try_catch (attempt w (in_runId input) (AgentParser.turn_id t) (limit input) session)
      (report_failure w (AgentParser.turn_id t)) pre = (r, pre ++ body ++ tail) /\
    ended w t (pre ++ body) lr r tail.
Proof.
  intros Hl. unfold try_catch, attempt. unfold mbind at 1, M_bind at 1. rewrite Hl. destruct lr as [[loop s]|e].
  2:{ rewrite report_failure_run, <- app_assoc. eexists _, _. split; [done|constructor]. }
  rewrite answer_bind. fold (completed_body (AgentParser.turn_id t) loop). cbn [fst].
  destruct (answer w _ complete_path _ _) as [completed|e] eqn:Ec.
  - rewrite evaluate_run. destruct (evaluated w _ completed _) as [o|e] eqn:Ev.
    + rewrite <- !app_assoc. eexists _, _. split; [done|]. by eapply run_ended.
    + rewrite report_failure_run, <- !app_assoc. eexists _, _. split; [done|]. by eapply evaluation_failed.
  - rewrite report_failure_run, <- !app_assoc. eexists _, _. split; [done|]. by eapply completion_failed.
Qed.

(** C32: the contract of one agent turn, whatever the daemon, the model and
    the tools answer. The turn is begun with exactly one request; when the
    daemon says it is no longer running it is evaluated, under the id the
    daemon gave it, and nothing else is asked; a replayed turn with durable
    iterations stops at once. Otherwise the memory is read once, for this run
    and message, and the loop runs on the session made of it: every decision
    it announces is recorded, for that turn, before anything else is asked,
    and nothing follows a record the daemon refuses. A loop that ended is
    completed under that turn's id with its own status, reason and usage, and
    the turn the daemon answers is evaluated and returned with the loop's
    reply. When the loop, the completion or the evaluation throws, the last
    request reports that turn as failed and the same error is rethrown,
    whatever the answer to the report. *)
Theorem agent_run_contract :
  let '(r, log) := run w input [] in orchestrated w input r log.
Proof.
  unfold run. cbv zeta. fold (limit input). rewrite answer_bind. fold (begun w input). cbn [app].
  change (Request begin_path _) with (begin_call w input).
  destruct (begun w input) as [[t replayed]|e] eqn:Eb; [|by constructor]. cbn [fst snd].
  case_bool_decide as Hst; [rewrite evaluate_run; by eapply settled|].
  destruct (replayed && _) eqn:Er.
  { apply andb_true_iff in Er as [-> Hi%Z.ltb_lt]. by eapply not_replayable. }
  assert (Hf : fresh w input t replayed).
  { split_and!; [done..|]. intros [-> Hi%Z.ltb_lt]. by rewrite Hi in Er. }
  unfold AgentMemory.retrieve. unfold mbind at 1, M_bind at 1. cbn [default].
  change (VObject [(js "run_id", VString (in_runId input)); _; _; _; _]) with (memory_body input).
  pose proof (no_context w input t replayed) as Hn. pose proof (driven w input t replayed) as Hd. unfold context, answer in Hn, Hd.
  rewrite request_bind. change (js "") with (@nil N).
  change "/api/v1/harness/agent/memory"%string with memory_path.
  destruct (on_request w [begin_call w input] memory_path (memory_body input)) as [raw|e]; [|by apply Hn].
  cbn [lift app]. destruct (AgentMemory.parseAgentMemory raw) as [memory|e]; [|by apply Hn].
  cbn [mbind result_bind lift mret M_ret] in Hn, Hd |- *. rewrite lift_bind_run.
  destruct (AgentSession.new_session _) as [session|e] eqn:Es; [|by apply Hn].
  apply AgentSession.new_session_ok in Es as [Hs _].
  destruct (loop_looped (AgentParser.turn_id t) session Hs) as (lr & body & Hl & Hb).
  change [begin_call w input; Request memory_path (memory_body input)] with pre.
  destruct (attempt_ended t session lr body Hl) as (r & tail & -> & He).
  by eapply Hd.
Qed.
End proofs.

Definition is_complete (c : ocall) : bool :=
  match c with Request path _ => bool_decide (path = complete_path) | OLoop _ => false end.

(** A turn whose context cannot be built is never completed: when the
    daemon has begun a running turn but the memory request fails, its answer is
    malformed, or the session refuses a message, the run throws without sending
    any completion, so the durable turn stays running. (The [try] that reports
    failures starts only after the context is built.) *)
Theorem context_failure_leaves_turn_running w input raw t :
  on_request w [] begin_path (begin_body w input (default (NInt 12) (in_maxIterations input))) = Ok raw ->
  AgentParser.parseAgentTurnBegin raw = Ok (t, false) ->
  AgentParser.turn_status t = running ->
  (forall log b answer memory, on_request w log memory_path b = Ok answer ->
    AgentMemory.parseAgentMemory answer = Ok memory ->
    is_ok (AgentSession.new_session
      {| AgentSession.seed_userMessage := in_userMessage input;
         AgentSession.seed_context := Some (AgentMemory.memoryContextMessages memory);
         AgentSession.seed_maxBytes := None |}) = false) ->
  exists e log, run w input [] = (Throw e, log) /\ forallb (fun c => negb (is_complete c)) log = true.
Proof.
  intros Hraw Ht Hst Hmem. unfold run. rewrite request_bind, Hraw, lift_bind_run, Ht. cbn [fst snd].
  rewrite bool_decide_eq_false_2 by (intros Hn; by apply Hn). simpl.
  unfold AgentMemory.retrieve. unfold mbind at 1, M_bind at 1. rewrite request_bind.
  match goal with |- context [on_request w ?l ?q ?b] =>
    destruct (on_request w l q b) as [answer|e] eqn:Ha end;
    [|eexists _, _; split; reflexivity].
  destruct (AgentMemory.parseAgentMemory answer) as [memory|e] eqn:Em; [|eexists _, _; split; reflexivity].
  cbn [lift]. rewrite lift_bind_run. specialize (Hmem _ _ _ _ Ha Em).
  destruct (AgentSession.new_session _) as [s|e]; [done|]. eexists _, _; split; reflexivity.
Qed.

(** ** Sample worlds *)

Definition running_turn : AgentTurnView := {|
  AgentParser.turn_id := js "t1"; AgentParser.runId := js "r1";
  AgentParser.clientRequestId := None; AgentParser.turn_status := running;
  AgentParser.maxIterations := 12; AgentParser.iterationCount := 0;
  AgentParser.providerId := None; AgentParser.modelId := None; AgentParser.turn_stopReason := None;
  AgentParser.inputTokens := 0; AgentParser.outputTokens := 0; AgentParser.startedAt := 1;
  AgentParser.updatedAt := 1; AgentParser.completedAt := None |}.

Definition sample_answer (evaluate_ok : bool) (path : string) : result value :=
  if bool_decide (path = begin_path) then
    Ok (VObject [(js "replayed", VBool false); (js "turn", AgentParser.encode_turn running_turn)])
  else if bool_decide (path = memory_path) then Ok AgentMemory.sample_memory
  else if bool_decide (path = iteration_path) then
    Ok (VObject [(js "iteration_limit_reached", VBool false);
                 (js "turn", AgentParser.encode_turn running_turn)])
  else if bool_decide (path = complete_path) then Ok (AgentParser.encode_turn running_turn)
  else if evaluate_ok then fail "unexpected" else fail "evaluator is offline".

Definition sample_world : World := {|
  on_request := fun _ path _ => sample_answer false path;
  on_decide := fun _ i =>
    if AgentLoop.input_iteration i <? 2
    then Ok (AgentLoop.use_tool (js "git_diff") VNull None)
    else Ok (AgentLoop.reply (js "done") None);
  on_execute := fun _ _ _ _ => Ok (VString (js "diff"));
  JSON_stringify := fun _ => None;
  providerId := js "p"; modelId := js "m"; randomUUID := js "u" |}.

Definition sample_input (message : string) : RunInput :=
  {| in_runId := js "r1"; in_userMessage := js message; in_maxIterations := None;
     in_clientRequestId := None |}.

Lemma context_failure_leaves_turn_running_witness :
  exists e log, run sample_world (sample_input "") [] = (Throw e, log) /\
    forallb (fun c => negb (is_complete c)) log = true.
Proof.
  apply (context_failure_leaves_turn_running sample_world (sample_input "")
    (VObject [(js "replayed", VBool false); (js "turn", AgentParser.encode_turn running_turn)])
    running_turn).
  - vm_compute. reflexivity.
  - vm_compute. reflexivity.
  - reflexivity.
  - intros log b answer memory _ _. reflexivity.
Defined.

(** The statuses sent to the daemon's completion endpoint, in order. *)
Definition completion_statuses (log : list ocall) : list value :=
  omap (fun c => match c with
                 | Request path (VObject fs) =>
                     if bool_decide (path = complete_path) then Some (field fs (js "status")) else None
                 | _ => None end) log.

(** A turn that completed is reported as failed when only its evaluation
    fails: the evaluation is inside the same [try] block. *)
Example evaluation_failure_reports_completed_turn_as_failed :
  let '(r, log) := run sample_world (sample_input "fix the build") [] in
  r = fail "evaluator is offline" /\
  completion_statuses log = [VString (js "completed"); VString (js "failed")].
Proof. vm_compute. split; reflexivity. Qed.

End AgentOrchestrator.
