(* ===== verification/AgentGraph.v ===== *)
(** * Deterministic agent graph runtime

    [desktop/src/main/agent-graph.ts]: nodes run in waves over a frozen
    snapshot, their patches are merged unless two of them write one key, and
    plain routers choose the next wave. The optional [onEvent] observer, which
    can only watch, is not modelled. *)

From S2P Require Import Prelude JsValue.

Module AgentGraph.

(** [Record<string, unknown>]: which keys hold which values. *)
Abbreviation AgentGraphState := (gmap jstr value).

(** [run] is indexed by the visit as well: a node's behaviour may differ each
    time it runs. It returns whatever the node's promise settles to. *)
Record AgentGraphNode := {
  node_id : jstr;
  maxVisits : option num;
  node_run : Z -> AgentGraphState -> result value }.

Abbreviation AgentGraphRouter := (AgentGraphState -> list jstr).

Record AgentGraphDefinition := {
  nodes : list AgentGraphNode;
  start : list jstr;
  routes : option (gmap jstr AgentGraphRouter);
  maxSteps : option num }.

(** [visits] is a plain object, so that reading an id that it inherits from
    [Object.prototype] gives no number: adding 1 makes a string, which no
    comparison with a limit ever exceeds. *)
Inductive visit_count := Visits (n : Z) | NotANumber.

Record AgentGraphResult := {
  state : AgentGraphState; steps : Z; visits : gmap jstr visit_count }.

Definition id_ok (v : jstr) : bool := truthy v && (slen v <=? 128) && negb (has_control v).
Definition validateNodeId (v : jstr) : result unit :=
  if id_ok v then Ok tt else fail "Agent graph node id is invalid".
Definition validateStateKey (v : jstr) : result unit :=
  if id_ok v then Ok tt else fail "Agent graph state key is invalid".

Definition boundedPositive (v : num) (min max : Z) (label : jstr) : result Z :=
  match safe_in_range min max v with
  | Some z => Ok z
  | None => Throw (Error (label ++ js " must be " ++ js_int min ++ js "-" ++ js_int max))
  end.

(** [nodeMap.get(id)]; the ids of a map are distinct. *)
Definition find_node (m : list AgentGraphNode) (id : jstr) : option AgentGraphNode :=
  head (filter (fun n => node_id n = id) m).
Definition has_node (m : list AgentGraphNode) (id : jstr) : bool :=
  bool_decide (id ∈ map node_id m).

(** The loop that fills [nodeMap]. *)
Fixpoint build_node_map (m : list AgentGraphNode) (l : list AgentGraphNode)
  : result (list AgentGraphNode) :=
  match l with
  | [] => Ok m
  | n :: l' =>
      _ ← validateNodeId (node_id n);
      if has_node m (node_id n)
      then Throw (Error (js "Agent graph has duplicate node: " ++ node_id n))
      else build_node_map (m ++ [n]) l'
  end.

Fixpoint validateTargets (targets : list jstr) (m : list AgentGraphNode) : result unit :=
  match targets with
  | [] => Ok tt
  | t :: ts =>
      _ ← validateNodeId t;
      if has_node m t then validateTargets ts m
      else Throw (Error (js "Agent graph route targets unknown node: " ++ t))
  end.

Record WaveResult := {
  wr_node : jstr; wr_visit : visit_count; wr_patch : list (jstr * value); wr_keys : list jstr }.

(** [(visits[nodeId] ?? 0) + 1] *)
Definition next_visit (vs : gmap jstr visit_count) (id : jstr) : visit_count :=
  match vs !! id with
  | Some (Visits n) => Visits (n + 1)
  | Some NotANumber => NotANumber
  | None => if inherited id then NotANumber else Visits 1
  end.
(** [visits[nodeId] = visit]; [__proto__] ignores a value that is no object. *)
Definition set_visit (vs : gmap jstr visit_count) (id : jstr) (v : visit_count) : gmap jstr visit_count :=
  if bool_decide (id = js "__proto__") then vs else <[id := v]> vs.

Definition exceeds (v : visit_count) (max : Z) : bool :=
  match v with Visits n => max <? n | NotANumber => false end.

(** The number a node's [run] is indexed by. *)
Definition visit_index (v : visit_count) : Z := match v with Visits n => n | NotANumber => 0 end.

Fixpoint validate_keys (keys : list jstr) : result unit :=
  match keys with [] => Ok tt | k :: ks => _ ← validateStateKey k; validate_keys ks end.

(** One node of a wave. *)
Definition run_node (m : list AgentGraphNode) (vs : gmap jstr visit_count)
    (snapshot : AgentGraphState) (id : jstr) : result WaveResult :=
  match find_node m id with
  | None => fail "undefined is not an object"
  | Some node =>
      let visit := next_visit vs id in
      max ← boundedPositive (default (NInt 1) (maxVisits node)) 1 1024
              (js "Agent graph maxVisits for " ++ id);
      if exceeds visit max
      then Throw (Error (js "Agent graph node " ++ id ++ js " exceeded maxVisits"))
      else
        patch ← node_run node (visit_index visit) snapshot;
        match is_record patch with
        | None => Throw (Error (js "Agent graph node " ++ id ++ js " returned an invalid state patch"))
        | Some fs =>
            let keys := map fst fs in
            _ ← validate_keys keys;
            Ok {| wr_node := id; wr_visit := visit; wr_patch := fs; wr_keys := keys |}
        end
  end.

(** The scan for keys written by two nodes of a wave. *)
Fixpoint scan_keys (written : gmap jstr jstr) (id : jstr) (keys : list jstr)
  : result (gmap jstr jstr) :=
  match keys with
  | [] => Ok written
  | k :: ks =>
      match written !! k with
      | Some prior =>
          if truthy prior
          then Throw (Error (js "Agent graph parallel state collision on " ++ k ++ js ": " ++ prior
                             ++ js " and " ++ id))
          else scan_keys (<[k := id]> written) id ks
      | None => scan_keys (<[k := id]> written) id ks
      end
  end.
Fixpoint scan_wave (written : gmap jstr jstr) (wave : list WaveResult) : result unit :=
  match wave with
  | [] => Ok tt
  | r :: rs => w ← scan_keys written (wr_node r) (wr_keys r); scan_wave w rs
  end.

(** [{ ...state, ...patch }]; the keys of a patch object are distinct. *)
Definition apply_patch (s : AgentGraphState) (patch : list (jstr * value)) : AgentGraphState :=
  list_to_map patch ∪ s.
Definition apply_wave (s : AgentGraphState) (wave : list WaveResult) : AgentGraphState :=
  foldl (fun s r => apply_patch s (wr_patch r)) s wave.
Definition record_visits (vs : gmap jstr visit_count) (wave : list WaveResult) : gmap jstr visit_count :=
  foldl (fun vs r => set_visit vs (wr_node r) (wr_visit r)) vs wave.

Section graph.
(** [Promise.all] rejects with one of the rejections of its promises: which
    one depends on timing. *)
Context (first_rejection : list exn -> exn).
(** What calling an inherited member of [Object.prototype] as a router throws. *)
Context (router_type_error : exn).

Definition rejections {A} (l : list (result A)) : list exn :=
  omap (fun r => match r with Throw e => Some e | Ok _ => None end) l.
Definition promise_all {A} (l : list (result A)) : result (list A) :=
  match rejections l with
  | [] => map_result id l
  | es => Throw (first_rejection es)
  end.

(** [routes?.[nodeId]] called on the new state *)
Definition route (d : AgentGraphDefinition) (s : AgentGraphState) (id : jstr) : result (list jstr) :=
  match routes d with
  | None => Ok []
  | Some rs => match rs !! id with
               | Some router => Ok (router s)
               | None => if inherited id then Throw router_type_error else Ok []
               end
  end.

Fixpoint route_wave (d : AgentGraphDefinition) (m : list AgentGraphNode) (s : AgentGraphState)
    (wave : list WaveResult) : result (list jstr) :=
  match wave with
  | [] => Ok []
  | r :: rs =>
      targets ← route d s (wr_node r);
      _ ← validateTargets targets m;
      next ← route_wave d m s rs;
      Ok (targets ++ next)
  end.

(** The [while] loop; [None] when the fuel runs out. *)
Fixpoint waves (fuel : nat) (d : AgentGraphDefinition) (m : list AgentGraphNode) (maxSteps : Z)
    (ready : list jstr) (r : AgentGraphResult) : option (result AgentGraphResult) :=
  match ready with
  | [] => Some (Ok r)
  | _ =>
    match fuel with
    | O => None
    | S fuel' =>
        if maxSteps <? steps r + Z.of_nat (length ready)
        then Some (fail "Agent graph exceeded maxSteps")
        else
          match promise_all (map (run_node m (visits r) (state r)) ready) with
          | Throw e => Some (Throw e)
          | Ok wave =>
              match scan_wave ∅ wave with
              | Throw e => Some (Throw e)
              | Ok _ =>
                  let r' := {| state := apply_wave (state r) wave;
                               steps := steps r + Z.of_nat (length wave);
                               visits := record_visits (visits r) wave |} in
                  match route_wave d m (state r') wave with
                  | Throw e => Some (Throw e)
                  | Ok next => waves fuel' d m maxSteps (unique next) r'
                  end
              end
          end
    end
  end.

(** The checks before the loop: the node map, the first wave and the limit. *)
Definition prepare (d : AgentGraphDefinition) : result (list AgentGraphNode * list jstr * Z) :=
  m ← build_node_map [] (nodes d);
  _ ← require (negb (bool_decide (m = []))) "Agent graph requires at least one node";
  let ready := unique (start d) in
  _ ← validateTargets ready m;
  max ← boundedPositive (default (NInt 128) (maxSteps d)) 1 4096 (js "Agent graph maxSteps");
  Ok (m, ready, max).

(** Each wave takes at least one of at most [maxSteps] steps. *)
Definition runAgentGraph (d : AgentGraphDefinition) (initialState : AgentGraphState)
  : option (result AgentGraphResult) :=
  match prepare d with
  | Throw e => Some (Throw e)
  | Ok (m, ready, max) =>
      waves (S (Z.to_nat max)) d m max ready
        {| state := initialState; steps := 0; visits := ∅ |}
  end.
End graph.

(** ** Merging a wave *)

Definition wave_keys (wave : list WaveResult) : list jstr := concat (map wr_keys wave).
Definition all_truthy (w : gmap jstr jstr) : Prop := map_Forall (fun _ p => truthy p = true) w.

Lemma scan_keys_Ok w id keys w' : all_truthy w -> truthy id = true ->
  scan_keys w id keys = Ok w' ->
  NoDup keys /\ (forall k, k ∈ keys -> w !! k = None) /\ all_truthy w' /\
  (forall k, is_Some (w' !! k) <-> is_Some (w !! k) \/ k ∈ keys).
Proof.
  intros Hw Hid. revert w Hw. induction keys as [|k ks IH]; simpl; intros w Hw H.
  - injection H as <-. split_and!; [constructor|set_solver|done|set_solver].
  - assert (Hk : w !! k = None /\ scan_keys (<[k:=id]> w) id ks = Ok w').
    { destruct (w !! k) as [p|] eqn:E; [|done]. by rewrite (Hw _ _ E) in H. }
    destruct Hk as [Hk Hs].
    destruct (IH (<[k:=id]> w)) as (Hnd & Hn & Ht & Hd); [by apply map_Forall_insert_2|done|].
    assert (Hk' : k ∉ ks).
    { intros Hin. specialize (Hn _ Hin). by rewrite lookup_insert_eq in Hn. }
    split_and!; [by constructor| |done|].
    + intros j [->|Hj]%elem_of_cons; [done|]. specialize (Hn _ Hj).
      rewrite lookup_insert_ne in Hn; [done|]. intros ->. done.
    + intros j. rewrite Hd, elem_of_cons. destruct (decide (k = j)) as [->|].
      * rewrite lookup_insert_eq, Hk. split; [naive_solver|]. intros _. left. eauto.
      * rewrite lookup_insert_ne by done. naive_solver.
Qed.

Lemma scan_keys_complete w id keys : NoDup keys -> (forall k, k ∈ keys -> w !! k = None) ->
  is_ok (scan_keys w id keys) = true.
Proof.
  revert w. induction keys as [|k ks IH]; simpl; intros w Hnd Hn; [done|].
  apply NoDup_cons in Hnd as [Hk Hnd]. rewrite Hn by set_solver. apply IH; [done|].
  intros j Hj. rewrite lookup_insert_ne; [set_solver|]. intros ->. done.
Qed.

Lemma scan_wave_spec w wave : all_truthy w -> Forall (fun r => truthy (wr_node r) = true) wave ->
  scan_wave w wave = Ok tt <->
  NoDup (wave_keys wave) /\ (forall k, k ∈ wave_keys wave -> w !! k = None).
Proof.
  intros Hw Hwave. revert w Hw. induction Hwave as [|r rs Hr _ IH]; intros w Hw; simpl.
  - unfold wave_keys. simpl. split; [intros _; split; [constructor|set_solver]|done].
  - change (wave_keys (r :: rs)) with (wr_keys r ++ wave_keys rs). rewrite NoDup_app. split.
    + intros H. apply bind_Ok in H as (w' & Hk & H).
      apply scan_keys_Ok in Hk as (Hnd & Hn & Ht & Hd); [|done..].
      apply (IH _ Ht) in H as [Hnds Hns].
      assert (Hsep : forall k, k ∈ wave_keys rs -> w !! k = None /\ k ∉ wr_keys r).
      { intros k Hk. specialize (Hns _ Hk). rewrite eq_None_not_Some, Hd in Hns.
        rewrite eq_None_not_Some. tauto. }
      split_and!; [done| |done|].
      * intros k Hk Hk'. by destruct (Hsep _ Hk').
      * intros k [Hk|Hk]%elem_of_app; [auto|by apply Hsep].
    + intros ((Hnd & Hdisj & Hnds) & Hn).
      pose proof (scan_keys_complete w (wr_node r) (wr_keys r) Hnd) as Hok.
      destruct (scan_keys w _ _) as [w'|e] eqn:E.
      2:{ discriminate Hok. set_solver. }
      apply scan_keys_Ok in E as (_ & _ & Ht & Hd); [|done..]. simpl. apply (IH _ Ht).
      split; [done|]. intros k Hk. rewrite eq_None_not_Some, Hd.
      intros [Hs|Hs]; [|by eapply Hdisj].
      rewrite (Hn k) in Hs; [by destruct Hs | set_solver].
Qed.

(** A result whose keys are those of its patch object. *)
Definition wave_ok (wave : list WaveResult) : Prop :=
  Forall (fun r => truthy (wr_node r) = true /\ wr_keys r = map fst (wr_patch r)) wave.

Lemma apply_patch_lookup s patch k v : NoDup (map fst patch) ->
  apply_patch s patch !! k = Some v <->
  (k, v) ∈ patch \/ (k ∉ map fst patch /\ s !! k = Some v).
Proof.
  intros Hnd. unfold apply_patch. rewrite lookup_union_Some_raw.
  rewrite <- elem_of_list_to_map by done. rewrite <- not_elem_of_list_to_map. done.
Qed.

Lemma apply_wave_lookup s wave k v : wave_ok wave -> NoDup (wave_keys wave) ->
  apply_wave s wave !! k = Some v <->
  (exists r, r ∈ wave /\ (k, v) ∈ wr_patch r) \/ (k ∉ wave_keys wave /\ s !! k = Some v).
Proof.
  intros Hok. revert s. induction Hok as [|r rs [_ Hr] _ IH]; intros s Hnd; simpl.
  - unfold wave_keys. set_solver.
  - change (wave_keys (r :: rs)) with (wr_keys r ++ wave_keys rs) in *.
    apply NoDup_app in Hnd as (Hnd & Hdisj & Hnds). rewrite IH by done.
    rewrite Hr in *. rewrite apply_patch_lookup by done.
    setoid_rewrite elem_of_cons. setoid_rewrite elem_of_app.
    assert (Hkv : (k, v) ∈ wr_patch r -> k ∈ map fst (wr_patch r)).
    { intros H. by apply (list_elem_of_fmap_2 fst) in H. }
    naive_solver.
Qed.

(** ** Termination and limits *)

Lemma promise_all_Ok {A} pick (l : list (result A)) k :
  promise_all pick l = Ok k -> l = map Ok k.
Proof.
  unfold promise_all. destruct (rejections l); [|done]. intros H.
  apply map_result_Ok in H. induction H as [|x y l k Hx _ IH]; simpl; [done|].
  unfold id in Hx. by rewrite Hx, IH.
Qed.

Lemma run_node_Ok m vs s id r : run_node m vs s id = Ok r ->
  wr_node r = id /\ wr_visit r = next_visit vs id /\ wr_keys r = map fst (wr_patch r) /\
  exists node max, find_node m id = Some node /\ exceeds (wr_visit r) max = false /\
    boundedPositive (default (NInt 1) (maxVisits node)) 1 1024
      (js "Agent graph maxVisits for " ++ id) = Ok max.
Proof.
  unfold run_node. destruct (find_node m id) as [node|]; [|done]. intros H.
  apply bind_Ok in H as (max & Hmax & H). destruct (exceeds _ max) eqn:E; [done|].
  apply bind_Ok in H as (patch & _ & H). destruct (is_record patch) as [fs|]; [|done].
  apply bind_Ok in H as (? & _ & H). injection H as <-. cbn. eauto 10.
Qed.

Lemma wave_results pick m vs s ready wave :
  promise_all pick (map (run_node m vs s) ready) = Ok wave ->
  Forall2 (fun id r => run_node m vs s id = Ok r) ready wave.
Proof.
  intros H%promise_all_Ok. revert wave H.
  induction ready as [|x ready IH]; intros [|r wave] H; simplify_eq/=; constructor; auto.
Qed.

Lemma run_fuel_enough pick err d m maxSteps fuel ready r :
  steps r <= maxSteps -> maxSteps - steps r < Z.of_nat fuel ->
  waves pick err fuel d m maxSteps ready r <> None.
Proof.
  revert ready r. induction fuel as [|fuel IH]; intros ready r Hle Hf; [lia|].
  destruct ready as [|i ready]; [done|]. cbn [waves].
  destruct (maxSteps <? _) eqn:Emax; [done|]. to_prop.
  destruct (promise_all _ _) as [wave|e] eqn:Ew; [|done].
  destruct (scan_wave _ _); [|done]. destruct (route_wave _ _ _ _); [|done].
  apply wave_results, Forall2_length in Ew. simpl in Ew, Emax. apply IH; simpl; lia.
Qed.

(** The visits a run may have recorded. *)
Definition visit_ok (m : list AgentGraphNode) (id : jstr) (v : visit_count) : Prop :=
  exists node max, find_node m id = Some node /\
    boundedPositive (default (NInt 1) (maxVisits node)) 1 1024
      (js "Agent graph maxVisits for " ++ id) = Ok max /\
    match v with Visits n => 1 <= n <= max | NotANumber => inherited id = true end.
Definition visits_ok (m : list AgentGraphNode) (vs : gmap jstr visit_count) : Prop :=
  map_Forall (visit_ok m) vs.

Lemma next_visit_ok m vs id : visits_ok m vs ->
  match next_visit vs id with Visits n => 1 <= n | NotANumber => inherited id = true end.
Proof.
  intros Hvs. unfold next_visit. destruct (vs !! id) as [[n|]|] eqn:E.
  - destruct (Hvs _ _ E) as (? & ? & _ & _ & ?). lia.
  - by destruct (Hvs _ _ E) as (? & ? & _ & _ & ?).
  - destruct (inherited id) eqn:E'; [done|lia].
Qed.

Lemma record_visits_ok m vs vs0 s wave ready :
  visits_ok m vs -> visits_ok m vs0 ->
  Forall2 (fun id r => run_node m vs0 s id = Ok r) ready wave ->
  visits_ok m (record_visits vs wave).
Proof.
  intros Hvs Hvs0 Hw. revert vs Hvs. induction Hw as [|id r ready wave Hr _ IH]; intros vs Hvs; [done|].
  cbn [record_visits foldl]. apply IH.
  apply run_node_Ok in Hr as (-> & Hv & _ & node & max & Hn & Hex & Hmax).
  unfold set_visit. case_bool_decide; [done|]. apply map_Forall_insert_2; [|done].
  exists node, max. split_and!; [done..|].
  pose proof (next_visit_ok m vs0 id Hvs0) as H'. rewrite <- Hv in H'.
  destruct (wr_visit r) as [n|]; [|done]. cbn in Hex. to_prop. lia.
Qed.

Lemma waves_bounds pick err d m maxSteps fuel ready r out :
  steps r <= maxSteps -> visits_ok m (visits r) ->
  waves pick err fuel d m maxSteps ready r = Some (Ok out) ->
  steps out <= maxSteps /\ visits_ok m (visits out).
Proof.
  revert ready r. induction fuel as [|fuel IH]; intros [|i ready] r Hle Hv H; cbn [waves] in H.
  1,3: injection H as <-; done. { done. }
  destruct (maxSteps <? _) eqn:Emax; [done|]. to_prop.
  destruct (promise_all _ _) as [wave|e] eqn:Ew; [|done].
  destruct (scan_wave _ _); [|done]. destruct (route_wave _ _ _ _); [|done].
  apply wave_results in Ew. pose proof (Forall2_length _ _ _ Ew) as Hlen.
  apply IH in H; [done| |].
  - simpl in *. lia.
  - by eapply record_visits_ok.
Qed.

Lemma boundedPositive_Ok v lo hi label z : boundedPositive v lo hi label = Ok z -> lo <= z <= hi.
Proof.
  unfold boundedPositive. destruct (safe_in_range lo hi v) eqn:E; [|done]. intros [= <-].
  by apply safe_in_range_Some in E as (_ & ? & _).
Qed.

Lemma prepare_max d m ready max : prepare d = Ok (m, ready, max) -> 1 <= max <= 4096.
Proof. unfold prepare. intros H. inv_ok. by eapply boundedPositive_Ok. Qed.

Lemma truthy_ids d m : build_node_map [] (nodes d) = Ok m ->
  Forall (fun n => id_ok (node_id n) = true) m.
Proof.
  enough (forall l m0, Forall (fun n => id_ok (node_id n) = true) m0 ->
    build_node_map m0 l = Ok m -> Forall (fun n => id_ok (node_id n) = true) m) by eauto.
  induction l as [|n l IH]; simpl; intros m0 Hm0 H; [by injection H as <-|].
  apply bind_Ok in H as (? & Hv & H). destruct (has_node _ _); [done|].
  eapply IH; [|done]. apply Forall_app. split; [done|]. constructor; [|done].
  unfold validateNodeId in Hv. by destruct (id_ok _).
Qed.

Lemma find_node_Some m id n : find_node m id = Some n -> n ∈ m /\ node_id n = id.
Proof.
  unfold find_node. intros H%head_Some_elem_of. by apply list_elem_of_filter in H as [? ?].
Qed.

(** The waves of a prepared graph meet the condition of the merge lemmas. *)
Lemma prepared_wave_ok d m pick vs s ready wave : build_node_map [] (nodes d) = Ok m ->
  promise_all pick (map (run_node m vs s) ready) = Ok wave -> wave_ok wave.
Proof.
  intros Hm%truthy_ids Hw%wave_results. induction Hw as [|id r ready wave Hr _ IH]; constructor; [|done].
  apply run_node_Ok in Hr as (-> & _ & ? & node & max & [Hn <-]%find_node_Some & _).
  split; [|done]. eapply Forall_forall in Hm; [|done]. unfold id_ok in Hm. by to_prop.
Qed.

(** A graph run always ends: the fuel given to the loop suffices for every
    definition and every behaviour of its nodes and routers. A run that
    succeeds took at most [maxSteps <= 4096] steps and visited every node at
    most its own [maxVisits] times, except a node whose id is inherited from
    [Object.prototype], whose visits are not counted. *)
Theorem agent_graph_bounded pick err d initialState :
  exists r, runAgentGraph pick err d initialState = Some r /\
  forall out, r = Ok out ->
    exists m ready max, prepare d = Ok (m, ready, max) /\ max <= 4096 /\
      steps out <= max /\ visits_ok m (visits out).
Proof.
  unfold runAgentGraph. destruct (prepare d) as [[[m ready] max]|e] eqn:Ep; [|by eexists].
  pose proof (prepare_max _ _ _ _ Ep) as Hmax.
  set (r0 := {| state := initialState; steps := 0; visits := ∅ |}).
  destruct (waves _ _ _ _ _ _ _ r0) as [r|] eqn:E.
  2:{ by apply run_fuel_enough in E; [|simpl; lia..]. }
  exists r. split; [done|]. intros out ->.
  apply waves_bounds in E as [? ?]; [|simpl; lia|apply map_Forall_empty].
  exists m, ready, max. split; [done|]. split; [lia|done].
Qed.

(** Merging a wave is deterministic. The scan accepts exactly the waves in
    which no key is written twice, and then the new state holds, for each key,
    the value its only writer gave it and the old value otherwise, so that the
    order in which the nodes of the wave are merged does not matter. *)
Theorem agent_graph_merge d m pick vs s ready wave : build_node_map [] (nodes d) = Ok m ->
  promise_all pick (map (run_node m vs s) ready) = Ok wave ->
  (scan_wave ∅ wave = Ok tt <-> NoDup (wave_keys wave)) /\
  (scan_wave ∅ wave = Ok tt ->
    (forall k v, apply_wave s wave !! k = Some v <->
       (exists r, r ∈ wave /\ (k, v) ∈ wr_patch r) \/ (k ∉ wave_keys wave /\ s !! k = Some v)) /\
    forall wave', Permutation wave wave' -> apply_wave s wave' = apply_wave s wave).
Proof.
  intros Hm Hwave. pose proof (prepared_wave_ok _ _ _ _ _ _ _ Hm Hwave) as Hok.
  assert (Hscan : forall w, wave_ok w -> scan_wave ∅ w = Ok tt <-> NoDup (wave_keys w)).
  { intros w Hw. rewrite scan_wave_spec; [|apply map_Forall_empty|].
    - split; [by intros [? _]|]. intros H. split; [done|]. intros k _. apply lookup_empty.
    - eapply Forall_impl; [done|]. by intros r [? _]. }
  split; [by apply Hscan|]. rewrite Hscan by done. intros Hnd. split.
  - intros k v. by apply apply_wave_lookup.
  - intros wave' Hp. assert (Hok' : wave_ok wave').
    { unfold wave_ok in *. by rewrite <- Hp. }
    assert (Hp' : Permutation (wave_keys wave) (wave_keys wave')).
    { unfold wave_keys. by rewrite Hp. }
    apply map_eq. intros k. apply option_eq. intros v.
    rewrite !apply_wave_lookup; [|done..|by rewrite <- Hp'].
    by setoid_rewrite Hp'; setoid_rewrite Hp.
Qed.

Definition two_writers : AgentGraphDefinition := {|
  nodes := [{| node_id := js "a"; maxVisits := None;
               node_run := fun _ _ => Ok (VObject [(js "x", VBool true)]) |};
            {| node_id := js "b"; maxVisits := None;
               node_run := fun _ _ => Ok (VObject [(js "y", VNull)]) |}];
  start := [js "a"; js "b"]; routes := None; maxSteps := None |}.
Definition two_written : list WaveResult :=
  [{| wr_node := js "a"; wr_visit := Visits 1; wr_patch := [(js "x", VBool true)]; wr_keys := [js "x"] |};
   {| wr_node := js "b"; wr_visit := Visits 1; wr_patch := [(js "y", VNull)]; wr_keys := [js "y"] |}].

Lemma agent_graph_merge_witness :
  apply_wave ∅ (reverse two_written) = apply_wave ∅ two_written.
Proof.
  apply (proj2 (agent_graph_merge two_writers (nodes two_writers) (hd (Error [])) ∅ ∅
    [js "a"; js "b"] two_written ltac:(vm_compute; reflexivity) ltac:(vm_compute; reflexivity)));
    [vm_compute; reflexivity|].
  symmetry. apply reverse_Permutation.
Defined.

(** A self-routing node named [constructor] is never stopped by its
    [maxVisits], only by the step limit of the whole graph. *)
Definition looping (name : string) : AgentGraphDefinition := {|
  nodes := [{| node_id := js name; maxVisits := Some (NInt 1); node_run := fun _ _ => Ok (VObject []) |}];
  start := [js name];
  routes := Some {[ js name := fun _ => [js name] ]};
  maxSteps := Some (NInt 40) |}.

Example ordinary_node_is_limited :
  runAgentGraph (hd (Error [])) (Error []) (looping "a") ∅
  = Some (fail "Agent graph node a exceeded maxVisits").
Proof. vm_compute. reflexivity. Qed.
Example inherited_name_escapes_maxVisits :
  runAgentGraph (hd (Error [])) (Error []) (looping "constructor") ∅
  = Some (fail "Agent graph exceeded maxSteps").
Proof. vm_compute. reflexivity. Qed.

End AgentGraph.
