(* ===== verification/AgentWorkers.v ===== *)
(** * Agent worker families

    [desktop/src/main/agent-worker-family.ts]: the in-memory registry that
    hands the workers of a family out under leases. Its workers are shared
    mutable objects, so a method that throws keeps what it wrote before. *)

From S2P Require Import Prelude JsValue.

Module AgentWorkers.

Inductive AgentWorkerStatus := sleeping | claimed | running | reported | retired.
#[global] Instance AgentWorkerStatus_eq_dec : EqDecision AgentWorkerStatus.
Proof. solve_decision. Defined.

Record AgentWorker := {
  workerRunId : jstr; ordinal : Z; workspace : jstr; status : AgentWorkerStatus;
  leaseId : option jstr; lastReport : option jstr; lastChildRunId : option jstr }.

Record AgentWorkerFamily := {
  familyId : jstr; primeRunId : jstr; incarnation : Z; workers : list AgentWorker }.

Abbreviation Registry := (gmap jstr AgentWorkerFamily).

Definition with_status (s : AgentWorkerStatus) (w : AgentWorker) : AgentWorker :=
  {| workerRunId := workerRunId w; ordinal := ordinal w; workspace := workspace w; status := s;
     leaseId := leaseId w; lastReport := lastReport w; lastChildRunId := lastChildRunId w |}.
Definition with_lease (l : jstr) (w : AgentWorker) : AgentWorker :=
  {| workerRunId := workerRunId w; ordinal := ordinal w; workspace := workspace w;
     status := status w; leaseId := Some l; lastReport := lastReport w;
     lastChildRunId := lastChildRunId w |}.
Definition with_child (c : jstr) (w : AgentWorker) : AgentWorker :=
  {| workerRunId := workerRunId w; ordinal := ordinal w; workspace := workspace w;
     status := status w; leaseId := leaseId w; lastReport := lastReport w;
     lastChildRunId := Some c |}.
Definition with_report (r : jstr) (w : AgentWorker) : AgentWorker :=
  {| workerRunId := workerRunId w; ordinal := ordinal w; workspace := workspace w;
     status := status w; leaseId := leaseId w; lastReport := Some r;
     lastChildRunId := lastChildRunId w |}.

Definition boundWorkerCount (v : num) : result Z :=
  match safe_in_range 1 8 v with Some z => Ok z | None => fail "Agent worker count must be 1-8" end.

Definition boundId (v : jstr) (label : string) : result jstr :=
  if (slen v <? 1) || (128 <? slen v) || has_control v then fail (label +:+ " is invalid") else Ok v.

Definition boundText (v : jstr) (maxBytes : Z) : jstr := chop_to_bytes (length v) v maxBytes.

(** [family.workers.find(...)] and an assignment to a field of the worker found *)
Definition find_worker (ws : list AgentWorker) (id : jstr) : option AgentWorker :=
  head (filter (fun w => workerRunId w = id) ws).
Fixpoint update_worker (ws : list AgentWorker) (id : jstr) (f : AgentWorker -> AgentWorker)
  : list AgentWorker :=
  match ws with
  | [] => []
  | w :: ws' => if bool_decide (workerRunId w = id) then f w :: ws' else w :: update_worker ws' id f
  end.
Definition update_family (fam : AgentWorkerFamily) (id : jstr) (f : AgentWorker -> AgentWorker)
  : AgentWorkerFamily :=
  {| familyId := familyId fam; primeRunId := primeRunId fam; incarnation := incarnation fam;
     workers := update_worker (workers fam) id f |}.

Definition requireFamily (reg : Registry) (id : jstr) : result AgentWorkerFamily :=
  key ← boundId id "family id";
  match reg !! key with
  | Some f => Ok f
  | None => fail "Agent worker family is not found"
  end.

Definition requireWorker (reg : Registry) (fid wid : jstr) : result AgentWorker :=
  family ← requireFamily reg fid;
  match find_worker (workers family) wid with
  | Some w => Ok w
  | None => fail "Agent worker does not belong to this family/incarnation"
  end.

(** [worker.field = ...] on the worker [requireWorker] returned, and the copy
    [{ ...worker }] that every method returns. *)
Definition assign (fid wid : jstr) (f : AgentWorker -> AgentWorker) : M Registry unit :=
  modify (alter (fun fam => update_family fam wid f) fid).
Definition worker_now (fid wid : jstr) : M Registry AgentWorker := fun reg => (requireWorker reg fid wid, reg).

(** [randomUUID().replaceAll("-", "").slice(0, 16)] *)
Definition uuid_tag (uuid : jstr) : jstr := slice_to 16 (filter (fun u => u <> 45%N) uuid).

Definition new_worker (ws : jstr) (index : nat) (uuid : jstr) : AgentWorker :=
  {| workerRunId := js "worker_" ++ uuid_tag uuid; ordinal := Z.of_nat index + 1; workspace := ws;
     status := sleeping; leaseId := None; lastReport := None; lastChildRunId := None |}.

(** [uuid] is the family's random id and [uuids i] that of worker [i]. *)
Definition create (uuid : jstr) (uuids : nat -> jstr) (primeRunId workspace : jstr) (workerCount : num)
  : M Registry AgentWorkerFamily :=
  let fid := js "family_" ++ uuid_tag uuid in
  ws ← lift (boundId workspace "workspace");
  count ← lift (boundWorkerCount workerCount);
  prime ← lift (boundId primeRunId "prime run id");
  let family := {| familyId := fid; primeRunId := prime; incarnation := 1;
                   workers := map (fun i => new_worker ws i (uuids i)) (seq 0 (Z.to_nat count)) |} in
  _ ← modify (fun reg => <[fid := family]> reg);
  mret family.

Definition claim (fid wid lease child : jstr) : M Registry AgentWorker :=
  worker ← worker_now fid wid;
  if bool_decide (status worker ≠ sleeping) && bool_decide (status worker ≠ reported)
  then throw "Agent worker is not claimable"
  else
    _ ← assign fid wid (with_status claimed);
    l ← lift (boundId lease "worker lease id");
    _ ← assign fid wid (with_lease l);
    c ← lift (boundId child "worker child run id");
    _ ← assign fid wid (with_child c);
    worker_now fid wid.

Definition markRunning (fid wid lease : jstr) : M Registry AgentWorker :=
  worker ← worker_now fid wid;
  if bool_decide (leaseId worker ≠ Some lease)
  then throw "Agent worker lease does not match this family/incarnation"
  else if bool_decide (status worker ≠ claimed)
  then throw "Agent worker must be claimed before running"
  else _ ← assign fid wid (with_status running); worker_now fid wid.

Definition report (fid wid lease text : jstr) : M Registry AgentWorker :=
  worker ← worker_now fid wid;
  if bool_decide (leaseId worker ≠ Some lease)
  then throw "Agent worker lease does not match this family/incarnation"
  else if bool_decide (status worker ≠ claimed) && bool_decide (status worker ≠ running)
  then throw "Agent worker is not running under this lease"
  else
    _ ← assign fid wid (with_status reported);
    _ ← assign fid wid (with_report (boundText text (32 * 1024)));
    worker_now fid wid.

Definition retire (fid wid : jstr) : M Registry AgentWorker :=
  worker ← worker_now fid wid;
  _ ← assign fid wid (with_status retired);
  worker_now fid wid.

(** [get]: [cloneFamily] copies, so the caller cannot reach the registry. *)
Definition get (fid : jstr) : M Registry AgentWorkerFamily := fun reg => (requireFamily reg fid, reg).

(** ** Operations as steps *)

Inductive op :=
| Create (uuid : jstr) (uuids : nat -> jstr) (primeRunId workspace : jstr) (workerCount : num)
| Claim (fid wid lease child : jstr)
| MarkRunning (fid wid lease : jstr)
| Report (fid wid lease text : jstr)
| Retire (fid wid : jstr).

(** Whether the call returned, and the registry after it. *)
Definition exec (o : op) (reg : Registry) : bool * Registry :=
  match o with
  | Create u us p w n => let (r, reg') := create u us p w n reg in (is_ok r, reg')
  | Claim f w l c => let (r, reg') := claim f w l c reg in (is_ok r, reg')
  | MarkRunning f w l => let (r, reg') := markRunning f w l reg in (is_ok r, reg')
  | Report f w l t => let (r, reg') := report f w l t reg in (is_ok r, reg')
  | Retire f w => let (r, reg') := retire f w reg in (is_ok r, reg')
  end.
Fixpoint exec_all (os : list op) (reg : Registry) : Registry :=
  match os with [] => reg | o :: os' => exec_all os' (exec o reg).2 end.

(** The worker that a family id and a worker id name. *)
Definition worker_at (reg : Registry) (fid wid : jstr) : option AgentWorker :=
  fam ← reg !! fid; find_worker (workers fam) wid.

(** The status changes the registry allows. *)
Definition may_become (a b : AgentWorkerStatus) : bool :=
  bool_decide (a = b) ||
  match a, b with
  | sleeping, claimed | reported, claimed => true
  | claimed, running => true
  | claimed, reported | running, reported => true
  | _, retired => true
  | _, _ => false
  end.

(** A [create] never reuses the id of a family that exists (its id is random). *)
Definition fresh_for (reg : Registry) (o : op) : Prop :=
  match o with Create u _ _ _ _ => reg !! (js "family_" ++ uuid_tag u) = None | _ => True end.

(** ** Lemmas *)

Definition keeps_id (f : AgentWorker -> AgentWorker) : Prop :=
  forall w, workerRunId (f w) = workerRunId w.

Lemma find_update_worker ws id f id' : keeps_id f ->
  find_worker (update_worker ws id f) id'
  = if bool_decide (id = id') then f <$> find_worker ws id' else find_worker ws id'.
Proof.
  intros Hf. unfold find_worker. induction ws as [|w ws IH]; simpl.
  - by case_bool_decide.
  - destruct (decide (workerRunId w = id)) as [Hw|Hw].
    + rewrite (bool_decide_eq_true_2 (workerRunId w = id)), !filter_cons, (Hf w), Hw by done.
      destruct (decide (id = id')) as [->|].
      * by rewrite bool_decide_eq_true_2.
      * by rewrite bool_decide_eq_false_2.
    + rewrite (bool_decide_eq_false_2 (workerRunId w = id)), !filter_cons by done.
      destruct (decide (workerRunId w = id')) as [<-|]; [|done].
      by rewrite bool_decide_eq_false_2.
Qed.

Lemma worker_at_assign reg fid wid f fid' wid' : keeps_id f ->
  worker_at (alter (fun fam => update_family fam wid f) fid reg) fid' wid'
  = if bool_decide (fid = fid' /\ wid = wid') then f <$> worker_at reg fid' wid'
    else worker_at reg fid' wid'.
Proof.
  intros Hf. unfold worker_at. rewrite lookup_alter.
  destruct (decide (fid = fid')) as [->|Hne].
  - destruct (reg !! fid') as [fam|]; simpl; [|by repeat case_bool_decide].
    rewrite find_update_worker by done. repeat case_bool_decide; naive_solver.
  - rewrite bool_decide_eq_false_2 by naive_solver. done.
Qed.

Definition valid_id (v : jstr) : bool :=
  (1 <=? slen v) && (slen v <=? 128) && negb (has_control v).

Lemma boundId_spec v label :
  boundId v label = if valid_id v then Ok v else fail (label +:+ " is invalid").
Proof.
  unfold boundId, valid_id. rewrite (Z.leb_antisym (slen v) 1), (Z.leb_antisym 128).
  by destruct (slen v <? 1), (128 <? slen v), (has_control v).
Qed.

Lemma boundId_Ok v label k : boundId v label = Ok k -> k = v /\ valid_id v = true.
Proof. rewrite boundId_spec. destruct (valid_id v); [|done]. by intros [= ->]. Qed.

Lemma requireWorker_Ok reg fid wid w : requireWorker reg fid wid = Ok w ->
  worker_at reg fid wid = Some w.
Proof.
  unfold requireWorker, requireFamily. intros H. apply bind_Ok in H as (fam & Hf & H).
  apply bind_Ok in Hf as (key & Hk & Hf).
  apply boundId_Ok in Hk as [-> _].
  unfold worker_at. destruct (reg !! fid) as [fam'|]; [|done]. injection Hf as ->. simpl.
  destruct (find_worker _ _); [by injection H as ->|done].
Qed.

Lemma keeps_status s : keeps_id (with_status s). Proof. done. Qed.
Lemma keeps_lease l : keeps_id (with_lease l). Proof. done. Qed.
Lemma keeps_child c : keeps_id (with_child c). Proof. done. Qed.
Lemma keeps_report r : keeps_id (with_report r). Proof. done. Qed.
#[local] Hint Resolve keeps_status keeps_lease keeps_child keeps_report : sn.

Definition target (o : op) : option (jstr * jstr) :=
  match o with
  | Create _ _ _ _ _ => None
  | Claim f w _ _ | MarkRunning f w _ | Report f w _ _ | Retire f w => Some (f, w)
  end.

(** What a call may do to the worker it names: nothing, or a change of the
    fields that starts from a status that allows it. *)
Inductive effect (o : op) (w w' : AgentWorker) : Prop :=
| no_effect : w' = w -> effect o w w'
| claim_effect f i l c : o = Claim f i l c -> (status w = sleeping \/ status w = reported) ->
    status w' = claimed -> (leaseId w' = leaseId w \/ leaseId w' = Some l) -> effect o w w'
| run_effect f i l : o = MarkRunning f i l -> leaseId w = Some l -> status w = claimed ->
    w' = with_status running w -> effect o w w'
| report_effect f i l t : o = Report f i l t -> leaseId w = Some l ->
    (status w = claimed \/ status w = running) ->
    w' = with_report (boundText t (32 * 1024)) (with_status reported w) -> effect o w w'
| retire_effect f i : o = Retire f i -> w' = with_status retired w -> effect o w w'.

Ltac run_op := cbv [exec claim markRunning report retire worker_now assign modify throw lift fail
                    mbind M_bind mret M_ret].
Ltac at_target := rewrite !worker_at_assign by done; rewrite !bool_decide_eq_true_2 by done.

Lemma exec_effect o reg fid wid w : target o = Some (fid, wid) -> worker_at reg fid wid = Some w ->
  exists w', worker_at (exec o reg).2 fid wid = Some w' /\ effect o w w'.
Proof.
  intros Ht Hw. destruct o as [|f i l c|f i l|f i l t|f i]; simplify_eq/=; run_op;
    destruct (requireWorker reg fid wid) as [v|e] eqn:Er;
    try (exists w; split; [done | by apply no_effect]).
  all: apply requireWorker_Ok in Er; assert (v = w) as -> by congruence.
  - destruct (_ && _) eqn:E; [exists w; split; [done | by apply no_effect]|].
    assert (Hst : status w = sleeping \/ status w = reported).
    { apply andb_false_iff in E as [E|E]; apply bool_decide_eq_false in E;
        apply dec_stable in E; auto. }
    destruct (boundId l _) as [l'|e] eqn:El; simpl.
    2:{ at_target. rewrite Hw. eexists. split; [done|]. eapply claim_effect; [done|done|done|by left]. }
    apply boundId_Ok in El as [-> _].
    destruct (boundId c _) as [c'|e]; simpl; at_target; rewrite Hw;
      (eexists; split; [done|]; eapply claim_effect; [done|done|done|by right]).
  - case_bool_decide as Hl; [exists w; split; [done | by apply no_effect]|].
    case_bool_decide as Hs; [exists w; split; [done | by apply no_effect]|].
    simpl. at_target. rewrite Hw. eexists. split; [done|].
    by eapply run_effect.
  - case_bool_decide as Hl; [exists w; split; [done | by apply no_effect]|].
    destruct (_ && _) eqn:E; [exists w; split; [done | by apply no_effect]|].
    simpl. at_target. rewrite Hw. eexists. split; [done|].
    refine (report_effect _ _ _ _ _ _ _ eq_refl Hl _ eq_refl).
    apply andb_false_iff in E as [E|E]; apply bool_decide_eq_false in E; apply dec_stable in E; auto.
  - simpl. at_target. rewrite Hw. eexists. split; [done|]. by eapply retire_effect.
Qed.

Ltac elsewhere :=
  rewrite !worker_at_assign by done; rewrite !bool_decide_eq_false_2 by naive_solver; done.

Lemma exec_other o reg fid wid : fresh_for reg o -> target o <> Some (fid, wid) ->
  is_Some (reg !! fid) -> worker_at (exec o reg).2 fid wid = worker_at reg fid wid.
Proof.
  intros Hfresh Ht Hfam. destruct o as [u us p s n|f i l c|f i l|f i l t|f i]; simpl in Hfresh, Ht.
  - unfold exec, create, lift, mbind, M_bind, modify, mret, M_ret.
    destruct (boundId s _); [|done]. destruct (boundWorkerCount n); [|done].
    destruct (boundId p _); [|done]. simpl. unfold worker_at. rewrite lookup_insert_ne; [done|].
    intros <-. rewrite Hfresh in Hfam. by destruct Hfam.
  - run_op. destruct (requireWorker _ _ _); [|done]. destruct (_ && _); [done|].
    destruct (boundId l _); simpl; [destruct (boundId c _); simpl|]; elsewhere.
  - run_op. destruct (requireWorker _ _ _); [|done]. destruct (bool_decide _); [done|].
    destruct (bool_decide _); [done|]. simpl. elsewhere.
  - run_op. destruct (requireWorker _ _ _); [|done]. destruct (bool_decide _); [done|].
    destruct (_ && _); [done|]. simpl. elsewhere.
  - run_op. destruct (requireWorker _ _ _); [|done]. simpl. elsewhere.
Qed.

Lemma effect_may_become o w w' : effect o w w' -> may_become (status w) (status w') = true.
Proof.
  unfold may_become. intros [H|f i l c _ [H|H] H' _|f i l _ _ H H'|f i l t _ _ [H|H] H'|f i _ H];
    rewrite ?H, ?H'; cbn [with_status with_report status]; rewrite ?H;
    rewrite ?bool_decide_eq_true_2 by done; try done.
  all: apply orb_true_r || by destruct (status w).
Qed.

(** Every create of a run draws an id no family of the registry has. *)
Fixpoint fresh_run (reg : Registry) (os : list op) : Prop :=
  match os with [] => True | o :: os' => fresh_for reg o /\ fresh_run (exec o reg).2 os' end.

Lemma worker_at_family reg fid wid w : worker_at reg fid wid = Some w -> is_Some (reg !! fid).
Proof. unfold worker_at. destruct (reg !! fid); [by eexists | done]. Qed.

Lemma exec_step o reg fid wid w : fresh_for reg o -> worker_at reg fid wid = Some w ->
  exists w', worker_at (exec o reg).2 fid wid = Some w' /\ effect o w w' /\
    (target o <> Some (fid, wid) -> w' = w).
Proof.
  intros Hf Hw. destruct (decide (target o = Some (fid, wid))) as [Ht|Ht].
  - destruct (exec_effect o reg fid wid w Ht Hw) as (w' & ? & ?). by exists w'.
  - exists w. split; [|by split; [apply no_effect|]].
    rewrite exec_other; eauto using worker_at_family.
Qed.

(** The proof rule for runs: a property of a worker that every allowed call
    keeps holds after any run of such calls. *)
Lemma run_keeps (P : AgentWorker -> Prop) (allowed : op -> Prop) fid wid :
  (forall o w w', allowed o -> P w -> effect o w w' -> P w') ->
  forall os reg w, Forall (fun o => target o = Some (fid, wid) -> allowed o) os ->
    fresh_run reg os -> worker_at reg fid wid = Some w -> P w ->
    exists w', worker_at (exec_all os reg) fid wid = Some w' /\ P w'.
Proof.
  intros Hstep. induction os as [|o os IH]; intros reg w Hall Hfresh Hw HP; [by exists w|].
  inversion_clear Hall as [|? ? Ho Hos]. destruct Hfresh as [Hf Hfs].
  destruct (exec_step o reg fid wid w Hf Hw) as (w' & Hw' & Heff & Hsame).
  apply (IH (exec o reg).2 w'); try done.
  destruct (decide (target o = Some (fid, wid))) as [Ht|Ht]; [eauto | by rewrite Hsame].
Qed.

Definition families_of (n : Z) : Registry :=
  (create (js "aaaaaaaa-bbbb-cccc-dddd-eeeeeeeeeeee") (fun i => js "w" ++ js_int (Z.of_nat i))
     (js "prime") (js "ws") (NInt n) ∅).2.
Definition the_family := js "family_aaaaaaaabbbbcccc".
Definition held (l : jstr) (w : AgentWorker) : Prop :=
  (status w = claimed \/ status w = running) /\ leaseId w = Some l.

(** ** Properties *)

(** A call on the worker registry changes at most the worker it names,
    and that worker only by one of the allowed effects: a sleeping or reported
    worker is claimed, a claimed one starts running under its own lease, a
    claimed or running one reports under its own lease (the report cut to
    32 KiB), any worker is retired; so every status change is one of the
    state machine's. *)
Theorem worker_state_machine o reg fid wid w
  (Hfresh : fresh_for reg o) (Hw : worker_at reg fid wid = Some w) :
  exists w', worker_at (exec o reg).2 fid wid = Some w' /\ effect o w w' /\
    may_become (status w) (status w') = true /\
    (target o <> Some (fid, wid) -> w' = w) /\
    workerRunId w' = workerRunId w.
Proof.
  destruct (exec_step o reg fid wid w Hfresh Hw) as (w' & Hw' & Heff & Hsame).
  exists w'. split_and!; [done..|by apply (effect_may_become o)|done|].
  assert (Hid : forall r w1, worker_at r fid wid = Some w1 -> workerRunId w1 = wid).
  { intros r w1 H. unfold worker_at in H. destruct (r !! fid) as [fam|]; [|done].
    apply head_Some_elem_of in H. by apply list_elem_of_filter in H as [? _]. }
  by rewrite (Hid _ _ Hw), (Hid _ _ Hw').
Qed.

(** A lease is exclusive: while a worker is claimed or running under a
    lease, no run of calls that neither retires it nor reports under that
    lease takes it away or writes its report. *)
Theorem lease_is_exclusive fid wid l os reg w
  (Hfresh : fresh_run reg os) (Hw : worker_at reg fid wid = Some w) (Hheld : held l w)
  (Hos : Forall (fun o => target o = Some (fid, wid) ->
     o <> Retire fid wid /\ forall t, o <> Report fid wid l t) os) :
  exists w', worker_at (exec_all os reg) fid wid = Some w' /\ held l w' /\
    lastReport w' = lastReport w.
Proof.
  refine (run_keeps (fun v => held l v /\ lastReport v = lastReport w)
    (fun o => target o = Some (fid, wid) /\ o <> Retire fid wid /\ forall t, o <> Report fid wid l t)
    fid wid _ os reg w _ Hfresh Hw (conj Hheld eq_refl)).
  - intros o v v' (Ht & Hr & Hrep) [[Hst Hl] Hlast]
      [->|f i l' c -> Hv Hs Hv'|f i l' -> Hl' Hs ->|f i l' t -> Hl' Hs ->|f i -> ->];
      simpl in Ht; simplify_eq/=.
    + done.
    + destruct Hst as [Hst|Hst], Hv; congruence.
    + split; [|done]. by split; [right|].
    + exfalso. by eapply Hrep.
  - eapply Forall_impl; [exact Hos|]. naive_solver.
Qed.

(** A retired worker stays exactly as it was when it was retired, over
    every later run of calls. *)
Theorem retired_is_final fid wid os reg w
  (Hfresh : fresh_run reg os) (Hw : worker_at reg fid wid = Some w) (Hst : status w = retired) :
  worker_at (exec_all os reg) fid wid = Some w.
Proof.
  destruct (run_keeps (fun v => v = w) (fun _ => True) fid wid) with (os := os) (reg := reg) (w := w)
    as (w' & -> & ->); try done.
  - intros o v v' _ -> [->|f i l' c -> [H|H] _ _|f i l' -> _ H ->|f i l' t -> _ [H|H] ->|f i -> ->];
      try congruence.
    destruct w. simpl in Hst. by subst.
  - by apply Forall_true.
Qed.

(** A claim whose lease id is invalid throws, but after it has written
    the status: a worker without a lease is then claimed under no lease, and
    every run of calls but a retirement of it leaves it so. *)
Theorem failed_claim_strands_worker fid wid l c os reg w
  (Hw : worker_at reg fid wid = Some w) (Hst : status w = sleeping) (Hl : leaseId w = None)
  (Hfid : valid_id fid = true) (Hbad : valid_id l = false)
  (Hfresh : fresh_run (exec (Claim fid wid l c) reg).2 os) (Hos : ~ In (Retire fid wid) os) :
  (exec (Claim fid wid l c) reg).1 = false /\
  worker_at (exec_all (Claim fid wid l c :: os) reg) fid wid = Some (with_status claimed w).
Proof.
  set (reg' := alter (fun fam => update_family fam wid (with_status claimed)) fid reg).
  assert (Hclaim : exec (Claim fid wid l c) reg = (false, reg')).
  { run_op. unfold requireWorker, requireFamily. rewrite !boundId_spec, Hfid, Hbad. simpl.
    unfold worker_at in Hw. destruct (reg !! fid) as [fam|] eqn:Ef; [|done]. simpl in Hw |- *.
    rewrite Hw, Hst. done. }
  change (exec_all (Claim fid wid l c :: os) reg)
    with (exec_all os (exec (Claim fid wid l c) reg).2).
  rewrite Hclaim in *. cbn [fst snd] in *. split; [done|].
  assert (Hat : worker_at reg' fid wid = Some (with_status claimed w)).
  { unfold reg'. rewrite worker_at_assign, bool_decide_eq_true_2, Hw by done. done. }
  destruct (run_keeps (fun v => v = with_status claimed w)
      (fun o => target o = Some (fid, wid) /\ o <> Retire fid wid) fid wid)
    with (os := os) (reg := reg') (w := with_status claimed w) as (w' & ? & ->); try done.
  - intros o v v' [Ht Hr] ->
      [->|f i l' c' -> [H|H] _ _|f i l' -> H _ _|f i l' t -> H _ _|f i -> _]; simpl in *; congruence.
  - apply Forall_forall. intros o Ho Ht. split; [done|]. intros ->. by apply Hos, list_elem_of_In.
Qed.

(** *** Witnesses *)

Lemma worker_state_machine_witness :
  exists w : AgentWorker, worker_at (families_of 2) the_family (js "worker_w1") = Some w /\
  exists w', worker_at (exec (Claim the_family (js "worker_w1") (js "lease") (js "run")) (families_of 2)).2
               the_family (js "worker_w1") = Some w' /\ status w' = claimed.
Proof.
  eexists; split; [vm_compute; reflexivity|].
  edestruct (worker_state_machine (Claim the_family (js "worker_w1") (js "lease") (js "run"))
    (families_of 2) the_family (js "worker_w1")) as (w' & Hw' & _); [done|vm_compute; reflexivity|].
  exists w'. split; [exact Hw'|]. revert Hw'. vm_compute. by intros [= <-].
Defined.

Definition claimed_family : Registry :=
  (exec (Claim the_family (js "worker_w1") (js "lease") (js "run")) (families_of 2)).2.
Lemma lease_is_exclusive_witness :
  exists w', worker_at (exec_all [Claim the_family (js "worker_w1") (js "other") (js "run2");
                                  Report the_family (js "worker_w1") (js "other") (js "mine");
                                  Retire the_family (js "worker_w0")] claimed_family)
               the_family (js "worker_w1") = Some w' /\ held (js "lease") w'.
Proof.
  edestruct (lease_is_exclusive the_family (js "worker_w1") (js "lease")
    [Claim the_family (js "worker_w1") (js "other") (js "run2");
     Report the_family (js "worker_w1") (js "other") (js "mine");
     Retire the_family (js "worker_w0")] claimed_family) as (w' & ? & ? & _).
  - done.
  - vm_compute. reflexivity.
  - split; [by left|done].
  - forall_list; intros Ht; split; done.
  - exists w'. split; assumption.
Defined.

Definition retired_family : Registry :=
  (exec (Retire the_family (js "worker_w1")) (families_of 2)).2.
Lemma retired_is_final_witness :
  exists w, status w = retired /\
  worker_at (exec_all [Claim the_family (js "worker_w1") (js "lease") (js "run")] retired_family)
    the_family (js "worker_w1") = Some w.
Proof.
  eexists. split; [|apply (retired_is_final the_family (js "worker_w1")
    [Claim the_family (js "worker_w1") (js "lease") (js "run")] retired_family);
    [done|vm_compute; reflexivity|reflexivity]].
  reflexivity.
Defined.

Lemma failed_claim_strands_worker_witness :
  exists w, worker_at (exec_all [Claim the_family (js "worker_w1") [] (js "run");
      Claim the_family (js "worker_w1") (js "lease") (js "run");
      MarkRunning the_family (js "worker_w1") (js "lease")] (families_of 2))
    the_family (js "worker_w1") = Some (with_status claimed w).
Proof.
  eexists. eapply (failed_claim_strands_worker the_family (js "worker_w1") [] (js "run")
    [Claim the_family (js "worker_w1") (js "lease") (js "run");
     MarkRunning the_family (js "worker_w1") (js "lease")] (families_of 2)).
  - vm_compute. reflexivity.
  - reflexivity.
  - reflexivity.
  - vm_compute. reflexivity.
  - reflexivity.
  - done.
  - simpl. intros [H|[H|[]]]; discriminate H.
Defined.

End AgentWorkers.
