(* ===== verification/AgentPolicy.v ===== *)
(** * The agent IPC surface

    [desktop/src/main/agent-policy.ts] (what the renderer may ask),
    [agent-manager.ts] and the client of [agent-eval.ts] (the daemon requests
    it leads to) and the handler of [agent-ipc.ts] that joins them. *)

From S2P Require Import Prelude JsValue Validate AgentParser AgentEval AgentMemory.

Module AgentPolicy.
Import AgentParser.AgentParser(AgentTurnView, parseAgentTurnList).
Import AgentEval.AgentEval(AgentEvaluationView, parseAgentEvaluation).

(** [AGENT_IPC] *)
Definition AGENT_IPC_listTurns := js "desktop:agent-turns-list".
Definition AGENT_IPC_memoryPreview := js "desktop:agent-memory-preview".
Definition AGENT_IPC_evaluate := js "desktop:agent-evaluate".
Definition AGENT_IPC_listEvaluations := js "desktop:agent-evaluations-list".
Definition AGENT_INBOUND_IPC_CHANNELS : list jstr :=
  [AGENT_IPC_listTurns; AGENT_IPC_memoryPreview; AGENT_IPC_evaluate; AGENT_IPC_listEvaluations].

(** ** The policy *)

Definition exactRecord (v : value) (allowed : list string) : option (list (jstr * value)) :=
  match is_record v with
  | Some fs => if keys_allowed (map js allowed) fs then Some fs else None
  | None => None
  end.
Definition boundedId (v : value) : bool :=
  match v with
  | VString s => (1 <=? slen s) && (slen s <=? 128) && negb (has_control s)
  | _ => false
  end.
Definition boundedQuery (v : value) : bool :=
  match v with
  | VString s => (1 <=? slen (trim s)) && (slen s <=? 16 * 1024) && negb (has_control s)
  | _ => false
  end.
Definition optionalLimit (v : value) (max : Z) : bool :=
  match v with
  | VUndefined => true
  | VNumber n => match safe_in_range 1 max n with Some _ => true | None => false end
  | _ => false
  end.

Definition isTurnList (v : value) : bool :=
  match exactRecord v ["runId"; "limit"] with
  | Some r => boundedId (field r (js "runId")) && optionalLimit (field r (js "limit")) 100
  | None => false
  end.
Definition isMemoryPreview (v : value) : bool :=
  match exactRecord v ["runId"; "query"] with
  | Some r => boundedId (field r (js "runId")) && boundedQuery (field r (js "query"))
  | None => false
  end.
Definition isEvaluate (v : value) : bool :=
  match exactRecord v ["turnId"] with
  | Some r => boundedId (field r (js "turnId"))
  | None => false
  end.
Definition isEvaluationList (v : value) : bool :=
  match exactRecord v ["turnId"; "limit"] with
  | Some r => boundedId (field r (js "turnId")) && optionalLimit (field r (js "limit")) 100
  | None => false
  end.

Definition one_argument (p : value -> bool) (args : list value) : bool :=
  match args with [a] => p a | _ => false end.
(** [None] is the [null] of an allowed invocation. *)
Definition validateAgentIpcInvocation (channel : jstr) (args : list value) : option string :=
  if bool_decide (channel = AGENT_IPC_listTurns)
  then if one_argument isTurnList args then None else Some "Agent turn list input is invalid"
  else if bool_decide (channel = AGENT_IPC_memoryPreview)
  then if one_argument isMemoryPreview args then None else Some "Agent memory preview input is invalid"
  else if bool_decide (channel = AGENT_IPC_evaluate)
  then if one_argument isEvaluate args then None else Some "Agent evaluate input is invalid"
  else if bool_decide (channel = AGENT_IPC_listEvaluations)
  then if one_argument isEvaluationList args then None else Some "Agent evaluation list input is invalid"
  else Some "Agent IPC channel is not allowlisted".

(** ** The daemon client and the manager *)

Section Manager.
Context {S : Type} (harnessRequest : string -> value -> M S value).

(** [input.limit ?? fallback] *)
Definition or_default (v : value) (fallback : Z) : num :=
  match v with VNumber n => n | _ => NInt fallback end.
Definition arg (args : list value) (key : string) : value :=
  match args with VObject fs :: _ => field fs (js key) | _ => VUndefined end.
Definition as_string (v : value) : jstr := match v with VString s => s | _ => [] end.

(** The [DesktopAgentManager] methods behind the four channels; what they
    return is the view of the parsed answer. *)
Inductive view :=
| Turns (l : list AgentTurnView)
| Memory (semantic : list (jstr * Z * Z * Z)) (episodic : list (Z * jstr * list (option jstr)))
    (procedural : AgentMemory.AgentMemory.AgentProceduralMemory)
| Evaluation (e : AgentEvaluationView)
| Evaluations (l : list AgentEvaluationView).

Definition listTurns (args : list value) : M S view :=
  raw ← harnessRequest "/api/v1/harness/agent/turns/list"
          (VObject [(js "run_id", arg args "runId");
                    (js "limit", VNumber (or_default (arg args "limit") 25))]);
  lift (Turns <$> parseAgentTurnList raw).

(** [{ createdAt: _createdAt, ...episode }] *)
Definition without_createdAt (e : AgentMemory.AgentMemory.AgentMemoryEpisode)
  : Z * jstr * list (option jstr) :=
  (AgentMemory.AgentMemory.seq e, AgentMemory.AgentMemory.eventType e,
   [AgentMemory.AgentMemory.tool e; AgentMemory.AgentMemory.state e;
    AgentMemory.AgentMemory.decision e; AgentMemory.AgentMemory.route e;
    AgentMemory.AgentMemory.resultCategory e; AgentMemory.AgentMemory.errorCategory e;
    AgentMemory.AgentMemory.proofType e]).

(** The preview drops the texts of the semantic items. *)
Definition previewMemory (args : list value) : M S view :=
  memory ← AgentMemory.AgentMemory.retrieve harnessRequest (as_string (arg args "runId"))
             (as_string (arg args "query")) (Some (NInt 8)) (Some (NInt (32 * 1024))) (Some (NInt 20));
  mret (Memory (map (fun i => (AgentMemory.AgentMemory.path i, AgentMemory.AgentMemory.startLine i,
                               AgentMemory.AgentMemory.endLine i, AgentMemory.AgentMemory.score i))
                  (AgentMemory.AgentMemory.semantic memory))
               (map without_createdAt (AgentMemory.AgentMemory.episodic memory))
               (AgentMemory.AgentMemory.procedural memory)).

Definition manager_call (channel : jstr) (args : list value) : M S view :=
  if bool_decide (channel = AGENT_IPC_listTurns) then listTurns args
  else if bool_decide (channel = AGENT_IPC_memoryPreview) then previewMemory args
  else if bool_decide (channel = AGENT_IPC_evaluate)
  then e ← AgentEval.AgentEval.evaluate harnessRequest (as_string (arg args "turnId")); mret (Evaluation e)
  else l ← AgentEval.AgentEval.list_evaluations harnessRequest (as_string (arg args "turnId"))
             (Some (or_default (arg args "limit") 20));
       mret (Evaluations l).

Inductive reply := Reply (v : view) | Forbidden | InvalidRequest (message : string) | NotReady
| OperationFailed (e : exn).

(** [secureHandle] and [invoke]: the sender, then the policy, then the manager. *)
Definition handle (trusted ready : bool) (channel : jstr) (args : list value) : S -> reply * S := fun s =>
  if negb trusted then (Forbidden, s)
  else match validateAgentIpcInvocation channel args with
       | Some message => (InvalidRequest message, s)
       | None =>
           if negb ready then (NotReady, s)
           else match manager_call channel args s with
                | (Ok v, s') => (Reply v, s')
                | (Throw e, s') => (OperationFailed e, s')
                end
       end.
End Manager.

(** ** The boundary *)

Definition id_valid (s : jstr) : Prop := 1 <= slen s <= 128 /\ has_control s = false.
Definition query_valid (s : jstr) : Prop :=
  trim s <> [] /\ slen s <= 16 * 1024 /\ has_control s = false.

(** A daemon that answers, and a log of what it was asked. *)
Definition log_request (answers : string -> value -> result value) (path : string) (body : value)
  : M (list (string * value)) value := fun log => (answers path body, log ++ [(path, body)]).

(** The one request a channel leads to, with its bounds. *)
Inductive request_ok : jstr -> string -> value -> Prop :=
| turns_request run limit : id_valid run -> 1 <= limit <= 100 ->
    request_ok AGENT_IPC_listTurns "/api/v1/harness/agent/turns/list"
      (VObject [(js "run_id", VString run); (js "limit", VInt limit)])
| memory_request run query : id_valid run -> query_valid query ->
    request_ok AGENT_IPC_memoryPreview "/api/v1/harness/agent/memory"
      (VObject [(js "run_id", VString run); (js "query", VString query); (js "max_items", VInt 8);
                (js "max_bytes", VInt (32 * 1024)); (js "max_episodes", VInt 20)])
| evaluate_request turn : id_valid turn ->
    request_ok AGENT_IPC_evaluate "/api/v1/harness/agent/evaluations/run"
      (VObject [(js "turn_id", VString turn)])
| evaluations_request turn limit : id_valid turn -> 1 <= limit <= 100 ->
    request_ok AGENT_IPC_listEvaluations "/api/v1/harness/agent/evaluations/list"
      (VObject [(js "turn_id", VString turn); (js "limit", VInt limit)]).

Lemma boundedId_true v : boundedId v = true -> exists s, v = VString s /\ id_valid s.
Proof.
  destruct v; cbn [boundedId]; try done. intros H. to_prop. exists s. by repeat split.
Qed.

Lemma boundedQuery_true v : boundedQuery v = true -> exists s, v = VString s /\ query_valid s.
Proof.
  destruct v; cbn [boundedQuery]; try done. intros H. to_prop. exists s. repeat split; try done.
  intros Ht. unfold slen in *. rewrite Ht in *. simpl in *. lia.
Qed.

Lemma optionalLimit_true v d : optionalLimit v 100 = true -> 1 <= d <= 100 ->
  exists z, or_default v d = NInt z /\ 1 <= z <= 100.
Proof.
  destruct v; cbn [optionalLimit]; try done; intros H Hd.
  - by exists d.
  - destruct (safe_in_range 1 100 n) eqn:E; [|done]. apply safe_in_range_Some in E as (-> & ? & _).
    by exists z.
Qed.

Lemma exactRecord_Some v allowed r : exactRecord v allowed = Some r -> v = VObject r.
Proof.
  unfold exactRecord. destruct v; simpl; try done. by destruct (keys_allowed _ _); [intros [= <-]|].
Qed.

(** [args] as the manager reads them, when [p] accepted the one argument. *)
Lemma one_argument_true p args : one_argument p args = true -> exists a, args = [a] /\ p a = true.
Proof. destruct args as [|a [|b l]]; try done. intros H. by exists a. Qed.

Lemma isTurnList_true v : isTurnList v = true -> exists run limit,
  arg [v] "runId" = VString run /\ id_valid run /\
  or_default (arg [v] "limit") 25 = NInt limit /\ 1 <= limit <= 100.
Proof.
  unfold isTurnList. destruct (exactRecord _ _) as [r|] eqn:E; [|done].
  apply exactRecord_Some in E as ->. intros [H1 H2]%andb_prop.
  apply boundedId_true in H1 as (run & Hr & ?). apply (optionalLimit_true _ 25) in H2 as (z & ? & ?); [|lia].
  by exists run, z.
Qed.

Lemma isEvaluationList_true v : isEvaluationList v = true -> exists turn limit,
  arg [v] "turnId" = VString turn /\ id_valid turn /\
  or_default (arg [v] "limit") 20 = NInt limit /\ 1 <= limit <= 100.
Proof.
  unfold isEvaluationList. destruct (exactRecord _ _) as [r|] eqn:E; [|done].
  apply exactRecord_Some in E as ->. intros [H1 H2]%andb_prop.
  apply boundedId_true in H1 as (run & Hr & ?). apply (optionalLimit_true _ 20) in H2 as (z & ? & ?); [|lia].
  by exists run, z.
Qed.

Lemma isMemoryPreview_true v : isMemoryPreview v = true -> exists run query,
  arg [v] "runId" = VString run /\ id_valid run /\ arg [v] "query" = VString query /\ query_valid query.
Proof.
  unfold isMemoryPreview. destruct (exactRecord _ _) as [r|] eqn:E; [|done].
  apply exactRecord_Some in E as ->. intros [H1 H2]%andb_prop.
  apply boundedId_true in H1 as (run & Hr & ?). apply boundedQuery_true in H2 as (q & ? & ?).
  by exists run, q.
Qed.

Lemma isEvaluate_true v : isEvaluate v = true -> exists turn,
  arg [v] "turnId" = VString turn /\ id_valid turn.
Proof.
  unfold isEvaluate. destruct (exactRecord _ _) as [r|] eqn:E; [|done].
  apply exactRecord_Some in E as ->. apply boundedId_true.
Qed.

(** An accepted invocation makes the manager send exactly one request. *)
Lemma manager_call_request answers channel args log :
  validateAgentIpcInvocation channel args = None ->
  exists path body, request_ok channel path body /\
    (manager_call (log_request answers) channel args log).2 = log ++ [(path, body)].
Proof.
  unfold validateAgentIpcInvocation, manager_call.
  repeat (case_bool_decide as Hc; [destruct (one_argument _ args) eqn:E; [|done]; intros _;
    apply one_argument_true in E as (a & -> & Ha); subst channel|clear Hc]); [..|discriminate].
  - apply isTurnList_true in Ha as (run & limit & Hrun & ? & Hlim & ?). do 2 eexists. split; [by constructor|].
    unfold listTurns, log_request, mbind, M_bind, lift. rewrite Hrun, Hlim. by destruct (answers _ _).
  - apply isMemoryPreview_true in Ha as (run & q & Hrun & ? & Hq & ?). do 2 eexists. split; [by constructor|].
    unfold previewMemory, AgentMemory.AgentMemory.retrieve, log_request, mbind, M_bind, lift, mret, M_ret.
    rewrite Hrun, Hq. cbn. destruct (answers _ _); [|done].
    by destruct (AgentMemory.AgentMemory.parseAgentMemory _).
  - apply isEvaluate_true in Ha as (turn & Hturn & ?). do 2 eexists. split; [by constructor|].
    unfold AgentEval.AgentEval.evaluate, log_request, mbind, M_bind, lift, mret, M_ret. rewrite Hturn.
    destruct (answers _ _); [|done]. by destruct (parseAgentEvaluation _).
  - apply isEvaluationList_true in Ha as (turn & limit & Hturn & ? & Hlim & ?). do 2 eexists.
    split; [by constructor|]. unfold AgentEval.AgentEval.list_evaluations, log_request, mbind, M_bind, lift, mret, M_ret.
    rewrite Hturn, Hlim. cbn. destruct (answers _ _); [|done].
    destruct (AgentEval.AgentEval.record _ _); [|done]. destruct (array_field _ _); [|done].
    by destruct (map_result _ _).
Qed.

(** ** Properties *)

(** The agent IPC boundary: the handler asks the daemon nothing unless the
    sender is trusted, the manager ready and the invocation accepted by the
    policy, and then it sends exactly one request, to the endpoint of the
    channel, with an identifier of 1 to 128 control-free characters, a limit
    between 1 and 100 and a query of at most 16 KiB that is not blank. *)
Theorem agent_ipc_boundary answers trusted ready channel args :
  let (r, log) := handle (log_request answers) trusted ready channel args [] in
  match r with
  | Forbidden => trusted = false /\ log = []
  | InvalidRequest m => trusted = true /\ validateAgentIpcInvocation channel args = Some m /\ log = []
  | NotReady => validateAgentIpcInvocation channel args = None /\ ready = false /\ log = []
  | Reply _ | OperationFailed _ =>
      trusted = true /\ ready = true /\ validateAgentIpcInvocation channel args = None /\
      exists path body, log = [(path, body)] /\ request_ok channel path body
  end.
Proof.
  unfold handle. destruct trusted; [|done]. cbn [negb].
  destruct (validateAgentIpcInvocation channel args) as [m|] eqn:Ev; [done|].
  destruct ready; [|done]. cbn [negb].
  destruct (manager_call_request answers channel args [] Ev) as (path & body & Hok & Hlog).
  destruct (manager_call _ _ _ _) as [[v|e] log]; simpl in Hlog; subst log;
    (split_and!; [done..|by exists path, body]).
Qed.

Example preview_is_sent :
  (handle (log_request (fun _ _ => fail "offline")) true true AGENT_IPC_evaluate
     [VObject [(js "turnId", VString (js "turn-1"))]] []).2
  = [("/api/v1/harness/agent/evaluations/run", VObject [(js "turn_id", VString (js "turn-1"))])].
Proof. reflexivity. Qed.

End AgentPolicy.
