(* ===== verification/Governance.v ===== *)
(** * Enterprise governance of MCP extensions

    [desktop/src/main/mcp-enterprise-governance.ts]: the organization's policy
    file - how it is parsed, what it decides about an extension and what it
    leaves of a tool's settings. The regular expressions of the source are
    written out as the deterministic matchers they are; patterns are ASCII
    ([parsePatterns]), so the [i] flag folds ASCII letters only. The WHATWG
    URL parser and the environment are arguments. *)

From S2P Require Import Prelude JsValue Path.

Module Governance.

Definition MAX_POLICY_BYTES : Z := 256 * 1024.
Definition MAX_RULES : Z := 256.
Definition MAX_CATALOGS : Z := 8.
Definition MAX_PATTERN_LENGTH : Z := 160.

Inductive Transport := stdio | streamable_http.
#[global] Instance Transport_eq_dec : EqDecision Transport.
Proof. solve_decision. Defined.
Definition transport_name (t : Transport) : string :=
  match t with stdio => "stdio" | streamable_http => "streamable-http" end.
Inductive McpToolApproval := automatic | ask | blocked.
#[global] Instance McpToolApproval_eq_dec : EqDecision McpToolApproval.
Proof. solve_decision. Defined.
Inductive McpEnterpriseCatalogKind := organization | private.

Record McpEnterpriseCatalog := {
  cat_id : jstr; cat_name : jstr; cat_kind : McpEnterpriseCatalogKind; cat_url : jstr }.
Record McpEnterpriseRuleSet := {
  extensions : list jstr; publishers : list jstr; transports : list Transport }.
Record McpEnterpriseToolTemplate := {
  tpl_extension : jstr; tpl_tool : jstr; tpl_enabled : option bool; tpl_approval : option McpToolApproval }.
Record McpEnterpriseToolRevoke := { rev_extension : jstr; rev_tool : jstr }.

Record McpEnterpriseGovernancePolicy := {
  managed : bool;
  catalogs : list McpEnterpriseCatalog;
  allow : McpEnterpriseRuleSet;
  deny : McpEnterpriseRuleSet;
  approvedExtensions : list jstr;
  approvedPublishers : list jstr;
  versionPins : list (jstr * jstr);
  allowedVersions : list (jstr * list jstr);
  blockedVersions : list (jstr * list jstr);
  toolPolicies : list McpEnterpriseToolTemplate;
  revokedExtensions : list jstr;
  revokedTools : list McpEnterpriseToolRevoke }.

Record McpGovernanceDecision := {
  d_managed : bool; allowed : bool; approved : bool; blockers : list jstr }.
Record McpGovernedExtension := {
  ext_id : jstr; version : jstr; source : jstr; transport : Transport }.

Definition empty_rules : McpEnterpriseRuleSet :=
  {| extensions := []; publishers := []; transports := [] |}.
Definition EMPTY_POLICY : McpEnterpriseGovernancePolicy :=
  {| managed := false; catalogs := []; allow := empty_rules; deny := empty_rules;
     approvedExtensions := []; approvedPublishers := []; versionPins := []; allowedVersions := [];
     blockedVersions := []; toolPolicies := []; revokedExtensions := []; revokedTools := [] |}.

(** ** Characters *)

Definition is_digit (u : N) : bool := (48 <=? u)%N && (u <=? 57)%N.
Definition is_upper (u : N) : bool := (65 <=? u)%N && (u <=? 90)%N.
Definition is_lower (u : N) : bool := (97 <=? u)%N && (u <=? 122)%N.
Definition is_alnum (u : N) : bool := is_digit u || is_upper u || is_lower u.
Definition one_of (s : string) (u : N) : bool := existsb (N.eqb u) (js s).
Definition lower (u : N) : N := if is_upper u then (u + 32)%N else u.
Definition is_line_terminator (u : N) : bool :=
  (u =? 10)%N || (u =? 13)%N || (u =? 0x2028)%N || (u =? 0x2029)%N.

(** ** Wildcards

    [wildcardMatch]: [*] is [.*] and [?] is [.], everything else is literal,
    anchored at both ends, letters compared without case. *)
Definition STAR : N := 42.
Definition QUESTION : N := 63.
Definition dot (u : N) : bool := negb (is_line_terminator u).

Fixpoint wildcard_match (pattern : jstr) : jstr -> bool :=
  match pattern with
  | [] => fun value => match value with [] => true | _ => false end
  | p :: pattern' =>
      let rest := wildcard_match pattern' in
      if (p =? STAR)%N then
        fix star (value : jstr) : bool :=
          rest value || match value with u :: value' => dot u && star value' | [] => false end
      else if (p =? QUESTION)%N then
        fun value => match value with u :: value' => dot u && rest value' | [] => false end
      else
        fun value => match value with u :: value' => (lower u =? lower p)%N && rest value' | [] => false end
  end.
Definition wildcardMatch (value pattern : jstr) : bool := wildcard_match pattern value.

Definition matchesAny (values patterns : list jstr) : bool :=
  existsb (fun pattern => existsb (fun value => wildcardMatch value pattern) values) patterns.

(** ** Versions *)

(** [\d+] at the head of a string, greedily, with what follows. *)
Fixpoint take_digits (s : jstr) : jstr * jstr :=
  match s with
  | u :: s' => if is_digit u then let (d, r) := take_digits s' in (u :: d, r) else ([], s)
  | [] => ([], [])
  end.
Definition digits_value (d : jstr) : Z :=
  fold_left (fun acc u => 10 * acc + (Z.of_N u - 48)) d 0.
(** [Number(digits)] *)
Definition to_number (d : jstr) : num := round_to_double (digits_value d).

Definition skip_v (s : jstr) : jstr := match s with u :: s' => if (u =? 118)%N then s' else s | [] => [] end.

(** An optional group, a dot and digits: the digits, if it is there *)
Definition dot_digits (s : jstr) : option jstr * jstr :=
  match s with
  | u :: s' => if (u =? 46)%N
               then match take_digits s' with
                    | ([], _) => (None, s)
                    | (d, r) => (Some d, r)
                    end
               else (None, s)
  | [] => (None, [])
  end.

(** The optional prerelease and build tags *)
Definition is_tag_char (u : N) : bool := is_alnum u || one_of ".-" u.
Fixpoint take_tag (s : jstr) : jstr * jstr :=
  match s with
  | u :: s' => if is_tag_char u then let (d, r) := take_tag s' in (u :: d, r) else ([], s)
  | [] => ([], [])
  end.
(** What follows an optional tag that starts with [lead]; [None] when the tag
    is empty. *)
Definition skip_tag (lead : N) (s : jstr) : option jstr :=
  match s with
  | u :: s' => if (u =? lead)%N
               then match take_tag s' with ([], _) => None | (_, r) => Some r end
               else Some s
  | [] => Some []
  end.

Definition parseSemver (value : jstr) : option (num * num * num) :=
  match take_digits (skip_v value) with
  | ([], _) => None
  | (major, r1) =>
      let (minor, r2) := dot_digits r1 in
      let (patch, r3) := dot_digits r2 in
      match skip_tag 45 r3 with
      | Some r4 =>
          match skip_tag 43 r4 with
          | Some [] => Some (to_number major, to_number (default (js "0") minor),
                             to_number (default (js "0") patch))
          | _ => None
          end
      | None => None
      end
  end.

(** [<] on the numbers [Number] makes of digits: non-negative, or infinite *)
Definition num_ltb (a b : num) : bool :=
  match a, b with
  | NInt x, NInt y => x <? y
  | NInt _, NInf false => true
  | _, _ => false
  end.
Definition num_eqb (a b : num) : bool := negb (num_ltb a b) && negb (num_ltb b a).

Definition compareSemver (l r : num * num * num) : comparison :=
  let '(l1, l2, l3) := l in
  let '(r1, r2, r3) := r in
  if num_ltb l1 r1 then Lt else if num_ltb r1 l1 then Gt else
  if num_ltb l2 r2 then Lt else if num_ltb r2 l2 then Gt else
  if num_ltb l3 r3 then Lt else if num_ltb r3 l3 then Gt else Eq.

(** An optional group: a dot, then digits or one of [x], [X] and the star *)
Definition is_wild (u : N) : bool := one_of "xX*" u.
Definition dot_part (s : jstr) : option jstr * jstr :=
  match s with
  | u :: s' =>
      if (u =? 46)%N then
        match take_digits s' with
        | ([], w :: r) => if is_wild w then (Some [w], r) else (None, s)
        | ([], []) => (None, s)
        | (d, r) => (Some d, r)
        end
      else (None, s)
  | [] => (None, [])
  end.
(** The first regular expression of [versionTokenMatches]: an optional [v],
    digits and two such groups *)
Definition wildcard_token (token : jstr) : option (jstr * option jstr * option jstr) :=
  match take_digits (skip_v token) with
  | ([], _) => None
  | (major, r1) =>
      let (minor, r2) := dot_part r1 in
      let (patch, r3) := dot_part r2 in
      match r3 with [] => Some (major, minor, patch) | _ => None end
  end.

Inductive Operator := op_le | op_ge | op_lt | op_gt | op_eq.
(** The optional operator, which defaults to [=] *)
Definition take_operator (s : jstr) : Operator * jstr :=
  match s with
  | a :: r =>
      if (a =? 60)%N then match r with b :: r' => if (b =? 61)%N then (op_le, r') else (op_lt, r)
                          | [] => (op_lt, r) end
      else if (a =? 62)%N then match r with b :: r' => if (b =? 61)%N then (op_ge, r') else (op_gt, r)
                               | [] => (op_gt, r) end
      else if (a =? 61)%N then (op_eq, r)
      else (op_eq, s)
  | [] => (op_eq, [])
  end.
(** The second group of the comparator's regular expression *)
Definition comparator_body (s : jstr) : bool :=
  match take_digits (skip_v s) with
  | ([], _) => false
  | (_, r1) =>
      let (_, r2) := dot_digits r1 in
      let (_, r3) := dot_digits r2 in
      match skip_tag 45 r3 with Some [] => true | _ => false end
  end.
Definition operator_holds (op : Operator) (c : comparison) : bool :=
  match op, c with
  | op_eq, Eq | op_gt, Gt | op_ge, Gt | op_ge, Eq | op_lt, Lt | op_le, Lt | op_le, Eq => true
  | _, _ => false
  end.

Definition part_matches (part : option jstr) (actual : num) : bool :=
  match part with
  | Some d => existsb is_wild d || num_eqb actual (to_number d)
  | None => true
  end.

Definition comparator_matches (version token : jstr) : bool :=
  let (op, body) := take_operator token in
  if comparator_body body then
    match parseSemver body, parseSemver version with
    | Some expected, Some actual => operator_holds op (compareSemver actual expected)
    | _, _ => match op with op_eq => bool_decide (version = body) | _ => false end
    end
  else bool_decide (version = token).

Definition versionTokenMatches (version token : jstr) : bool :=
  if bool_decide (token = js "*") then true
  else
    match wildcard_token token with
    | Some (major, minor, patch) =>
        if existsb is_wild token then
          match parseSemver version with
          | None => false
          | Some (a1, a2, a3) =>
              num_eqb a1 (to_number major) && part_matches minor a2 && part_matches patch a3
          end
        else comparator_matches version token
    | None => comparator_matches version token
    end.

(** [trimmed.split(/\s+/).filter(Boolean)] *)
Fixpoint split_spaces (s : jstr) : list jstr :=
  match s with
  | [] => [[]]
  | u :: s' => match split_spaces s' with
               | w :: ws => if is_space u then [] :: w :: ws else (u :: w) :: ws
               | [] => []
               end
  end.
Definition tokens (s : jstr) : list jstr := filter (fun w => truthy w = true) (split_spaces s).

Definition versionMatches (version constraint : jstr) : bool :=
  let trimmed := trim constraint in
  if negb (truthy trimmed) || bool_decide (trimmed = js "*") then true
  else forallb (versionTokenMatches version) (tokens trimmed).

(** ** What the policy decides *)

Definition REGISTRY := js "registry:".
Definition PLUGIN_HUB := js "plugin-hub:".

Definition extensionIdentities (e : McpGovernedExtension) : list jstr :=
  [ext_id e]
  ++ (if starts_with (source e) REGISTRY then [slice_from (length REGISTRY) (source e)]
      else if starts_with (source e) PLUGIN_HUB then
        match split_char 58 (source e) with
        | _ :: plugin :: _ => if truthy plugin then [js "plugin:" ++ plugin] else []
        | _ => []
        end
      else [])
  ++ [source e].

Definition non_empty (s : jstr) : option jstr := if truthy s then Some s else None.

Definition extensionPublisher (src : jstr) : option jstr :=
  if negb (starts_with src REGISTRY) then None
  else match split_char 47 (slice_from (length REGISTRY) src) with
       | namespace :: leaf :: _ =>
           if negb (truthy namespace) || negb (truthy leaf) then None
           else if starts_with namespace (js "org-") || starts_with namespace (js "private-")
           then non_empty (default [] (head (split_char 46 leaf)))
           else Some namespace
       | _ => None
       end.

Definition firstVersionRule {T} (identities : list jstr) (rules : list (jstr * T)) : option (jstr * T) :=
  List.find (fun r => matchesAny identities [r.1]) rules.
Definition allVersionRules {T} (identities : list jstr) (rules : list (jstr * T)) : list (jstr * T) :=
  filter (fun r => matchesAny identities [r.1] = true) rules.

Definition when (b : bool) (message : jstr) : list jstr := if b then [message] else [].

(** The first blocked constraint of the first rule that has one *)
Fixpoint first_blocked (v : jstr) (rules : list (jstr * list jstr)) : option (jstr * jstr) :=
  match rules with
  | [] => None
  | (pattern, constraints) :: rules' =>
      match List.find (versionMatches v) constraints with
      | Some c => if truthy c then Some (pattern, c) else first_blocked v rules'
      | None => first_blocked v rules'
      end
  end.

Definition evaluateMcpEnterpriseExtension (e : McpGovernedExtension)
    (policy : McpEnterpriseGovernancePolicy) : McpGovernanceDecision :=
  if negb (managed policy) then
    {| d_managed := false; allowed := true; approved := false; blockers := [] |}
  else
    let identities := extensionIdentities e in
    let publisher := extensionPublisher (source e) in
    let by_publisher patterns :=
      match publisher with Some p => matchesAny [p] patterns | None => false end in
    let approvedExtension := matchesAny identities (approvedExtensions policy) in
    let approvedPublisher := by_publisher (approvedPublishers policy) in
    let t := js (transport_name (transport e)) in
    let found :=
      when (matchesAny identities (revokedExtensions policy))
        (js "Organization policy emergency-revoked this MCP extension.")
      ++ when (matchesAny identities (extensions (deny policy)))
        (js "Organization policy denies this MCP extension.")
      ++ when (bool_decide (extensions (allow policy) <> []) && negb approvedExtension
               && negb (matchesAny identities (extensions (allow policy))))
        (js "This MCP extension is outside the organization allowlist.")
      ++ when (by_publisher (publishers (deny policy)))
        (js "Organization policy denies publisher " ++ default [] publisher ++ js ".")
      ++ when (bool_decide (publishers (allow policy) <> []) && negb approvedExtension
               && negb approvedPublisher && negb (by_publisher (publishers (allow policy))))
        (match publisher with
         | Some p => js "Publisher " ++ p ++ js " is outside the organization allowlist."
         | None => js "This MCP extension has no publisher identity accepted by organization policy."
         end)
      ++ when (bool_decide (transport e ∈ transports (deny policy)))
        (js "Organization policy denies " ++ t ++ js " MCP transport.")
      ++ when (bool_decide (transports (allow policy) <> [])
               && negb (bool_decide (transport e ∈ transports (allow policy))))
        (t ++ js " MCP transport is outside the organization allowlist.")
      ++ match firstVersionRule identities (versionPins policy) with
         | Some (pattern, pin) =>
             when (negb (bool_decide (version e = pin)))
               (js "Organization policy pins " ++ pattern ++ js " to version " ++ pin
                ++ js "; requested version is " ++ version e ++ js ".")
         | None => []
         end
      ++ match firstVersionRule identities (allowedVersions policy) with
         | Some (pattern, constraints) =>
             when (negb (existsb (versionMatches (version e)) constraints))
               (js "Version " ++ version e
                ++ js " is outside the organization-approved version range for " ++ pattern ++ js ".")
         | None => []
         end
      ++ match first_blocked (version e) (allVersionRules identities (blockedVersions policy)) with
         | Some (pattern, c) =>
             [js "Version " ++ version e ++ js " is blocked by organization policy for " ++ pattern
              ++ js " (" ++ c ++ js ")."]
         | None => []
         end in
    {| d_managed := true; allowed := bool_decide (found = []);
       approved := approvedExtension || approvedPublisher; blockers := found |}.

Definition assertMcpEnterpriseExtensionAllowed (e : McpGovernedExtension) (operation : jstr)
    (policy : McpEnterpriseGovernancePolicy) : result McpGovernanceDecision :=
  let decision := evaluateMcpEnterpriseExtension e policy in
  if negb (allowed decision)
  then Throw (Error (js "Enterprise MCP governance blocked " ++ operation ++ js ": "
                     ++ join (js " ") (blockers decision)))
  else Ok decision.

Definition rank (a : McpToolApproval) : Z := match a with automatic => 0 | ask => 1 | blocked => 2 end.
Definition stricterApproval (requested : McpToolApproval) (central : option McpToolApproval)
  : McpToolApproval :=
  match central with
  | None => requested
  | Some c => if rank requested <? rank c then c else requested
  end.

(** The loop keeps the last template that matches. *)
Definition central_template (extensionId toolName : jstr) (l : list McpEnterpriseToolTemplate)
  : option McpEnterpriseToolTemplate :=
  last (filter (fun t => wildcardMatch extensionId (tpl_extension t)
                         && wildcardMatch toolName (tpl_tool t) = true) l).

Definition effectiveMcpEnterpriseToolPolicy (extensionId toolName : jstr)
    (requested : bool * McpToolApproval) (policy : McpEnterpriseGovernancePolicy)
  : bool * McpToolApproval :=
  if negb (managed policy) then requested
  else if existsb (fun r => wildcardMatch extensionId (rev_extension r)
                            && wildcardMatch toolName (rev_tool r)) (revokedTools policy)
  then (false, blocked)
  else match central_template extensionId toolName (toolPolicies policy) with
       | None => requested
       | Some t => (requested.1 && negb (bool_decide (tpl_enabled t = Some false)),
                    stricterApproval requested.2 (tpl_approval t))
       end.

Definition enterpriseCatalogs (policy : McpEnterpriseGovernancePolicy) : list McpEnterpriseCatalog :=
  catalogs policy.

(** ** The policy file *)

Definition text (v : value) (max : Z) : option jstr :=
  match v with
  | VString s =>
      if (slen s <? 1) || (max <? slen s) || negb (bool_decide (trim s = s)) then None
      else if has_control s then None else Some s
  | _ => None
  end.

Definition unsupported (allowed : list string) (r : list (jstr * value)) : bool :=
  negb (keys_allowed (map js allowed) r).

(** The character class of [parsePatterns] *)
Definition pattern_char (u : N) : bool := is_alnum u || one_of "._:/?*+-" u.
Fixpoint parse_pattern_list (label : jstr) (acc : list jstr) (l : list value) : result (list jstr) :=
  match l with
  | [] => Ok acc
  | v :: l' =>
      match text v MAX_PATTERN_LENGTH with
      | Some p =>
          if forallb pattern_char p
          then parse_pattern_list label (if bool_decide (p ∈ acc) then acc else acc ++ [p]) l'
          else Throw (Error (js "Enterprise MCP " ++ label ++ js " contains an invalid pattern"))
      | None => Throw (Error (js "Enterprise MCP " ++ label ++ js " contains an invalid pattern"))
      end
  end.
Definition parsePatterns (v : value) (label : string) : result (list jstr) :=
  match v with
  | VUndefined => Ok []
  | VArray l => if MAX_RULES <? Z.of_nat (length l)
                then fail ("Enterprise MCP " +:+ label +:+ " rule list is invalid")
                else parse_pattern_list (js label) [] l
  | _ => fail ("Enterprise MCP " +:+ label +:+ " rule list is invalid")
  end.

(** The character class of [versionConstraint], which allows white space *)
Definition constraint_char (u : N) : bool := is_alnum u || one_of ".*<>=+-" u || is_space u.
Definition versionConstraint (v : value) (label : string) : result jstr :=
  match text v 120 with
  | Some c => if forallb constraint_char c then Ok c
              else fail ("Enterprise MCP " +:+ label +:+ " contains an invalid version constraint")
  | None => fail ("Enterprise MCP " +:+ label +:+ " contains an invalid version constraint")
  end.

(** [result[pattern] = rule] on a plain object: an assignment to [__proto__]
    creates no rule. *)
Definition set_rule {T} (pattern : jstr) (rule : T) (rest : list (jstr * T)) : list (jstr * T) :=
  if bool_decide (pattern = js "__proto__") then rest else (pattern, rule) :: rest.

Fixpoint parse_version_entries {T} (rule : jstr -> value -> result T) (label : string)
    (fs : list (jstr * value)) : result (list (jstr * T)) :=
  match fs with
  | [] => Ok []
  | (pattern, raw) :: fs' =>
      _ ← parsePatterns (VArray [VString pattern]) label;
      x ← rule pattern raw;
      rest ← parse_version_entries rule label fs';
      Ok (set_rule pattern x rest)
  end.
Definition parse_version_map {T} (rule : jstr -> value -> result T) (v : value) (label : string)
  : result (list (jstr * T)) :=
  match v with
  | VUndefined => Ok []
  | VObject fs => if MAX_RULES <? Z.of_nat (length fs)
                  then fail ("Enterprise MCP " +:+ label +:+ " map is invalid")
                  else parse_version_entries rule label fs
  | _ => fail ("Enterprise MCP " +:+ label +:+ " map is invalid")
  end.
(** [parseVersionMap] with [arrays] false and true *)
Definition parseVersionPins (v : value) (label : string) : result (list (jstr * jstr)) :=
  parse_version_map (fun _ raw => versionConstraint raw label) v label.
Definition parseVersionLists (v : value) (label : string) : result (list (jstr * list jstr)) :=
  parse_version_map (fun pattern raw =>
    let bad := Throw (Error (js ("Enterprise MCP " +:+ label +:+ ".") ++ pattern
                             ++ js " must be a non-empty constraint list")) in
    match raw with
    | VArray l => if (Z.of_nat (length l) <? 1) || (32 <? Z.of_nat (length l)) then bad
                  else map_result (fun c => versionConstraint c label) l
    | _ => bad
    end) v label.

Definition parse_transport (v : value) : option Transport :=
  if is_string v (js "stdio") then Some stdio
  else if is_string v (js "streamable-http") then Some streamable_http else None.
Definition parse_transports (v : value) : result (list Transport) :=
  let bad := fail "Enterprise MCP transport allow/deny rule is invalid" in
  match v with
  | VUndefined => Ok []
  | VArray l => if 2 <? Z.of_nat (length l) then bad
                else match mapM parse_transport l with
                     | Some ts => Ok (remove_dups ts)
                     | None => bad
                     end
  | _ => bad
  end.

Definition parseRuleSet (v : value) : result McpEnterpriseRuleSet :=
  match v with
  | VUndefined => Ok empty_rules
  | VObject r =>
      if unsupported ["extensions"; "publishers"; "transports"] r
      then fail "Enterprise MCP allow/deny rule set contains unsupported fields"
      else
        ts ← parse_transports (field r (js "transports"));
        es ← parsePatterns (field r (js "extensions")) "extensions";
        ps ← parsePatterns (field r (js "publishers")) "publishers";
        Ok {| extensions := es; publishers := ps; transports := ts |}
  | _ => fail "Enterprise MCP allow/deny rule set is invalid"
  end.

Definition isApproval (v : value) : option McpToolApproval :=
  if is_string v (js "automatic") then Some automatic
  else if is_string v (js "ask") then Some ask
  else if is_string v (js "blocked") then Some blocked else None.

(** [parsePatterns([v], label)[0]], which the callers require *)
Definition one_pattern (v : value) (label message : string) : result jstr :=
  l ← parsePatterns (VArray [v]) label;
  match l with p :: _ => Ok p | [] => fail message end.

Definition parse_tool_policy (v : value) : result McpEnterpriseToolTemplate :=
  match is_record v with
  | None => fail "Enterprise MCP tool policy is invalid"
  | Some r =>
      if unsupported ["extension"; "tool"; "enabled"; "approval"] r
      then fail "Enterprise MCP tool policy contains unsupported fields"
      else
        e ← one_pattern (field r (js "extension")) "toolPolicies.extension"
              "Enterprise MCP tool policy target is invalid";
        t ← one_pattern (field r (js "tool")) "toolPolicies.tool"
              "Enterprise MCP tool policy target is invalid";
        enabled ← match field r (js "enabled") with
                  | VUndefined => Ok None
                  | VBool b => Ok (Some b)
                  | _ => fail "Enterprise MCP tool policy enabled value is invalid" end;
        approval ← match field r (js "approval") with
                   | VUndefined => Ok None
                   | a => match isApproval a with
                          | Some x => Ok (Some x)
                          | None => fail "Enterprise MCP tool policy approval value is invalid" end
                   end;
        Ok {| tpl_extension := e; tpl_tool := t; tpl_enabled := enabled; tpl_approval := approval |}
  end.
Definition parseToolPolicies (v : value) : result (list McpEnterpriseToolTemplate) :=
  match v with
  | VUndefined => Ok []
  | VArray l => if MAX_RULES <? Z.of_nat (length l)
                then fail "Enterprise MCP toolPolicies list is invalid"
                else map_result parse_tool_policy l
  | _ => fail "Enterprise MCP toolPolicies list is invalid"
  end.

Definition parse_revoked_tool (v : value) : result McpEnterpriseToolRevoke :=
  match is_record v with
  | Some r =>
      if unsupported ["extension"; "tool"] r then fail "Enterprise MCP revoked tool rule is invalid"
      else
        e ← one_pattern (field r (js "extension")) "revokedTools.extension"
              "Enterprise MCP revoked tool target is invalid";
        t ← one_pattern (field r (js "tool")) "revokedTools.tool"
              "Enterprise MCP revoked tool target is invalid";
        Ok {| rev_extension := e; rev_tool := t |}
  | None => fail "Enterprise MCP revoked tool rule is invalid"
  end.
Definition parseRevokedTools (v : value) : result (list McpEnterpriseToolRevoke) :=
  match v with
  | VUndefined => Ok []
  | VArray l => if MAX_RULES <? Z.of_nat (length l)
                then fail "Enterprise MCP revokedTools list is invalid"
                else map_result parse_revoked_tool l
  | _ => fail "Enterprise MCP revokedTools list is invalid"
  end.

(** What [new URL(...)] yields *)
Record Url := { protocol : jstr; username : jstr; password : jstr; hash : jstr; href : jstr }.

Section Policy.
Context (parse_url : jstr -> option Url).

Definition httpsUrl (v : value) : option jstr :=
  candidate ← text v 2048;
  url ← parse_url candidate;
  if negb (bool_decide (protocol url = js "https:")) || truthy (username url)
     || truthy (password url) || truthy (hash url)
  then None else Some (href url).

Definition catalog_id_ok (s : jstr) : bool :=
  match s with
  | u :: s' => (is_lower u || is_digit u)
               && forallb (fun c => is_lower c || is_digit c || one_of "_-" c) s'
               && (slen s' <=? 47)
  | [] => false
  end.

Definition parse_catalog (seen : list jstr) (v : value) : result McpEnterpriseCatalog :=
  match is_record v with
  | None => fail "Enterprise MCP catalog entry is invalid"
  | Some r =>
      if unsupported ["id"; "name"; "kind"; "url"] r
      then fail "Enterprise MCP catalog entry contains unsupported fields"
      else
        match text (field r (js "id")) 48 with
        | Some id =>
            if negb (catalog_id_ok id) || bool_decide (id ∈ seen)
            then fail "Enterprise MCP catalog id is invalid or duplicated"
            else
              let bad what := Error (js "Enterprise MCP catalog " ++ id ++ js what) in
              match text (field r (js "name")) 120 with
              | None => Throw (bad " name is invalid")
              | Some name =>
                  kind ← (if is_string (field r (js "kind")) (js "organization") then Ok organization
                          else if is_string (field r (js "kind")) (js "private") then Ok private
                          else Throw (bad " kind is invalid"));
                  match httpsUrl (field r (js "url")) with
                  | None => Throw (bad " URL must be fixed HTTPS")
                  | Some url => if truthy url
                      then Ok {| cat_id := id; cat_name := name; cat_kind := kind; cat_url := url |}
                      else Throw (bad " URL must be fixed HTTPS")
                  end
              end
        | None => fail "Enterprise MCP catalog id is invalid or duplicated"
        end
  end.
Fixpoint parse_catalog_list (seen : list jstr) (l : list value) : result (list McpEnterpriseCatalog) :=
  match l with
  | [] => Ok []
  | v :: l' => c ← parse_catalog seen v; cs ← parse_catalog_list (cat_id c :: seen) l'; Ok (c :: cs)
  end.
Definition parseCatalogs (v : value) : result (list McpEnterpriseCatalog) :=
  match v with
  | VUndefined => Ok []
  | VArray l => if MAX_CATALOGS <? Z.of_nat (length l)
                then fail "Enterprise MCP governance may define at most 8 catalogs"
                else parse_catalog_list [] l
  | _ => fail "Enterprise MCP governance may define at most 8 catalogs"
  end.

Definition top_level : list string :=
  ["schemaVersion"; "catalogs"; "allow"; "deny"; "approvedExtensions"; "approvedPublishers";
   "versionPins"; "allowedVersions"; "blockedVersions"; "toolPolicies"; "revokedExtensions";
   "revokedTools"].

Definition parseMcpEnterpriseGovernance (v : value) : result McpEnterpriseGovernancePolicy :=
  match is_record v with
  | None => fail "Enterprise MCP governance policy must use schemaVersion 1"
  | Some r =>
      let get key := field r (js key) in
      if negb (is_int (get "schemaVersion") 1)
      then fail "Enterprise MCP governance policy must use schemaVersion 1"
      else if unsupported top_level r
      then fail "Enterprise MCP governance policy contains unsupported fields"
      else
        cats ← parseCatalogs (get "catalogs");
        al ← parseRuleSet (get "allow");
        de ← parseRuleSet (get "deny");
        ae ← parsePatterns (get "approvedExtensions") "approvedExtensions";
        ap ← parsePatterns (get "approvedPublishers") "approvedPublishers";
        pins ← parseVersionPins (get "versionPins") "versionPins";
        av ← parseVersionLists (get "allowedVersions") "allowedVersions";
        bv ← parseVersionLists (get "blockedVersions") "blockedVersions";
        tp ← parseToolPolicies (get "toolPolicies");
        re ← parsePatterns (get "revokedExtensions") "revokedExtensions";
        rt ← parseRevokedTools (get "revokedTools");
        Ok {| managed := true; catalogs := cats; allow := al; deny := de; approvedExtensions := ae;
              approvedPublishers := ap; versionPins := pins; allowedVersions := av;
              blockedVersions := bv; toolPolicies := tp; revokedExtensions := re; revokedTools := rt |}
  end.

(** [loadMcpEnterpriseGovernance], with the two environment variables and what
    [readFileSync] and [JSON.parse] do as arguments. *)
Definition loadMcpEnterpriseGovernance (JSON_parse : jstr -> option value)
    (readFileSync : jstr -> result jstr) (policy_env policy_file_env : option jstr)
  : result McpEnterpriseGovernancePolicy :=
  let inline := trim <$> policy_env in
  let file := trim <$> policy_file_env in
  if truthy_opt inline && truthy_opt file
  then fail "SOURCENERVE_MCP_ENTERPRISE_POLICY and SOURCENERVE_MCP_ENTERPRISE_POLICY_FILE cannot both be configured; enterprise MCP governance fails closed on ambiguous policy sources"
  else if negb (truthy_opt inline) && negb (truthy_opt file) then Ok EMPTY_POLICY
  else
    raw ← (if truthy_opt inline then Ok (default [] inline)
           else if isAbsolute (default [] file) then readFileSync (default [] file)
           else fail "SOURCENERVE_MCP_ENTERPRISE_POLICY_FILE must be an absolute path");
    _ ← require (utf8_len raw <=? MAX_POLICY_BYTES)
          "Enterprise MCP governance policy exceeds the SourceNerve size limit";
    match JSON_parse raw with
    | None => fail "Enterprise MCP governance policy is not valid JSON"
    | Some parsed => parseMcpEnterpriseGovernance parsed
    end.
End Policy.

(** ** Wildcards, declaratively *)

Inductive matches : jstr -> jstr -> Prop :=
| m_nil : matches [] []
| m_star p v w : Forall (fun u => dot u = true) v -> matches p w -> matches (STAR :: p) (v ++ w)
| m_question p u v : dot u = true -> matches p v -> matches (QUESTION :: p) (u :: v)
| m_char c p u v : c <> STAR -> c <> QUESTION -> lower u = lower c -> matches p v ->
    matches (c :: p) (u :: v).

Lemma wildcard_match_sound p v : wildcard_match p v = true -> matches p v.
Proof.
  revert v. induction p as [|c p IH]; intros v; simpl; [destruct v; [constructor|done]|].
  destruct (c =? STAR)%N eqn:E1; [apply N.eqb_eq in E1 as ->|
    destruct (c =? QUESTION)%N eqn:E2; [apply N.eqb_eq in E2 as ->|]].
  - induction v as [|u v IHv]; simpl; rewrite orb_true_iff.
    + intros [H|H]; [|done]. by apply (m_star p []), IH.
    + intros [H|[Hd H]%andb_prop]; [by apply (m_star p []), IH|].
      apply IHv in H. inversion H as [|p' v' w Hv Hw| |c' p' u' v' Hc]; subst; [|done].
      apply (m_star p (u :: v')); [by constructor|done].
  - destruct v; [done|]. intros [? ?]%andb_prop. constructor; auto.
  - destruct v; [done|]. intros [? ?]%andb_prop. apply N.eqb_neq in E1, E2.
    constructor; [done|done|by apply N.eqb_eq|auto].
Qed.

Lemma wildcard_match_complete p v : matches p v -> wildcard_match p v = true.
Proof.
  induction 1 as [|p v w Hv Hw IH|p u v Hu Hm IH|c p u v H1 H2 Hc Hm IH]; simpl; [done|..].
  - induction Hv as [|u v Hu Hv IHv]; simpl.
    + destruct w; by rewrite IH.
    + rewrite Hu, IHv. simpl. apply orb_true_r.
  - by rewrite Hu, IH.
  - rewrite (proj2 (N.eqb_neq _ _) H1), (proj2 (N.eqb_neq _ _) H2), Hc, N.eqb_refl. done.
Qed.

Lemma wildcardMatch_matches v p : wildcardMatch v p = true <-> matches p v.
Proof. split; [apply wildcard_match_sound|apply wildcard_match_complete]. Qed.

(** Some pattern matches some name. *)
Definition named (names patterns : list jstr) : Prop :=
  exists p n, p ∈ patterns /\ n ∈ names /\ matches p n.

Lemma existsb_elem {A} (f : A -> bool) l : existsb f l = true <-> exists x, x ∈ l /\ f x = true.
Proof. rewrite existsb_exists. by setoid_rewrite list_elem_of_In. Qed.

Lemma matchesAny_named names patterns : matchesAny names patterns = true <-> named names patterns.
Proof.
  unfold matchesAny, named. rewrite existsb_elem. split.
  - intros (p & Hp & H). apply existsb_elem in H as (n & Hn & H).
    exists p, n. by rewrite <- wildcardMatch_matches.
  - intros (p & n & Hp & Hn & H). exists p. split; [done|]. apply existsb_elem.
    exists n. by rewrite wildcardMatch_matches.
Qed.
Lemma matchesAny_false names patterns : matchesAny names patterns = false <-> ~ named names patterns.
Proof. rewrite <- matchesAny_named. by destruct (matchesAny _ _). Qed.

(** ** The decision, declaratively *)

Definition published (src : jstr) (patterns : list jstr) : Prop :=
  exists p, extensionPublisher src = Some p /\ named [p] patterns.

Record permitted (e : McpGovernedExtension) (policy : McpEnterpriseGovernancePolicy) : Prop := {
  not_revoked : ~ named (extensionIdentities e) (revokedExtensions policy);
  not_denied : ~ named (extensionIdentities e) (extensions (deny policy));
  in_allowlist : extensions (allow policy) = [] \/
    named (extensionIdentities e) (approvedExtensions policy) \/
    named (extensionIdentities e) (extensions (allow policy));
  publisher_not_denied : ~ published (source e) (publishers (deny policy));
  publisher_in_allowlist : publishers (allow policy) = [] \/
    named (extensionIdentities e) (approvedExtensions policy) \/
    published (source e) (approvedPublishers policy) \/
    published (source e) (publishers (allow policy));
  transport_not_denied : transport e ∉ transports (deny policy);
  transport_in_allowlist : transports (allow policy) = [] \/ transport e ∈ transports (allow policy);
  pinned p v : firstVersionRule (extensionIdentities e) (versionPins policy) = Some (p, v) -> version e = v;
  version_allowed p cs : firstVersionRule (extensionIdentities e) (allowedVersions policy) = Some (p, cs) ->
    exists c, c ∈ cs /\ versionMatches (version e) c = true;
  version_not_blocked p cs c : (p, cs) ∈ blockedVersions policy -> named (extensionIdentities e) [p] ->
    c ∈ cs -> versionMatches (version e) c = false }.

(** The rules the parser produces have no empty constraint. *)
Definition constraints_nonempty (rules : list (jstr * list jstr)) : Prop :=
  Forall (fun r => Forall (fun c => c <> []) r.2) rules.

Lemma first_blocked_None v rules : constraints_nonempty rules ->
  first_blocked v rules = None <-> forall p cs c, (p, cs) ∈ rules -> c ∈ cs -> versionMatches v c = false.
Proof.
  induction 1 as [|[p cs] rules Hcs Hrules IH]; simpl.
  { split; [|done]. intros _ p cs c H. by apply not_elem_of_nil in H. }
  simpl in Hcs. destruct (List.find (versionMatches v) cs) as [c|] eqn:Ef.
  - apply find_some in Ef as [Hin Hm]. apply list_elem_of_In in Hin.
    rewrite Forall_forall in Hcs. pose proof (Hcs c Hin) as Hne.
    rewrite (proj2 (truthy_true c) Hne). split; [done|]. intros H.
    rewrite (H p cs c) in Hm; [done|by left|done].
  - rewrite IH. pose proof (find_none _ _ Ef) as Hnone. split.
    + intros H p' cs' c [[= -> ->]|Hr]%elem_of_cons Hc; [|by eapply H].
      by apply Hnone, list_elem_of_In.
    + intros H p' cs' c Hr. by apply (H p'); right.
Qed.

Lemma app_nil_iff {A} (a b : list A) : a ++ b = [] <-> a = [] /\ b = [].
Proof. destruct a; naive_solver. Qed.
Lemma when_nil b m : when b m = [] <-> b = false.
Proof. by destruct b. Qed.

Lemma published_bool src patterns :
  match extensionPublisher src with Some p => matchesAny [p] patterns | None => false end = true
  <-> published src patterns.
Proof.
  unfold published. destruct (extensionPublisher src) as [p|].
  - rewrite matchesAny_named. naive_solver.
  - naive_solver.
Qed.

(** A guard of the shape [list.length > 0 && !b1 && ... ], as the rule it enforces *)
Lemma allowlist_guard {A} (l : list A) (d : Decision (l <> [])) (b : bool) :
  @bool_decide (l <> []) d && negb b = false <-> l = [] \/ b = true.
Proof.
  rewrite andb_false_iff, negb_false_iff, bool_decide_eq_false. destruct l; naive_solver.
Qed.

Lemma version_rules e policy : constraints_nonempty (blockedVersions policy) ->
  first_blocked (version e) (allVersionRules (extensionIdentities e) (blockedVersions policy)) = None <->
  (forall p cs c, (p, cs) ∈ blockedVersions policy -> named (extensionIdentities e) [p] -> c ∈ cs ->
     versionMatches (version e) c = false).
Proof.
  intros Hne. rewrite first_blocked_None.
  - unfold allVersionRules. setoid_rewrite list_elem_of_filter. setoid_rewrite matchesAny_named.
    simpl. naive_solver.
  - unfold allVersionRules, constraints_nonempty in *. rewrite Forall_forall in *.
    intros x [_ Hx]%list_elem_of_filter. auto.
Qed.

Lemma decision_permitted e policy : managed policy = true ->
  constraints_nonempty (blockedVersions policy) ->
  allowed (evaluateMcpEnterpriseExtension e policy) = true <-> permitted e policy.
Proof.
  intros Hm Hne. unfold evaluateMcpEnterpriseExtension. rewrite Hm. cbn [negb allowed].
  rewrite bool_decide_eq_true, !app_nil_iff, !when_nil, !matchesAny_false.
  rewrite <- !andb_assoc, <- !negb_orb, !allowlist_guard, !orb_true_iff, !matchesAny_named.
  rewrite !published_bool, !bool_decide_eq_true, bool_decide_eq_false.
  rewrite <- (not_true_iff_false (match extensionPublisher _ with Some p => matchesAny [p] _ | None => _ end)),
    published_bool.
  pose proof (version_rules e policy Hne) as Hv.
  split.
  - intros (H1 & H2 & H3 & H4 & H5 & H6 & H7 & H8 & H9 & H10). split; try done.
    + intros p v E. rewrite E in H8. apply when_nil in H8. by apply negb_false_iff, bool_decide_eq_true in H8.
    + intros p cs E. rewrite E in H9. apply when_nil in H9. apply negb_false_iff in H9.
      by apply existsb_elem in H9.
    + apply Hv. by destruct (first_blocked _ _) as [[? ?]|].
  - intros [H1 H2 H3 H4 H5 H6 H7 H8 H9 H10]. split_and!; try done.
    + destruct (firstVersionRule _ (versionPins policy)) as [[p v]|]; [|done]. apply when_nil.
      rewrite (H8 p v) by done. by rewrite bool_decide_eq_true_2.
    + destruct (firstVersionRule _ (allowedVersions policy)) as [[p cs]|]; [|done]. apply when_nil.
      apply negb_false_iff, existsb_elem. by eapply H9.
    + by rewrite (proj2 Hv H10).
Qed.

(** ** Versions, declaratively *)

Definition digits (d : jstr) : Prop := d <> [] /\ Forall (fun u => is_digit u = true) d.
Definition dotted (a b c : jstr) : jstr := a ++ js "." ++ b ++ js "." ++ c.
Definition operator_text (op : Operator) : jstr :=
  js match op with op_le => "<=" | op_ge => ">=" | op_lt => "<" | op_gt => ">" | op_eq => "=" end.
Definition lex_compare (l r : Z * Z * Z) : comparison :=
  let '(l1, l2, l3) := l in
  let '(r1, r2, r3) := r in
  match l1 ?= r1 with Eq => match l2 ?= r2 with Eq => l3 ?= r3 | c => c end | c => c end.

Lemma take_digits_app d r : Forall (fun u => is_digit u = true) d ->
  match r with u :: _ => is_digit u = false | [] => True end -> take_digits (d ++ r) = (d, r).
Proof.
  intros Hd Hr. induction Hd as [|u d Hu Hd IH]; simpl.
  - destruct r as [|u r]; [done|]. simpl. by rewrite Hr.
  - by rewrite Hu, IH.
Qed.

Lemma dot_digits_app d r : digits d -> match r with u :: _ => is_digit u = false | [] => True end ->
  dot_digits (js "." ++ d ++ r) = (Some d, r).
Proof.
  intros [Hne Hd] Hr. simpl. rewrite take_digits_app by done. by destruct d.
Qed.

Lemma digits_no_v d r : digits d -> skip_v (d ++ r) = d ++ r.
Proof.
  intros [Hne Hd]. destruct Hd as [|u d Hu Hd]; [done|]. simpl.
  destruct (u =? 118)%N eqn:E; [|done]. apply N.eqb_eq in E as ->. by vm_compute in Hu.
Qed.

Lemma parseSemver_dotted a b c : digits a -> digits b -> digits c ->
  parseSemver (dotted a b c) = Some (to_number a, to_number b, to_number c).
Proof.
  intros Ha Hb Hc. unfold parseSemver, dotted. rewrite digits_no_v by done.
  rewrite take_digits_app by (apply Ha || done). destruct Ha as [Hne _]. destruct a as [|u a]; [done|].
  rewrite (dot_digits_app b (js "." ++ c)) by done.
  pose proof (dot_digits_app c [] Hc I) as Hd. rewrite app_nil_r in Hd. rewrite Hd. done.
Qed.

Lemma comparator_body_dotted a b c : digits a -> digits b -> digits c ->
  comparator_body (dotted a b c) = true.
Proof.
  intros Ha Hb Hc. unfold comparator_body, dotted. rewrite digits_no_v by done.
  rewrite take_digits_app by (apply Ha || done). destruct Ha as [Hne _]. destruct a as [|u a]; [done|].
  rewrite (dot_digits_app b (js "." ++ c)) by done.
  pose proof (dot_digits_app c [] Hc I) as Hd. rewrite app_nil_r in Hd. rewrite Hd. done.
Qed.

Lemma take_operator_text op body : match body with u :: _ => is_digit u = true | [] => False end ->
  take_operator (operator_text op ++ body) = (op, body).
Proof.
  destruct body as [|u body]; [done|]. intros Hu. destruct op; try done; simpl.
  all: destruct (u =? 61)%N eqn:E; [|done]; apply N.eqb_eq in E as ->; by vm_compute in Hu.
Qed.

Lemma digits_value_nonneg d : Forall (fun u => is_digit u = true) d -> 0 <= digits_value d.
Proof.
  unfold digits_value. intros Hd.
  enough (H : forall z, 0 <= z -> 0 <= fold_left (fun acc u => 10 * acc + (Z.of_N u - 48)) d z) by by apply H.
  induction Hd as [|u d Hu Hd IH]; intros z Hz; simpl; [done|]. apply IH.
  unfold is_digit in Hu. apply andb_prop in Hu as [H1%N.leb_le _]. lia.
Qed.

Lemma to_number_exact d : digits d -> digits_value d <= 2 ^ 53 -> to_number d = NInt (digits_value d).
Proof.
  intros [_ Hd] Hle. unfold to_number, round_to_double. pose proof (digits_value_nonneg d Hd).
  rewrite Z.abs_eq by done. by rewrite (proj2 (Z.leb_le _ _) Hle).
Qed.

Lemma compareSemver_lex a1 a2 a3 b1 b2 b3 :
  compareSemver (NInt a1, NInt a2, NInt a3) (NInt b1, NInt b2, NInt b3)
  = lex_compare (a1, a2, a3) (b1, b2, b3).
Proof.
  simpl. repeat match goal with |- context [?x <? ?y] => destruct (Z.ltb_spec x y) end;
    repeat match goal with |- context [?x ?= ?y] => destruct (Z.compare_spec x y) end; (done || lia).
Qed.

(** A token with an operator has no wildcard form and is not a lone star. *)
Lemma operator_token op body : exists u r, operator_text op ++ body = u :: r /\
  is_digit u = false /\ (u =? 118)%N = false /\ (u =? 42)%N = false.
Proof. destruct op; by eexists _, _. Qed.

(** ** What the parser guarantees *)

Definition pattern_ok (p : jstr) : Prop := 1 <= slen p <= MAX_PATTERN_LENGTH /\ forallb pattern_char p = true.
Definition patterns_ok (l : list jstr) : Prop :=
  Z.of_nat (length l) <= MAX_RULES /\ NoDup l /\ Forall pattern_ok l.
Definition constraint_ok (c : jstr) : Prop := 1 <= slen c <= 120 /\ forallb constraint_char c = true.
Definition version_lists_ok (m : list (jstr * list jstr)) : Prop :=
  Z.of_nat (length m) <= MAX_RULES /\
  Forall (fun r => pattern_ok r.1 /\ 1 <= Z.of_nat (length r.2) <= 32 /\ Forall constraint_ok r.2) m.
Definition version_pins_ok (m : list (jstr * jstr)) : Prop :=
  Z.of_nat (length m) <= MAX_RULES /\ Forall (fun r => pattern_ok r.1 /\ constraint_ok r.2) m.
Definition rules_ok (r : McpEnterpriseRuleSet) : Prop :=
  patterns_ok (extensions r) /\ patterns_ok (publishers r) /\ NoDup (transports r).

Record policy_ok (p : McpEnterpriseGovernancePolicy) : Prop := {
  ok_catalogs : Z.of_nat (length (catalogs p)) <= MAX_CATALOGS /\ NoDup (map cat_id (catalogs p));
  ok_allow : rules_ok (allow p);
  ok_deny : rules_ok (deny p);
  ok_approved : patterns_ok (approvedExtensions p) /\ patterns_ok (approvedPublishers p);
  ok_pins : version_pins_ok (versionPins p);
  ok_allowed : version_lists_ok (allowedVersions p);
  ok_blocked : version_lists_ok (blockedVersions p);
  ok_tools : Z.of_nat (length (toolPolicies p)) <= MAX_RULES /\
    Forall (fun t => pattern_ok (tpl_extension t) /\ pattern_ok (tpl_tool t)) (toolPolicies p);
  ok_revoked : patterns_ok (revokedExtensions p) /\
    Z.of_nat (length (revokedTools p)) <= MAX_RULES /\
    Forall (fun t => pattern_ok (rev_extension t) /\ pattern_ok (rev_tool t)) (revokedTools p) }.

Lemma text_Some v max s : text v max = Some s -> v = VString s /\ 1 <= slen s <= max.
Proof.
  unfold text. destruct v as [| | | |t| |]; try done. destruct (_ || _) eqn:E; [done|].
  destruct (has_control t); [done|]. intros [= ->]. to_prop. split; [done|lia].
Qed.

Lemma parse_pattern_list_ok label acc l r : parse_pattern_list label acc l = Ok r ->
  NoDup acc -> Forall pattern_ok acc ->
  NoDup r /\ Forall pattern_ok r /\ (length r <= length acc + length l)%nat.
Proof.
  revert acc. induction l as [|v l IH]; intros acc; simpl; [intros [= ->] ? ?; split_and!; [done|done|lia]|].
  destruct (text v MAX_PATTERN_LENGTH) as [p|] eqn:Et; [|done].
  destruct (forallb pattern_char p) eqn:Ec; [|done]. intros H Hnd Hok. apply text_Some in Et as [_ Hlen].
  case_bool_decide as Hin.
  - apply IH in H as (? & ? & ?); [|done..]. split_and!; [done|done|lia].
  - apply IH in H as (? & ? & Hl).
    + split_and!; [done..|]. rewrite length_app in Hl. simpl in Hl. lia.
    + apply NoDup_app. split_and!; [done| |apply NoDup_singleton].
      by intros x Hx ->%list_elem_of_singleton.
    + apply Forall_app_2; [done|]. by forall_list.
Qed.

Lemma parsePatterns_ok v label l : parsePatterns v label = Ok l -> patterns_ok l.
Proof.
  unfold parsePatterns, patterns_ok. destruct v; try done.
  - intros [= <-]. split_and!; [by unfold MAX_RULES|constructor|constructor].
  - destruct (_ <? _) eqn:E; [done|]. apply Z.ltb_ge in E. intros H.
    apply parse_pattern_list_ok in H as (? & ? & Hl); [|constructor..]. simpl in Hl.
    split_and!; [lia|done|done].
Qed.

Lemma versionConstraint_ok v label c : versionConstraint v label = Ok c -> constraint_ok c.
Proof.
  unfold versionConstraint. destruct (text v 120) as [t|] eqn:Et; [|done].
  destruct (forallb constraint_char t) eqn:E; [|done]. intros [= <-]. by apply text_Some in Et as [_ ?].
Qed.

Lemma one_key_ok pattern label u : parsePatterns (VArray [VString pattern]) label = Ok u -> pattern_ok pattern.
Proof.
  unfold parsePatterns, parse_pattern_list. cbn [length].
  change (MAX_RULES <? Z.of_nat 1) with false. cbv iota.
  destruct (text (VString pattern) MAX_PATTERN_LENGTH) as [p|] eqn:Et; [|done].
  destruct (forallb pattern_char p) eqn:E; [|done]. intros _.
  apply text_Some in Et as [[= ->] ?]. done.
Qed.

Lemma parse_version_map_ok {T} (P : T -> Prop) rule v label m :
  (forall k x y, rule k x = Ok y -> P y) -> parse_version_map rule v label = Ok m ->
  Z.of_nat (length m) <= MAX_RULES /\ Forall (fun r => pattern_ok r.1 /\ P r.2) m.
Proof.
  intros Hrule. unfold parse_version_map. destruct v as [| | | | | |fs]; try done.
  { intros [= <-]. split; [by unfold MAX_RULES|constructor]. }
  destruct (_ <? _) eqn:E; [done|]. apply Z.ltb_ge in E. intros H.
  enough ((length m <= length fs)%nat /\ Forall (fun r => pattern_ok r.1 /\ P r.2) m) as [? ?]
    by (split; [lia|done]).
  clear E. revert m H. induction fs as [|[k raw] fs IH]; intros m; cbn [parse_version_entries];
    [intros [= <-]; by split|].
  intros H. apply bind_Ok in H as (u & Hk & H). apply bind_Ok in H as (x & Hx & H).
  apply bind_Ok in H as (rest & Hrest & H). injection H as <-.
  destruct (IH _ Hrest) as [Hl Hf]. unfold set_rule.
  destruct (bool_decide (k = js "__proto__")).
  - split; [simpl; lia|done].
  - split; [simpl; lia|]. constructor; [|done]. split; [by eapply one_key_ok|by eapply Hrule].
Qed.

Lemma parseVersionLists_ok v label m : parseVersionLists v label = Ok m -> version_lists_ok m.
Proof.
  apply (parse_version_map_ok (fun l => 1 <= Z.of_nat (length l) <= 32 /\ Forall constraint_ok l)).
  intros k x y. destruct x as [| | | | |l|]; try done. destruct (_ || _) eqn:E; [done|]. intros H. to_prop.
  split; [rewrite (map_result_length _ _ _ H); lia|].
  eapply map_result_Forall; [exact H|]. intros c c' Hc. eapply versionConstraint_ok, Hc.
Qed.

Lemma parseVersionPins_ok v label m : parseVersionPins v label = Ok m -> version_pins_ok m.
Proof. apply parse_version_map_ok. intros k x y Hc. eapply versionConstraint_ok, Hc. Qed.

Lemma parseRuleSet_ok v r : parseRuleSet v = Ok r -> rules_ok r.
Proof.
  unfold parseRuleSet, rules_ok. destruct v as [| | | | | |fs]; try done.
  { intros [= <-]. unfold patterns_ok, MAX_RULES. simpl. split_and!; done || constructor. }
  destruct (unsupported _ _); [done|]. intros H. inv_ok. simpl.
  split_and!; [by eapply parsePatterns_ok..|].
  revert H0. unfold parse_transports. destruct (field fs (js "transports")); try done.
  - intros [= <-]. constructor.
  - destruct (_ <? _); [done|]. destruct (mapM _ _); [|done]. intros [= <-]. apply NoDup_remove_dups.
Qed.

Lemma one_pattern_ok v label msg p : one_pattern v label msg = Ok p -> pattern_ok p.
Proof.
  unfold one_pattern. intros H. inv_ok. apply parsePatterns_ok in H0 as (_ & _ & Hl).
  destruct x as [|q l]; [done|]. inv_ok. by inversion Hl.
Qed.

Lemma parse_catalog_id parse_url seen v c : parse_catalog parse_url seen v = Ok c -> cat_id c ∉ seen.
Proof.
  unfold parse_catalog. destruct (is_record v) as [r|]; [|done]. destruct (unsupported _ _); [done|].
  destruct (text _ 48) as [id|]; [|done]. destruct (_ || _) eqn:E; [done|]. to_prop.
  destruct (text _ 120) as [name|]; [|done]. intros Hp. apply bind_Ok in Hp as (kind & _ & Hp).
  destruct (httpsUrl _ _) as [url|]; [|done]. destruct (truthy url); [|done]. by injection Hp as <-.
Qed.

Lemma parse_catalog_list_ok parse_url seen l cs : parse_catalog_list parse_url seen l = Ok cs ->
  length cs = length l /\ NoDup (map cat_id cs) /\ (forall c, c ∈ cs -> cat_id c ∉ seen).
Proof.
  revert seen cs. induction l as [|v l IH]; intros seen cs; cbn [parse_catalog_list].
  { intros [= <-]. split_and!; [done|constructor|]. by intros c ?%not_elem_of_nil. }
  intros H. apply bind_Ok in H as (c & Hc & H). apply bind_Ok in H as (cs' & Hcs & H). injection H as <-.
  apply parse_catalog_id in Hc. apply IH in Hcs as (Hl & Hnd & Hs). simpl. split_and!.
  - by rewrite Hl.
  - apply NoDup_cons. split; [|done]. intros (c' & He & Hin)%list_elem_of_fmap. apply (Hs c' Hin).
    rewrite <- He. by left.
  - intros c' [->|Hin]%elem_of_cons; [done|]. intros Hx. apply (Hs c' Hin). by right.
Qed.

Lemma parseCatalogs_ok parse_url v cs : parseCatalogs parse_url v = Ok cs ->
  Z.of_nat (length cs) <= MAX_CATALOGS /\ NoDup (map cat_id cs).
Proof.
  unfold parseCatalogs. destruct v; try done.
  - intros [= <-]. split; [by unfold MAX_CATALOGS|constructor].
  - destruct (_ <? _) eqn:E; [done|]. apply Z.ltb_ge in E.
    intros (-> & ? & _)%parse_catalog_list_ok. done.
Qed.

Lemma parse_rule_list {A} (P : A -> Prop) (f : value -> result A) msg v l :
  (forall x y, f x = Ok y -> P y) ->
  match v with
  | VUndefined => Ok []
  | VArray l => if MAX_RULES <? Z.of_nat (length l) then fail msg else map_result f l
  | _ => fail msg
  end = Ok l -> Z.of_nat (length l) <= MAX_RULES /\ Forall P l.
Proof.
  intros Hf. destruct v; try done.
  - intros [= <-]. split; [by unfold MAX_RULES|constructor].
  - destruct (_ <? _) eqn:E; [done|]. apply Z.ltb_ge in E. intros H.
    rewrite (map_result_length _ _ _ H). split; [done|]. eapply map_result_Forall; [exact H|exact Hf].
Qed.

Lemma parse_tool_policy_ok v t : parse_tool_policy v = Ok t ->
  pattern_ok (tpl_extension t) /\ pattern_ok (tpl_tool t).
Proof.
  unfold parse_tool_policy. destruct (is_record v) as [r|]; [|done]. destruct (unsupported _ _); [done|].
  intros H. apply bind_Ok in H as (e & He & H). apply bind_Ok in H as (tool & Ht & H).
  apply bind_Ok in H as (en & _ & H). apply bind_Ok in H as (ap & _ & H). injection H as <-.
  apply one_pattern_ok in He, Ht. done.
Qed.

Lemma parse_revoked_tool_ok v t : parse_revoked_tool v = Ok t ->
  pattern_ok (rev_extension t) /\ pattern_ok (rev_tool t).
Proof.
  unfold parse_revoked_tool. destruct (is_record v) as [r|]; [|done]. destruct (unsupported _ _); [done|].
  intros H. apply bind_Ok in H as (e & He & H). apply bind_Ok in H as (tool & Ht & H). injection H as <-.
  apply one_pattern_ok in He, Ht. done.
Qed.

Lemma parseMcpEnterpriseGovernance_ok parse_url v p : parseMcpEnterpriseGovernance parse_url v = Ok p ->
  managed p = true /\ policy_ok p.
Proof.
  unfold parseMcpEnterpriseGovernance. destruct (is_record v) as [r|]; [|done]. cbv zeta.
  destruct (negb _); [done|]. destruct (unsupported _ _); [done|]. intros H.
  repeat match type of H with (_ ≫= _) = Ok _ => apply bind_Ok in H as (? & ? & H) end.
  injection H as <-. split; [done|]. split; cbn.
  - by eapply parseCatalogs_ok.
  - by eapply parseRuleSet_ok.
  - by eapply parseRuleSet_ok.
  - split; by eapply parsePatterns_ok.
  - by eapply parseVersionPins_ok.
  - by eapply parseVersionLists_ok.
  - by eapply parseVersionLists_ok.
  - eapply (parse_rule_list _ _ _ _ _ parse_tool_policy_ok). eassumption.
  - split; [by eapply parsePatterns_ok|].
    eapply (parse_rule_list _ _ _ _ _ parse_revoked_tool_ok). eassumption.
Qed.

Lemma policy_ok_constraints p : policy_ok p -> constraints_nonempty (blockedVersions p).
Proof.
  intros [_ _ _ _ _ _ [_ H] _ _]. eapply Forall_impl; [exact H|]. intros r (_ & _ & Hc).
  eapply Forall_impl; [exact Hc|]. intros c [Hl _] ->. unfold slen in Hl. simpl in Hl. lia.
Qed.

(** ** Properties *)

(** The wildcard matcher is exact: it accepts a value exactly when the
    value splits into pieces for the pattern's characters - any text without a
    line break for a star, one such character for a question mark, the same
    letter in either case for anything else - and so a list of patterns
    matches exactly when one of them matches one of the names. *)
Theorem wildcard_exact names patterns value pattern :
  (wildcardMatch value pattern = true <-> matches pattern value) /\
  (matchesAny names patterns = true <-> named names patterns).
Proof. split; [apply wildcardMatch_matches|apply matchesAny_named]. Qed.

(** C36: the governance decision is exactly the conjunction of the policy's
    rules: an extension of a managed installation is allowed if and only if it
    is not revoked or denied, is inside every allowlist (approval counting as
    listed for extensions and publishers, never for transports, denials or
    revocations), meets its pin and its version ranges and no blocked range;
    an installation is stopped in every other case. *)
Theorem governance_decision_exact e operation policy
  (Hmanaged : managed policy = true) (Hok : policy_ok policy) :
  (allowed (evaluateMcpEnterpriseExtension e policy) = true <-> permitted e policy) /\
  (is_ok (assertMcpEnterpriseExtensionAllowed e operation policy) = true <-> permitted e policy).
Proof.
  pose proof (decision_permitted e policy Hmanaged (policy_ok_constraints policy Hok)) as H.
  split; [exact H|]. rewrite <- H. unfold assertMcpEnterpriseExtensionAllowed.
  cbv zeta. by destruct (allowed (evaluateMcpEnterpriseExtension e policy)).
Qed.

(** A policy fails closed: whatever the environment, the file and its
    JSON hold, either loading throws, or the policy is managed and within all
    its limits, or nothing is configured and the policy is the empty one. *)
Theorem governance_fails_closed parse_url JSON_parse readFileSync inline file p
  (Hload : loadMcpEnterpriseGovernance parse_url JSON_parse readFileSync inline file = Ok p) :
  (managed p = true /\ policy_ok p) \/
  (p = EMPTY_POLICY /\ truthy_opt (trim <$> inline) = false /\ truthy_opt (trim <$> file) = false).
Proof.
  revert Hload. unfold loadMcpEnterpriseGovernance. cbv zeta.
  assert (Hrest : forall read, (raw ← read;
      _ ← require (utf8_len raw <=? MAX_POLICY_BYTES)
            "Enterprise MCP governance policy exceeds the SourceNerve size limit";
      match JSON_parse raw with
      | None => fail "Enterprise MCP governance policy is not valid JSON"
      | Some parsed => parseMcpEnterpriseGovernance parse_url parsed
      end) = Ok p -> managed p = true /\ policy_ok p).
  { intros read H. apply bind_Ok in H as (raw & _ & H). apply bind_Ok in H as (u & _ & H).
    destruct (JSON_parse raw); [|done]. by apply parseMcpEnterpriseGovernance_ok in H. }
  destruct (truthy_opt (trim <$> inline)) eqn:Ei, (truthy_opt (trim <$> file)) eqn:Ef;
    cbn [andb negb]; [done|intros H; left; by apply Hrest in H..|intros [= <-]; by right].
Qed.

(** Central tool policies only tighten: the effective settings never
    enable a tool that was not asked to be enabled and never ask for a weaker
    approval; a tool a revocation names is disabled and blocked; otherwise the
    last template that names the tool binds it. *)
Theorem tool_policy_only_tightens extensionId toolName requested policy :
  let r := effectiveMcpEnterpriseToolPolicy extensionId toolName requested policy in
  (r.1 = true -> requested.1 = true) /\ rank requested.2 <= rank r.2 /\
  (managed policy = true ->
     (exists t, t ∈ revokedTools policy /\ matches (rev_extension t) extensionId /\
                matches (rev_tool t) toolName) -> r = (false, blocked)) /\
  (managed policy = true -> forall t, central_template extensionId toolName (toolPolicies policy) = Some t ->
     (tpl_enabled t = Some false -> r.1 = false) /\
     (forall a, tpl_approval t = Some a -> rank a <= rank r.2)).
Proof.
  cbv zeta. unfold effectiveMcpEnterpriseToolPolicy. destruct (managed policy); [|by split_and!].
  cbn [negb]. destruct (existsb _ (revokedTools policy)) eqn:Er.
  - cbn. split_and!; [done|by destruct requested as [? []]|done|].
    intros _ t _. split; [done|]. by intros [] _.
  - assert (Hno : forall t, t ∈ revokedTools policy -> matches (rev_extension t) extensionId ->
      matches (rev_tool t) toolName -> False).
    { intros t Ht H1 H2. rewrite <- not_true_iff_false in Er. apply Er, existsb_elem. exists t.
      split; [done|]. by rewrite (proj2 (wildcardMatch_matches _ _) H1), (proj2 (wildcardMatch_matches _ _) H2). }
    destruct (central_template _ _ _) as [t|].
    + cbn. split_and!.
      * by intros [? _]%andb_prop.
      * unfold stricterApproval. destruct (tpl_approval t) as [a|]; [|done].
        destruct (rank requested.2 <? rank a) eqn:E; [apply Z.ltb_lt in E; lia|done].
      * intros _ (t' & ? & ? & ?). by exfalso; eapply Hno.
      * intros _ t' [= <-]. split.
        -- intros ->. by rewrite bool_decide_eq_true_2, andb_false_r.
        -- intros a Ha. unfold stricterApproval. rewrite Ha.
           destruct (rank requested.2 <? rank a) eqn:E; [done|by apply Z.ltb_ge in E].
    + split_and!; [done..| |done]. intros _ (t' & ? & ? & ?). by exfalso; eapply Hno.
Qed.

(** Version comparisons are numeric and lexicographic: on dotted digit
    triples a constraint with an operator holds exactly when the operator holds
    of the two triples of numbers (up to 2^53 each), leading zeros included. *)
Theorem version_comparison_exact op a b c x y z
  (Ha : digits a) (Hb : digits b) (Hc : digits c) (Hx : digits x) (Hy : digits y) (Hz : digits z)
  (Hsmall : Forall (fun d => digits_value d <= 2 ^ 53) [a; b; c; x; y; z]) :
  versionTokenMatches (dotted a b c) (operator_text op ++ dotted x y z)
  = operator_holds op (lex_compare (digits_value a, digits_value b, digits_value c)
                                   (digits_value x, digits_value y, digits_value z)).
Proof.
  assert (Hd : match dotted x y z with u :: _ => is_digit u = true | [] => False end).
  { unfold dotted. destruct Hx as [Hne Hdig]. by destruct Hdig. }
  assert (Hcmp : comparator_matches (dotted a b c) (operator_text op ++ dotted x y z)
    = operator_holds op (compareSemver (to_number a, to_number b, to_number c)
                                       (to_number x, to_number y, to_number z))).
  { unfold comparator_matches. rewrite take_operator_text by done.
    by rewrite comparator_body_dotted, !parseSemver_dotted. }
  unfold versionTokenMatches.
  destruct (operator_token op (dotted x y z)) as (u & r & Ht & Hu & Hv & Hs).
  rewrite bool_decide_eq_false_2.
  2:{ rewrite Ht. intros [= -> _]. done. }
  assert (wildcard_token (operator_text op ++ dotted x y z) = None) as ->.
  { rewrite Ht. unfold wildcard_token, skip_v. rewrite Hv. simpl. by rewrite Hu. }
  rewrite Hcmp. repeat match goal with H : Forall _ (_ :: _) |- _ => inversion_clear H end.
  rewrite !to_number_exact by done. by rewrite compareSemver_lex.
Qed.

(** *** Witnesses *)

Definition sample_policy : McpEnterpriseGovernancePolicy :=
  {| managed := true; catalogs := []; allow := empty_rules; deny := empty_rules;
     approvedExtensions := []; approvedPublishers := []; versionPins := [];
     allowedVersions := []; blockedVersions := [(js "acme/*", [js "<2.0.0"])]; toolPolicies := [];
     revokedExtensions := [js "evil*"]; revokedTools := [] |}.
Definition sample_extension (id version : string) : McpGovernedExtension :=
  {| ext_id := js id; version := js version; source := js "registry:acme/tool"; transport := stdio |}.
Example blocked_version :
  allowed (evaluateMcpEnterpriseExtension (sample_extension "x" "1.9.0") sample_policy) = false.
Proof. reflexivity. Qed.

(** A version that is no semver triple meets no range, so it is outside every
    blocked one. *)
Example unreadable_version_escapes_block :
  allowed (evaluateMcpEnterpriseExtension
    {| ext_id := js "x"; version := js "1.9.0.1"; source := js "registry:acme/tool"; transport := stdio |}
    {| managed := true; catalogs := []; allow := empty_rules; deny := empty_rules;
       approvedExtensions := []; approvedPublishers := []; versionPins := []; allowedVersions := [];
       blockedVersions := [(js "acme/*", [js "<2.0.0"])]; toolPolicies := [];
       revokedExtensions := []; revokedTools := [] |}) = true.
Proof. reflexivity. Qed.

Lemma sample_policy_ok : policy_ok sample_policy.
Proof.
  split; unfold rules_ok, patterns_ok, version_pins_ok, version_lists_ok, pattern_ok, constraint_ok;
    cbn [catalogs allow deny approvedExtensions approvedPublishers versionPins allowedVersions
         blockedVersions toolPolicies revokedExtensions revokedTools sample_policy empty_rules
         extensions publishers transports];
    repeat first [split | apply Forall_cons_2 | apply Forall_nil_2 | apply NoDup_nil_2
                 | apply NoDup_singleton | by vm_compute].
Qed.

Lemma governance_decision_exact_witness :
  managed sample_policy = true /\ policy_ok sample_policy /\
  permitted (sample_extension "x" "2.0.0") sample_policy.
Proof.
  split; [reflexivity|]. split; [exact sample_policy_ok|].
  apply (governance_decision_exact (sample_extension "x" "2.0.0") (js "install") sample_policy);
    [reflexivity|exact sample_policy_ok|vm_compute; reflexivity].
Defined.

Lemma governance_fails_closed_witness :
  exists p, loadMcpEnterpriseGovernance (fun _ => None)
    (fun _ => Some (VObject [(js "schemaVersion", VNumber (NInt 1))])) (fun _ => fail "unused")
    (Some (js "policy")) None = Ok p /\ managed p = true.
Proof.
  eexists. split; [reflexivity|].
  edestruct (governance_fails_closed (fun _ => None)
    (fun _ => Some (VObject [(js "schemaVersion", VNumber (NInt 1))])) (fun _ => fail "unused")
    (Some (js "policy")) None) as [[H _]|(_ & H & _)]; [reflexivity|exact H|discriminate H].
Defined.

Lemma version_comparison_exact_witness :
  versionTokenMatches (js "1.10.0") (js ">=1.9.12") = true.
Proof.
  apply (version_comparison_exact op_ge (js "1") (js "10") (js "0") (js "1") (js "9") (js "12")).
  1-6: split; [done|forall_list; reflexivity].
  forall_list; vm_compute; done.
Defined.

End Governance.
