(* ===== verification/CodexProtocol.v ===== *)
(** * The app-server's messages

    [desktop/src/main/codex-protocol.ts]: the parsers of what the Codex
    app-server answers and announces. Every field is checked before it is used;
    what is not checked ([items], [errors], the params of other notifications)
    is passed on as it came. *)

From S2P Require Import Prelude JsValue Validate.

Module CodexProtocol.

Inductive CodexTurnStatus := completed | interrupted | failed | inProgress.
#[global] Instance CodexTurnStatus_eq_dec : EqDecision CodexTurnStatus.
Proof. solve_decision. Defined.
Definition statuses : list (string * CodexTurnStatus) :=
  [("completed", completed); ("interrupted", interrupted); ("failed", failed); ("inProgress", inProgress)].
Definition status_name (s : CodexTurnStatus) : string :=
  match s with completed => "completed" | interrupted => "interrupted" | failed => "failed" | inProgress => "inProgress" end.

Inductive CodexSkillScope := user | repo | system | admin.
#[global] Instance CodexSkillScope_eq_dec : EqDecision CodexSkillScope.
Proof. solve_decision. Defined.
Definition scopes : list (string * CodexSkillScope) :=
  [("user", user); ("repo", repo); ("system", system); ("admin", admin)].

Record CodexInitializeResponse := {
  userAgent : jstr; codexHome : jstr; platformFamily : jstr; platformOs : jstr }.
Inductive CodexAccount :=
| apiKey
| chatgpt (email : option jstr) (planType : jstr)
| amazonBedrock (usesCodexManagedCredentials : bool).
Record CodexAccountReadResponse := { account : option CodexAccount; requiresOpenaiAuth : bool }.
Record CodexThreadSummary := {
  thread_id : jstr; sessionId : jstr; thread_cwd : jstr; thread_modelProvider : jstr;
  thread_model : option jstr; ephemeral : bool }.
Record CodexThreadStartResponse := {
  started_thread : CodexThreadSummary; started_model : jstr; started_modelProvider : jstr; started_cwd : jstr }.
Record CodexTurnError := { error_message : jstr; additionalDetails : option jstr }.
Record CodexTurn := {
  turn_id : jstr; turn_status : CodexTurnStatus; turn_error : option CodexTurnError; items : list value }.
Record CodexTokenUsageBreakdown := {
  totalTokens : Z; inputTokens : Z; cachedInputTokens : Z; cacheWriteInputTokens : Z; outputTokens : Z;
  reasoningOutputTokens : Z }.
Record CodexThreadTokenUsage := {
  total : CodexTokenUsageBreakdown; last : CodexTokenUsageBreakdown; modelContextWindow : option Z }.
Record CodexSkillMetadata := {
  skill_name : jstr; skill_description : jstr; skill_path : jstr; skill_scope : CodexSkillScope;
  skill_enabled : bool; pluginId : option jstr }.
Record CodexSkillsListEntry := { entry_cwd : jstr; entry_skills : list CodexSkillMetadata; entry_errors : list value }.
Definition CodexSkillsListResponse := list CodexSkillsListEntry.

Inductive CodexUserInput := input_text (text : jstr) | input_skill (name path : jstr).

Inductive CodexServerEvent :=
| agent_message_delta (threadId turnId itemId delta : jstr)
| agent_message_completed (threadId turnId itemId text : jstr)
| token_usage (threadId turnId : jstr) (tokenUsage : CodexThreadTokenUsage)
| turn_completed (threadId : jstr) (turn : CodexTurn)
| notification (method : jstr) (params : value).

(** ** Field checks *)

Definition bad {A} (label : string) : result A := fail (label +:+ " is invalid").
Definition object (v : value) (label : string) : result (list (jstr * value)) :=
  match is_record v with Some r => Ok r | None => bad label end.
Definition text (v : value) (label : string) : result jstr :=
  match v with VString s => if truthy s then Ok s else bad label | _ => bad label end.
Definition nullableString (v : value) (label : string) : result (option jstr) :=
  match v with VNull => Ok None | _ => Some <$> text v label end.
Definition nonNegativeInteger (v : value) (label : string) : result Z :=
  match v with
  | VNumber n => match safe_in_range 0 MAX_SAFE_INTEGER n with Some z => Ok z | None => bad label end
  | _ => bad label
  end.
Definition boolean (v : value) (label : string) : result bool :=
  match v with VBool b => Ok b | _ => bad label end.
Definition enum {A} (table : list (string * A)) (v : value) (label : string) : result A :=
  match v with
  | VString s => match enum_lookup table s with Some a => Ok a | None => bad label end
  | _ => bad label
  end.
Definition get (r : list (jstr * value)) (key : string) : value := field r (js key).

(** ** The parsers *)

Definition codexTextInput (t : jstr) : result CodexUserInput :=
  if truthy t then Ok (input_text t) else fail "Codex turn input must not be empty".
Definition codexSkillInput (name path : jstr) : result CodexUserInput :=
  n ← text (VString name) "Codex skill name";
  p ← text (VString path) "Codex skill path";
  Ok (input_skill n p).

Definition parseCodexInitializeResponse (v : value) : result CodexInitializeResponse :=
  r ← object v "Codex initialize response";
  a ← text (get r "userAgent") "Codex initialize userAgent";
  h ← text (get r "codexHome") "Codex initialize codexHome";
  f ← text (get r "platformFamily") "Codex initialize platformFamily";
  o ← text (get r "platformOs") "Codex initialize platformOs";
  Ok {| userAgent := a; codexHome := h; platformFamily := f; platformOs := o |}.

Definition parseAccount (v : value) : result CodexAccount :=
  r ← object v "Codex account";
  if is_string (get r "type") (js "apiKey") then Ok apiKey
  else if is_string (get r "type") (js "chatgpt") then
    e ← nullableString (get r "email") "Codex account email";
    p ← text (get r "planType") "Codex account planType";
    Ok (chatgpt e p)
  else if is_string (get r "type") (js "amazonBedrock") then
    b ← boolean (get r "usesCodexManagedCredentials") "Codex Bedrock account credentials flag";
    Ok (amazonBedrock b)
  else fail "Codex account type is unsupported".

Definition parseCodexAccountReadResponse (v : value) : result CodexAccountReadResponse :=
  r ← object v "Codex account response";
  auth ← boolean (get r "requiresOpenaiAuth") "Codex account response requiresOpenaiAuth";
  a ← match get r "account" with VNull => Ok None | a => Some <$> parseAccount a end;
  Ok {| account := a; requiresOpenaiAuth := auth |}.

Definition parseThread (v : value) : result CodexThreadSummary :=
  r ← object v "Codex thread";
  e ← boolean (get r "ephemeral") "Codex thread ephemeral flag";
  i ← text (get r "id") "Codex thread id";
  s ← text (get r "sessionId") "Codex thread sessionId";
  c ← text (get r "cwd") "Codex thread cwd";
  p ← text (get r "modelProvider") "Codex thread modelProvider";
  m ← nullableString (get r "model") "Codex thread model";
  Ok {| thread_id := i; sessionId := s; thread_cwd := c; thread_modelProvider := p; thread_model := m; ephemeral := e |}.

Definition parseCodexThreadStartResponse (v : value) : result CodexThreadStartResponse :=
  r ← object v "Codex thread response";
  t ← parseThread (get r "thread");
  m ← text (get r "model") "Codex thread model";
  p ← text (get r "modelProvider") "Codex thread modelProvider";
  c ← text (get r "cwd") "Codex thread cwd";
  Ok {| started_thread := t; started_model := m; started_modelProvider := p; started_cwd := c |}.

Definition parseTurnError (v : value) : result CodexTurnError :=
  r ← object v "Codex turn error";
  m ← text (get r "message") "Codex turn error message";
  d ← nullableString (get r "additionalDetails") "Codex turn additional details";
  Ok {| error_message := m; additionalDetails := d |}.

Definition parseTurn (v : value) : result CodexTurn :=
  r ← object v "Codex turn";
  s ← enum statuses (get r "status") "Codex turn status";
  match get r "items" with
  | VArray its =>
      i ← text (get r "id") "Codex turn id";
      e ← match get r "error" with VNull => Ok None | e => Some <$> parseTurnError e end;
      Ok {| turn_id := i; turn_status := s; turn_error := e; items := its |}
  | _ => fail "Codex turn items are invalid"
  end.

Definition parseCodexTurnStartResponse (v : value) : result CodexTurn :=
  r ← object v "Codex turn/start response"; parseTurn (get r "turn").

Definition parseSkillMetadata (v : value) : result CodexSkillMetadata :=
  r ← object v "Codex skill metadata";
  s ← enum scopes (get r "scope") "Codex skill scope";
  e ← boolean (get r "enabled") "Codex skill enabled flag";
  n ← text (get r "name") "Codex skill name";
  p ← text (get r "path") "Codex skill path";
  i ← nullableString (get r "pluginId") "Codex skill pluginId";
  Ok {| skill_name := n; skill_description := match get r "description" with VString d => d | _ => [] end;
        skill_path := p; skill_scope := s; skill_enabled := e; pluginId := i |}.

Definition parseSkillsEntry (v : value) : result CodexSkillsListEntry :=
  r ← object v "Codex skills/list entry";
  match get r "skills", get r "errors" with
  | VArray skills, VArray errors =>
      c ← text (get r "cwd") "Codex skills/list cwd";
      l ← map_result parseSkillMetadata skills;
      Ok {| entry_cwd := c; entry_skills := l; entry_errors := errors |}
  | _, _ => bad "Codex skills/list entry"
  end.
Definition parseCodexSkillsListResponse (v : value) : result CodexSkillsListResponse :=
  r ← object v "Codex skills/list response";
  match get r "data" with
  | VArray l => map_result parseSkillsEntry l
  | _ => bad "Codex skills/list data"
  end.

Definition parseTokenBreakdown (v : value) (label : string) : result CodexTokenUsageBreakdown :=
  r ← object v label;
  let count key := nonNegativeInteger (get r key) (label +:+ " " +:+ key) in
  t ← count "totalTokens"%string;
  i ← count "inputTokens"%string;
  c ← count "cachedInputTokens"%string;
  w ← count "cacheWriteInputTokens"%string;
  o ← count "outputTokens"%string;
  s ← count "reasoningOutputTokens"%string;
  Ok {| totalTokens := t; inputTokens := i; cachedInputTokens := c; cacheWriteInputTokens := w;
        outputTokens := o; reasoningOutputTokens := s |}.

Definition parseTokenUsage (v : value) : result CodexThreadTokenUsage :=
  r ← object v "Codex token usage";
  w ← match get r "modelContextWindow" with
      | VNull => Ok None
      | n => Some <$> nonNegativeInteger n "Codex context window"
      end;
  t ← parseTokenBreakdown (get r "total") "Codex total token usage";
  l ← parseTokenBreakdown (get r "last") "Codex last token usage";
  Ok {| total := t; last := l; modelContextWindow := w |}.

Definition DELTA := js "item/agentMessage/delta".
Definition ITEM_COMPLETED := js "item/completed".
Definition TOKEN_USAGE := js "thread/tokenUsage/updated".
Definition TURN_COMPLETED := js "turn/completed".

Definition parse_delta (params : value) : result CodexServerEvent :=
  r ← object params "Codex agent-message delta";
  t ← text (get r "threadId") "Codex delta threadId";
  u ← text (get r "turnId") "Codex delta turnId";
  i ← text (get r "itemId") "Codex delta itemId";
  d ← text (get r "delta") "Codex delta text";
  Ok (agent_message_delta t u i d).
Definition parse_item_completed (method : jstr) (params : value) : result CodexServerEvent :=
  r ← object params "Codex item/completed notification";
  item ← object (get r "item") "Codex completed item";
  if is_string (get item "type") (js "agentMessage") then
    t ← text (get r "threadId") "Codex completed item threadId";
    u ← text (get r "turnId") "Codex completed item turnId";
    i ← text (get item "id") "Codex completed item id";
    d ← text (get item "text") "Codex completed agent message text";
    Ok (agent_message_completed t u i d)
  else Ok (notification method params).
Definition parse_token_usage (params : value) : result CodexServerEvent :=
  r ← object params "Codex token usage notification";
  t ← text (get r "threadId") "Codex usage threadId";
  u ← text (get r "turnId") "Codex usage turnId";
  n ← parseTokenUsage (get r "tokenUsage");
  Ok (token_usage t u n).
Definition parse_turn_completed (params : value) : result CodexServerEvent :=
  r ← object params "Codex turn/completed notification";
  t ← text (get r "threadId") "Codex completed turn threadId";
  n ← parseTurn (get r "turn");
  Ok (turn_completed t n).

Definition parseCodexServerEvent (method : jstr) (params : value) : result CodexServerEvent :=
  if bool_decide (method = DELTA) then parse_delta params
  else if bool_decide (method = ITEM_COMPLETED) then parse_item_completed method params
  else if bool_decide (method = TOKEN_USAGE) then parse_token_usage params
  else if bool_decide (method = TURN_COMPLETED) then parse_turn_completed params
  else Ok (notification method params).

Definition agent_text (item : value) : option jstr :=
  r ← is_record item;
  if is_string (get r "type") (js "agentMessage")
  then match get r "text" with VString s => Some s | _ => None end else None.
(** The loop from the last item to the first *)
Definition finalAgentMessage (t : CodexTurn) : option jstr := head (omap agent_text (reverse (items t))).

(** ** Well-formed events and their wire form *)

Definition filled (s : jstr) : Prop := s <> [].
Definition opt_filled (o : option jstr) : Prop := forall s, o = Some s -> filled s.
Definition count_ok (z : Z) : Prop := 0 <= z <= MAX_SAFE_INTEGER.
Definition breakdown_ok (b : CodexTokenUsageBreakdown) : Prop :=
  Forall count_ok [totalTokens b; inputTokens b; cachedInputTokens b; cacheWriteInputTokens b; outputTokens b;
                   reasoningOutputTokens b].
Definition usage_ok (u : CodexThreadTokenUsage) : Prop :=
  breakdown_ok (total u) /\ breakdown_ok (last u) /\ forall w, modelContextWindow u = Some w -> count_ok w.
Definition turn_ok (t : CodexTurn) : Prop :=
  filled (turn_id t) /\
  forall e, turn_error t = Some e -> filled (error_message e) /\ opt_filled (additionalDetails e).

Definition known_method (m : jstr) : bool :=
  bool_decide (m = DELTA) || bool_decide (m = TOKEN_USAGE) || bool_decide (m = TURN_COMPLETED).
(** Not the announcement of a completed agent message *)
Definition other_item (params : value) : bool :=
  match is_record params with
  | Some r => match is_record (get r "item") with
              | Some item => negb (is_string (get item "type") (js "agentMessage"))
              | None => false
              end
  | None => false
  end.
Definition event_ok (e : CodexServerEvent) : Prop :=
  match e with
  | agent_message_delta t u i d | agent_message_completed t u i d => Forall filled [t; u; i; d]
  | token_usage t u n => filled t /\ filled u /\ usage_ok n
  | turn_completed t n => filled t /\ turn_ok n
  | notification m p => known_method m = false /\ (m = ITEM_COMPLETED -> other_item p = true)
  end.

Definition encode_breakdown (b : CodexTokenUsageBreakdown) : value := VObject
  [(js "totalTokens", VInt (totalTokens b)); (js "inputTokens", VInt (inputTokens b));
   (js "cachedInputTokens", VInt (cachedInputTokens b)); (js "cacheWriteInputTokens", VInt (cacheWriteInputTokens b));
   (js "outputTokens", VInt (outputTokens b)); (js "reasoningOutputTokens", VInt (reasoningOutputTokens b))].
Definition encode_usage (u : CodexThreadTokenUsage) : value := VObject
  [(js "total", encode_breakdown (total u)); (js "last", encode_breakdown (last u));
   (js "modelContextWindow", opt_value VInt (modelContextWindow u))].
Definition encode_error (e : CodexTurnError) : value := VObject
  [(js "message", VString (error_message e)); (js "additionalDetails", opt_value VString (additionalDetails e))].
Definition encode_turn (t : CodexTurn) : value := VObject
  [(js "id", VString (turn_id t)); (js "status", VString (js (status_name (turn_status t))));
   (js "error", opt_value encode_error (turn_error t)); (js "items", VArray (items t))].
Definition message_params (t u : jstr) (rest : list (jstr * value)) : value := VObject
  ((js "threadId", VString t) :: (js "turnId", VString u) :: rest).
Definition encode_event (e : CodexServerEvent) : jstr * value :=
  match e with
  | agent_message_delta t u i d =>
      (DELTA, message_params t u [(js "itemId", VString i); (js "delta", VString d)])
  | agent_message_completed t u i d =>
      (ITEM_COMPLETED, message_params t u
         [(js "item", VObject [(js "type", VString (js "agentMessage")); (js "id", VString i); (js "text", VString d)])])
  | token_usage t u n => (TOKEN_USAGE, message_params t u [(js "tokenUsage", encode_usage n)])
  | turn_completed t n => (TURN_COMPLETED, VObject [(js "threadId", VString t); (js "turn", encode_turn n)])
  | notification m p => (m, p)
  end.

(** ** What the field checks accept *)

Lemma text_accepts v label s : text v label = Ok s <-> v = VString s /\ filled s.
Proof.
  unfold text, filled. destruct v; try naive_solver. destruct (truthy s0) eqn:E.
  - apply truthy_true in E. naive_solver.
  - split; [done|]. intros [[= ->] H]. apply truthy_true in H. congruence.
Qed.
Lemma text_filled s label : filled s -> text (VString s) label = Ok s.
Proof. intros. by apply text_accepts. Qed.
Lemma object_accepts v label r : object v label = Ok r <-> v = VObject r.
Proof. unfold object. destruct v; cbn; naive_solver. Qed.
Lemma count_accepts v label z : nonNegativeInteger v label = Ok z <-> v = VInt z /\ count_ok z.
Proof.
  unfold nonNegativeInteger, count_ok. destruct v; try naive_solver. split.
  - destruct (safe_in_range _ _ _) eqn:E; [|done]. intros [= <-]. by apply safe_in_range_Some in E as (-> & ? & _).
  - intros [[= ->] ?]. by rewrite safe_in_range_NInt by (unfold MIN_SAFE_INTEGER, MAX_SAFE_INTEGER in *; lia).
Qed.
Lemma count_VInt z label : count_ok z -> nonNegativeInteger (VInt z) label = Ok z.
Proof. intros. by apply count_accepts. Qed.
Lemma nullable_accepts v label o : nullableString v label = Ok o -> opt_filled o.
Proof.
  unfold nullableString, opt_filled. intros H s ->. destruct v; try (by cbn in H); try done.
  all: apply fmap_Ok in H as (a & Ha & [= <-]); by apply text_accepts in Ha as [_ ?].
Qed.
Lemma nullable_opt o label : opt_filled o -> nullableString (opt_value VString o) label = Ok o.
Proof. destruct o as [s|]; [|done]. intros H. cbn [opt_value nullableString]. by rewrite text_filled by by apply H. Qed.
Lemma status_accepts s label : enum statuses (VString (js (status_name s))) label = Ok s.
Proof. by destruct s. Qed.

(** Take a successful parse apart. *)
Ltac fields_of H :=
  repeat match type of H with
  | _ = Ok _ => apply bind_Ok in H; let x := fresh "x" in let E := fresh "E" in destruct H as (x & E & H); cbv beta in H
  end.
Ltac accepted :=
  repeat match goal with
  | H : text _ _ = Ok _ |- _ => apply text_accepts in H as [_ H]
  | H : nonNegativeInteger _ _ = Ok _ |- _ => apply count_accepts in H as [_ H]
  | H : nullableString _ _ = Ok _ |- _ => apply nullable_accepts in H
  end.
(** Read a wire form back, field by field. *)
Ltac read_back :=
  repeat first
    [ progress (unfold get; read_fields)
    | rewrite text_filled by done | rewrite count_VInt by done | rewrite nullable_opt by done
    | rewrite status_accepts
    | progress cbn [object is_record mbind result_bind fmap result_fmap] ].

Lemma breakdown_accepts v label b : parseTokenBreakdown v label = Ok b -> breakdown_ok b.
Proof.
  unfold parseTokenBreakdown. intros H. fields_of H. injection H as <-. accepted.
  unfold breakdown_ok. cbn. by forall_list.
Qed.
Lemma breakdown_back b label : breakdown_ok b -> parseTokenBreakdown (encode_breakdown b) label = Ok b.
Proof.
  unfold breakdown_ok. rewrite !Forall_cons. intros Hb. destruct_and? Hb.
  unfold parseTokenBreakdown, encode_breakdown. cbn [object is_record mbind result_bind]. cbv zeta.
  read_back. by destruct b.
Qed.

Lemma usage_accepts v u : parseTokenUsage v = Ok u -> usage_ok u.
Proof.
  unfold parseTokenUsage. intros H. apply bind_Ok in H as (r & _ & H). apply bind_Ok in H as (w & Hw & H).
  apply bind_Ok in H as (t & Ht & H). apply bind_Ok in H as (l & Hl & H). injection H as <-.
  apply breakdown_accepts in Ht, Hl. split_and!; [done|done|]. cbn. intros z ->.
  destruct (get r "modelContextWindow"); try done; apply fmap_Ok in Hw as (a & Ha & [= <-]);
    by apply count_accepts in Ha as [_ ?].
Qed.
Lemma usage_back u : usage_ok u -> parseTokenUsage (encode_usage u) = Ok u.
Proof.
  intros (Ht & Hl & Hw). unfold parseTokenUsage, encode_usage. cbn [object is_record mbind result_bind].
  unfold get. read_fields.
  assert (match opt_value VInt (modelContextWindow u) with VNull => Ok None
          | n => Some <$> nonNegativeInteger n "Codex context window" end = Ok (modelContextWindow u)) as ->.
  { destruct (modelContextWindow u) as [w|]; [|done]. cbn [opt_value]. unfold VInt at 1. fold (VInt w). by rewrite count_VInt by by apply Hw. }
  cbn [mbind result_bind]. rewrite !breakdown_back by done. by destruct u.
Qed.

Lemma turn_accepts v t : parseTurn v = Ok t -> turn_ok t.
Proof.
  unfold parseTurn. intros H. apply bind_Ok in H as (r & _ & H). apply bind_Ok in H as (s & _ & H).
  destruct (get r "items"); try done. apply bind_Ok in H as (i & Hi & H). apply bind_Ok in H as (e & He & H).
  injection H as <-. apply text_accepts in Hi as [_ Hi]. split; [done|]. cbn. intros err ->.
  destruct (get r "error"); try done; apply fmap_Ok in He as (a & Ha & [= <-]);
    unfold parseTurnError in Ha; fields_of Ha; injection Ha as <-; by accepted.
Qed.
Lemma error_back e : filled (error_message e) -> opt_filled (additionalDetails e) ->
  parseTurnError (encode_error e) = Ok e.
Proof.
  intros. unfold parseTurnError, encode_error. cbn [object is_record mbind result_bind]. read_back. by destruct e.
Qed.
Lemma turn_back t : turn_ok t -> parseTurn (encode_turn t) = Ok t.
Proof.
  intros [Hi He]. unfold parseTurn, encode_turn. cbn [object is_record mbind result_bind]. unfold get. read_fields.
  rewrite status_accepts. cbn [mbind result_bind]. rewrite text_filled by done. cbn [mbind result_bind].
  destruct t as [i s [e|] its]; [|done]. cbn [turn_error opt_value]. destruct (He e eq_refl).
  unfold encode_error at 1. cbv iota beta. fold (encode_error e). by rewrite error_back.
Qed.

Lemma method_cases m : m = DELTA \/ m = ITEM_COMPLETED \/ m = TOKEN_USAGE \/ m = TURN_COMPLETED \/
  known_method m = false /\ m <> ITEM_COMPLETED.
Proof.
  destruct (decide (m = DELTA)); [auto|]. destruct (decide (m = ITEM_COMPLETED)); [auto|].
  destruct (decide (m = TOKEN_USAGE)); [auto|]. destruct (decide (m = TURN_COMPLETED)); [auto|].
  do 4 right. unfold known_method. by rewrite !bool_decide_eq_false_2.
Qed.

Lemma other_method m p : known_method m = false -> m <> ITEM_COMPLETED ->
  parseCodexServerEvent m p = Ok (notification m p).
Proof.
  unfold known_method, parseCodexServerEvent. intros H Hi.
  apply orb_false_elim in H as [H ->]. apply orb_false_elim in H as [-> ->].
  by rewrite bool_decide_eq_false_2.
Qed.

Lemma event_accepts m p e : parseCodexServerEvent m p = Ok e -> event_ok e.
Proof.
  destruct (method_cases m) as [->|[->|[->|[->|[Hm Hi]]]]]; intros H.
  - change (parse_delta p = Ok e) in H. unfold parse_delta in H. fields_of H. injection H as <-. accepted. by forall_list.
  - change (parse_item_completed ITEM_COMPLETED p = Ok e) in H. unfold parse_item_completed in H.
    apply bind_Ok in H as (r & Hr & H). apply bind_Ok in H as (item & Hitem & H).
    destruct (is_string _ _) eqn:E.
    + fields_of H. injection H as <-. accepted. by forall_list.
    + injection H as <-. split; [done|]. intros _. apply object_accepts in Hr as ->. unfold other_item.
      cbn [is_record]. apply object_accepts in Hitem as ->. cbn [is_record]. by rewrite E.
  - change (parse_token_usage p = Ok e) in H. unfold parse_token_usage in H. fields_of H. injection H as <-.
    accepted. split_and!; [done|done|by eapply usage_accepts].
  - change (parse_turn_completed p = Ok e) in H. unfold parse_turn_completed in H. fields_of H. injection H as <-.
    accepted. split; [done|by eapply turn_accepts].
  - rewrite other_method in H by done. by injection H as <-.
Qed.

Lemma event_back e : event_ok e -> parseCodexServerEvent (encode_event e).1 (encode_event e).2 = Ok e.
Proof.
  destruct e as [t u i d|t u i d|t u n|t n|m p]; cbn [event_ok encode_event fst snd].
  - rewrite !Forall_cons. intros Hf. destruct_and? Hf. change (parseCodexServerEvent DELTA) with parse_delta.
    unfold parse_delta, message_params. cbn [object is_record mbind result_bind]. by read_back.
  - rewrite !Forall_cons. intros Hf. destruct_and? Hf.
    change (parseCodexServerEvent ITEM_COMPLETED) with (parse_item_completed ITEM_COMPLETED).
    unfold parse_item_completed, message_params. cbn [object is_record mbind result_bind]. unfold get. read_fields.
    cbn [object is_record mbind result_bind]. read_fields. cbn [is_string]. rewrite bool_decide_eq_true_2 by done.
    by read_back.
  - intros (? & ? & ?). change (parseCodexServerEvent TOKEN_USAGE) with parse_token_usage.
    unfold parse_token_usage, message_params. cbn [object is_record mbind result_bind]. unfold get. read_fields.
    rewrite !text_filled by done. cbn [mbind result_bind]. by rewrite usage_back.
  - intros [? ?]. change (parseCodexServerEvent TURN_COMPLETED) with parse_turn_completed.
    unfold parse_turn_completed. cbn [object is_record mbind result_bind]. unfold get. read_fields.
    rewrite !text_filled by done. cbn [mbind result_bind]. by rewrite turn_back.
  - intros [Hm Hi]. destruct (decide (m = ITEM_COMPLETED)) as [->|Hne]; [|by apply other_method].
    change (parseCodexServerEvent ITEM_COMPLETED) with (parse_item_completed ITEM_COMPLETED). specialize (Hi eq_refl).
    unfold other_item in Hi. unfold parse_item_completed, object. destruct (is_record p) as [r|]; [|done].
    cbn [mbind result_bind]. destruct (is_record (get r "item")) as [item|]; [|done]. cbn [mbind result_bind].
    by destruct (is_string _ _).
Qed.

(** The app-server's announcements are read exactly: what is accepted is
    well formed - ids and texts are not empty, counts are nonnegative safe
    integers - and every well-formed event is read back unchanged from its
    wire form; an unknown notification is passed on as it came. *)
Theorem server_event_exact e :
  (forall m p, parseCodexServerEvent m p = Ok e -> event_ok e) /\
  (event_ok e -> parseCodexServerEvent (encode_event e).1 (encode_event e).2 = Ok e).
Proof. split; [intros m p; apply event_accepts|apply event_back]. Qed.

(** An empty piece of text is no event but an error. *)
Example empty_delta_throws : is_ok (parseCodexServerEvent DELTA
  (message_params (js "t") (js "u") [(js "itemId", VString (js "i")); (js "delta", VString [])])) = false.
Proof. reflexivity. Qed.
End CodexProtocol.
