(* ===== verification/CodexJsonRpc.v ===== *)
(** * The JSON-RPC connection to a Codex app-server

    [desktop/src/main/codex-jsonrpc.ts]: newline-delimited JSON-RPC over the
    child's pipes. [JSON.parse] (failing on a syntax error) and
    [JSON.stringify] are arguments. What leaves the connection is kept in
    logs: the messages written, the notifications handed on, the server
    requests given to the handler and the settlements of the promises. *)

From S2P Require Import Prelude JsValue JsMap Path.

Module CodexJsonRpc.

Definition MAX_JSON_LINE_BYTES : Z := 4 * 1024 * 1024.

Inductive JsonRpcId := IdString (s : jstr) | IdNumber (n : num).
Record JsonRpcServerRequest := { req_id : JsonRpcId; req_method : jstr; req_params : value }.
Record CodexJsonRpcError := { message : jstr; code : Z; data : value }.

(** How the promise of a request settles. *)
Inductive settlement :=
| Resolved (result : value)
| RejectedRpc (e : CodexJsonRpcError)
| RejectedClosed (e : exn).

Record Connection := {
  pending : list (Z * jstr);                       (* id -> method, in insertion order *)
  nextId : Z;
  buffer : jstr;
  closed : bool;
  failure : option exn;
  written : list value;
  notifications : list (jstr * value);
  serving : list JsonRpcServerRequest;             (* handed to [onServerRequest] *)
  settled : list (Z * settlement) }.

Definition connect : Connection :=
  {| pending := []; nextId := 1; buffer := []; closed := false; failure := None; written := [];
     notifications := []; serving := []; settled := [] |}.

Definition with_buffer (b : jstr) (c : Connection) : Connection :=
  {| pending := pending c; nextId := nextId c; buffer := b; closed := closed c; failure := failure c;
     written := written c; notifications := notifications c; serving := serving c; settled := settled c |}.
Definition with_pending (p : list (Z * jstr)) (n : Z) (c : Connection) : Connection :=
  {| pending := p; nextId := n; buffer := buffer c; closed := closed c; failure := failure c;
     written := written c; notifications := notifications c; serving := serving c; settled := settled c |}.
Definition settle (id : Z) (s : settlement) (c : Connection) : Connection :=
  {| pending := map_delete (pending c) id; nextId := nextId c; buffer := buffer c; closed := closed c;
     failure := failure c; written := written c; notifications := notifications c;
     serving := serving c; settled := settled c ++ [(id, s)] |}.
Definition emit (m : value) (c : Connection) : Connection :=
  {| pending := pending c; nextId := nextId c; buffer := buffer c; closed := closed c;
     failure := failure c; written := written c ++ [m]; notifications := notifications c;
     serving := serving c; settled := settled c |}.
Definition notified (m : jstr) (p : value) (c : Connection) : Connection :=
  {| pending := pending c; nextId := nextId c; buffer := buffer c; closed := closed c;
     failure := failure c; written := written c; notifications := notifications c ++ [(m, p)];
     serving := serving c; settled := settled c |}.
Definition with_serving (l : list JsonRpcServerRequest) (c : Connection) : Connection :=
  {| pending := pending c; nextId := nextId c; buffer := buffer c; closed := closed c;
     failure := failure c; written := written c; notifications := notifications c;
     serving := l; settled := settled c |}.

(** [fail]: the first failure closes the connection and rejects what is pending. *)
Definition fail_connection (e : exn) (c : Connection) : Connection :=
  if closed c then c
  else {| pending := []; nextId := nextId c; buffer := buffer c; closed := true; failure := Some e;
          written := written c; notifications := notifications c; serving := serving c;
          settled := settled c ++ map (fun kv => (kv.1, RejectedClosed e)) (pending c) |}.
Definition fail_with (msg : string) (c : Connection) : Connection :=
  fail_connection (Error (js msg)) c.

Definition assertOpen (c : Connection) : result unit :=
  match failure c with
  | Some e => Throw e
  | None => require (negb (closed c)) "Codex app-server JSON-RPC connection is closed"
  end.

Definition VJs (s : string) : value := VString (js s).
Definition id_value (i : JsonRpcId) : value :=
  match i with IdString s => VString s | IdNumber n => VNumber n end.
(** [...(params === undefined ? {} : { params })] *)
Definition with_params (fs : list (jstr * value)) (params : value) : value :=
  VObject (fs ++ match params with VUndefined => [] | p => [(js "params", p)] end).

Definition asRpcError (v : value) (method : jstr) : CodexJsonRpcError :=
  let default_message := js "Codex app-server " ++ method ++ js " failed" in
  match is_record v with
  | None => {| message := default_message; code := -32603; data := v |}
  | Some r =>
      {| code := match field r (js "code") with
                 | VNumber n => default (-32603) (safe_integer n)
                 | _ => -32603 end;
         message := match field r (js "message") with
                    | VString m => if truthy m then m else default_message
                    | _ => default_message end;
         data := field r (js "data") |}
  end.

Definition rpc_id (v : value) : option JsonRpcId :=
  match v with VNumber n => Some (IdNumber n) | VString s => Some (IdString s) | _ => None end.

Section Connection.
Context (JSON_parse : jstr -> option value) (JSON_stringify : value -> jstr).
Context (has_server_handler : bool).

Definition write (m : value) : M Connection unit := fun c =>
  match assertOpen c with
  | Throw e => (Throw e, c)
  | Ok _ =>
      if MAX_JSON_LINE_BYTES <? utf8_len (JSON_stringify m ++ [10%N])
      then (fail "Codex app-server JSON-RPC request exceeds 4 MiB", c)
      else (Ok tt, emit m c)
  end.

(** [request] up to the promise it returns, which is known by its id. *)
Definition request (method : jstr) (params : value) : M Connection Z := fun c =>
  match assertOpen c with
  | Throw e => (Throw e, c)
  | Ok _ =>
      let id := nextId c in
      let c := with_pending (map_set (pending c) id method) (id + 1) c in
      match write (with_params [(js "jsonrpc", VJs "2.0"); (js "id", VNumber (NInt id));
                                (js "method", VString method)] params) c with
      | (Ok _, c) => (Ok id, c)
      | (Throw e, c) => (Throw e, with_pending (map_delete (pending c) id) (nextId c) c)
      end
  end.

Definition notify (method : jstr) (params : value) : M Connection unit := fun c =>
  match assertOpen c with
  | Throw e => (Throw e, c)
  | Ok _ => write (with_params [(js "jsonrpc", VJs "2.0"); (js "method", VString method)] params) c
  end.

Definition close (reason : jstr) (c : Connection) : Connection := fail_connection (Error reason) c.
Definition handleTransportError (e : exn) (c : Connection) : Connection := fail_connection e c.

Definition handleResponse (id : JsonRpcId) (m : list (jstr * value)) (c : Connection) : Connection :=
  match id with
  | IdNumber (NInt n) =>
      match map_get (pending c) n with
      | None => c
      | Some method =>
          match field m (js "error") with
          | VUndefined => settle n (Resolved (field m (js "result"))) c
          | error => settle n (RejectedRpc (asRpcError error method)) c
          end
      end
  | _ => c
  end.

Definition error_reply (id : JsonRpcId) (code : Z) (message : jstr) : value :=
  VObject [(js "jsonrpc", VJs "2.0"); (js "id", id_value id);
           (js "error", VObject [(js "code", VNumber (NInt code)); (js "message", VString message)])].
Definition result_reply (id : JsonRpcId) (r : value) : value :=
  VObject [(js "jsonrpc", VJs "2.0"); (js "id", id_value id); (js "result", r)].

(** [handleServerRequest] up to the handler's promise; without a handler the
    request is refused at once (a refusal too long to write is dropped). *)
Definition handleServerRequest (r : JsonRpcServerRequest) (c : Connection) : Connection :=
  if closed c then c
  else if has_server_handler then with_serving (serving c ++ [r]) c
  else (write (error_reply (req_id r) (-32601)
          (js "SourceNerve P1 does not implement app-server request " ++ req_method r)) c).2.

(** The handler's promise settles: its result, or the message of its error,
    goes back, unless the connection is closed. A result that cannot be
    written is answered by an error. *)
Definition server_request_done (r : JsonRpcServerRequest) (o : result value) (c : Connection)
  : Connection :=
  if closed c then c
  else
    let refuse (e : exn) (c : Connection) :=
      (write (error_reply (req_id r) (-32603)
         (match e with Error m => m | NotAnError _ => js "SourceNerve app-server request handler failed" end))
         c).2 in
    match o with
    | Ok v => match write (result_reply (req_id r) v) c with
              | (Ok _, c') => c'
              | (Throw e, c') => refuse e c'
              end
    | Throw e => refuse e c
    end.

Definition handleLine (line : jstr) (c : Connection) : Connection :=
  match JSON_parse line with
  | None => fail_with "Codex app-server emitted invalid JSON-RPC" c
  | Some v =>
      match is_record v with
      | None => fail_with "Codex app-server emitted invalid JSON-RPC envelope" c
      | Some m =>
          let version_ok := match field m (js "jsonrpc") with
          | VUndefined => true
          | version => is_string version (js "2.0")
          end in
          if negb version_ok then fail_with "Codex app-server emitted unsupported JSON-RPC version" c
          else
            match rpc_id (field m (js "id")),
                  has_field m (js "result") || has_field m (js "error"), field m (js "method") with
            | Some id, true, VUndefined => handleResponse id m c
            | Some id, _, VString method =>
                handleServerRequest {| req_id := id; req_method := method;
                                       req_params := field m (js "params") |} c
            | None, _, VString method => notified method (field m (js "params")) c
            | _, _, _ => fail_with "Codex app-server emitted unknown JSON-RPC envelope" c
            end
      end
  end.

(** [this.buffer.indexOf("\n")]: the text before the first newline and after it *)
Fixpoint split_line (s : jstr) : option (jstr * jstr) :=
  match s with
  | [] => None
  | u :: s' => if (u =? 10)%N then Some ([], s')
               else match split_line s' with Some (l, r) => Some (u :: l, r) | None => None end
  end.

(** The body of the loop of [handleData], for one line. *)
Definition handle_raw_line (raw : jstr) (c : Connection) : Connection :=
  let line := trim raw in
  if negb (truthy line) then c
  else if MAX_JSON_LINE_BYTES <? utf8_len line
       then fail_with "Codex app-server JSON-RPC line exceeds 4 MiB" c
       else handleLine line c.

(** The loop: every turn takes a newline out of the buffer, so its length is
    fuel enough. *)
Fixpoint drain (fuel : nat) (c : Connection) : Connection :=
  match fuel with
  | O => c
  | S fuel' =>
      if closed c then c
      else match split_line (buffer c) with
           | None => c
           | Some (raw, rest) => drain fuel' (handle_raw_line raw (with_buffer rest c))
           end
  end.

Definition handleData (chunk : jstr) (c : Connection) : Connection :=
  if closed c then c
  else
    let c := with_buffer (buffer c ++ chunk) c in
    if (MAX_JSON_LINE_BYTES <? utf8_len (buffer c)) && negb (includes (buffer c) [10%N])
    then fail_with "Codex app-server JSON-RPC line exceeds 4 MiB" c
    else drain (length (buffer c)) c.

(** ** The connection in use *)

Inductive event :=
| Request (method : jstr) (params : value)
| Notify (method : jstr) (params : value)
| Data (chunk : jstr)
| ServerDone (r : JsonRpcServerRequest) (o : result value)
| TransportError (e : exn)
| Close (reason : jstr).

(** The connection, and the ids of the promises [request] has returned. *)
Definition step (e : event) (w : Connection * list Z) : Connection * list Z :=
  let (c, issued) := w in
  match e with
  | Request m p => match request m p c with
                   | (Ok id, c') => (c', issued ++ [id])
                   | (Throw _, c') => (c', issued)
                   end
  | Notify m p => ((notify m p c).2, issued)
  | Data chunk => (handleData chunk c, issued)
  | ServerDone r o => (server_request_done r o c, issued)
  | TransportError e => (handleTransportError e c, issued)
  | Close reason => (close reason c, issued)
  end.
Definition run (es : list event) (w : Connection * list Z) : Connection * list Z :=
  fold_left (fun w e => step e w) es w.

(** ** Cutting a stream into lines *)

(** The complete lines of a text, and what follows the last newline. *)
Fixpoint cut (s : jstr) : list jstr * jstr :=
  match s with
  | [] => ([], [])
  | u :: s' =>
      let (ls, r) := cut s' in
      if (u =? 10)%N then ([] :: ls, r)
      else match ls with [] => ([], u :: r) | l :: ls' => ((u :: l) :: ls', r) end
  end.

Lemma cut_app a b : cut (a ++ b) = ((cut a).1 ++ (cut ((cut a).2 ++ b)).1, (cut ((cut a).2 ++ b)).2).
Proof.
  induction a as [|u a IH]; simpl; [by destruct (cut b)|].
  rewrite IH. destruct (cut a) as [la ra]. simpl.
  destruct (u =? 10)%N eqn:Hu; simpl; [done|]. destruct la as [|l la]; simpl; [|done].
  rewrite Hu. destruct (cut (ra ++ b)) as [[|l2 lb] rb]; done.
Qed.

Lemma split_line_cut s : match split_line s with
  | None => cut s = ([], s)
  | Some (l, r) => cut s = (l :: (cut r).1, (cut r).2) /\ (length r < length s)%nat
  end.
Proof.
  induction s as [|u s IH]; simpl; [done|]. destruct (u =? 10)%N.
  - destruct (cut s). split; [done|lia].
  - destruct (split_line s) as [[l r]|]; [destruct IH as [-> ?]|by rewrite IH].
    split; [done|simpl; lia].
Qed.

Lemma cut_rest s : cut (cut s).2 = ([], (cut s).2).
Proof.
  pose proof (cut_app s []) as H. rewrite !app_nil_r in H.
  destruct (cut s) as [ls r]. simpl in *. destruct (cut r) as [ls' r']. simpl in H.
  injection H as H1 H2. rewrite <- (app_nil_r ls) in H1 at 1. apply app_inv_head in H1. by subst.
Qed.

Lemma cut_suffix s : exists p, s = p ++ (cut s).2.
Proof.
  induction s as [|u s [p IH]]; simpl; [by exists []|].
  destruct (cut s) as [[|l ls] r] eqn:E; simpl in IH; destruct (u =? 10)%N; simpl.
  - exists (u :: p). simpl. by f_equal.
  - exists []. simpl. f_equal. pose proof (split_line_cut s) as H.
    destruct (split_line s) as [[l' r']|]; [destruct H as [H _]|]; rewrite E in H; [done|].
    by injection H as ->.
  - exists (u :: p). simpl. by f_equal.
  - exists (u :: p). simpl. by f_equal.
Qed.

Lemma utf8_len_suffix p s : utf8_len s <= utf8_len (p ++ s).
Proof. induction p as [|u p IH]; simpl app; [lia|]. pose proof (utf8_len_cons u (p ++ s)). lia. Qed.

Lemma includes_newline s : includes s [10%N] = bool_decide ((cut s).1 <> []).
Proof.
  induction s as [|u s IH]; [done|]. cbn [includes starts_with cut].
  replace (starts_with s []) with true by (by destruct s).
  rewrite IH, andb_true_r, (N.eqb_sym 10 u). destruct (cut s) as [ls r]. simpl.
  destruct (u =? 10)%N; simpl; [done|]. by destruct ls.
Qed.

(** ** Handling a line does not depend on the buffer *)

Lemma with_buffer_twice b b' c : with_buffer b (with_buffer b' c) = with_buffer b c.
Proof. done. Qed.
Lemma with_buffer_same c : with_buffer (buffer c) c = c.
Proof. by destruct c. Qed.

Lemma fail_connection_buffer e b c :
  fail_connection e (with_buffer b c) = with_buffer b (fail_connection e c).
Proof. unfold fail_connection. simpl. by destruct (closed c). Qed.

Lemma write_buffer m b c : write m (with_buffer b c) = ((write m c).1, with_buffer b (write m c).2).
Proof.
  unfold write, assertOpen. simpl. destruct (failure c); [done|].
  destruct (require _ _); [|done]. by destruct (_ <? _).
Qed.

Lemma handleResponse_buffer id m b c :
  handleResponse id m (with_buffer b c) = with_buffer b (handleResponse id m c).
Proof.
  unfold handleResponse. destruct id as [|[n| | |]]; try done. simpl.
  destruct (map_get (pending c) n); [|done]. by destruct (field m (js "error")).
Qed.

Lemma handleServerRequest_buffer r b c :
  handleServerRequest r (with_buffer b c) = with_buffer b (handleServerRequest r c).
Proof.
  unfold handleServerRequest. simpl. destruct (closed c); [done|]. destruct has_server_handler; [done|].
  by rewrite write_buffer.
Qed.

Lemma handleLine_buffer line b c : handleLine line (with_buffer b c) = with_buffer b (handleLine line c).
Proof.
  unfold handleLine, fail_with. rewrite !fail_connection_buffer.
  destruct (JSON_parse line) as [v|]; [|done]. destruct (is_record v) as [m|]; [|done]. cbv zeta.
  destruct (negb _); [done|].
  destruct (rpc_id _), (has_field m (js "result") || has_field m (js "error")), (field m (js "method")); try done;
    rewrite ?handleResponse_buffer, ?handleServerRequest_buffer; done.
Qed.

Lemma handle_raw_line_buffer raw b c :
  handle_raw_line raw (with_buffer b c) = with_buffer b (handle_raw_line raw c).
Proof.
  unfold handle_raw_line, fail_with. destruct (negb _); [done|].
  destruct (_ <? _); [apply fail_connection_buffer|apply handleLine_buffer].
Qed.

(** ** Chunks *)

(** One line, unless the connection is closed. *)
Definition feed (c : Connection) (raw : jstr) : Connection :=
  if closed c then c else handle_raw_line raw c.
(** What a closed connection still buffers is never looked at. *)
Definition visible (c : Connection) : Connection := if closed c then with_buffer [] c else c.

Lemma feed_buffer b c raw : feed (with_buffer b c) raw = with_buffer b (feed c raw).
Proof. unfold feed. simpl. destruct (closed c); [done|]. apply handle_raw_line_buffer. Qed.
Lemma fold_feed_buffer b ls c :
  fold_left feed ls (with_buffer b c) = with_buffer b (fold_left feed ls c).
Proof. revert c. induction ls as [|l ls IH]; intros c; [done|]. simpl. by rewrite feed_buffer, IH. Qed.
Lemma fold_feed_closed ls c : closed c = true -> fold_left feed ls c = c.
Proof. intros Hc. induction ls as [|l ls IH]; [done|]. simpl.
  replace (feed c l) with c; [done|]. unfold feed. by rewrite Hc. Qed.
Lemma visible_closed b c : closed c = true -> visible (with_buffer b c) = visible c.
Proof. intros Hc. unfold visible. simpl. by rewrite Hc. Qed.

Lemma drain_spec fuel c : (length (buffer c) <= fuel)%nat ->
  visible (drain fuel c)
  = visible (with_buffer (cut (buffer c)).2 (fold_left feed (cut (buffer c)).1 c)).
Proof.
  revert c. induction fuel as [|fuel IH]; intros c Hlen.
  - destruct (buffer c) as [|u b] eqn:Eb; [|simpl in Hlen; lia]. simpl. by rewrite <- Eb, with_buffer_same.
  - simpl. destruct (closed c) eqn:Hc; [by rewrite fold_feed_closed, visible_closed|].
    pose proof (split_line_cut (buffer c)) as Hs. destruct (split_line (buffer c)) as [[l r]|].
    + destruct Hs as [-> Hr]. rewrite handle_raw_line_buffer, IH by (simpl; lia). simpl.
      rewrite fold_feed_buffer, with_buffer_twice.
      replace (feed c l) with (handle_raw_line l c); [done|]. unfold feed. by rewrite Hc.
    + rewrite Hs. simpl. by rewrite with_buffer_same.
Qed.

(** The text does not close the connection for its length: it ends a line or
    is short. *)
Definition fits (text : jstr) : Prop := includes text [10%N] = true \/ utf8_len text <= MAX_JSON_LINE_BYTES.
Lemma handleData_spec chunk c : closed c = false -> fits (buffer c ++ chunk) ->
  visible (handleData chunk c)
  = visible (with_buffer (cut (buffer c ++ chunk)).2 (fold_left feed (cut (buffer c ++ chunk)).1 c)).
Proof.
  intros Hc Hfit. unfold handleData. rewrite Hc. cbv zeta. simpl buffer.
  assert ((MAX_JSON_LINE_BYTES <? utf8_len (buffer c ++ chunk)) && negb (includes (buffer c ++ chunk) [10%N]) = false) as ->.
  { destruct Hfit as [->|Hlen]; [by rewrite andb_false_r|]. by rewrite (proj2 (Z.ltb_ge _ _) Hlen). }
  rewrite drain_spec by done. simpl buffer. by rewrite fold_feed_buffer.
Qed.

Lemma handleData_closed chunk c : closed c = true -> handleData chunk c = c.
Proof. intros Hc. unfold handleData. by rewrite Hc. Qed.
Lemma fold_handleData_closed chunks c : closed c = true ->
  fold_left (fun c s => handleData s c) chunks c = c.
Proof. intros Hc. induction chunks as [|s chunks IH]; [done|]. simpl. by rewrite handleData_closed. Qed.

Lemma visible_inj c d : visible c = visible d ->
  closed c = closed d /\ (closed c = false -> c = d).
Proof.
  unfold visible. destruct (closed c) eqn:Hc, (closed d) eqn:Hd; intros H; try done.
  - apply (f_equal closed) in H. simpl in H. congruence.
  - apply (f_equal closed) in H. simpl in H. congruence.
Qed.

(** No chunk closes the connection for its length, given what is buffered. *)
Fixpoint chunks_fit (buffered : jstr) (chunks : list jstr) : Prop :=
  match chunks with
  | [] => True
  | s :: chunks => fits (buffered ++ s) /\ chunks_fit (cut (buffered ++ s)).2 chunks
  end.
Lemma fits_prefix a b : fits a -> includes a [10%N] = true -> fits (a ++ b).
Proof.
  intros _ (x & y & ->)%includes_spec. left. apply includes_spec. exists x, (y ++ b). by rewrite <- !app_assoc.
Qed.
Lemma cut_no_newline t : includes t [10%N] = false -> cut t = ([], t).
Proof.
  rewrite includes_newline. intros H%bool_decide_eq_false. pose proof (split_line_cut t) as Hs.
  destruct (split_line t) as [[l r]|]; [|done]. destruct Hs as [E _]. destruct H. by rewrite E.
Qed.
Lemma chunks_fit_whole buffered chunks : chunks <> [] -> chunks_fit buffered chunks -> fits (buffered ++ concat chunks).
Proof.
  revert buffered. induction chunks as [|s chunks IH]; intros buffered Hne Hf; [done|]. destruct Hf as [Hs Hrest]. cbn [concat]. rewrite app_assoc.
  destruct (includes (buffered ++ s) [10%N]) eqn:E; [by apply fits_prefix|]. rewrite cut_no_newline in Hrest by done. cbn [snd] in Hrest.
  destruct chunks as [|s' chunks]; [by rewrite app_nil_r|]. by apply IH.
Qed.

Lemma chunks_spec chunks c : closed c = false -> chunks <> [] -> chunks_fit (buffer c) chunks ->
  visible (fold_left (fun c s => handleData s c) chunks c)
  = visible (with_buffer (cut (buffer c ++ concat chunks)).2
      (fold_left feed (cut (buffer c ++ concat chunks)).1 c)).
Proof.
  revert c. induction chunks as [|s chunks IH]; intros c Hc Hne Hfit; [done|]. destruct Hfit as [Hs Hrest]. simpl.
  rewrite app_assoc. pose proof (handleData_spec s c Hc Hs) as Hd. set (c1 := handleData s c) in *.
  rewrite cut_app. destruct (cut (buffer c ++ s)) as [ls r] eqn:Ecut. simpl in Hd, Hrest |- *.
  rewrite fold_left_app. set (c2 := fold_left feed ls c) in *.
  apply visible_inj in Hd as [Hcl Heq]. simpl in Hcl.
  destruct (closed c1) eqn:Hc1.
  - rewrite fold_handleData_closed by done. rewrite (fold_feed_closed _ c2) by done.
    rewrite (visible_closed _ c2) by done.
    pose proof (handleData_spec s c Hc Hs) as Hv. fold c1 in Hv. rewrite Hv, Ecut. simpl.
    apply visible_closed. done.
  - rewrite Heq by done. destruct chunks as [|s' chunks].
    + simpl. rewrite app_nil_r. pose proof (cut_rest (buffer c ++ s)) as Hr. rewrite Ecut in Hr.
      simpl in Hr. by rewrite Hr.
    + rewrite IH; [|simpl; by rewrite Hcl|done|exact Hrest]. simpl buffer. by rewrite fold_feed_buffer.
Qed.

(** ** Requests *)

Record accounted (w : Connection * list Z) : Prop := {
  acc_issued : w.2 ≡ₚ map fst (pending w.1) ++ map fst (settled w.1);
  acc_fresh : forall id, id ∈ w.2 -> id < nextId w.1;
  acc_NoDup : NoDup w.2;
  acc_failure : closed w.1 = bool_decide (is_Some (failure w.1));
  acc_closed : closed w.1 = true -> pending w.1 = [] }.

(** A change of the connection that issues no request and only moves ids from
    the pending ones to the settled ones. *)
Record settles (c c' : Connection) : Prop := {
  st_ids : map fst (pending c') ++ map fst (settled c') ≡ₚ map fst (pending c) ++ map fst (settled c);
  st_next : nextId c' = nextId c;
  st_failure : closed c = bool_decide (is_Some (failure c)) -> closed c' = bool_decide (is_Some (failure c'));
  st_closed : (closed c = true -> pending c = []) -> closed c' = true -> pending c' = [] }.

Lemma settles_refl c : settles c c. Proof. by split. Qed.
Lemma settles_trans a b c : settles a b -> settles b c -> settles a c.
Proof. intros [I1 N1 F1 C1] [I2 N2 F2 C2]. split; [by rewrite I2|congruence|auto|auto]. Qed.

Lemma accounted_settles c c' l : accounted (c, l) -> settles c c' -> accounted (c', l).
Proof.
  intros [A1 A2 A3 A4 A5] [I N F C]. simpl in *. split; simpl; auto.
  - by rewrite I.
  - intros id Hid. rewrite N. auto.
Qed.

Lemma settles_fail e c : settles c (fail_connection e c).
Proof.
  unfold fail_connection. destruct (closed c) eqn:Hc; [apply settles_refl|]. split; simpl; [|done..].
  rewrite map_app, map_map. simpl. rewrite Permutation_app_comm. done.
Qed.
Lemma settles_buffer b c : settles c (with_buffer b c). Proof. by split. Qed.
Lemma settles_emit m c : settles c (emit m c). Proof. by split. Qed.
Lemma settles_notified m p c : settles c (notified m p c). Proof. by split. Qed.
Lemma settles_serving l c : settles c (with_serving l c). Proof. by split. Qed.

Lemma settles_write m c : settles c (write m c).2.
Proof.
  unfold write. destruct (assertOpen c); [|apply settles_refl].
  destruct (_ <? _); [apply settles_refl|apply settles_emit].
Qed.

Definition ids (c : Connection) : list Z := map fst (pending c) ++ map fst (settled c).

Lemma settles_NoDup c c' : settles c c' -> NoDup (ids c) -> NoDup (ids c').
Proof. intros [I _ _ _]. unfold ids. by rewrite I. Qed.

Lemma settles_settle n v method c : NoDup (ids c) -> map_get (pending c) n = Some method ->
  settles c (settle n v c).
Proof.
  intros Hnd Hn. apply NoDup_app in Hnd as (Hwf & _ & _). split; simpl; [|done|done|].
  - rewrite map_app, (map_delete_keys _ _ _ Hwf Hn). simpl.
    rewrite Permutation_app_comm, <- app_assoc, (Permutation_app_comm (map fst (settled c))). done.
  - intros Hc Hcl. by rewrite Hc.
Qed.

Lemma settles_handleLine line c : NoDup (ids c) -> settles c (handleLine line c).
Proof.
  intros Hnd. unfold handleLine, fail_with. destruct (JSON_parse line) as [v|]; [|apply settles_fail].
  destruct (is_record v) as [m|]; [|apply settles_fail]. cbv zeta.
  destruct (negb _); [apply settles_fail|].
  assert (Hresp : forall id, settles c (handleResponse id m c)).
  { intros id. unfold handleResponse. destruct id as [|[n| | |]]; try apply settles_refl.
    destruct (map_get (pending c) n) eqn:Hn; [|apply settles_refl].
    destruct (field m (js "error")); by eapply settles_settle. }
  assert (Hreq : forall r, settles c (handleServerRequest r c)).
  { intros r. unfold handleServerRequest. destruct (closed c); [apply settles_refl|].
    destruct has_server_handler; [apply settles_serving|apply settles_write]. }
  destruct (rpc_id _), (has_field m (js "result") || has_field m (js "error")), (field m (js "method"));
    try apply Hresp; try apply Hreq; try apply settles_notified; apply settles_fail.
Qed.

Lemma settles_raw_line raw c : NoDup (ids c) -> settles c (handle_raw_line raw c).
Proof.
  intros Hnd. unfold handle_raw_line, fail_with. destruct (negb _); [apply settles_refl|].
  destruct (_ <? _); [apply settles_fail|by apply settles_handleLine].
Qed.

Lemma settles_drain fuel c : NoDup (ids c) -> settles c (drain fuel c).
Proof.
  revert c. induction fuel as [|fuel IH]; intros c Hnd; simpl; [apply settles_refl|].
  destruct (closed c); [apply settles_refl|]. destruct (split_line (buffer c)) as [[raw rest]|];
    [|apply settles_refl].
  assert (H1 : settles c (handle_raw_line raw (with_buffer rest c))).
  { eapply settles_trans; [apply (settles_buffer rest)|]. by apply settles_raw_line. }
  eapply settles_trans; [exact H1|]. apply IH. by eapply settles_NoDup.
Qed.

Lemma settles_handleData chunk c : NoDup (ids c) -> settles c (handleData chunk c).
Proof.
  intros Hnd. unfold handleData, fail_with. destruct (closed c); [apply settles_refl|]. cbv zeta.
  eapply settles_trans; [apply (settles_buffer (buffer c ++ chunk))|].
  destruct (_ && _); [apply settles_fail|by apply settles_drain].
Qed.

Lemma settles_done r o c : settles c (server_request_done r o c).
Proof.
  unfold server_request_done. destruct (closed c); [apply settles_refl|]. cbv zeta.
  destruct o as [v|e]; [|apply settles_write].
  pose proof (settles_write (result_reply (req_id r) v) c) as H.
  destruct (write _ c) as [[[]|e] c']; [done|]. eapply settles_trans; [exact H|apply settles_write].
Qed.

Lemma assertOpen_closed c : closed c = bool_decide (is_Some (failure c)) ->
  assertOpen c = if closed c then match failure c with Some e => Throw e | None => Ok tt end else Ok tt.
Proof.
  intros H. unfold assertOpen. destruct (failure c) as [e|].
  - by rewrite H, bool_decide_eq_true_2.
  - rewrite H, bool_decide_eq_false_2; [done|]. by intros [? ?].
Qed.

Lemma accounted_request m p c l : accounted (c, l) ->
  accounted (match request m p c with (Ok id, c') => (c', l ++ [id]) | (Throw _, c') => (c', l) end).
Proof.
  intros A. pose proof A as [A1 A2 A3 A4 A5]. simpl in *. unfold request.
  destruct (assertOpen c) as [[]|e] eqn:Ho; [|done].
  assert (Hopen : closed c = false).
  { rewrite assertOpen_closed in Ho by done. destruct (closed c); [|done].
    destruct (failure c) as [e|]; [done|]. by rewrite bool_decide_eq_false_2 in A4 by (by intros [? ?]). }
  assert (Hnew : nextId c ∉ map fst (pending c)).
  { intros Hin. assert (nextId c ∈ l) as H%A2 by (rewrite A1; apply elem_of_app; by left). lia. }
  set (c1 := with_pending _ _ c).
  assert (Hid : map fst (pending c1) = map fst (pending c) ++ [nextId c]).
  { simpl. by rewrite map_set_keys, bool_decide_eq_false_2. }
  assert (Hc1 : accounted (c1, l ++ [nextId c])).
  { split; simpl; [| | |done|congruence].
    - simpl in Hid. rewrite Hid, A1, <- !app_assoc, (Permutation_app_comm (map fst (settled c))). done.
    - intros id [Hin| ->%list_elem_of_singleton]%elem_of_app; [apply A2 in Hin; lia|lia].
    - apply NoDup_app. split_and!; [done| |apply NoDup_singleton].
      intros id Hin ->%list_elem_of_singleton. apply A2 in Hin. lia. }
  pose proof (settles_write (with_params [(js "jsonrpc", VJs "2.0"); (js "id", VNumber (NInt (nextId c)));
    (js "method", VString m)] p) c1) as Hw.
  destruct (write _ c1) as [[[]|e] c2] eqn:Ew; simpl in Hw.
  - by apply (accounted_settles c1).
  - unfold write in Ew. assert (c2 = c1) as ->.
    { destruct (assertOpen c1); [|congruence]. destruct (_ <? _); congruence. }
    assert (map_delete (pending c1) (nextId c) = pending c) as Hdel.
    { simpl. rewrite map_set_new by done. unfold map_delete. rewrite filter_app, filter_cons_False by naive_solver.
      rewrite filter_nil, app_nil_r. apply filter_all, Forall_forall. intros [k v] Hin Hk. simpl in Hk.
      subst. apply Hnew. by apply (list_elem_of_fmap_2 fst _ (nextId c, v)). }
    split; simpl; [|intros id Hin; apply A2 in Hin; lia|done|done|congruence].
    simpl in Hdel. by rewrite Hdel.
Qed.

Lemma step_accounted e w : accounted w -> accounted (step e w).
Proof.
  destruct w as [c l]. intros A. pose proof A as [A1 _ A3 _ _]. simpl in *.
  assert (Hnd : NoDup (ids c)) by (unfold ids; by rewrite <- A1).
  destruct e as [m p|m p|chunk|r o|e|reason]; cbn [step].
  - by apply accounted_request.
  - eapply accounted_settles; [exact A|]. unfold notify.
    destruct (assertOpen c); [apply settles_write|apply settles_refl].
  - eapply accounted_settles; [exact A|]. by apply settles_handleData.
  - eapply accounted_settles; [exact A|]. apply settles_done.
  - eapply accounted_settles; [exact A|]. apply settles_fail.
  - eapply accounted_settles; [exact A|]. apply settles_fail.
Qed.

Lemma run_accounted es w : accounted w -> accounted (run es w).
Proof.
  unfold run. revert w. induction es as [|e es IH]; intros w Hw; [done|].
  cbn [fold_left]. by apply IH, step_accounted.
Qed.

Lemma accounted_connect : accounted (connect, []).
Proof. split; simpl; try done; [by intros id ?%not_elem_of_nil|constructor]. Qed.

(** ** Properties *)

(** C39: how the child's output is cut into chunks does not matter: as long as
    no chunk closes the connection for the length of an unfinished line (over
    4 MiB buffered and no line feed among them), reading the output in these
    pieces or in one leaves the same connection (what a closed connection
    still buffers aside). The lines may be any number and of any length. *)
Theorem jsonrpc_chunking chunks c (Hne : chunks <> []) (Hfit : chunks_fit (buffer c) chunks) :
  visible (fold_left (fun c s => handleData s c) chunks c) = visible (handleData (concat chunks) c).
Proof.
  destruct (closed c) eqn:Hc.
  - by rewrite fold_handleData_closed, handleData_closed.
  - by rewrite chunks_spec, handleData_spec by auto using chunks_fit_whole.
Qed.

(** C34: every request settles at most once and none is lost: the ids that
    [request] has handed out are distinct, each of them is pending or settled
    but not both, and when the connection is closed all of them are settled. *)
Theorem jsonrpc_exactly_once es :
  let (c, issued) := run es (connect, []) in
  NoDup issued /\ issued ≡ₚ map fst (pending c) ++ map fst (settled c) /\
  (closed c = true -> issued ≡ₚ map fst (settled c)).
Proof.
  pose proof (run_accounted es _ accounted_connect) as [A1 _ A3 _ A5].
  destruct (run es (connect, [])) as [c l]. simpl in *. split_and!; [done|done|].
  intros Hc. by rewrite A1, A5.
Qed.

(** The first failure is final: once a transport error, an invalid line or
    [close] has closed the connection nothing changes it any more - nothing
    is written, settled or handed on, and every request throws that failure. *)
Theorem jsonrpc_closed_is_final es es' c issued
  (Hrun : run es (connect, []) = (c, issued)) (Hclosed : closed c = true) :
  run es' (c, issued) = (c, issued) /\
  exists e, failure c = Some e /\ forall m p, request m p c = (Throw e, c).
Proof.
  pose proof (run_accounted es _ accounted_connect) as [_ _ _ A4 _]. rewrite Hrun in A4. simpl in A4.
  rewrite Hclosed in A4. symmetry in A4. apply bool_decide_eq_true in A4 as [e He].
  assert (Hreq : forall m p, request m p c = (Throw e, c)).
  { intros m p. unfold request, assertOpen. by rewrite He. }
  split; [|by exists e]. unfold run. induction es' as [|ev es' IH]; [done|]. cbn [fold_left].
  replace (step ev (c, issued)) with (c, issued); [exact IH|].
  destruct ev as [m p|m p|chunk|r o|e'|reason]; cbn [step].
  - by rewrite Hreq.
  - unfold notify, assertOpen. by rewrite He.
  - by rewrite handleData_closed.
  - unfold server_request_done. by rewrite Hclosed.
  - unfold handleTransportError, fail_connection. by rewrite Hclosed.
  - unfold close, fail_connection. by rewrite Hclosed.
Qed.
End Connection.

(** *** Witnesses *)

(** A stand-in for [JSON.parse] that knows one message. *)
Definition sample_parse (s : jstr) : option value :=
  if bool_decide (s = js "pong") then Some (VObject [(js "id", VNumber (NInt 1)); (js "result", VBool true)]) else None.
Definition sample_stringify (v : value) : jstr := js "message".
Definition pinged : Connection := (request sample_stringify (js "ping") VUndefined connect).2.

Lemma jsonrpc_chunking_witness :
  visible (handleData sample_parse sample_stringify true (js "ng" ++ [10%N])
             (handleData sample_parse sample_stringify true (js "po") pinged))
  = visible (handleData sample_parse sample_stringify true (js "pong" ++ [10%N]) pinged).
Proof.
  apply (jsonrpc_chunking sample_parse sample_stringify true [js "po"; js "ng" ++ [10%N]] pinged); [done|].
  split; [right; vm_compute; discriminate|]. split; [left; reflexivity|exact I].
Defined.
Example pong_resolves :
  settled (handleData sample_parse sample_stringify true (js "pong" ++ [10%N]) pinged)
  = [(1, Resolved (VBool true))].
Proof. reflexivity. Qed.

Lemma jsonrpc_closed_is_final_witness :
  run sample_parse sample_stringify true [Request (js "late") VUndefined]
    (run sample_parse sample_stringify true [Request (js "ping") VUndefined; Data (js "junk" ++ [10%N])]
       (connect, []))
  = run sample_parse sample_stringify true [Request (js "ping") VUndefined; Data (js "junk" ++ [10%N])]
      (connect, []).
Proof.
  destruct (run sample_parse sample_stringify true
    [Request (js "ping") VUndefined; Data (js "junk" ++ [10%N])] (connect, [])) as [c issued] eqn:E.
  apply (jsonrpc_closed_is_final sample_parse sample_stringify true
    [Request (js "ping") VUndefined; Data (js "junk" ++ [10%N])] [Request (js "late") VUndefined] c issued E).
  assert (Hc : closed (c, issued).1 = true) by (rewrite <- E; vm_compute; reflexivity). exact Hc.
Defined.

End CodexJsonRpc.
