(* ===== verification/CodexThreadStore.v ===== *)
(** * The Codex thread store

    [desktop/src/main/codex-thread-store.ts]: which Codex thread a harness run
    is bound to, kept in memory and rewritten to a registry file through a
    queue of snapshots.

    [JSON_parse], [JSON_stringify] (with an indent of two) and
    [Date.parse]'s finiteness are arguments; what the round trip needs of the
    first two is a hypothesis of the theorem that uses it. The file system is
    a map from paths to contents, and every step of a write can fail. *)

From S2P Require Import Prelude JsValue JsMap Path LocalFile Validate.

Module CodexThreadStore.

Definition SCHEMA_VERSION : Z := 1.
Definition MAX_FILE_BYTES : Z := 512 * 1024.
Definition MAX_BINDINGS : Z := 2000.

Record CodexThreadBinding := {
  runId : jstr; workspaceId : jstr; cwd : jstr; threadId : jstr;
  createdAt : jstr; updatedAt : jstr }.
#[global] Instance CodexThreadBinding_eq_dec : EqDecision CodexThreadBinding.
Proof. solve_decision. Defined.

Record BindInput := { in_runId : jstr; in_workspaceId : jstr; in_cwd : jstr; in_threadId : jstr }.

Record Store := {
  bindings : list (jstr * CodexThreadBinding);
  initialized : bool;
  (** [writeQueue]: the snapshots whose write has not happened yet *)
  writeQueue : list (list CodexThreadBinding) }.

Definition set_bindings (m : list (jstr * CodexThreadBinding)) (s : Store) : Store :=
  {| bindings := m; initialized := initialized s; writeQueue := writeQueue s |}.

Definition touch (ts : jstr) (b : CodexThreadBinding) : CodexThreadBinding :=
  {| runId := runId b; workspaceId := workspaceId b; cwd := cwd b; threadId := threadId b;
     createdAt := createdAt b; updatedAt := ts |}.

(** [typeof value !== "string" || value.length === 0 || ... ] *)
Definition identifier_ok (s : jstr) : bool :=
  negb (slen s =? 0) && (slen s <=? 128) && negb (has_line_break_or_nul s).
Definition validateIdentifier (v : value) (label : string) : result jstr :=
  match v with
  | VString s => if identifier_ok s then Ok s else fail (label +:+ " is invalid")
  | _ => fail (label +:+ " is invalid")
  end.

Set Default Proof Using "Type".

Section Store.
Context (process_cwd : jstr) (localeCompare : jstr -> jstr -> Z).
Context (JSON_parse : jstr -> result value) (JSON_stringify : value -> jstr).
Context (date_finite : jstr -> bool).

Definition assertInitialized : M Store unit := fun s =>
  if initialized s then (Ok tt, s) else (fail "Codex thread store is not initialized", s).

(** [get] returns a copy. *)
Definition get (id : jstr) : M Store (option CodexThreadBinding) :=
  _ ← assertInitialized; gets (fun s => map_get (bindings s) id).

Definition list_bindings : M Store (list CodexThreadBinding) :=
  _ ← assertInitialized;
  gets (fun s => sort_by (fun l r => localeCompare (updatedAt l) (updatedAt r))
                         (map_values (bindings s))).

Definition enqueueWrite : M Store unit := fun s =>
  (Ok tt, {| bindings := bindings s; initialized := initialized s;
             writeQueue := writeQueue s ++ [map_values (bindings s)] |}).

(** [bind] up to the promise of its write; [ts] is [now().toISOString()]. *)
Definition bind (ts : jstr) (input : BindInput) : M Store CodexThreadBinding :=
  _ ← assertInitialized;
  s ← get_state;
  let existing := map_get (bindings s) (in_runId input) in
  _ ← js_guard (match existing with
               | Some e => bool_decide (workspaceId e <> in_workspaceId input)
                           || bool_decide (cwd e <> resolve process_cwd (in_cwd input))
               | None => false end)
        "Codex Harness run is already bound to a different workspace";
  _ ← js_guard (match existing with
               | Some e => bool_decide (threadId e <> in_threadId input)
               | None => false end)
        "Codex Harness run is already bound to a different Codex thread";
  _ ← lift (validateIdentifier (VString (in_runId input)) "Codex run id");
  _ ← lift (validateIdentifier (VString (in_workspaceId input)) "Codex workspace id");
  _ ← lift (validateIdentifier (VString (in_threadId input)) "Codex thread id");
  _ ← js_guard (negb (isAbsolute (in_cwd input))) "Codex binding cwd must be absolute";
  let binding := match existing with
    | Some e => touch ts e
    | None => {| runId := in_runId input; workspaceId := in_workspaceId input;
                 cwd := resolve process_cwd (in_cwd input); threadId := in_threadId input;
                 createdAt := ts; updatedAt := ts |}
    end in
  _ ← modify (fun s => set_bindings (map_set (bindings s) (runId binding) binding) s);
  _ ← enqueueWrite;
  mret binding.

(** The entries the loop of [rebind] deletes. *)
Definition same_thread (input : BindInput) (dir : jstr) (kv : jstr * CodexThreadBinding) : bool :=
  bool_decide (kv.1 <> in_runId input) &&
  bool_decide (workspaceId kv.2 = in_workspaceId input) && bool_decide (cwd kv.2 = dir) &&
  bool_decide (threadId kv.2 = in_threadId input).

Definition rebind (ts : jstr) (input : BindInput) : M Store CodexThreadBinding :=
  _ ← assertInitialized;
  _ ← lift (validateIdentifier (VString (in_runId input)) "Codex run id");
  _ ← lift (validateIdentifier (VString (in_workspaceId input)) "Codex workspace id");
  _ ← lift (validateIdentifier (VString (in_threadId input)) "Codex thread id");
  _ ← js_guard (negb (isAbsolute (in_cwd input))) "Codex binding cwd must be absolute";
  let dir := resolve process_cwd (in_cwd input) in
  s ← get_state;
  let existing := map_get (bindings s) (in_runId input) in
  _ ← js_guard (match existing with
               | Some e => bool_decide (workspaceId e <> in_workspaceId input)
                           || bool_decide (cwd e <> dir)
               | None => false end)
        "Codex Harness run is already bound to a different workspace";
  _ ← modify (fun s => set_bindings (filter (fun kv => same_thread input dir kv = false) (bindings s)) s);
  let binding :=
    {| runId := in_runId input; workspaceId := in_workspaceId input; cwd := dir;
       threadId := in_threadId input;
       createdAt := match existing with Some e => createdAt e | None => ts end;
       updatedAt := ts |} in
  _ ← modify (fun s => set_bindings (map_set (bindings s) (runId binding) binding) s);
  _ ← enqueueWrite;
  mret binding.

Definition remove (id : jstr) : M Store bool :=
  _ ← assertInitialized;
  s ← get_state;
  let removed := map_has (bindings s) id in
  _ ← modify (fun s => set_bindings (map_delete (bindings s) id) s);
  _ ← (if removed then enqueueWrite else mret tt);
  mret removed.

Definition removeWorkspace (ws : jstr) : M Store (list jstr) :=
  _ ← assertInitialized;
  _ ← lift (validateIdentifier (VString ws) "Codex workspace id");
  s ← get_state;
  let removed := map fst (filter (fun kv => workspaceId kv.2 = ws) (bindings s)) in
  _ ← modify (fun s => set_bindings (filter (fun kv => workspaceId kv.2 <> ws) (bindings s)) s);
  _ ← (if bool_decide (removed = []) then mret tt else enqueueWrite);
  mret removed.

(** ** The registry file *)

Definition binding_value (b : CodexThreadBinding) : value :=
  VObject [(js "runId", VString (runId b)); (js "workspaceId", VString (workspaceId b));
           (js "cwd", VString (cwd b)); (js "threadId", VString (threadId b));
           (js "createdAt", VString (createdAt b)); (js "updatedAt", VString (updatedAt b))].
Definition registry_value (bs : list CodexThreadBinding) : value :=
  VObject [(js "schemaVersion", VInt SCHEMA_VERSION); (js "bindings", VArray (map binding_value bs))].

(** [`${JSON.stringify(registry, null, 2)}\n`] *)
Definition serialize (bs : list CodexThreadBinding) : jstr :=
  JSON_stringify (registry_value bs) ++ [10%N].

(** [suffix] is [${process.pid}-${randomUUID()}]. *)
Definition writeRegistry (fault : write_fault) (suffix filePath : jstr)
    (bs : list CodexThreadBinding) : M Disk unit :=
  let serialized := serialize bs in
  if MAX_FILE_BYTES <? utf8_len serialized then throw "Codex thread registry exceeds 512 KiB"
  else
    let temporary := filePath ++ js ".tmp-" ++ suffix in
    replaceFile fault temporary filePath serialized.

Definition validateBinding (v : value) : result CodexThreadBinding :=
  match is_record v with
  | None => fail "invalid Codex thread binding"
  | Some r =>
      run ← validateIdentifier (field r (js "runId")) "Codex run id";
      ws ← validateIdentifier (field r (js "workspaceId")) "Codex workspace id";
      thread ← validateIdentifier (field r (js "threadId")) "Codex thread id";
      dir ← match field r (js "cwd") with
            | VString s => if isAbsolute s then Ok s else fail "invalid Codex binding cwd"
            | _ => fail "invalid Codex binding cwd" end;
      created ← match field r (js "createdAt") with
            | VString s => if date_finite s then Ok s else fail "invalid Codex binding createdAt"
            | _ => fail "invalid Codex binding createdAt" end;
      updated ← match field r (js "updatedAt") with
            | VString s => if date_finite s then Ok s else fail "invalid Codex binding updatedAt"
            | _ => fail "invalid Codex binding updatedAt" end;
      Ok {| runId := run; workspaceId := ws; cwd := resolve process_cwd dir; threadId := thread;
            createdAt := created; updatedAt := updated |}
  end.

Fixpoint check_unseen (seen : list jstr) (bs : list CodexThreadBinding) : result unit :=
  match bs with
  | [] => Ok tt
  | b :: bs' => if bool_decide (runId b ∈ seen) then fail "duplicate Codex run binding"
                else check_unseen (runId b :: seen) bs'
  end.

Definition readRegistry (file : read_outcome) : result (list CodexThreadBinding) :=
  match file with
  | Missing => Ok []
  | ReadError e => Throw e
  | Contents raw =>
      _ ← require (utf8_len raw <=? MAX_FILE_BYTES) "Codex thread registry exceeds 512 KiB";
      parsed ← JSON_parse raw;
      version ← property parsed "schemaVersion";
      list ← property parsed "bindings";
      match is_int version SCHEMA_VERSION, list with
      | true, VArray items =>
          if Z.of_nat (length items) <=? MAX_BINDINGS then
            bs ← map_result validateBinding items;
            _ ← check_unseen [] bs;
            Ok bs
          else fail "unsupported Codex thread registry schema"
      | _, _ => fail "unsupported Codex thread registry schema"
      end
  end.

Definition initialize (file : read_outcome) : M Store unit := fun s =>
  if initialized s then (Ok tt, s)
  else match readRegistry file with
       | Throw e => (Throw e, s)
       | Ok bs => (Ok tt, {| bindings := map_of (map (fun b => (runId b, b)) bs);
                             initialized := true; writeQueue := writeQueue s |})
       end.

(** ** The running system *)

Inductive call :=
| Bind (ts : jstr) (input : BindInput)
| Rebind (ts : jstr) (input : BindInput)
| Remove (id : jstr)
| RemoveWorkspace (ws : jstr).

Definition forget {S A} (m : M S A) : M S unit := _ ← m; mret tt.
Definition run_call (c : call) : M Store unit :=
  match c with
  | Bind ts i => forget (bind ts i)
  | Rebind ts i => forget (rebind ts i)
  | Remove id => forget (remove id)
  | RemoveWorkspace ws => forget (removeWorkspace ws)
  end.

(** The store and the disk; [outcomes] are the results of the writes that the
    callers await, in order. *)
Record World := { store : Store; disk : Disk; outcomes : list bool }.

(** A call's synchronous part, or the next queued write reaching its end. *)
Inductive event := Call (c : call) | Write (fault : write_fault) (suffix : jstr).

Definition pop_queue (s : Store) : Store :=
  {| bindings := bindings s; initialized := initialized s; writeQueue := tail (writeQueue s) |}.
Definition step (filePath : jstr) (e : event) (w : World) : World :=
  match e with
  | Call c => {| store := (run_call c (store w)).2; disk := disk w; outcomes := outcomes w |}
  | Write fault suffix =>
      match writeQueue (store w) with
      | [] => w
      | snapshot :: _ =>
          let (r, d) := writeRegistry fault suffix filePath snapshot (disk w) in
          {| store := pop_queue (store w); disk := d; outcomes := outcomes w ++ [is_ok r] |}
      end
  end.
Definition run (filePath : jstr) (es : list event) (w : World) : World :=
  fold_left (fun w e => step filePath e w) es w.

(** The store of a process that has just started. *)
Definition fresh_store : Store := {| bindings := []; initialized := false; writeQueue := [] |}.

(** ** What each call does *)

Definition input_ok (i : BindInput) : bool :=
  identifier_ok (in_runId i) && identifier_ok (in_workspaceId i) && identifier_ok (in_threadId i)
  && isAbsolute (in_cwd i).
Definition in_dir (i : BindInput) : jstr := resolve process_cwd (in_cwd i).

(** The registry after a call that wrote [m]: the snapshot of [m] is queued. *)
Definition written (m : list (jstr * CodexThreadBinding)) (s : Store) : Store :=
  {| bindings := m; initialized := initialized s; writeQueue := writeQueue s ++ [map_values m] |}.

Lemma validateIdentifier_spec s label :
  validateIdentifier (VString s) label = if identifier_ok s then Ok s else fail (label +:+ " is invalid").
Proof. done. Qed.

Definition new_binding (ts created : jstr) (i : BindInput) : CodexThreadBinding :=
  {| runId := in_runId i; workspaceId := in_workspaceId i; cwd := in_dir i;
     threadId := in_threadId i; createdAt := created; updatedAt := ts |}.

(** [bind] throws and changes nothing, or binds a new run, or touches the
    binding the run already has. *)
Lemma bind_cases ts i s :
  (exists e, bind ts i s = (Throw e, s)) \/
  (initialized s = true /\ input_ok i = true /\
   ((map_get (bindings s) (in_runId i) = None /\
     let b := new_binding ts ts i in
     bind ts i s = (Ok b, written (map_set (bindings s) (in_runId i) b) s)) \/
    (exists e, map_get (bindings s) (in_runId i) = Some e /\
     workspaceId e = in_workspaceId i /\ cwd e = in_dir i /\ threadId e = in_threadId i /\
     bind ts i s = (Ok (touch ts e), written (map_set (bindings s) (runId e) (touch ts e)) s)))).
Proof.
  unfold bind, assertInitialized, lift, js_guard, mbind, M_bind, get_state.
  destruct (initialized s) eqn:Hi; [|left; by eexists]. cbv beta iota zeta.
  destruct (match map_get (bindings s) (in_runId i) with
            | Some e => _ || _ | None => false end) eqn:E1; [left; by eexists|].
  destruct (match map_get (bindings s) (in_runId i) with
            | Some e => bool_decide (threadId e <> _) | None => false end) eqn:E2; [left; by eexists|].
  rewrite !validateIdentifier_spec.
  destruct (identifier_ok (in_runId i)) eqn:E3; [|left; by eexists].
  destruct (identifier_ok (in_workspaceId i)) eqn:E4; [|left; by eexists].
  destruct (identifier_ok (in_threadId i)) eqn:E5; [|left; by eexists].
  destruct (isAbsolute (in_cwd i)) eqn:E6; [|left; by eexists].
  right. split; [done|]. split; [by unfold input_ok; rewrite E3, E4, E5, E6|].
  destruct (map_get (bindings s) (in_runId i)) as [e|] eqn:Eg.
  - right. exists e. to_prop. repeat match goal with H : ~ _ <> _ |- _ => apply dec_stable in H end.
    done.
  - left. done.
Qed.

Lemma rebind_cases ts i s :
  (exists e, rebind ts i s = (Throw e, s)) \/
  (initialized s = true /\ input_ok i = true /\
   (forall e, map_get (bindings s) (in_runId i) = Some e ->
      workspaceId e = in_workspaceId i /\ cwd e = in_dir i) /\
   let b := new_binding ts (match map_get (bindings s) (in_runId i) with
                            | Some e => createdAt e | None => ts end) i in
   rebind ts i s = (Ok b, written (map_set
     (filter (fun kv => same_thread i (in_dir i) kv = false) (bindings s)) (in_runId i) b) s)).
Proof.
  unfold rebind, assertInitialized, lift, js_guard, mbind, M_bind, get_state.
  destruct (initialized s) eqn:Hi; [|left; by eexists]. cbv beta iota zeta.
  rewrite !validateIdentifier_spec.
  destruct (identifier_ok (in_runId i)) eqn:E3; [|left; by eexists].
  destruct (identifier_ok (in_workspaceId i)) eqn:E4; [|left; by eexists].
  destruct (identifier_ok (in_threadId i)) eqn:E5; [|left; by eexists].
  destruct (isAbsolute (in_cwd i)) eqn:E6; [|left; by eexists]. cbv beta iota zeta delta [negb].
  destruct (match map_get (bindings s) (in_runId i) with
            | Some e => _ || _ | None => false end) eqn:E1; [left; by eexists|].
  right. split; [done|]. split; [by unfold input_ok; rewrite E3, E4, E5, E6|]. split; [|done].
  intros e He. rewrite He in E1. to_prop.
  repeat match goal with H : ~ _ <> _ |- _ => apply dec_stable in H end. done.
Qed.

Lemma remove_cases id s :
  (exists e, remove id s = (Throw e, s)) \/
  (map_has (bindings s) id = false /\ remove id s = (Ok false, s)) \/
  (map_has (bindings s) id = true /\ remove id s = (Ok true, written (map_delete (bindings s) id) s)).
Proof.
  unfold remove, assertInitialized, mbind, M_bind, get_state.
  destruct (initialized s) eqn:Hi; [|left; by eexists]. cbv beta iota zeta.
  destruct (map_has (bindings s) id) eqn:Eh; [by right; right|]. right. left. split; [done|].
  rewrite map_has_get in Eh. to_prop. apply eq_None_not_Some in Eh.
  unfold modify. rewrite map_delete_absent by done. by destruct s.
Qed.

Lemma removeWorkspace_cases ws s :
  (exists e, removeWorkspace ws s = (Throw e, s)) \/
  removeWorkspace ws s = (Ok [], s) \/
  exists gone, removeWorkspace ws s
    = (Ok gone, written (filter (fun kv => workspaceId kv.2 <> ws) (bindings s)) s).
Proof.
  unfold removeWorkspace, assertInitialized, lift, mbind, M_bind, get_state.
  destruct (initialized s) eqn:Hi; [|left; by eexists]. cbv beta iota zeta.
  rewrite validateIdentifier_spec. destruct (identifier_ok ws); [|left; by eexists]. right.
  case_bool_decide as Hnil; [left|right; by eexists].
  unfold modify. rewrite filter_all; [rewrite Hnil; by destruct s|].
  apply map_eq_nil in Hnil. apply Forall_forall. intros kv Hin Hws.
  by apply (filter_nil_not_elem_of _ _ kv Hnil).
Qed.

(** The ways a call can write the registry. *)
Inductive writes (m : list (jstr * CodexThreadBinding)) : call ->
    list (jstr * CodexThreadBinding) -> Prop :=
| writes_new ts i : input_ok i = true -> map_get m (in_runId i) = None ->
    writes m (Bind ts i) (map_set m (in_runId i) (new_binding ts ts i))
| writes_touch ts i e : input_ok i = true -> map_get m (in_runId i) = Some e ->
    workspaceId e = in_workspaceId i -> cwd e = in_dir i -> threadId e = in_threadId i ->
    writes m (Bind ts i) (map_set m (runId e) (touch ts e))
| writes_rebind ts i : input_ok i = true ->
    (forall e, map_get m (in_runId i) = Some e -> workspaceId e = in_workspaceId i /\ cwd e = in_dir i) ->
    writes m (Rebind ts i)
      (map_set (filter (fun kv => same_thread i (in_dir i) kv = false) m) (in_runId i)
        (new_binding ts (match map_get m (in_runId i) with Some e => createdAt e | None => ts end) i))
| writes_remove id : writes m (Remove id) (map_delete m id)
| writes_removeWorkspace ws :
    writes m (RemoveWorkspace ws) (filter (fun kv => workspaceId kv.2 <> ws) m).

Lemma run_call_cases c s :
  (run_call c s).2 = s \/
  exists m, writes (bindings s) c m /\ run_call c s = (Ok tt, written m s).
Proof.
  unfold run_call, forget, mbind, M_bind, mret, M_ret. destruct c as [ts i|ts i|id|ws].
  - destruct (bind_cases ts i s) as [[e ->]|(Hi & Hok & [[Hn ->]|(e & He & ? & ? & ? & ->)])];
      [by left|right..]; eexists; (split; [|done]); by constructor.
  - destruct (rebind_cases ts i s) as [[e ->]|(Hi & Hok & He & ->)]; [by left|right].
    eexists; split; [|done]. by constructor.
  - destruct (remove_cases id s) as [[e ->]|[[_ ->]|[_ ->]]]; [by left..|right].
    eexists; split; [|done]. constructor.
  - destruct (removeWorkspace_cases ws s) as [[e ->]|[->|[gone ->]]]; [by left..|right].
    eexists; split; [|done]. constructor.
Qed.

(** ** The registry's invariant *)

(** What [readRegistry] demands of a binding, the dates aside. *)
Definition binding_ok (b : CodexThreadBinding) : Prop :=
  identifier_ok (runId b) = true /\ identifier_ok (workspaceId b) = true /\
  identifier_ok (threadId b) = true /\ isAbsolute (cwd b) = true /\
  resolve process_cwd (cwd b) = cwd b.
Definition registry_ok (m : list (jstr * CodexThreadBinding)) : Prop :=
  map_wf m /\ Forall (fun kv => kv.1 = runId kv.2 /\ binding_ok kv.2) m.

Lemma new_binding_ok ts created i : input_ok i = true -> binding_ok (new_binding ts created i).
Proof.
  unfold input_ok, binding_ok. intros H. to_prop. cbn. split_and!; [done..|]. apply resolve_idem.
Qed.

Lemma registry_ok_filter (P : jstr * CodexThreadBinding -> Prop) `{forall x, Decision (P x)} m :
  registry_ok m -> registry_ok (filter P m).
Proof.
  intros [Hwf Hall]. split; [auto with sn|]. apply Forall_forall. intros kv [_ Hkv]%list_elem_of_filter.
  by apply (proj1 (Forall_forall _ _) Hall).
Qed.

Lemma registry_ok_get m k b : registry_ok m -> map_get m k = Some b -> runId b = k /\ binding_ok b.
Proof.
  intros [_ Hall] Hg%map_get_elem. apply (proj1 (Forall_forall _ _) Hall) in Hg as [? ?]. done.
Qed.

Lemma writes_ok m c m' : registry_ok m -> writes m c m' -> registry_ok m'.
Proof.
  intros Hm [ts i Hi Hn|ts i e Hi He _ _ _|ts i Hi He|id|ws].
  - destruct Hm. split; [auto with sn|]. apply Forall_map_set; [|done].
    split; [done|by apply new_binding_ok].
  - destruct (registry_ok_get _ _ _ Hm He) as [_ ?]. destruct Hm. split; [auto with sn|].
    apply Forall_map_set; [|done]. done.
  - apply (registry_ok_filter (fun kv => same_thread i (in_dir i) kv = false)) in Hm as [? ?].
    split; [auto with sn|]. apply Forall_map_set; [|done]. split; [done|by apply new_binding_ok].
  - by apply registry_ok_filter.
  - by apply registry_ok_filter.
Qed.

(** What survives of a run's binding over a call: nothing the run is bound to
    changes, only a [rebind] of the run itself moves it to another thread. *)
Definition keeps_identity (c : call) (r : jstr) (b b' : CodexThreadBinding) : Prop :=
  workspaceId b' = workspaceId b /\ cwd b' = cwd b /\ createdAt b' = createdAt b /\
  (threadId b' = threadId b \/
   exists ts i, c = Rebind ts i /\ in_runId i = r /\ threadId b' = in_threadId i).
Definition may_forget (c : call) (r : jstr) (b : CodexThreadBinding) : Prop :=
  c = Remove r \/ c = RemoveWorkspace (workspaceId b) \/
  exists ts i, c = Rebind ts i /\ in_runId i <> r /\ in_workspaceId i = workspaceId b /\
    in_dir i = cwd b /\ in_threadId i = threadId b.
Definition evolves (c : call) (r : jstr) (b : CodexThreadBinding) (o : option CodexThreadBinding) : Prop :=
  match o with Some b' => keeps_identity c r b b' | None => may_forget c r b end.

Lemma evolves_same c r b : evolves c r b (Some b).
Proof. repeat split. by left. Qed.

Lemma same_thread_false_or i dir kv : same_thread i dir kv = false \/
  (kv.1 <> in_runId i /\ workspaceId kv.2 = in_workspaceId i /\ cwd kv.2 = dir /\
   threadId kv.2 = in_threadId i).
Proof.
  destruct (same_thread i dir kv) eqn:E; [right|by left]. unfold same_thread in E. to_prop. done.
Qed.

Lemma writes_evolves m c m' r b : registry_ok m -> writes m c m' -> map_get m r = Some b ->
  evolves c r b (map_get m' r).
Proof.
  intros Hm Hw Hr. pose proof (proj1 Hm) as Hwf.
  destruct Hw as [ts i Hi Hn|ts i e Hi He E1 E2 E3|ts i Hi He|id|ws].
  - rewrite map_get_set. case_bool_decide as Hk; [|rewrite Hr; apply evolves_same]. congruence.
  - rewrite map_get_set. case_bool_decide as Hk; [|rewrite Hr; apply evolves_same].
    destruct (registry_ok_get _ _ _ Hm He) as [Hid _]. assert (e = b) as -> by congruence.
    repeat split. by left.
  - rewrite map_get_set. case_bool_decide as Hk.
    + subst. rewrite Hr. destruct (He b Hr). unfold evolves, keeps_identity. cbn.
      split_and!; [done..|right; by eexists _, _].
    + rewrite map_get_filter by done. rewrite Hr. simpl.
      case_decide as Hd; [apply evolves_same|].
      destruct (same_thread_false_or i (in_dir i) (r, b)) as [?|(? & ? & ? & ?)]; [done|].
      right; right. exists ts, i. cbn in *. by split_and!.
  - rewrite map_get_delete. case_bool_decide as Hk; [|rewrite Hr; apply evolves_same].
    subst. by left.
  - rewrite map_get_filter by done. rewrite Hr. simpl. case_decide as Hd; [apply evolves_same|].
    subst. right. by left.
Qed.

(** ** The file *)

(** A write replaces the file by the whole snapshot, or leaves it alone. *)
Lemma writeRegistry_atomic fault suffix filePath bs d :
  let (r, d') := writeRegistry fault suffix filePath bs d in
  d' !! filePath = (if is_ok r then Some (serialize bs) else d !! filePath) /\
  is_ok r = negb (MAX_FILE_BYTES <? utf8_len (serialize bs)) &&
            write_succeeds fault.
Proof.
  unfold writeRegistry. destruct (MAX_FILE_BYTES <? _); [done|].
  pose proof (replaceFile_atomic fault _ _ (serialize bs) d (temporary_ne filePath (js ".tmp-") suffix ltac:(done))) as H.
  destruct (replaceFile _ _ _ _ d) as [r d']. destruct H as [-> ->]. by destruct fault.
Qed.

Lemma map_values_runIds m : registry_ok m -> map runId (map_values m) = map fst m.
Proof.
  intros [_ Hall]. unfold map_values. rewrite map_map. apply map_ext_in. intros kv Hin.
  apply list_elem_of_In in Hin. by apply (proj1 (Forall_forall _ _) Hall) in Hin as [-> _].
Qed.

(** ** The invariant of the running system *)

Definition snapshot_ok (bs : list CodexThreadBinding) : Prop :=
  NoDup (map runId bs) /\ Forall binding_ok bs.
Lemma registry_ok_snapshot m : registry_ok m -> snapshot_ok (map_values m).
Proof.
  intros Hm. split; [rewrite map_values_runIds by done; apply Hm|].
  apply Forall_map. eapply Forall_impl; [apply Hm|]. by intros kv [_ ?].
Qed.

(** The registry is well formed, what is queued are snapshots of well formed
    registries, and the last one queued is the registry as it is now. *)
Definition store_ok (s : Store) : Prop :=
  registry_ok (bindings s) /\ Forall snapshot_ok (writeQueue s) /\
  (forall bs, last (writeQueue s) = Some bs -> bs = map_values (bindings s)).

Lemma run_call_store_ok c s : store_ok s -> store_ok (run_call c s).2.
Proof.
  intros (Hm & Hq & Hl). destruct (run_call_cases c s) as [->|(m & Hw & ->)]; [done|].
  pose proof (writes_ok _ _ _ Hm Hw) as Hm'. cbn. unfold store_ok. cbn. split_and!; [done| |].
  - apply Forall_app_2; [done|]. forall_list. by apply registry_ok_snapshot.
  - intros bs. rewrite last_snoc. by intros [= <-].
Qed.

Lemma pop_queue_store_ok s : store_ok s -> store_ok (pop_queue s).
Proof.
  intros (Hm & Hq & Hl). unfold store_ok, pop_queue. cbn. split_and!; [done| |].
  - by destruct Hq.
  - intros bs Hbs. apply Hl. destruct (writeQueue s) as [|x [|y l]]; try done.
Qed.

(** The file holds what it held before, or a whole snapshot of a well formed
    registry. *)
Definition file_ok (filePath : jstr) (d0 d : Disk) : Prop :=
  d !! filePath = d0 !! filePath \/ exists bs, snapshot_ok bs /\ d !! filePath = Some (serialize bs).

Lemma step_ok filePath d0 e w : store_ok (store w) -> file_ok filePath d0 (disk w) ->
  store_ok (store (step filePath e w)) /\ file_ok filePath d0 (disk (step filePath e w)).
Proof.
  intros Hs Hf. destruct e as [c|fault suffix]; cbn [step].
  { split; [by apply run_call_store_ok|done]. }
  destruct (writeQueue (store w)) as [|snap q] eqn:Eq; [done|].
  pose proof (writeRegistry_atomic fault suffix filePath snap (disk w)) as Hw.
  destruct (writeRegistry _ _ _ _ _) as [r d'] eqn:Er. destruct Hw as [Hw _]. cbn.
  split; [by apply pop_queue_store_ok|]. unfold file_ok. rewrite Hw. destruct (is_ok r); [right|done].
  exists snap. split; [|done]. destruct Hs as (_ & Hq & _). rewrite Eq in Hq. by inversion Hq.
Qed.

Lemma run_ok filePath d0 es w : store_ok (store w) -> file_ok filePath d0 (disk w) ->
  store_ok (store (run filePath es w)) /\ file_ok filePath d0 (disk (run filePath es w)).
Proof.
  unfold run. revert w. induction es as [|e es IH]; intros w Hs Hf; [done|]. simpl.
  apply IH; by apply (step_ok filePath d0 e w).
Qed.

(** Only queued writes: the queue is worked off one snapshot at a time. *)
Definition is_write (e : event) : bool := match e with Write _ _ => true | Call _ => false end.
Lemma run_writes_queue filePath es w : forallb is_write es = true ->
  writeQueue (store (run filePath es w)) = drop (length es) (writeQueue (store w)) /\
  bindings (store (run filePath es w)) = bindings (store w).
Proof.
  unfold run. revert w. induction es as [|[c|fault suffix] es IH]; intros w; [done|done|].
  intros Hes. cbn [fold_left length].
  destruct (IH (step filePath (Write fault suffix) w) Hes) as [-> ->]. cbn [step]. destruct (writeQueue (store w)) as [|snap q] eqn:Eq.
  { rewrite Eq. by rewrite drop_nil. }
  destruct (writeRegistry _ _ _ _ _). cbn. by rewrite Eq.
Qed.

(** ** Reading back what was written *)

Lemma validateBinding_value b : binding_ok b -> date_finite (createdAt b) = true ->
  date_finite (updatedAt b) = true -> validateBinding (binding_value b) = Ok b.
Proof.
  intros (H1 & H2 & H3 & H4 & H5) Hc Hu. unfold validateBinding, binding_value, is_record.
  read_fields. rewrite !validateIdentifier_spec, H1, H2, H3. simpl.
  rewrite H4, Hc, Hu. simpl. rewrite H5. by destruct b.
Qed.

Lemma check_unseen_ok seen bs : NoDup (map runId bs) -> (forall b, b ∈ bs -> runId b ∉ seen) ->
  check_unseen seen bs = Ok tt.
Proof.
  revert seen. induction bs as [|b bs IH]; intros seen; [done|]. simpl.
  intros [Hn Hnd]%NoDup_cons Hs. rewrite bool_decide_eq_false_2 by (apply Hs; by left).
  apply IH; [done|]. intros b' Hb'. rewrite elem_of_cons. intros [E|E].
  - apply Hn. rewrite <- E. by apply (list_elem_of_fmap_2 runId).
  - eapply (Hs b'); [by right|done].
Qed.

(** What a file must satisfy beyond its snapshot being well formed. *)
Definition readable (bs : list CodexThreadBinding) : Prop :=
  Z.of_nat (length bs) <= MAX_BINDINGS /\ utf8_len (serialize bs) <= MAX_FILE_BYTES /\
  Forall (fun b => date_finite (createdAt b) = true /\ date_finite (updatedAt b) = true) bs.

Lemma readRegistry_serialize bs : JSON_parse (serialize bs) = Ok (registry_value bs) ->
  snapshot_ok bs -> readable bs -> readRegistry (Contents (serialize bs)) = Ok bs.
Proof.
  intros Hj [Hnd Hok] (Hn & Hsize & Hdates). unfold readRegistry.
  rewrite (proj2 (Z.leb_le _ _) Hsize). simpl. rewrite Hj. unfold registry_value. simpl.
  rewrite length_map, (proj2 (Z.leb_le _ _) Hn).
  rewrite (map_result_map _ _ id).
  - rewrite map_id. simpl. rewrite check_unseen_ok; [done|done|]. intros ? _. apply not_elem_of_nil.
  - intros b Hb. rewrite Forall_forall in Hok, Hdates. destruct (Hdates b Hb).
    apply validateBinding_value; auto.
Qed.

Lemma initialize_serialize m : registry_ok m ->
  JSON_parse (serialize (map_values m)) = Ok (registry_value (map_values m)) ->
  readable (map_values m) ->
  initialize (Contents (serialize (map_values m))) fresh_store
  = (Ok tt, {| bindings := m; initialized := true; writeQueue := [] |}).
Proof.
  intros Hm Hj Hr. unfold initialize, fresh_store. cbn [initialized].
  rewrite readRegistry_serialize; [|done|by apply registry_ok_snapshot|done].
  assert (map (fun b => (runId b, b)) (map_values m) = m) as ->.
  { destruct Hm as [_ Hall]. unfold map_values. rewrite map_map. rewrite <- (map_id m) at 2.
    apply map_ext_in. intros [k b] Hin. apply list_elem_of_In in Hin.
    apply (proj1 (Forall_forall _ _) Hall) in Hin as [<- _]. done. }
  rewrite map_of_NoDup by apply Hm. done.
Qed.

(** ** Properties *)

(** Over a call of the store, the binding of a run keeps its workspace,
    its directory and its creation time, and its thread too unless the call is
    a rebind of that very run; it disappears only by a removal of the run or
    of its workspace, or when another run is rebound to the same thread in the
    same directory. *)
Theorem binding_evolution c s r b
  (Hs : registry_ok (bindings s)) (Hr : map_get (bindings s) r = Some b) :
  evolves c r b (map_get (bindings (run_call c s).2) r).
Proof.
  destruct (run_call_cases c s) as [->|(m & Hw & ->)].
  - rewrite Hr. apply evolves_same.
  - by apply (writes_evolves (bindings s) c m).
Qed.

(** After a rebind that succeeds, its run is bound to the given thread
    and no other run to that thread of that workspace and directory; runs on
    other threads keep their bindings, and the snapshot queued for the file is
    this very registry. *)
Theorem rebind_takes_thread ts i s b s'
  (Hs : registry_ok (bindings s)) (Hrun : rebind ts i s = (Ok b, s')) :
  b = new_binding ts (createdAt b) i /\
  map_get (bindings s') (in_runId i) = Some b /\
  (forall r b', map_get (bindings s') r = Some b' -> workspaceId b' = in_workspaceId i ->
     cwd b' = in_dir i -> threadId b' = in_threadId i -> r = in_runId i) /\
  (forall r b', r <> in_runId i -> map_get (bindings s) r = Some b' ->
     threadId b' <> in_threadId i -> map_get (bindings s') r = Some b') /\
  last (writeQueue s') = Some (map_values (bindings s')).
Proof.
  destruct (rebind_cases ts i s) as [[e He]|(Hi & Hok & He & Hrb)]; [congruence|].
  rewrite Hrun in Hrb. injection Hrb as -> ->. cbn [bindings written writeQueue].
  rewrite map_get_set_eq, last_snoc. split_and!; [done|done| | |done].
  - intros r b'. rewrite map_get_set. case_bool_decide as Hr; [done|].
    rewrite map_get_filter by apply Hs. destruct (map_get (bindings s) r) as [b0|]; [|done].
    simpl. case_decide as Hd; [|done]. intros [= ->] H1 H2 H3. exfalso. revert Hd.
    unfold same_thread. cbn. rewrite !bool_decide_eq_true_2 by congruence. done.
  - intros r b' Hr Hb Ht. rewrite map_get_set_ne, map_get_filter, Hb by (done || apply Hs).
    simpl. rewrite decide_True; [done|].
    destruct (same_thread_false_or i (in_dir i) (r, b')) as [?|(_ & _ & _ & ?)]; done.
Qed.

(** C35: whatever calls arrive while writes are pending and wherever those
    writes fail, at every point the registry and all queued snapshots are well
    formed (distinct runs, valid ids, absolute normalised directories), and the
    registry file holds its original contents or one complete snapshot. *)
Theorem registry_file_is_never_torn filePath d0 es w
  (Hw : store_ok (store w)) (Hd : disk w = d0) :
  store_ok (store (run filePath es w)) /\ file_ok filePath d0 (disk (run filePath es w)).
Proof. apply run_ok; [done|]. left. by rewrite Hd. Qed.

(** Once the queue is worked off, whatever happened to the earlier
    writes, if the last write does not fail the file holds the registry of the
    moment, and a store started on that file has exactly those bindings. *)
Theorem restart_restores_bindings filePath ws suffix w
  (Hw : store_ok (store w)) (Hws : forallb is_write ws = true)
  (Hlen : length (writeQueue (store w)) = S (length ws))
  (Hread : readable (map_values (bindings (store w))))
  (Hjson : JSON_parse (serialize (map_values (bindings (store w))))
           = Ok (registry_value (map_values (bindings (store w))))) :
  let w' := run filePath (ws ++ [Write NoFault suffix]) w in
  writeQueue (store w') = [] /\
  exists raw, disk w' !! filePath = Some raw /\
    initialize (readFile (disk w') filePath) fresh_store
    = (Ok tt, {| bindings := bindings (store w); initialized := true; writeQueue := [] |}).
Proof.
  cbv zeta. unfold run. rewrite fold_left_app. fold (run filePath ws w). cbn [fold_left].
  destruct (run_writes_queue filePath ws w Hws) as [Hq Hb].
  destruct (run_ok filePath (disk w) ws w Hw) as [(_ & _ & Hlast) _]; [by left|].
  set (w1 := run filePath ws w) in *. cbn [step].
  destruct (writeQueue (store w1)) as [|snap q] eqn:Eq.
  { apply (f_equal length) in Hq. rewrite length_drop in Hq. simpl in Hq. lia. }
  assert (q = []) as ->.
  { apply (f_equal length) in Hq. rewrite length_drop in Hq. simpl in Hq.
    destruct q; [done|simpl in Hq; lia]. }
  assert (snap = map_values (bindings (store w))) as -> by (rewrite <- Hb; by apply Hlast).
  set (bs := map_values (bindings (store w))) in *.
  pose proof (writeRegistry_atomic NoFault suffix filePath bs (disk w1)) as Hat.
  destruct (writeRegistry _ _ _ _ _) as [r d']. cbn. rewrite Eq. split; [done|].
  destruct Hat as [Hfile Hok]. rewrite (proj2 (Z.ltb_ge _ _)) in Hok by apply Hread.
  rewrite Hok in Hfile. exists (serialize bs). split; [done|].
  unfold readFile. rewrite Hfile. apply initialize_serialize; [apply Hw|done..].
Qed.

(** The write side does not enforce the limit the read side does: a
    registry of more than 2,000 runs that fits the size limit is written, and
    the next start of the store throws. *)
Theorem oversized_registry_is_unreadable filePath suffix d bs
  (Hsize : utf8_len (serialize bs) <= MAX_FILE_BYTES) (Hmany : MAX_BINDINGS < Z.of_nat (length bs))
  (Hjson : JSON_parse (serialize bs) = Ok (registry_value bs)) :
  let d' := (writeRegistry NoFault suffix filePath bs d).2 in
  (writeRegistry NoFault suffix filePath bs d).1 = Ok tt /\
  initialize (readFile d' filePath) fresh_store
  = (fail "unsupported Codex thread registry schema", fresh_store).
Proof.
  cbv zeta. split.
  { unfold writeRegistry. by rewrite (proj2 (Z.ltb_ge _ _) Hsize). }
  pose proof (writeRegistry_atomic NoFault suffix filePath bs d) as Hat.
  destruct (writeRegistry _ _ _ _ _) as [r d']. destruct Hat as [Hfile Hok].
  rewrite (proj2 (Z.ltb_ge _ _) Hsize) in Hok. simpl in Hok. rewrite Hok in Hfile. cbn [snd].
  unfold readFile. rewrite Hfile. unfold initialize, fresh_store. cbn [initialized].
  unfold readRegistry, require. rewrite (proj2 (Z.leb_le _ _) Hsize). simpl. rewrite Hjson. simpl.
  by rewrite length_map, (proj2 (Z.leb_gt _ _)).
Qed.
End Store.

(** *** Witnesses *)

Definition sample_input (r t : string) : BindInput :=
  {| in_runId := js r; in_workspaceId := js "ws"; in_cwd := js "/a/./b"; in_threadId := js t |}.
Definition sample_store : Store :=
  (run_call (js "/") (Bind (js "t1") (sample_input "r1" "th1"))
    {| bindings := []; initialized := true; writeQueue := [] |}).2.
Definition sample_stringify (v : value) : jstr := js "registry".

Lemma sample_store_ok : store_ok (js "/") sample_store.
Proof.
  apply run_call_store_ok.
  repeat split; try done; constructor.
Qed.

Lemma binding_evolution_witness :
  evolves (js "/") (Rebind (js "t2") (sample_input "r2" "th1")) (js "r1")
    (new_binding (js "/") (js "t1") (js "t1") (sample_input "r1" "th1")) None.
Proof.
  apply (binding_evolution (js "/") (Rebind (js "t2") (sample_input "r2" "th1")) sample_store).
  - apply sample_store_ok.
  - vm_compute. reflexivity.
Defined.

Lemma rebind_takes_thread_witness :
  exists b s', rebind (js "/") (js "t2") (sample_input "r2" "th1") sample_store = (Ok b, s') /\
    map_get (bindings s') (js "r2") = Some b.
Proof.
  eexists _, _. split; [vm_compute; reflexivity|].
  refine (proj1 (proj2 (rebind_takes_thread (js "/") (js "t2") (sample_input "r2" "th1") sample_store
    _ _ (proj1 sample_store_ok) _))).
  vm_compute. reflexivity.
Defined.

Definition sample_world : World :=
  {| store := sample_store; disk := {[ js "/reg" := js "old" ]}; outcomes := [] |}.

Lemma registry_file_is_never_torn_witness :
  file_ok (js "/") sample_stringify (js "/reg") {[ js "/reg" := js "old" ]}
    (disk (run (js "/") sample_stringify (js "/reg")
       [Call (Remove (js "r1")); Write (WriteFails 3) (js "x")] sample_world)).
Proof.
  apply (registry_file_is_never_torn (js "/") sample_stringify (js "/reg") {[ js "/reg" := js "old" ]}
    [Call (Remove (js "r1")); Write (WriteFails 3) (js "x")] sample_world).
  - apply sample_store_ok.
  - reflexivity.
Defined.

Lemma restart_restores_bindings_witness :
  exists raw, disk (run (js "/") sample_stringify (js "/reg") [Write NoFault (js "x")] sample_world)
    !! js "/reg" = Some raw.
Proof.
  edestruct (restart_restores_bindings (js "/")
    (fun _ => Ok (registry_value (map_values (bindings sample_store)))) sample_stringify (fun _ => true)
    (js "/reg") [] (js "x") sample_world) as (_ & raw & Hraw & _).
  - apply sample_store_ok.
  - reflexivity.
  - reflexivity.
  - split; [by vm_compute|]. split; [by vm_compute|]. vm_compute. constructor; [done|constructor].
  - reflexivity.
  - exists raw. exact Hraw.
Defined.

Definition many_bindings : list CodexThreadBinding :=
  map (fun n => {| runId := js_int (Z.of_nat n); workspaceId := js "ws"; cwd := js "/";
                   threadId := js "th"; createdAt := js "t"; updatedAt := js "t" |}) (seq 0 2001).
Lemma oversized_registry_is_unreadable_witness :
  (writeRegistry sample_stringify NoFault (js "x") (js "/reg") many_bindings ∅).1 = Ok tt.
Proof.
  apply (oversized_registry_is_unreadable (js "/") (fun _ => Ok (registry_value many_bindings))
    sample_stringify (fun _ => true) (js "/reg") (js "x") ∅ many_bindings).
  - vm_compute. done.
  - vm_compute. done.
  - reflexivity.
Defined.

End CodexThreadStore.
