(* ===== verification/CodexNative.v ===== *)
(** * Native threads, conversations and usage

    [desktop/src/main/codex-app-server-host.ts], the parts of the host that
    read the app-server's own records: the checked views of threads, messages,
    rate limits and usage (lines 638 to 800), and the two paged readings
    [listThreads] and [readConversationHistory] (lines 276 to 386).

    The app-server is an oracle over the requests sent so far; [realpath], the
    clock and the formatting of dates are arguments. A paged reading takes
    fuel; that it runs out is the value [None]. *)

From S2P Require Import Prelude JsValue JsMap Path Validate.

Module CodexNative.

Definition MAX_NATIVE_THREADS : Z := 2000.
Definition MAX_NATIVE_TURNS : Z := 2000.
Definition MAX_NATIVE_MESSAGES : Z := 4000.
Definition MAX_TEXT : Z := 256 * 1024.

Record CodexNativeThreadSummary := {
  t_threadId : jstr; t_cwd : jstr; t_name : option jstr; t_preview : jstr; t_model : option jstr;
  t_createdAt : jstr; t_updatedAt : jstr; t_status : jstr }.
Inductive role := user | assistant.
#[global] Instance role_eq_dec : EqDecision role.
Proof. solve_decision. Defined.
Record CodexNativeConversationMessage := {
  m_id : jstr; m_role : role; m_text : jstr; m_createdAt : jstr; m_turnId : jstr }.
Record CodexNativeRateLimitWindow := { usedPercent : Z; windowDurationMins : option Z; resetsAt : option Z }.
Record CodexNativeCredits := { hasCredits : bool; unlimited : bool; balance : option jstr }.
Record CodexNativeRateLimitBucket := {
  limitId : option jstr; limitName : option jstr; planType : option jstr;
  primary : option CodexNativeRateLimitWindow; secondary : option CodexNativeRateLimitWindow;
  credits : option CodexNativeCredits }.
Record CodexNativeRateLimits := {
  buckets : list CodexNativeRateLimitBucket; resetCreditsAvailable : option Z }.
Record CodexNativeUsageGroup := {
  g_model : option jstr; reasoningEffort : option jstr; speed : option jstr; totalTokens : option Z;
  inputTokens : option Z; cachedInputTokens : option Z; netNewInputTokens : option Z;
  outputTokens : option Z; g_creditsMicros : Z }.
Record CodexNativeThreadUsage := {
  u_threadId : jstr; u_creditsMicros : Z; u_usdMicros : option Z; groups : list CodexNativeUsageGroup }.
Record CodexNativeAccountUsage := {
  lifetimeTokens : option Z; peakDailyTokens : option Z; currentStreakDays : option Z;
  longestStreakDays : option Z; longestRunningTurnSec : option Z;
  threadUsage : option CodexNativeThreadUsage }.

(** ** Fields *)

Definition get (r : list (jstr * value)) (key : string) : value := field r (js key).
Definition record (v : value) : result (list (jstr * value)) :=
  match is_record v with Some r => Ok r | None => fail "Codex app-server response is invalid" end.
Definition recordOrNull (v : value) : option (list (jstr * value)) := is_record v.
Definition bad {A} (label : string) : result A := fail (label +:+ " is invalid").
Definition requiredString (v : value) (label : string) : result jstr :=
  match v with
  | VString s => if truthy s && negb (has_line_break_or_nul s) then Ok s else bad label
  | _ => bad label
  end.
Definition validateNativeId (v : value) (label : string) : result jstr :=
  s ← requiredString v label;
  if 256 <? slen s then bad label else Ok s.

Definition ELLIPSIS : N := 0x2026.
Definition boundedNativeText (s : jstr) (maxChars : Z) : jstr :=
  if slen s <=? maxChars then s else take (Z.to_nat (Z.max 1 (maxChars - 1))) s ++ [ELLIPSIS].

Definition safeInteger (v : value) (label : string) : result Z :=
  match v with
  | VNumber n => match safe_in_range 0 MAX_SAFE_INTEGER n with Some z => Ok z | None => bad label end
  | _ => bad label
  end.
Definition nullableSafeInteger (v : value) : option Z :=
  match v with VNumber n => safe_in_range 0 MAX_SAFE_INTEGER n | _ => None end.
Definition nullableText (v : value) (maxChars : Z) : option jstr :=
  match v with
  | VString s => if truthy (trim s) then Some (boundedNativeText (trim s) maxChars) else None
  | _ => None
  end.
(** A field of an object that may be missing ([resetCredits?.availableCount]) *)
Definition optional_get (r : option (list (jstr * value))) (key : string) : value :=
  match r with Some r => get r key | None => VUndefined end.

(** [typeof value !== "number" || !Number.isFinite(value) || value < 0], negated *)
Definition finite_nonnegative (n : num) : bool :=
  match n with NInt z => 0 <=? z | NFrac m _ => 0 <=? m | _ => false end.

(** ** Rate limits and usage *)

Definition parseNativeRateLimitWindow (v : value) : result (option CodexNativeRateLimitWindow) :=
  match recordOrNull v with
  | None => Ok None
  | Some w =>
      used ← safeInteger (get w "usedPercent") "Codex rate limit usedPercent";
      Ok (Some {| usedPercent := Z.max 0 (Z.min 100 used);
                  windowDurationMins := nullableSafeInteger (get w "windowDurationMins");
                  resetsAt := nullableSafeInteger (get w "resetsAt") |})
  end.
Definition parseNativeCredits (v : value) : option CodexNativeCredits :=
  match recordOrNull v with
  | None => None
  | Some c =>
      match get c "hasCredits", get c "unlimited" with
      | VBool h, VBool u => Some {| hasCredits := h; unlimited := u; balance := nullableText (get c "balance") 120 |}
      | _, _ => None
      end
  end.
Definition parseNativeRateLimitBucket (v : value) : result CodexNativeRateLimitBucket :=
  b ← record v;
  p ← parseNativeRateLimitWindow (get b "primary");
  s ← parseNativeRateLimitWindow (get b "secondary");
  Ok {| limitId := nullableText (get b "limitId") 120; limitName := nullableText (get b "limitName") 160;
        planType := nullableText (get b "planType") 120; primary := p; secondary := s;
        credits := parseNativeCredits (get b "credits") |}.
Definition parseNativeRateLimits (v : value) : result CodexNativeRateLimits :=
  r ← record v;
  by_id ← match recordOrNull (get r "rateLimitsByLimitId") with
          | Some m => map_result (fun kv => parseNativeRateLimitBucket kv.2) m
          | None => Ok []
          end;
  bs ← match by_id, get r "rateLimits" with
       | [], VUndefined => Ok []
       | [], single => (fun b => [b]) <$> parseNativeRateLimitBucket single
       | _, _ => Ok by_id
       end;
  Ok {| buckets := bs;
        resetCreditsAvailable :=
          nullableSafeInteger (optional_get (recordOrNull (get r "rateLimitResetCredits")) "availableCount") |}.

Definition parseNativeUsageGroup (v : value) : result CodexNativeUsageGroup :=
  g ← record v;
  c ← safeInteger (get g "estimatedUsageCreditsMicros") "Codex usage group credits";
  Ok {| g_model := nullableText (get g "model") 120; reasoningEffort := nullableText (get g "reasoningEffort") 80;
        speed := nullableText (get g "speed") 80; totalTokens := nullableSafeInteger (get g "totalTokens");
        inputTokens := nullableSafeInteger (get g "inputTokens");
        cachedInputTokens := nullableSafeInteger (get g "cachedInputTokens");
        netNewInputTokens := nullableSafeInteger (get g "netNewInputTokens");
        outputTokens := nullableSafeInteger (get g "outputTokens"); g_creditsMicros := c |}.
Definition parseNativeAccountUsage (v : value) : result CodexNativeAccountUsage :=
  r ← record v;
  s ← record (get r "summary");
  t ← match recordOrNull (get r "threadUsage") with
      | None => Ok None
      | Some t =>
          i ← requiredString (get t "threadId") "Codex usage thread id";
          c ← safeInteger (get t "estimatedUsageCreditsMicros") "Codex estimated usage credits";
          gs ← match get t "groups" with VArray l => map_result parseNativeUsageGroup l | _ => Ok [] end;
          Ok (Some {| u_threadId := i; u_creditsMicros := c;
                      u_usdMicros := nullableSafeInteger (get t "estimatedUsageUsdMicros"); groups := gs |})
      end;
  Ok {| lifetimeTokens := nullableSafeInteger (get s "lifetimeTokens");
        peakDailyTokens := nullableSafeInteger (get s "peakDailyTokens");
        currentStreakDays := nullableSafeInteger (get s "currentStreakDays");
        longestStreakDays := nullableSafeInteger (get s "longestStreakDays");
        longestRunningTurnSec := nullableSafeInteger (get s "longestRunningTurnSec"); threadUsage := t |}.

(** ** Messages *)

(** One input of a user message *)
Definition input_part (v : value) : option jstr :=
  input ← recordOrNull v;
  if is_string (get input "type") (js "text") then
    match get input "text" with VString t => if truthy (trim t) then Some t else None | _ => None end
  else if is_string (get input "type") (js "mention") then
    match get input "name" with VString n => Some (js "@" ++ n) | _ => None end
  else None.
Definition userMessageText (v : value) : jstr :=
  match v with
  | VArray l => boundedNativeText (trim (join [10%N] (omap input_part l))) MAX_TEXT
  | _ => []
  end.

Definition CODEX_HARNESS_INTERNAL_RECOVERY_PREFIX : jstr := js "[[SOURCENERVE_HARNESS_RECOVERY]]".
Definition isCodexHarnessInternalRecoveryPrompt (s : jstr) : bool :=
  starts_with (trim_start s) CODEX_HARNESS_INTERNAL_RECOVERY_PREFIX.

(** ** Readings *)

Section Reading.
(** [new Date(value * 1000).toISOString()], [None] for an invalid date;
    [new Date().toISOString()] and [new Date(0).toISOString()] *)
Context (date_iso : num -> option jstr) (now epoch : jstr).
(** [fs.realpath] (it may fail) and the working directory *)
Context (realpath : jstr -> option jstr) (process_cwd : jstr).
(** What the app-server answers to the last of the requests sent *)
Context (answer : list (jstr * value) -> result value).

Definition unixSecondsToIso (v : value) : option jstr :=
  match v with VNumber n => if finite_nonnegative n then date_iso n else None | _ => None end.

Definition parseNativeThreadSummary (v : value) : result (CodexNativeThreadSummary * option jstr) :=
  t ← record v;
  i ← requiredString (get t "id") "Codex thread id";
  c ← requiredString (get t "cwd") "Codex thread cwd";
  _ ← require (isAbsolute c) "Codex thread cwd is invalid";
  let created := unixSecondsToIso (get t "createdAt") in
  let summary := {|
    t_threadId := i; t_cwd := resolve process_cwd c;
    t_name := match get t "name" with
              | VString n => if truthy (trim n) then Some (boundedNativeText n 240) else None | _ => None end;
    t_preview := match get t "preview" with VString p => boundedNativeText p 600 | _ => [] end;
    t_model := match get t "model" with
               | VString m => if truthy m then Some (boundedNativeText m 120) else None | _ => None end;
    t_createdAt := default epoch created;
    t_updatedAt := default (default epoch created) (unixSecondsToIso (get t "updatedAt"));
    t_status := match optional_get (recordOrNull (get t "status")) "type" with
                | VString s => boundedNativeText s 80 | _ => js "unknown" end |} in
  Ok (summary, match get t "parentThreadId" with
               | VString p => if truthy p then Some p else None | _ => None end).

Definition normalizeAbsolutePath (v : jstr) (label : string) : result jstr :=
  if isAbsolute v then Ok (resolve process_cwd v) else fail (label +:+ " must be absolute").
Definition canonicalNativePath (p : jstr) : jstr :=
  let resolved := resolve process_cwd p in default resolved (realpath resolved).
Definition workspaceContainsNativePath (workspaceRoot candidate : jstr) : bool :=
  leads_down (relative process_cwd workspaceRoot (canonicalNativePath candidate)).

(** [await this.requireRpc().request(method, params)] *)
Definition send (method : string) (params : value) : M (list (jstr * value)) value := fun sent =>
  let sent := sent ++ [(js method, params)] in (answer sent, sent).

Definition array_or_empty (v : value) : list value := match v with VArray l => l | _ => [] end.
Definition next_cursor (r : list (jstr * value)) : option jstr :=
  match get r "nextCursor" with VString c => if truthy c then Some c else None | _ => None end.
Definition cursor_field (c : option jstr) : list (jstr * value) :=
  match c with Some c => [(js "cursor", VString c)] | None => [] end.

Definition thread_list_params (scanned : Z) (cursor : option jstr) : value :=
  VObject ([(js "limit", VInt (Z.min 100 (MAX_NATIVE_THREADS - scanned)))] ++ cursor_field cursor ++
    [(js "sortKey", VString (js "updated_at")); (js "sortDirection", VString (js "desc"));
     (js "sourceKinds", VArray (map (fun s => VString (js s)) ["cli"; "vscode"; "exec"; "appServer"; "unknown"]%string))]).

(** The loop over one page: what it keeps, up to the limit. *)
Fixpoint list_page (workspaceRoot : jstr) (limit : Z) (data : list value) (threads : list CodexNativeThreadSummary)
  : result (list CodexNativeThreadSummary) :=
  match data with
  | [] => Ok threads
  | v :: data' =>
      parsed ← parseNativeThreadSummary v;
      if bool_decide (is_Some parsed.2) then list_page workspaceRoot limit data' threads
      else if negb (workspaceContainsNativePath workspaceRoot (t_cwd parsed.1))
           then list_page workspaceRoot limit data' threads
      else let threads := threads ++ [parsed.1] in
           if limit <=? Z.of_nat (length threads) then Ok threads
           else list_page workspaceRoot limit data' threads
  end.
(** The loop over the pages *)
Fixpoint list_pages (fuel : nat) (workspaceRoot : jstr) (limit scanned : Z) (cursor : option jstr)
    (threads : list CodexNativeThreadSummary) : M (list (jstr * value)) (option (list CodexNativeThreadSummary)) :=
  if negb ((Z.of_nat (length threads) <? limit) && (scanned <? MAX_NATIVE_THREADS)) then mret (Some threads)
  else match fuel with
  | O => mret None
  | S fuel' =>
      reply ← send "thread/list" (thread_list_params scanned cursor);
      response ← lift (record reply);
      let data := array_or_empty (get response "data") in
      let scanned := scanned + Z.of_nat (length data) in
      threads ← lift (list_page workspaceRoot limit data threads);
      match next_cursor response, data with
      | Some c, _ :: _ => list_pages fuel' workspaceRoot limit scanned (Some c) threads
      | _, _ => mret (Some threads)
      end
  end.
(** [limit] is a JavaScript number *)
Definition listThreads (fuel : nat) (cwd : jstr) (limit : num)
  : M (list (jstr * value)) (option (list CodexNativeThreadSummary)) :=
  absolute ← lift (normalizeAbsolutePath cwd "Codex thread list cwd");
  let workspaceRoot := canonicalNativePath absolute in
  match safe_in_range 1 MAX_NATIVE_THREADS limit with
  | None => throw "Codex thread list limit is invalid"
  | Some limit => list_pages fuel workspaceRoot limit 0 None []
  end.

(** A turn's items, and whether it is a recovery turn of the harness *)
Definition is_recovery (item : value) : bool :=
  match recordOrNull item with
  | Some i => is_string (get i "type") (js "userMessage") &&
              isCodexHarnessInternalRecoveryPrompt (userMessageText (get i "content"))
  | None => false
  end.
Definition item_id (turnId : jstr) (i : list (jstr * value)) (n : nat) : jstr :=
  match get i "id" with
  | VString s => if truthy s then s else turnId ++ js ":" ++ js_int (Z.of_nat n)
  | _ => turnId ++ js ":" ++ js_int (Z.of_nat n)
  end.
(** One item: the messages and the assistant's parts after it *)
Definition read_item (turnId createdAt : jstr) (recovery : bool) (i : list (jstr * value))
    (w : list CodexNativeConversationMessage * list jstr) : list CodexNativeConversationMessage * list jstr :=
  let (messages, parts) := w in
  if is_string (get i "type") (js "userMessage") then
    let t := userMessageText (get i "content") in
    if truthy t && negb recovery
    then (messages ++ [{| m_id := item_id turnId i (length messages); m_role := user; m_text := t;
                          m_createdAt := createdAt; m_turnId := turnId |}], parts)
    else (messages, parts)
  else if is_string (get i "type") (js "agentMessage") then
    match get i "text" with
    | VString t => if truthy (trim t) then (messages, parts ++ [t]) else (messages, parts)
    | _ => (messages, parts)
    end
  else (messages, parts).
Fixpoint read_items (turnId createdAt : jstr) (recovery : bool) (items : list value)
    (w : list CodexNativeConversationMessage * list jstr)
  : result (list CodexNativeConversationMessage * list jstr) :=
  match items with
  | [] => Ok w
  | v :: items' =>
      match recordOrNull v with
      | None => read_items turnId createdAt recovery items' w
      | Some i =>
          let w := read_item turnId createdAt recovery i w in
          _ ← require (Z.of_nat (length w.1) <? MAX_NATIVE_MESSAGES)
                "Codex conversation history exceeds the Desktop message limit";
          read_items turnId createdAt recovery items' w
      end
  end.
Definition assistant_message (turnId createdAt text : jstr) : CodexNativeConversationMessage :=
  {| m_id := js "assistant:" ++ turnId; m_role := assistant; m_text := boundedNativeText text MAX_TEXT;
     m_createdAt := createdAt; m_turnId := turnId |}.
Definition read_turn (fallbackTimestamp : jstr) (v : value) (messages : list CodexNativeConversationMessage)
  : result (list CodexNativeConversationMessage) :=
  turn ← record v;
  turnId ← requiredString (get turn "id") "Codex turn id";
  let createdAt := default (default fallbackTimestamp (unixSecondsToIso (get turn "completedAt")))
                     (unixSecondsToIso (get turn "startedAt")) in
  let items := array_or_empty (get turn "items") in
  w ← read_items turnId createdAt (existsb is_recovery items) items (messages, []);
  Ok (match w.2 with
      | [] => w.1
      | parts => w.1 ++ [assistant_message turnId createdAt (join [10%N; 10%N] parts)]
      end).
Fixpoint read_turns (fallbackTimestamp : jstr) (turns : list value) (messages : list CodexNativeConversationMessage)
  : result (list CodexNativeConversationMessage) :=
  match turns with
  | [] => Ok messages
  | v :: turns' => messages ← read_turn fallbackTimestamp v messages; read_turns fallbackTimestamp turns' messages
  end.

Definition turns_list_params (threadId : jstr) (loadedTurns : Z) (cursor : option jstr) : value :=
  VObject ([(js "threadId", VString threadId); (js "limit", VInt (Z.min 100 (MAX_NATIVE_TURNS - loadedTurns)))] ++
    cursor_field cursor ++ [(js "sortDirection", VString (js "asc")); (js "itemsView", VString (js "full"))]).
(** The loop over the pages, with the cursor it ends on *)
Fixpoint turn_pages (fuel : nat) (threadId fallbackTimestamp : jstr) (loadedTurns : Z) (cursor : option jstr)
    (messages : list CodexNativeConversationMessage)
  : M (list (jstr * value)) (option (list CodexNativeConversationMessage * option jstr)) :=
  if negb (loadedTurns <? MAX_NATIVE_TURNS) then mret (Some (messages, cursor))
  else match fuel with
  | O => mret None
  | S fuel' =>
      reply ← send "thread/turns/list" (turns_list_params threadId loadedTurns cursor);
      response ← lift (record reply);
      let turns := array_or_empty (get response "data") in
      messages ← lift (read_turns fallbackTimestamp turns messages);
      match next_cursor response with
      | None => mret (Some (messages, None))
      | Some c => turn_pages fuel' threadId fallbackTimestamp (loadedTurns + Z.of_nat (length turns)) (Some c) messages
      end
  end.

Definition message_index (id : jstr) (messages : list CodexNativeConversationMessage) : option nat :=
  fst <$> list_find (fun m => m_id m = id) messages.
(** The text so far of a turn that is still running takes the place of its
    message, or is added. *)
Definition add_active (active : option (jstr * jstr)) (messages : list CodexNativeConversationMessage)
  : list CodexNativeConversationMessage :=
  match active with
  | None => messages
  | Some (turnId, text) =>
      if truthy turnId && truthy (trim text) then
        match message_index (js "assistant:" ++ turnId) messages with
        | Some i =>
            let created := default now (m_createdAt <$> messages !! i) in
            <[i := assistant_message turnId created text]> messages
        | None => messages ++ [assistant_message turnId now text]
        end
      else messages
  end.
(** [active]: the running turn of this thread and the text it has so far,
    [this.activeTurnId] and [this.turnAgentMessageText(activeTurnId)] *)
Definition readConversationHistory (fuel : nat) (threadId : value) (active : option (jstr * jstr))
  : M (list (jstr * value)) (option (list CodexNativeConversationMessage)) :=
  threadId ← lift (validateNativeId threadId "Codex thread id");
  reply ← send "thread/read" (VObject [(js "threadId", VString threadId); (js "includeTurns", VBool false)]);
  metadataResponse ← lift (record reply);
  let metadata := default metadataResponse (recordOrNull (get metadataResponse "thread")) in
  let fallbackTimestamp := default (default now (unixSecondsToIso (get metadata "createdAt")))
                             (unixSecondsToIso (get metadata "updatedAt")) in
  pages ← turn_pages fuel threadId fallbackTimestamp 0 None [];
  match pages with
  | None => mret None
  | Some (messages, Some _) => throw "Codex conversation history exceeds the Desktop turn limit"
  | Some (messages, None) => mret (Some (add_active active messages))
  end.
End Reading.

(** ** Bounded views *)

Definition at_most (n : Z) (o : option jstr) : Prop := forall s, o = Some s -> 0 < slen s <= n.
Definition count_or_null (o : option Z) : Prop := forall z, o = Some z -> 0 <= z <= MAX_SAFE_INTEGER.

Lemma boundedNativeText_bound s n : 2 <= n -> slen (boundedNativeText s n) <= n.
Proof.
  intros Hn. unfold boundedNativeText, slen. destruct (Z.of_nat (length s) <=? n) eqn:E; to_prop; [done|].
  rewrite length_app, length_take. simpl. lia.
Qed.
Lemma boundedNativeText_id s n : slen s <= n -> boundedNativeText s n = s.
Proof. intros H. unfold boundedNativeText. by rewrite (proj2 (Z.leb_le _ _) H). Qed.
Lemma boundedNativeText_filled s n : 2 <= n -> s <> [] -> 0 < slen (boundedNativeText s n).
Proof.
  intros Hn Hs. unfold boundedNativeText. destruct (slen s <=? n).
  - destruct s; [done|]. unfold slen. simpl. lia.
  - unfold slen. rewrite length_app. simpl. lia.
Qed.
Lemma nullableText_bound v n : 2 <= n -> at_most n (nullableText v n).
Proof.
  intros Hn s. destruct v; try done. cbn. destruct (truthy (trim s0)) eqn:E; [|done]. intros [= <-].
  apply truthy_true in E. split; [by apply boundedNativeText_filled|by apply boundedNativeText_bound].
Qed.
Lemma nullableSafeInteger_bound v : count_or_null (nullableSafeInteger v).
Proof. intros z. destruct v; try done. cbn. intros H. by apply safe_in_range_Some in H as (_ & ? & _). Qed.
Lemma safeInteger_bound v label z : safeInteger v label = Ok z -> 0 <= z <= MAX_SAFE_INTEGER.
Proof.
  destruct v; try done. cbn. destruct (safe_in_range _ _ _) eqn:E; [|done]. intros [= <-].
  by apply safe_in_range_Some in E as (_ & ? & _).
Qed.
(** A text cut to its limit, or a checked count *)
Ltac bounded := first [apply nullableText_bound; lia | apply nullableSafeInteger_bound].

Definition window_ok (w : CodexNativeRateLimitWindow) : Prop :=
  0 <= usedPercent w <= 100 /\ count_or_null (windowDurationMins w) /\ count_or_null (resetsAt w).
Definition bucket_ok (b : CodexNativeRateLimitBucket) : Prop :=
  at_most 120 (limitId b) /\ at_most 160 (limitName b) /\ at_most 120 (planType b) /\
  (forall w, primary b = Some w \/ secondary b = Some w -> window_ok w) /\
  (forall c, credits b = Some c -> at_most 120 (balance c)).
Definition group_ok (g : CodexNativeUsageGroup) : Prop :=
  at_most 120 (g_model g) /\ at_most 80 (reasoningEffort g) /\ at_most 80 (speed g) /\
  Forall count_or_null [totalTokens g; inputTokens g; cachedInputTokens g; netNewInputTokens g; outputTokens g;
                        Some (g_creditsMicros g)].
Definition thread_usage_ok (u : CodexNativeThreadUsage) : Prop :=
  count_or_null (Some (u_creditsMicros u)) /\ count_or_null (u_usdMicros u) /\ Forall group_ok (groups u).
Definition account_usage_ok (u : CodexNativeAccountUsage) : Prop :=
  Forall count_or_null [lifetimeTokens u; peakDailyTokens u; currentStreakDays u; longestStreakDays u;
                        longestRunningTurnSec u] /\
  forall t, threadUsage u = Some t -> thread_usage_ok t.

Lemma count_or_null_Some z : 0 <= z <= MAX_SAFE_INTEGER -> count_or_null (Some z).
Proof. by intros ? ? [= <-]. Qed.

Lemma window_bounded v o : parseNativeRateLimitWindow v = Ok o -> forall w, o = Some w -> window_ok w.
Proof.
  unfold parseNativeRateLimitWindow. destruct (recordOrNull v); intros H; inv_ok; [|done].
  intros w [= <-]. split_and!; cbn; [lia|lia|bounded..].
Qed.
Lemma bucket_bounded v b : parseNativeRateLimitBucket v = Ok b -> bucket_ok b.
Proof.
  unfold parseNativeRateLimitBucket. intros H. apply bind_Ok in H as (r & _ & H).
  apply bind_Ok in H as (p & Hp & H). apply bind_Ok in H as (s & Hs & [= <-]).
  split_and!; cbn [limitId limitName planType primary secondary credits]; [bounded..| |].
  - intros w [E|E]; [by apply (window_bounded _ _ Hp)|by apply (window_bounded _ _ Hs)].
  - intros c. unfold parseNativeCredits. destruct (recordOrNull _) as [f|]; [|done].
    destruct (get f "hasCredits"); try done. destruct (get f "unlimited"); try done.
    intros [= <-]. cbn [balance]. bounded.
Qed.
Lemma limits_bounded v l : parseNativeRateLimits v = Ok l ->
  Forall bucket_ok (buckets l) /\ count_or_null (resetCreditsAvailable l).
Proof.
  unfold parseNativeRateLimits. intros H. apply bind_Ok in H as (r & _ & H).
  apply bind_Ok in H as (by_id & Hid & H). apply bind_Ok in H as (bs & Hbs & [= <-]).
  cbn [buckets resetCreditsAvailable]. split; [|apply nullableSafeInteger_bound].
  assert (Forall bucket_ok by_id) as Hall.
  { destruct (recordOrNull _); inv_ok; [|constructor]. eapply map_result_Forall; [exact Hid|].
    intros kv b. apply bucket_bounded. }
  destruct by_id as [|b0 by_id]; [|destruct (get r "rateLimits"); inv_ok; done].
  assert (bs = [] \/ (fun b => [b]) <$> parseNativeRateLimitBucket (get r "rateLimits") = Ok bs) as [->|H]
    by (destruct (get r "rateLimits"); [left; by inv_ok|right; exact Hbs..]); [constructor|].
  apply fmap_Ok in H as (b & Hb & ->). constructor; [by eapply bucket_bounded|constructor].
Qed.
Lemma group_bounded v g : parseNativeUsageGroup v = Ok g -> group_ok g.
Proof.
  unfold parseNativeUsageGroup. intros H. apply bind_Ok in H as (r & _ & H).
  apply bind_Ok in H as (c & Hc%safeInteger_bound & [= <-]). split_and!; cbn; [bounded..|].
  forall_list; first [by apply count_or_null_Some|bounded].
Qed.
Lemma account_usage_bounded v u : parseNativeAccountUsage v = Ok u -> account_usage_ok u.
Proof.
  unfold parseNativeAccountUsage. intros H. apply bind_Ok in H as (r & _ & H). apply bind_Ok in H as (s & _ & H).
  apply bind_Ok in H as (o & Ho & [= <-]). split; cbn; [forall_list; bounded|]. intros t ->.
  destruct (recordOrNull _) as [f|]; [|done]. apply bind_Ok in Ho as (i & _ & Ho).
  apply bind_Ok in Ho as (c & Hc%safeInteger_bound & Ho). apply bind_Ok in Ho as (gs & Hgs & [= <-]).
  split_and!; cbn; [by apply count_or_null_Some|bounded|].
  destruct (get f "groups"); inv_ok; try constructor. eapply map_result_Forall; [exact Hgs|apply group_bounded].
Qed.

(** What the host reports of the account is within fixed bounds, whatever
    the app-server sends: percentages lie between 0 and 100, counts are
    nonnegative safe integers, and names are nonempty and cut to their limits. *)
Theorem native_account_views_bounded v :
  (forall l, parseNativeRateLimits v = Ok l ->
     Forall bucket_ok (buckets l) /\ count_or_null (resetCreditsAvailable l)) /\
  (forall u, parseNativeAccountUsage v = Ok u -> account_usage_ok u).
Proof. split; [apply limits_bounded|apply account_usage_bounded]. Qed.

(** ** The thread list *)

Section Listing.
Context (date_iso : num -> option jstr) (epoch : jstr) (realpath : jstr -> option jstr) (process_cwd : jstr)
        (answer : list (jstr * value) -> result value).
Let parse := parseNativeThreadSummary date_iso epoch process_cwd.
Let listing := listThreads date_iso epoch realpath process_cwd answer.

Definition inside (root path : jstr) : Prop :=
  prefix (segments process_cwd root) (segments process_cwd (canonicalNativePath realpath process_cwd path)).
(** A thread that may be listed: top-level and inside the workspace *)
Definition listed (root : jstr) (t : CodexNativeThreadSummary) : Prop :=
  (exists v, parse v = Ok (t, None)) /\ inside root (t_cwd t).

Lemma list_page_spec root limit data threads r : Z.of_nat (length threads) < limit -> Forall (listed root) threads ->
  list_page date_iso epoch realpath process_cwd root limit data threads = Ok r ->
  Forall (listed root) r /\ Z.of_nat (length r) <= limit.
Proof.
  intros Hlen Hall. revert threads Hlen Hall. induction data as [|v data IH]; intros threads Hlen Hall H; cbn in H.
  { inv_ok. split; [done|lia]. }
  apply bind_Ok in H as ([t p] & Hp & H). cbn [fst snd] in H.
  destruct p as [p|]; cbn in H; [by apply (IH threads)|].
  destruct (workspaceContainsNativePath _ _ _ _) eqn:Hin; cbn in H; [|by apply (IH threads)].
  unfold workspaceContainsNativePath in Hin. rewrite relative_leads_down in Hin. to_prop.
  assert (Forall (listed root) (threads ++ [t])).
  { apply Forall_app. split; [done|]. apply Forall_singleton. split; [by exists v|done]. }
  rewrite length_app in H. cbn in H. destruct (limit <=? _) eqn:El; to_prop.
  - inv_ok. split; [done|]. rewrite length_app. cbn. lia.
  - eapply IH; [|done|exact H]. rewrite length_app. cbn. lia.
Qed.

Lemma list_pages_spec fuel root limit scanned cursor threads sent :
  MAX_NATIVE_THREADS - scanned <= Z.of_nat fuel -> Z.of_nat (length threads) <= limit -> Forall (listed root) threads ->
  let (r, sent') := list_pages date_iso epoch realpath process_cwd answer fuel root limit scanned cursor threads sent in
  r <> Ok None /\ (length sent' <= length sent + fuel)%nat /\
  forall l, r = Ok (Some l) -> Forall (listed root) l /\ Z.of_nat (length l) <= limit.
Proof.
  revert scanned cursor threads sent. induction fuel as [|fuel IH]; intros scanned cursor threads sent Hf Hlen Hall.
  - cbn [list_pages]. rewrite (proj2 (Z.ltb_ge scanned MAX_NATIVE_THREADS)) by lia. rewrite andb_false_r. cbn.
    split_and!; [done|lia|by intros l [= <-]].
  - cbn [list_pages]. destruct (negb _) eqn:Ego.
    { cbn. split_and!; [done|lia|by intros l [= <-]]. }
    apply negb_false_iff in Ego. to_prop. unfold send, lift. rewrite !M_bind_run. cbv zeta beta.
    set (sent1 := sent ++ _). assert (length sent1 = S (length sent)) as H1 by (unfold sent1; rewrite length_app; cbn; lia).
    destruct (answer sent1) as [reply|e]; [|split_and!; [done|lia|done]].
    rewrite M_bind_run. destruct (record reply) as [response|e]; [|split_and!; [done|lia|done]].
    rewrite M_bind_run. destruct (list_page _ _ _ _ _ _ _ _) as [threads1|e] eqn:Ep; [|split_and!; [done|lia|done]].
    apply list_page_spec in Ep as [Hall1 Hlen1]; [|lia|done].
    destruct (next_cursor response) as [c|]; [|split_and!; [done|lia|by intros l [= <-]]].
    destruct (array_or_empty _) as [|v data]; [split_and!; [done|lia|by intros l [= <-]]|].
    set (scanned1 := scanned + _).
    assert (scanned + 1 <= scanned1) by (subst scanned1; cbn [length]; lia).
    specialize (IH scanned1 (Some c) threads1 sent1 ltac:(lia) Hlen1 Hall1).
    destruct (list_pages _ _ _ _ _ _ _ _ _ _ _ _) as [r sent']. destruct IH as (? & ? & ?). split_and!; [done|lia|done].
Qed.

(** Listing the threads of a workspace ends after at most 2,000 requests
    and returns no more threads than were asked for, each of them top-level
    and in a directory whose canonical path lies inside the workspace,
    whatever the app-server answers. *)
Theorem thread_list_confined cwd limit :
  let (r, sent) := listing 2000 cwd limit [] in
  (length sent <= 2000)%nat /\
  match r with
  | Ok (Some threads) => exists n, limit = NInt n /\ 1 <= n <= 2000 /\ Z.of_nat (length threads) <= n /\
      Forall (listed (canonicalNativePath realpath process_cwd (resolve process_cwd cwd))) threads
  | Ok None => False
  | Throw _ => True
  end.
Proof.
  subst listing. unfold listThreads, normalizeAbsolutePath, lift. rewrite M_bind_run.
  destruct (isAbsolute cwd); [|split; [cbn; lia|done]].
  destruct (safe_in_range 1 MAX_NATIVE_THREADS limit) as [n|] eqn:En; [|split; [cbn; lia|done]].
  apply safe_in_range_Some in En as (-> & Hn & _). unfold MAX_NATIVE_THREADS in Hn.
  set (root := canonicalNativePath realpath process_cwd (resolve process_cwd cwd)).
  pose proof (list_pages_spec 2000 root n 0 None [] [] ltac:(unfold MAX_NATIVE_THREADS; lia) ltac:(cbn; lia)
    (Forall_nil_2 _)) as H.
  destruct (list_pages _ _ _ _ _ 2000 _ _ _ _ _ _) as [r sent]. destruct H as (H1 & H2 & H3). cbn [length] in H2.
  split; [lia|]. destruct r as [[threads|]|e]; [|done|done]. exists n. split_and!; [done|lia|lia|..]; by apply H3.
Qed.
End Listing.

(** ** The conversation *)

Section History.
Context (date_iso : num -> option jstr) (now : jstr) (answer : list (jstr * value) -> result value).
Let history := readConversationHistory date_iso now answer.
Let pages := turn_pages date_iso answer.

(** A message that may be shown: bounded, and never a prompt by which the
    harness recovered a turn. *)
Definition message_ok (m : CodexNativeConversationMessage) : Prop :=
  slen (m_text m) <= MAX_TEXT /\
  (m_role m = user -> m_text m <> [] /\ isCodexHarnessInternalRecoveryPrompt (m_text m) = false).
Definition messages_ok (l : list CodexNativeConversationMessage) : Prop :=
  Forall message_ok l /\ Z.of_nat (length l) <= MAX_NATIVE_MESSAGES.
(** ... and there is room for one more when the turn has assistant parts. *)
Definition reading_ok (w : list CodexNativeConversationMessage * list jstr) : Prop :=
  messages_ok w.1 /\ (w.2 <> [] -> Z.of_nat (length w.1) < MAX_NATIVE_MESSAGES).

Lemma userMessageText_bound v : slen (userMessageText v) <= MAX_TEXT.
Proof. destruct v; try done. cbn. by apply boundedNativeText_bound. Qed.
Lemma assistant_message_ok turnId createdAt text : message_ok (assistant_message turnId createdAt text).
Proof. split; [by apply boundedNativeText_bound|done]. Qed.

Lemma read_item_ok turnId createdAt recovery i w : (recovery = false -> is_recovery (VObject i) = false) ->
  Forall message_ok w.1 -> Forall message_ok (read_item turnId createdAt recovery i w).1.
Proof.
  intros Hrec Hw. destruct w as [messages parts]. unfold read_item. cbn [fst] in *.
  destruct (is_string (get i "type") (js "userMessage")) eqn:Et.
  - destruct (truthy _ && negb recovery) eqn:Eg; [|exact Hw]. to_prop. cbn [fst]. apply Forall_app.
    split; [done|]. apply Forall_singleton. split; [apply userMessageText_bound|]. intros _.
    cbn [m_text]. split; [by apply truthy_true|].
    specialize (Hrec ltac:(done)). cbn [is_recovery recordOrNull is_record] in Hrec. rewrite Et in Hrec. done.
  - destruct (is_string (get i "type") (js "agentMessage")); [|exact Hw]. destruct (get i "text"); try exact Hw. destruct (truthy _); exact Hw.
Qed.

Lemma read_items_ok turnId createdAt recovery items w w' :
  (recovery = false -> Forall (fun v => is_recovery v = false) items) -> reading_ok w ->
  read_items turnId createdAt recovery items w = Ok w' -> reading_ok w'.
Proof.
  revert w. induction items as [|v items IH]; intros w Hrec Hw H; cbn [read_items] in H; [by inv_ok|].
  assert (recovery = false -> is_recovery v = false /\ Forall (fun v => is_recovery v = false) items) as Hrec'.
  { intros Hr. by apply Forall_cons in Hrec. }
  destruct (recordOrNull v) as [i|] eqn:Ei.
  - apply bind_Ok in H as (u & Hu%require_Ok & H). apply (IH _ (fun Hr => proj2 (Hrec' Hr))) in H; [done|].
    destruct v; try done. injection Ei as ->. to_prop. split; [split|]; [|lia|done].
    apply read_item_ok; [intros Hr; by apply Hrec'|apply Hw].
  - apply (IH w); [intros Hr; by apply Hrec'|done|done].
Qed.

Lemma read_turns_ok fallback turns messages messages' : messages_ok messages ->
  read_turns date_iso fallback turns messages = Ok messages' -> messages_ok messages'.
Proof.
  revert messages. induction turns as [|v turns IH]; intros messages Hm H; cbn in H; [by inv_ok|].
  apply bind_Ok in H as (m1 & Hv & H). apply (IH m1); [|done]. unfold read_turn in Hv.
  apply bind_Ok in Hv as (turn & _ & Hv). apply bind_Ok in Hv as (turnId & _ & Hv).
  apply bind_Ok in Hv as (w & Hw & Hv).
  apply read_items_ok in Hw as [[Hall Hlen] Hroom].
  - injection Hv as <-. destruct w.2 as [|p ps]; [by split|]. specialize (Hroom ltac:(done)).
    split; [|rewrite length_app; cbn; lia]. apply Forall_app. split; [done|].
    apply Forall_singleton, assistant_message_ok.
  - intros He. apply Forall_forall. intros v' Hv'. apply not_true_is_false. intros Hr.
    apply not_true_iff_false in He. apply He, existsb_exists. exists v'. split; [|done]. by apply list_elem_of_In.
  - by split.
Qed.

Lemma turn_pages_ok fuel threadId fallback loaded cursor messages sent : messages_ok messages ->
  match (pages fuel threadId fallback loaded cursor messages sent).1 with
  | Ok (Some (messages', _)) => messages_ok messages' | _ => True end.
Proof.
  subst pages. revert loaded cursor messages sent. induction fuel as [|fuel IH]; intros loaded cursor messages sent Hm;
    cbn [turn_pages]; destruct (negb _); try done.
  unfold send, lift. rewrite !M_bind_run. cbv zeta. destruct (answer _) as [reply|e]; [|done].
  rewrite M_bind_run. destruct (record reply) as [response|e]; [|done]. rewrite M_bind_run.
  destruct (read_turns _ _ _ _) as [messages1|e] eqn:Er; [|done]. apply read_turns_ok in Er; [|done].
  destruct (next_cursor response); [by apply IH|done].
Qed.

Lemma add_active_ok active messages : messages_ok messages ->
  Forall message_ok (add_active now active messages) /\
  Z.of_nat (length (add_active now active messages)) <= MAX_NATIVE_MESSAGES + 1.
Proof.
  intros [Hall Hlen]. unfold add_active. destruct active as [[turnId text]|]; [|split; [done|lia]].
  destruct (_ && _); [|split; [done|lia]]. destruct (message_index _ _).
  - rewrite length_insert. split; [|lia]. apply Forall_insert; [done|apply assistant_message_ok].
  - rewrite length_app. cbn. split; [|lia]. apply Forall_app. split; [done|].
    apply Forall_singleton, assistant_message_ok.
Qed.

(** A conversation that is read back has at most 4,000 messages (and one
    for the running turn) of at most 256 Ki code units each, none of the
    user's is empty or a recovery prompt of the harness, and it is read only
    for a clean thread id of at most 256 code units. *)
Theorem conversation_history_bounded fuel threadId active sent :
  match (history fuel threadId active sent).1 with
  | Ok (Some messages) =>
      Forall message_ok messages /\ Z.of_nat (length messages) <= MAX_NATIVE_MESSAGES + 1 /\
      exists t, threadId = VString t /\ 0 < slen t <= 256 /\ has_line_break_or_nul t = false
  | _ => True
  end.
Proof.
  subst history. unfold readConversationHistory, send, lift. rewrite M_bind_run.
  destruct (validateNativeId threadId _) as [t|e] eqn:Et; [|done].
  rewrite !M_bind_run. cbv zeta. destruct (answer _) as [reply|e]; [|done].
  rewrite M_bind_run. destruct (record reply) as [metadata|e]; [|done]. rewrite M_bind_run.
  match goal with |- context [turn_pages _ _ _ _ ?fb _ _ _ ?s] =>
    pose proof (turn_pages_ok fuel t fb 0 None [] s) as Hp end.
  subst pages. destruct (turn_pages _ _ _ _ _ _ _ _ _) as [[[[messages [c|]]|]|e] sent']; try done.
  cbn in Hp |- *. specialize (Hp ltac:(by split)). apply (add_active_ok active) in Hp as [H1 H2].
  split_and!; [done|done|]. exists t. unfold validateNativeId in Et. apply bind_Ok in Et as (s & Hs & Hl).
  destruct (256 <? slen s) eqn:E; [done|]. to_prop. injection Hl as <-. destruct threadId; try done.
  unfold requiredString in Hs. destruct (truthy s0 && _) eqn:Eg; [|done]. injection Hs as <-. to_prop.
  apply truthy_true in H. split_and!; [done| |done|done]. destruct s0; [done|]. unfold slen. cbn. lia.
Qed.

Lemma turn_pages_end fuel threadId fallback loaded cursor messages sent
  (Hpages : forall sent r, answer sent = Ok (VObject r) -> next_cursor r <> None -> array_or_empty (get r "data") <> []) :
  MAX_NATIVE_TURNS - loaded <= Z.of_nat fuel ->
  let (r, sent') := pages fuel threadId fallback loaded cursor messages sent in
  r <> Ok None /\ (length sent' <= length sent + fuel)%nat.
Proof.
  subst pages. revert loaded cursor messages sent. induction fuel as [|fuel IH]; intros loaded cursor messages sent Hf;
    cbn [turn_pages].
  - rewrite (proj2 (Z.ltb_ge loaded MAX_NATIVE_TURNS)) by lia. split; [done|]. cbn. lia.
  - destruct (negb _); [split; [done|cbn; lia]|]. unfold send, lift. rewrite !M_bind_run. cbv zeta beta.
    set (sent1 := sent ++ _). assert (length sent1 = S (length sent)) as H1 by (unfold sent1; rewrite length_app; cbn; lia).
    destruct (answer sent1) as [reply|e] eqn:Ea; [|split; [done|lia]].
    rewrite M_bind_run. destruct (record reply) as [response|e] eqn:Er; [|split; [done|lia]].
    rewrite M_bind_run. destruct (read_turns _ _ _ _) as [messages1|e]; [|split; [done|lia]].
    destruct (next_cursor response) as [c|] eqn:Ec; [|split; [done|cbn; lia]].
    destruct reply; try done. injection Er as ->. specialize (Hpages _ _ Ea ltac:(by rewrite Ec)).
    set (loaded1 := loaded + _).
    assert (loaded + 1 <= loaded1). { subst loaded1. destruct (array_or_empty _); [done|]. cbn [length]. lia. }
    specialize (IH loaded1 (Some c) messages1 sent1 ltac:(lia)).
    destruct (turn_pages _ _ _ _ _ _ _ _ _) as [r sent']. destruct IH. split; [done|lia].
Qed.

(** Reading a conversation ends, after at most 2,001 requests, if no page
    that announces another one is empty. *)
Theorem conversation_history_terminates threadId active
  (Hpages : forall sent r, answer sent = Ok (VObject r) -> next_cursor r <> None -> array_or_empty (get r "data") <> []) :
  let (r, sent) := history 2000 threadId active [] in r <> Ok None /\ (length sent <= 2001)%nat.
Proof.
  subst history. unfold readConversationHistory, send, lift. rewrite M_bind_run.
  destruct (validateNativeId threadId _) as [t|e]; [|split; [done|cbn; lia]].
  rewrite !M_bind_run. cbv zeta. destruct (answer _) as [reply|e]; [|split; [done|cbn; lia]].
  rewrite M_bind_run. destruct (record reply) as [metadata|e]; [|split; [done|cbn; lia]]. rewrite M_bind_run.
  match goal with |- context [turn_pages _ _ _ _ ?fb _ _ _ ?s] =>
    pose proof (turn_pages_end 2000 t fb 0 None [] s Hpages ltac:(unfold MAX_NATIVE_TURNS; lia)) as Hp end.
  subst pages. destruct (turn_pages _ _ _ _ _ _ _ _ _) as [[[[messages [c|]]|]|e] sent'];
    destruct Hp as [Hp1 Hp2]; cbn [length app] in Hp2; (split; [done|cbn [fst snd]; cbn; lia]).
Qed.
End History.

(** The condition is needed: [listThreads] stops at an empty page,
    [readConversationHistory] does not. While the app-server keeps answering
    with an empty page and a cursor, it keeps asking. *)
Definition empty_page (sent : list (jstr * value)) : result value :=
  Ok (VObject [(js "data", VArray []); (js "nextCursor", VString (js "more"))]).
Theorem empty_pages_never_end date_iso now threadId active fuel :
  is_ok (validateNativeId threadId "Codex thread id") = true ->
  (readConversationHistory date_iso now empty_page fuel threadId active []).1 = Ok None.
Proof.
  intros Ht. unfold readConversationHistory, lift. rewrite M_bind_run.
  destruct (validateNativeId threadId _) as [t|e]; [|done]. clear Ht.
  unfold send at 1. rewrite M_bind_run. cbv zeta. unfold empty_page at 1. rewrite M_bind_run.
  change (record (VObject ?r)) with (Ok (A:=list (jstr * value)) r). cbv iota. rewrite M_bind_run.
  generalize (default (default now (unixSecondsToIso date_iso (get
    (default [(js "data", VArray []); (js "nextCursor", VString (js "more"))]
       (recordOrNull (get [(js "data", VArray []); (js "nextCursor", VString (js "more"))] "thread"))) "createdAt")))
    (unixSecondsToIso date_iso (get
    (default [(js "data", VArray []); (js "nextCursor", VString (js "more"))]
       (recordOrNull (get [(js "data", VArray []); (js "nextCursor", VString (js "more"))] "thread"))) "updatedAt"))).
  intros fallback.
  assert (forall c sent, (turn_pages date_iso empty_page fuel t fallback 0 c [] sent).1 = Ok None) as H.
  { induction fuel as [|fuel IH]; intros c sent; [done|]. cbn [turn_pages]. exact (IH (Some (js "more")) _). }
  specialize (H None [(js "thread/read", VObject [(js "threadId", VString t); (js "includeTurns", VBool false)])]).
  destruct (turn_pages _ _ _ _ _ _ _ _ _) as [r sent]. cbn in H. by subst.
Qed.

(** *** Witnesses *)

(** One page with one turn. *)
Definition one_page (sent : list (jstr * value)) : result value :=
  Ok (VObject [(js "data", VArray [VObject [(js "id", VString (js "t1")); (js "items", VArray [VObject
    [(js "type", VString (js "agentMessage")); (js "text", VString (js "hello"))]])]])]).
Lemma conversation_history_terminates_witness :
  let (r, sent) := readConversationHistory (fun _ => None) (js "now") one_page 2000 (VString (js "thread")) None [] in
  r <> Ok None /\ (length sent <= 2001)%nat.
Proof.
  apply (conversation_history_terminates (fun _ => None) (js "now") one_page (VString (js "thread")) None).
  intros sent r [= <-] H. by vm_compute in H.
Defined.
Example one_page_is_read :
  (readConversationHistory (fun _ => None) (js "now") one_page 2000 (VString (js "thread"))
     (Some (js "t1", js "hello again")) []).1
  = Ok (Some [{| m_id := js "assistant:t1"; m_role := assistant; m_text := js "hello again";
                 m_createdAt := js "now"; m_turnId := js "t1" |}]).
Proof. vm_compute. reflexivity. Qed.

End CodexNative.
