(* ===== verification/VerifiedTurn.v ===== *)
(** * Verified Codex turns (task-manager.ts)

    A turn runs Codex between a start and a finish reported to the daemon, has
    the daemon verify the result, and runs Codex again on the evidence of a
    failure, a bounded number of times. Every await is a step at which other
    calls may change the table of prepared turns; the daemon, Codex and the
    preflights answer anything, depending on everything that happened before. *)

From S2P Require Import Prelude JsValue Utf8 JsMap Validate TaskParser HarnessParser HarnessEvents TurnPreparation CodexNative.
Import TurnPreparation.

Module VerifiedTurn.

Definition MAX_CODEX_ACTIVE_SKILLS : nat := 2.
Definition MAX_CODEX_RECOVERY_ATTEMPTS : nat := 2.
Definition NATIVE_VERIFICATION_TIMEOUT_MS : Z := 600000.
Definition MAX_RECOVERY_CONTEXT_BYTES : Z := 24 * 1024.

(** ** Errors and bounded text *)

(** [message.replace(/[\r\n\t]+/g, " ")]; [run] tells whether the text before ends in a match. *)
Fixpoint collapse_breaks (run : bool) (s : jstr) : jstr :=
  match s with
  | [] => []
  | u :: t =>
      if (u =? 13)%N || (u =? 10)%N || (u =? 9)%N
      then (if run then [] else [32%N]) ++ collapse_breaks true t
      else u :: collapse_breaks false t
  end.
Definition safeMessage (e : exn) : jstr :=
  match e with Error m => slice_to 512 (collapse_breaks false m) | NotAnError _ => js "Task is unavailable" end.

Inductive category := timeout | denied | tool_error.
#[global] Instance category_eq_dec : EqDecision category. Proof. solve_decision. Defined.
Definition category_name (c : category) : jstr := js
  match c with timeout => "timeout" | denied => "denied" | tool_error => "tool-error" end.
(** The texts looked for are ASCII, as is all that lower-casing matters for. *)
Definition nativeFailureCategory (e : exn) : category :=
  let message := map TaskParser.lower (safeMessage e) in
  if includes message (js "timeout") || includes message (js "timed out") then timeout
  else if includes message (js "approval") || includes message (js "denied") then denied
  else tool_error.

Definition boundedRecoveryText (value : jstr) (maxBytes : Z) : jstr :=
  let normalized := List.filter (fun u => negb (is_nul u)) value in
  if utf8_len normalized <=? maxBytes then normalized
  else strip_replacements (cut_bytes (Z.max 1 (maxBytes - 3)) normalized) ++ [TaskParser.ELLIPSIS].

(** ** The daemon's verification *)

Record NativeVerificationResult := {
  v_runId : jstr; skipped : bool; proofType : option jstr; proofSource : option jstr; proofCommand : option jstr;
  success : bool; exitCode : option Z; timedOut : bool; stdout : jstr; stderr : jstr; truncated : bool }.

Definition optionalText (max : Z) (field : value) : result (option jstr) :=
  match field with
  | VNull | VUndefined => Ok None
  | VString s =>
      if (slen s =? 0) || (max <? slen s) || has_line_break_or_nul s
      then fail "SourceNerve native verification metadata is invalid" else Ok (Some s)
  | _ => fail "SourceNerve native verification metadata is invalid"
  end.
Definition flag (v : value) : result bool :=
  match v with VBool b => Ok b | _ => fail "SourceNerve native verification status is invalid" end.
Definition output (v : value) : result jstr :=
  match v with
  | VString s => if 300000 <? slen s then fail "SourceNerve native verification output is invalid" else Ok s
  | _ => fail "SourceNerve native verification output is invalid"
  end.
Definition exit_code (v : value) : result (option Z) :=
  match v with
  | VNull | VUndefined => Ok None
  | VNumber n => match safe_integer n with
                 | Some z => Ok (Some z) | None => fail "SourceNerve native verification exit code is invalid" end
  | _ => fail "SourceNerve native verification exit code is invalid"
  end.

Definition parseNativeVerification (v : value) : result NativeVerificationResult :=
  match is_record v with
  | None => fail "SourceNerve native verification response is invalid"
  | Some fs =>
      match field fs (js "run_id") with
      | VString runId =>
          if (slen runId =? 0) || (128 <? slen runId) then fail "SourceNerve native verification response is invalid"
          else
            skip ← flag (field fs (js "skipped"));
            ok ← flag (field fs (js "success"));
            late ← flag (field fs (js "timed_out"));
            cut ← flag (field fs (js "truncated"));
            out ← output (field fs (js "stdout"));
            err ← output (field fs (js "stderr"));
            code ← exit_code (field fs (js "exit_code"));
            type ← optionalText 64 (field fs (js "proof_type"));
            source ← optionalText 512 (field fs (js "proof_source"));
            command ← optionalText 1024 (field fs (js "proof_command"));
            Ok {| v_runId := runId; skipped := skip; proofType := type; proofSource := source; proofCommand := command;
                  success := ok; exitCode := code; timedOut := late; stdout := out; stderr := err; truncated := cut |}
      | _ => fail "SourceNerve native verification response is invalid"
      end
  end.

(** ** Recovery prompts *)

Definition of_attempts (attempt : nat) : jstr :=
  js_int (Z.of_nat attempt) ++ js "/" ++ js_int (Z.of_nat MAX_CODEX_RECOVERY_ATTEMPTS).
Definition PARAGRAPH : jstr := [10; 10]%N.
(** [a || b] on strings *)
Definition or_else (a b : jstr) : jstr := if truthy a then a else b.

Definition buildHarnessExecutionRecoveryPrompt (originalPrompt : jstr) (error : exn) (attempt : nat) : jstr :=
  boundedRecoveryText (join PARAGRAPH
    [CodexNative.CODEX_HARNESS_INTERNAL_RECOVERY_PREFIX;
     js "Harness observed a native Codex execution failure (recovery attempt " ++ of_attempts attempt ++ js ").";
     js "Failure evidence: " ++ boundedRecoveryText (safeMessage error) (4 * 1024);
     js "Original user request: " ++ boundedRecoveryText originalPrompt (8 * 1024);
     js "Recover the interrupted work in the same workspace and thread. Inspect the current repository state before changing anything, continue only the missing work, run relevant checks, and finish with a concise user-facing summary."])
    MAX_RECOVERY_CONTEXT_BYTES.

Definition required_proof (v : NativeVerificationResult) : jstr :=
  match proofCommand v, proofType v with
  | Some c, _ => js "Required proof: " ++ c
  | None, Some t => js "Required proof type: " ++ t
  | None, None => js "Required repository proof is unavailable."
  end.
Definition buildHarnessRecoveryPrompt (originalPrompt : jstr) (v : NativeVerificationResult) (attempt : nat) : jstr :=
  boundedRecoveryText (join PARAGRAPH
    ([CodexNative.CODEX_HARNESS_INTERNAL_RECOVERY_PREFIX;
      js "Harness deterministic verification failed (recovery attempt " ++ of_attempts attempt ++ js ").";
      required_proof v]
     ++ match exitCode v with Some z => [js "Proof exit code: " ++ js_int z] | None => [] end
     ++ (if timedOut v then [js "Proof timed out."] else [])
     ++ [js "Failure evidence: " ++ boundedRecoveryText (or_else (stderr v) (or_else (stdout v) (js "No proof output was returned."))) (8 * 1024);
         js "Original user request: " ++ boundedRecoveryText originalPrompt (8 * 1024);
         js "Recover the implementation rather than merely explaining the failure. Inspect the evidence, make the minimum necessary changes, run the relevant checks, and finish with a concise user-facing summary."]))
    MAX_RECOVERY_CONTEXT_BYTES.

(** ** The turn *)

(** [DesktopHarnessCodexTurnView] *)
Record Turn := {
  t_runId : jstr; t_workspace : jstr; threadId : jstr; turnId : jstr; status : jstr; response : option jstr;
  resumed : bool; recoveredBeforeTurn : bool; activeSkills : list jstr; t_skillActivity : option SkillActivity }.
Record VerifiedCodexExecution := { turn : Turn; e_proofType : option jstr; e_proofCommand : option jstr }.
(** What [codex.run] is given *)
Record RunInput := { i_runId : jstr; i_prompt : jstr; i_skillKeys : list jstr; i_recovery : bool; i_model : option jstr }.
Record TurnInput := { runId : jstr; prompt : jstr; preparationId : option jstr; model : option jstr }.
Record NpmPreflight := { npm_activeSkillKeys : list jstr; npm_installed : list jstr; npm_searches : list jstr }.
Record PluginPreflight := { plugin_activeSkillKeys : list jstr; autoInstalledPluginIds : list jstr }.

Inductive entry :=
| HarnessRequest (path : string) (body : value)
| CodexRun (input : RunInput)
| CodexRelease (runId : jstr)
| NpmSkillPreflight (workspace prompt : jstr)
| SkillPreflight (workspace prompt : jstr)
| Emitted (state : string) (message : jstr)
| ThreadAttached (runId threadId : jstr).

Record World := {
  harnessRequest : list entry -> string -> value -> result value;
  codex : option (list entry -> RunInput -> result Turn);
  npmSkillPreflight : option (list entry -> jstr -> jstr -> result NpmPreflight);
  skillPreflight : option (list entry -> jstr -> jstr -> result PluginPreflight);
  promptNeedsAutomaticSkills : jstr -> bool;
  attachThread : list entry -> jstr -> jstr -> result unit;
  (** the [n]th reading of the clock since the last await *)
  Date_now : list entry -> nat -> Z;
  randomUUID : list entry -> jstr;
  sha256 : jstr -> jstr;
  activity_JSON : jstr -> jstr -> SkillActivity -> jstr;
  (** what other calls do to the table while one waits *)
  others : list entry -> Table -> Table }.

Record State := { log : list entry; preparedCodexTurns : Table }.

Definition get_path : string := "/api/v1/harness/runs/get".
Definition route_path : string := "/api/v1/harness/context/route".
Definition start_path : string := "/api/v1/harness/native/execution/start".
Definition finish_path : string := "/api/v1/harness/native/execution/finish".
Definition verification_path : string := "/api/v1/harness/native/verification/run".

(** [...(value ? { key: value } : {})] *)
Definition if_truthy (o : option jstr) : option jstr := match o with Some s => if truthy s then Some s else None | None => None end.
Definition run_field (id : jstr) : jstr * value := (js "run_id", VString id).

Section Turn.
Context (w : World).

Definition await {A} (e : entry) (oracle : list entry -> result A) : M State A := fun s =>
  (oracle (log s), {| log := log s ++ [e]; preparedCodexTurns := others w (log s ++ [e]) (preparedCodexTurns s) |}).
Definition request (path : string) (body : value) : M State value :=
  await (HarnessRequest path body) (fun l => harnessRequest w l path body).
Definition note (e : entry) : M State unit :=
  modify (fun s => {| log := log s ++ [e]; preparedCodexTurns := preparedCodexTurns s |}).

Definition assertNativeLifecycleResponse (path : string) (body : value) (runId : jstr) : M State unit :=
  v ← request path body;
  match is_record v with
  | Some fs => js_guard (negb (is_string (field fs (js "run_id")) runId)) "SourceNerve native Harness lifecycle response is invalid"
  | None => throw "SourceNerve native Harness lifecycle response is invalid"
  end.

Definition releaseTerminalCodexRun (run : HarnessParser.DesktopHarnessRunView) : M State unit :=
  match codex w with
  | Some _ => if bool_decide (HarnessParser.run_status run = js "running") then mret tt
              else await (CodexRelease (HarnessParser.run_id run)) (fun _ => Ok tt)
  | None => mret tt
  end.
Definition getHarnessRun (runId : jstr) : M State HarnessParser.DesktopHarnessRunView :=
  raw ← request get_path (VObject [run_field runId]);
  run ← lift (HarnessParser.parseHarnessRunSnapshot raw);
  _ ← releaseTerminalCodexRun run;
  mret run.

(** [routeHarnessContext] as the preparation calls it *)
Definition routeHarnessContext (workspace runId query : jstr) : M State unit :=
  raw ← request route_path (VObject [(js "workspace", VString workspace); run_field runId; (js "query", VString query);
                                     (js "start_cycle", VBool true)]);
  routed ← lift (HarnessParser.parseHarnessContextRoute (Some query) raw);
  js_guard (negb (bool_decide (HarnessParser.ctx_workspace routed = workspace))) "SourceNerve Harness context route workspace mismatch".

Definition no_plugins : PluginPreflight := {| plugin_activeSkillKeys := []; autoInstalledPluginIds := [] |}.
Definition sorted_unique (l : list jstr) : list jstr := sort_by jstr_compare (unique l).

Definition prepareHarnessCodexTurn (inputRunId inputPrompt : jstr) : M State jstr :=
  match codex w, npmSkillPreflight w with
  | None, _ => throw "Desktop Codex Harness runtime is not initialized"
  | Some _, npm =>
      run ← getHarnessRun inputRunId;
      let id := HarnessParser.run_id run in
      let workspace := HarnessParser.run_workspace run in
      _ ← routeHarnessContext workspace id inputPrompt;
      match npm with
      | None => throw "Mandatory npm Skills CLI preflight is not initialized"
      | Some preflight =>
          npm ← await (NpmSkillPreflight workspace inputPrompt) (fun l => preflight l workspace inputPrompt);
          plugins ← match (if promptNeedsAutomaticSkills w inputPrompt then skillPreflight w else None) with
                    | Some preflight => await (SkillPreflight workspace inputPrompt) (fun l => preflight l workspace inputPrompt)
                    | None => mret no_plugins
                    end;
          let keys := take MAX_CODEX_ACTIVE_SKILLS (unique (npm_activeSkillKeys npm ++ plugin_activeSkillKeys plugins)) in
          let activity := {| npmSearches := sorted_unique (npm_searches npm); npmInstalled := sorted_unique (npm_installed npm);
                             pluginAutoInstalled := sorted_unique (autoInstalledPluginIds plugins); selectedSkillKeys := keys |} in
          s ← get_state;
          let preparationId := randomUUID w (log s) in
          _ ← put_state {| log := log s; preparedCodexTurns :=
                prepare (Date_now w (log s) 0) preparationId
                  {| p_runId := id; p_workspace := workspace; promptHash := sha256 w inputPrompt; skillKeys := keys;
                     skillActivity := activity; createdAt := Date_now w (log s) 1 |} (preparedCodexTurns s) |};
          _ ← note (Emitted "skills-selected" (activity_JSON w id workspace activity));
          mret preparationId
      end
  end.

Definition consume (id runId prompt workspace : jstr) : M State Preparation := fun s =>
  let (r, t) := consumePreparedCodexTurn (sha256 w) (Date_now w (log s) 0) runId prompt id workspace (preparedCodexTurns s) in
  (r, {| log := log s; preparedCodexTurns := t |}).

Definition run_codex (i : RunInput) : M State Turn :=
  match codex w with
  | Some run => await (CodexRun i) (fun l => run l i)
  | None => throw "Cannot read properties of undefined"
  end.

Definition start_body (id : jstr) : value := VObject [run_field id].
Definition finished_body (id : jstr) : value := VObject [run_field id; (js "success", VBool true)].
Definition failed_body (id : jstr) (e : exn) : value :=
  VObject [run_field id; (js "success", VBool false); (js "error_category", VString (category_name (nativeFailureCategory e)))].

Definition runSupervisedCodexExecution (i : RunInput) : M State Turn :=
  _ ← assertNativeLifecycleResponse start_path (start_body (i_runId i)) (i_runId i);
  try_catch
    (t ← run_codex i;
     _ ← assertNativeLifecycleResponse finish_path (finished_body (i_runId i)) (i_runId i);
     mret t)
    (fun error =>
       _ ← try_catch (assertNativeLifecycleResponse finish_path (failed_body (i_runId i) error) (i_runId i)) (fun _ => mret tt);
       rethrow error).

Definition runNativeVerification (id : jstr) : M State NativeVerificationResult :=
  raw ← request verification_path (VObject [run_field id; (js "timeout_ms", VInt NATIVE_VERIFICATION_TIMEOUT_MS)]);
  v ← lift (parseNativeVerification raw);
  _ ← js_guard (negb (bool_decide (v_runId v = id))) "SourceNerve native verification run mismatch";
  mret v.

Section Attempts.
Context (input : TurnInput) (id : jstr) (keys : list jstr).

Definition execution (text : jstr) (recovery : bool) : RunInput := {|
  i_runId := id; i_prompt := text; i_skillKeys := keys; i_recovery := recovery; i_model := if_truthy (model input) |}.

Definition recovery_failed (recoveryError : exn) : exn :=
  Error (js "Harness native execution recovery failed: " ++ boundedRecoveryText (safeMessage recoveryError) 512).
(** The recovery attempts after a failed execution, [n] of them left *)
Fixpoint recover_execution (n : nat) (recoveryError : exn) : M State Turn :=
  match n with
  | O => rethrow (recovery_failed recoveryError)
  | S n' =>
      let attempt := (MAX_CODEX_RECOVERY_ATTEMPTS - n')%nat in
      try_catch
        (runSupervisedCodexExecution (execution (buildHarnessExecutionRecoveryPrompt (prompt input) recoveryError attempt) true))
        (fun error => if bool_decide (nativeFailureCategory error = denied) then rethrow (recovery_failed error)
                       else recover_execution n' error)
  end.
Definition first_result : M State Turn :=
  try_catch (runSupervisedCodexExecution (execution (prompt input) false))
    (fun initialError => if bool_decide (nativeFailureCategory initialError = denied) then rethrow initialError
                         else recover_execution MAX_CODEX_RECOVERY_ATTEMPTS initialError).

(** The loop over failed verifications, [n] attempts left *)
Fixpoint recover_verification (n : nat) (result : Turn) (v : NativeVerificationResult) : M State (Turn * NativeVerificationResult) :=
  match n with
  | O => mret (result, v)
  | S n' =>
      if success v then mret (result, v)
      else
        let attempt := (MAX_CODEX_RECOVERY_ATTEMPTS - n')%nat in
        result' ← runSupervisedCodexExecution (execution (buildHarnessRecoveryPrompt (prompt input) v attempt) true);
        v' ← runNativeVerification id;
        recover_verification n' result' v'
  end.
End Attempts.

Definition verification_error (v : NativeVerificationResult) : exn :=
  let proof := match proofCommand v, proofType v with
               | Some c, _ => c | None, Some t => t | None, None => js "repository proof" end in
  let detail := boundedRecoveryText (or_else (stderr v) (or_else (stdout v) (js "verification did not pass"))) 512 in
  Error (js "Harness verification failed after recovery attempts (" ++ proof ++ js "): " ++ detail).

Definition nonempty_or (l k : list jstr) : list jstr := if (0 <? length l)%nat then l else k.
Definition with_skills (t : Turn) (keys : list jstr) (a : SkillActivity) : Turn := {|
  t_runId := t_runId t; t_workspace := t_workspace t; threadId := threadId t; turnId := turnId t; status := status t;
  response := response t; resumed := resumed t; recoveredBeforeTurn := recoveredBeforeTurn t;
  activeSkills := nonempty_or (activeSkills t) keys;
  t_skillActivity := Some {| npmSearches := npmSearches a; npmInstalled := npmInstalled a; pluginAutoInstalled := pluginAutoInstalled a;
                             selectedSkillKeys := nonempty_or (activeSkills t) (selectedSkillKeys a) |} |}.

Definition runHarnessCodexTurnVerified (input : TurnInput) : M State VerifiedCodexExecution :=
  match codex w with
  | None => throw "Desktop Codex Harness runtime is not initialized"
  | Some _ =>
      run ← getHarnessRun (runId input);
      let id := HarnessParser.run_id run in
      preparationId ← match if_truthy (preparationId input) with
                      | Some p => mret p
                      | None => prepareHarnessCodexTurn (runId input) (prompt input)
                      end;
      p ← consume preparationId (runId input) (prompt input) (HarnessParser.run_workspace run);
      result ← first_result input id (skillKeys p);
      v ← runNativeVerification id;
      last ← recover_verification input id (skillKeys p) MAX_CODEX_RECOVERY_ATTEMPTS result v;
      if negb (success last.2) then rethrow (verification_error last.2)
      else
        let t := with_skills last.1 (skillKeys p) (skillActivity p) in
        s ← get_state;
        _ ← note (ThreadAttached id (threadId t));
        _ ← lift (attachThread w (log s) id (threadId t));
        mret {| turn := t; e_proofType := if_truthy (proofType last.2); e_proofCommand := if_truthy (proofCommand last.2) |}
  end.
Definition runHarnessCodexTurn (input : TurnInput) : M State Turn := executed ← runHarnessCodexTurnVerified input; mret (turn executed).
End Turn.

(** ** What a turn has done

    The log of a turn is a sequence of segments: executions of Codex, each
    opened and closed with the daemon, and verifications. *)

Inductive segment :=
| StartRefused (i : RunInput) (e : exn)
| RunFailed (i : RunInput) (e : exn)
| FinishRefused (i : RunInput) (t : Turn) (e : exn)
| Ran (i : RunInput) (t : Turn)
| Verified (id : jstr) (r : result NativeVerificationResult).

Definition segment_entries (x : segment) : list entry :=
  let start i := HarnessRequest start_path (start_body (i_runId i)) in
  let finish i := HarnessRequest finish_path (finished_body (i_runId i)) in
  let record_failure i e := HarnessRequest finish_path (failed_body (i_runId i) e) in
  match x with
  | StartRefused i _ => [start i]
  | RunFailed i e => [start i; CodexRun i; record_failure i e]
  | FinishRefused i _ e => [start i; CodexRun i; finish i; record_failure i e]
  | Ran i _ => [start i; CodexRun i; finish i]
  | Verified id _ => [HarnessRequest verification_path (VObject [run_field id; (js "timeout_ms", VInt NATIVE_VERIFICATION_TIMEOUT_MS)])]
  end.
Definition entries (l : list segment) : list entry := concat (map segment_entries l).

(** The outcome of an execution, [None] for a verification *)
Definition outcome (x : segment) : option (result Turn) :=
  match x with
  | StartRefused _ e | RunFailed _ e | FinishRefused _ _ e => Some (Throw e)
  | Ran _ t => Some (Ok t)
  | Verified _ _ => None
  end.
Definition input_of (x : segment) : option RunInput :=
  match x with StartRefused i _ | RunFailed i _ | FinishRefused i _ _ | Ran i _ => Some i | Verified _ _ => None end.
(** An execution for which Codex was run *)
Definition was_run (x : segment) : bool :=
  match x with RunFailed _ _ | FinishRefused _ _ _ | Ran _ _ => true | _ => false end.
Definition was_denied (x : segment) : bool :=
  match outcome x with Some (Throw e) => bool_decide (nativeFailureCategory e = denied) | _ => false end.

Section Trace.
Context (w : World) (run : list entry -> RunInput -> result Turn) (Hcodex : codex w = Some run).

Definition lifecycle_answer (l : list entry) (path : string) (body : value) (id : jstr) : result unit :=
  v ← harnessRequest w l path body;
  match is_record v with
  | Some fs => if negb (is_string (field fs (js "run_id")) id) then fail "SourceNerve native Harness lifecycle response is invalid" else Ok tt
  | None => fail "SourceNerve native Harness lifecycle response is invalid"
  end.
Definition verification_answer (l : list entry) (id : jstr) : result NativeVerificationResult :=
  raw ← harnessRequest w l verification_path (VObject [run_field id; (js "timeout_ms", VInt NATIVE_VERIFICATION_TIMEOUT_MS)]);
  v ← parseNativeVerification raw;
  if negb (bool_decide (v_runId v = id)) then fail "SourceNerve native verification run mismatch" else Ok v.

(** The daemon and Codex answered so, from the log [l] on. *)
Definition happened (l : list entry) (x : segment) : Prop :=
  let start i := HarnessRequest start_path (start_body (i_runId i)) in
  let started i := lifecycle_answer l start_path (start_body (i_runId i)) (i_runId i) in
  let finished i := lifecycle_answer (l ++ [start i; CodexRun i]) finish_path (finished_body (i_runId i)) (i_runId i) in
  match x with
  | StartRefused i e => started i = Throw e
  | RunFailed i e => started i = Ok tt /\ run (l ++ [start i]) i = Throw e
  | FinishRefused i t e => started i = Ok tt /\ run (l ++ [start i]) i = Ok t /\ finished i = Throw e
  | Ran i t => started i = Ok tt /\ run (l ++ [start i]) i = Ok t /\ finished i = Ok tt
  | Verified id r => verification_answer l id = r
  end.
Fixpoint history (l : list entry) (segs : list segment) : Prop :=
  match segs with
  | [] => True
  | x :: segs' => happened l x /\ history (l ++ segment_entries x) segs'
  end.

Lemma history_app l a b : history l (a ++ b) <-> history l a /\ history (l ++ entries a) b.
Proof.
  revert l. induction a as [|x a IH]; intros l; simpl; [by rewrite app_nil_r; tauto|].
  rewrite IH. change (entries (x :: a)) with (segment_entries x ++ entries a). rewrite app_assoc. tauto.
Qed.
Lemma entries_app a b : entries (a ++ b) = entries a ++ entries b.
Proof. unfold entries. by rewrite map_app, concat_app. Qed.

(** *** A computation and its segments *)

Definition traced {A} (m : M State A) (P : list segment -> result A -> Prop) : Prop := forall s,
  exists segs, log (m s).2 = log s ++ entries segs /\ history (log s) segs /\ P segs (m s).1.

Lemma traced_ret {A} (a : A) : traced (mret a) (fun segs r => segs = [] /\ r = Ok a).
Proof. intros s. exists []. by rewrite app_nil_r. Qed.
Lemma traced_rethrow {A} e : traced (rethrow (A := A) e) (fun segs r => segs = [] /\ r = Throw e).
Proof. intros s. exists []. by rewrite app_nil_r. Qed.
Lemma traced_weaken {A} (m : M State A) (P Q : list segment -> result A -> Prop) :
  traced m P -> (forall segs r, P segs r -> Q segs r) -> traced m Q.
Proof. intros Hm HPQ s. destruct (Hm s) as (segs & ? & ? & ?). exists segs. auto. Qed.

Lemma traced_bind {A B} (m : M State A) (k : A -> M State B) P Q : traced m P -> (forall a, traced (k a) (Q a)) ->
  traced (m ≫= k) (fun segs r => (exists e, P segs (Throw e) /\ r = Throw e) \/
    exists a l1 l2, segs = l1 ++ l2 /\ P l1 (Ok a) /\ Q a l2 r).
Proof.
  intros Hm Hk s. destruct (Hm s) as (l1 & E1 & H1 & HP). rewrite M_bind_run. destruct (m s) as [[a|e] s1]; simpl in *.
  - destruct (Hk a s1) as (l2 & E2 & H2 & HQ). exists (l1 ++ l2). rewrite E2, E1, entries_app, app_assoc.
    split_and!; [done|apply history_app; by rewrite <- E1|]. right. by exists a, l1, l2.
  - exists l1. split_and!; [done..|]. left. by exists e.
Qed.
Lemma traced_try {A} (m : M State A) (h : exn -> M State A) P Q : traced m P -> (forall e, traced (h e) (Q e)) ->
  traced (try_catch m h) (fun segs r => (exists a, P segs (Ok a) /\ r = Ok a) \/
    exists e l1 l2, segs = l1 ++ l2 /\ P l1 (Throw e) /\ Q e l2 r).
Proof.
  intros Hm Hk s. destruct (Hm s) as (l1 & E1 & H1 & HP). unfold try_catch. destruct (m s) as [[a|e] s1]; simpl in *.
  - exists l1. split_and!; [done..|]. left. by exists a.
  - destruct (Hk e s1) as (l2 & E2 & H2 & HQ). exists (l1 ++ l2). rewrite E2, E1, entries_app, app_assoc.
    split_and!; [done|apply history_app; by rewrite <- E1|]. right. by exists e, l1, l2.
Qed.

Lemma assert_run path body id s : (assertNativeLifecycleResponse w path body id s).1 = lifecycle_answer (log s) path body id /\
  log (assertNativeLifecycleResponse w path body id s).2 = log s ++ [HarnessRequest path body].
Proof.
  unfold assertNativeLifecycleResponse, lifecycle_answer, request, await. rewrite M_bind_run.
  destruct (harnessRequest w (log s) path body) as [v|e]; [|done]. simpl. unfold js_guard, throw.
  destruct (is_record v) as [fs|]; [|done]. by destruct (negb _).
Qed.

Lemma supervised_traced i : traced (runSupervisedCodexExecution w i) (fun segs r => exists x, segs = [x] /\
  input_of x = Some i /\ outcome x = Some r).
Proof.
  intros s. destruct (runSupervisedCodexExecution w i s) as [r s'] eqn:E. simpl. unfold runSupervisedCodexExecution in E.
  rewrite M_bind_run in E. destruct (assert_run start_path (start_body (i_runId i)) (i_runId i) s) as [Ea El].
  destruct (assertNativeLifecycleResponse w start_path _ _ s) as [[[]|e] s1]; simpl in Ea, El.
  2: { injection E as <- <-. exists [StartRefused i e]. split_and!; [done..|]. by exists (StartRefused i e). }
  unfold try_catch in E. rewrite M_bind_run in E. unfold run_codex in E. rewrite Hcodex in E. unfold await in E.
  rewrite El in E. cbn [fst snd] in E.
  assert (Hgive : forall e s, exists s', (_ ← try_catch (assertNativeLifecycleResponse w finish_path (failed_body (i_runId i) e) (i_runId i))
      (fun _ => mret tt); rethrow (A := Turn) e) s = (Throw e, s') /\
    log s' = log s ++ [HarnessRequest finish_path (failed_body (i_runId i) e)]).
  { intros e s2. destruct (assert_run finish_path (failed_body (i_runId i) e) (i_runId i) s2) as [_ Gl].
    rewrite M_bind_run. unfold try_catch. destruct (assertNativeLifecycleResponse w finish_path _ _ s2) as [[[]|e'] s3]; simpl in Gl; by exists s3. }
  destruct (run _ i) as [t|e] eqn:Er.
  - rewrite M_bind_run in E. match goal with H : context [assertNativeLifecycleResponse w finish_path ?b ?id ?s] |- _ =>
      destruct (assert_run finish_path b id s) as [Fa Fl]; destruct (assertNativeLifecycleResponse w finish_path b id s) as [[[]|e] s2] end;
      simpl in Fa, Fl; rewrite <- !app_assoc in Fl; rewrite <- app_assoc in Fa.
    + injection E as <- <-. exists [Ran i t]. split_and!; [done..|]. by exists (Ran i t).
    + destruct (Hgive e s2) as (s3 & G & Gl). assert (Hx : (r, s') = (Throw e, s3)) by (etransitivity; [symmetry; exact E|exact G]). injection Hx as -> ->. exists [FinishRefused i t e].
      rewrite Gl, Fl, <- !app_assoc. split_and!; [done..|]. by exists (FinishRefused i t e).
  - match goal with H : (_ ≫= _) ?s = _ |- _ => destruct (Hgive e s) as (s3 & G & Gl) end. assert (Hx : (r, s') = (Throw e, s3)) by (etransitivity; [symmetry; exact E|exact G]). injection Hx as -> ->.
    exists [RunFailed i e]. rewrite Gl. simpl. rewrite <- !app_assoc. split_and!; [done..|]. by exists (RunFailed i e).
Qed.

Lemma verification_traced id : traced (runNativeVerification w id) (fun segs r => segs = [Verified id r]).
Proof.
  intros s. exists [Verified id (verification_answer (log s) id)].
  enough (runNativeVerification w id s = (verification_answer (log s) id,
    (request w verification_path (VObject [run_field id; (js "timeout_ms", VInt NATIVE_VERIFICATION_TIMEOUT_MS)]) s).2)) as -> by done.
  unfold runNativeVerification, verification_answer, request, await. rewrite M_bind_run.
  destruct (harnessRequest w (log s) verification_path _) as [raw|e]; [|done]. rewrite M_bind_run. simpl.
  destruct (parseNativeVerification raw) as [v|e]; [|done]. rewrite M_bind_run. simpl. unfold js_guard. by destruct (negb _).
Qed.
End Trace.

(** ** The plan of a turn *)

(** Nothing follows a denied execution. *)
Fixpoint stops_when_denied (l : list segment) : Prop :=
  match l with [] => True | x :: l' => (was_denied x = true -> l' = []) /\ stops_when_denied l' end.
(** A verification comes right after an execution that succeeded. *)
Fixpoint verifies_runs (ran : bool) (l : list segment) : Prop :=
  match l with
  | [] => True
  | x :: l' => match x with Verified _ _ => ran = true | _ => True end /\
               verifies_runs (match x with Ran _ _ => true | _ => false end) l'
  end.
Definition is_recovery (x : segment) : Prop := forall i, input_of x = Some i -> i_recovery i = true.
Definition runs (l : list segment) : nat := length (List.filter was_run l).

Lemma stops_when_denied_split l a x b : stops_when_denied l -> l = a ++ x :: b -> was_denied x = true -> b = [].
Proof.
  revert l. induction a as [|y a IH]; intros l H ->; simpl in H; [by apply H|]. destruct H as [_ H]. by apply (IH _ H).
Qed.
Lemma verifies_runs_split ran l a id r b : verifies_runs ran l -> l = a ++ Verified id r :: b ->
  (a = [] /\ ran = true) \/ exists a' i t, a = a' ++ [Ran i t].
Proof.
  revert ran l. induction a as [|y a IH]; intros ran l H ->; simpl in H; [by left; destruct H|]. right. destruct H as [_ H].
  destruct (IH _ _ H eq_refl) as [[-> Hy]|(a' & i & t & ->)]; [|by exists (y :: a'), i, t].
  destruct y as [| | |i t|]; try done. by exists [], i, t.
Qed.
Lemma runs_app a b : runs (a ++ b) = (runs a + runs b)%nat.
Proof. unfold runs. by rewrite List.filter_app, length_app. Qed.
Lemma verifies_runs_app ran a b : a <> [] -> verifies_runs ran (a ++ b) <->
  verifies_runs ran a /\ verifies_runs (match last a with Some (Ran _ _) => true | _ => false end) b.
Proof.
  revert ran. induction a as [|x a IH]; intros ran Ha; [done|]. destruct a as [|y a].
  - simpl. tauto.
  - assert (E : forall l, verifies_runs ran (x :: l) =
      (match x with Verified _ _ => ran = true | _ => True end /\ verifies_runs (match x with Ran _ _ => true | _ => false end) l)) by done.
    change ((x :: y :: a) ++ b) with (x :: ((y :: a) ++ b)). rewrite !E, IH by done. change (last (x :: y :: a)) with (last (y :: a)).
    tauto.
Qed.

Section Plan.
Context (w : World) (run : list entry -> RunInput -> result Turn) (Hcodex : codex w = Some run).
Context (input : TurnInput) (id : jstr) (keys : list jstr).

(** What the executions before the first verification amount to *)
Record executing (n : nat) (l : list segment) (r : result Turn) : Prop := {
  x_runs : (runs l <= n)%nat;
  x_denied : stops_when_denied l;
  x_plain : Forall (fun x => outcome x <> None) l;
  x_failed : forall t, r = Ok t -> exists a i, l = a ++ [Ran i t] }.

Lemma plain_verifies l : Forall (fun x => outcome x <> None) l -> forall b, verifies_runs b l.
Proof. induction 1 as [|x l Hx _ IH]; intros b; simpl; [done|]. split; [by destruct x|apply IH]. Qed.

Lemma one_run x : (runs [x] <= 1)%nat.
Proof. unfold runs. simpl. destruct (was_run x); simpl; lia. Qed.
Lemma ran_of x t : outcome x = Some (Ok t) -> exists i, x = Ran i t.
Proof. destruct x; intros [= ->]; by eexists. Qed.

Lemma recover_execution_traced n : forall e, traced w run (recover_execution w input id keys n e)
  (fun l r => executing n l r /\ Forall is_recovery l).
Proof.
  induction n as [|n IH]; intros e.
  - eapply traced_weaken; [apply traced_rethrow|]. intros l r [-> ->]. split; [|constructor].
    split; [unfold runs; simpl; lia|done|constructor|done].
  - cbn [recover_execution].
    assert (Hstep : forall i : RunInput, i_recovery i = true ->
      traced w run (try_catch (runSupervisedCodexExecution w i)
        (fun error => if bool_decide (nativeFailureCategory error = denied) then rethrow (recovery_failed error) else recover_execution w input id keys n error))
      (fun l r => executing (S n) l r /\ Forall is_recovery l)); [|by apply Hstep].
    intros i Hi. eapply traced_weaken.
    + apply traced_try; [by apply supervised_traced|]. intros e'.
      apply (traced_weaken w run _ (fun l r => if bool_decide (nativeFailureCategory e' = denied) then l = [] /\ r = Throw (recovery_failed e')
                                     else executing n l r /\ Forall is_recovery l)); [|intros l r H; exact H].
      case_bool_decide; [apply traced_rethrow|apply IH].
    + intros l r [(t & (x & -> & Hx & Ho) & ->)|(e' & l1 & l2 & -> & (x & -> & Hx & Ho) & H)].
      * destruct (ran_of x t Ho) as [j ->]. split; [split|].
        -- pose proof (one_run (Ran j t)). lia.
        -- by repeat constructor.
        -- by repeat constructor.
        -- intros t' [= ->]. by exists [], j.
        -- repeat constructor. intros i' Hi'. rewrite Hx in Hi'. by injection Hi' as <-.
      * assert (Hrec : is_recovery x) by (intros i' Hi'; rewrite Hx in Hi'; by injection Hi' as <-).
        pose proof (one_run x). case_bool_decide as Hd.
        -- destruct H as [-> ->]. rewrite app_nil_r. split; [split; [lia| |by repeat constructor; rewrite Ho|done]|by repeat constructor].
           by repeat constructor.
        -- destruct H as [[H1 H2 H3 H4] H5]. split; [split|by constructor].
           ++ rewrite runs_app. lia.
           ++ split; [|done]. unfold was_denied. rewrite Ho. by rewrite bool_decide_eq_false_2.
           ++ constructor; [by rewrite Ho|done].
           ++ intros t Ht. destruct (H4 t Ht) as (a & j & ->). by exists (x :: a), j.
Qed.

Lemma first_result_traced : traced w run (first_result w input id keys) (fun l r => executing 3 l r /\
  exists x rest, l = x :: rest /\ input_of x = Some (execution input id keys (prompt input) false) /\ Forall is_recovery rest).
Proof.
  unfold first_result. eapply traced_weaken.
  - apply traced_try; [by apply supervised_traced|]. intros e.
    apply (traced_weaken w run _ (fun l r => if bool_decide (nativeFailureCategory e = denied) then l = [] /\ r = Throw e
                                     else executing 2 l r /\ Forall is_recovery l)); [|intros l r H; exact H].
    case_bool_decide; [apply traced_rethrow|apply recover_execution_traced].
  - intros l r [(t & (x & -> & Hx & Ho) & ->)|(e & l1 & l2 & -> & (x & -> & Hx & Ho) & H)]; pose proof (one_run x).
    + destruct (ran_of x t Ho) as [j ->]. split; [split|by exists (Ran j t), []].
      * lia.
      * by repeat constructor.
      * by repeat constructor.
      * intros t' [= ->]. by exists [], j.
    + case_bool_decide as Hd.
      * destruct H as [-> ->]. rewrite app_nil_r. split; [split; [lia|by repeat constructor|repeat constructor; by rewrite Ho|done]|].
        by exists x, [].
      * destruct H as [[H1 H2 H3 H4] H5]. split; [split|by exists x, l2].
        -- rewrite runs_app. lia.
        -- split; [|done]. unfold was_denied. rewrite Ho. by rewrite bool_decide_eq_false_2.
        -- constructor; [by rewrite Ho|done].
        -- intros t Ht. destruct (H4 t Ht) as (a & j & ->). by exists (x :: a), j.
Qed.

(** What the loop over failed verifications amounts to *)
Record verifying (n : nat) (t : Turn) (v : NativeVerificationResult) (l : list segment) (r : result (Turn * NativeVerificationResult)) : Prop := {
  y_runs : (runs l <= n)%nat;
  y_denied : stops_when_denied l;
  y_recovery : Forall is_recovery l;
  y_verifies : verifies_runs false l;
  y_last : forall t' v', r = Ok (t', v') -> (l = [] /\ t' = t /\ v' = v) \/ exists a i, l = a ++ [Ran i t'; Verified id (Ok v')];
  y_exhausted : forall t' v', r = Ok (t', v') -> success v' = false -> runs l = n }.

Lemma stops_app a b : Forall (fun x => was_denied x = false) a -> stops_when_denied b -> stops_when_denied (a ++ b).
Proof. induction 1 as [|x a Hx _ IH]; [done|]. intros Hb. split; [by rewrite Hx|by apply IH]. Qed.

Lemma verifying_more n t v i t' v' l r : i_recovery i = true -> verifying n t' v' l r ->
  success v = false -> verifying (S n) t v ([Ran i t'; Verified id (Ok v')] ++ l) r.
Proof.
  intros Hi [H1 H2 H3 H4 H5 H6] Hv. split.
  - rewrite runs_app. change (runs [Ran i t'; Verified id (Ok v')]) with 1%nat. lia.
  - apply stops_app; [by repeat constructor|done].
  - repeat constructor; [intros j [= <-]; done|done|done].
  - simpl. by split_and!.
  - intros t1 v1 Hr. right. destruct (H5 t1 v1 Hr) as [(-> & -> & ->)|(a & j & ->)]; [by exists [], i|].
    by exists ([Ran i t'; Verified id (Ok v')] ++ a), j.
  - intros t1 v1 Hr Hf. rewrite runs_app, (H6 t1 v1 Hr Hf). done.
Qed.

Lemma recover_verification_traced n : forall t v, traced w run (recover_verification w input id keys n t v) (verifying n t v).
Proof.
  induction n as [|n IH]; intros t v.
  - eapply traced_weaken; [apply traced_ret|]. intros l r [-> ->]. split; try done; [intros t' v' [= -> ->]; by left].
  - cbn [recover_verification]. destruct (success v) eqn:Hv.
    + eapply traced_weaken; [apply traced_ret|]. intros l r [-> ->].
      split; try done; [unfold runs; simpl; lia|intros t' v' [= -> ->]; by left|]. intros t' v' [= -> ->]. congruence.
    + set (i := execution _ _ _ _ true). eapply traced_weaken.
      * apply traced_bind; [by apply supervised_traced|]. intros t'. apply traced_bind; [apply verification_traced|]. intros v'. apply IH.
      * intros l r [(e & (x & -> & Hx & Ho) & ->)|(t' & l1 & l2 & -> & (x & -> & Hx & Ho) & H)].
        -- pose proof (one_run x). split; [lia|by repeat constructor| | |done|done].
           ++ repeat constructor. intros j Hj. rewrite Hx in Hj. by injection Hj as <-.
           ++ simpl. by destruct x.
        -- destruct (ran_of x t' Ho) as [j ->]. injection Hx as ->. destruct H as [(e & -> & ->)|(v' & l3 & l4 & -> & -> & H)].
           ++ split; [rewrite runs_app; unfold runs; simpl; lia|by repeat constructor| |by simpl; split_and!|done|done].
              repeat constructor; [by intros j [= <-]|done].
           ++ apply (verifying_more n t v i t' v' l4 r); done.
Qed.
End Plan.

(** ** Before the first execution *)

Definition preliminary (e : entry) : Prop :=
  match e with
  | HarnessRequest path _ => path = get_path \/ path = route_path
  | CodexRun _ | ThreadAttached _ _ => False
  | _ => True
  end.
Definition prepares {A} (m : M State A) : Prop := forall s, exists l, log (m s).2 = log s ++ l /\ Forall preliminary l.

Section Prepares.
Context (w : World).
Lemma prepares_bind {A B} (m : M State A) (k : A -> M State B) : prepares m -> (forall a, prepares (k a)) -> prepares (m ≫= k).
Proof.
  intros Hm Hk s. rewrite M_bind_run. destruct (Hm s) as (l1 & E1 & H1). destruct (m s) as [[a|e] s1]; simpl in *; [|by exists l1].
  destruct (Hk a s1) as (l2 & E2 & H2). exists (l1 ++ l2). rewrite E2, E1, app_assoc. split; [done|by apply Forall_app].
Qed.
Lemma prepares_same {A} (m : M State A) : (forall s, log (m s).2 = log s) -> prepares m.
Proof. intros H s. exists []. by rewrite H, app_nil_r. Qed.
Lemma prepares_await {A} e (oracle : list entry -> result A) : preliminary e -> prepares (await w e oracle).
Proof. intros He s. exists [e]. by repeat constructor. Qed.
Lemma prepares_note e : preliminary e -> prepares (note e).
Proof. intros He s. exists [e]. by repeat constructor. Qed.
Lemma prepares_guard bad msg : prepares (js_guard bad msg).
Proof. apply prepares_same. intros s. unfold js_guard. by destruct bad. Qed.
Lemma prepares_get id : prepares (getHarnessRun w id).
Proof.
  apply prepares_bind; [apply prepares_await; by left|]. intros raw. apply prepares_bind; [by apply prepares_same|]. intros run.
  apply prepares_bind; [|intros; by apply prepares_same]. unfold releaseTerminalCodexRun.
  destruct (codex w); [case_bool_decide; [by apply prepares_same|by apply prepares_await]|by apply prepares_same].
Qed.
Lemma prepares_prepare id text : prepares (prepareHarnessCodexTurn w id text).
Proof.
  unfold prepareHarnessCodexTurn. destruct (codex w) as [c|]; [|by apply prepares_same].
  apply prepares_bind; [apply prepares_get|]. intros run. apply prepares_bind.
  { apply prepares_bind; [apply prepares_await; by right|]. intros raw. apply prepares_bind; [by apply prepares_same|]. intros; apply prepares_guard. }
  intros _. destruct (npmSkillPreflight w) as [f|]; [|by apply prepares_same].
  apply prepares_bind; [by apply prepares_await|]. intros npm. apply prepares_bind.
  { destruct (if promptNeedsAutomaticSkills w text then _ else _); [by apply prepares_await|by apply prepares_same]. }
  intros plugins s. eexists [_]. split; [reflexivity|]. by repeat constructor.
Qed.
Lemma prepares_consume id runId text ws : prepares (consume w id runId text ws).
Proof. apply prepares_same. intros s. unfold consume. by destruct (consumePreparedCodexTurn _ _ _ _ _ _ _). Qed.
End Prepares.

(** ** Properties *)

(** What a turn did before it returned or threw [r] *)
Record supervised (w : World) (run : list entry -> RunInput -> result Turn) (input : TurnInput) (segs : list segment)
    (r : result VerifiedCodexExecution) : Prop := {
  (** Codex is run at most five times. *)
  s_runs : (runs segs <= 5)%nat;
  (** After a denial nothing more is run, verified or reported. *)
  s_denied : forall a x b, segs = a ++ x :: b -> was_denied x = true -> b = [];
  (** Only what has just run to its end is verified. *)
  s_verified : forall a id q b, segs = a ++ Verified id q :: b -> exists a' i t, a = a' ++ [Ran i t];
  (** The first execution is given the prompt, the others are marked as recoveries. *)
  s_prompts : forall x rest, segs = x :: rest ->
    (exists i, input_of x = Some i /\ i_prompt i = prompt input /\ i_recovery i = false) /\ Forall is_recovery rest;
  (** The turn returned is the last one run, and the verification after it passed. *)
  s_result : forall e, r = Ok e -> exists a i t id v keys activity,
    segs = a ++ [Ran i t; Verified id (Ok v)] /\ success v = true /\ turn e = with_skills t keys activity /\
    e_proofType e = if_truthy (proofType v) /\ e_proofCommand e = if_truthy (proofCommand v) }.

Section Supervision.
Context (w : World) (run : list entry -> RunInput -> result Turn) (Hcodex : codex w = Some run).

(** The part of a turn that runs Codex *)
Definition body (input : TurnInput) (id : jstr) (p : Preparation) : M State (Turn * NativeVerificationResult) :=
  result ← first_result w input id (skillKeys p);
  v ← runNativeVerification w id;
  recover_verification w input id (skillKeys p) MAX_CODEX_RECOVERY_ATTEMPTS result v.

Lemma stops_snoc a y : stops_when_denied (a ++ [y]) -> Forall (fun x => was_denied x = false) a.
Proof.
  induction a as [|x a IH]; [constructor|]. intros [H1 H2]. constructor; [|by apply IH].
  destruct (was_denied x); [|done]. specialize (H1 eq_refl). by destruct a.
Qed.

(** What the part has done when it returns or throws *)
Record body_ok (input : TurnInput) (segs : list segment) (r : result (Turn * NativeVerificationResult)) : Prop := {
  b_runs : (runs segs <= 5)%nat;
  b_denied : stops_when_denied segs;
  b_verifies : verifies_runs false segs;
  b_first : exists x rest, segs = x :: rest /\ (exists i, input_of x = Some i /\ i_prompt i = prompt input /\ i_recovery i = false) /\
    Forall is_recovery rest;
  b_last : forall t v, r = Ok (t, v) -> exists a i id, segs = a ++ [Ran i t; Verified id (Ok v)] }.

Lemma body_traced input id p : traced w run (body input id p) (body_ok input).
Proof.
  unfold body. eapply traced_weaken.
  - apply traced_bind; [by apply first_result_traced|]. intros t. apply traced_bind; [apply verification_traced|]. intros v.
    by apply recover_verification_traced.
  - intros l r [(e & [[H1 H2 H3 H4] (x & rest & -> & Hx & Hrest)] & ->)|(t & l1 & l2 & -> & [[H1 H2 H3 H4] (x & rest & -> & Hx & Hrest)] & H)].
    + split; [lia|done|by apply plain_verifies| |done]. exists x, rest. split_and!; [done|by eexists|done].
    + destruct (H4 t eq_refl) as (a & i & Ea). rewrite Ea in H2.
      assert (Hfirst : forall l, Forall is_recovery l -> exists y r, (x :: rest) ++ l = y :: r /\
        (exists i, input_of y = Some i /\ i_prompt i = prompt input /\ i_recovery i = false) /\ Forall is_recovery r).
      { intros l Hl. exists x, (rest ++ l). split_and!; [done|by eexists|by apply Forall_app]. }
      assert (Hnd : Forall (fun y => was_denied y = false) (x :: rest)).
      { rewrite Ea. apply Forall_app. split; [by eapply stops_snoc|by repeat constructor]. }
      assert (Hv : forall b q, verifies_runs false b -> verifies_runs false ((x :: rest) ++ Verified id q :: b)).
      { intros b q Hb. rewrite verifies_runs_app by done. split; [by apply plain_verifies|]. by rewrite Ea, last_snoc. }
      assert (Hrec : forall q, is_recovery (Verified id q)) by (by intros q i').
      destruct H as [(e & -> & ->)|(v & l3 & l4 & -> & -> & [V1 V2 V3 V4 V5 _])].
      * split; [rewrite runs_app; unfold runs at 2; simpl; lia|apply stops_app; [done|by repeat constructor]|by apply Hv| |done].
        apply Hfirst. by repeat constructor.
      * split.
        -- rewrite !runs_app. unfold runs at 2. unfold MAX_CODEX_RECOVERY_ATTEMPTS in V1. simpl length. lia.
        -- apply stops_app; [done|]. apply stops_app; [by repeat constructor|done].
        -- by apply Hv.
        -- apply Hfirst. by constructor.
        -- intros t' v' Hr. destruct (V5 t' v' Hr) as [(-> & -> & ->)|(b & j & ->)].
           ++ rewrite Ea. exists a, i, id. by rewrite <- app_assoc.
           ++ exists ((x :: rest) ++ [Verified id (Ok v)] ++ b), j, id. by rewrite <- !app_assoc.
Qed.

Lemma body_bind {A} input id p (k : Turn * NativeVerificationResult -> M State A) s :
  (result ← first_result w input id (skillKeys p);
   v ← runNativeVerification w id;
   last ← recover_verification w input id (skillKeys p) MAX_CODEX_RECOVERY_ATTEMPTS result v;
   k last) s = (body input id p ≫= k) s.
Proof.
  unfold body. rewrite !M_bind_run. destruct (first_result _ _ _ _ s) as [[t|e] s1]; [|done]. rewrite !M_bind_run.
  by destruct (runNativeVerification w id s1) as [[v|e] s2].
Qed.

Lemma body_supervised input segs r q : body_ok input segs r ->
  (forall e, q = Ok e -> exists t v keys activity, r = Ok (t, v) /\ success v = true /\ turn e = with_skills t keys activity /\
    e_proofType e = if_truthy (proofType v) /\ e_proofCommand e = if_truthy (proofCommand v)) ->
  supervised w run input segs q.
Proof.
  intros [B1 B2 B3 (x & rest & -> & Hx & Hrest) B5] Hq. split.
  - done.
  - intros a y b E. by eapply stops_when_denied_split.
  - intros a id v b E. by destruct (verifies_runs_split _ _ _ _ _ _ B3 E) as [[_ ?]|?].
  - by intros y rest' [= <- <-].
  - intros e He. destruct (Hq e He) as (t & v & keys & activity & Hr & Hs & Ht & Hp1 & Hp2). destruct (B5 t v Hr) as (a & i & id & ->).
    by exists a, i, t, id, v, keys, activity.
Qed.

(** C2: whatever the daemon, Codex and the preflights answer, and whatever other
    calls do to the prepared turns meanwhile, a turn's log is a few preliminary
    requests, then executions and verifications, then at most the note of its
    thread. Each run of Codex comes right after a start that the daemon
    acknowledged and right before the report of its end; there are at most five
    runs, and nothing at all after a denial; only what has just run to its end is
    verified; the first run is given the prompt and the others are marked as
    recoveries; and a turn that is returned is the last one run, and the
    daemon's verification right after it passed. *)
Theorem turn_is_supervised input s :
  let (r, s') := runHarnessCodexTurnVerified w input s in
  exists intro segs outro, log s' = log s ++ intro ++ entries segs ++ outro /\
    Forall preliminary intro /\ history w run (log s ++ intro) segs /\
    (outro = [] \/ exists id thread, outro = [ThreadAttached id thread]) /\
    supervised w run input segs r.
Proof.
  unfold runHarnessCodexTurnVerified. rewrite Hcodex.
  assert (Hstop : forall e s' l, log s' = log s ++ l -> Forall preliminary l -> exists intro segs outro,
    log s' = log s ++ intro ++ entries segs ++ outro /\ Forall preliminary intro /\ history w run (log s ++ intro) segs /\
    (outro = [] \/ exists id thread, outro = [ThreadAttached id thread]) /\ supervised w run input segs (Throw e)).
  { intros e s' l E Hl. exists l, [], []. rewrite !app_nil_r. split_and!; [done|done|done|by left|].
    split; [unfold runs; simpl; lia|by intros []|by intros []|done|done]. }
  rewrite M_bind_run. destruct (prepares_get w (runId input) s) as (l1 & E1 & H1).
  destruct (getHarnessRun w (runId input) s) as [[hr|e] s1]; simpl in E1; [|by apply (Hstop e s1 l1)].
  rewrite M_bind_run. match goal with |- context [match ?m s1 with _ => _ end] => assert (Hprep : prepares m) end.
  { destruct (if_truthy _); [by apply prepares_same|apply prepares_prepare]. }
  destruct (Hprep s1) as (l2 & E2 & H2). match goal with |- context [match ?m s1 with _ => _ end] => destruct (m s1) as [[pid|e] s2] end;
    simpl in E2; rewrite E1, <- app_assoc in E2; assert (H12 : Forall preliminary (l1 ++ l2)) by (by apply Forall_app);
    [|by apply (Hstop e s2 (l1 ++ l2))].
  rewrite M_bind_run. destruct (prepares_consume w pid (runId input) (prompt input) (HarnessParser.run_workspace hr) s2) as (l3 & E3 & H3).
  destruct (consume w pid _ _ _ s2) as [[p|e] s3]; simpl in E3; rewrite E2, <- app_assoc in E3;
    assert (H123 : Forall preliminary ((l1 ++ l2) ++ l3)) by (by apply Forall_app); [|by apply (Hstop e s3 ((l1 ++ l2) ++ l3))].
  clear Hstop. set (intro := (l1 ++ l2) ++ l3) in *.
  rewrite body_bind, M_bind_run.
  destruct (body_traced input (HarnessParser.run_id hr) p s3) as (segs & Eb & Hb & Hok). rewrite E3, <- app_assoc in Eb. rewrite E3 in Hb.
  destruct (body input (HarnessParser.run_id hr) p s3) as [[[t v]|e] s4]; simpl in Eb, Hok;
    [|exists intro, segs, []; rewrite app_nil_r; split_and!; [done|done|done|by left|by eapply body_supervised]].
  simpl. destruct (success v) eqn:Hv; simpl.
  2: { exists intro, segs, []. rewrite app_nil_r. split_and!; [done|done|done|by left|by eapply body_supervised]. }
  rewrite M_bind_run. simpl. rewrite M_bind_run. simpl. rewrite M_bind_run. unfold lift.
  destruct (attachThread w (log s4) (HarnessParser.run_id hr) (threadId t)) as [[]|e]; simpl; exists intro, segs, [ThreadAttached (HarnessParser.run_id hr) (threadId t)];
    rewrite Eb, <- !app_assoc; (split_and!; [done|done|done|right; by eexists _, _|]); eapply body_supervised; try done.
  intros e [= <-]. by exists t, v, (skillKeys p), (skillActivity p).
Qed.
End Supervision.

(** ** Recovery prompts *)

Lemma boundedRecoveryText_len v max : 4 <= max -> utf8_len (boundedRecoveryText v max) <= max.
Proof.
  intros Hm. unfold boundedRecoveryText. set (s := List.filter _ v). destruct (utf8_len s <=? max) eqn:E; to_prop; [done|].
  etransitivity; [apply utf8_len_app|]. change (utf8_len [TaskParser.ELLIPSIS]) with 3.
  pose proof (strip_cut_len (Z.max 1 (max - 3)) s). lia.
Qed.
Lemma boundedRecoveryText_prefix p t max : p <> [] -> Forall (fun u => (u < 0x80)%N /\ u <> 0%N) p -> slen p <= max - 3 ->
  exists t', boundedRecoveryText (p ++ t) max = p ++ t'.
Proof.
  intros Hp Hu Hl. unfold boundedRecoveryText. rewrite List.filter_app.
  assert (List.filter (fun u => negb (is_nul u)) p = p) as ->.
  { clear Hp Hl. induction Hu as [|u p [_ Hu] _ IH]; [done|]. simpl. unfold is_nul at 1. rewrite (proj2 (N.eqb_neq u 0)) by done. simpl. by f_equal. }
  destruct (utf8_len _ <=? max); [by eexists|]. rewrite cut_bytes_ascii; [|eapply Forall_impl; [exact Hu|]; by intros ? []|lia].
  rewrite strip_replacements_app; [rewrite <- app_assoc; by eexists|].
  destruct p as [|u p _] using rev_ind; [done|]. rewrite last_snoc. apply Forall_app in Hu as [_ Hu].
  apply Forall_cons in Hu as [[Hu _] _]. unfold REPLACEMENT. lia.
Qed.

Lemma recovery_recognized t : CodexNative.isCodexHarnessInternalRecoveryPrompt
  (boundedRecoveryText (CodexNative.CODEX_HARNESS_INTERNAL_RECOVERY_PREFIX ++ t) MAX_RECOVERY_CONTEXT_BYTES) = true.
Proof.
  destruct (boundedRecoveryText_prefix CodexNative.CODEX_HARNESS_INTERNAL_RECOVERY_PREFIX t MAX_RECOVERY_CONTEXT_BYTES) as [t' ->]; [done| |done|].
  { apply Forall_forall. intros u Hu. apply list_elem_of_In in Hu. vm_compute in Hu. repeat destruct Hu as [<-|Hu]; done. }
  unfold CodexNative.isCodexHarnessInternalRecoveryPrompt. rewrite trim_start_fixed by done. apply starts_with_spec. by exists t'.
Qed.

(** Every prompt that a turn makes up to recover is at most 24 KiB of UTF-8,
    and the Codex history recognizes it as internal, whatever the user's
    prompt, the error and the output of the failed proof contain. *)
Theorem recovery_prompts_are_internal original e v attempt p :
  p = buildHarnessExecutionRecoveryPrompt original e attempt \/ p = buildHarnessRecoveryPrompt original v attempt ->
  utf8_len p <= MAX_RECOVERY_CONTEXT_BYTES /\ CodexNative.isCodexHarnessInternalRecoveryPrompt p = true.
Proof.
  intros [-> | ->]; (split; [by apply boundedRecoveryText_len|apply recovery_recognized]).
Qed.

(** ** Examples *)

(** A daemon that knows one run, and whose first verification fails *)
Definition sample_run_answer : value := HarnessParser.run_value HarnessEvents.sample_run.
Definition is_finish (e : entry) : bool := match e with HarnessRequest p _ => bool_decide (p = finish_path) | _ => false end.
Definition sample_verification (ok : bool) : value := VObject
  [(js "run_id", VString (js "run-1")); (js "skipped", VBool false); (js "success", VBool ok); (js "timed_out", VBool false);
   (js "truncated", VBool false); (js "stdout", VString []); (js "stderr", VString (js "1 test failed")); (js "proof_command", VString (js "npm test"))].
Definition sample_world : World := {|
  harnessRequest := fun l path _ =>
    if bool_decide (path = get_path) then Ok sample_run_answer
    else if bool_decide (path = verification_path) then Ok (sample_verification (2 <=? length (List.filter is_finish l))%nat)
    else Ok (VObject [run_field (js "run-1")]);
  codex := Some (fun l i => Ok {| t_runId := i_runId i; t_workspace := js "api"; threadId := js "thread";
    turnId := js_int (Z.of_nat (length l)); status := js "completed"; response := None; resumed := false; recoveredBeforeTurn := false;
    activeSkills := []; t_skillActivity := None |});
  npmSkillPreflight := None; skillPreflight := None; promptNeedsAutomaticSkills := fun _ => false;
  attachThread := fun _ _ _ => Ok tt; Date_now := fun _ _ => 10; randomUUID := fun _ => js "uuid"; sha256 := fun s => s;
  activity_JSON := fun _ _ _ => []; others := fun _ t => t |}.
Definition sample_input : TurnInput := {| runId := js "run-1"; prompt := js "fix it"; preparationId := Some (js "p"); model := None |}.
Definition sample_state : State := {| log := []; preparedCodexTurns := [(js "p", sample_preparation 0)] |}.

Lemma turn_is_supervised_witness :
  is_ok (runHarnessCodexTurnVerified sample_world sample_input sample_state).1 = true /\
  exists a i t id v, log (runHarnessCodexTurnVerified sample_world sample_input sample_state).2
    = a ++ entries [Ran i t; Verified id (Ok v)] ++ [ThreadAttached (js "run-1") (js "thread")].
Proof.
  split; [vm_compute; reflexivity|].
  pose proof (turn_is_supervised sample_world _ eq_refl sample_input sample_state) as H.
  destruct (runHarnessCodexTurnVerified sample_world sample_input sample_state) as [r s'] eqn:E.
  destruct H as (intro & segs & outro & El & _ & _ & Ho & [_ _ _ _ Hr]).
  assert (is_ok r = true) as Hok by (vm_compute in E; injection E as <- _; reflexivity).
  destruct r as [e|e]; [|discriminate Hok]. destruct (Hr e eq_refl) as (a & i & t & id & v & keys & activity & -> & _).
  exists (intro ++ entries a), i, t, id, v. simpl in El |- *. rewrite El, entries_app, <- !app_assoc.
  assert (Hl : last (log s') = Some (ThreadAttached (js "run-1") (js "thread"))) by (vm_compute in E; injection E as _ <-; reflexivity).
  rewrite El in Hl. destruct Ho as [->|(id' & thread & ->)].
  - rewrite entries_app, !last_app in Hl. discriminate Hl.
  - rewrite !last_app in Hl. injection Hl as -> ->. reflexivity.
Defined.

Lemma recovery_prompts_are_internal_witness :
  CodexNative.isCodexHarnessInternalRecoveryPrompt (buildHarnessExecutionRecoveryPrompt (js "fix it") (Error (js "timed out")) 1) = true.
Proof.
  exact (proj2 (recovery_prompts_are_internal (js "fix it") (Error (js "timed out"))
    {| v_runId := []; skipped := false; proofType := None; proofSource := None; proofCommand := None; success := false; exitCode := None;
       timedOut := false; stdout := []; stderr := []; truncated := false |} 1 _ (or_introl eq_refl))).
Defined.
End VerifiedTurn.
