(* ===== verification/CodexHost.v ===== *)
(** * The Codex app-server host

    [desktop/src/main/codex-app-server-host.ts]: one app-server process and the
    thread bound to it, above [CodexJsonRpc] and [CodexProtocol]. Its methods
    are [async]: a call runs to an [await], where its continuation is kept as a
    stack of frames, innermost function first. A step resumes one call whose
    promise has settled; what the process does (output, exit, errors) only
    comes in when no call is ready, as JavaScript works off its microtasks
    before it takes the next event.

    Children are numbered as they are spawned; child [k] has connection [k].
    [JSON], the working directory and whether a server-request handler is set
    are arguments. The tail of the child's standard error and its termination
    by signals are left out. *)

From S2P Require Import Prelude JsValue Utf8 JsMap Path Validate CodexProtocol CodexJsonRpc CodexThreadStore CodexNative.

Module CodexHost.
Module Rpc := CodexJsonRpc.CodexJsonRpc.
Module Proto := CodexProtocol.CodexProtocol.
Module Native := CodexNative.CodexNative.

Definition CODEX_APP_SERVER_ARGS : list jstr := map js
  ["app-server"; "--stdio"; "--enable"; "browser_use"; "--enable"; "browser_use_external"; "--enable";
   "browser_use_full_cdp_access"; "--enable"; "computer_use"; "--enable"; "in_app_browser"]%string.
Definition MAX_SKILL_ROOTS : Z := 8.
Definition MAX_ACTIVE_SKILLS : Z := 2.

Inductive CodexSandboxMode := read_only | workspace_write | danger_full_access.
Definition sandbox_name (m : CodexSandboxMode) : jstr :=
  js match m with read_only => "read-only" | workspace_write => "workspace-write"
             | danger_full_access => "danger-full-access" end.
Inductive CodexApprovalPolicy := untrusted | on_request | never.
Definition approval_name (p : CodexApprovalPolicy) : jstr :=
  js match p with untrusted => "untrusted" | on_request => "on-request" | never => "never" end.

Record CodexThreadOptions := {
  o_cwd : jstr; o_sandbox : option CodexSandboxMode; o_approvalPolicy : option CodexApprovalPolicy;
  o_model : option jstr; o_modelProvider : option jstr }.
(** [AttachedThread]: its options are normalized. *)
Record ThreadOptions := {
  cwd : jstr; sandbox : CodexSandboxMode; approvalPolicy : CodexApprovalPolicy;
  model : option jstr; modelProvider : option jstr }.
Record AttachedThread := { id : jstr; options : ThreadOptions }.
Record DesiredSkillConfig := { extraRoots : list jstr; skills_cwd : jstr }.
Record CodexSkillInvocation := { skill_name : jstr; skill_path : jstr }.
Record CodexTurnResult := {
  r_threadId : jstr; r_turnId : jstr; r_status : Proto.CodexTurnStatus; r_response : option jstr;
  r_tokenUsage : option Proto.CodexThreadTokenUsage; r_recoveredBeforeTurn : bool }.

(** What a promise delivers. *)
Inductive val :=
| VoidV
| Json (v : value)
| Recovered (b : bool)
| Turn (t : Proto.CodexTurn)
| Skills (l : Proto.CodexSkillsListResponse)
| Started (r : Proto.CodexThreadStartResponse)
| Answers (l : list value)
| TurnResult (r : CodexTurnResult).

(** A reading of the app-server's records: from the answers so far, its next
    request or its end. A reading that keeps the connection it started with
    is [pinned]. *)
Definition reading := list value -> option (jstr * value).

(** The continuations, by function and [await]. *)
Inductive frame :=
| EnsureInitialized (k : nat)
| EnsureSkills (k : nat)
| SkillsRootsSet (k : nat)
| SkillsListed
| ReadReady (pinned : bool) (next : reading)
| ReadAnswered (pin : option nat) (next : reading) (sofar : list value)
| StartReady (o : ThreadOptions)
| StartAnswered (o : ThreadOptions)
| ResumeReady (threadId : jstr) (o : ThreadOptions)
| ResumeAnswered (threadId : jstr) (o : ThreadOptions)
| ConfigureReady (next : DesiredSkillConfig)
| ReattachReady (attached : AttachedThread)
| ReattachAnswered (attached : AttachedThread)
| TurnReady (prompt : jstr) (skills : list CodexSkillInvocation)
| TurnSkills (recovered : bool) (prompt : jstr) (skills : list CodexSkillInvocation)
| TurnStarted (recovered : bool)
| TurnEnded (recovered : bool) (turnId : jstr).

(** The promise a call waits for: a request's, a turn's, or one that is
    already settled (a call to an [async] function that did not wait). *)
Inductive waiting :=
| OnRequest (k : nat) (rid : Z)
| OnTurn (p : nat)
| Settled (o : result val).

Inductive task := Wait (w : waiting) (fs : list frame) | Done (o : result val).
(** How far a function runs: to its end, or to an [await]. *)
Inductive outcome := Return (o : result val) | Suspend (w : waiting) (fs : list frame).

Record Process := {
  child : option nat; rpc : option nat; initializeResponse : option Proto.CodexInitializeResponse;
  skillConfigApplied : bool; lastSkills : option Proto.CodexSkillsListResponse }.
Record Turns := {
  completedTurns : list (jstr * Proto.CodexTurn); turnWaiters : list (jstr * nat);
  turnUsage : list (jstr * Proto.CodexThreadTokenUsage);
  agentMessageItems : list (jstr * list (jstr * jstr)); activeTurnId : option jstr }.
Record Host := {
  process : Process; turns : Turns; thread : option AttachedThread;
  desiredSkillConfig : option DesiredSkillConfig; disposed : bool; intentionalShutdown : bool;
  conns : list Rpc.Connection;                       (* one per child spawned *)
  spawned : list jstr;                               (* their working directories *)
  exited : gset nat;                                 (* whose exit code is known *)
  promises : list (option (result Proto.CodexTurn)); (* of [waitForTurn] *)
  events : list Proto.CodexServerEvent;              (* what [onEvent] was told *)
  tasks : list task }.

Definition no_process : Process :=
  {| child := None; rpc := None; initializeResponse := None; skillConfigApplied := false; lastSkills := None |}.
Definition no_turns : Turns :=
  {| completedTurns := []; turnWaiters := []; turnUsage := []; agentMessageItems := []; activeTurnId := None |}.
Definition new_host : Host :=
  {| process := no_process; turns := no_turns; thread := None; desiredSkillConfig := None; disposed := false;
     intentionalShutdown := false; conns := []; spawned := []; exited := ∅; promises := []; events := []; tasks := [] |}.

(** ** Updates *)

Definition with_process (p : Process) (s : Host) : Host :=
  {| process := p; turns := turns s; thread := thread s; desiredSkillConfig := desiredSkillConfig s;
     disposed := disposed s; intentionalShutdown := intentionalShutdown s; conns := conns s; spawned := spawned s;
     exited := exited s; promises := promises s; events := events s; tasks := tasks s |}.
Definition with_turns (t : Turns) (s : Host) : Host :=
  {| process := process s; turns := t; thread := thread s; desiredSkillConfig := desiredSkillConfig s;
     disposed := disposed s; intentionalShutdown := intentionalShutdown s; conns := conns s; spawned := spawned s;
     exited := exited s; promises := promises s; events := events s; tasks := tasks s |}.
Definition with_thread (t : option AttachedThread) (s : Host) : Host :=
  {| process := process s; turns := turns s; thread := t; desiredSkillConfig := desiredSkillConfig s;
     disposed := disposed s; intentionalShutdown := intentionalShutdown s; conns := conns s; spawned := spawned s;
     exited := exited s; promises := promises s; events := events s; tasks := tasks s |}.
Definition with_desired (d : option DesiredSkillConfig) (s : Host) : Host :=
  {| process := process s; turns := turns s; thread := thread s; desiredSkillConfig := d;
     disposed := disposed s; intentionalShutdown := intentionalShutdown s; conns := conns s; spawned := spawned s;
     exited := exited s; promises := promises s; events := events s; tasks := tasks s |}.
Definition with_shutdown (d i : bool) (s : Host) : Host :=
  {| process := process s; turns := turns s; thread := thread s; desiredSkillConfig := desiredSkillConfig s;
     disposed := d; intentionalShutdown := i; conns := conns s; spawned := spawned s;
     exited := exited s; promises := promises s; events := events s; tasks := tasks s |}.
Definition with_conns (cs : list Rpc.Connection) (s : Host) : Host :=
  {| process := process s; turns := turns s; thread := thread s; desiredSkillConfig := desiredSkillConfig s;
     disposed := disposed s; intentionalShutdown := intentionalShutdown s; conns := cs; spawned := spawned s;
     exited := exited s; promises := promises s; events := events s; tasks := tasks s |}.
Definition with_children (ds : list jstr) (ex : gset nat) (s : Host) : Host :=
  {| process := process s; turns := turns s; thread := thread s; desiredSkillConfig := desiredSkillConfig s;
     disposed := disposed s; intentionalShutdown := intentionalShutdown s; conns := conns s; spawned := ds;
     exited := ex; promises := promises s; events := events s; tasks := tasks s |}.
Definition with_promises (ps : list (option (result Proto.CodexTurn))) (s : Host) : Host :=
  {| process := process s; turns := turns s; thread := thread s; desiredSkillConfig := desiredSkillConfig s;
     disposed := disposed s; intentionalShutdown := intentionalShutdown s; conns := conns s; spawned := spawned s;
     exited := exited s; promises := ps; events := events s; tasks := tasks s |}.
Definition with_events (es : list Proto.CodexServerEvent) (s : Host) : Host :=
  {| process := process s; turns := turns s; thread := thread s; desiredSkillConfig := desiredSkillConfig s;
     disposed := disposed s; intentionalShutdown := intentionalShutdown s; conns := conns s; spawned := spawned s;
     exited := exited s; promises := promises s; events := es; tasks := tasks s |}.
Definition with_tasks (ts : list task) (s : Host) : Host :=
  {| process := process s; turns := turns s; thread := thread s; desiredSkillConfig := desiredSkillConfig s;
     disposed := disposed s; intentionalShutdown := intentionalShutdown s; conns := conns s; spawned := spawned s;
     exited := exited s; promises := promises s; events := events s; tasks := ts |}.

Definition set_skillConfigApplied (b : bool) (p : Process) : Process :=
  {| child := child p; rpc := rpc p; initializeResponse := initializeResponse p; skillConfigApplied := b;
     lastSkills := lastSkills p |}.
Definition set_lastSkills (l : option Proto.CodexSkillsListResponse) (p : Process) : Process :=
  {| child := child p; rpc := rpc p; initializeResponse := initializeResponse p;
     skillConfigApplied := skillConfigApplied p; lastSkills := l |}.
Definition set_initializeResponse (r : option Proto.CodexInitializeResponse) (p : Process) : Process :=
  {| child := child p; rpc := rpc p; initializeResponse := r; skillConfigApplied := skillConfigApplied p;
     lastSkills := lastSkills p |}.
Definition set_child (c : option nat) (r : option nat) (p : Process) : Process :=
  {| child := c; rpc := r; initializeResponse := initializeResponse p; skillConfigApplied := skillConfigApplied p;
     lastSkills := lastSkills p |}.

Definition set_completed (c : list (jstr * Proto.CodexTurn)) (t : Turns) : Turns :=
  {| completedTurns := c; turnWaiters := turnWaiters t; turnUsage := turnUsage t;
     agentMessageItems := agentMessageItems t; activeTurnId := activeTurnId t |}.
Definition set_waiters (w : list (jstr * nat)) (t : Turns) : Turns :=
  {| completedTurns := completedTurns t; turnWaiters := w; turnUsage := turnUsage t;
     agentMessageItems := agentMessageItems t; activeTurnId := activeTurnId t |}.
Definition set_usage (u : list (jstr * Proto.CodexThreadTokenUsage)) (t : Turns) : Turns :=
  {| completedTurns := completedTurns t; turnWaiters := turnWaiters t; turnUsage := u;
     agentMessageItems := agentMessageItems t; activeTurnId := activeTurnId t |}.
Definition set_items (i : list (jstr * list (jstr * jstr))) (t : Turns) : Turns :=
  {| completedTurns := completedTurns t; turnWaiters := turnWaiters t; turnUsage := turnUsage t;
     agentMessageItems := i; activeTurnId := activeTurnId t |}.
Definition set_active (a : option jstr) (t : Turns) : Turns :=
  {| completedTurns := completedTurns t; turnWaiters := turnWaiters t; turnUsage := turnUsage t;
     agentMessageItems := agentMessageItems t; activeTurnId := a |}.

Definition on_process (f : Process -> Process) (s : Host) : Host := with_process (f (process s)) s.
Definition on_turns (f : Turns -> Turns) (s : Host) : Host := with_turns (f (turns s)) s.
Definition on_conn (k : nat) (f : Rpc.Connection -> Rpc.Connection) (s : Host) : Host :=
  with_conns (alter f k (conns s)) s.

(** ** Helpers *)

Definition nonempty (o : option jstr) : option jstr :=
  match o with Some s => if truthy s then Some s else None | None => None end.
Definition skillConfigEquals (left : option DesiredSkillConfig) (right : DesiredSkillConfig) : bool :=
  match left with
  | Some l => bool_decide (skills_cwd l = skills_cwd right) && bool_decide (extraRoots l = extraRoots right)
  | None => false
  end.

Definition skill_value (name path : jstr) : value :=
  VObject [(js "type", VString (js "skill")); (js "name", VString name); (js "path", VString path)].
Definition input_value (i : Proto.CodexUserInput) : value :=
  match i with
  | Proto.input_text t => VObject [(js "type", VString (js "text")); (js "text", VString t); (js "text_elements", VArray [])]
  | Proto.input_skill n p => skill_value n p
  end.
Definition optional_string (key : string) (o : option jstr) : list (jstr * value) :=
  match nonempty o with Some s => [(js key, VString s)] | None => [] end.
Definition start_params (o : ThreadOptions) : value :=
  VObject ([(js "cwd", VString (cwd o)); (js "approvalPolicy", VString (approval_name (approvalPolicy o)));
            (js "sandbox", VString (sandbox_name (sandbox o))); (js "ephemeral", VBool false);
            (js "serviceName", VString (js "sourcenerve-desktop")); (js "threadSource", VString (js "sourcenerve-desktop"));
            (js "sessionStartSource", VString (js "startup"))]
           ++ optional_string "model" (model o) ++ optional_string "modelProvider" (modelProvider o)).
Definition resume_params (threadId : jstr) (o : ThreadOptions) : value :=
  VObject ([(js "threadId", VString threadId); (js "cwd", VString (cwd o));
            (js "approvalPolicy", VString (approval_name (approvalPolicy o)));
            (js "sandbox", VString (sandbox_name (sandbox o))); (js "excludeTurns", VBool true)]
           ++ optional_string "model" (model o) ++ optional_string "modelProvider" (modelProvider o)).

Definition settlement_result (s : Rpc.settlement) : result val :=
  match s with
  | Rpc.Resolved v => Ok (Json v)
  | Rpc.RejectedRpc e => Throw (Error (Rpc.message e))
  | Rpc.RejectedClosed e => Throw e
  end.
Definition json (v : val) : value := match v with Json v => v | _ => VUndefined end.

Section Host.
Context (JSON_parse : jstr -> option value) (JSON_stringify : value -> jstr) (has_server_handler : bool).
Context (clientVersion process_cwd : jstr).

Definition normalizeAbsolutePath (p : jstr) (label : string) : result jstr :=
  if isAbsolute p then Ok (resolve process_cwd p) else fail (label +:+ " must be absolute").
Definition normalizeThreadOptions (o : CodexThreadOptions) : result ThreadOptions :=
  _ ← require (isAbsolute (o_cwd o)) "Codex workspace cwd must be absolute";
  Ok {| cwd := resolve process_cwd (o_cwd o); sandbox := default workspace_write (o_sandbox o);
        approvalPolicy := default never (o_approvalPolicy o); model := nonempty (o_model o);
        modelProvider := nonempty (o_modelProvider o) |}.
Definition normalizeSkillRoots (roots : list jstr) : result (list jstr) :=
  _ ← require (Z.of_nat (length roots) <=? MAX_SKILL_ROOTS) "Codex supports at most 8 projected skill roots";
  l ← map_result (fun r => normalizeAbsolutePath r "Codex skill root") roots;
  Ok (sort_by jstr_compare (unique l)).

(** ** Turns in progress *)

Definition updateAgentMessageItem (turnId itemId text : jstr) (append : bool) (t : Turns) : Turns :=
  let items := default [] (map_get (agentMessageItems t) turnId) in
  let text := if append then default [] (map_get items itemId) ++ text else text in
  set_items (map_set (agentMessageItems t) turnId (map_set items itemId text)) t.
Definition turnAgentMessageText (t : Turns) (turnId : jstr) : option jstr :=
  items ← map_get (agentMessageItems t) turnId;
  match filter (fun text => truthy (trim text) = true) (map_values items) with
  | [] => None
  | parts => Some (Native.boundedNativeText (join [10%N; 10%N] parts) Native.MAX_TEXT)
  end.

(** [resolve] or [reject] of a turn's promise: only the first counts. *)
Definition settle_promise (p : nat) (r : result Proto.CodexTurn) (s : Host) : Host :=
  with_promises (alter (fun o => match o with None => Some r | o => o end) p (promises s)) s.
Definition rejectActiveTurn (e : exn) (s : Host) : Host :=
  match nonempty (activeTurnId (turns s)) with
  | None => s
  | Some turnId =>
      match map_get (turnWaiters (turns s)) turnId with
      | None => s
      | Some p => settle_promise p (Throw e) (on_turns (set_waiters (map_delete (turnWaiters (turns s)) turnId)) s)
      end
  end.
Definition of_this_thread (threadId : jstr) (s : Host) : bool :=
  match thread s with Some t => bool_decide (id t = threadId) | None => false end.
Definition turn_completed (turn : Proto.CodexTurn) (s : Host) : Host :=
  match map_get (turnWaiters (turns s)) (Proto.turn_id turn) with
  | Some p => settle_promise p (Ok turn)
                (on_turns (set_waiters (map_delete (turnWaiters (turns s)) (Proto.turn_id turn))) s)
  | None => on_turns (fun t => set_completed (map_set (completedTurns t) (Proto.turn_id turn) turn) t) s
  end.
Definition handle_event (e : Proto.CodexServerEvent) (s : Host) : Host :=
  match e with
  | Proto.agent_message_delta th tu it d =>
      if of_this_thread th s then on_turns (updateAgentMessageItem tu it d true) s else s
  | Proto.agent_message_completed th tu it d =>
      if of_this_thread th s then on_turns (updateAgentMessageItem tu it d false) s else s
  | Proto.token_usage th tu u =>
      if of_this_thread th s then on_turns (fun t => set_usage (map_set (turnUsage t) tu u) t) s else s
  | Proto.turn_completed th turn => if of_this_thread th s then turn_completed turn s else s
  | Proto.notification _ _ => s
  end.
Definition handleNotification (method : jstr) (params : value) (s : Host) : Host :=
  match Proto.parseCodexServerEvent method params with
  | Throw e => rejectActiveTurn e s
  | Ok e => handle_event e (with_events (events s ++ [e]) s)
  end.

(** ** The process *)

Definition assertNotDisposed : M Host unit := fun s => js_guard (disposed s) "Codex app-server host is shut down" s.
Definition requireRpc : M Host nat := fun s =>
  match rpc (process s) with Some k => (Ok k, s) | None => (fail "Codex app-server is not initialized", s) end.
(** [this.rpc && this.child && this.child.exitCode === null && ...] *)
Definition running (s : Host) : bool :=
  match rpc (process s), child (process s) with
  | Some _, Some c => negb (bool_decide (c ∈ exited s))
  | _, _ => false
  end.

(** [await rpc.request(method, params)], with the continuation: [request] is
    [async], so its errors reject its promise. *)
Definition send (k : nat) (method : jstr) (params : value) (fr : frame) : M Host outcome := fun s =>
  match conns s !! k with
  | None => (fail "no such connection", s)
  | Some c =>
      let (r, c') := Rpc.request JSON_stringify method params c in
      (Ok (match r with
           | Ok rid => Suspend (OnRequest k rid) [fr]
           | Throw e => Suspend (Settled (Throw e)) [fr]
           end), with_conns (<[k := c']> (conns s)) s)
  end.
Definition await_request (k : nat) (method : string) (params : value) (fr : frame) : M Host outcome :=
  send k (js method) params fr.
Definition rpc_notify (k : nat) (method : string) : M Host unit := fun s =>
  match conns s !! k with
  | None => (fail "no such connection", s)
  | Some c => let (r, c') := Rpc.notify JSON_stringify (js method) VUndefined c in
              (r, with_conns (<[k := c']> (conns s)) s)
  end.
Definition close_rpc (k : option nat) (reason : jstr) (s : Host) : Host :=
  match k with Some k => on_conn k (Rpc.close reason) s | None => s end.

(** An [async] function: what it throws rejects its promise. *)
Definition async (m : M Host outcome) : Host -> outcome * Host := fun s =>
  match m s with
  | (Ok out, s') => (out, s')
  | (Throw e, s') => (Return (Throw e), s')
  end.
(** [await f()] with the continuation *)
Definition await (m : M Host outcome) (fr : frame) : M Host outcome := fun s =>
  let (out, s') := async m s in
  (Ok (match out with
       | Return o => Suspend (Settled o) [fr]
       | Suspend w fs => Suspend w (fs ++ [fr])
       end), s').
Definition return_ (v : val) : M Host outcome := mret (Return (Ok v)).

Definition applyDesiredSkills : M Host outcome := fun s =>
  match desiredSkillConfig s with
  | None => return_ (Skills (default [] (lastSkills (process s)))) s
  | Some d =>
      (k ← requireRpc;
       if skillConfigApplied (process s)
       then await_request k "skills/list"
              (VObject [(js "cwds", VArray [VString (skills_cwd d)]); (js "forceReload", VBool true)]) SkillsListed
       else await_request k "skills/extraRoots/set"
              (VObject [(js "extraRoots", VArray (map VString (extraRoots d)))]) (SkillsRootsSet k)) s
  end.
Definition skills_roots_set (k : nat) (o : result val) : M Host outcome :=
  _ ← lift o;
  _ ← modify (on_process (set_skillConfigApplied true));
  desired ← gets desiredSkillConfig;
  match desired with
  | None => throw "Cannot read properties of null (reading 'cwd')"
  | Some d => await_request k "skills/list"
                (VObject [(js "cwds", VArray [VString (skills_cwd d)]); (js "forceReload", VBool true)]) SkillsListed
  end.
Definition skills_listed (o : result val) : M Host outcome :=
  v ← lift o;
  listed ← lift (Proto.parseCodexSkillsListResponse (json v));
  _ ← modify (on_process (set_lastSkills (Some listed)));
  return_ (Skills listed).

(** The [catch] block of [ensureProcess] *)
Definition initialization_failed (k : nat) (e : exn) : M Host outcome :=
  _ ← modify (close_rpc (Some k) (js "Codex app-server initialization failed"));
  _ ← modify (on_process (fun p => set_child (if bool_decide (child p = Some k) then None else child p)
                                             (if bool_decide (rpc p = Some k) then None else rpc p) p));
  rethrow e.
Definition spawn (s : Host) : Host :=
  let k := length (conns s) in
  on_process (fun p => set_lastSkills None (set_skillConfigApplied false (set_child (Some k) (Some k) p)))
    (with_conns (conns s ++ [Rpc.connect])
      (with_children (spawned s ++ [match thread s with Some t => cwd (options t) | None => process_cwd end]) (exited s)
        (with_shutdown (disposed s) false s))).
Definition initialize_params : value := VObject
  [(js "clientInfo", VObject [(js "name", VString (js "sourcenerve-desktop")); (js "title", VString (js "SourceNerve Desktop"));
                              (js "version", VString clientVersion)]);
   (js "capabilities", VObject [(js "experimentalApi", VBool false)])].
Definition ensureProcess : M Host outcome :=
  _ ← assertNotDisposed;
  up ← gets running;
  if up : bool then return_ VoidV
  else
    k ← gets (fun s => length (conns s));
    _ ← modify spawn;
    try_catch (await_request k "initialize" initialize_params (EnsureInitialized k)) (initialization_failed k).
Definition ensure_initialized (k : nat) (o : result val) : M Host outcome :=
  try_catch
    (v ← lift o;
     r ← lift (Proto.parseCodexInitializeResponse (json v));
     _ ← modify (on_process (set_initializeResponse (Some r)));
     _ ← rpc_notify k "initialized";
     desired ← gets desiredSkillConfig;
     match desired with
     | Some _ => await applyDesiredSkills (EnsureSkills k)
     | None => return_ VoidV
     end) (initialization_failed k).
Definition ensure_skills (k : nat) (o : result val) : M Host outcome :=
  try_catch (_ ← lift o; return_ VoidV) (initialization_failed k).

(** ** The calls *)

Definition start_thread (o : CodexThreadOptions) : M Host outcome :=
  t ← gets thread;
  _ ← js_guard (bool_decide (is_Some t)) "Codex app-server host already owns a thread";
  normalized ← lift (normalizeThreadOptions o);
  await ensureProcess (StartReady normalized).
Definition start_ready (o : ThreadOptions) (r : result val) : M Host outcome :=
  _ ← lift r; k ← requireRpc; await_request k "thread/start" (start_params o) (StartAnswered o).
Definition start_answered (o : ThreadOptions) (r : result val) : M Host outcome :=
  v ← lift r;
  response ← lift (Proto.parseCodexThreadStartResponse (json v));
  _ ← assertNotDisposed;
  _ ← modify (with_thread (Some {| id := Proto.thread_id (Proto.started_thread response); options := o |}));
  return_ (Started response).

Definition resume_thread (threadId : jstr) (o : CodexThreadOptions) : M Host outcome :=
  _ ← js_guard (negb (truthy threadId)) "Codex thread id is required";
  t ← gets thread;
  _ ← js_guard (match t with Some t => negb (bool_decide (id t = threadId)) | None => false end)
        "Codex app-server host cannot switch threads";
  normalized ← lift (normalizeThreadOptions o);
  await ensureProcess (ResumeReady threadId normalized).
Definition resume_ready (threadId : jstr) (o : ThreadOptions) (r : result val) : M Host outcome :=
  _ ← lift r; k ← requireRpc; await_request k "thread/resume" (resume_params threadId o) (ResumeAnswered threadId o).
Definition resume_answered (threadId : jstr) (o : ThreadOptions) (r : result val) : M Host outcome :=
  v ← lift r;
  response ← lift (Proto.parseCodexThreadStartResponse (json v));
  _ ← assertNotDisposed;
  _ ← js_guard (negb (bool_decide (Proto.thread_id (Proto.started_thread response) = threadId)))
        "Codex resumed a different thread than requested";
  _ ← modify (with_thread (Some {| id := threadId; options := o |}));
  return_ (Started response).

Definition configure_skills (roots : list jstr) (dir : jstr) : M Host outcome :=
  extra ← lift (normalizeSkillRoots roots);
  dir ← lift (normalizeAbsolutePath dir "Codex skills cwd");
  await ensureProcess (ConfigureReady {| extraRoots := extra; skills_cwd := dir |}).
Definition configure_ready (next : DesiredSkillConfig) (r : result val) : M Host outcome :=
  _ ← lift r;
  desired ← gets desiredSkillConfig;
  _ ← (if skillConfigEquals desired next then mret tt else modify (on_process (set_skillConfigApplied false)));
  _ ← modify (with_desired (Some next));
  applyDesiredSkills.

(** The paged and single readings of the app-server's records *)
Definition read_call (pinned : bool) (next : reading) : M Host outcome := await ensureProcess (ReadReady pinned next).
Definition read_next (pin : option nat) (next : reading) (sofar : list value) : M Host outcome :=
  match next sofar with
  | None => return_ (Answers sofar)
  | Some (method, params) =>
      k ← (match pin with Some k => mret k | None => requireRpc end : M Host nat);
      send k method params (ReadAnswered pin next sofar)
  end.
Definition read_ready (pinned : bool) (next : reading) (r : result val) : M Host outcome :=
  _ ← lift r;
  pin ← (if pinned then k ← requireRpc; mret (Some k) else mret None : M Host (option nat));
  read_next pin next [].
Definition read_answered (pin : option nat) (next : reading) (sofar : list value) (r : result val) : M Host outcome :=
  v ← lift r; read_next pin next (sofar ++ [json v]).

Definition ensureAttachedThreadReady : M Host outcome :=
  t ← gets thread;
  match t with
  | None => throw "Codex thread is not attached"
  | Some attached =>
      up ← gets running;
      if up : bool then return_ (Recovered false) else await ensureProcess (ReattachReady attached)
  end.
Definition reattach_ready (attached : AttachedThread) (r : result val) : M Host outcome :=
  _ ← lift r; k ← requireRpc;
  await_request k "thread/resume" (resume_params (id attached) (options attached)) (ReattachAnswered attached).
Definition reattach_answered (attached : AttachedThread) (r : result val) : M Host outcome :=
  v ← lift r;
  response ← lift (Proto.parseCodexThreadStartResponse (json v));
  _ ← js_guard (negb (bool_decide (Proto.thread_id (Proto.started_thread response) = id attached)))
        "Codex recovery resumed a different thread";
  return_ (Recovered true).
Definition recover : M Host outcome :=
  t ← gets thread;
  match t with None => return_ (Recovered false) | Some _ => ensureAttachedThreadReady end.

Definition run_turn (prompt : jstr) (skills : list CodexSkillInvocation) : M Host outcome :=
  t ← gets thread;
  _ ← js_guard (negb (bool_decide (is_Some t))) "Codex thread is not attached";
  a ← gets (fun s => activeTurnId (turns s));
  _ ← js_guard (truthy_opt a) "Codex app-server host already has an active turn";
  _ ← js_guard (MAX_ACTIVE_SKILLS <? Z.of_nat (length skills)) "Codex P2 supports at most 2 active skills";
  await ensureAttachedThreadReady (TurnReady prompt skills).
Definition turn_inputs (prompt : jstr) (skills : list CodexSkillInvocation) : result (list value) :=
  l ← map_result (fun sk =>
        p ← normalizeAbsolutePath (skill_path sk) "Codex skill invocation path";
        input_value <$> Proto.codexSkillInput (skill_name sk) p) skills;
  t ← Proto.codexTextInput prompt;
  Ok (l ++ [input_value t]).
Definition start_turn (recovered : bool) (prompt : jstr) (skills : list CodexSkillInvocation) : M Host outcome :=
  k ← requireRpc;
  t ← gets thread;
  match t with
  | None => throw "Cannot read properties of null (reading 'id')"
  | Some t =>
      inputs ← lift (turn_inputs prompt skills);
      await_request k "turn/start" (VObject [(js "threadId", VString (id t)); (js "summary", VString (js "auto"));
                                             (js "input", VArray inputs)]) (TurnStarted recovered)
  end.
Definition turn_ready (prompt : jstr) (skills : list CodexSkillInvocation) (r : result val) : M Host outcome :=
  v ← lift r;
  let recovered := match v with Recovered b => b | _ => false end in
  s ← get_state;
  if bool_decide (is_Some (desiredSkillConfig s)) && negb (skillConfigApplied (process s))
  then await applyDesiredSkills (TurnSkills recovered prompt skills)
  else start_turn recovered prompt skills.
Definition turn_skills (recovered : bool) (prompt : jstr) (skills : list CodexSkillInvocation) (r : result val)
  : M Host outcome :=
  _ ← lift r; start_turn recovered prompt skills.

(** The [try] block after the turn has ended, and its [finally] block *)
Definition turn_result (recovered : bool) (turnId : jstr) (turn : Proto.CodexTurn) : M Host outcome := fun s =>
  match Proto.turn_status turn, thread s with
  | Proto.failed, _ =>
      (Throw (Error (match Proto.turn_error turn with Some e => Proto.error_message e | None => js "Codex turn failed" end)), s)
  | _, None => (fail "Cannot read properties of null (reading 'id')", s)
  | status, Some t =>
      return_ (TurnResult {|
        r_threadId := id t; r_turnId := turnId; r_status := status;
        r_response := match turnAgentMessageText (turns s) turnId with
                      | Some text => Some text | None => Proto.finalAgentMessage turn end;
        r_tokenUsage := map_get (turnUsage (turns s)) turnId; r_recoveredBeforeTurn := recovered |}) s
  end.
Definition forget_turn (turnId : jstr) (t : Turns) : Turns :=
  {| completedTurns := map_delete (completedTurns t) turnId; turnWaiters := turnWaiters t;
     turnUsage := map_delete (turnUsage t) turnId; agentMessageItems := map_delete (agentMessageItems t) turnId;
     activeTurnId := if bool_decide (activeTurnId t = Some turnId) then None else activeTurnId t |}.
Definition turn_ended (recovered : bool) (turnId : jstr) (r : result val) : M Host outcome :=
  try_finally
    (v ← lift r;
     match v with Turn turn => turn_result recovered turnId turn | _ => throw "no turn" end)
    (modify (on_turns (forget_turn turnId))).
(** [await this.waitForTurn(turnId)] *)
Definition await_turn (recovered : bool) (turnId : jstr) : M Host outcome := fun s =>
  match map_get (completedTurns (turns s)) turnId with
  | Some turn =>
      (Ok (Suspend (Settled (Ok (Turn turn))) [TurnEnded recovered turnId]),
       on_turns (fun t => set_completed (map_delete (completedTurns t) turnId) t) s)
  | None =>
      let p := length (promises s) in
      (Ok (Suspend (OnTurn p) [TurnEnded recovered turnId]),
       on_turns (fun t => set_waiters (map_set (turnWaiters t) turnId p) t) (with_promises (promises s ++ [None]) s))
  end.
Definition turn_started (recovered : bool) (r : result val) : M Host outcome :=
  v ← lift r;
  turn ← lift (Proto.parseCodexTurnStartResponse (json v));
  _ ← assertNotDisposed;
  let turnId := Proto.turn_id turn in
  _ ← modify (on_turns (set_active (Some turnId)));
  match Proto.turn_status turn with
  | Proto.inProgress => await_turn recovered turnId
  | _ => turn_ended recovered turnId (Ok (Turn turn))
  end.

Definition shutdown (s : Host) : Host :=
  let reason := js "Codex app-server host shut down" in
  let s := rejectActiveTurn (Error reason) (with_shutdown true true s) in
  with_desired None (with_process no_process (close_rpc (rpc (process s)) reason s)).

(** ** Steps *)

Inductive call :=
| StartThread (o : CodexThreadOptions)
| ResumeThread (threadId : jstr) (o : CodexThreadOptions)
| ConfigureSkills (roots : list jstr) (dir : jstr)
| Read (pinned : bool) (next : reading)
| RunTurn (prompt : jstr) (skills : list CodexSkillInvocation)
| Recover.

Definition body (c : call) : M Host outcome :=
  match c with
  | StartThread o => start_thread o
  | ResumeThread t o => resume_thread t o
  | ConfigureSkills roots dir => configure_skills roots dir
  | Read pinned next => read_call pinned next
  | RunTurn prompt skills => run_turn prompt skills
  | Recover => recover
  end.
Definition run_frame (f : frame) (r : result val) : M Host outcome :=
  match f with
  | EnsureInitialized k => ensure_initialized k r
  | EnsureSkills k => ensure_skills k r
  | SkillsRootsSet k => skills_roots_set k r
  | SkillsListed => skills_listed r
  | ReadReady pinned next => read_ready pinned next r
  | ReadAnswered pin next sofar => read_answered pin next sofar r
  | StartReady o => start_ready o r
  | StartAnswered o => start_answered o r
  | ResumeReady t o => resume_ready t o r
  | ResumeAnswered t o => resume_answered t o r
  | ConfigureReady next => configure_ready next r
  | ReattachReady a => reattach_ready a r
  | ReattachAnswered a => reattach_answered a r
  | TurnReady prompt skills => turn_ready prompt skills r
  | TurnSkills b prompt skills => turn_skills b prompt skills r
  | TurnStarted b => turn_started b r
  | TurnEnded b turnId => turn_ended b turnId r
  end.

(** What a promise has settled to, if it has *)
Definition settled (w : waiting) (s : Host) : option (result val) :=
  match w with
  | Settled o => Some o
  | OnRequest k rid => c ← conns s !! k; settlement_result <$> map_get (Rpc.settled c) rid
  | OnTurn p => match promises s !! p with Some (Some r) => Some (Turn <$> r) | _ => None end
  end.
(** The call after its innermost function has run *)
Definition next_task (out : outcome) (rest : list frame) : task :=
  match out with
  | Suspend w fs => Wait w (fs ++ rest)
  | Return o => match rest with [] => Done o | _ => Wait (Settled o) rest end
  end.
Definition resume (t : nat) (s : Host) : Host :=
  match tasks s !! t with
  | Some (Wait w (f :: rest)) =>
      match settled w s with
      | Some o => let (out, s') := async (run_frame f o) s in with_tasks (<[t := next_task out rest]> (tasks s')) s'
      | None => s
      end
  | _ => s
  end.
Definition begin_call (c : call) (s : Host) : Host :=
  let (out, s') := async (body c) s in with_tasks (tasks s' ++ [next_task out []]) s'.

Definition handle_data (k : nat) (chunk : jstr) (s : Host) : Host :=
  match conns s !! k with
  | None => s
  | Some c =>
      let c' := Rpc.handleData JSON_parse JSON_stringify has_server_handler chunk c in
      fold_left (fun s n => handleNotification n.1 n.2 s)
        (drop (length (Rpc.notifications c)) (Rpc.notifications c'))
        (on_conn k (Rpc.handleData JSON_parse JSON_stringify has_server_handler chunk) s)
  end.
(** What [handleExit] and [handleProcessError] share *)
Definition drop_process (reason : jstr) (s : Host) : Host :=
  with_process no_process (close_rpc (rpc (process s)) reason s).
Definition handleExit (k : nat) (suffix : jstr) (s : Host) : Host :=
  let s := with_children (spawned s) ({[k]} ∪ exited s) s in
  if negb (bool_decide (child (process s) = Some k)) then s
  else
    let s := drop_process (js "Codex app-server process exited") s in
    if intentionalShutdown s then s
    else rejectActiveTurn (Error (js "Codex app-server exited unexpectedly" ++ suffix)) s.
Definition handleProcessError (k : nat) (message : jstr) (s : Host) : Host :=
  if negb (bool_decide (child (process s) = Some k)) then s
  else rejectActiveTurn (Error (js "Codex app-server process error: " ++ message)) (drop_process message s).

(** What happens to a host: calls and shutdowns at any time, one call going
    on, and what a child process does. *)
Inductive event :=
| Call (c : call)
| Resume (t : nat)
| Shutdown
| Data (k : nat) (chunk : jstr)
| TransportError (k : nat) (e : exn)
| ServerDone (k : nat) (r : Rpc.JsonRpcServerRequest) (o : result value)
| Exit (k : nat) (suffix : jstr)
| ProcessError (k : nat) (message : jstr).

Definition handle (e : event) (s : Host) : Host :=
  match e with
  | Call c => begin_call c s
  | Resume t => resume t s
  | Shutdown => shutdown s
  | Data k chunk => handle_data k chunk s
  | TransportError k e => on_conn k (Rpc.handleTransportError e) s
  | ServerDone k r o => on_conn k (Rpc.server_request_done JSON_stringify r o) s
  | Exit k suffix => handleExit k suffix s
  | ProcessError k message => handleProcessError k message s
  end.

(** ** Disciplined use

    What the code relies on and does not check: apart from the turn that is
    waiting for its end there is at most one call in flight, and a turn is
    only started when there is none. (The pool of runtimes sees to it that one
    turn runs on a host at a time.) *)

Definition finished (t : task) : bool := match t with Done _ => true | Wait _ _ => false end.
Definition at_turn (t : task) : bool := match t with Done _ | Wait (OnTurn _) _ => true | _ => false end.
Definition ready (s : Host) (t : task) : bool :=
  match t with Wait w _ => bool_decide (is_Some (settled w s)) | Done _ => false end.
(** All microtasks are worked off. *)
Definition quiescent (s : Host) : bool := forallb (fun t => negb (ready s t)) (tasks s).

Definition admits (e : event) (s : Host) : bool :=
  match e with
  | Call (RunTurn _ _) => forallb finished (tasks s)
  | Call _ => forallb at_turn (tasks s)
  | Resume _ | Shutdown | ServerDone _ _ _ => true
  | Data _ _ | TransportError _ _ => quiescent s
  | Exit k _ | ProcessError k _ => quiescent s && (k <? length (conns s))%nat
  end.
Fixpoint run (es : list event) (s : Host) : option Host :=
  match es with
  | [] => Some s
  | e :: es' => if admits e s then run es' (handle e s) else None
  end.

(** ** Connections under the host's operations *)

(** A closed connection stays as it is; an open one only settles more. *)
Lemma fail_connection_closed e c : Rpc.closed (Rpc.fail_connection e c) = true.
Proof. unfold Rpc.fail_connection. by destruct (Rpc.closed c) eqn:E. Qed.
Lemma fail_connection_same e c : Rpc.closed c = true -> Rpc.fail_connection e c = c.
Proof. intros H. unfold Rpc.fail_connection. by rewrite H. Qed.
Lemma map_get_app {V} (a b : list (Z * V)) k : map_get (a ++ b) k =
  match map_get a k with Some v => Some v | None => map_get b k end.
Proof.
  unfold map_get. rewrite filter_app. by destruct (filter (fun kv => kv.1 = k) a) as [|x a'].
Qed.
Lemma fail_connection_settles e c rid v : map_get (Rpc.settled (Rpc.fail_connection e c)) rid = Some (Rpc.Resolved v) ->
  map_get (Rpc.settled c) rid = Some (Rpc.Resolved v).
Proof.
  unfold Rpc.fail_connection. destruct (Rpc.closed c); [done|]. cbn [Rpc.settled]. rewrite map_get_app.
  destruct (map_get (Rpc.settled c) rid); [done|]. intros H%map_get_elem.
  by apply list_elem_of_fmap in H as ([id' m] & [=] & _).
Qed.

(** A request or a notification settles nothing and closes nothing. *)
Definition conn_calm (c c' : Rpc.Connection) : Prop :=
  Rpc.closed c' = Rpc.closed c /\ Rpc.settled c' = Rpc.settled c.
#[local] Instance conn_calm_preorder : PreOrder conn_calm.
Proof. split; [by split|]. intros a b c [H1 H2] [H3 H4]. split; congruence. Qed.
Lemma write_calm m c : conn_calm c (Rpc.write JSON_stringify m c).2.
Proof. unfold Rpc.write. destruct (Rpc.assertOpen c); [|done]. by destruct (_ <? _). Qed.
Lemma request_calm m p c : conn_calm c (Rpc.request JSON_stringify m p c).2.
Proof.
  unfold Rpc.request. destruct (Rpc.assertOpen c); [|done]. cbv zeta.
  match goal with |- context [Rpc.write _ ?m ?c] => pose proof (write_calm m c) as Hw;
    destruct (Rpc.write _ m c) as [[] c'] end; destruct Hw; by split.
Qed.
Lemma notify_calm m p c : conn_calm c (Rpc.notify JSON_stringify m p c).2.
Proof. unfold Rpc.notify. destruct (Rpc.assertOpen c); [apply write_calm|done]. Qed.
Lemma server_done_calm r o c : conn_calm c (Rpc.server_request_done JSON_stringify r o c).
Proof.
  unfold Rpc.server_request_done. destruct (Rpc.closed c); [done|]. cbv zeta. destruct o as [v|e]; [|apply write_calm].
  match goal with |- context [Rpc.write _ ?m c] => pose proof (write_calm m c) as Hw;
    destruct (Rpc.write _ m c) as [[] c'] end; [done|]. etrans; [exact Hw|apply write_calm].
Qed.

(** ** What the calls leave alone *)

(** A step that only makes requests, binds the thread or configures skills. *)
Record calm (s s' : Host) : Prop := {
  calm_rpc : rpc (process s') = rpc (process s);
  calm_child : child (process s') = child (process s);
  calm_conns : Forall2 conn_calm (conns s) (conns s');
  calm_exited : exited s' = exited s;
  calm_disposed : disposed s' = disposed s;
  calm_intent : intentionalShutdown s' = intentionalShutdown s;
  calm_turns : turns s' = turns s;
  calm_promises : promises s' = promises s;
  calm_tasks : tasks s' = tasks s }.
#[local] Instance calm_preorder : PreOrder calm.
Proof.
  split.
  - intros s. by split.
  - intros a b c [] []. split; try congruence. by etrans.
Qed.

(** [m] leaves these alone when it starts in [P], and what it returns satisfies [Q]. *)
Definition quiet {A} (P : Host -> Prop) (m : M Host A) (Q : A -> Host -> Prop) : Prop := forall s, P s ->
  calm s (m s).2 /\ match (m s).1 with Ok a => Q a (m s).2 | Throw _ => True end.

Lemma quiet_bind {A B} P (m : M Host A) Q (f : A -> M Host B) R :
  quiet P m Q -> (forall a, quiet (Q a) (f a) R) -> quiet P (m ≫= f) R.
Proof.
  intros Hm Hf s Hs. rewrite M_bind_run. destruct (Hm s Hs) as [C1 Q1]. destruct (m s) as [[a|e] s1]; [|done].
  destruct (Hf a s1 Q1) as [C2 Q2]. split; [by etrans|done].
Qed.
Lemma quiet_mono {A} P P' (m : M Host A) Q Q' : (forall s, P' s -> P s) -> (forall a s, Q a s -> Q' a s) ->
  quiet P m Q -> quiet P' m Q'.
Proof. intros HP HQ H s Hs. destruct (H s (HP s Hs)) as [C R]. split; [done|]. destruct (m s) as [[a|e] s1]; [by apply HQ|done]. Qed.
Lemma quiet_weaken {A} (P : Host -> Prop) (m : M Host A) Q : quiet (fun _ => True) m Q -> quiet P m Q.
Proof. by apply quiet_mono. Qed.
Lemma quiet_ret {A} (P : Host -> Prop) (a : A) (Q : A -> Host -> Prop) : (forall s, P s -> Q a s) -> quiet P (mret a) Q.
Proof. intros H s Hs. split; [done|by apply H]. Qed.
Lemma quiet_lift {A} P (r : result A) : quiet P (lift r) (fun a s => P s /\ r = Ok a).
Proof. intros s Hs. unfold lift. split; [done|]. by destruct r. Qed.
Lemma quiet_throw {A} P msg (Q : A -> Host -> Prop) : quiet P (throw msg) Q.
Proof. intros s Hs. by split. Qed.
Lemma quiet_guard P b msg : quiet P (js_guard b msg) (fun _ s => P s /\ b = false).
Proof. intros s Hs. unfold js_guard. by destruct b. Qed.
Lemma quiet_gets {A} P (f : Host -> A) : quiet P (gets f) (fun a s => P s /\ a = f s).
Proof. intros s Hs. by split. Qed.
Lemma quiet_get P : quiet P get_state (fun a s => P s /\ a = s).
Proof. intros s Hs. by split. Qed.
Lemma quiet_modify P f : (forall s, calm s (f s)) -> quiet P (modify f) (fun _ _ => True).
Proof. intros H s Hs. split; [apply H|done]. Qed.
Lemma quiet_require P : quiet P requireRpc (fun k s => rpc (process s) = Some k).
Proof. intros s Hs. unfold requireRpc. by destruct (rpc (process s)) eqn:E. Qed.
Lemma quiet_disposed P : quiet P assertNotDisposed (fun _ s => P s /\ disposed s = false).
Proof. intros s Hs. unfold assertNotDisposed, js_guard. by destruct (disposed s) eqn:E. Qed.

Lemma calm_insert s k c c' : conns s !! k = Some c -> conn_calm c c' -> calm s (with_conns (<[k := c']> (conns s)) s).
Proof.
  intros Hk Hc. split; try done. cbn [conns with_conns].
  apply Forall2_same_length_lookup. split; [by rewrite length_insert|]. intros i a b Ha Hb.
  destruct (decide (i = k)) as [->|Hne].
  - rewrite list_lookup_insert_eq in Hb by by eapply lookup_lt_Some. by simplify_eq.
  - rewrite list_lookup_insert_ne in Hb by done. by simplify_eq.
Qed.

(** What a promise of a fresh request looks like *)
Definition requested (k : nat) (w : waiting) : Prop :=
  (exists rid, w = OnRequest k rid) \/ (exists e, w = Settled (Throw e)).
Lemma quiet_send P k m p fr :
  quiet P (send k m p fr) (fun out _ => exists w, out = Suspend w [fr] /\ requested k w).
Proof.
  intros s Hs. unfold send. destruct (conns s !! k) as [c|] eqn:Hc; [|done].
  pose proof (request_calm m p c) as Hq. destruct (Rpc.request _ _ _ c) as [r c'].
  split; [by eapply calm_insert|]. destruct r; eexists; (split; [done|]); [left|right]; by eexists.
Qed.

(** ** Frames *)

Definition ensure_frame (f : frame) : bool :=
  match f with EnsureInitialized _ | EnsureSkills _ => true | _ => false end.
Definition turn_frame (f : frame) : bool :=
  match f with TurnReady _ _ | TurnSkills _ _ _ | TurnStarted _ | TurnEnded _ _ => true | _ => false end.
Definition plain (f : frame) : Prop := turn_frame f = false /\ ensure_frame f = false.
Definition not_at_turn (w : waiting) : Prop := forall p, w <> OnTurn p.

Lemma requested_not_at_turn k w : requested k w -> not_at_turn w.
Proof. by intros [[rid ->]|[e ->]] p. Qed.
#[local] Hint Resolve requested_not_at_turn : sn.

(** A function that is no turn and starts no process *)
Definition plain_out (out : outcome) : Prop :=
  match out with Return _ => True | Suspend w fs => not_at_turn w /\ Forall plain fs end.
(** ... and one that awaits such a function *)
Definition awaited (fr : frame) (out : outcome) : Prop :=
  exists w pre, out = Suspend w (pre ++ [fr]) /\ not_at_turn w /\ Forall plain pre.

Lemma quiet_plain_send P k m p fr : plain fr -> quiet P (send k m p fr) (fun out _ => plain_out out).
Proof.
  intros Hf. intros s Hs. destruct (quiet_send P k m p fr s Hs) as [C Q]. split; [done|].
  destruct (send k m p fr s) as [[out|e] s']; [|done]. destruct Q as (w & -> & Hw).
  split; [eauto with sn|]. by apply Forall_singleton.
Qed.
Lemma quiet_await P m fr : quiet P m (fun out _ => plain_out out) -> quiet P (await m fr) (fun out _ => awaited fr out).
Proof.
  intros H s Hs. destruct (H s Hs) as [C Q]. unfold await, async. destruct (m s) as [[out|e] s']; (split; [done|]).
  - destruct out as [o|w fs]; [by exists (Settled o), []|]. exists w, fs. by destruct Q.
  - by exists (Settled (Throw e)), [].
Qed.
Lemma awaited_plain fr out : plain fr -> awaited fr out -> plain_out out.
Proof. intros Hf (w & pre & -> & Hw & Hp). split; [done|]. apply Forall_app. by rewrite Forall_singleton. Qed.
Lemma quiet_return P v : quiet P (return_ v) (fun out _ => plain_out out).
Proof. intros s Hs. by split. Qed.

(** One step of a body that leaves things alone *)
Ltac calm_modify := intros ?s; split; done.
Ltac quiet_step :=
  match goal with
  | |- quiet _ (lift _ ≫= _) _ => eapply quiet_bind; [apply quiet_lift|intros ?a]
  | |- quiet _ (js_guard _ _ ≫= _) _ => eapply quiet_bind; [apply quiet_guard|intros ?a]
  | |- quiet _ (gets _ ≫= _) _ => eapply quiet_bind; [apply quiet_gets|intros ?a]
  | |- quiet _ (requireRpc ≫= _) _ => eapply quiet_bind; [apply quiet_require|intros ?a]
  | |- quiet _ (assertNotDisposed ≫= _) _ => eapply quiet_bind; [apply quiet_disposed|intros ?a]
  | |- quiet _ (modify _ ≫= _) _ => eapply quiet_bind; [apply quiet_modify; calm_modify|intros ?a]
  | |- quiet _ (send _ _ _ _) _ => apply quiet_plain_send; done
  | |- quiet _ (await_request _ _ _ _) _ => apply quiet_plain_send; done
  | |- quiet _ (return_ _) _ => apply quiet_return
  | |- quiet _ (throw _) _ => apply quiet_throw
  end.

Lemma quiet_apply P : quiet P applyDesiredSkills (fun out _ => plain_out out).
Proof.
  intros s Hs. unfold applyDesiredSkills. destruct (desiredSkillConfig s) as [d|]; [|by apply (quiet_return P)].
  match goal with |- calm s (?m s).2 /\ _ => assert (quiet P m (fun out _ => plain_out out)) as Hq; [|by apply Hq] end.
  quiet_step. destruct (skillConfigApplied _); quiet_step.
Qed.

Lemma quiet_read_next P pin next sofar : quiet P (read_next pin next sofar) (fun out _ => plain_out out).
Proof.
  unfold read_next. destruct (next sofar) as [[m p]|]; [|quiet_step].
  eapply quiet_bind; [|intros k; quiet_step].
  instantiate (1 := fun _ _ => True). destruct pin; [by apply quiet_ret|].
  eapply quiet_mono; [..|apply (quiet_require P)]; done.
Qed.

(** The frames that are neither of a turn nor of starting a process *)
Lemma quiet_plain_frame f r : plain f -> quiet (fun _ => True) (run_frame f r) (fun out _ => plain_out out).
Proof.
  intros [Ht He]. destruct f; try done; cbn [run_frame].
  - unfold skills_roots_set. do 3 quiet_step. destruct a1; [quiet_step|]. quiet_step.
  - unfold skills_listed. repeat quiet_step.
  - unfold read_ready. quiet_step. eapply quiet_bind; [|intros pin; apply quiet_read_next].
    instantiate (1 := fun _ _ => True). destruct pinned; [|by apply quiet_ret].
    quiet_step. by apply quiet_ret.
  - unfold read_answered. quiet_step. apply quiet_read_next.
  - unfold start_ready. repeat quiet_step.
  - unfold start_answered. repeat quiet_step.
  - unfold resume_ready. repeat quiet_step.
  - unfold resume_answered. repeat quiet_step.
  - unfold configure_ready. do 2 quiet_step. eapply quiet_bind; [|intros ?; quiet_step; apply quiet_apply].
    instantiate (1 := fun _ _ => True). destruct (skillConfigEquals _ _); [by apply quiet_ret|].
    apply quiet_modify. calm_modify.
  - unfold reattach_ready. repeat quiet_step.
  - unfold reattach_answered. repeat quiet_step.
Qed.

(** Before [turn/start] is answered *)
Definition started (b : bool) (out : outcome) (s : Host) : Prop :=
  exists w k, out = Suspend w [TurnStarted b] /\ requested k w /\ rpc (process s) = Some k.
Definition turn_out (out : outcome) (s : Host) : Prop :=
  (exists o, out = Return o) \/ (exists b, started b out s) \/ (exists b p sk, awaited (TurnSkills b p sk) out).

Lemma quiet_start_turn P b prompt skills : quiet P (start_turn b prompt skills) (started b).
Proof.
  unfold start_turn. quiet_step. quiet_step. destruct a0 as [t|]; [|quiet_step]. quiet_step.
  intros s [[Hs _] _].
  match goal with |- context [await_request a ?m ?p ?f] =>
    pose proof (quiet_send (fun s => rpc (process s) = Some a) a (js m) p f s Hs) as [C Q];
    change (await_request a m p f) with (send a (js m) p f); split; [done|];
    destruct (send a (js m) p f s) as [[out|e] s']; [|done] end.
  destruct Q as (w & -> & Hw). exists w, a. split_and!; [done|done|]. by rewrite (calm_rpc _ _ C).
Qed.
Lemma quiet_turn_frame f r : (exists p sk, f = TurnReady p sk) \/ (exists b p sk, f = TurnSkills b p sk) ->
  quiet (fun _ => True) (run_frame f r) turn_out.
Proof.
  intros [(p & sk & ->)|(b & p & sk & ->)]; cbn [run_frame].
  - unfold turn_ready. quiet_step. cbv zeta. eapply quiet_bind; [apply quiet_get|]. intros s0.
    destruct (_ && _).
    + eapply quiet_mono; [..|apply (quiet_await (fun _ => True)), quiet_apply]; [done|].
      intros out s Ha. right. right. do 3 eexists. exact Ha.
    + eapply quiet_mono; [..|apply (quiet_start_turn (fun _ => True))]; [done|].
      intros out s Ha. right. left. eexists. exact Ha.
  - unfold turn_skills. quiet_step. eapply quiet_mono; [..|apply (quiet_start_turn (fun _ => True))]; [done|].
    intros out s Ha. right. left. eexists. exact Ha.
Qed.

(** ** The process *)

(** At most one child runs; its connection is the host's, and every other
    connection is closed. *)
Record process_ok (s : Host) : Prop := {
  pr_same : child (process s) = rpc (process s);
  pr_live : forall k, rpc (process s) = Some k -> (k < length (conns s))%nat /\ k ∉ exited s;
  pr_exited : forall k, k ∈ exited s -> (k < length (conns s))%nat;
  pr_open : forall k c, conns s !! k = Some c -> Rpc.closed c = false -> rpc (process s) = Some k;
  pr_disposed : disposed s = true -> rpc (process s) = None;
  pr_intent : intentionalShutdown s = true -> disposed s = true }.

(** The turns are as they were. *)
Record same_turns (s s' : Host) : Prop := {
  st_turns : turns s' = turns s; st_promises : promises s' = promises s; st_tasks : tasks s' = tasks s }.
#[local] Instance same_turns_preorder : PreOrder same_turns.
Proof. split; [by split|]. intros a b c [] []. split; congruence. Qed.
Lemma calm_same_turns s s' : calm s s' -> same_turns s s'.
Proof. by intros []. Qed.

Lemma process_ok_calm s s' : process_ok s -> calm s s' -> process_ok s'.
Proof.
  intros [P1 P2 P3 P4 P5 P6] [C1 C2 C3 C4 C5 C6 _ _ _]. pose proof (Forall2_length _ _ _ C3) as Hlen.
  split; rewrite ?C1, ?C2, ?C4, ?C5, ?C6, <- ?Hlen; auto.
  intros k c' Hk Hc. destruct (Forall2_lookup_r _ _ _ _ _ C3 Hk) as (c & Hk' & [Hcl _]).
  apply (P4 k c Hk'). by rewrite <- Hcl.
Qed.

(** Closing a connection, and possibly more: it only becomes closed. *)
Lemma on_conn_open k f s j c' : (forall c, Rpc.closed c = true -> Rpc.closed (f c) = true) ->
  conns (on_conn k f s) !! j = Some c' -> Rpc.closed c' = false ->
  exists c, conns s !! j = Some c /\ Rpc.closed c = false.
Proof.
  intros Hf Hj Hc. cbn [on_conn with_conns conns] in Hj. destruct (decide (j = k)) as [->|Hne].
  - rewrite list_lookup_alter_eq in Hj. destruct (conns s !! k) as [c|]; [|done]. injection Hj as <-.
    exists c. split; [done|]. apply not_true_is_false. intros Ht. apply Hf in Ht. congruence.
  - rewrite list_lookup_alter_ne in Hj by done. by exists c'.
Qed.
Lemma on_conn_length k f s : length (conns (on_conn k f s)) = length (conns s).
Proof. apply length_alter. Qed.
Lemma process_ok_on_conn k f s : (forall c, Rpc.closed c = true -> Rpc.closed (f c) = true) ->
  process_ok s -> process_ok (on_conn k f s).
Proof.
  intros Hf [P1 P2 P3 P4 P5 P6]. split; rewrite ?on_conn_length; try done.
  intros j c' Hj Hc. destruct (on_conn_open k f s j c' Hf Hj Hc) as (c & Hj' & Hc'). by apply (P4 j c).
Qed.
(** Without its process, once its connection is closed *)
Lemma process_ok_dropped f s p : (forall c, Rpc.closed (f c) = true) ->
  (forall k, k ∈ exited s -> (k < length (conns s))%nat) ->
  (forall k c, conns s !! k = Some c -> Rpc.closed c = false -> rpc (process s) = Some k) ->
  (intentionalShutdown s = true -> disposed s = true) -> child p = None -> rpc p = None ->
  process_ok (with_process p (match rpc (process s) with Some k => on_conn k f s | None => s end)).
Proof.
  intros Hf P3 P4 P6 Hc Hr. split; cbn [process with_process]; rewrite ?Hc, ?Hr; try done.
  - intros j Hj. destruct (rpc (process s)); cbn [conns with_process]; [rewrite on_conn_length|]; by apply P3.
  - intros j c' Hj Hopen. exfalso. destruct (rpc (process s)) as [k|] eqn:Hk; cbn [conns with_process] in Hj.
    + destruct (on_conn_open k f s j c' ltac:(by intros; apply Hf) Hj Hopen) as (c & Hj' & Hc').
      specialize (P4 j c Hj' Hc'). assert (j = k) as -> by congruence.
      cbn [conns on_conn with_conns] in Hj. rewrite list_lookup_alter_eq, Hj' in Hj. injection Hj as <-.
      by rewrite Hf in Hopen.
    + by specialize (P4 j c' Hj Hopen).
  - destruct (rpc (process s)); exact P6.
Qed.

Lemma close_closes e c : Rpc.closed (Rpc.close e c) = true.
Proof. apply fail_connection_closed. Qed.
Lemma close_rpc_None reason s : close_rpc None reason s = s. Proof. done. Qed.

(** [initialization_failed] *)
Lemma initialization_failed_spec k e s : process_ok s ->
  (initialization_failed k e s).1 = Throw e /\ process_ok (initialization_failed k e s).2 /\
  same_turns s (initialization_failed k e s).2.
Proof.
  intros P. unfold initialization_failed. rewrite !M_bind_run. cbn [modify close_rpc]. split_and!; [done| |done].
  set (s1 := on_conn k _ s). rewrite M_bind_run. unfold on_process. cbn [modify snd rethrow].
  assert (process s1 = process s) as Hp by done. rewrite Hp. pose proof (pr_same _ P) as Hsame.
  destruct (decide (rpc (process s) = Some k)) as [Hr|Hr].
  - subst s1. pose proof (process_ok_dropped (Rpc.close (js "Codex app-server initialization failed")) s) as Hd.
    rewrite Hr in Hd. apply Hd; cbn [child rpc set_child]; rewrite ?bool_decide_eq_true_2 by congruence;
      [intros; apply close_closes|..|done|done]; rewrite <- ?Hr; apply P.
  - assert (process_ok s1) as P1 by (apply process_ok_on_conn; [intros; apply close_closes|done]).
    destruct P1 as [Q1 Q2 Q3 Q4 Q5 Q6]. rewrite Hp in *.
    split; cbn [process with_process child rpc set_child]; rewrite !bool_decide_eq_false_2 by congruence; done.
Qed.

(** What an attempt to start a process leaves behind *)
Definition attempt (Q : outcome -> Prop) (m : M Host outcome) : Prop := forall s, process_ok s ->
  process_ok (m s).2 /\ same_turns s (m s).2 /\ match (m s).1 with Ok out => Q out | Throw _ => True end.
Lemma attempt_catch k m Q : quiet (fun _ => True) m (fun out _ => Q out) ->
  attempt Q (try_catch m (initialization_failed k)).
Proof.
  intros Hm s P. destruct (Hm s I) as [C H]. unfold try_catch. destruct (m s) as [[out|e] s1]; cbn [fst snd] in *.
  - split_and!; [by eapply process_ok_calm|by apply calm_same_turns|done].
  - assert (process_ok s1) as P1 by by eapply process_ok_calm.
    destruct (initialization_failed_spec k e s1 P1) as (H1 & H2 & H3). rewrite H1.
    split_and!; [done| |done]. etrans; [by apply calm_same_turns|done].
Qed.

Lemma quiet_notify P k m : quiet P (rpc_notify k m) (fun _ _ => True).
Proof.
  intros s Hs. unfold rpc_notify. destruct (conns s !! k) as [c|] eqn:Hc; [|done].
  pose proof (notify_calm (js m) VUndefined c) as Hq. destruct (Rpc.notify _ _ _ c) as [r c'].
  split; [by eapply calm_insert|by destruct r].
Qed.
(** The frames of a process that is being started return or await the
    configuration of skills. *)
Definition ensure_out (out : outcome) : Prop :=
  (exists o, out = Return o) \/ (exists k, awaited (EnsureSkills k) out).
Lemma attempt_ensure_frame f r : ensure_frame f = true -> attempt ensure_out (run_frame f r).
Proof.
  intros Hf. destruct f; try done; cbn [run_frame]; apply attempt_catch.
  - do 3 quiet_step. eapply quiet_bind; [apply quiet_notify|intros u]. quiet_step.
    destruct a2; [|by apply quiet_ret; left; eexists].
    eapply quiet_mono; [..|apply (quiet_await (fun _ => True)), quiet_apply]; [done|].
    intros out s Ha. right. eexists. exact Ha.
  - quiet_step. apply quiet_ret. left. by eexists.
Qed.

Lemma running_rpc s : process_ok s -> running s = true <-> is_Some (rpc (process s)).
Proof.
  intros [P1 P2 _ _ _ _]. unfold running. rewrite P1. destruct (rpc (process s)) as [k|]; [|by split; [|intros []]].
  destruct (P2 k eq_refl) as [_ Hk]. by rewrite bool_decide_eq_false_2.
Qed.

(** [ensureProcess] does nothing when the process runs, and otherwise starts
    one and awaits its answer. *)
Lemma ensureProcess_spec s : process_ok s ->
  process_ok (ensureProcess s).2 /\ same_turns s (ensureProcess s).2 /\
  match (ensureProcess s).1 with
  | Ok (Return _) => (ensureProcess s).2 = s /\ is_Some (rpc (process s))
  | Ok (Suspend w fs) => rpc (process s) = None /\ exists k, requested k w /\ fs = [EnsureInitialized k]
  | Throw _ => (ensureProcess s).2 = s
  end.
Proof.
  intros P. unfold ensureProcess. rewrite M_bind_run. unfold assertNotDisposed, js_guard.
  destruct (disposed s) eqn:Hd; [done|]. rewrite M_bind_run. cbn [gets].
  destruct (running s) eqn:Hr.
  { split_and!; [done|done|]. cbn. split; [done|]. by apply running_rpc. }
  assert (rpc (process s) = None) as Hnone.
  { destruct (rpc (process s)) as [k|] eqn:E; [|done].
    assert (running s = true) by (apply running_rpc; [done|by rewrite E]). congruence. }
  rewrite M_bind_run. cbn [gets]. rewrite M_bind_run. cbn [modify]. set (k := length (conns s)). set (s1 := spawn s).
  assert (process_ok s1) as P1.
  { destruct P as [P1 P2 P3 P4 P5 P6]. subst s1. split; cbn; rewrite ?length_app; cbn.
    - done.
    - intros j [= <-]. split; [lia|]. intros Hin%P3. lia.
    - intros j Hj%P3. lia.
    - intros j c Hj Hopen. apply lookup_app_Some in Hj as [Hj|[Hge Hj]].
      + specialize (P4 j c Hj Hopen). congruence.
      + apply list_lookup_singleton_Some in Hj as [Hj _]. f_equal. lia.
    - congruence.
    - done. }
  unfold try_catch, await_request.
  destruct (quiet_send (fun _ => True) k (js "initialize") initialize_params (EnsureInitialized k) s1 I) as [C Q].
  assert (is_ok (send k (js "initialize") initialize_params (EnsureInitialized k) s1).1 = true) as Hok.
  { unfold send. assert (conns s1 !! k = Some Rpc.connect) as ->
      by (subst s1 k; cbn; by rewrite lookup_app_r, Nat.sub_diag by lia).
    by destruct (Rpc.request _ _ _ _). }
  destruct (send _ _ _ _ s1) as [[out|e] s2]; [|done]. destruct Q as (w & -> & Hw).
  cbn [fst snd] in C |- *. split_and!; [exact (process_ok_calm _ _ P1 C)| |done|].
  - etrans; [|exact (calm_same_turns _ _ C)]. done.
  - by exists k.
Qed.

(** ** Beginning a call *)

Definition nonturn (f : frame) : Prop := turn_frame f = false.
(** Frames a call may begin with: where the process runs, none that starts one *)
Definition pre_ok (s : Host) (fs : list frame) : Prop :=
  Forall nonturn fs /\ (is_Some (rpc (process s)) -> Forall plain fs).
Definition launch (R : Host -> list frame -> Prop) (m : M Host outcome) : Prop := forall s, process_ok s ->
  process_ok (m s).2 /\ same_turns s (m s).2 /\ (is_Some (rpc (process s)) -> (m s).2 = s) /\
  match (m s).1 with Ok (Suspend w fs) => not_at_turn w /\ R s fs | _ => True end.
Definition inert {A} (m : M Host A) : Prop := forall s, (m s).2 = s.

Lemma launch_bind {A} R (m : M Host A) f : inert m -> (forall a, launch R (f a)) -> launch R (m ≫= f).
Proof.
  intros Hm Hf s P. rewrite M_bind_run. specialize (Hm s). destruct (m s) as [[a|e] s']; cbn in Hm; subst s'.
  - by apply Hf.
  - by split_and!.
Qed.
Lemma launch_const R (o : result outcome) : (forall w fs, o <> Ok (Suspend w fs)) -> launch R (fun s => (o, s)).
Proof. intros H s P. split_and!; try done. destruct o as [[]|]; try done. by destruct (H w fs). Qed.

Lemma launch_ensure : launch pre_ok ensureProcess.
Proof.
  intros s P. destruct (ensureProcess_spec s P) as (P1 & T & H). split_and!; [done|done| |].
  - intros Hr. destruct (ensureProcess s) as [[[o|w fs]|e] s']; cbn in *; [by destruct H| |done].
    destruct H as [H _]. rewrite H in Hr. by destruct Hr.
  - destruct (ensureProcess s) as [[[o|w fs]|e] s']; cbn in *; try done. destruct H as (Hr & k & Hw & ->).
    split; [by eapply requested_not_at_turn|]. split; [by apply Forall_singleton|]. rewrite Hr. by intros [].
Qed.
Lemma launch_await m fr : launch pre_ok m ->
  launch (fun s fs => exists pre, fs = pre ++ [fr] /\ pre_ok s pre) (await m fr).
Proof.
  intros H s P. destruct (H s P) as (P1 & T & Hs & Ho). unfold await, async.
  destruct (m s) as [[[o|w fs]|e] s']; cbn in *; (split; [done|split; [done|split; [done|]]]).
  - split; [done|]. exists []. by repeat split.
  - destruct Ho. split; [done|]. by exists fs.
  - split; [done|]. exists []. by repeat split.
Qed.
Lemma launch_mono R R' m : (forall s fs, R s fs -> R' s fs) -> launch R m -> launch R' m.
Proof.
  intros HR H s P. destruct (H s P) as (? & ? & ? & Ho). split_and!; try done.
  destruct (m s) as [[[]|] s']; try done. cbn in *. destruct Ho. auto.
Qed.
Lemma pre_ok_snoc s fr fs : plain fr -> (exists pre, fs = pre ++ [fr] /\ pre_ok s pre) -> pre_ok s fs.
Proof.
  intros [Ht He] (pre & -> & H1 & H2). split; [by apply Forall_app; rewrite Forall_singleton|].
  intros Hr. apply Forall_app. rewrite Forall_singleton. by split; [apply H2|].
Qed.
Lemma launch_await_plain m fr : plain fr -> launch pre_ok m -> launch pre_ok (await m fr).
Proof. intros Hf H. eapply launch_mono; [|by apply launch_await]. intros s fs. by apply pre_ok_snoc. Qed.

Lemma launch_reattach : launch pre_ok ensureAttachedThreadReady.
Proof.
  apply launch_bind; [done|intros [attached|]].
  - apply launch_bind; [done|intros []].
    + by apply launch_const.
    + apply launch_await_plain; [done|apply launch_ensure].
  - by apply launch_const.
Qed.
Ltac launch_step :=
  first [apply launch_bind; [intros ?s; first [done|unfold js_guard; by case_match]|intros ?a]
        |apply launch_await_plain; [done|apply launch_ensure]].
(** A call that is no turn ... *)
Lemma launch_call c : (forall p sk, c <> RunTurn p sk) -> launch pre_ok (body c).
Proof.
  intros Hc. destruct c; cbn [body].
  - unfold start_thread. repeat launch_step.
  - unfold resume_thread. repeat launch_step.
  - unfold configure_skills. repeat launch_step.
  - unfold read_call. repeat launch_step.
  - by destruct (Hc prompt skills).
  - unfold recover. launch_step. destruct a; [apply launch_reattach|by apply launch_const].
Qed.
(** ... and a turn *)
Lemma launch_turn p sk :
  launch (fun s fs => exists pre, fs = pre ++ [TurnReady p sk] /\ pre_ok s pre) (body (RunTurn p sk)).
Proof.
  cbn [body]. unfold run_turn. repeat launch_step. apply launch_await, launch_reattach.
Qed.

(** ** The calls in flight *)

Inductive stack (fs : list frame) : Prop :=
| stack_nonturn : Forall nonturn fs -> stack fs
| stack_turn pre root : fs = pre ++ [root] -> Forall nonturn pre ->
    (exists p sk, root = TurnReady p sk) \/ (exists b p sk, root = TurnSkills b p sk) -> stack fs
| stack_started b : fs = [TurnStarted b] -> stack fs
| stack_ended b u : fs = [TurnEnded b u] -> stack fs.

(** The host knows the turn [u] that waits for the promise [p]: whatever ends
    the turn or the process finds it. *)
Definition known_turn (s : Host) (u : jstr) (p : nat) : Prop :=
  is_Some (rpc (process s)) /\ activeTurnId (turns s) = Some u /\ u <> [] /\ turnWaiters (turns s) = [(u, p)].
Definition pending_turn (s : Host) (p : nat) : Prop := promises s !! p = Some None.

Definition task_ok (s : Host) (w : waiting) (fs : list frame) : Prop :=
  stack fs /\
  match w with
  | OnTurn p => exists b u, fs = [TurnEnded b u] /\ is_Some (promises s !! p) /\ (pending_turn s p -> known_turn s u p)
  | OnRequest k rid => forall b v, fs = [TurnStarted b] -> settled (OnRequest k rid) s = Some (Ok v) ->
                       rpc (process s) = Some k \/ disposed s = true
  | Settled o => forall b, fs = [TurnStarted b] -> exists e, o = Throw e
  end.
(** A turn that waits for its end, and another call *)
Definition beside (s : Host) (w1 : waiting) (fs1 : list frame) (w2 : waiting) (fs2 : list frame) : Prop :=
  exists p b u, w1 = OnTurn p /\ fs1 = [TurnEnded b u] /\ not_at_turn w2 /\ Forall nonturn fs2 /\
    (pending_turn s p -> Forall plain fs2).

Record inv (s : Host) : Prop := {
  i_process : process_ok s;
  i_tasks : forall t w fs, tasks s !! t = Some (Wait w fs) -> task_ok s w fs;
  i_pairs : forall t1 t2 w1 w2 fs1 fs2, t1 <> t2 -> tasks s !! t1 = Some (Wait w1 fs1) ->
    tasks s !! t2 = Some (Wait w2 fs2) -> beside s w1 fs1 w2 fs2 \/ beside s w2 fs2 w1 fs1;
  i_waiters : turnWaiters (turns s) = [] \/ exists t b u p, turnWaiters (turns s) = [(u, p)] /\
    tasks s !! t = Some (Wait (OnTurn p) [TurnEnded b u]) /\ pending_turn s p }.

Lemma inv_new : inv new_host.
Proof.
  split.
  - split; done.
  - done.
  - done.
  - by left.
Qed.

Lemma ended_not_nonturn b u : ~ Forall nonturn [TurnEnded b u].
Proof. intros [H _]%Forall_cons. discriminate H. Qed.

(** The call after its innermost function, as the possibilities *)
Lemma next_task_cases out rest w fs : next_task out rest = Wait w fs ->
  (exists o, out = Return o /\ w = Settled o /\ fs = rest /\ rest <> []) \/
  (exists fs0, out = Suspend w fs0 /\ fs = fs0 ++ rest).
Proof.
  destruct out as [o|w0 fs0]; cbn.
  - destruct rest; [done|]. intros [= <- <-]. left. by exists o.
  - intros [= -> <-]. right. by exists fs0.
Qed.

(** Unfinished calls other than [t] *)
Definition other (s : Host) (t : nat) (w : waiting) (fs : list frame) : Prop :=
  exists t', t' <> t /\ tasks s !! t' = Some (Wait w fs).
(** Two calls besides a third one would have to be turns both. *)
Lemma other_unique s t w fs t1 t2 w1 w2 fs1 fs2 : inv s -> tasks s !! t = Some (Wait w fs) -> t1 <> t -> t2 <> t -> t1 <> t2 ->
  tasks s !! t1 = Some (Wait w1 fs1) -> tasks s !! t2 = Some (Wait w2 fs2) -> False.
Proof.
  intros I Ht N1 N2 N12 H1 H2.
  assert (forall wa fsa wb fsb, beside s wa fsa wb fsb -> ~ Forall nonturn fsa /\ Forall nonturn fsb) as Hb.
  { intros wa fsa wb fsb (p & b & u & _ & -> & _ & Hn & _). split; [apply ended_not_nonturn|done]. }
  destruct (i_pairs s I _ _ _ _ _ _ N12 H1 H2) as [B|B]; apply Hb in B;
  destruct (i_pairs s I _ _ _ _ _ _ N1 H1 Ht) as [B1|B1]; apply Hb in B1;
  destruct (i_pairs s I _ _ _ _ _ _ N2 H2 Ht) as [B2|B2]; apply Hb in B2; naive_solver.
Qed.

(** Replacing one call's state *)
Lemma inv_replace s s1 t w fs nt : inv s -> tasks s !! t = Some (Wait w fs) -> process_ok s1 -> tasks s1 = tasks s ->
  (forall w' fs', other s t w' fs' -> task_ok s1 w' fs') ->
  (forall w2 fs2, nt = Wait w2 fs2 -> task_ok s1 w2 fs2 /\
     forall w' fs', other s t w' fs' -> beside s1 w' fs' w2 fs2 \/ beside s1 w2 fs2 w' fs') ->
  (turnWaiters (turns s1) = [] \/ exists t' b u p, turnWaiters (turns s1) = [(u, p)] /\
     <[t := nt]> (tasks s) !! t' = Some (Wait (OnTurn p) [TurnEnded b u]) /\ pending_turn s1 p) ->
  inv (with_tasks (<[t := nt]> (tasks s1)) s1).
Proof.
  intros I Ht P1 Htasks Hothers Hnew Hwait.
  assert (Hlt : (t < length (tasks s))%nat) by by eapply lookup_lt_Some.
  split; cbn [tasks with_tasks]; rewrite ?Htasks.
  - by destruct P1.
  - intros t' w' fs' H. destruct (decide (t' = t)) as [->|Hne].
    + rewrite list_lookup_insert_eq in H by done. injection H as ->. by apply Hnew.
    + rewrite list_lookup_insert_ne in H by done. apply Hothers. by exists t'.
  - intros t1 t2 w1 w2 fs1 fs2 Hne H1 H2.
    destruct (decide (t1 = t)) as [->|N1]; destruct (decide (t2 = t)) as [->|N2]; [done|..].
    + rewrite list_lookup_insert_eq in H1 by done. rewrite list_lookup_insert_ne in H2 by done. injection H1 as ->.
      apply or_comm, Hnew; [done|]. by exists t2.
    + rewrite list_lookup_insert_eq in H2 by done. rewrite list_lookup_insert_ne in H1 by done. injection H2 as ->.
      apply Hnew; [done|]. by exists t1.
    + rewrite list_lookup_insert_ne in H1, H2 by done. by destruct (other_unique s t w fs t1 t2 w1 w2 fs1 fs2).
  - exact Hwait.
Qed.

(** *** A function that is no turn *)

Lemma nonturn_frame s f r : process_ok s -> nonturn f ->
  let (out, s1) := async (run_frame f r) s in
  process_ok s1 /\ same_turns s s1 /\ (plain f -> calm s s1) /\
  match out with
  | Return _ => True
  | Suspend w fs => not_at_turn w /\ Forall nonturn fs /\ (plain f -> Forall plain fs)
  end.
Proof.
  intros P Hf. unfold async. destruct (ensure_frame f) eqn:He.
  - destruct (attempt_ensure_frame f r He s P) as (P1 & T & Q). destruct (run_frame f r s) as [[out|e] s1]; cbn in *.
    + split_and!; [done|done|by intros [_ ?]; congruence|].
      destruct Q as [[o ->]|[k (w & pre & -> & Hw & Hp)]]; [done|]. split_and!; [done| |by intros [_ ?]; congruence].
      apply Forall_app. split; [|by apply Forall_singleton]. eapply Forall_impl; [exact Hp|]. by intros ? [? _].
    + split_and!; [done|done|by intros [_ ?]; congruence|done].
  - assert (plain f) as Hp by done. destruct (quiet_plain_frame f r Hp s I) as [C Q].
    destruct (run_frame f r s) as [[out|e] s1]; cbn in *.
    + split_and!; [by eapply process_ok_calm|by apply calm_same_turns|done|]. destruct out as [o|w fs]; [done|].
      destruct Q as [Hw Hfs]. split_and!; [done| |done]. eapply Forall_impl; [exact Hfs|]. by intros ? [? _].
    + split_and!; [by eapply process_ok_calm|by apply calm_same_turns|done|done].
Qed.

(** A waiting turn is not disturbed by a step that leaves the turns alone. *)
Lemma beside_kept s s1 w1 fs1 w2 fs2 : same_turns s s1 -> beside s w1 fs1 w2 fs2 -> beside s1 w1 fs1 w2 fs2.
Proof.
  intros [_ T _] (p & b & u & -> & -> & H1 & H2 & H3). exists p, b, u. split_and!; try done.
  unfold pending_turn. by rewrite T.
Qed.
Lemma known_turn_kept s s1 u p : same_turns s s1 -> rpc (process s1) = rpc (process s) ->
  known_turn s u p -> known_turn s1 u p.
Proof. intros [T _ _] Hr (H1 & H2 & H3 & H4). unfold known_turn. by rewrite T, Hr. Qed.
Lemma turn_task_kept s s1 p b u w2 fs2 : same_turns s s1 ->
  (Forall plain fs2 -> rpc (process s1) = rpc (process s)) ->
  beside s (OnTurn p) [TurnEnded b u] w2 fs2 -> task_ok s (OnTurn p) [TurnEnded b u] -> task_ok s1 (OnTurn p) [TurnEnded b u].
Proof.
  intros T Hr (p' & b' & u' & [= <-] & [= <- <-] & _ & _ & Hpl) [Hst (b'' & u'' & [= <- <-] & Hp & Hk)].
  split; [done|]. exists b, u. pose proof (st_promises _ _ T) as Tp. unfold pending_turn in *. rewrite Tp.
  split_and!; [done|done|]. intros Hpend. apply (known_turn_kept s); [done|by apply Hr, Hpl|by apply Hk].
Qed.

(** What is left of a stack when a function that is no turn's returns or awaits *)
Lemma stack_popped f rest new : stack (f :: rest) -> nonturn f -> Forall nonturn new ->
  stack (new ++ rest) /\ forall b, new ++ rest <> [TurnStarted b].
Proof.
  intros Hst Hf Hnew. inversion Hst as [Hall|pre root Heq Hpre Hroot|b Heq|b u Heq].
  - apply Forall_cons in Hall as [_ Hall]. assert (Forall nonturn (new ++ rest)) as Hc by by apply Forall_app.
    split; [by apply stack_nonturn|]. intros b Heq. rewrite Heq in Hc. apply Forall_cons in Hc as [Hc _]. discriminate Hc.
  - destruct pre as [|f' pre]; [injection Heq as -> ->; destruct Hroot as [(?&?&->)|(?&?&?&->)]; done|].
    injection Heq as -> ->. apply Forall_cons in Hpre as [_ Hpre]. rewrite app_assoc. split.
    + apply (stack_turn _ (new ++ pre) root); [done|by apply Forall_app|done].
    + intros b Heq. apply (app_inj_tail _ [] _ (TurnStarted b)) in Heq as [_ ->].
      destruct Hroot as [(?&?&?)|(?&?&?&?)]; done.
  - injection Heq as -> ->. done.
  - injection Heq as -> ->. done.
Qed.
Lemma task_ok_popped s f rest new w : stack (f :: rest) -> nonturn f -> Forall nonturn new -> not_at_turn w ->
  task_ok s w (new ++ rest).
Proof.
  intros Hst Hf Hnew Hw. destruct (stack_popped f rest new Hst Hf Hnew) as [Hst' Hns]. split; [done|].
  destruct w as [k rid|p|o]; [by intros b v Heq; destruct (Hns b)|by destruct (Hw p)|].
  intros b Heq. by destruct (Hns b).
Qed.

(** An unfinished call on whose top stands a frame that is no turn's *)
Lemma inv_resume_nonturn s t w f rest r : inv s -> tasks s !! t = Some (Wait w (f :: rest)) -> nonturn f ->
  let (out, s1) := async (run_frame f r) s in inv (with_tasks (<[t := next_task out rest]> (tasks s1)) s1).
Proof.
  intros I Ht Hf. pose proof (nonturn_frame s f r (i_process s I) Hf) as H.
  destruct (async (run_frame f r) s) as [out s1]. destruct H as (P1 & T & C & Hout).
  destruct (i_tasks s I _ _ _ Ht) as [Hst _].
  (* the others wait for a turn, and then this call is no turn *)
  assert (Hoth : forall w' fs', other s t w' fs' -> exists p b u, w' = OnTurn p /\ fs' = [TurnEnded b u] /\
            beside s w' fs' w (f :: rest) /\ task_ok s w' fs').
  { intros w' fs' (t' & Hne & H'). pose proof (i_tasks s I _ _ _ H') as Hok.
    destruct (i_pairs s I _ _ _ _ _ _ Hne H' Ht) as [B|B].
    - pose proof B as (p & b & u & -> & -> & _). by exists p, b, u.
    - destruct B as (p & b & u & _ & [= -> _] & _). done. }
  apply (inv_replace s s1 t w (f :: rest)); try done; [by apply T| | |].
  - intros w' fs' Ho. destruct (Hoth _ _ Ho) as (p & b & u & -> & -> & B & Hok).
    eapply turn_task_kept; [done| |exact B|done]. intros [Hp _]%Forall_cons. by apply calm_rpc, C.
  - intros w2 fs2 Hn. apply next_task_cases in Hn.
    assert (Hw2 : not_at_turn w2) by (destruct Hn as [(o & _ & -> & _)|(fs0 & -> & _)]; [done|by destruct Hout]).
    assert (Hnew : exists new, fs2 = new ++ rest /\ Forall nonturn new /\ (plain f -> Forall plain new)).
    { destruct Hn as [(o & _ & _ & -> & _)|(fs0 & -> & ->)]; [by exists []|]. exists fs0. by destruct Hout as (_ & ? & ?). }
    destruct Hnew as (new & -> & Hnew & Hplain). split.
    + by apply task_ok_popped with f.
    + intros w' fs' Ho. left. destruct (Hoth _ _ Ho) as (p & b & u & -> & -> & B & Hok).
      apply (beside_kept s s1 _ _ _ _ T) in B as (p' & b' & u' & [= <-] & [= <- <-] & _ & Hfs & Hpl).
      exists p, b, u. split_and!; try done.
      * apply Forall_app. split; [done|]. by apply Forall_cons in Hfs as [_ ?].
      * intros Hpend. specialize (Hpl Hpend). apply Forall_cons in Hpl as [? ?]. apply Forall_app. auto.
  - pose proof (st_turns _ _ T) as ->. unfold pending_turn. pose proof (st_promises _ _ T) as ->.
    destruct (i_waiters s I) as [Hw|(t' & b & u & p & Hw & Ht' & Hp)]; [by left|]. right. exists t', b, u, p.
    split_and!; [done| |done]. rewrite list_lookup_insert_ne; [done|]. intros <-. rewrite Ht in Ht'. injection Ht' as -> -> ->. done.
Qed.

(** *** A turn's functions *)

(** A turn that does not yet wait for its end is the only call in flight. *)
Lemma turn_alone s t w f rest : inv s -> tasks s !! t = Some (Wait w (f :: rest)) -> turn_frame f = true ->
  (forall b u, f <> TurnEnded b u) ->
  rest = [] /\ (forall w' fs', ~ other s t w' fs') /\ turnWaiters (turns s) = [] /\ not_at_turn w.
Proof.
  intros I Ht Hf Hne. destruct (i_tasks s I _ _ _ Ht) as [Hst Hw].
  assert (rest = []) as ->.
  { inversion Hst as [Hall|pre root Heq Hpre Hroot|b Heq|b u Heq]; try by injection Heq as _ ->.
    - apply Forall_cons in Hall as [Hn _]. unfold nonturn in Hn. congruence.
    - destruct pre as [|f' pre]; [by injection Heq as _ ->|]. injection Heq as -> ->.
      apply Forall_cons in Hpre as [Hn _]. unfold nonturn in Hn. congruence. }
  assert (Hno : forall w' fs', ~ other s t w' fs').
  { intros w' fs' (t' & Hne' & Ht'). destruct (i_pairs s I _ _ _ _ _ _ Hne' Ht' Ht) as [B|B].
    - destruct B as (_ & _ & _ & _ & _ & _ & [Hn _]%Forall_cons & _). unfold nonturn in Hn. congruence.
    - destruct B as (p & b & u & _ & [= Hfe] & _). by destruct (Hne b u). }
  split_and!; [done|done| |].
  - destruct (i_waiters s I) as [|(t' & b & u & p & _ & Ht' & _)]; [done|]. destruct (decide (t' = t)) as [->|Hne'].
    + rewrite Ht in Ht'. injection Ht' as _ Hfe. by destruct (Hne b u).
    + exfalso. apply (Hno (OnTurn p) [TurnEnded b u]). by exists t'.
  - intros p ->. destruct Hw as (b & u & Heq & _). injection Heq as Hfe. by destruct (Hne b u).
Qed.
Lemma inv_replace_alone s s1 t w fs nt : inv s -> tasks s !! t = Some (Wait w fs) -> (forall w' fs', ~ other s t w' fs') ->
  process_ok s1 -> tasks s1 = tasks s -> (forall w2 fs2, nt = Wait w2 fs2 -> task_ok s1 w2 fs2) ->
  (turnWaiters (turns s1) = [] \/ exists b u p, turnWaiters (turns s1) = [(u, p)] /\
     nt = Wait (OnTurn p) [TurnEnded b u] /\ pending_turn s1 p) ->
  inv (with_tasks (<[t := nt]> (tasks s1)) s1).
Proof.
  intros I Ht Hno P1 T Hnew Hw. apply (inv_replace s s1 t w fs); try done.
  - intros w' fs' Ho. by destruct (Hno w' fs').
  - intros w2 fs2 Hn. split; [by apply Hnew|]. intros w' fs' Ho. by destruct (Hno w' fs').
  - destruct Hw as [|(b & u & p & H1 & -> & H2)]; [by left|right]. exists t, b, u, p. split_and!; [done| |done].
    apply list_lookup_insert_eq. by eapply lookup_lt_Some.
Qed.

(** A pushed frame below others is never the answer of [turn/start]. *)
Lemma snoc_task_ok s w pre root : stack (pre ++ [root]) -> (forall b, root <> TurnStarted b) -> not_at_turn w ->
  task_ok s w (pre ++ [root]).
Proof.
  intros Hst Hroot Hw. split; [done|].
  assert (Hns : forall b, pre ++ [root] <> [TurnStarted b]).
  { intros b Heq. apply (app_inj_tail _ [] _ (TurnStarted b)) in Heq as [_ ?]. by destruct (Hroot b). }
  destruct w as [k rid|q|o]; [by intros b v Heq; destruct (Hns b)|by destruct (Hw q)|].
  intros b Heq. by destruct (Hns b).
Qed.
Lemma turn_out_ok s w fs : turn_out (Suspend w fs) s -> task_ok s w fs.
Proof.
  intros [[o Heq]|[(b & w' & k & Heq & Hw & Hr)|(b & p & sk & w' & pre & Heq & Hw & Hpre)]]; [done| |];
    injection Heq as -> ->.
  - split; [by eapply stack_started|]. destruct Hw as [[rid ->]|[e ->]].
    + intros b' v _ _. by left.
    + intros _ _. by exists e.
  - apply snoc_task_ok; [|done|done]. apply (stack_turn _ pre (TurnSkills b p sk)); [done| |right; by eauto].
    eapply Forall_impl; [exact Hpre|]. by intros ? [? _].
Qed.

Lemma inv_resume_turn s t w f r : inv s -> tasks s !! t = Some (Wait w [f]) ->
  (exists p sk, f = TurnReady p sk) \/ (exists b p sk, f = TurnSkills b p sk) ->
  let (out, s1) := async (run_frame f r) s in inv (with_tasks (<[t := next_task out []]> (tasks s1)) s1).
Proof.
  intros I Ht Hf. destruct (turn_alone s t w f [] I Ht) as (_ & Hno & Hw & _).
  { by destruct Hf as [(?&?&->)|(?&?&?&->)]. } { by destruct Hf as [(?&?&->)|(?&?&?&->)]. }
  destruct (quiet_turn_frame f r Hf s Logic.I) as [C Q]. unfold async.
  destruct (run_frame f r s) as [[out|e] s1]; cbn [fst snd] in *;
    (apply (inv_replace_alone s s1 t w [f]); [done|done|done|by eapply process_ok_calm, C; apply I|by apply C| |
       left; by rewrite (calm_turns _ _ C)]); [|done].
  intros w2 fs2 [(o & _ & _ & _ & []) |(fs0 & -> & ->)]%next_task_cases; [done|]. rewrite app_nil_r. by apply turn_out_ok.
Qed.

Lemma process_ok_turns f s : process_ok s -> process_ok (on_turns f s).
Proof. by intros []. Qed.
Lemma process_ok_promises ps s : process_ok s -> process_ok (with_promises ps s).
Proof. by intros []. Qed.

(** The [finally] block runs on every path. *)
Lemma turn_ended_spec b u r s :
  async (turn_ended b u r) s
  = (Return (match r with
             | Ok (Turn turn) => match (turn_result b u turn s).1 with Ok (Return o) => o | Ok _ => r | Throw e => Throw e end
             | Ok _ => fail "no turn"
             | Throw e => Throw e
             end), on_turns (forget_turn u) s).
Proof.
  unfold async, turn_ended, try_finally, lift. rewrite M_bind_run. destruct r as [v|e]; [|done].
  destruct v; try done. unfold turn_result. destruct (Proto.turn_status t), (thread s); done.
Qed.

(** The start of a turn has been answered. *)
Lemma turn_started_spec b r s : process_ok s -> turnWaiters (turns s) = [] ->
  (forall v, r = Ok v -> is_Some (rpc (process s)) \/ disposed s = true) ->
  let (out, s1) := async (turn_started b r) s in
  process_ok s1 /\ tasks s1 = tasks s /\
  match out with
  | Return _ => turnWaiters (turns s1) = []
  | Suspend w fs => task_ok s1 w fs /\
      (turnWaiters (turns s1) = [] \/ exists b u p, turnWaiters (turns s1) = [(u, p)] /\
         Wait w fs = Wait (OnTurn p) [TurnEnded b u] /\ pending_turn s1 p)
  end.
Proof.
  intros P Hw Hr. unfold turn_started, lift. unfold async at 1. rewrite M_bind_run. destruct r as [v|e]; [|done].
  rewrite M_bind_run. destruct (Proto.parseCodexTurnStartResponse (json v)) as [turn|e] eqn:Ep; [|done].
  rewrite M_bind_run. unfold assertNotDisposed, js_guard. destruct (disposed s) eqn:Hd; [done|]. cbv zeta.
  rewrite M_bind_run. cbn [modify].
  assert (Hrpc : is_Some (rpc (process s))) by (destruct (Hr v eq_refl); [done|congruence]).
  assert (Hu : Proto.turn_id turn <> []).
  { unfold Proto.parseCodexTurnStartResponse in Ep. apply bind_Ok in Ep as (fs & _ & Ep). by apply Proto.turn_accepts in Ep as [? _]. }
  set (u := Proto.turn_id turn) in *. set (s0 := on_turns _ s).
  assert (process_ok s0) as P0 by by apply process_ok_turns.
  assert (Hend : let (out, s1) := async (turn_ended b u (Ok (Turn turn))) s0 in
            process_ok s1 /\ tasks s1 = tasks s /\ match out with Return _ => turnWaiters (turns s1) = [] | _ => False end).
  { rewrite turn_ended_spec. split_and!; [by apply process_ok_turns|done|done]. }
  assert (Hwait : let (out, s1) := async (await_turn b u) s0 in process_ok s1 /\ tasks s1 = tasks s /\
            match out with Return _ => False | Suspend w fs => task_ok s1 w fs /\
              (turnWaiters (turns s1) = [] \/ exists b u p, turnWaiters (turns s1) = [(u, p)] /\
                 Wait w fs = Wait (OnTurn p) [TurnEnded b u] /\ pending_turn s1 p) end).
  { unfold async, await_turn. destruct (map_get (completedTurns (turns s0)) u) as [turn'|].
    - split_and!; [by apply process_ok_turns|done|split; [by eapply stack_ended|done]|by left].
    - assert (Hp : pending_turn (with_promises (promises s0 ++ [None]) s0) (length (promises s0))).
      { unfold pending_turn. cbn. by rewrite lookup_app_r, Nat.sub_diag by lia. }
      split_and!; [by apply process_ok_turns, process_ok_promises|done| |].
      + split; [by eapply stack_ended|]. exists b, u. split_and!; [done|by eexists; exact Hp|]. intros _. split_and!; [done|done|done|].
        cbn. by rewrite Hw.
      + right. exists b, u, (length (promises s0)). split_and!; [cbn; by rewrite Hw|done|exact Hp]. }
  unfold async in Hend, Hwait. destruct (Proto.turn_status turn).
  - destruct (turn_ended b u (Ok (Turn turn)) s0) as [[[]|] s1]; naive_solver.
  - destruct (turn_ended b u (Ok (Turn turn)) s0) as [[[]|] s1]; naive_solver.
  - destruct (turn_ended b u (Ok (Turn turn)) s0) as [[[]|] s1]; naive_solver.
  - destruct (await_turn b u s0) as [[[]|] s1]; naive_solver.
Qed.

Lemma inv_resume_started s t w b r : inv s -> tasks s !! t = Some (Wait w [TurnStarted b]) -> settled w s = Some r ->
  let (out, s1) := async (turn_started b r) s in inv (with_tasks (<[t := next_task out []]> (tasks s1)) s1).
Proof.
  intros I Ht Hr. destruct (turn_alone s t w (TurnStarted b) [] I Ht) as (_ & Hno & Hw & Hnt); [done..|].
  pose proof (turn_started_spec b r s (i_process s I) Hw) as H.
  destruct (async (turn_started b r) s) as [out s1]. destruct H as (P1 & T & H).
  { intros v ->. destruct (i_tasks s I _ _ _ Ht) as [_ Hok]. destruct w as [k rid|p|o].
    - destruct (Hok b v eq_refl Hr) as [Hk|Hd]; [left|by right]. rewrite Hk. by eexists.
    - by destruct (Hnt p).
    - destruct (Hok b eq_refl) as [e ->]. done. }
  apply (inv_replace_alone s s1 t w [TurnStarted b]); try done.
  - intros w2 fs2 [(o & _ & _ & _ & [])|(fs0 & -> & ->)]%next_task_cases; [done|]. rewrite app_nil_r. apply H.
  - destruct out as [o|w' fs']; [by left|]. cbn. rewrite app_nil_r. apply H.
Qed.

(** A turn has ended. *)
Lemma inv_resume_ended s t w b u r : inv s -> tasks s !! t = Some (Wait w [TurnEnded b u]) -> settled w s = Some r ->
  let (out, s1) := async (turn_ended b u r) s in inv (with_tasks (<[t := next_task out []]> (tasks s1)) s1).
Proof.
  intros I Ht Hr. rewrite turn_ended_spec. cbn [next_task].
  assert (Hw : turnWaiters (turns s) = []).
  { destruct (i_waiters s I) as [|(t' & b' & u' & p & _ & Ht' & Hp)]; [done|]. exfalso.
    destruct (decide (t' = t)) as [->|Hne].
    - rewrite Ht in Ht'. injection Ht' as -> _ _. cbn in Hr. unfold pending_turn in Hp. by rewrite Hp in Hr.
    - destruct (i_pairs s I _ _ _ _ _ _ Hne Ht' Ht) as [B|B].
      + destruct B as (_ & _ & _ & _ & _ & _ & [Hn _]%Forall_cons & _). discriminate Hn.
      + destruct B as (_ & _ & _ & _ & _ & _ & [Hn _]%Forall_cons & _). discriminate Hn. }
  apply (inv_replace s _ t w [TurnEnded b u]); [done|done|by apply process_ok_turns, I|done| |done|by left].
  intros w' fs' (t' & Hne & Ht'). pose proof (i_tasks s I _ _ _ Ht') as [Hst Hok].
  split; [done|]. destruct w' as [k rid|p|o]; [exact Hok| |exact Hok].
  destruct (i_pairs s I _ _ _ _ _ _ Hne Ht' Ht) as [B|B].
  - destruct B as (_ & _ & _ & _ & _ & _ & [Hn _]%Forall_cons & _). discriminate Hn.
  - destruct B as (_ & _ & _ & _ & _ & Hnt & _ & _). by destruct (Hnt p).
Qed.

Ltac resumed H := let Hi := fresh in pose proof H as Hi; cbn [run_frame] in Hi |- *; destruct (async _ _) as [out s1]; exact Hi.
Lemma inv_resume t s : inv s -> inv (resume t s).
Proof.
  intros I. unfold resume. destruct (tasks s !! t) as [[w [|f rest]|]|] eqn:Ht; try done.
  destruct (settled w s) as [r|] eqn:Hr; [|done]. destruct (turn_frame f) eqn:Hf.
  - destruct f; try done.
    + destruct (turn_alone s t w _ rest I Ht Hf) as [-> _]; [done|]. resumed (inv_resume_turn s t w _ r I Ht ltac:(left; by eauto)).
    + destruct (turn_alone s t w _ rest I Ht Hf) as [-> _]; [done|]. resumed (inv_resume_turn s t w _ r I Ht ltac:(right; by eauto)).
    + destruct (turn_alone s t w _ rest I Ht Hf) as [-> _]; [done|]. resumed (inv_resume_started s t w recovered r I Ht Hr).
    + assert (rest = []) as ->.
      { destruct (i_tasks s I _ _ _ Ht) as [Hst _]. inversion Hst as [Hall|pre root Heq Hpre Hroot|b Heq|b u Heq]; try by injection Heq.
        - apply Forall_cons in Hall as [Hn _]. discriminate Hn.
        - destruct pre as [|f' pre]; [by injection Heq|]. injection Heq as <- _. apply Forall_cons in Hpre as [Hn _]. discriminate Hn. }
      resumed (inv_resume_ended s t w recovered turnId r I Ht Hr).
  - resumed (inv_resume_nonturn s t w f rest r I Ht Hf).
Qed.

(** *** Beginning a call *)

Lemma inv_add s s1 nt : inv s -> process_ok s1 -> same_turns s s1 ->
  (forall t w fs, tasks s !! t = Some (Wait w fs) -> task_ok s1 w fs) ->
  (forall w2 fs2, nt = Wait w2 fs2 -> task_ok s1 w2 fs2 /\
     forall t w fs, tasks s !! t = Some (Wait w fs) -> beside s1 w fs w2 fs2) ->
  inv (with_tasks (tasks s1 ++ [nt]) s1).
Proof.
  intros I P1 [T1 T2 T3] Hold Hnew. split; cbn [tasks with_tasks]; rewrite ?T3.
  - by destruct P1.
  - intros t w fs [Ht|[_ Ht]]%lookup_app_Some; [by eapply Hold|].
    apply list_lookup_singleton_Some in Ht as [_ ->]. by apply Hnew.
  - intros t1 t2 w1 w2 fs1 fs2 Hne [H1|[G1 H1]]%lookup_app_Some [H2|[G2 H2]]%lookup_app_Some.
    + destruct (i_pairs s I _ _ _ _ _ _ Hne H1 H2) as [B|B]; [left|right];
        by apply (beside_kept s s1 _ _ _ _ ltac:(by split)) in B.
    + apply list_lookup_singleton_Some in H2 as [_ ->]. left. by eapply (proj2 (Hnew _ _ eq_refl)).
    + apply list_lookup_singleton_Some in H1 as [_ ->]. right. by eapply (proj2 (Hnew _ _ eq_refl)).
    + apply list_lookup_singleton_Some in H1 as [? _], H2 as [? _]. lia.
  - cbn [turns with_tasks]. unfold pending_turn. cbn [promises with_tasks]. rewrite T1, T2.
    destruct (i_waiters s I) as [|(t & b & u & p & Hw & Ht & Hp)]; [by left|]. right. exists t, b, u, p.
    split_and!; [done| |done]. by apply lookup_app_l_Some.
Qed.

(** While a turn waits the process runs, so that a new call starts none. *)
Lemma at_turn_ok s s1 t w fs : inv s -> same_turns s s1 -> (is_Some (rpc (process s)) -> s1 = s) ->
  tasks s !! t = Some (Wait w fs) -> at_turn (Wait w fs) = true ->
  task_ok s1 w fs /\ exists p b u, w = OnTurn p /\ fs = [TurnEnded b u] /\ (pending_turn s1 p -> is_Some (rpc (process s))).
Proof.
  intros I [_ T _] Hsame Ht Hat. destruct w as [|p|]; try done.
  destruct (i_tasks s I _ _ _ Ht) as (Hst & b & u & -> & Hp & Hk).
  assert (Hr : pending_turn s1 p -> is_Some (rpc (process s))) by (unfold pending_turn; rewrite T; intros H; by apply Hk).
  split; [|by exists p, b, u]. split; [done|]. exists b, u. split_and!; [done|by rewrite T|].
  intros H. specialize (Hr H). rewrite Hsame in H |- * by done. by apply Hk.
Qed.
Lemma forallb_tasks (f : task -> bool) s t x : forallb f (tasks s) = true -> tasks s !! t = Some x -> f x = true.
Proof. rewrite forallb_forall. intros H Ht. apply H. apply list_elem_of_In. by eapply list_elem_of_lookup_2. Qed.

Lemma nonturn_task_ok s w fs : not_at_turn w -> Forall nonturn fs -> task_ok s w fs.
Proof.
  intros Hw Hfs. split; [by apply stack_nonturn|].
  assert (Hns : forall b, fs <> [TurnStarted b]) by (intros b ->; apply Forall_cons in Hfs as [Hn _]; discriminate Hn).
  destruct w as [k rid|p|o]; [by intros b v Heq; destruct (Hns b)|by destruct (Hw p)|].
  intros b Heq. by destruct (Hns b).
Qed.

Definition outcome_of (r : result outcome) : outcome := match r with Ok out => out | Throw e => Return (Throw e) end.
Lemma begin_call_eq c s : begin_call c s =
  with_tasks (tasks (body c s).2 ++ [next_task (outcome_of (body c s).1) []]) (body c s).2.
Proof. unfold begin_call, async. by destruct (body c s) as [[out|e] s1]. Qed.
Lemma outcome_of_wait r w fs : next_task (outcome_of r) [] = Wait w fs -> r = Ok (Suspend w fs).
Proof. destruct r as [[o|w0 fs0]|e]; cbn; try done. rewrite app_nil_r. by intros [= -> ->]. Qed.

Lemma inv_begin_turn p sk s : inv s -> forallb finished (tasks s) = true -> inv (begin_call (RunTurn p sk) s).
Proof.
  intros I Ha. rewrite begin_call_eq. destruct (launch_turn p sk s (i_process s I)) as (P1 & T & _ & Ho).
  assert (Hno : forall t w fs, tasks s !! t <> Some (Wait w fs)).
  { intros t w fs Ht. by apply (forallb_tasks _ _ _ _ Ha) in Ht. }
  apply (inv_add s); [done|done|done|intros t w fs Ht; by destruct (Hno t w fs)|].
  intros w2 fs2 Hn%outcome_of_wait. split; [|intros t w fs Ht; by destruct (Hno t w fs)].
  rewrite Hn in Ho. destruct Ho as (Hw & pre & -> & Hpre & _). apply snoc_task_ok; [|done|done].
  eapply stack_turn; [done|done|left; eauto].
Qed.
Lemma inv_begin_call c s : inv s -> (forall p sk, c <> RunTurn p sk) -> forallb at_turn (tasks s) = true ->
  inv (begin_call c s).
Proof.
  intros I Hc Hat. rewrite begin_call_eq. destruct (launch_call c Hc s (i_process s I)) as (P1 & T & Hs & Ho).
  apply (inv_add s); [done|done|done| |].
  - intros t w fs Ht. by eapply at_turn_ok; [..|exact (forallb_tasks _ _ _ _ Hat Ht)].
  - intros w2 fs2 Hn%outcome_of_wait. rewrite Hn in Ho.
    destruct Ho as (Hw & Hfs & Hpl). split; [by apply nonturn_task_ok|]. intros t w fs' Ht.
    destruct (at_turn_ok s _ t w fs' I T Hs Ht (forallb_tasks _ _ _ _ Hat Ht)) as (_ & p & b & u & -> & -> & Hr).
    exists p, b, u. split_and!; try done. intros Hp. by apply Hpl, Hr.
Qed.
Lemma inv_call c s : inv s -> admits (Call c) s = true -> inv (begin_call c s).
Proof.
  intros I Ha. destruct c; try (by apply inv_begin_call); by apply inv_begin_turn.
Qed.

(** *** What the process reports *)

(** At most one turn is waited for. *)
Definition one_waiter (s : Host) : Prop :=
  turnWaiters (turns s) = [] \/ exists u p, turnWaiters (turns s) = [(u, p)].
(** A step that leaves everything alone but the turns, and of these at most
    settles the promise that is waited for *)
Definition settle_with (r : result Proto.CodexTurn) (o : option (result Proto.CodexTurn)) : option (result Proto.CodexTurn) :=
  match o with None => Some r | o => o end.
Record told (s s' : Host) : Prop := {
  to_process : process s' = process s; to_conns : conns s' = conns s; to_exited : exited s' = exited s;
  to_disposed : disposed s' = disposed s; to_intent : intentionalShutdown s' = intentionalShutdown s;
  to_tasks : tasks s' = tasks s; to_active : activeTurnId (turns s') = activeTurnId (turns s);
  to_waiters : (turnWaiters (turns s') = turnWaiters (turns s) /\ promises s' = promises s) \/
    exists u p r, turnWaiters (turns s) = [(u, p)] /\ turnWaiters (turns s') = [] /\
      promises s' = alter (settle_with r) p (promises s) }.

Lemma told_refl s : told s s. Proof. split; try done. by left. Qed.
Lemma told_one s s' : told s s' -> one_waiter s -> one_waiter s'.
Proof. intros [_ _ _ _ _ _ _ [[H _]|(u & p & r & _ & H & _)]]; unfold one_waiter; rewrite H; [done|by left]. Qed.
Lemma told_trans a b c : told a b -> told b c -> told a c.
Proof.
  intros [] []. split; try congruence.
  destruct to_waiters0 as [[W1 P1]|(u & p & r & W1 & W2 & P1)].
  - rewrite <- W1, <- P1. done.
  - right. exists u, p, r. destruct to_waiters1 as [[W3 P3]|(u' & p' & r' & W3 & _)]; [|congruence].
    split_and!; congruence.
Qed.
Lemma told_turns f s : (forall t, activeTurnId (f t) = activeTurnId t /\ turnWaiters (f t) = turnWaiters t) -> told s (on_turns f s).
Proof. intros H. destruct (H (turns s)). split; try done. by left. Qed.
Lemma map_delete_one (u : jstr) (p : nat) : map_delete [(u, p)] u = [].
Proof. unfold map_delete. by rewrite filter_cons_False by naive_solver. Qed.
Lemma told_settle s u p r : turnWaiters (turns s) = [(u, p)] ->
  told s (settle_promise p r (on_turns (set_waiters (map_delete (turnWaiters (turns s)) u)) s)).
Proof.
  intros H. split; try done. right. exists u, p, r. split_and!; [done| |done]. cbn. rewrite H. apply map_delete_one.
Qed.
Lemma get_one (s : Host) u p : one_waiter s -> map_get (turnWaiters (turns s)) u = Some p -> turnWaiters (turns s) = [(u, p)].
Proof.
  intros [->|(u' & p' & ->)]; [done|]. rewrite map_get_cons. case_bool_decide as E; [|done]. intros [= ->]. by subst.
Qed.

Lemma told_reject e s : one_waiter s -> told s (rejectActiveTurn e s).
Proof.
  intros H1. unfold rejectActiveTurn. destruct (nonempty _) as [u|]; [|apply told_refl].
  destruct (map_get _ u) as [p|] eqn:E; [|apply told_refl]. by apply told_settle, get_one.
Qed.
Lemma told_completed turn s : one_waiter s -> told s (turn_completed turn s).
Proof.
  intros H1. unfold turn_completed. destruct (map_get _ _) as [p|] eqn:E.
  - by apply told_settle, get_one.
  - by apply told_turns.
Qed.
Lemma told_event e s : one_waiter s -> told s (handle_event e s).
Proof.
  intros H1. destruct e; cbn [handle_event]; try destruct (of_this_thread _ s); try apply told_refl;
    solve [by apply told_turns | by apply told_completed].
Qed.
Lemma told_notification m p s : one_waiter s -> told s (handleNotification m p s).
Proof.
  intros H1. unfold handleNotification. destruct (Proto.parseCodexServerEvent m p) as [e|e]; [|by apply told_reject].
  eapply told_trans; [|by apply told_event]. split; try done. by left.
Qed.
Definition notify_all (l : list (jstr * value)) (s : Host) : Host :=
  fold_left (fun s n => handleNotification n.1 n.2 s) l s.
Lemma told_all l s : one_waiter s -> told s (notify_all l s).
Proof.
  unfold notify_all. revert s. induction l as [|n l IH]; intros s H1; [apply told_refl|]. cbn [fold_left].
  pose proof (told_notification n.1 n.2 s H1) as T. eapply told_trans; [exact T|]. by eapply IH, told_one.
Qed.

Lemma settle_with_some p r (l : list (option (result Proto.CodexTurn))) q :
  is_Some (l !! q) -> is_Some (alter (settle_with r) p l !! q).
Proof.
  intros [o Ho]. destruct (decide (q = p)) as [->|Hne].
  - rewrite list_lookup_alter_eq, Ho. by eexists.
  - rewrite list_lookup_alter_ne by done. by eexists.
Qed.
Lemma settle_with_pending p r (l : list (option (result Proto.CodexTurn))) q :
  alter (settle_with r) p l !! q = Some None -> q <> p /\ l !! q = Some None.
Proof.
  destruct (decide (q = p)) as [->|Hne].
  - rewrite list_lookup_alter_eq. by destruct (l !! p) as [[o|]|].
  - by rewrite list_lookup_alter_ne.
Qed.

Lemma inv_one_waiter s : inv s -> one_waiter s.
Proof. intros I. destruct (i_waiters s I) as [|(t & b & u & p & H & _)]; [by left|right; eauto]. Qed.
Lemma inv_known s t p b u : inv s -> tasks s !! t = Some (Wait (OnTurn p) [TurnEnded b u]) -> pending_turn s p -> known_turn s u p.
Proof. intros I Ht Hp. destruct (i_tasks s I _ _ _ Ht) as (_ & b' & u' & [= <- <-] & _ & Hk). by apply Hk. Qed.

Lemma inv_told s s' : inv s -> told s s' -> inv s'.
Proof.
  intros I T. pose proof T as [Tp Tc Tx Td Ti Tt Ta Tw].
  assert (Hpend : forall p, pending_turn s' p -> pending_turn s p /\
            (turnWaiters (turns s') = turnWaiters (turns s) \/ forall u, turnWaiters (turns s) <> [(u, p)])).
  { intros p Hp. unfold pending_turn in *. destruct Tw as [[W P]|(u & q & r & W & W' & P)].
    - rewrite P in Hp. by split; [|left].
    - rewrite P in Hp. apply settle_with_pending in Hp as [Hne Hp]. split; [done|]. right. intros u'. rewrite W. by intros [= _ ->]. }
  assert (Hsome : forall p, is_Some (promises s !! p) -> is_Some (promises s' !! p)).
  { intros p Hp. destruct Tw as [[_ ->]|(u & q & r & _ & _ & ->)]; [done|by apply settle_with_some]. }
  split.
  - destruct (i_process s I). by split; rewrite ?Tp, ?Tc, ?Tx, ?Td, ?Ti.
  - intros t w fs Ht. rewrite Tt in Ht. destruct (i_tasks s I _ _ _ Ht) as [Hst Hok]. split; [done|].
    destruct w as [k rid|p|o]; [by unfold settled in *; rewrite Tc, Tp, Td| |done].
    destruct Hok as (b & u & -> & Hp & Hk). exists b, u. split_and!; [done|by apply Hsome|].
    intros [Hp' Hw]%Hpend. destruct (Hk Hp') as (H1 & H2 & H3 & H4). destruct Hw as [Hw|Hw]; [|by destruct (Hw u)].
    unfold known_turn. by rewrite Tp, Ta, Hw.
  - intros t1 t2 w1 w2 fs1 fs2 Hne H1 H2. rewrite Tt in H1, H2.
    destruct (i_pairs s I _ _ _ _ _ _ Hne H1 H2) as [(p & b & u & ? & ? & ? & ? & Hpl)|(p & b & u & ? & ? & ? & ? & Hpl)];
      [left|right]; exists p, b, u; (split_and!; [done..|]); intros [Hp _]%Hpend; by apply Hpl.
  - destruct Tw as [[W P]|(u & q & r & W & W' & P)]; [|by left]. rewrite W, Tt. unfold pending_turn. rewrite P. apply I.
Qed.

(** An operation on a connection that leaves a closed one as it is *)
Lemma inv_on_conn k f s : (forall c, Rpc.closed c = true -> f c = c) -> inv s -> inv (on_conn k f s).
Proof.
  intros Hf I. split.
  - apply process_ok_on_conn; [|apply I]. intros c Hc. by rewrite Hf.
  - intros t w fs Ht. destruct (i_tasks s I t w fs Ht) as [Hst Hok]. split; [done|].
    destruct w as [j rid|p|o]; [|exact Hok|exact Hok]. intros b v Heq Hset.
    cbn [settled on_conn with_conns conns] in Hset. destruct (decide (j = k)) as [->|Hne].
    + rewrite list_lookup_alter_eq in Hset. destruct (conns s !! k) as [c|] eqn:Hc; [|done].
      destruct (Rpc.closed c) eqn:Hcl; [|left; by apply (pr_open s (i_process s I) k c)].
      cbn in Hset. rewrite Hf in Hset by done. apply (Hok b v Heq). cbn [settled]. by rewrite Hc.
    + rewrite list_lookup_alter_ne in Hset by done. by apply (Hok b v Heq).
  - apply I.
  - apply I.
Qed.

Lemma inv_data k chunk s : inv s -> inv (handle_data k chunk s).
Proof.
  intros I. unfold handle_data. destruct (conns s !! k) as [c|]; [|done]. cbv zeta.
  assert (I1 : inv (on_conn k (Rpc.handleData JSON_parse JSON_stringify has_server_handler chunk) s)).
  { apply inv_on_conn; [|done]. intros c' Hc. by apply Rpc.handleData_closed. }
  eapply inv_told; [exact I1|]. apply (told_all (drop _ _)). by apply inv_one_waiter.
Qed.

(** *** The end of the process *)

(** The turn that is waited for, if there is one, is told. *)
Definition turn_told (s s1 : Host) : Prop :=
  (turnWaiters (turns s) = [] /\ turnWaiters (turns s1) = [] /\ promises s1 = promises s) \/
  exists u p r, turnWaiters (turns s) = [(u, p)] /\ turnWaiters (turns s1) = [] /\
    promises s1 = alter (settle_with r) p (promises s).
Lemma reject_tells e s s' : inv s -> turns s' = turns s -> promises s' = promises s ->
  turn_told s (rejectActiveTurn e s').
Proof.
  intros I T P. unfold rejectActiveTurn. rewrite T. destruct (i_waiters s I) as [Hw|(t & b & u & p & Hw & Ht & Hp)].
  - left. rewrite Hw. destruct (nonempty _); cbn; by rewrite ?T, ?P.
  - destruct (inv_known s t p b u I Ht Hp) as (_ & Ha & Hu & _). right. exists u, p, (Throw e).
    rewrite Ha, Hw. cbn [nonempty]. rewrite (proj2 (truthy_true u) Hu). rewrite map_get_cons, bool_decide_eq_true_2 by done.
    split_and!; [done|apply map_delete_one|cbn; by rewrite P].
Qed.

Lemma inv_lost s s1 : inv s -> process_ok s1 -> tasks s1 = tasks s -> turn_told s s1 ->
  (forall t k rid b v, tasks s !! t = Some (Wait (OnRequest k rid) [TurnStarted b]) ->
     settled (OnRequest k rid) s1 = Some (Ok v) -> rpc (process s1) = Some k \/ disposed s1 = true) ->
  inv s1.
Proof.
  intros I P1 T Htold Hst.
  assert (Hpend : forall p, pending_turn s1 p -> pending_turn s p /\ forall u, turnWaiters (turns s) <> [(u, p)]).
  { intros p Hp. unfold pending_turn in *. destruct Htold as [(W & _ & P)|(u & q & r & W & _ & P)].
    - rewrite P in Hp. split; [done|]. intros u. by rewrite W.
    - rewrite P in Hp. apply settle_with_pending in Hp as [Hne Hp]. split; [done|]. intros u'. rewrite W. by intros [= _ ->]. }
  split; [done|..].
  - intros t w fs Ht. rewrite T in Ht. destruct (i_tasks s I t w fs Ht) as [Hs Hok]. split; [done|].
    destruct w as [k rid|p|o]; [|..|exact Hok].
    + intros b v -> Hset. by apply (Hst t k rid b v).
    + destruct Hok as (b & u & -> & Hp & Hk). exists b, u. split_and!; [done| |].
      * destruct Htold as [(_ & _ & ->)|(u' & q & r & _ & _ & ->)]; [done|by apply settle_with_some].
      * intros [Hp' Hne]%Hpend. destruct (Hk Hp') as (_ & _ & _ & Hw). by destruct (Hne u).
  - intros t1 t2 w1 w2 fs1 fs2 Hne H1 H2. rewrite T in H1, H2.
    destruct (i_pairs s I _ _ _ _ _ _ Hne H1 H2) as [(p & b & u & ? & ? & ? & ? & Hpl)|(p & b & u & ? & ? & ? & ? & Hpl)];
      [left|right]; exists p, b, u; (split_and!; [done..|]); intros [Hp _]%Hpend; by apply Hpl.
  - left. by destruct Htold as [(_ & W & _)|(u & q & r & _ & W & _)].
Qed.

Lemma told_process_ok s s' : told s s' -> process_ok s -> process_ok s'.
Proof. intros [Tp Tc Tx Td Ti _ _ _] []. by split; rewrite ?Tp, ?Tc, ?Tx, ?Td, ?Ti. Qed.
Lemma dropped_process_ok reason s : (forall k, k ∈ exited s -> (k < length (conns s))%nat) ->
  (forall k c, conns s !! k = Some c -> Rpc.closed c = false -> rpc (process s) = Some k) ->
  (intentionalShutdown s = true -> disposed s = true) -> process_ok (drop_process reason s).
Proof.
  intros H1 H2 H3. apply (process_ok_dropped (Rpc.close reason) s no_process); try done. intros c. apply close_closes.
Qed.

(** Closing rejects requests: what succeeded had succeeded before. *)
Lemma dropped_settled reason s k rid v :
  settled (OnRequest k rid) (drop_process reason s) = Some (Ok v) -> settled (OnRequest k rid) s = Some (Ok v).
Proof.
  unfold drop_process, close_rpc. destruct (rpc (process s)) as [j|]; [|done].
  cbn [settled with_process on_conn with_conns conns]. destruct (decide (k = j)) as [->|Hne].
  - rewrite list_lookup_alter_eq. destruct (conns s !! j) as [c|]; [|done]. cbn.
    destruct (map_get (Rpc.settled (Rpc.close reason c)) rid) as [[v'|e|e]|] eqn:E; try done.
    apply fail_connection_settles in E. by rewrite E.
  - by rewrite list_lookup_alter_ne.
Qed.

Lemma quiescent_settled s t w fs : quiescent s = true -> tasks s !! t = Some (Wait w fs) -> settled w s = None.
Proof.
  intros Hq Ht. unfold quiescent in Hq. apply (forallb_tasks _ _ _ _ Hq) in Ht. cbn in Ht. to_prop.
  destruct (settled w s); [|done]. destruct Ht. by eexists.
Qed.

(** The process is lost while nothing is ready. *)
Lemma inv_process_lost reason e s : inv s -> quiescent s = true -> inv (rejectActiveTurn e (drop_process reason s)).
Proof.
  intros I Hq. pose proof (i_process s I) as [P1 P2 P3 P4 P5 P6].
  assert (P : process_ok (drop_process reason s)) by by apply dropped_process_ok.
  assert (H1 : turns (drop_process reason s) = turns s /\ promises (drop_process reason s) = promises s /\
               tasks (drop_process reason s) = tasks s).
  { unfold drop_process, close_rpc. by destruct (rpc (process s)). }
  destruct H1 as (Ht & Hp & Hk).
  assert (T : told (drop_process reason s) (rejectActiveTurn e (drop_process reason s))).
  { apply told_reject. unfold one_waiter. rewrite Ht. by apply inv_one_waiter. }
  apply (inv_lost s); [done|by eapply told_process_ok|by rewrite (to_tasks _ _ T)|by apply reject_tells|].
  intros t k rid b v Htask Hset. exfalso. pose proof (quiescent_settled _ _ _ _ Hq Htask) as Hn.
  assert (settled (OnRequest k rid) (drop_process reason s) = Some (Ok v)) as Hd.
  { cbn [settled] in *. by rewrite (to_conns _ _ T) in Hset. }
  apply dropped_settled in Hd. congruence.
Qed.

Lemma inv_exited k ds s : inv s -> (k < length (conns s))%nat -> child (process s) <> Some k ->
  inv (with_children ds ({[k]} ∪ exited s) s).
Proof.
  intros [[P1 P2 P3 P4 P5 P6] I2 I3 I4] Hk Hc. split; [|exact I2|exact I3|exact I4]. split; try done.
  - intros j Hj. destruct (P2 j Hj). split; [done|]. cbn [exited with_children]. rewrite P1 in Hc. set_solver.
  - cbn [exited with_children conns]. intros j. rewrite elem_of_union, elem_of_singleton. intros [->|Hj]; [done|by apply P3].
Qed.

Lemma reject_children e ds ex s : rejectActiveTurn e (with_children ds ex s) = with_children ds ex (rejectActiveTurn e s).
Proof. unfold rejectActiveTurn. cbn [turns with_children]. destruct (nonempty _); [|done]. by destruct (map_get _ _). Qed.
Lemma drop_children reason ds ex s : drop_process reason (with_children ds ex s) = with_children ds ex (drop_process reason s).
Proof. unfold drop_process, close_rpc. cbn [process with_children]. by destruct (rpc (process s)). Qed.
Lemma reject_same e s : process (rejectActiveTurn e s) = process s /\ conns (rejectActiveTurn e s) = conns s /\
  exited (rejectActiveTurn e s) = exited s.
Proof. unfold rejectActiveTurn. destruct (nonempty _); [|done]. by destruct (map_get _ _). Qed.
Lemma drop_same reason s : process (drop_process reason s) = no_process /\
  length (conns (drop_process reason s)) = length (conns s) /\ exited (drop_process reason s) = exited s /\
  intentionalShutdown (drop_process reason s) = intentionalShutdown s.
Proof.
  unfold drop_process, close_rpc. destruct (rpc (process s)); [|done]. split_and!; try done. apply on_conn_length.
Qed.
(** A host that has a child has not been shut down. *)
Lemma child_running s k : inv s -> child (process s) = Some k -> rpc (process s) = Some k /\ intentionalShutdown s = false.
Proof.
  intros [[P1 P2 P3 P4 P5 P6] _ _ _] Hc. rewrite P1 in Hc. split; [done|]. apply not_true_is_false.
  intros Hi%P6%P5. congruence.
Qed.

Lemma handleExit_child k suffix s : inv s -> child (process s) = Some k ->
  handleExit k suffix s = with_children (spawned s) ({[k]} ∪ exited s)
    (rejectActiveTurn (Error (js "Codex app-server exited unexpectedly" ++ suffix))
       (drop_process (js "Codex app-server process exited") s)).
Proof.
  intros I Hc. destruct (child_running s k I Hc) as [_ Hi]. unfold handleExit. cbv zeta. cbn [process with_children].
  rewrite (bool_decide_eq_true_2 _ Hc). cbn [negb]. rewrite drop_children. cbn [intentionalShutdown with_children].
  destruct (drop_same (js "Codex app-server process exited") s) as (_ & _ & _ & ->). rewrite Hi. apply reject_children.
Qed.
Lemma inv_exit k suffix s : inv s -> admits (Exit k suffix) s = true -> inv (handleExit k suffix s).
Proof.
  intros I Ha. apply andb_true_iff in Ha as [Hq Hk%Nat.ltb_lt].
  destruct (decide (child (process s) = Some k)) as [Hc|Hc].
  - rewrite handleExit_child by done.
    set (s1 := rejectActiveTurn _ _). assert (I1 : inv s1) by by apply inv_process_lost.
    assert (H : process s1 = no_process /\ length (conns s1) = length (conns s) /\ exited s1 = exited s).
    { subst s1. destruct (reject_same (Error (js "Codex app-server exited unexpectedly" ++ suffix))
        (drop_process (js "Codex app-server process exited") s)) as (-> & -> & ->).
      by destruct (drop_same (js "Codex app-server process exited") s) as (-> & -> & -> & _). }
    destruct H as (Hp & Hl & Hx). rewrite <- Hx. apply inv_exited; [done|by rewrite Hl|by rewrite Hp].
  - unfold handleExit. cbv zeta. cbn [process with_children]. rewrite (bool_decide_eq_false_2 _ Hc). by apply inv_exited.
Qed.
Lemma inv_process_error k m s : inv s -> admits (ProcessError k m) s = true -> inv (handleProcessError k m s).
Proof.
  intros I Ha. apply andb_true_iff in Ha as [Hq _]. unfold handleProcessError. destruct (negb _); [done|].
  by apply inv_process_lost.
Qed.

(** A shutdown, at any time *)
Lemma inv_shutdown s : inv s -> inv (shutdown s).
Proof.
  intros I. pose proof (i_process s I) as [P1 P2 P3 P4 P5 P6]. unfold shutdown. cbv zeta.
  set (s0 := rejectActiveTurn _ (with_shutdown true true s)).
  assert (T : told (with_shutdown true true s) s0) by (apply told_reject; exact (inv_one_waiter s I)).
  assert (W : turn_told s s0) by by apply reject_tells.
  pose proof T as [Tp Tc Tx Td Ti Tt _ _].
  assert (P : process_ok (drop_process (js "Codex app-server host shut down") s0)).
  { apply dropped_process_ok; rewrite ?Tp, ?Tc, ?Tx, ?Td; [exact P3|exact P4|done]. }
  assert (Hsame : forall p, process_ok p -> process_ok (with_desired None p)) by (intros p []; by split).
  apply (inv_lost s); [done|exact (Hsame _ P)| | |].
  - unfold close_rpc. destruct (rpc (process s0)); exact Tt.
  - unfold close_rpc. destruct (rpc (process s0)); exact W.
  - intros t k rid b v _ _. right. unfold close_rpc. destruct (rpc (process s0)); exact Td.
Qed.

Lemma inv_handle e s : inv s -> admits e s = true -> inv (handle e s).
Proof.
  intros I Ha. destruct e; cbn [handle].
  - by apply inv_call.
  - by apply inv_resume.
  - by apply inv_shutdown.
  - by apply inv_data.
  - apply inv_on_conn; [|done]. intros c Hc. by apply fail_connection_same.
  - apply inv_on_conn; [|done]. intros c Hc. unfold Rpc.server_request_done. by rewrite Hc.
  - by eapply inv_exit.
  - by eapply inv_process_error.
Qed.
Lemma run_inv es s s' : inv s -> run es s = Some s' -> inv s'.
Proof.
  revert s. induction es as [|e es IH]; intros s I H; cbn in H; [by injection H as <-|].
  destruct (admits e s) eqn:Ha; [|done]. by apply (IH (handle e s)); [apply inv_handle|].
Qed.

(** *** What is settled stays settled *)

Definition promises_kept (s s' : Host) : Prop := forall p r, promises s !! p = Some (Some r) -> promises s' !! p = Some (Some r).
Lemma promises_kept_refl s : promises_kept s s.
Proof. by intros p r. Qed.
#[local] Hint Resolve promises_kept_refl : core.

Lemma turn_started_keeps b r s : promises_kept s (async (turn_started b r) s).2.
Proof.
  intros p x Hp. unfold async, turn_started, lift. rewrite M_bind_run. destruct r as [v|e]; [|done].
  rewrite M_bind_run. destruct (Proto.parseCodexTurnStartResponse (json v)) as [turn|e]; [|done].
  rewrite M_bind_run. unfold assertNotDisposed, js_guard. destruct (disposed s); [done|]. cbv zeta.
  rewrite M_bind_run. cbn [modify]. set (s0 := on_turns _ s).
  assert (promises (async (turn_ended b (Proto.turn_id turn) (Ok (Turn turn))) s0).2 !! p = Some (Some x)) as Hend
    by by rewrite turn_ended_spec.
  unfold async in Hend. destruct (Proto.turn_status turn);
    try (by destruct (turn_ended _ _ _ s0) as [[]]).
  unfold await_turn. destruct (map_get _ _); [done|]. cbn. by apply lookup_app_l_Some.
Qed.

(** What resuming a call does to the others *)
Lemma resume_keeps t s : inv s -> promises_kept s (resume t s) /\
  forall t' x, tasks s !! t' = Some x -> (t' <> t \/ finished x = true) -> tasks (resume t s) !! t' = Some x.
Proof.
  intros I. unfold resume. destruct (tasks s !! t) as [[w [|f rest]|]|] eqn:Ht; try by split.
  destruct (settled w s) as [r|] eqn:Hr; [|by split].
  assert (H : promises_kept s (async (run_frame f r) s).2 /\ tasks (async (run_frame f r) s).2 = tasks s).
  { destruct (turn_frame f) eqn:Hf.
    - destruct f; try done.
      + destruct (quiet_turn_frame (TurnReady prompt skills) r ltac:(left; eauto) s Logic.I) as [C _].
        unfold async. destruct (run_frame _ r s) as [[]]; destruct C; (split; [|done]); intros p x; cbn in *; congruence.
      + destruct (quiet_turn_frame (TurnSkills recovered prompt skills) r ltac:(right; eauto) s Logic.I) as [C _].
        unfold async. destruct (run_frame _ r s) as [[]]; destruct C; (split; [|done]); intros p x; cbn in *; congruence.
      + split; [apply turn_started_keeps|]. cbn [run_frame].
        destruct (turn_alone s t w _ rest I Ht Hf) as (-> & _ & Hw & _); [done|].
        pose proof (turn_started_spec recovered r s (i_process s I) Hw) as H.
        destruct (async _ s) as [out s1]. cbn. apply H. intros v ->.
        destruct (i_tasks s I _ _ _ Ht) as [_ Hok]. destruct w as [k rid|p|o].
        * destruct (Hok recovered v eq_refl Hr) as [Hk|Hd]; [left|by right]. rewrite Hk. by eexists.
        * destruct Hok as (b & u & Heq & _). discriminate Heq.
        * destruct (Hok recovered eq_refl) as [e ->]. done.
      + cbn [run_frame]. rewrite turn_ended_spec. split; [by intros p x|done].
    - pose proof (nonturn_frame s f r (i_process s I) Hf) as H. destruct (async (run_frame f r) s) as [out s1].
      destruct H as (_ & [_ T1 T2] & _). split; [|done]. intros p x. cbn. by rewrite T1. }
  destruct H as [Hp Htasks]. destruct (async (run_frame f r) s) as [out s1]. cbn [fst snd] in *. split; [exact Hp|].
  intros t' x Ht' Hx. cbn [tasks with_tasks]. rewrite Htasks. rewrite list_lookup_insert_ne; [done|].
  intros <-. rewrite Ht in Ht'. injection Ht' as <-. by destruct Hx.
Qed.

Lemma told_keeps s s' : told s s' -> promises_kept s s'.
Proof.
  intros T p r Hp. destruct (to_waiters _ _ T) as [[_ ->]|(u & q & r' & _ & _ & ->)]; [done|].
  destruct (decide (p = q)) as [->|Hne]; [by rewrite list_lookup_alter_eq, Hp|by rewrite list_lookup_alter_ne].
Qed.
Lemma drop_told e reason s : one_waiter s -> promises_kept s (rejectActiveTurn e (drop_process reason s)) /\
  tasks (rejectActiveTurn e (drop_process reason s)) = tasks s.
Proof.
  intros H1. assert (one_waiter (drop_process reason s) /\ promises (drop_process reason s) = promises s /\
    tasks (drop_process reason s) = tasks s) as (H2 & Hp & Ht) by (unfold drop_process, close_rpc; by destruct (rpc (process s))).
  pose proof (told_reject e _ H2) as T. split; [|by rewrite (to_tasks _ _ T)].
  intros p r. rewrite <- Hp. by apply told_keeps.
Qed.
Lemma handle_keeps e s : inv s -> admits e s = true -> promises_kept s (handle e s) /\
  forall t x, tasks s !! t = Some x -> (e <> Resume t \/ finished x = true) -> tasks (handle e s) !! t = Some x.
Proof.
  intros I Ha. pose proof (inv_one_waiter s I) as H1. destruct e as [c|t0| |k chunk|k e|k r o|k suffix|k m]; cbn [handle].
  - rewrite begin_call_eq.
    assert (same_turns s (body c s).2) as [T1 T2 T3].
    { destruct c as [o|th o|roots dir|pinned next|p sk|].
      5: by apply (launch_turn p sk s (i_process s I)).
      all: by eapply launch_call; [|apply (i_process s I)]. }
    split; [intros p r; cbn; by rewrite T2|]. intros t x Ht _. cbn [tasks with_tasks]. rewrite T3. by apply lookup_app_l_Some.
  - destruct (resume_keeps t0 s I) as [Hp Ht]. split; [done|]. intros t x Hx [Hne|Hfin]; apply Ht; auto.
  - assert (T : told (with_shutdown true true s) (rejectActiveTurn (Error (js "Codex app-server host shut down")) (with_shutdown true true s)))
      by (apply told_reject; exact H1).
    unfold shutdown, close_rpc. cbv zeta. set (s0 := rejectActiveTurn _ _) in *.
    assert (promises_kept s s0 /\ tasks s0 = tasks s) as [Hp Ht] by (split; [exact (told_keeps _ _ T)|exact (to_tasks _ _ T)]).
    destruct (rpc (process s0)); (split; [exact Hp|]); intros t x Hx _; cbn; by rewrite Ht.
  - unfold handle_data. destruct (conns s !! k) as [c|]; [|by split]. cbv zeta.
    pose proof (told_all (drop (length (Rpc.notifications c))
      (Rpc.notifications (Rpc.handleData JSON_parse JSON_stringify has_server_handler chunk c)))
      (on_conn k (Rpc.handleData JSON_parse JSON_stringify has_server_handler chunk) s) H1) as T.
    split; [exact (told_keeps _ _ T)|]. intros t x Hx _. unfold notify_all in T. by rewrite (to_tasks _ _ T).
  - split; [by intros p r|done].
  - split; [by intros p r'|done].
  - destruct (decide (child (process s) = Some k)) as [Hc|Hc].
    + rewrite handleExit_child by done. destruct (drop_told (Error (js "Codex app-server exited unexpectedly" ++ suffix))
        (js "Codex app-server process exited") s H1) as [Hp Ht].
      split; [exact Hp|]. intros t x Hx _. cbn [tasks with_children]. by rewrite Ht.
    + unfold handleExit. cbv zeta. cbn [process with_children]. rewrite (bool_decide_eq_false_2 _ Hc). split; [by intros p r|done].
  - unfold handleProcessError. destruct (negb _); [by split|].
    destruct (drop_told (Error (js "Codex app-server process error: " ++ m)) m s H1) as [Hp Ht].
    split; [exact Hp|]. intros t x Hx _. by rewrite Ht.
Qed.

(** *** Waking a turn *)

Definition new_notifications (chunk : jstr) (c : Rpc.Connection) : list (jstr * value) :=
  drop (length (Rpc.notifications c))
    (Rpc.notifications (Rpc.handleData JSON_parse JSON_stringify has_server_handler chunk c)).
(** A notification that ends the turn [u]: its completion, or one that cannot
    be read *)
Definition ending (s : Host) (u : jstr) (n : jstr * value) : Prop :=
  match Proto.parseCodexServerEvent n.1 n.2 with
  | Ok (Proto.turn_completed th turn) => of_this_thread th s = true /\ Proto.turn_id turn = u
  | Ok _ => False
  | Throw _ => True
  end.
(** What ends a turn that waits on the child [k] *)
Definition ends_turn (s : Host) (k : nat) (u : jstr) (e : event) : Prop :=
  match e with
  | Shutdown => True
  | Exit j _ | ProcessError j _ => j = k
  | Data j chunk => exists c n, j = k /\ conns s !! k = Some c /\ n ∈ new_notifications chunk c /\ ending s u n
  | _ => False
  end.

Lemma notification_thread m p s : thread (handleNotification m p s) = thread s.
Proof.
  assert (forall e s, thread (rejectActiveTurn e s) = thread s) as Hr.
  { intros e s'. unfold rejectActiveTurn. destruct (nonempty _); [|done]. by destruct (map_get _ _). }
  unfold handleNotification. destruct (Proto.parseCodexServerEvent m p) as [e|e]; [|apply Hr].
  destruct e; cbn [handle_event]; try destruct (of_this_thread _ _); try done.
  unfold turn_completed. by destruct (map_get _ _).
Qed.

Lemma get_known s u p : turnWaiters (turns s) = [(u, p)] -> map_get (turnWaiters (turns s)) u = Some p.
Proof. intros ->. by rewrite map_get_cons, bool_decide_eq_true_2. Qed.
(** What the host knows of a pending turn is enough to settle it. *)
Lemma known_turn_settles s u p (r : result Proto.CodexTurn) : pending_turn s p ->
  promises (settle_promise p r (on_turns (set_waiters (map_delete (turnWaiters (turns s)) u)) s)) !! p = Some (Some r).
Proof. intros Hp. cbn. unfold pending_turn in Hp. by rewrite list_lookup_alter_eq, Hp. Qed.
Lemma known_turn_rejected s u p e : activeTurnId (turns s) = Some u -> u <> [] -> turnWaiters (turns s) = [(u, p)] ->
  pending_turn s p -> promises (rejectActiveTurn e s) !! p = Some (Some (Throw e)).
Proof.
  intros Ha Hu Hw Hp. unfold rejectActiveTurn. rewrite Ha. cbn [nonempty]. rewrite (proj2 (truthy_true u) Hu).
  rewrite (get_known s u p Hw). by apply known_turn_settles.
Qed.
Lemma ending_settles s u p n : activeTurnId (turns s) = Some u -> u <> [] -> turnWaiters (turns s) = [(u, p)] ->
  pending_turn s p -> ending s u n -> exists r, promises (handleNotification n.1 n.2 s) !! p = Some (Some r).
Proof.
  intros Ha Hu Hw Hp He. unfold ending in He. unfold handleNotification.
  destruct (Proto.parseCodexServerEvent n.1 n.2) as [ev|e].
  - destruct ev; try done. destruct He as [Hth <-]. cbn [handle_event].
    change (of_this_thread threadId (with_events _ s)) with (of_this_thread threadId s). rewrite Hth.
    unfold turn_completed. cbn [turns with_events]. rewrite (get_known s _ p Hw).
    eexists. by apply (known_turn_settles (with_events (events s ++ [_]) s)).
  - eexists. by apply (known_turn_rejected s u).
Qed.
Lemma ending_among l s u p n : activeTurnId (turns s) = Some u -> u <> [] -> turnWaiters (turns s) = [(u, p)] ->
  pending_turn s p -> n ∈ l -> ending s u n -> exists r, promises (notify_all l s) !! p = Some (Some r).
Proof.
  intros Ha Hu Hw Hp Hn He. unfold notify_all. revert s Ha Hw Hp He. induction l as [|n' l IH]; [by apply not_elem_of_nil in Hn|].
  intros s Ha Hw Hp He. cbn [fold_left].
  assert (one_waiter s) as H1 by (right; eauto). pose proof (told_notification n'.1 n'.2 s H1) as T.
  set (s1 := handleNotification n'.1 n'.2 s) in *.
  assert (Hkeep : forall r, promises s1 !! p = Some (Some r) -> exists r, promises (notify_all l s1) !! p = Some (Some r)).
  { intros r Hr. exists r. exact (told_keeps s1 _ (told_all l s1 (told_one _ _ T H1)) p r Hr). }
  apply elem_of_cons in Hn as [->|Hn].
  - destruct (ending_settles s u p n' Ha Hu Hw Hp He) as [r Hr]. by apply (Hkeep r).
  - pose proof (to_waiters _ _ T) as [[W P]|(u' & q & r & W & _ & P)].
    + apply (IH Hn s1); [by rewrite (to_active _ _ T)|by rewrite W|by unfold pending_turn; rewrite P|].
      unfold ending, of_this_thread in *. subst s1. by rewrite notification_thread.
    + rewrite Hw in W. injection W as <- <-. apply (Hkeep r). rewrite P. unfold pending_turn in Hp.
      by rewrite list_lookup_alter_eq, Hp.
Qed.

Lemma ends_settles s t p b u k e : inv s -> tasks s !! t = Some (Wait (OnTurn p) [TurnEnded b u]) -> pending_turn s p ->
  child (process s) = Some k -> ends_turn s k u e -> exists r, promises (handle e s) !! p = Some (Some r).
Proof.
  intros I Ht Hp Hc He. destruct (inv_known s t p b u I Ht Hp) as (_ & Ha & Hu & Hw).
  assert (Hdrop : forall reason e, exists r, promises (rejectActiveTurn e (drop_process reason s)) !! p = Some (Some r)).
  { intros reason e'. exists (Throw e'). apply (known_turn_rejected _ u); try done;
      unfold drop_process, close_rpc; by destruct (rpc (process s)). }
  destruct e as [| | |j chunk| | |j suffix|j m]; try done; cbn [handle].
  - exists (Throw (Error (js "Codex app-server host shut down"))). unfold shutdown, close_rpc. cbv zeta.
    destruct (rpc _); by apply (known_turn_rejected (with_shutdown true true s) u).
  - destruct He as (c & n & -> & Hk & Hn & He). unfold handle_data. rewrite Hk. by apply (ending_among _ _ u p n).
  - cbn in He. subst j. rewrite handleExit_child by done. apply Hdrop.
  - cbn in He. subst j. unfold handleProcessError. rewrite bool_decide_eq_true_2 by done. apply Hdrop.
Qed.

(** A settled turn ends when it is resumed. *)
Lemma settled_turn_ends s t p b u r : inv s -> tasks s !! t = Some (Wait (OnTurn p) [TurnEnded b u]) ->
  promises s !! p = Some (Some r) -> exists o, tasks (resume t s) !! t = Some (Done o).
Proof.
  intros I Ht Hp. unfold resume. rewrite Ht. cbn [settled]. rewrite Hp. cbn [run_frame]. rewrite turn_ended_spec.
  cbn [next_task]. eexists. apply list_lookup_insert_eq. cbn. by eapply lookup_lt_Some.
Qed.
Lemma done_run es s s' t o : inv s -> run es s = Some s' -> tasks s !! t = Some (Done o) -> tasks s' !! t = Some (Done o).
Proof.
  revert s. induction es as [|e es IH]; intros s I H Ht; cbn in H; [by injection H as <-|].
  destruct (admits e s) eqn:Ha; [|done]. apply (IH (handle e s)); [by apply inv_handle|done|].
  apply (handle_keeps e s I Ha); [done|by right].
Qed.
Lemma settled_turn_run es s s' t p b u r : inv s -> run es s = Some s' ->
  tasks s !! t = Some (Wait (OnTurn p) [TurnEnded b u]) -> promises s !! p = Some (Some r) ->
  Resume t ∈ es -> exists o, tasks s' !! t = Some (Done o).
Proof.
  revert s. induction es as [|e es IH]; intros s I H Ht Hp Hin; [by apply not_elem_of_nil in Hin|]. cbn in H.
  destruct (admits e s) eqn:Ha; [|done]. destruct (handle_keeps e s I Ha) as [Kp Kt].
  assert (e = Resume t \/ e <> Resume t) as [->|Hne].
  { destruct e; try by right. destruct (decide (t0 = t)) as [->|]; [by left|right; congruence]. }
  - destruct (settled_turn_ends s t p b u r I Ht Hp) as [o Ho]. exists o. by apply (done_run es (resume t s)); [apply inv_resume|..].
  - apply elem_of_cons in Hin as [Hin|Hin]; [congruence|]. apply (IH (handle e s)); [by apply inv_handle|done| |by apply Kp|done].
    apply Kt; [done|by left].
Qed.

(** ** Properties *)

(** C5: no turn waits in vain under disciplined use ([admits]): apart from the
    turn that waits there is at most one call in flight, a turn is started only
    when there is none, and what a child process does is handled after the
    microtasks. When a call then waits for the end of its turn, the host has a
    child process that has not exited; and once that process exits or fails,
    the turn's completion or a notification the protocol cannot read arrives on
    it, or the host is shut down, the call ends as soon as it is resumed,
    whatever else that use allows happens in between. (A line that is no JSON
    is no such end, and neither is an exit that comes after a failed
    initialization has dropped the process: see the examples
    [unreadable_line_hangs_turn] and [failed_initialization_hangs_turn].) *)
Theorem waiting_turn_is_woken es s t p b u (Hrun : run es new_host = Some s)
  (Hwait : tasks s !! t = Some (Wait (OnTurn p) [TurnEnded b u])) (Hpending : promises s !! p = Some None) :
  exists k, child (process s) = Some k /\ k ∉ exited s /\
    forall e es' s', ends_turn s k u e -> run (e :: es') s = Some s' -> Resume t ∈ es' ->
      exists o, tasks s' !! t = Some (Done o).
Proof.
  assert (I : inv s) by by apply (run_inv es new_host); [apply inv_new|].
  destruct (inv_known s t p b u I Hwait Hpending) as ([k Hk] & _). exists k.
  split_and!; [by rewrite (pr_same s (i_process s I))|by apply (pr_live s (i_process s I))|].
  intros e es' s' He H Hin. cbn in H. destruct (admits e s) eqn:Ha; [|done].
  destruct (ends_settles s t p b u k e I Hwait Hpending) as [r Hr]; [by rewrite (pr_same s (i_process s I))|done|].
  apply (settled_turn_run es' (handle e s) s' t p b u r); [by apply inv_handle|done| |done|done].
  apply (handle_keeps e s I Ha); [done|]. left. intros ->. done.
Qed.

(** The host has at most one live process: every connection but the one of
    its current child is closed, that child has not exited, and a host that is
    shut down has none. *)
Theorem one_live_process es :
  match run es new_host with
  | Some s => child (process s) = rpc (process s) /\
      (forall k c, conns s !! k = Some c -> Rpc.closed c = false -> rpc (process s) = Some k) /\
      (forall k, rpc (process s) = Some k -> k ∉ exited s) /\ (disposed s = true -> rpc (process s) = None)
  | None => True
  end.
Proof.
  destruct (run es new_host) as [s|] eqn:H; [|done]. apply run_inv in H; [|apply inv_new].
  destruct (i_process s H) as [P1 P2 P3 P4 P5 P6]. split_and!; [done|done| |done]. intros k Hk. by apply P2.
Qed.

(** *** The two orders of a turn's answer and its end *)

Lemma map_delete_set {V} (m : list (jstr * V)) u x : map_delete (map_set m u x) u = map_delete m u.
Proof.
  unfold map_delete. induction m as [|[k v] m IH]; cbn [map_set].
  - by rewrite filter_cons_False by naive_solver.
  - case_bool_decide as Hk.
    + subst. by rewrite !filter_cons_False by naive_solver.
    + by rewrite !filter_cons_True, IH by naive_solver.
Qed.
Lemma map_delete_twice {V} (m : list (jstr * V)) u : map_delete (map_delete m u) u = map_delete m u.
Proof. apply map_delete_absent. rewrite map_get_delete. by rewrite bool_decide_eq_true_2. Qed.

Lemma turn_started_eq b v turn s : Proto.parseCodexTurnStartResponse v = Ok turn -> Proto.turn_status turn = Proto.inProgress ->
  disposed s = false ->
  async (turn_started b (Ok (Json v))) s = async (await_turn b (Proto.turn_id turn)) (on_turns (set_active (Some (Proto.turn_id turn))) s).
Proof.
  intros Hp Hs Hd. unfold turn_started, async, lift. rewrite M_bind_run. cbn [json]. rewrite Hp, M_bind_run.
  rewrite M_bind_run. unfold assertNotDisposed, js_guard. rewrite Hd. cbv zeta. rewrite M_bind_run, Hs. done.
Qed.
(** What a turn delivers *)
Definition turn_outcome (b : bool) (u : jstr) (turn : Proto.CodexTurn) (s : Host) : result val :=
  match (turn_result b u turn s).1 with Ok (Return o) => o | Ok _ => Ok (Turn turn) | Throw e => Throw e end.
Lemma resume_ended s t w b u turn : tasks s !! t = Some (Wait w [TurnEnded b u]) -> settled w s = Some (Ok (Turn turn)) ->
  resume t s = with_tasks (<[t := Done (turn_outcome b u turn s)]> (tasks s)) (on_turns (forget_turn u) s).
Proof. intros Ht Hs. unfold resume. rewrite Ht, Hs. cbn [run_frame]. by rewrite turn_ended_spec. Qed.
Lemma turn_outcome_same b u turn s s' : thread s' = thread s -> turnAgentMessageText (turns s') u = turnAgentMessageText (turns s) u ->
  turnUsage (turns s') = turnUsage (turns s) -> turn_outcome b u turn s' = turn_outcome b u turn s.
Proof. intros H1 H2 H3. unfold turn_outcome, turn_result. rewrite H1, H2, H3. by destruct (Proto.turn_status turn), (thread s). Qed.

(** A turn may be announced as completed before the host has seen the
    answer to [turn/start], or after: once the call has been resumed the host
    knows the same, and the call has delivered the same result. *)
Theorem completion_in_either_order es s t k rid b v turn turn' th
  (Hrun : run es new_host = Some s) (Htask : tasks s !! t = Some (Wait (OnRequest k rid) [TurnStarted b]))
  (Hanswered : settled (OnRequest k rid) s = Some (Ok (Json v)))
  (Hparse : Proto.parseCodexTurnStartResponse v = Ok turn) (Hstatus : Proto.turn_status turn = Proto.inProgress)
  (Hopen : disposed s = false) (Hthread : of_this_thread th s = true)
  (Hnew : map_get (completedTurns (turns s)) (Proto.turn_id turn) = None) (Hsame : Proto.turn_id turn' = Proto.turn_id turn) :
  let early := resume t (resume t (handle_event (Proto.turn_completed th turn') s)) in
  let late := resume t (handle_event (Proto.turn_completed th turn') (resume t s)) in
  turns early = turns late /\ tasks early = tasks late /\
  tasks late !! t = Some (Done (turn_outcome b (Proto.turn_id turn) turn' s)).
Proof.
  assert (I : inv s) by by apply (run_inv es new_host); [apply inv_new|].
  destruct (turn_alone s t _ _ [] I Htask) as (_ & _ & Hw & _); [done..|].
  assert (Hlt : (t < length (tasks s))%nat) by by eapply lookup_lt_Some.
  set (u := Proto.turn_id turn) in *. cbv zeta. cbn [handle_event]. rewrite Hthread.
  (* the completion comes first *)
  set (s1 := turn_completed turn' s).
  assert (Hs1 : s1 = on_turns (fun t => set_completed (map_set (completedTurns t) u turn') t) s).
  { subst s1. unfold turn_completed. rewrite Hsame, Hw. done. }
  assert (E1 : resume t s1 = with_tasks (<[t := Wait (Settled (Ok (Turn turn'))) [TurnEnded b u]]> (tasks s))
            (on_turns (fun t => set_completed (map_delete (completedTurns t) u) t) (on_turns (set_active (Some u)) s1))).
  { unfold resume. rewrite Hs1. cbn [tasks on_turns with_turns]. rewrite Htask.
    change (settled (OnRequest k rid) (on_turns _ s)) with (settled (OnRequest k rid) s). rewrite Hanswered. cbn [run_frame].
    rewrite (turn_started_eq b v turn) by done. fold u. unfold async, await_turn. cbn [turns on_turns with_turns set_active set_completed completedTurns].
    by rewrite map_get_set_eq. }
  (* the answer comes first *)
  set (p := length (promises s)).
  assert (E2 : resume t s = with_tasks (<[t := Wait (OnTurn p) [TurnEnded b u]]> (tasks s))
            (on_turns (fun t => set_waiters (map_set (turnWaiters t) u p) t)
               (with_promises (promises s ++ [None]) (on_turns (set_active (Some u)) s)))).
  { unfold resume. rewrite Htask, Hanswered. cbn [run_frame]. rewrite (turn_started_eq b v turn) by done. fold u.
    unfold async, await_turn. cbn [turns on_turns with_turns set_active completedTurns]. by rewrite Hnew. }
  set (s2 := resume t s) in *.
  assert (T2 : of_this_thread th s2 = true) by by rewrite E2. rewrite T2.
  set (s3 := turn_completed turn' s2).
  assert (E3 : s3 = settle_promise p (Ok turn') (on_turns (set_waiters []) s2)).
  { subst s3. unfold turn_completed. assert (turnWaiters (turns s2) = [(u, p)]) as W by (rewrite E2; cbn; by rewrite Hw).
    rewrite Hsame, (get_known s2 u p W), W. by rewrite map_delete_one. }
  assert (P3 : promises s3 !! p = Some (Some (Ok turn'))).
  { rewrite E3, E2. cbn. rewrite list_lookup_alter_eq, lookup_app_r, Nat.sub_diag by lia. done. }
  (* both are resumed *)
  rewrite E1. erewrite resume_ended; [|cbn; by apply list_lookup_insert_eq|done].
  assert (K3 : tasks s3 = <[t := Wait (OnTurn p) [TurnEnded b u]]> (tasks s)) by by rewrite E3, E2.
  rewrite (resume_ended s3 t (OnTurn p) b u turn'); [|rewrite K3; by apply list_lookup_insert_eq|cbn [settled]; by rewrite P3].
  rewrite (turn_outcome_same b u turn' s s3); [|by rewrite E3, E2..].
  split_and!.
  - rewrite Hs1, E3, E2. unfold forget_turn. cbn -[map_delete map_set]. by rewrite map_delete_twice, map_delete_set, Hw.
  - cbn [tasks with_tasks]. rewrite K3, !list_insert_insert_eq. do 2 f_equal. rewrite Hs1. by apply turn_outcome_same.
  - cbn [tasks with_tasks]. rewrite K3, list_insert_insert_eq. by apply list_lookup_insert_eq.
Qed.
End Host.

(** *** The text of a turn *)

(** One update of a message item: a delta is appended, a completed text
    replaces. *)
Record update := { up_item : jstr; up_text : jstr; up_append : bool }.
Definition apply_updates (u : jstr) (l : list update) (t : Turns) : Turns :=
  fold_left (fun t x => updateAgentMessageItem u (up_item x) (up_text x) (up_append x) t) l t.
(** What an item's text should be: the last completed text and the deltas after it *)
Definition item_text (l : list update) (i : jstr) : jstr :=
  fold_left (fun acc x => if bool_decide (up_item x = i) then (if up_append x then acc ++ up_text x else up_text x) else acc) l [].
Definition items_of (l : list update) : list (jstr * jstr) :=
  map (fun i => (i, item_text l i)) (unique (map up_item l)).

Lemma unique_from_snoc seen l x : unique_from seen (l ++ [x]) =
  unique_from seen l ++ (if bool_decide (x ∈ seen ++ l) then [] else [x]).
Proof.
  revert seen. induction l as [|y l IH]; intros seen; cbn [app unique_from].
  - rewrite app_nil_r. by case_bool_decide.
  - case_bool_decide as Hy.
    + rewrite IH, (bool_decide_ext (x ∈ seen ++ l) (x ∈ seen ++ y :: l)); [done|].
      rewrite !elem_of_app, elem_of_cons. naive_solver.
    + rewrite IH, (bool_decide_ext (x ∈ (y :: seen) ++ l) (x ∈ seen ++ y :: l)); [done|].
      rewrite !elem_of_app, !elem_of_cons. naive_solver.
Qed.
Lemma unique_snoc l x : unique (l ++ [x]) = unique l ++ (if bool_decide (x ∈ l) then [] else [x]).
Proof. apply unique_from_snoc. Qed.

Lemma map_set_map {V} (f : jstr -> V) ids j v : NoDup ids ->
  map_set (map (fun i => (i, f i)) ids) j v
  = map (fun i => (i, if bool_decide (j = i) then v else f i)) (ids ++ (if bool_decide (j ∈ ids) then [] else [j])).
Proof.
  induction 1 as [|i ids Hi Hnd IH]; cbn [map map_set].
  - rewrite (bool_decide_eq_false_2 (j ∈ [])) by apply not_elem_of_nil. cbn [app map].
    by rewrite bool_decide_eq_true_2.
  - destruct (decide (i = j)) as [->|Hne].
    + rewrite (bool_decide_eq_true_2 (j = j)) by done. rewrite (bool_decide_eq_true_2 (j ∈ _)) by by left.
      rewrite app_nil_r. cbn [map]. rewrite (bool_decide_eq_true_2 (j = j)) by done. f_equal.
      apply map_ext_in. intros k Hk%list_elem_of_In. rewrite bool_decide_eq_false_2; [done|]. by intros ->.
    + rewrite (bool_decide_eq_false_2 (i = j)) by done. rewrite IH. cbn [app map].
      rewrite (bool_decide_eq_false_2 (j = i)) by done. do 3 f_equal. rewrite (bool_decide_ext (j ∈ ids) (j ∈ i :: ids)); [done|].
      rewrite elem_of_cons. naive_solver.
Qed.
Lemma map_get_map {V} (f : jstr -> V) ids j : map_get (map (fun i => (i, f i)) ids) j = if bool_decide (j ∈ ids) then Some (f j) else None.
Proof.
  induction ids as [|i ids IH]; [done|]. cbn [map]. rewrite map_get_cons. destruct (decide (i = j)) as [->|Hij].
  - rewrite (bool_decide_eq_true_2 (j = j)) by done. by rewrite bool_decide_eq_true_2 by by left.
  - rewrite (bool_decide_eq_false_2 (i = j)) by done. rewrite IH. rewrite (bool_decide_ext (j ∈ i :: ids) (j ∈ ids)); [done|]. rewrite elem_of_cons. naive_solver.
Qed.

Lemma item_text_absent l i : i ∉ map up_item l -> item_text l i = [].
Proof.
  unfold item_text. generalize (@nil N). induction l as [|x l IH]; intros acc Hi; [done|]. cbn [fold_left map] in *.
  rewrite not_elem_of_cons in Hi. destruct Hi as [H1 H2]. rewrite bool_decide_eq_false_2 by congruence. by apply IH.
Qed.
Lemma items_of_snoc l x : items_of (l ++ [x]) =
  map_set (items_of l) (up_item x) (if up_append x then item_text l (up_item x) ++ up_text x else up_text x).
Proof.
  unfold items_of. rewrite map_set_map by apply NoDup_unique. rewrite map_app. cbn [map]. rewrite unique_snoc.
  rewrite (bool_decide_ext (up_item x ∈ unique (map up_item l)) (up_item x ∈ map up_item l)) by by rewrite elem_of_unique.
  apply map_ext. intros i. f_equal. unfold item_text. rewrite fold_left_app. cbn [fold_left].
  case_bool_decide as Hi; [by subst|done].
Qed.
Lemma apply_updates_spec u l t : map_get (agentMessageItems t) u = None ->
  default [] (map_get (agentMessageItems (apply_updates u l t)) u) = items_of l /\
  (forall v, v <> u -> map_get (agentMessageItems (apply_updates u l t)) v = map_get (agentMessageItems t) v).
Proof.
  intros Hu. unfold apply_updates. induction l as [|x l IH] using rev_ind; cbn [fold_left].
  - by rewrite Hu.
  - destruct IH as [IH1 IH2]. rewrite fold_left_app. cbn [fold_left]. unfold updateAgentMessageItem at 1 3. cbv zeta.
    cbn [agentMessageItems set_items]. rewrite map_get_set_eq. cbn [default]. rewrite IH1, items_of_snoc. split.
    + f_equal. destruct (up_append x); [|done]. f_equal. unfold items_of. rewrite map_get_map.
      case_bool_decide as Hx; [done|]. rewrite elem_of_unique in Hx. by rewrite item_text_absent.
    + intros v Hv. rewrite map_get_set_ne by congruence. by apply IH2.
Qed.

(** The text of a running turn is the texts of its message items in the
    order in which they first appeared, without the blank ones: of each item
    its last completed text and the deltas after it, whatever order deltas and
    completions of several items come in; it has at most 256 Ki code units,
    and other turns are not touched. *)
Theorem agent_text_exact u l t (Hnew : map_get (agentMessageItems t) u = None) :
  turnAgentMessageText (apply_updates u l t) u
  = match filter (fun s => truthy (trim s) = true) (map (item_text l) (unique (map up_item l))) with
    | [] => None
    | parts => Some (Native.boundedNativeText (join [10%N; 10%N] parts) Native.MAX_TEXT)
    end /\
  (forall s, turnAgentMessageText (apply_updates u l t) u = Some s -> slen s <= 262144) /\
  (forall v, v <> u -> turnAgentMessageText (apply_updates u l t) v = turnAgentMessageText t v).
Proof.
  destruct (apply_updates_spec u l t Hnew) as [H1 H2].
  assert (E : turnAgentMessageText (apply_updates u l t) u
    = match filter (fun s => truthy (trim s) = true) (map (item_text l) (unique (map up_item l))) with
      | [] => None
      | parts => Some (Native.boundedNativeText (join [10%N; 10%N] parts) Native.MAX_TEXT) end).
  { unfold turnAgentMessageText. assert (map_values (items_of l) = map (item_text l) (unique (map up_item l))) as Hv
      by (unfold map_values, items_of; by rewrite map_map).
    rewrite <- Hv, <- H1. by destruct (map_get (agentMessageItems (apply_updates u l t)) u). }
  split_and!; [done| |].
  - intros s. rewrite E. destruct (filter _ _); [done|]. intros [= <-]. by apply (Native.boundedNativeText_bound _ 262144).
  - intros v Hv. unfold turnAgentMessageText. by rewrite H2.
Qed.

(** *** A concrete app-server *)

Definition obj (fs : list (string * value)) : value := VObject (map (fun kv => (js kv.1, kv.2)) fs).
Definition str (s : string) : value := VString (js s).
Definition reply (rid : Z) (result : value) : value := obj [("id", VInt rid); ("result", result)]%string.
Definition initialized : value :=
  obj [("userAgent", str "u"); ("codexHome", str "/h"); ("platformFamily", str "unix"); ("platformOs", str "linux")]%string.
Definition a_thread : value :=
  obj [("thread", obj [("ephemeral", VBool false); ("id", str "T"); ("sessionId", str "S"); ("cwd", str "/w");
                       ("modelProvider", str "p"); ("model", VNull)]);
       ("model", str "m"); ("modelProvider", str "p"); ("cwd", str "/w")]%string.
Definition a_turn (status : string) : value :=
  obj [("status", str status); ("items", VArray []); ("id", str "U"); ("error", VNull)]%string.
(** A stand-in for [JSON.parse] that knows the messages of this server. *)
Definition server_parse (s : jstr) : option value :=
  map_get [(js "init1", reply 1 initialized); (js "thread2", reply 2 a_thread); (js "turn3", reply 3 (obj [("turn", a_turn "inProgress")]));
           (js "thread1", reply 1 a_thread); (js "turn2", reply 2 (obj [("turn", a_turn "inProgress")]));
           (js "done", obj [("method", VString Proto.TURN_COMPLETED);
                            ("params", obj [("threadId", str "T"); ("turn", a_turn "completed")])]);
           (js "text", obj [("method", VString Proto.DELTA);
                            ("params", obj [("threadId", str "T"); ("turnId", str "U"); ("itemId", str "I"); ("delta", str "hi")])]);
           (js "empty", obj [("method", VString Proto.DELTA);
                            ("params", obj [("threadId", str "T"); ("turnId", str "U"); ("itemId", str "I"); ("delta", str "")])])]%string s.
Abbreviation a_host := (run server_parse (fun _ => js "message") false (js "1") (js "/")).
Definition line (s : string) : event := Data 0 (js s ++ [10%N]).
Definition options_ : CodexThreadOptions :=
  {| o_cwd := js "/w"; o_sandbox := None; o_approvalPolicy := None; o_model := None; o_modelProvider := None |}.
(** The thread is started, a turn is started on it and waits for its end. *)
Definition turn_in_progress : list event :=
  [Call (StartThread options_); line "init1"; Resume 0; Resume 0; line "thread2"; Resume 0;
   Call (RunTurn (js "do it") []); Resume 1; line "turn3"; Resume 1].
Definition last_task (o : option Host) : option task := o ≫= fun s => last (tasks s).

Definition waiting_host : Host := default new_host (a_host turn_in_progress new_host).
Lemma turn_in_progress_runs : a_host turn_in_progress new_host = Some waiting_host.
Proof. vm_compute. reflexivity. Qed.
Lemma waiting_turn_is_woken_witness : exists k, child (process waiting_host) = Some k /\ k ∉ exited waiting_host /\
  forall e es' s', ends_turn server_parse (fun _ => js "message") false waiting_host k (js "U") e ->
    a_host (e :: es') waiting_host = Some s' -> Resume 1 ∈ es' -> exists o, tasks s' !! 1%nat = Some (Done o).
Proof.
  apply (waiting_turn_is_woken server_parse (fun _ => js "message") false (js "1") (js "/") turn_in_progress
    waiting_host 1 0 false (js "U") turn_in_progress_runs); vm_compute; reflexivity.
Defined.
Definition is_done (t : option task) : bool := match t with Some (Done _) => true | _ => false end.
Example a_turn_is_completed :
  is_done (last_task (a_host [line "text"; line "done"; Resume 1] waiting_host)) = true.
Proof. vm_compute. reflexivity. Qed.

Lemma agent_text_exact_witness :
  turnAgentMessageText (apply_updates (js "U")
    [{| up_item := js "a"; up_text := js "hel"; up_append := true |}; {| up_item := js "b"; up_text := js "x"; up_append := true |};
     {| up_item := js "a"; up_text := js "hello"; up_append := false |}] no_turns) (js "U")
  = Some (js "hello" ++ [10%N; 10%N] ++ js "x").
Proof. destruct (agent_text_exact (js "U")
    [{| up_item := js "a"; up_text := js "hel"; up_append := true |}; {| up_item := js "b"; up_text := js "x"; up_append := true |};
     {| up_item := js "a"; up_text := js "hello"; up_append := false |}] no_turns eq_refl) as (H & _).
  rewrite H. vm_compute. reflexivity.
Defined.

Definition answered_host : Host := default new_host
  (a_host [Call (StartThread options_); line "init1"; Resume 0; Resume 0; line "thread2"; Resume 0;
           Call (RunTurn (js "do it") []); Resume 1; line "turn3"] new_host).
Definition the_turn (s : Proto.CodexTurnStatus) : Proto.CodexTurn :=
  {| Proto.turn_id := js "U"; Proto.turn_status := s; Proto.turn_error := None; Proto.items := [] |}.
Lemma completion_in_either_order_witness :
  let host := resume (fun _ => js "message") (js "/") 1 in
  let early := host (host (handle_event (Proto.turn_completed (js "T") (the_turn Proto.completed)) answered_host)) in
  let late := host (handle_event (Proto.turn_completed (js "T") (the_turn Proto.completed)) (host answered_host)) in
  turns early = turns late /\ tasks early = tasks late /\
  tasks late !! 1%nat = Some (Done (turn_outcome false (js "U") (the_turn Proto.completed) answered_host)).
Proof.
  apply (completion_in_either_order server_parse (fun _ => js "message") false (js "1") (js "/")
    [Call (StartThread options_); line "init1"; Resume 0; Resume 0; line "thread2"; Resume 0;
     Call (RunTurn (js "do it") []); Resume 1; line "turn3"] answered_host 1 0 3 false (obj [("turn", a_turn "inProgress")]%string)
    (the_turn Proto.inProgress) (the_turn Proto.completed) (js "T")); vm_compute; reflexivity.
Defined.

(** *** Where the code does not do what it means to *)

Definition unguarded (es : list event) (s : Host) : Host :=
  fold_left (fun s e => handle server_parse (fun _ => js "message") false (js "1") (js "/") e s) es s.
Definition methods_written (s : Host) : list (list value) :=
  map (fun c => map (fun m => match is_record m with Some r => field r (js "method") | None => VNull end) (Rpc.written c)) (conns s).
Definition read_account : call := Read false (fun _ => Some (js "account/read", VNull)).

(** A line that is no JSON closes the connection without the host being told:
    the turn goes on waiting, and every further call fails on the closed
    connection while the process still counts as running. *)
Example unreadable_line_hangs_turn :
  option_map (fun s => (running s, tasks s !! 1%nat, tasks s !! 2%nat))
    (a_host [line "junk"; line "done"; Call read_account; Resume 2; Resume 2] waiting_host)
  = Some (true, Some (Wait (OnTurn 0) [TurnEnded false (js "U")]),
          Some (Done (Throw (Error (js "Codex app-server emitted invalid JSON-RPC"))))).
Proof. vm_compute. reflexivity. Qed.

(** [ensureProcess] does not remember a start in progress: a second call sends
    its request before the app-server has answered [initialize]. *)
Example request_before_initialization :
  methods_written (unguarded [Call read_account; Call read_account; Resume 1] new_host)
  = [[VString (js "initialize"); VString (js "account/read")]].
Proof. vm_compute. reflexivity. Qed.

(** [startThread] checks for a thread only before its first [await]: two calls
    start two threads, and the second replaces the first. *)
Example two_threads_started :
  methods_written (unguarded [Call (StartThread options_); Call (StartThread options_); line "init1"; Resume 0; Resume 0; Resume 1] new_host)
  = [[VString (js "initialize"); VString (js "initialized"); VString (js "thread/start"); VString (js "thread/start")]].
Proof. vm_compute. reflexivity. Qed.

(** A process whose initialization fails is dropped without the turn that
    already runs on it being told, and its exit is then ignored. *)
Example failed_initialization_hangs_turn :
  let s := unguarded [Call (ResumeThread (js "T") options_); line "init1"; Resume 0; Resume 0; line "thread2"; Resume 0; Exit 0 [];
                      Call read_account; Call (RunTurn (js "do it") []); Resume 2;
                      Data 1 (js "turn2" ++ [10%N]); Resume 2; Data 1 (js "thread1" ++ [10%N]); Resume 1; Exit 1 []] new_host in
  tasks s !! 2%nat = Some (Wait (OnTurn 0) [TurnEnded false (js "U")]) /\ child (process s) = None.
Proof. vm_compute. auto. Qed.

(** The protocol's parser refuses empty texts: an empty delta, which the
    app-server may send, fails the turn that is running. *)
Example empty_delta_fails_turn :
  last_task (a_host [line "empty"; Resume 1] waiting_host)
  = Some (Done (Throw (Error (js "Codex delta text is invalid")))).
Proof. vm_compute. reflexivity. Qed.

End CodexHost.
