(* ===== verification/CodexRuntimePool.v ===== *)
(** * The Codex runtime pool

    [desktop/src/main/codex-runtime-pool.ts]: the bounded owner of the native
    app-server processes. Its methods are [async], so they interleave: a
    state holds the shared maps and, for every call in flight, the [await] it
    has reached with its local variables; one step runs one call from one
    [await] to the next. The runtime entries are shared objects (a turn keeps
    its entry when the pool forgets it), so they live in a heap of their own.

    The hosts ([CodexRuntimeHost], chosen by [hostFactory]) are known by what
    their promises deliver: the events of the model carry it. *)

From S2P Require Import Prelude JsValue JsMap Path Validate CodexThreadStore.

Module CodexRuntimePool.
Module Store := CodexThreadStore.CodexThreadStore.

Definition DEFAULT_MAX_RUNTIMES : Z := 4.
Definition MAX_ACTIVE_SKILLS : Z := 2.

Record CodexSkillInvocation := { skill_name : jstr; skill_path : jstr }.
Record CatalogSkill := { found_name : jstr; found_path : jstr; enabled : bool }.

Record TurnInput := {
  t_runId : jstr; t_workspaceId : jstr; t_cwd : jstr; t_prompt : jstr;
  t_skillRoots : option (list jstr); t_skills : option (list CodexSkillInvocation) }.
Record ResumeInput := { r_runId : jstr; r_workspaceId : jstr; r_cwd : jstr; r_threadId : jstr }.

Record RuntimeEntry := {
  e_runId : jstr; e_workspaceId : jstr; e_cwd : jstr; e_host : nat; busy : bool; lastUsed : Z }.
Definition set_busy (b : bool) (e : RuntimeEntry) : RuntimeEntry :=
  {| e_runId := e_runId e; e_workspaceId := e_workspaceId e; e_cwd := e_cwd e;
     e_host := e_host e; busy := b; lastUsed := lastUsed e |}.
Definition set_lastUsed (t : Z) (e : RuntimeEntry) : RuntimeEntry :=
  {| e_runId := e_runId e; e_workspaceId := e_workspaceId e; e_cwd := e_cwd e;
     e_host := e_host e; busy := busy e; lastUsed := t |}.

(** What the pool knows of a host: the thread it is attached to, and whether
    the pool has told it to shut down. *)
Record Host := { attached : option jstr; shut : bool }.

(** Where a call waits, with what it has computed so far. *)
Inductive pc :=
(* runTurn *)
| WaitStored (i : TurnInput) (b : Store.CodexThreadBinding)
| NeedRuntime (i : TurnInput) (stored : option Store.CodexThreadBinding)
| AwaitCapacity (i : TurnInput) (stored : option Store.CodexThreadBinding)
| Attaching (i : TurnInput) (stored : option Store.CodexThreadBinding) (h : nat)
| AwaitBind (i : TurnInput) (b : Store.CodexThreadBinding) (h : nat)
| GotEntry (i : TurnInput) (e : nat) (b : Store.CodexThreadBinding)
| WaitBusy (i : TurnInput) (e : nat) (b : Store.CodexThreadBinding)
| AfterBusy (i : TurnInput) (e : nat) (b : Store.CodexThreadBinding)
| Configuring (i : TurnInput) (e : nat) (b : Store.CodexThreadBinding)
| Running (i : TurnInput) (e : nat) (b : Store.CodexThreadBinding)
(* resumeConversation *)
| ResumeAfterCurrent (r : ResumeInput)
| ResumeNeedCapacity (r : ResumeInput)
| ResumeAwaitCapacity (r : ResumeInput)
| Resuming (r : ResumeInput) (h : nat)
| ResumeReading (r : ResumeInput) (h : nat)
| ResumeRebinding (r : ResumeInput) (h : nat)
| ResumeCatch (r : ResumeInput) (e : exn)
(* conversation *)
| ConversationWarm (run : jstr)
| ConversationDiscard (run : jstr)
| ConversationCold (run thread : jstr) (h : nat)
| ConversationRead (run thread : jstr) (h : nat)
(* clearWorkspace *)
| ClearShutdown (ws cwd : jstr)
| ClearDeleting (ws : jstr) (h : nat)
| ClearRemoving (ws : jstr)
(* an awaited promise whose result the call only returns *)
| AwaitLast
| Finished
| Failed (e : exn).

Record Pool := {
  store : Store.Store;
  initialized : bool;
  maxRuntimes : Z;
  entries : gmap nat RuntimeEntry;          (* the heap of entries *)
  runtimes : list (jstr * nat);             (* [Map<runId, RuntimeEntry>] *)
  activeThreadWriters : gmap jstr jstr;     (* thread -> run that writes it *)
  hosts : gmap nat Host;
  clock : Z;
  nextId : nat;                             (* fresh names for entries and hosts *)
  tasks : gmap nat pc }.

(** *** Field updates *)

Definition with_store (s : Store.Store) (p : Pool) : Pool :=
  {| store := s; initialized := initialized p; maxRuntimes := maxRuntimes p; entries := entries p;
     runtimes := runtimes p; activeThreadWriters := activeThreadWriters p; hosts := hosts p;
     clock := clock p; nextId := nextId p; tasks := tasks p |}.
Definition with_entries (es : gmap nat RuntimeEntry) (p : Pool) : Pool :=
  {| store := store p; initialized := initialized p; maxRuntimes := maxRuntimes p; entries := es;
     runtimes := runtimes p; activeThreadWriters := activeThreadWriters p; hosts := hosts p;
     clock := clock p; nextId := nextId p; tasks := tasks p |}.
Definition with_runtimes (rs : list (jstr * nat)) (p : Pool) : Pool :=
  {| store := store p; initialized := initialized p; maxRuntimes := maxRuntimes p;
     entries := entries p; runtimes := rs; activeThreadWriters := activeThreadWriters p;
     hosts := hosts p; clock := clock p; nextId := nextId p; tasks := tasks p |}.
Definition with_writers (ws : gmap jstr jstr) (p : Pool) : Pool :=
  {| store := store p; initialized := initialized p; maxRuntimes := maxRuntimes p;
     entries := entries p; runtimes := runtimes p; activeThreadWriters := ws; hosts := hosts p;
     clock := clock p; nextId := nextId p; tasks := tasks p |}.
Definition with_hosts (hs : gmap nat Host) (p : Pool) : Pool :=
  {| store := store p; initialized := initialized p; maxRuntimes := maxRuntimes p;
     entries := entries p; runtimes := runtimes p; activeThreadWriters := activeThreadWriters p;
     hosts := hs; clock := clock p; nextId := nextId p; tasks := tasks p |}.
Definition with_tasks (ts : gmap nat pc) (p : Pool) : Pool :=
  {| store := store p; initialized := initialized p; maxRuntimes := maxRuntimes p;
     entries := entries p; runtimes := runtimes p; activeThreadWriters := activeThreadWriters p;
     hosts := hosts p; clock := clock p; nextId := nextId p; tasks := ts |}.
Definition tick (p : Pool) : Pool :=
  {| store := store p; initialized := initialized p; maxRuntimes := maxRuntimes p;
     entries := entries p; runtimes := runtimes p; activeThreadWriters := activeThreadWriters p;
     hosts := hosts p; clock := clock p + 1; nextId := nextId p; tasks := tasks p |}.
Definition bump (p : Pool) : Pool :=
  {| store := store p; initialized := initialized p; maxRuntimes := maxRuntimes p;
     entries := entries p; runtimes := runtimes p; activeThreadWriters := activeThreadWriters p;
     hosts := hosts p; clock := clock p; nextId := S (nextId p); tasks := tasks p |}.

(** The call [id] goes on to [c]; it throws; it returns. *)
Definition goto (id : nat) (c : pc) (p : Pool) : Pool := with_tasks (<[id := c]> (tasks p)) p.
Definition raise (id : nat) (msg : string) (p : Pool) : Pool := goto id (Failed (Error (js msg))) p.
Definition finish (id : nat) (p : Pool) : Pool := goto id Finished p.

Definition update_entry (e : nat) (f : RuntimeEntry -> RuntimeEntry) (p : Pool) : Pool :=
  with_entries (alter f e (entries p)) p.
Definition shutdown_host (h : nat) (p : Pool) : Pool :=
  with_hosts (alter (fun x => {| attached := attached x; shut := true |}) h (hosts p)) p.
Definition attach (h : nat) (t : option jstr) (p : Pool) : Pool :=
  with_hosts (alter (fun x => {| attached := t; shut := shut x |}) h (hosts p)) p.
Definition attachedThreadId (h : nat) (p : Pool) : option jstr :=
  x ← hosts p !! h; attached x.
(** [this.hostFactory(...)]: a new host, named [nextId] *)
Definition hostFactory (p : Pool) : Pool :=
  bump (with_hosts (<[nextId p := {| attached := None; shut := false |}]> (hosts p)) p).

(** *** Validation *)

Definition bad_id (max : Z) (s : jstr) : bool :=
  negb (truthy s) || (max <? slen s) || has_line_break_or_nul s.

Definition validateRunId (run : jstr) : result unit :=
  require (negb (bad_id 128 run)) "Codex run id is invalid".
Definition validateWorkspaceScope (ws cwd : jstr) : result unit :=
  _ ← require (negb (bad_id 128 ws)) "Codex workspace id is invalid";
  require (isAbsolute cwd) "Codex workspace cwd must be absolute".
Definition validateResumeInput (r : ResumeInput) : result unit :=
  _ ← validateRunId (r_runId r);
  _ ← validateWorkspaceScope (r_workspaceId r) (r_cwd r);
  require (negb (bad_id 256 (r_threadId r))) "Codex thread id is invalid".

Definition validateInput (i : TurnInput) : result unit :=
  let skills := default [] (t_skills i) in
  _ ← require (negb (bad_id 128 (t_runId i))) "Codex run id is invalid";
  _ ← require (negb (bad_id 128 (t_workspaceId i))) "Codex workspace id is invalid";
  _ ← require (isAbsolute (t_cwd i)) "Codex workspace cwd must be absolute";
  _ ← require (truthy (t_prompt i)) "Codex prompt must not be empty";
  _ ← require (Z.of_nat (length skills) <=? MAX_ACTIVE_SKILLS)
        "Codex P2 supports at most 2 active skills";
  _ ← require (negb ((0 <? Z.of_nat (length skills)) && bool_decide (t_skillRoots i = None)))
        "Codex skill invocations require projected skill roots";
  _ ← require (forallb isAbsolute (default [] (t_skillRoots i))) "Codex skill root must be absolute";
  require (forallb (fun s => truthy (skill_name s) && isAbsolute (skill_path s)) skills)
    "Codex skill invocation is invalid".

(** [boundedInteger(options.maxRuntimes, 4, 1, 16)] *)
Definition boundedInteger (v : option num) (fallback minimum maximum : Z) : result Z :=
  match v with
  | None => Ok fallback
  | Some n => match safe_in_range minimum maximum n with
              | Some z => Ok z
              | None => fail "Codex runtime pool limit is invalid"
              end
  end.

(** ASCII case folding of [/.../i], lines of [.*] *)
Definition lower (u : N) : N := if ((65 <=? u) && (u <=? 90))%N then (u + 32)%N else u.
Definition is_line_terminator (u : N) : bool :=
  (u =? 10)%N || (u =? 13)%N || (u =? 0x2028)%N || (u =? 0x2029)%N.
Fixpoint lines (s : jstr) : list jstr :=
  match s with
  | [] => [[]]
  | u :: s' => match lines s' with
               | l :: ls => if is_line_terminator u then [] :: l :: ls else (u :: l) :: ls
               | [] => []
               end
  end.
(** [a.*b] somewhere on a line *)
Fixpoint followed_by (line a b : jstr) : bool :=
  (starts_with line a && includes (drop (length a) line) b)
  || match line with [] => false | _ :: rest => followed_by rest a b end.
Definition either_order (xs ys : list string) (message : jstr) : bool :=
  existsb (fun line => existsb (fun x => existsb (fun y =>
      followed_by line (js x) (js y) || followed_by line (js y) (js x)) ys) xs)
    (lines (map lower message)).

(** [error instanceof Error ? error.message : ...]; a thrown string matches too *)
Definition error_message (e : exn) : jstr := match e with Error m => m | NotAnError s => s end.
Definition isMissingNativeThreadError (e : exn) : bool :=
  either_order ["thread"; "conversation"] ["not loaded"; "not found"; "does not exist"; "unknown"]
    (error_message e).
Definition isActiveWriterError (e : exn) : bool :=
  either_order ["thread"; "conversation"] ["active writer"] (error_message e).

(** *** The thread writer lock and the warm runtimes *)

Definition acquireThreadWriter (thread run : jstr) (p : Pool) : Pool :=
  with_writers (<[thread := run]> (activeThreadWriters p)) p.
Definition releaseThreadWriter (thread run : jstr) (p : Pool) : Pool :=
  match activeThreadWriters p !! thread with
  | Some owner => if bool_decide (owner = run)
                  then with_writers (delete thread (activeThreadWriters p)) p else p
  | None => p
  end.

(** Whether the loop of [waitForThreadWriter] goes on waiting *)
Definition waitForThreadWriter (thread : jstr) (p : Pool) : bool :=
  bool_decide (is_Some (activeThreadWriters p !! thread)).

(** [this.runtimes.get(runId)], with the entry *)
Definition runtime (run : jstr) (p : Pool) : option (nat * RuntimeEntry) :=
  n ← map_get (runtimes p) run; e ← entries p !! n; Some (n, e).

(** [const threadId = entry.host.attachedThreadId(); if (threadId)
    this.releaseThreadWriter(threadId, entry.runId)] *)
Definition release_attached (e : RuntimeEntry) (run : jstr) (p : Pool) : Pool :=
  match attachedThreadId (e_host e) p with
  | Some t => if truthy t then releaseThreadWriter t run p else p
  | None => p
  end.

(** [this.runtimes.delete(...)], the lock released, and the shutdown begun *)
Definition drop_runtime (run : jstr) (e : RuntimeEntry) (p : Pool) : Pool :=
  shutdown_host (e_host e)
    (release_attached e run (with_runtimes (map_delete (runtimes p) run) p)).

(** [[...this.runtimes.values()]], with the entries *)
Definition runtime_values (p : Pool) : list (nat * RuntimeEntry) :=
  omap (fun kv => e ← entries p !! kv.2; Some (kv.2, e)) (runtimes p).

(** [.filter((entry) => !entry.busy).sort((l, r) => l.lastUsed - r.lastUsed)[0]] *)
Definition least_recently_used (l : list (nat * RuntimeEntry)) : option (nat * RuntimeEntry) :=
  head (sort_by (fun x y => lastUsed x.2 - lastUsed y.2)
          (filter (fun x => busy x.2 = false) l)).

(** [makeCapacity] up to its [await]: [None] when it throws. *)
Definition makeCapacity (p : Pool) : option Pool :=
  if Z.of_nat (length (runtimes p)) <? maxRuntimes p then Some p
  else match least_recently_used (runtime_values p) with
       | None => None
       | Some (_, idle) => Some (drop_runtime (e_runId idle) idle p)
       end.

(** *** [runTurn], from one [await] to the next *)

Section Pool.
Context (process_cwd : jstr).

(** Run a synchronous method of the store. *)
Definition on_store {A} (m : M Store.Store A) (p : Pool) : result A * Pool :=
  let (r, s) := m (store p) in (r, with_store s p).

Definition runtimeFor (id : nat) (i : TurnInput) (stored : option Store.CodexThreadBinding)
    (p : Pool) : Pool :=
  match runtime (t_runId i) p with
  | Some (n, e) =>
      if bool_decide (e_workspaceId e <> t_workspaceId i)
         || bool_decide (e_cwd e <> resolve process_cwd (t_cwd i))
      then raise id "Codex runtime scope changed for the same Harness run" p
      else
        match stored with
        | Some b => goto id (GotEntry i n b) p
        | None => match on_store (Store.get (t_runId i)) p with
                  | (Ok (Some b), p') => goto id (GotEntry i n b) p'
                  | (Ok None, p') =>
                      raise id "Codex runtime is missing its persisted thread binding" p'
                  | (Throw e, p') => goto id (Failed e) p'
                  end
        end
  | None =>
      match makeCapacity p with
      | None => raise id "Codex runtime pool is at capacity with active turns" p
      | Some p' => goto id (AwaitCapacity i stored) p'
      end
  end.

Definition runTurn (id : nat) (i : TurnInput) (p : Pool) : Pool :=
  if negb (initialized p) then raise id "Codex runtime pool is not initialized" p
  else match validateInput i with
  | Throw e => goto id (Failed e) p
  | Ok _ =>
      match on_store (Store.get (t_runId i)) p with
      | (Throw e, p') => goto id (Failed e) p'
      | (Ok None, p') => runtimeFor id i None p'
      | (Ok (Some b), p') =>
          if bool_decide (Store.workspaceId b <> t_workspaceId i)
             || bool_decide (Store.cwd b <> resolve process_cwd (t_cwd i))
          then raise id "Codex Harness run is bound to a different workspace" p'
          else goto id (WaitStored i b) p'
      end
  end.

(** [this.acquireThreadWriter(...); entry.busy = true; entry.lastUsed = ++this.clock] *)
Definition begin_turn (id : nat) (i : TurnInput) (n : nat) (b : Store.CodexThreadBinding) (p : Pool)
  : Pool :=
  match activeThreadWriters p !! Store.threadId b with
  | Some _ => raise id "This Codex conversation already has an active turn in another Harness run" p
  | None =>
      let p := acquireThreadWriter (Store.threadId b) (t_runId i) p in
      let p := tick p in
      goto id (Configuring i n b)
        (update_entry n (fun e => set_lastUsed (clock p) (set_busy true e)) p)
  end.

(** The [finally] of [runTurn], and the call's end. *)
Definition end_turn (id : nat) (i : TurnInput) (n : nat) (b : Store.CodexThreadBinding) (c : pc)
    (p : Pool) : Pool :=
  let p := update_entry n (set_busy false) p in
  let p := releaseThreadWriter (Store.threadId b) (t_runId i) p in
  let p := tick p in
  goto id c (update_entry n (set_lastUsed (clock p)) p).

Definition assertSkillsAvailable (skills : list CodexSkillInvocation) (catalog : list CatalogSkill)
  : result unit :=
  let discovered := filter (fun s => enabled s = true) catalog in
  match List.find (fun r => negb (existsb (fun s => bool_decide (found_name s = skill_name r) &&
             bool_decide (resolve process_cwd (found_path s) = resolve process_cwd (skill_path r)))
           discovered)) skills with
  | Some r => Throw (Error (js "Codex did not discover requested skill " ++ skill_name r))
  | None => Ok tt
  end.

Definition new_entry (run ws dir : jstr) (h : nat) (used : Z) : RuntimeEntry :=
  {| e_runId := run; e_workspaceId := ws; e_cwd := dir; e_host := h; busy := false; lastUsed := used |}.
(** [this.runtimes.set(runId, { ..., busy: false, lastUsed: ++this.clock })]; the
    entry is named [nextId] *)
Definition add_runtime (run ws dir : jstr) (h : nat) (p : Pool) : Pool :=
  let p := tick p in
  bump (with_runtimes (map_set (runtimes p) run (nextId p))
         (with_entries (<[nextId p := new_entry run ws dir h (clock p)]> (entries p)) p)).

(** What an awaited promise delivers. *)
Inductive outcome :=
| Void                                (* it resolves, with nothing the pool reads *)
| Attached (t : option jstr)          (* start/resume: the thread the host has then *)
| Catalog (skills : list CatalogSkill)
| Threw (e : exn).

(** One turn of the loop of [resumeThreadWhenWritable]: [None] while the thread
    has an active writer, else what the loop ends with. *)
Definition resumeThreadWhenWritable (o : outcome) : option outcome :=
  match o with
  | Threw e => if isActiveWriterError e then None else Some o
  | _ => Some o
  end.

(** After [await host.resumeThread(...)] or [startThread]: [ts] is the store's
    clock. An active writer error of a resume is retried. *)
Definition turn_attached (id : nat) (ts : jstr) (i : TurnInput)
    (stored : option Store.CodexThreadBinding) (h : nat) (o : outcome) (p : Pool) : Pool :=
  match stored with
  | Some b =>
      match resumeThreadWhenWritable o with
      | None => p
      | Some (Attached t) =>
          let p := attach h t p in
          let n := nextId p in
          goto id (GotEntry i n b)
            (add_runtime (t_runId i) (t_workspaceId i) (resolve process_cwd (t_cwd i)) h p)
      | Some (Threw e) => goto id (Failed e) (shutdown_host h p)
      | Some _ => p
      end
  | None =>
      match o with
      | Attached t =>
          let p := attach h t p in
          if truthy_opt t then
            match on_store (Store.bind process_cwd ts
                {| Store.in_runId := t_runId i; Store.in_workspaceId := t_workspaceId i;
                   Store.in_cwd := resolve process_cwd (t_cwd i);
                   Store.in_threadId := default [] t |}) p with
            | (Ok b, p') => goto id (AwaitBind i b h) p'
            | (Throw e, p') => goto id (Failed e) (shutdown_host h p')
            end
          else raise id "Codex runtime started without an attached thread" (shutdown_host h p)
      | Threw e => goto id (Failed e) (shutdown_host h p)
      | _ => p
      end
  end.

(** One step of a [runTurn] that waits at [c]. *)
Definition continue_turn (id : nat) (ts : jstr) (c : pc) (o : outcome) (p : Pool) : Pool :=
  match c with
  | WaitStored i b =>
      if waitForThreadWriter (Store.threadId b) p then p else goto id (NeedRuntime i (Some b)) p
  | NeedRuntime i stored => runtimeFor id i stored p
  | AwaitCapacity i stored =>
      match o with
      | Threw e => goto id (Failed e) p
      | _ => goto id (Attaching i stored (nextId p)) (hostFactory p)
      end
  | Attaching i stored h => turn_attached id ts i stored h o p
  | AwaitBind i b h =>
      match o with
      | Threw e => goto id (Failed e) (shutdown_host h p)
      | _ => goto id (GotEntry i (nextId p) b)
               (add_runtime (t_runId i) (t_workspaceId i) (resolve process_cwd (t_cwd i)) h p)
      end
  | GotEntry i n b =>
      match entries p !! n with
      | Some e => if busy e then goto id (WaitBusy i n b) p else begin_turn id i n b p
      | None => p
      end
  | WaitBusy i n b =>
      if waitForThreadWriter (Store.threadId b) p then p else goto id (AfterBusy i n b) p
  | AfterBusy i n b =>
      match entries p !! n with
      | Some e => if busy e then raise id "Codex Harness run already has an active turn" p
                  else begin_turn id i n b p
      | None => p
      end
  | Configuring i n b =>
      match o with
      | Threw e => end_turn id i n b (Failed e) p
      | Catalog skills =>
          match assertSkillsAvailable (default [] (t_skills i)) skills with
          | Ok _ => goto id (Running i n b) p
          | Throw e => end_turn id i n b (Failed e) p
          end
      | _ => p
      end
  | Running i n b =>
      match o with
      | Threw e => end_turn id i n b (Failed e) p
      | _ =>
          let thread := e ← entries p !! n; attachedThreadId (e_host e) p in
          if bool_decide (thread = Some (Store.threadId b)) && truthy (Store.threadId b)
          then end_turn id i n b Finished p
          else end_turn id i n b
                 (Failed (Error (js "Codex runtime completed a turn on an unexpected thread"))) p
      end
  | _ => p
  end.

(** *** [resumeConversation] *)

Definition bind_input (r : ResumeInput) (thread : jstr) : Store.BindInput :=
  {| Store.in_runId := r_runId r; Store.in_workspaceId := r_workspaceId r;
     Store.in_cwd := resolve process_cwd (r_cwd r); Store.in_threadId := thread |}.

(** [await this.store.rebind(...)], then the call goes on to [c]. *)
Definition rebind_then (id : nat) (ts : jstr) (r : ResumeInput) (thread : jstr) (c : pc) (p : Pool)
  : Pool :=
  match on_store (Store.rebind process_cwd ts (bind_input r thread)) p with
  | (Ok _, p') => goto id c p'
  | (Throw e, p') => goto id (Failed e) p'
  end.

(** [[...this.runtimes.values()].find((entry) => entry.host.attachedThreadId() === threadId)] *)
Definition attached_runtime (thread : jstr) (p : Pool) : option (nat * RuntimeEntry) :=
  List.find (fun x => bool_decide (attachedThreadId (e_host x.2) p = Some thread)) (runtime_values p).

(** From the check of the active writers on. *)
Definition resume_unless_active (id : nat) (ts : jstr) (r : ResumeInput) (p : Pool) : Pool :=
  if bool_decide (is_Some (activeThreadWriters p !! r_threadId r))
  then rebind_then id ts r (r_threadId r) AwaitLast p
  else match attached_runtime (r_threadId r) p with
       | Some (_, e) =>
           if busy e then rebind_then id ts r (r_threadId r) AwaitLast p
           else goto id (ResumeNeedCapacity r)
                  (shutdown_host (e_host e) (with_runtimes (map_delete (runtimes p) (e_runId e)) p))
       | None =>
           match makeCapacity p with
           | None => raise id "Codex runtime pool is at capacity with active turns" p
           | Some p' => goto id (ResumeAwaitCapacity r) p'
           end
       end.

Definition resumeConversation (id : nat) (ts : jstr) (r : ResumeInput) (p : Pool) : Pool :=
  if negb (initialized p) then raise id "Codex runtime pool is not initialized" p
  else match validateResumeInput r with
  | Throw e => goto id (Failed e) p
  | Ok _ =>
      match runtime (r_runId r) p with
      | Some (_, e) =>
          if busy e
          then rebind_then id ts r (default (r_threadId r) (attachedThreadId (e_host e) p)) AwaitLast p
          else goto id (ResumeAfterCurrent r)
                 (shutdown_host (e_host e) (with_runtimes (map_delete (runtimes p) (e_runId e)) p))
      | None => resume_unless_active id ts r p
      end
  end.

(** The [catch] of [resumeConversation], up to the host's shutdown and after it *)
Definition resume_failed (id : nat) (r : ResumeInput) (h : nat) (e : exn) (p : Pool) : Pool :=
  goto id (ResumeCatch r e) (shutdown_host h p).
Definition resume_caught (id : nat) (ts : jstr) (r : ResumeInput) (e : exn) (p : Pool) : Pool :=
  if isActiveWriterError e then rebind_then id ts r (r_threadId r) AwaitLast p
  else goto id (Failed e) p.

Definition continue_resume (id : nat) (ts : jstr) (c : pc) (o : outcome) (p : Pool) : Pool :=
  match c, o with
  | ResumeAfterCurrent _, Threw e | ResumeNeedCapacity _, Threw e | ResumeAwaitCapacity _, Threw e =>
      goto id (Failed e) p
  | ResumeAfterCurrent r, _ => resume_unless_active id ts r p
  | ResumeNeedCapacity r, _ =>
      match makeCapacity p with
      | None => raise id "Codex runtime pool is at capacity with active turns" p
      | Some p' => goto id (ResumeAwaitCapacity r) p'
      end
  | ResumeAwaitCapacity r, _ => goto id (Resuming r (nextId p)) (hostFactory p)
  | Resuming r h, Attached t =>
      let p := attach h t p in
      if bool_decide (t = Some (r_threadId r)) then goto id (ResumeReading r h) p
      else resume_failed id r h (Error (js "Codex resumed a different thread than requested")) p
  | Resuming r h, Threw e | ResumeReading r h, Threw e => resume_failed id r h e p
  | ResumeReading r h, _ =>
      match on_store (Store.rebind process_cwd ts (bind_input r (r_threadId r))) p with
      | (Ok _, p') => goto id (ResumeRebinding r h) p'
      | (Throw e, p') => resume_failed id r h e p'
      end
  | ResumeRebinding r h, Threw e => resume_failed id r h e p
  | ResumeRebinding r h, _ =>
      finish id (add_runtime (r_runId r) (r_workspaceId r) (resolve process_cwd (r_cwd r)) h p)
  | ResumeCatch r e, _ => resume_caught id ts r e p
  | _, _ => p
  end.

(** *** [conversation] *)

Definition forget_binding (id : nat) (run : jstr) (p : Pool) : Pool :=
  match on_store (Store.remove run) p with
  | (Ok _, p') => goto id AwaitLast p'
  | (Throw e, p') => goto id (Failed e) p'
  end.

Definition conversation (id : nat) (run ws dir : jstr) (p : Pool) : Pool :=
  if negb (initialized p) then raise id "Codex runtime pool is not initialized" p
  else match (_ ← validateWorkspaceScope ws dir; validateRunId run) with
  | Throw e => goto id (Failed e) p
  | Ok _ =>
      match on_store (Store.get run) p with
      | (Throw e, p') => goto id (Failed e) p'
      | (Ok None, p') => finish id p'
      | (Ok (Some b), p') =>
          if bool_decide (Store.workspaceId b <> ws) || bool_decide (Store.cwd b <> resolve process_cwd dir)
          then raise id "Codex Harness run is bound to a different workspace" p'
          else match runtime run p' with
          | Some (_, e) =>
              if bool_decide (e_workspaceId e <> ws) || bool_decide (e_cwd e <> resolve process_cwd dir)
              then raise id "Codex runtime scope changed for the same Harness run" p'
              else if bool_decide (attachedThreadId (e_host e) p' <> Some (Store.threadId b))
              then raise id "Codex runtime is attached to a different thread than its persisted binding" p'
              else goto id (ConversationWarm run) p'
          | None => goto id (ConversationCold run (Store.threadId b) (nextId p')) (hostFactory p')
          end
      end
  end.

(** [discardMissingBinding], when it answers [true]; the call returns after it *)
Definition discardMissingBinding (id : nat) (run : jstr) (p : Pool) : option Pool :=
  match runtime run p with
  | Some (_, e) =>
      if busy e then None else Some (goto id (ConversationDiscard run) (drop_runtime run e p))
  | None => Some (forget_binding id run p)
  end.

Definition continue_conversation (id : nat) (c : pc) (o : outcome) (p : Pool) : Pool :=
  match c, o with
  | ConversationWarm run, Threw e =>
      let otherwise := if isActiveWriterError e then finish id p else goto id (Failed e) p in
      if isMissingNativeThreadError e
      then default otherwise (discardMissingBinding id run p)
      else otherwise
  | ConversationWarm _, _ => finish id p
  | ConversationDiscard run, _ => forget_binding id run p
  | ConversationCold run thread h, Attached t =>
      let p := attach h t p in
      if bool_decide (t = Some thread) then goto id (ConversationRead run thread h) p
      else raise id "Codex resumed a different thread than requested" (shutdown_host h p)
  | ConversationCold run _ h, Threw e | ConversationRead run _ h, Threw e =>
      if isMissingNativeThreadError e then forget_binding id run (shutdown_host h p)
      else if isActiveWriterError e then finish id (shutdown_host h p)
      else goto id (Failed e) (shutdown_host h p)
  | ConversationRead _ _ h, _ => finish id (shutdown_host h p)
  | _, _ => p
  end.

(** *** [recover], [release], [cancel], [clearWorkspace], [shutdown] *)

Definition recover (id : nat) (run : jstr) (p : Pool) : Pool :=
  if negb (initialized p) then raise id "Codex runtime pool is not initialized" p
  else match runtime run p with
       | None => finish id p
       | Some (_, e) => if busy e then raise id "Cannot recover Codex runtime while a turn is active" p
                        else goto id AwaitLast p
       end.

Definition release (id : nat) (run : jstr) (p : Pool) : Pool :=
  if negb (initialized p) then raise id "Codex runtime pool is not initialized" p
  else match runtime run p with
       | None => finish id p
       | Some (_, e) => if busy e then raise id "Cannot release Codex runtime while a turn is active" p
                        else goto id AwaitLast (drop_runtime run e p)
       end.

Definition cancel (id : nat) (run : jstr) (p : Pool) : Pool :=
  if negb (initialized p) then raise id "Codex runtime pool is not initialized" p
  else match runtime run p with
       | None => finish id p
       | Some (_, e) => goto id AwaitLast (drop_runtime run e p)
       end.

(** *** What the pool only reads *)

Definition binding (run : jstr) (p : Pool) : result (option Store.CodexThreadBinding) :=
  _ ← require (initialized p) "Codex runtime pool is not initialized";
  (on_store (Store.get run) p).1.

Definition bindings (localeCompare : jstr -> jstr -> Z) (ws : jstr) (p : Pool)
  : result (list Store.CodexThreadBinding) :=
  _ ← require (initialized p) "Codex runtime pool is not initialized";
  _ ← require (negb (bad_id 128 ws)) "Codex workspace id is invalid";
  l ← (on_store (Store.list_bindings localeCompare) p).1;
  Ok (filter (fun b => Store.workspaceId b = ws) l).

(** The thread [usage] asks the host about. *)
Definition usage_thread (ws dir : jstr) (run : option jstr) (p : Pool) : result (option jstr) :=
  _ ← require (initialized p) "Codex runtime pool is not initialized";
  _ ← validateWorkspaceScope ws dir;
  match run with
  | None => Ok None
  | Some r =>
      if negb (truthy r) then Ok None
      else
        _ ← validateRunId r;
        found ← (on_store (Store.get r) p).1;
        match found with
        | None => Ok None
        | Some b =>
            if bool_decide (Store.workspaceId b <> ws) || bool_decide (Store.cwd b <> resolve process_cwd dir)
            then fail "Codex Harness run is bound to a different workspace"
            else Ok (Some (Store.threadId b))
        end
  end.

(** The run that [listConversations] shows for each native thread: the most
    recently updated binding of the workspace and directory. *)
Definition runByThread (localeCompare : jstr -> jstr -> Z) (ws dir : jstr)
    (l : list Store.CodexThreadBinding) : list (jstr * jstr) :=
  fold_left (fun m b => if map_has m (Store.threadId b) then m
                        else map_set m (Store.threadId b) (Store.runId b))
    (sort_by (fun x y => localeCompare (Store.updatedAt y) (Store.updatedAt x))
       (filter (fun b => Store.workspaceId b = ws /\ Store.cwd b = resolve process_cwd dir) l)) [].
Definition listConversations (localeCompare : jstr -> jstr -> Z) (ws dir : jstr)
    (threads : list jstr) (p : Pool) : result (list (jstr * option jstr)) :=
  _ ← require (initialized p) "Codex runtime pool is not initialized";
  _ ← validateWorkspaceScope ws dir;
  l ← (on_store (Store.list_bindings localeCompare) p).1;
  let m := runByThread localeCompare ws dir l in
  Ok (map (fun t => (t, r ← map_get m t; if truthy r then Some r else None)) threads).

Definition isWorkspaceBusy (ws : jstr) (p : Pool) : result bool :=
  _ ← require (initialized p) "Codex runtime pool is not initialized";
  _ ← require (negb (bad_id 128 ws)) "Codex workspace id is invalid";
  Ok (existsb (fun x => bool_decide (e_workspaceId x.2 = ws) && busy x.2) (runtime_values p)).

Definition clearWorkspace (id : nat) (ws dir : jstr) (p : Pool) : Pool :=
  if negb (initialized p) then raise id "Codex runtime pool is not initialized" p
  else match validateWorkspaceScope ws dir with
  | Throw e => goto id (Failed e) p
  | Ok _ =>
      let cleared := filter (fun x => e_workspaceId x.2 = ws) (runtime_values p) in
      if existsb (fun x => busy x.2) cleared
      then raise id "Cannot clear Codex conversations while a workspace turn is active" p
      else goto id (ClearShutdown ws (resolve process_cwd dir))
             (fold_left (fun p x => drop_runtime (e_runId x.2) x.2 p) cleared p)
  end.

Definition continue_clear (id : nat) (c : pc) (o : outcome) (p : Pool) : Pool :=
  match c, o with
  | ClearShutdown ws _, _ => goto id (ClearDeleting ws (nextId p)) (hostFactory p)
  | ClearDeleting _ h, Threw e => goto id (Failed e) (shutdown_host h p)
  | ClearDeleting ws h, _ => goto id (ClearRemoving ws) (shutdown_host h p)
  | ClearRemoving ws, _ =>
      match on_store (Store.removeWorkspace ws) p with
      | (Ok _, p') => goto id AwaitLast p'
      | (Throw e, p') => goto id (Failed e) p'
      end
  | _, _ => p
  end.

Definition shutdown (id : nat) (p : Pool) : Pool :=
  goto id AwaitLast
    (fold_left (fun p x => shutdown_host (e_host x.2) p) (runtime_values p)
       (with_writers ∅ (with_runtimes [] p))).

(** ** The pool as a transition system *)

Inductive request :=
| RunTurn (i : TurnInput)
| ResumeConversation (r : ResumeInput)
| Conversation (run ws dir : jstr)
| Recover (run : jstr)
| Release (run : jstr)
| Cancel (run : jstr)
| ClearWorkspace (ws dir : jstr)
| Shutdown.

(** A method is called (its synchronous part runs), or the promise a call
    waits for settles and the call runs to its next [await]. *)
Inductive event :=
| Call (id : nat) (ts : jstr) (q : request)
| Settle (id : nat) (ts : jstr) (o : outcome).

Definition call (id : nat) (ts : jstr) (q : request) (p : Pool) : Pool :=
  match q with
  | RunTurn i => runTurn id i p
  | ResumeConversation r => resumeConversation id ts r p
  | Conversation run ws dir => conversation id run ws dir p
  | Recover run => recover id run p
  | Release run => release id run p
  | Cancel run => cancel id run p
  | ClearWorkspace ws dir => clearWorkspace id ws dir p
  | Shutdown => shutdown id p
  end.

Definition settle (id : nat) (ts : jstr) (c : pc) (o : outcome) (p : Pool) : Pool :=
  match c with
  | WaitStored _ _ | NeedRuntime _ _ | AwaitCapacity _ _ | Attaching _ _ _ | AwaitBind _ _ _
  | GotEntry _ _ _ | WaitBusy _ _ _ | AfterBusy _ _ _ | Configuring _ _ _ | Running _ _ _ =>
      continue_turn id ts c o p
  | ResumeAfterCurrent _ | ResumeNeedCapacity _ | ResumeAwaitCapacity _ | Resuming _ _
  | ResumeReading _ _ | ResumeRebinding _ _ | ResumeCatch _ _ => continue_resume id ts c o p
  | ConversationWarm _ | ConversationDiscard _ | ConversationCold _ _ _ | ConversationRead _ _ _ =>
      continue_conversation id c o p
  | ClearShutdown _ _ | ClearDeleting _ _ | ClearRemoving _ => continue_clear id c o p
  | AwaitLast => match o with Threw e => goto id (Failed e) p | _ => finish id p end
  | Finished | Failed _ => p
  end.

(** A call id is used once. *)
Definition step (ev : event) (p : Pool) : Pool :=
  match ev with
  | Call id ts q => if bool_decide (tasks p !! id = None) then call id ts q p else p
  | Settle id ts o => match tasks p !! id with Some c => settle id ts c o p | None => p end
  end.
Definition run (evs : list event) (p : Pool) : Pool := fold_left (fun p e => step e p) evs p.

Definition initial (s : Store.Store) (max : Z) : Pool :=
  {| store := s; initialized := true; maxRuntimes := max; entries := ∅; runtimes := [];
     activeThreadWriters := ∅; hosts := ∅; clock := 0; nextId := 0; tasks := ∅ |}.

(** ** What a step does to the entries and the locks *)

(** The turn a call is in, between [acquireThreadWriter] and its [finally]. *)
Definition turning (c : pc) : option (TurnInput * nat * Store.CodexThreadBinding) :=
  match c with Configuring i n b | Running i n b => Some (i, n, b) | _ => None end.
Definition turn_of (p : Pool) (id : nat) : option (TurnInput * nat * Store.CodexThreadBinding) :=
  tasks p !! id ≫= turning.

(** A run that is still mapped to the same entry keeps its locks. *)
Definition keeps_locks (p p' : Pool) : Prop := forall r n,
  map_get (runtimes p') r = Some n ->
  (nextId p <= n)%nat \/
  (map_get (runtimes p) r = Some n /\
   forall t, activeThreadWriters p !! t = Some r -> activeThreadWriters p' !! t = Some r).

(** Everything but a turn's own steps: no entry becomes busy or idle, new
    entries are fresh and idle, no lock appears. *)
Record quiet (p p' : Pool) : Prop := {
  quiet_tasks : tasks p' = tasks p;
  quiet_next : (nextId p <= nextId p')%nat;
  quiet_old n : (n < nextId p)%nat -> entries p' !! n = entries p !! n;
  quiet_new n e : entries p' !! n = Some e -> (nextId p <= n)%nat ->
    busy e = false /\ (n < nextId p')%nat \/ entries p !! n = Some e;
  quiet_locks t r : activeThreadWriters p' !! t = Some r -> activeThreadWriters p !! t = Some r;
  quiet_keeps : keeps_locks p p' }.

Lemma quiet_refl p : quiet p p.
Proof. split; try done; [auto|]. intros r n H. by right. Qed.

Lemma quiet_trans p q r : quiet p q -> quiet q r -> quiet p r.
Proof.
  intros [T1 N1 O1 F1 L1 K1] [T2 N2 O2 F2 L2 K2]. split.
  - congruence.
  - lia.
  - intros n Hn. rewrite O2, O1 by lia. done.
  - intros n e Hn Hle. destruct (decide (nextId q <= n)%nat) as [Hq|Hq].
    + destruct (F2 n e Hn Hq) as [[? ?]|Hn']; [left; split; [done|lia]|].
      destruct (F1 n e Hn' Hle) as [[? ?]|?]; [left; split; [done|lia]|by right].
    + rewrite O2 in Hn by lia. destruct (F1 n e Hn Hle) as [[? ?]|?]; [|by right].
      left. split; [done|lia].
  - auto.
  - intros x n Hn. destruct (K2 x n Hn) as [?|[Hq Hk2]]; [left; lia|].
    destruct (K1 x n Hq) as [?|[Hp Hk1]]; [by left|]. right. split; [done|]. auto.
Qed.

Lemma quiet_store s p : quiet p (with_store s p).
Proof. split; try done; [auto|]. intros r n H. by right. Qed.
Lemma quiet_hosts hs p : quiet p (with_hosts hs p).
Proof. split; try done; [auto|]. intros r n H. by right. Qed.
Lemma quiet_hostFactory p : quiet p (hostFactory p).
Proof. split; cbn; try done; [auto|auto|]. intros r n H. by right. Qed.

Lemma quiet_forget r p : quiet p (with_runtimes (map_delete (runtimes p) r) p).
Proof.
  split; try done; [auto|]. intros x n. cbn. rewrite map_get_delete.
  case_bool_decide; [done|]. by right.
Qed.

Lemma releaseThreadWriter_lookup t r p x :
  activeThreadWriters (releaseThreadWriter t r p) !! x
  = if bool_decide (x = t /\ activeThreadWriters p !! t = Some r) then None
    else activeThreadWriters p !! x.
Proof.
  unfold releaseThreadWriter. destruct (activeThreadWriters p !! t) as [o|] eqn:E.
  - case_bool_decide as Ho; cbn.
    + subst. destruct (decide (x = t)) as [->|]; [rewrite lookup_delete_eq|rewrite lookup_delete_ne by done].
      * by rewrite bool_decide_eq_true_2.
      * by rewrite bool_decide_eq_false_2 by naive_solver.
    + by rewrite bool_decide_eq_false_2 by naive_solver.
  - by rewrite bool_decide_eq_false_2 by naive_solver.
Qed.

Lemma releaseThreadWriter_same t r p :
  releaseThreadWriter t r p = with_writers (activeThreadWriters (releaseThreadWriter t r p)) p.
Proof. unfold releaseThreadWriter. repeat case_match; by destruct p. Qed.

Lemma quiet_drop_runtime run e p : quiet p (drop_runtime run e p).
Proof.
  eapply quiet_trans; [|apply quiet_hosts]. unfold release_attached.
  destruct (attachedThreadId _ _) as [t|]; [destruct (truthy t)|]; [|apply quiet_forget..].
  rewrite releaseThreadWriter_same. split; cbn; try done; [by right| |].
  - intros x r. rewrite releaseThreadWriter_lookup. by case_bool_decide.
  - intros x n. cbn. rewrite map_get_delete. case_bool_decide as Hx; [done|]. intros Hn. right.
    split; [done|]. intros t' Ht'. rewrite releaseThreadWriter_lookup. cbn.
    rewrite bool_decide_eq_false_2; [done|]. intros [-> Ht]. congruence.
Qed.

Lemma quiet_makeCapacity p p' : makeCapacity p = Some p' -> quiet p p'.
Proof.
  unfold makeCapacity. destruct (_ <? _); [intros [= <-]; apply quiet_refl|].
  destruct (least_recently_used _) as [[n e]|]; [|done]. intros [= <-]. apply quiet_drop_runtime.
Qed.

Lemma quiet_add_runtime run ws dir h p : quiet p (add_runtime run ws dir h p).
Proof.
  unfold add_runtime. split; cbn; try done; [auto| | |].
  - intros n Hn. rewrite lookup_insert_ne by lia. done.
  - intros n e. destruct (decide (n = nextId p)) as [->|Hne].
    + rewrite lookup_insert_eq. intros [= <-] _. left. split; [done|lia].
    + rewrite lookup_insert_ne by done. by right.
  - intros r n. cbn. rewrite map_get_set. case_bool_decide; [|by right]. intros [= ->]. by left.
Qed.

Lemma quiet_on_store {A} (m : M Store.Store A) p r p' : on_store m p = (r, p') -> quiet p p'.
Proof. unfold on_store. destruct (m (store p)). intros [= _ <-]. apply quiet_store. Qed.

Lemma quiet_fold {X} (f : Pool -> X -> Pool) (l : list X) p :
  (forall q x, quiet q (f q x)) -> quiet p (fold_left f l p).
Proof.
  intros Hf. revert p. induction l as [|x l IH]; intros p; simpl; [apply quiet_refl|].
  eapply quiet_trans; [apply Hf|apply IH].
Qed.

Lemma quiet_clear_all p : quiet p (with_writers ∅ (with_runtimes [] p)).
Proof. split; cbn; try done. by right. Qed.

(** ** The moves of the system

    A step leaves everything alone; or moves a call that is not in a turn
    quietly; or begins, advances or ends a turn. *)
Inductive moves (p : Pool) (id : nat) : Pool -> Prop :=
| moves_not : moves p id p
| moves_quiet c p' : quiet p p' -> turn_of p id = None -> turning c = None ->
    moves p id (goto id c p')
| moves_begin i n b e : entries p !! n = Some e -> busy e = false -> turn_of p id = None ->
    activeThreadWriters p !! Store.threadId b = None ->
    moves p id (begin_turn id i n b p)
| moves_ready i n b : turn_of p id = Some (i, n, b) -> moves p id (goto id (Running i n b) p)
| moves_end i n b c : turn_of p id = Some (i, n, b) -> turning c = None ->
    moves p id (end_turn id i n b c p).

Lemma quiet_shutdown_host h p : quiet p (shutdown_host h p). Proof. apply quiet_hosts. Qed.
Lemma quiet_attach h t p : quiet p (attach h t p). Proof. apply quiet_hosts. Qed.

(** The goal [quiet p (f (g p))], from the outside in. *)
Ltac quietly :=
  repeat first
    [ apply quiet_refl
    | eassumption
    | match goal with
      | H : on_store _ _ = (_, ?q) |- quiet _ ?q =>
          eapply quiet_trans; [|exact (quiet_on_store _ _ _ _ H)]
      | H : makeCapacity _ = Some ?q |- quiet _ ?q =>
          eapply quiet_trans; [|exact (quiet_makeCapacity _ _ H)]
      end
    | eapply quiet_trans; [|apply quiet_add_runtime]
    | eapply quiet_trans; [|apply quiet_drop_runtime]
    | eapply quiet_trans; [|apply quiet_shutdown_host]
    | eapply quiet_trans; [|apply quiet_attach]
    | eapply quiet_trans; [|apply quiet_hostFactory]
    | eapply quiet_trans; [|apply quiet_forget] ].
Ltac by_goto := solve [apply moves_not | eapply moves_quiet; [quietly|done|done]].

(** Case analysis on the outcomes of the store and of the guards. *)
Ltac pool_cases :=
  repeat match goal with
  | |- context [match on_store ?m ?p with _ => _ end] =>
      destruct (on_store m p) as [[?|?] ?] eqn:?
  | |- context [match makeCapacity ?p with _ => _ end] => destruct (makeCapacity p) eqn:?
  | |- context [match ?x with _ => _ end] => destruct x eqn:?
  end.

Lemma runtimeFor_moves id i stored p : turn_of p id = None -> moves p id (runtimeFor id i stored p).
Proof. intros Ht. unfold runtimeFor, raise. pool_cases; by_goto. Qed.

Lemma on_store_get r p x p' : on_store (Store.get r) p = (x, p') -> p' = p.
Proof.
  unfold on_store, Store.get, Store.assertInitialized, mbind, M_bind, gets.
  destruct (Store.initialized (store p)); intros [= _ <-]; by destruct p.
Qed.

Lemma runTurn_moves id i p : turn_of p id = None -> moves p id (runTurn id i p).
Proof.
  intros Ht. unfold runTurn, raise. destruct (negb _); [by_goto|].
  destruct (validateInput i); [|by_goto].
  destruct (on_store _ p) as [[[b|]|e] p'] eqn:E; apply on_store_get in E as ->.
  - destruct (_ || _); by_goto.
  - by apply runtimeFor_moves.
  - by_goto.
Qed.

Lemma begin_turn_moves id i n b e p : entries p !! n = Some e -> busy e = false ->
  turn_of p id = None -> moves p id (begin_turn id i n b p).
Proof.
  intros He Hb Ht. destruct (activeThreadWriters p !! Store.threadId b) eqn:Ew.
  - unfold begin_turn. rewrite Ew. by_goto.
  - by eapply moves_begin.
Qed.

Lemma continue_turn_moves id ts c o p : tasks p !! id = Some c ->
  moves p id (continue_turn id ts c o p).
Proof.
  intros Hc. assert (Ht : turn_of p id = turning c) by (unfold turn_of; by rewrite Hc).
  destruct c; simpl in Ht; cbn [continue_turn]; try apply moves_not.
  - destruct (waitForThreadWriter _ _); by_goto.
  - by apply runtimeFor_moves.
  - destruct o; by_goto.
  - unfold turn_attached, raise. pool_cases; by_goto.
  - destruct o; by_goto.
  - destruct (entries p !! e) as [x|] eqn:Ex; [|by_goto].
    destruct (busy x) eqn:Eb; [by_goto|]. by eapply begin_turn_moves.
  - destruct (waitForThreadWriter _ _); by_goto.
  - destruct (entries p !! e) as [x|] eqn:Ex; [|by_goto].
    destruct (busy x) eqn:Eb; [unfold raise; by_goto|]. by eapply begin_turn_moves.
  - destruct o; [by_goto..| |by apply moves_end].
    destruct (assertSkillsAvailable _ _); [by apply moves_ready|by apply moves_end].
  - destruct o; try by apply moves_end. all: destruct (_ && _); by apply moves_end.
Qed.

Lemma rebind_then_moves id ts r thread c p : turn_of p id = None -> turning c = None ->
  moves p id (rebind_then id ts r thread c p).
Proof. intros Ht Hc. unfold rebind_then. pool_cases; by_goto. Qed.

Lemma resume_unless_active_moves id ts r p : turn_of p id = None ->
  moves p id (resume_unless_active id ts r p).
Proof.
  intros Ht. unfold resume_unless_active, raise. destruct (bool_decide _); [by apply rebind_then_moves|].
  destruct (attached_runtime _ _) as [[n e]|]; [destruct (busy e); [by apply rebind_then_moves|]|].
  - by_goto.
  - pool_cases; by_goto.
Qed.

Lemma resumeConversation_moves id ts r p : turn_of p id = None ->
  moves p id (resumeConversation id ts r p).
Proof.
  intros Ht. unfold resumeConversation, raise. destruct (negb _); [by_goto|].
  destruct (validateResumeInput r); [|by_goto].
  destruct (runtime _ p) as [[n e]|]; [|by apply resume_unless_active_moves].
  destruct (busy e); [by apply rebind_then_moves|by_goto].
Qed.

Lemma continue_resume_moves id ts c o p : turn_of p id = None ->
  moves p id (continue_resume id ts c o p).
Proof.
  intros Ht. unfold continue_resume, resume_failed, resume_caught, finish, raise.
  destruct c; try apply moves_not; destruct o; try by_goto;
    try (by apply resume_unless_active_moves); pool_cases; try by_goto;
    try (by apply rebind_then_moves).
Qed.

Lemma forget_binding_moves id run p q : turn_of p id = None -> quiet p q ->
  moves p id (forget_binding id run q).
Proof. intros Ht Hq. unfold forget_binding. pool_cases; by_goto. Qed.

Lemma conversation_moves id run ws dir p : turn_of p id = None ->
  moves p id (conversation id run ws dir p).
Proof. intros Ht. unfold conversation, finish, raise. pool_cases; by_goto. Qed.

Lemma continue_conversation_moves id c o p : turn_of p id = None ->
  moves p id (continue_conversation id c o p).
Proof.
  intros Ht. unfold continue_conversation, finish, raise.
  destruct c; try apply moves_not; destruct o; try by_goto;
    repeat case_match; try by_goto; try (apply forget_binding_moves; [done|quietly]).
  all: match goal with |- context [discardMissingBinding ?i ?r ?x] =>
         destruct (discardMissingBinding i r x) as [q|] eqn:Ed end; cbn [default]; [|by_goto].
  all: revert Ed; unfold discardMissingBinding; repeat case_match; intros [= <-]; try by_goto.
  all: by apply forget_binding_moves; [|apply quiet_refl].
Qed.

Lemma other_calls_moves id q p : turn_of p id = None ->
  moves p id (match q with
    | Recover run => recover id run p | Release run => release id run p
    | Cancel run => cancel id run p | ClearWorkspace ws dir => clearWorkspace id ws dir p
    | Shutdown => shutdown id p | _ => p end).
Proof.
  intros Ht. destruct q; try apply moves_not; unfold recover, release, cancel, clearWorkspace, shutdown,
    finish, raise; repeat case_match; try by_goto.
  - eapply moves_quiet; [|done..]. apply quiet_fold. intros q x. apply quiet_drop_runtime.
  - eapply moves_quiet; [|done..]. eapply quiet_trans; [apply quiet_clear_all|].
    apply quiet_fold. intros q x. apply quiet_shutdown_host.
Qed.

Lemma continue_clear_moves id c o p : turn_of p id = None -> moves p id (continue_clear id c o p).
Proof.
  intros Ht. unfold continue_clear. destruct c; try apply moves_not; destruct o; try by_goto;
    pool_cases; by_goto.
Qed.

Definition event_id (ev : event) : nat := match ev with Call id _ _ | Settle id _ _ => id end.

Lemma step_moves ev p : moves p (event_id ev) (step ev p).
Proof.
  destruct ev as [id ts q|id ts o]; cbn [step event_id].
  - case_bool_decide as Hn; [|apply moves_not].
    assert (Ht : turn_of p id = None) by (unfold turn_of; by rewrite Hn).
    pose proof (other_calls_moves id q p Ht) as Hq.
    destruct q; cbn [call]; try exact Hq; [by apply runTurn_moves|
      by apply resumeConversation_moves|by apply conversation_moves].
  - destruct (tasks p !! id) as [c|] eqn:Hc; [|apply moves_not].
    assert (Ht : turn_of p id = turning c) by (unfold turn_of; by rewrite Hc).
    destruct c; cbn [settle]; try (by apply continue_turn_moves); simpl in Ht;
      try (by apply continue_resume_moves); try (by apply continue_conversation_moves);
      try (by apply continue_clear_moves); try apply moves_not.
    destruct o; unfold finish; by_goto.
Qed.

(** ** One turn per entry *)

(** Entries are named below [nextId]; an entry is busy exactly while one call
    is in a turn on it. *)
Record exclusive (p : Pool) : Prop := {
  ex_named n : is_Some (entries p !! n) -> (n < nextId p)%nat;
  ex_turn id i n b : turn_of p id = Some (i, n, b) -> exists e, entries p !! n = Some e /\ busy e = true;
  ex_one id id' i i' n b b' : turn_of p id = Some (i, n, b) -> turn_of p id' = Some (i', n, b') -> id = id';
  ex_busy n e : entries p !! n = Some e -> busy e = true -> exists id i b, turn_of p id = Some (i, n, b) }.

Lemma turn_of_goto p id c id' :
  turn_of (goto id c p) id' = if bool_decide (id = id') then turning c else turn_of p id'.
Proof.
  unfold turn_of, goto. cbn. case_bool_decide; [subst; by rewrite lookup_insert_eq|].
  by rewrite lookup_insert_ne.
Qed.

Lemma exclusive_quiet p p' id c : exclusive p -> quiet p p' -> turn_of p id = None ->
  turning c = None -> exclusive (goto id c p').
Proof.
  intros [En Et Eo Eb] [T N O F L K] Hid Hc.
  assert (Hturn : forall id', turn_of (goto id c p') id' = turn_of p id').
  { intros id'. rewrite turn_of_goto, Hc. case_bool_decide; [by subst|]. unfold turn_of. by rewrite T. }
  assert (Hold : forall n e, entries p' !! n = Some e -> busy e = true -> entries p !! n = Some e).
  { intros n e He Hb. destruct (decide (n < nextId p)%nat) as [Hn|Hn]; [by rewrite <- O|].
    destruct (F n e He) as [[? _]|?]; [lia|congruence|done]. }
  split.
  - intros n [e He]. destruct (decide (n < nextId p)%nat) as [Hn|Hn]; [cbn; lia|].
    destruct (F n e He) as [[_ ?]|Hp]; [lia|done|].
    assert (n < nextId p)%nat by eauto. cbn. lia.
  - intros id' i n b. rewrite Hturn. intros Hi. destruct (Et _ _ _ _ Hi) as (e & He & Hb).
    exists e. split; [|done]. cbn. rewrite O; [done|]. eauto.
  - intros id1 id2 i1 i2 n b1 b2. rewrite !Hturn. apply Eo.
  - intros n e He Hb. destruct (Eb n e (Hold n e He Hb) Hb) as (id' & i & b & Hi).
    exists id', i, b. by rewrite Hturn.
Qed.

(** The entries after [update_entry] of one of them. *)
Lemma update_entry_lookup n f p n' e' : entries (update_entry n f p) !! n' = Some e' ->
  (n' <> n /\ entries p !! n' = Some e') \/ (n' = n /\ exists e, entries p !! n = Some e /\ e' = f e).
Proof.
  unfold update_entry. cbn. rewrite lookup_alter. case_decide; [subst|naive_solver].
  intros (e & -> & ?)%fmap_Some. right. naive_solver.
Qed.

Lemma begin_turn_runs id i n b p : activeThreadWriters p !! Store.threadId b = None ->
  begin_turn id i n b p
  = goto id (Configuring i n b)
      (update_entry n (fun e => set_lastUsed (clock p + 1) (set_busy true e))
        (tick (acquireThreadWriter (Store.threadId b) (t_runId i) p))).
Proof. intros Hw. unfold begin_turn. by rewrite Hw. Qed.

Lemma exclusive_begin p id i n b e : exclusive p -> entries p !! n = Some e -> busy e = false ->
  turn_of p id = None -> activeThreadWriters p !! Store.threadId b = None ->
  exclusive (begin_turn id i n b p).
Proof.
  intros [En Et Eo Eb] He Hb Hid Hw. rewrite begin_turn_runs by done.
  set (q := update_entry _ _ _).
  assert (Hturn : forall id', turn_of (goto id (Configuring i n b) q) id'
    = if bool_decide (id = id') then Some (i, n, b) else turn_of p id').
  { intros id'. rewrite turn_of_goto. by case_bool_decide. }
  assert (Hn : forall id' i' b', turn_of p id' <> Some (i', n, b')).
  { intros id' i' b' Hi. destruct (Et _ _ _ _ Hi) as (e' & ? & ?). congruence. }
  split.
  - intros n' [e' He']. apply update_entry_lookup in He' as [[_ ?]|[-> _]]; cbn; eauto.
  - intros id' i' n' b'. rewrite Hturn. case_bool_decide.
    + intros [= <- <- <-]. unfold q, update_entry. cbn. rewrite lookup_alter_eq, He. by eexists.
    + intros Hi. destruct (Et _ _ _ _ Hi) as (e' & ? & ?). exists e'. split; [|done].
      unfold q, update_entry. cbn. rewrite lookup_alter_ne; [done|]. intros <-. by eapply Hn.
  - intros id1 id2 i1 i2 n' b1 b2. rewrite !Hturn. repeat case_bool_decide; [congruence|..|apply Eo].
    + intros [= <- <- <-] H2. by apply Hn in H2.
    + intros H1 [= <- <- <-]. by apply Hn in H1.
  - intros n' e' He' Hb'. apply update_entry_lookup in He' as [[Hne Ho]|[-> _]].
    + destruct (Eb n' e' Ho Hb') as (id' & i' & b' & Hi). exists id', i', b'. rewrite Hturn.
      rewrite bool_decide_eq_false_2; [done|]. intros <-. congruence.
    + exists id, i, b. rewrite Hturn. by rewrite bool_decide_eq_true_2.
Qed.

Lemma end_turn_entry id i n b c p n' e' : entries (end_turn id i n b c p) !! n' = Some e' ->
  (n' <> n /\ entries p !! n' = Some e') \/ (n' = n /\ is_Some (entries p !! n) /\ busy e' = false).
Proof.
  unfold end_turn. intros [[Hne H]|[-> (e & H & ->)]]%update_entry_lookup.
  - rewrite releaseThreadWriter_same in H. apply update_entry_lookup in H as [[_ H]|[? _]]; [by left|done].
  - rewrite releaseThreadWriter_same in H. apply update_entry_lookup in H as [[? _]|[_ (e0 & H & ->)]]; [done|].
    right. split; [done|]. split; [by eexists|done].
Qed.

Lemma end_turn_same id i n b c p : tasks (end_turn id i n b c p) = <[id := c]> (tasks p) /\
  nextId (end_turn id i n b c p) = nextId p /\ runtimes (end_turn id i n b c p) = runtimes p /\
  activeThreadWriters (end_turn id i n b c p)
  = activeThreadWriters (releaseThreadWriter (Store.threadId b) (t_runId i) p).
Proof.
  unfold end_turn. rewrite releaseThreadWriter_same. cbn. split_and!; try done.
  unfold releaseThreadWriter. cbn. by repeat case_match.
Qed.

Lemma turn_of_end id i n b c p id' : turn_of (end_turn id i n b c p) id'
  = if bool_decide (id = id') then turning c else turn_of p id'.
Proof.
  unfold turn_of. rewrite (proj1 (end_turn_same id i n b c p)).
  case_bool_decide; [subst; by rewrite lookup_insert_eq|by rewrite lookup_insert_ne].
Qed.

Lemma exclusive_end p id i n b c : exclusive p -> turn_of p id = Some (i, n, b) -> turning c = None ->
  exclusive (end_turn id i n b c p).
Proof.
  intros [En Et Eo Eb] Hid Hc. destruct (end_turn_same id i n b c p) as (_ & Hnext & _).
  pose proof (turn_of_end id i n b c p) as Hturn. rewrite Hc in Hturn.
  assert (Hne : forall id' i' n' b', id <> id' -> turn_of p id' = Some (i', n', b') -> n' <> n).
  { intros id' i' n' b' Hd Hi ->. by apply Hd, (Eo id id' _ _ _ _ _ Hid Hi). }
  split.
  - intros n' [e' He']. rewrite Hnext. apply end_turn_entry in He' as [[_ ?]|[-> [? _]]]; eauto.
  - intros id' i' n' b'. rewrite Hturn. case_bool_decide as Hd; [done|]. intros Hi.
    destruct (Et _ _ _ _ Hi) as (e' & ? & ?). exists e'. split; [|done].
    pose proof (Hne _ _ _ _ Hd Hi). unfold end_turn, update_entry. rewrite releaseThreadWriter_same. cbn.
    by rewrite !lookup_alter_ne.
  - intros id1 id2 i1 i2 n' b1 b2. rewrite !Hturn. repeat case_bool_decide; try done. apply Eo.
  - intros n' e' He' Hb'. apply end_turn_entry in He' as [[Hd Ho]|[_ [_ ?]]]; [|congruence].
    destruct (Eb n' e' Ho Hb') as (id' & i' & b' & Hi). exists id', i', b'. rewrite Hturn.
    rewrite bool_decide_eq_false_2; [done|]. intros <-. congruence.
Qed.

Lemma moves_exclusive p id p' : exclusive p -> moves p id p' -> exclusive p'.
Proof.
  intros Hp [|c p1 Hq Ht Hc|i n b e He Hb Ht Hw|i n b Ht|i n b c Ht Hc]; [done|..].
  - by eapply exclusive_quiet.
  - by eapply exclusive_begin.
  - destruct Hp as [En Et Eo Eb].
    assert (Hturn : forall id', turn_of (goto id (Running i n b) p) id' = turn_of p id').
    { intros id'. rewrite turn_of_goto. case_bool_decide; [by subst|done]. }
    split; [done|intros *; rewrite ?Hturn; eauto..].
    intros He Hb. destruct (Eb _ _ He Hb) as (id' & i' & b' & ?). exists id', i', b'. by rewrite Hturn.
  - by apply exclusive_end.
Qed.

Lemma run_exclusive evs p : exclusive p -> exclusive (run evs p).
Proof.
  unfold run. revert p. induction evs as [|ev evs IH]; intros p Hp; [done|]. cbn [fold_left].
  apply IH. eapply moves_exclusive; [done|apply step_moves].
Qed.

Lemma exclusive_initial s max : exclusive (initial s max).
Proof. split; cbn; unfold turn_of; cbn; intros *; rewrite ?lookup_empty; try done. Qed.

(** ** One writer per thread *)

(** The turn of [id] is live: the pool still maps its run to its entry. *)
Definition live (p : Pool) (id : nat) (i : TurnInput) (n : nat) (b : Store.CodexThreadBinding) : Prop :=
  turn_of p id = Some (i, n, b) /\ map_get (runtimes p) (t_runId i) = Some n.
(** Every live turn holds the lock of its thread. *)
Definition locked (p : Pool) : Prop := forall id i n b, live p id i n b ->
  activeThreadWriters p !! Store.threadId b = Some (t_runId i).
(** No two calls are in a turn of the same run. *)
Definition one_turn_per_run (p : Pool) : Prop := forall id id' i i' n n' b b',
  turn_of p id = Some (i, n, b) -> turn_of p id' = Some (i', n', b') ->
  t_runId i = t_runId i' -> id = id'.

Lemma locked_quiet p p' id c : exclusive p -> locked p -> quiet p p' -> turn_of p id = None ->
  turning c = None -> locked (goto id c p').
Proof.
  intros Hex Hl [T _ _ _ _ K] Hid Hc id' i n b [Ht Hr]. rewrite turn_of_goto, Hc in Ht.
  case_bool_decide; [done|]. unfold turn_of in Ht. rewrite T in Ht. cbn in Hr |- *.
  destruct (K _ _ Hr) as [Hle|[Hp Hk]].
  - destruct (ex_turn p Hex id' i n b Ht) as (e & He & _).
    pose proof (ex_named p Hex n (ex_intro _ e He)). lia.
  - apply Hk, (Hl id' i n b). by split.
Qed.

Lemma locked_begin p id i n b : locked p -> turn_of p id = None ->
  activeThreadWriters p !! Store.threadId b = None -> locked (begin_turn id i n b p).
Proof.
  intros Hl Hid Hw id' i' n' b'. rewrite begin_turn_runs by done. unfold live. rewrite turn_of_goto. cbn.
  case_bool_decide as Hd.
  - intros [[= <- <- <-] _]. apply lookup_insert_eq.
  - intros [Ht Hr]. assert (Hlk := Hl id' i' n' b' (conj Ht Hr)).
    rewrite lookup_insert_ne; [done|]. congruence.
Qed.

Lemma locked_end p id i n b c : locked p -> one_turn_per_run p -> turn_of p id = Some (i, n, b) ->
  turning c = None -> locked (end_turn id i n b c p).
Proof.
  intros Hl Hone Hid Hc id' i' n' b'. destruct (end_turn_same id i n b c p) as (_ & _ & Hr & Hw).
  unfold live. rewrite turn_of_end, Hr, Hw, Hc. case_bool_decide as Hd; [by intros [? _]|].
  intros [Ht Hrun]. rewrite releaseThreadWriter_lookup, bool_decide_eq_false_2.
  - by apply (Hl id' i' n' b').
  - intros [Hb Hown]. rewrite <- Hb, (Hl id' i' n' b') in Hown by done. injection Hown as Hown.
    apply Hd. by apply (Hone id id' i i' n n' b b').
Qed.

Lemma moves_locked p id p' : exclusive p -> locked p -> one_turn_per_run p -> moves p id p' -> locked p'.
Proof.
  intros Hex Hl Hone [|c p1 Hq Ht Hc|i n b e He Hb Ht Hw|i n b Ht|i n b c Ht Hc]; [done|..].
  - by eapply locked_quiet.
  - by eapply locked_begin.
  - intros id' i' n' b' [Hi Hr]. rewrite turn_of_goto in Hi. apply (Hl id' i' n' b').
    case_bool_decide; [subst|]; (split; [|exact Hr]); [|done]. simpl in Hi. by rewrite Ht.
  - by eapply locked_end.
Qed.

(** [P] holds at every state the run passes through. *)
Fixpoint throughout (P : Pool -> Prop) (evs : list event) (p : Pool) : Prop :=
  P p /\ match evs with [] => True | ev :: evs' => throughout P evs' (step ev p) end.

Lemma run_locked evs p : exclusive p -> locked p -> throughout one_turn_per_run evs p ->
  locked (run evs p) /\ one_turn_per_run (run evs p).
Proof.
  unfold run. revert p. induction evs as [|ev evs IH]; intros p Hex Hl [H1 H2]; [done|].
  cbn [fold_left]. pose proof (step_moves ev p). apply IH; [by eapply moves_exclusive| |done].
  by eapply moves_locked.
Qed.

(** ** Properties *)

(** C30: a native host never runs two turns at once: in every reachable state,
    whatever calls (cancels included) interleave and however the hosts answer,
    an entry is marked busy exactly while one call is in its turn on it, and
    no two calls are in a turn on the same entry. *)
Theorem one_turn_per_host evs s max :
  let p := run evs (initial s max) in
  (forall id id' i i' n b b', turn_of p id = Some (i, n, b) -> turn_of p id' = Some (i', n, b') -> id = id') /\
  (forall n e, entries p !! n = Some e ->
     busy e = true <-> exists id i b, turn_of p id = Some (i, n, b)).
Proof.
  pose proof (run_exclusive evs _ (exclusive_initial s max)) as [En Et Eo Eb]. split.
  - intros id id' i i' n b b'. apply Eo.
  - intros n e He. split; [by apply Eb|]. intros (id & i & b & Hi).
    destruct (Et _ _ _ _ Hi) as (e' & ? & ?). congruence.
Qed.

(** C31: as long as no run has two turns in flight, a thread has at most one
    live turn: every turn the pool still owns holds its thread's writer lock,
    and two of them on one thread are the same call, whatever evictions,
    resumes, releases, cancels and clears happen meanwhile. *)
Theorem one_writer_per_thread evs s max
  (Hone : throughout one_turn_per_run evs (initial s max)) :
  let p := run evs (initial s max) in
  (forall id i n b, live p id i n b ->
     activeThreadWriters p !! Store.threadId b = Some (t_runId i)) /\
  (forall id id' i i' n n' b b', live p id i n b -> live p id' i' n' b' ->
     Store.threadId b = Store.threadId b' -> id = id').
Proof.
  assert (Hl0 : locked (initial s max)).
  { intros id i n b [Hi _]. unfold turn_of in Hi. cbn in Hi. by rewrite lookup_empty in Hi. }
  destruct (run_locked evs _ (exclusive_initial s max) Hl0 Hone) as [Hl Hend].
  split; [exact Hl|]. intros id id' i i' n n' b b' Hi Hi' Hb.
  pose proof (Hl _ _ _ _ Hi) as H1. pose proof (Hl _ _ _ _ Hi') as H2. rewrite Hb, H2 in H1.
  injection H1 as Hr. destruct Hi as [Hi _], Hi' as [Hi' _].
  by apply (Hend id id' i i' n n' b b').
Qed.
End Pool.

(** ** Concrete runs *)

Definition root : jstr := js "/".
Definition ts0 : jstr := js "t0".
Definition empty_store : Store.Store :=
  {| Store.bindings := []; Store.initialized := true; Store.writeQueue := [] |}.
Definition turn_input (r : string) : TurnInput :=
  {| t_runId := js r; t_workspaceId := js "ws"; t_cwd := js "/w"; t_prompt := js "go";
     t_skillRoots := None; t_skills := None |}.
Definition settles (id : nat) (os : list outcome) : list event := map (Settle id ts0) os.

(** A first turn of run [r] up to its running phase, on a new thread [t]. *)
Definition first_turn (id : nat) (r t : string) : list event :=
  Call id ts0 (RunTurn (turn_input r))
  :: settles id [Void; Attached (Some (js t)); Void; Void; Catalog []].

Definition one_turn : Pool := run root (first_turn 0 "r1" "th1") (initial empty_store 4).

(** Two first turns that overlap both find room in a pool of one: nothing is
    reserved between [makeCapacity] and [runtimes.set]. *)
Example capacity_race :
  let p := run root
    [Call 0 ts0 (RunTurn (turn_input "r1")); Call 1 ts0 (RunTurn (turn_input "r2"));
     Settle 0 ts0 Void; Settle 1 ts0 Void;
     Settle 0 ts0 (Attached (Some (js "th1"))); Settle 1 ts0 (Attached (Some (js "th2")));
     Settle 0 ts0 Void; Settle 1 ts0 Void] (initial empty_store 1) in
  length (runtimes p) = 2%nat /\ maxRuntimes p = 1.
Proof. vm_compute. done. Qed.

(** A cancelled turn that ends late releases the lock of the run's next turn:
    the lock records the run, not the turn. *)
Definition cancelled_and_rerun : list event :=
  first_turn 0 "r1" "th1" ++ [Call 1 ts0 (Cancel (js "r1"))]
  ++ Call 2 ts0 (RunTurn (turn_input "r1"))
     :: settles 2 [Void; Void; Void; Attached (Some (js "th1")); Void; Catalog []]
  ++ [Settle 0 ts0 (Threw (Error (js "closed")))].
Definition second_writer : list event :=
  Call 3 ts0 (ResumeConversation {| r_runId := js "r2"; r_workspaceId := js "ws2";
                                    r_cwd := js "/w"; r_threadId := js "th1" |})
  :: Call 4 ts0 (RunTurn {| t_runId := js "r2"; t_workspaceId := js "ws2"; t_cwd := js "/w";
                            t_prompt := js "go"; t_skillRoots := None; t_skills := None |})
     :: settles 4 [Void; Void; Void; Attached (Some (js "th1")); Void].
Example stale_release_admits_second_writer :
  let p := run root (cancelled_and_rerun ++ second_writer) (initial empty_store 4) in
  exists i n b i' n' b', live p 2 i n b /\ live p 4 i' n' b' /\ Store.threadId b = Store.threadId b'.
Proof. vm_compute. by repeat eexists. Qed.

Lemma one_call_one_turn k p :
  forallb (fun kv => Nat.eqb kv.1 k) (map_to_list (tasks p)) = true -> one_turn_per_run p.
Proof.
  intros H id id' i i' n n' b b' Hi Hi' _.
  assert (Hk : forall x y, turn_of p x = Some y -> x = k).
  { intros x y Hx. unfold turn_of in Hx. destruct (tasks p !! x) as [c|] eqn:E; [|done].
    apply elem_of_map_to_list, list_elem_of_In in E. rewrite forallb_forall in H.
    by apply (H _), Nat.eqb_eq in E. }
  by rewrite (Hk _ _ Hi), (Hk _ _ Hi').
Qed.

Lemma one_writer_per_thread_witness :
  exists i n b, live one_turn 0 i n b /\
    activeThreadWriters one_turn !! Store.threadId b = Some (t_runId i).
Proof.
  destruct (one_writer_per_thread root (first_turn 0 "r1" "th1") empty_store 4) as [Hl _].
  - repeat split; apply (one_call_one_turn 0); vm_compute; reflexivity.
  - assert (Hlive : exists i n b, live one_turn 0 i n b) by (vm_compute; by repeat eexists).
    destruct Hlive as (i & n & b & Hlive). exists i, n, b. split; [exact Hlive|]. exact (Hl _ _ _ _ Hlive).
Defined.

End CodexRuntimePool.
