(* ===== verification/BrowserCommands.v ===== *)
(** * The journal of browser commands

    [desktop/src/main/browser-command-state.ts]: which browser commands were
    sent for which task, which ChatGPT project a workspace is bound to and
    which provider conversation continues a logical one. Every method loads
    the file, changes the journal and writes it back; the methods are split
    at that [await]. The URL parser and [Date.now] are arguments. A field that
    [isSnapshot] does not check is kept as the value it is. *)

From S2P Require Import Prelude JsValue JsMap JsonCodec Validate.

Module BrowserCommands.

Definition MAX_COMMANDS : nat := 128.

Inductive BrowserCommandStage :=
| queued | inserted | clicked | accepted | streaming | stable | failed | cancelled.
#[global] Instance BrowserCommandStage_eq_dec : EqDecision BrowserCommandStage.
Proof. solve_decision. Defined.
Definition stages : list (string * BrowserCommandStage) :=
  [("queued", queued); ("inserted", inserted); ("clicked", clicked); ("accepted", accepted);
   ("streaming", streaming); ("stable", stable); ("failed", failed); ("cancelled", cancelled)].
Definition stage_name (s : BrowserCommandStage) : string :=
  match s with
  | queued => "queued" | inserted => "inserted" | clicked => "clicked" | accepted => "accepted"
  | streaming => "streaming" | stable => "stable" | failed => "failed" | cancelled => "cancelled"
  end.

Record BrowserCommandSnapshot := {
  commandId : jstr; taskId : jstr; runId : jstr; workspace : jstr; stage : BrowserCommandStage;
  epoch : Z; providerFrontendId : jstr;
  providerConversationId : value;        (* unchecked: [VUndefined] when absent *)
  logicalConversationId : option jstr;
  providerTurnId : value;
  createdAt : Z; updatedAt : Z;
  error : value }.

Record ChatGptWorkspaceProjectBinding := {
  p_workspace : jstr; projectName : jstr; p_projectId : jstr; projectUrl : jstr; p_updatedAt : Z }.
Record ChatGptConversationBinding := {
  c_workspace : jstr; c_projectId : jstr; c_logical : jstr; c_provider : value; c_updatedAt : Z }.

Record BrowserCommandJournal := {
  commands : list BrowserCommandSnapshot;
  projects : list ChatGptWorkspaceProjectBinding;
  conversations : list ChatGptConversationBinding }.
Definition emptyJournal : BrowserCommandJournal :=
  {| commands := []; projects := []; conversations := [] |}.

(** The part of a [ProviderFrontendBinding] that [record] reads *)
Record FrontendBinding := {
  src_runId : jstr; src_workspace : jstr; fe_epoch : Z; documentId : jstr;
  conversationId : option jstr; turnId : option jstr }.

Definition opt_string (o : option jstr) : value := match o with Some s => VString s | None => VUndefined end.
(** [...(s ? { key: s } : {})] *)
Definition if_truthy (o : option jstr) : option jstr := if truthy_opt o then o else None.

Definition bounded (v : jstr) (label : string) : result jstr :=
  if (slen v <? 1) || (128 <? slen v) || has_control v then fail (label +:+ " is invalid") else Ok v.
Definition boundText (v : jstr) (maxBytes : Z) : jstr := chop_to_bytes (length v) v maxBytes.
Definition boundedProjectName (v : jstr) : result jstr :=
  let clean := trim v in
  if negb (truthy clean) || (128 <? slen clean) || has_control clean
  then fail "ChatGPT project name is invalid" else Ok clean.

(** [array.slice(-n)] *)
Definition slice_tail {A} (n : nat) (l : list A) : list A := drop (length l - n) l.

Definition find_project (ps : list ChatGptWorkspaceProjectBinding) (ws : jstr)
  : option ChatGptWorkspaceProjectBinding := List.find (fun p => bool_decide (p_workspace p = ws)) ps.
Definition same_conversation (ws logical : jstr) (c : ChatGptConversationBinding) : bool :=
  bool_decide (c_workspace c = ws) && bool_decide (c_logical c = logical).

(** ** The journal's operations, between the load and the save *)

Definition next_snapshot (existing : option BrowserCommandSnapshot) (cid tid : jstr)
    (binding : FrontendBinding) (input_stage : BrowserCommandStage) (logical err : option jstr) (now : Z)
  : BrowserCommandSnapshot :=
  {| commandId := cid; taskId := tid; runId := src_runId binding; workspace := src_workspace binding;
     stage := input_stage; epoch := fe_epoch binding; providerFrontendId := documentId binding;
     providerConversationId := opt_string (if_truthy (conversationId binding));
     logicalConversationId :=
       if truthy_opt logical then logical
       else if_truthy (e ← existing; logicalConversationId e);
     providerTurnId := opt_string (if_truthy (turnId binding));
     createdAt := match existing with Some e => createdAt e | None => now end;
     updatedAt := now;
     error := match if_truthy err with Some e => VString (boundText e 1024) | None => VUndefined end |}.

Definition record_conversation (next : BrowserCommandSnapshot) (now : Z) (j : BrowserCommandJournal)
  : list ChatGptConversationBinding :=
  match logicalConversationId next, find_project (projects j) (workspace next) with
  | Some l, Some p =>
      if truthy l && truthy_value (providerConversationId next) then
        filter (fun c => same_conversation (workspace next) l c = false) (conversations j)
        ++ [{| c_workspace := workspace next; c_projectId := p_projectId p; c_logical := l;
               c_provider := providerConversationId next; c_updatedAt := now |}]
      else conversations j
  | _, _ => conversations j
  end.

Definition record (input_commandId input_taskId : jstr) (binding : FrontendBinding)
    (input_stage : BrowserCommandStage) (logical err : option jstr) (now : Z)
    (j : BrowserCommandJournal) : result (BrowserCommandSnapshot * BrowserCommandJournal) :=
  let existing := List.find (fun c => bool_decide (commandId c = input_commandId)) (commands j) in
  cid ← bounded input_commandId "browser command id";
  tid ← bounded input_taskId "browser command task id";
  let next := next_snapshot existing cid tid binding input_stage logical err now in
  let kept := filter (fun c => commandId c <> input_commandId) (commands j) ++ [next] in
  Ok (next, {| commands := slice_tail MAX_COMMANDS kept; projects := projects j;
               conversations := record_conversation next now j |}).

Definition latestProviderConversationId (ws logical : jstr) (j : BrowserCommandJournal) : option value :=
  p ← find_project (projects j) ws;
  c ← List.find (fun c => bool_decide (c_workspace c = ws) && bool_decide (c_projectId c = p_projectId p)
                          && bool_decide (c_logical c = logical)) (conversations j);
  Some (c_provider c).

(** [None]: nothing to clear, so nothing is saved *)
Definition clearProviderConversation (ws logical : jstr) (j : BrowserCommandJournal)
  : option BrowserCommandJournal :=
  let next := filter (fun c => same_conversation ws logical c = false) (conversations j) in
  if Nat.eqb (length next) (length (conversations j)) then None
  else Some {| commands := commands j; projects := projects j; conversations := next |}.

Definition workspaceProject (ws : jstr) (j : BrowserCommandJournal)
  : option ChatGptWorkspaceProjectBinding := find_project (projects j) ws.

Definition clearWorkspaceProject (ws : jstr) (j : BrowserCommandJournal) : option BrowserCommandJournal :=
  let next := filter (fun p => p_workspace p <> ws) (projects j) in
  if Nat.eqb (length next) (length (projects j)) then None
  else Some {| commands := commands j; projects := next; conversations := conversations j |}.

(** What the code reads of a parsed URL; [bare] is [toString()] after the hash
    and the search were emptied. *)
Record Url := { protocol : jstr; hostname : jstr; pathname : jstr; href : jstr; bare : jstr }.

Definition lower (u : N) : N := if ((65 <=? u) && (u <=? 90))%N then (u + 32)%N else u.
Definition project_id_char (u : N) : bool :=
  (((48 <=? u) && (u <=? 57)) || ((65 <=? u) && (u <=? 90)) || ((97 <=? u) && (u <=? 122))
   || (u =? 95) || (u =? 45))%N.
(** [/^g-p-[A-Za-z0-9_-]+$/] *)
Definition is_project_segment (s : jstr) : bool :=
  starts_with s (js "g-p-") && (4 <? slen s) && forallb project_id_char (slice_from 4 s).
(** [value.replace(/\/$/, "")] *)
Definition strip_slash (s : jstr) : jstr :=
  match reverse s with u :: r => if (u =? 47)%N then reverse r else s | [] => [] end.

Section Urls.
Context (parse_url : jstr -> option Url).

Definition isChatGptProjectUrl (v : jstr) : bool :=
  match parse_url v with
  | Some url =>
      bool_decide (protocol url = js "https:") && bool_decide (hostname url = js "chatgpt.com")
      && negb (starts_with (pathname url) (js "/c/"))
      && (includes (map lower (pathname url)) (js "project")
          || includes (map lower (pathname url)) (js "g-p-"))
  | None => false
  end.

Definition normalizeChatGptProjectUrl (v : jstr) : result jstr :=
  match parse_url v with
  | None => fail "Invalid URL"
  | Some url =>
      if negb (bool_decide (protocol url = js "https:")) || negb (bool_decide (hostname url = js "chatgpt.com"))
         || negb (isChatGptProjectUrl (href url))
      then fail "ChatGPT project URL is invalid"
      else Ok (strip_slash (bare url))
  end.

Definition chatGptProjectId (v : jstr) : result jstr :=
  match parse_url v with
  | None => fail "Invalid URL"
  | Some url => match List.find is_project_segment (split_char 47 (pathname url)) with
                | Some s => Ok s
                | None => fail "ChatGPT project URL does not contain a project id"
                end
  end.

(** [recordWorkspaceProject]: the input is checked before the journal is loaded. *)
Definition project_binding (ws name url : jstr) (now : Z) : result ChatGptWorkspaceProjectBinding :=
  u ← normalizeChatGptProjectUrl url;
  w ← bounded ws "workspace";
  n ← boundedProjectName name;
  i ← chatGptProjectId u;
  Ok {| p_workspace := w; projectName := n; p_projectId := i; projectUrl := u; p_updatedAt := now |}.
Definition bind_project (b : ChatGptWorkspaceProjectBinding) (j : BrowserCommandJournal)
  : BrowserCommandJournal :=
  let previous := find_project (projects j) (p_workspace b) in
  {| commands := commands j;
     projects := filter (fun p => p_workspace p <> p_workspace b) (projects j) ++ [b];
     conversations :=
       match previous with
       | Some p => if bool_decide (p_projectId p <> p_projectId b)
                   then filter (fun c => c_workspace c <> p_workspace b \/ c_projectId c = p_projectId b)
                          (conversations j)
                   else conversations j
       | None => conversations j
       end |}.
Definition recordWorkspaceProject (ws name url : jstr) (now : Z) (j : BrowserCommandJournal)
  : result (ChatGptWorkspaceProjectBinding * BrowserCommandJournal) :=
  b ← project_binding ws name url now; Ok (b, bind_project b j).

(** ** The file *)

Definition optional_string (v : value) : option (option jstr) :=
  match v with VUndefined => Some None | VString s => Some (Some s) | _ => None end.
Definition get_string (v : value) : option jstr := match v with VString s => Some s | _ => None end.
Definition get_integer (v : value) : option Z := match v with VNumber n => safe_integer n | _ => None end.
Definition isStage (v : value) : option BrowserCommandStage :=
  match v with VString s => enum_lookup stages s | _ => None end.

(** [isSnapshot], with the snapshot the value then is *)
Definition isSnapshot (v : value) : option BrowserCommandSnapshot :=
  r ← is_record v;
  let get key := field r (js key) in
  cid ← get_string (get "commandId");
  tid ← get_string (get "taskId");
  run ← get_string (get "runId");
  ws ← get_string (get "workspace");
  st ← isStage (get "stage");
  ep ← get_integer (get "epoch");
  fid ← get_string (get "providerFrontendId");
  logical ← optional_string (get "logicalConversationId");
  created ← get_integer (get "createdAt");
  updated ← get_integer (get "updatedAt");
  Some {| commandId := cid; taskId := tid; runId := run; workspace := ws; stage := st; epoch := ep;
          providerFrontendId := fid; providerConversationId := get "providerConversationId";
          logicalConversationId := logical; providerTurnId := get "providerTurnId";
          createdAt := created; updatedAt := updated; error := get "error" |}.

(** [normalizeWorkspaceProjectBinding]: [Ok None] drops the entry, a throw is
    caught by [load]. *)
Definition normalizeWorkspaceProjectBinding (v : value) : result (option ChatGptWorkspaceProjectBinding) :=
  match is_record v with
  | None => Ok None
  | Some r =>
      match get_string (field r (js "workspace")), get_string (field r (js "projectName")),
            get_string (field r (js "projectUrl")), get_integer (field r (js "updatedAt")) with
      | Some ws, Some name, Some url, Some updated =>
          if negb (isChatGptProjectUrl url) then Ok None
          else
            u ← normalizeChatGptProjectUrl url;
            i ← match get_string (field r (js "projectId")) with
                | Some i => if truthy i then Ok i else chatGptProjectId u
                | None => chatGptProjectId u
                end;
            Ok (Some {| p_workspace := ws; projectName := name; p_projectId := i; projectUrl := u;
                        p_updatedAt := updated |})
      | _, _, _, _ => Ok None
      end
  end.

Definition normalizeConversationBinding (ps : list ChatGptWorkspaceProjectBinding) (v : value)
  : option ChatGptConversationBinding :=
  r ← is_record v;
  ws ← get_string (field r (js "workspace"));
  logical ← get_string (field r (js "logicalConversationId"));
  provider ← get_string (field r (js "providerConversationId"));
  updated ← get_integer (field r (js "updatedAt"));
  let of_project := p ← find_project ps ws; Some (p_projectId p) in
  projectId ← match get_string (field r (js "projectId")) with
              | Some i => if truthy i then Some i else of_project
              | None => of_project
              end;
  if negb (truthy projectId) then None
  else Some {| c_workspace := ws; c_projectId := projectId; c_logical := logical;
               c_provider := VString provider; c_updatedAt := updated |}.

(** [deriveConversationBindings], for journals older than version 3 *)
Definition derive_step (ps : list ChatGptWorkspaceProjectBinding)
    (m : list (jstr * ChatGptConversationBinding)) (c : BrowserCommandSnapshot)
  : list (jstr * ChatGptConversationBinding) :=
  match logicalConversationId c, find_project ps (workspace c) with
  | Some l, Some p =>
      if truthy l && truthy_value (providerConversationId c) then
        let key := workspace c ++ [0%N] ++ l in
        let binding := {| c_workspace := workspace c; c_projectId := p_projectId p; c_logical := l;
                          c_provider := providerConversationId c; c_updatedAt := updatedAt c |} in
        match map_get m key with
        | Some existing => if c_updatedAt existing <=? updatedAt c then map_set m key binding else m
        | None => map_set m key binding
        end
      else m
  | _, _ => m
  end.
Definition deriveConversationBindings (cs : list BrowserCommandSnapshot)
    (ps : list ChatGptWorkspaceProjectBinding) : list ChatGptConversationBinding :=
  map_values (fold_left (derive_step ps) cs []).

Definition keep_some {A} (l : list (option A)) : list A := omap id l.

(** [load] of what the file parses to; a throw means the empty journal. *)
Definition load_value (v : value) : result BrowserCommandJournal :=
  match is_record v with
  | None => Ok emptyJournal
  | Some r =>
      match get_integer (field r (js "schemaVersion")), field r (js "commands") with
      | Some version, VArray cs =>
          if negb (bool_decide (version ∈ [1; 2; 3; 4])) then Ok emptyJournal
          else
            let commands := slice_tail MAX_COMMANDS (omap isSnapshot cs) in
            projects ← match field r (js "projects") with
                       | VArray ps => keep_some <$> map_result normalizeWorkspaceProjectBinding ps
                       | _ => Ok []
                       end;
            Ok {| commands := commands; projects := projects;
                  conversations :=
                    match field r (js "conversations") with
                    | VArray l => if 3 <=? version then omap (normalizeConversationBinding projects) l
                                  else deriveConversationBindings commands projects
                    | _ => deriveConversationBindings commands projects
                    end |}
      | _, _ => Ok emptyJournal
      end
  end.
Definition load (JSON_parse : jstr -> option value) (file : option jstr) : BrowserCommandJournal :=
  match (raw ← file; JSON_parse raw) with
  | None => emptyJournal
  | Some v => match load_value v with Ok j => j | Throw _ => emptyJournal end
  end.

End Urls.

(** The object [save] serializes *)
Definition encode_command (c : BrowserCommandSnapshot) : value := VObject
  ((js "commandId", VString (commandId c)) :: (js "taskId", VString (taskId c))
   :: (js "runId", VString (runId c)) :: (js "workspace", VString (workspace c))
   :: (js "stage", VString (js (stage_name (stage c)))) :: (js "epoch", VInt (epoch c))
   :: (js "providerFrontendId", VString (providerFrontendId c))
   :: opt_field "providerConversationId" (providerConversationId c)
     (opt_field "logicalConversationId" (opt_string (logicalConversationId c))
       (opt_field "providerTurnId" (providerTurnId c)
         ((js "createdAt", VInt (createdAt c)) :: (js "updatedAt", VInt (updatedAt c))
          :: opt_field "error" (error c) [])))).
Definition encode_project (p : ChatGptWorkspaceProjectBinding) : value := VObject
  [(js "workspace", VString (p_workspace p)); (js "projectName", VString (projectName p));
   (js "projectId", VString (p_projectId p)); (js "projectUrl", VString (projectUrl p));
   (js "updatedAt", VInt (p_updatedAt p))].
Definition encode_conversation (c : ChatGptConversationBinding) : value := VObject
  [(js "workspace", VString (c_workspace c)); (js "projectId", VString (c_projectId c));
   (js "logicalConversationId", VString (c_logical c)); (js "providerConversationId", c_provider c);
   (js "updatedAt", VInt (c_updatedAt c))].
Definition journal_value (j : BrowserCommandJournal) : value := VObject
  [(js "schemaVersion", VInt 4); (js "commands", VArray (map encode_command (commands j)));
   (js "projects", VArray (map encode_project (projects j)));
   (js "conversations", VArray (map encode_conversation (conversations j)))].
(** [`${JSON.stringify(journal, null, 2)}\n`] *)
Definition save (JSON_stringify : value -> jstr) (j : BrowserCommandJournal) : jstr :=
  JSON_stringify (journal_value j) ++ [10%N].

(** ** The journal's invariant *)

Definition safe (z : Z) : Prop := MIN_SAFE_INTEGER <= z <= MAX_SAFE_INTEGER.
(** A field that is kept unchecked is a string or absent. *)
Definition optional_text (v : value) : Prop := v = VUndefined \/ exists s, v = VString s.
Definition command_ok (c : BrowserCommandSnapshot) : Prop :=
  (safe (epoch c) /\ safe (createdAt c) /\ safe (updatedAt c)) /\
  optional_text (providerConversationId c) /\ optional_text (providerTurnId c) /\ optional_text (error c).
(** The path of a ChatGPT project *)
Definition project_path (path : jstr) : Prop :=
  starts_with path (js "/c/") = false /\
  (includes (map lower path) (js "project") = true \/ includes (map lower path) (js "g-p-") = true).
(** The stored URL is the text of an [https:] URL of [chatgpt.com], without
    search and hash, whose path is a project's. *)
Definition project_ok (parse_url : jstr -> option Url) (p : ChatGptWorkspaceProjectBinding) : Prop :=
  (exists u, parse_url (projectUrl p) = Some u /\ protocol u = js "https:" /\ hostname u = js "chatgpt.com" /\
     project_path (pathname u) /\ href u = projectUrl p /\ bare u = projectUrl p) /\
  p_projectId p <> [] /\ safe (p_updatedAt p).
Definition conversation_ok (c : ChatGptConversationBinding) : Prop :=
  c_projectId c <> [] /\ safe (c_updatedAt c) /\ exists s, c_provider c = VString s.
Definition conversation_key (c : ChatGptConversationBinding) : jstr * jstr := (c_workspace c, c_logical c).

(** At most 128 commands, one per id; one project per workspace; one provider
    conversation per logical one; every entry survives [load]. *)
Record journal_ok (parse_url : jstr -> option Url) (j : BrowserCommandJournal) : Prop := {
  ok_size : (length (commands j) <= MAX_COMMANDS)%nat;
  ok_ids : NoDup (map commandId (commands j));
  ok_commands : Forall command_ok (commands j);
  ok_workspaces : NoDup (map p_workspace (projects j));
  ok_projects : Forall (project_ok parse_url) (projects j);
  ok_keys : NoDup (map conversation_key (conversations j));
  ok_conversations : Forall conversation_ok (conversations j) }.

(** What the code relies on of [URL], for [https:] URLs: the text of a URL
    parses to that URL, and the text without search and hash, less a slash at
    its end, to the URL with that slash taken off its path - unless the slash
    is the whole path. *)
Definition less_slash (u : Url) : Url :=
  {| protocol := protocol u; hostname := hostname u; pathname := strip_slash (pathname u);
     href := strip_slash (bare u); bare := strip_slash (bare u) |}.
Record url_laws (parse_url : jstr -> option Url) : Prop := {
  href_parses v u : parse_url v = Some u -> protocol u = js "https:" -> parse_url (href u) = Some u;
  stripped_parses v u : parse_url v = Some u -> protocol u = js "https:" -> pathname u <> [47%N] ->
    parse_url (strip_slash (bare u)) = Some (less_slash u) }.

Lemma strip_slash_cases s : strip_slash s = s \/ s = strip_slash s ++ [47%N].
Proof.
  unfold strip_slash. destruct (reverse s) as [|u r] eqn:E.
  - left. apply (f_equal reverse) in E. by rewrite reverse_involutive in E.
  - destruct (N.eqb_spec u 47) as [->|]; [right|by left].
    apply (f_equal reverse) in E. by rewrite reverse_involutive, reverse_cons in E.
Qed.
Lemma includes_less_slash s pat x : last pat = Some x -> x <> 47%N ->
  includes (map lower s) pat = true -> includes (map lower (strip_slash s)) pat = true.
Proof.
  intros Hl Hx. destruct (strip_slash_cases s) as [->|E]; [done|]. rewrite E at 1. rewrite map_app, !includes_spec.
  change (map lower [47%N]) with [47%N].
  intros (a & b & H). destruct b as [|y b _] using rev_ind.
  - rewrite app_nil_r in H. apply (f_equal last) in H. rewrite last_snoc, last_app, Hl in H. by injection H as <-.
  - rewrite !app_assoc in H. apply app_inj_tail in H as [H _]. rewrite <- app_assoc in H. by exists a, b.
Qed.
Lemma project_path_less_slash path : project_path path -> project_path (strip_slash path) /\ path <> [47%N].
Proof.
  intros [Hc Hp]. split; [split|].
  - apply not_true_iff_false in Hc. apply not_true_iff_false. intros (t & Ht)%starts_with_spec. apply Hc, starts_with_spec.
    destruct (strip_slash_cases path) as [<-|E]; [by exists t|]. exists (t ++ [47%N]). by rewrite E, Ht, <- app_assoc.
  - destruct Hp as [Hp|Hp]; [left|right]; eapply includes_less_slash; try exact Hp; try reflexivity; done.
  - intros ->. by destruct Hp.
Qed.

Section Normal.
Context (parse_url : jstr -> option Url) (laws : url_laws parse_url).

Lemma isChatGptProjectUrl_path v u : parse_url v = Some u -> protocol u = js "https:" -> hostname u = js "chatgpt.com" ->
  isChatGptProjectUrl parse_url v = true <-> project_path (pathname u).
Proof.
  intros Hv Hp Hh. unfold isChatGptProjectUrl, project_path. rewrite Hv, !bool_decide_true by done.
  cbn [andb]. by rewrite andb_true_iff, negb_true_iff, orb_true_iff.
Qed.
Lemma normalizeChatGptProjectUrl_spec v n : normalizeChatGptProjectUrl parse_url v = Ok n ->
  exists u, parse_url v = Some u /\ protocol u = js "https:" /\ hostname u = js "chatgpt.com" /\
    project_path (pathname u) /\ n = strip_slash (bare u).
Proof.
  unfold normalizeChatGptProjectUrl. destruct (parse_url v) as [u|] eqn:E; [|done]. destruct (_ || _) eqn:Eb; [done|].
  intros [= <-]. rewrite !orb_false_iff, !negb_false_iff, !bool_decide_eq_true in Eb. destruct Eb as [[Hp Hh] Hi].
  exists u. split_and!; [done..| |done]. eapply isChatGptProjectUrl_path; [by eapply (href_parses _ laws)|done..].
Qed.
Lemma normalize_stored p : project_ok parse_url p ->
  isChatGptProjectUrl parse_url (projectUrl p) = true /\
  normalizeChatGptProjectUrl parse_url (projectUrl p) = Ok (strip_slash (projectUrl p)).
Proof.
  intros [(u & Hu & Hp & Hh & Hpath & Hr & Hb) _]. assert (Hi := proj2 (isChatGptProjectUrl_path _ _ Hu Hp Hh) Hpath).
  split; [done|]. unfold normalizeChatGptProjectUrl. rewrite Hu, Hr, Hi, !bool_decide_true by done. cbn. by rewrite Hb.
Qed.
(** What is stored can be stored again, less a slash. *)
Definition less_slash_project (p : ChatGptWorkspaceProjectBinding) : ChatGptWorkspaceProjectBinding :=
  {| p_workspace := p_workspace p; projectName := projectName p; p_projectId := p_projectId p;
     projectUrl := strip_slash (projectUrl p); p_updatedAt := p_updatedAt p |}.
Lemma stripped_url_ok v u : parse_url v = Some u -> protocol u = js "https:" -> hostname u = js "chatgpt.com" ->
  project_path (pathname u) -> exists u', parse_url (strip_slash (bare u)) = Some u' /\ protocol u' = js "https:" /\
  hostname u' = js "chatgpt.com" /\ project_path (pathname u') /\ href u' = strip_slash (bare u) /\ bare u' = strip_slash (bare u).
Proof.
  intros Hv Hp Hh Hpath. destruct (project_path_less_slash _ Hpath) as [Hs Hne]. exists (less_slash u).
  split; [by eapply (stripped_parses _ laws)|done].
Qed.
Lemma less_slash_project_ok p : project_ok parse_url p -> project_ok parse_url (less_slash_project p).
Proof.
  intros [(u & Hu & Hp & Hh & Hpath & Hr & Hb) H]. split; [|exact H]. cbn [less_slash_project projectUrl].
  rewrite <- Hb. by eapply stripped_url_ok.
Qed.
End Normal.

Lemma get_integer_VInt z : safe z -> get_integer (VInt z) = Some z.
Proof.
  intros [? ?]. unfold get_integer, VInt, safe_integer.
  by rewrite !(proj2 (Z.leb_le _ _)) by done.
Qed.
Lemma isStage_name s : isStage (VString (js (stage_name s))) = Some s.
Proof. by destruct s. Qed.
Lemma optional_string_opt o : optional_string (opt_string o) = Some o.
Proof. by destruct o. Qed.

Lemma isSnapshot_encode c : command_ok c -> isSnapshot (encode_command c) = Some c.
Proof.
  intros [(He & Hc & Hu) _]. unfold isSnapshot, encode_command. simpl is_record. cbv zeta.
  cbn [mbind option_bind]. read_opt_fields.
  rewrite isStage_name, optional_string_opt, !get_integer_VInt by done. by destruct c.
Qed.

Lemma normalize_encode_project parse_url p : project_ok parse_url p ->
  normalizeWorkspaceProjectBinding parse_url (encode_project p) = Ok (Some (less_slash_project p)).
Proof.
  intros Hp. destruct (normalize_stored _ p Hp) as [Hu Hn]. destruct Hp as (_ & Hi & Ht).
  unfold normalizeWorkspaceProjectBinding, encode_project. simpl is_record. cbv beta iota.
  read_fields. cbn [get_string]. rewrite get_integer_VInt, Hu by done. cbn [negb].
  by rewrite Hn, (proj2 (truthy_true _) Hi).
Qed.

Lemma normalize_encode_conversation ps c : conversation_ok c ->
  normalizeConversationBinding ps (encode_conversation c) = Some c.
Proof.
  intros (Hi & Ht & s & Hs). unfold normalizeConversationBinding, encode_conversation. simpl is_record.
  cbn [mbind option_bind]. read_fields. cbn [get_string]. rewrite get_integer_VInt, Hs by done.
  cbn. rewrite !(proj2 (truthy_true _) Hi). cbn. rewrite (proj2 (truthy_true _) Hi), <- Hs. by destruct c.
Qed.

Lemma omap_map_some {A B} (f : B -> option A) (g : A -> B) l :
  Forall (fun x => f (g x) = Some x) l -> omap f (map g l) = l.
Proof.
  induction 1 as [|x l Hx _ IH]; [done|]. change (map g (x :: l)) with (g x :: map g l).
  cbn [omap list_omap]. rewrite Hx. by f_equal.
Qed.

Lemma slice_tail_all {A} n (l : list A) : (length l <= n)%nat -> slice_tail n l = l.
Proof. intros H. unfold slice_tail. by replace (length l - n)%nat with 0%nat by lia. Qed.

(** A journal is read back with one more slash taken off its project URLs. *)
Definition read_back (j : BrowserCommandJournal) : BrowserCommandJournal :=
  {| commands := commands j; projects := map less_slash_project (projects j); conversations := conversations j |}.
Lemma load_journal_value parse_url j : journal_ok parse_url j ->
  load_value parse_url (journal_value j) = Ok (read_back j).
Proof.
  intros [Hs _ Hc _ Hp _ Hv]. unfold load_value, journal_value. simpl is_record. cbv beta iota. read_fields.
  rewrite get_integer_VInt by (by split). cbn [negb]. rewrite bool_decide_eq_true_2 by set_solver.
  cbn [negb]. rewrite (map_result_map _ _ (fun p => Some (less_slash_project p))).
  2:{ intros p Hin. apply normalize_encode_project. by apply (proj1 (Forall_forall _ _) Hp). }
  cbn [fmap result_fmap mbind result_bind]. unfold keep_some. change (3 <=? 4) with true. cbv iota.
  rewrite <- (map_map less_slash_project Some).
  rewrite !omap_map_some; [|eapply Forall_impl; [exact Hv|]; intros c; apply normalize_encode_conversation
    |by apply Forall_true|eapply Forall_impl; [exact Hc|]; apply isSnapshot_encode].
  by rewrite slice_tail_all.
Qed.
Lemma read_back_ok parse_url j : url_laws parse_url -> journal_ok parse_url j -> journal_ok parse_url (read_back j).
Proof.
  intros laws [Hs Hi Hc Hw Hp Hk Hv]. constructor; cbn [read_back commands projects conversations]; try done.
  - by rewrite map_map.
  - apply Forall_map. eapply Forall_impl; [exact Hp|]. intros p. by apply less_slash_project_ok.
Qed.

(** ** Every operation keeps the invariant *)

Lemma slice_tail_length {A} n (l : list A) : (length (slice_tail n l) <= n)%nat.
Proof. unfold slice_tail. rewrite length_drop. lia. Qed.
Lemma slice_tail_Forall {A} (P : A -> Prop) n l : Forall P l -> Forall P (slice_tail n l).
Proof. apply Forall_drop. Qed.
Lemma slice_tail_NoDup_map {A B} (f : A -> B) n l : NoDup (map f l) -> NoDup (map f (slice_tail n l)).
Proof. intros H. eapply sublist_NoDup; [exact H|]. apply fmap_sublist, sublist_drop. Qed.

(** Replacing the entries of a key by one new entry at the end *)
Lemma replace_NoDup {A B} (f : A -> B) (P : A -> Prop) `{forall x, Decision (P x)} l x :
  NoDup (map f l) -> (forall y, P y -> f y <> f x) -> NoDup (map f (filter P l ++ [x])).
Proof.
  intros Hl HP. rewrite map_app. apply NoDup_app. split_and!.
  - eapply sublist_NoDup; [exact Hl|]. apply fmap_sublist, sublist_filter.
  - intros k Hk ->%list_elem_of_singleton. apply list_elem_of_fmap in Hk as (y & Hy & Hin).
    apply list_elem_of_filter in Hin as [HPy _]. by apply (HP y).
  - apply NoDup_singleton.
Qed.
Lemma replace_Forall {A} (Q P : A -> Prop) `{forall x, Decision (P x)} l x :
  Forall Q l -> Q x -> Forall Q (filter P l ++ [x]).
Proof.
  intros Hl Hx. apply Forall_app. split; [|by constructor]. apply Forall_forall.
  intros y [_ Hy]%list_elem_of_filter. by apply (proj1 (Forall_forall _ _) Hl).
Qed.
Lemma filter_NoDup_map {A B} (f : A -> B) (P : A -> Prop) `{forall x, Decision (P x)} l :
  NoDup (map f l) -> NoDup (map f (filter P l)).
Proof. intros Hl. eapply sublist_NoDup; [exact Hl|]. apply fmap_sublist, sublist_filter. Qed.
Lemma filter_Forall {A} (Q P : A -> Prop) `{forall x, Decision (P x)} l : Forall Q l -> Forall Q (filter P l).
Proof.
  intros Hl. apply Forall_forall. intros y [_ Hy]%list_elem_of_filter.
  by apply (proj1 (Forall_forall _ _) Hl).
Qed.

Lemma same_conversation_key ws l c : same_conversation ws l c = false <-> conversation_key c <> (ws, l).
Proof.
  unfold same_conversation, conversation_key. rewrite andb_false_iff, !bool_decide_eq_false. split.
  - by intros [?|?] [= ? ?].
  - intros H. destruct (decide (c_workspace c = ws)); [|by left]. right. intros <-. by subst.
Qed.
Lemma bounded_Ok v label w : bounded v label = Ok w -> w = v.
Proof. unfold bounded. destruct (_ || _); [done|]. by intros [= ->]. Qed.

Lemma find_project_Some ps ws p : find_project ps ws = Some p -> p ∈ ps /\ p_workspace p = ws.
Proof.
  unfold find_project. intros H. apply find_some in H as [Hin Hw]. to_prop.
  by rewrite list_elem_of_In.
Qed.
Lemma truthy_opt_string o : truthy_value (opt_string (if_truthy o)) = true ->
  exists s, opt_string (if_truthy o) = VString s.
Proof. unfold if_truthy. destruct (truthy_opt o); [|done]. destruct o; [by eexists|done]. Qed.

Section Ops.
Context (parse_url : jstr -> option Url).

Lemma opt_string_text o : optional_text (opt_string o).
Proof. destruct o; [right; by eexists|by left]. Qed.
Lemma next_snapshot_ok existing cid tid fe st logical err now :
  safe (fe_epoch fe) -> safe now -> (forall e, existing = Some e -> command_ok e) ->
  command_ok (next_snapshot existing cid tid fe st logical err now).
Proof.
  intros He Hn H. unfold command_ok. simpl. split_and!; [done| |done|apply opt_string_text..|].
  - destruct existing as [e|]; [|done]. by destruct (H e eq_refl) as [(_ & ? & _) _].
  - destruct (if_truthy err); [right; by eexists|by left].
Qed.

Lemma record_conversation_ok next now j : journal_ok parse_url j -> safe now ->
  (truthy_value (providerConversationId next) = true -> exists s, providerConversationId next = VString s) ->
  NoDup (map conversation_key (record_conversation next now j)) /\
  Forall conversation_ok (record_conversation next now j).
Proof.
  intros [_ _ _ _ Hp Hk Hv] Hn Hs. unfold record_conversation.
  destruct (logicalConversationId next) as [l|]; [|done].
  destruct (find_project _ _) as [p|] eqn:Ep; [|done]. destruct (truthy l && _) eqn:Et; [|done].
  apply find_project_Some in Ep as [Ep _]. to_prop.
  apply (proj1 (Forall_forall _ _) Hp) in Ep as (_ & Hid' & _). split.
  - apply replace_NoDup; [done|]. intros y Hy%same_conversation_key. exact Hy.
  - apply replace_Forall; [done|]. split_and!; [done..|]. by apply Hs.
Qed.

Lemma record_ok cid tid fe st logical err now j next j' :
  journal_ok parse_url j -> safe (fe_epoch fe) -> safe now ->
  record cid tid fe st logical err now j = Ok (next, j') -> journal_ok parse_url j'.
Proof.
  intros Hj Hep Hnow H. pose proof Hj as [Hs Hi Hc Hw Hp Hk Hv]. unfold record in H.
  apply bind_Ok in H as (c' & ->%bounded_Ok & H). apply bind_Ok in H as (t' & _ & H).
  set (nx := next_snapshot _ _ _ _ _ _ _ _) in H. injection H as <- <-.
  destruct (record_conversation_ok nx now j Hj Hnow) as [? ?].
  { apply truthy_opt_string. }
  assert (command_ok nx).
  { apply next_snapshot_ok; [done..|]. intros e [E _]%find_some. apply list_elem_of_In in E.
    by apply (proj1 (Forall_forall _ _) Hc) in E. }
  constructor; cbn [commands projects conversations]; try done.
  - apply slice_tail_length.
  - by apply slice_tail_NoDup_map, replace_NoDup.
  - by apply slice_tail_Forall, replace_Forall.
Qed.

Lemma bind_project_ok b j : journal_ok parse_url j -> project_ok parse_url b ->
  journal_ok parse_url (bind_project b j).
Proof.
  intros [Hs Hi Hc Hw Hp Hk Hv] Hb. constructor; cbn [bind_project commands projects conversations]; try done.
  - by apply replace_NoDup.
  - by apply replace_Forall.
  - destruct (find_project _ _); [|done]. destruct (bool_decide _); [|done]. by apply filter_NoDup_map.
  - destruct (find_project _ _); [|done]. destruct (bool_decide _); [|done]. by apply filter_Forall.
Qed.

Lemma clearProviderConversation_ok ws l j j' : journal_ok parse_url j ->
  clearProviderConversation ws l j = Some j' -> journal_ok parse_url j'.
Proof.
  intros [Hs Hi Hc Hw Hp Hk Hv]. unfold clearProviderConversation. destruct (Nat.eqb _ _); [done|].
  intros [= <-]. constructor; cbn; try done; [by apply filter_NoDup_map | by apply filter_Forall].
Qed.
Lemma clearWorkspaceProject_ok ws j j' : journal_ok parse_url j ->
  clearWorkspaceProject ws j = Some j' -> journal_ok parse_url j'.
Proof.
  intros [Hs Hi Hc Hw Hp Hk Hv]. unfold clearWorkspaceProject. destruct (Nat.eqb _ _); [done|].
  intros [= <-]. constructor; cbn; try done; [by apply filter_NoDup_map | by apply filter_Forall].
Qed.
End Ops.

(** ** A run of the store *)

Inductive journal_op :=
| ORecord (cid tid : jstr) (fe : FrontendBinding) (st : BrowserCommandStage)
    (logical err : option jstr) (now : Z)
| OProject (ws name url : jstr) (now : Z)
| OClearConversation (ws logical : jstr)
| OClearProject (ws : jstr).

Section Runs.
Context (parse_url : jstr -> option Url).

(** The journal a method saves; [None] when it throws or has nothing to change *)
Definition saved (j : BrowserCommandJournal) (op : journal_op) : option BrowserCommandJournal :=
  match op with
  | ORecord cid tid fe st logical err now =>
      match record cid tid fe st logical err now j with Ok (_, j') => Some j' | Throw _ => None end
  | OProject ws name url now =>
      match recordWorkspaceProject parse_url ws name url now j with Ok (_, j') => Some j' | Throw _ => None end
  | OClearConversation ws logical => clearProviderConversation ws logical j
  | OClearProject ws => clearWorkspaceProject ws j
  end.
Definition apply_op (j : BrowserCommandJournal) (op : journal_op) : BrowserCommandJournal := default j (saved j op).
(** One journal kept in memory, the methods called one after another *)
Definition run_ops (ops : list journal_op) : BrowserCommandJournal := fold_left apply_op ops emptyJournal.

(** The file, which every method loads and writes *)
Definition file_op (JSON_parse : jstr -> option value) (JSON_stringify : value -> jstr) (file : option jstr) (op : journal_op)
  : option jstr :=
  match saved (load parse_url JSON_parse file) op with Some j => Some (save JSON_stringify j) | None => file end.
Definition file_after (JSON_parse : jstr -> option value) (JSON_stringify : value -> jstr) (ops : list journal_op) : option jstr :=
  fold_left (file_op JSON_parse JSON_stringify) ops None.

(** Clocks and epochs are safe integers. *)
Definition op_ok (op : journal_op) : Prop :=
  match op with
  | ORecord _ _ fe _ _ _ now => safe (fe_epoch fe) /\ safe now
  | OProject _ _ _ now => safe now
  | _ => True
  end.

(** Two bindings that differ by slashes at the end of the URL *)
Definition same_project (p q : ChatGptWorkspaceProjectBinding) : Prop :=
  p_workspace q = p_workspace p /\ projectName q = projectName p /\ p_projectId q = p_projectId p /\
  p_updatedAt q = p_updatedAt p /\ exists n, projectUrl q = Nat.iter n strip_slash (projectUrl p).
Definition same_journal (j k : BrowserCommandJournal) : Prop :=
  commands k = commands j /\ conversations k = conversations j /\ Forall2 same_project (projects j) (projects k).

Lemma chatGptProjectId_nonempty v i : chatGptProjectId parse_url v = Ok i -> i <> [].
Proof.
  unfold chatGptProjectId. destruct (parse_url v) as [url|]; [|done].
  destruct (List.find _ _) eqn:E; [|done]. intros [= <-] ->. by apply find_some in E as [_ E].
Qed.

Lemma same_project_refl p : same_project p p.
Proof. split_and!; try done. by exists O. Qed.
Lemma same_less_slash p q : same_project p q -> same_project p (less_slash_project q).
Proof. intros (Hw & Hn & Hi & Ht & n & Hu). split_and!; try done. exists (S n). cbn. by rewrite Hu. Qed.
Lemma same_read_back j k : same_journal j k -> same_journal j (read_back k).
Proof.
  intros (Hc & Hv & Hp). split_and!; [done..|]. cbn [read_back projects]. apply Forall2_fmap_r.
  eapply Forall2_impl; [exact Hp|]. apply same_less_slash.
Qed.
Lemma same_journal_exact j k : same_journal j k -> Forall (fun p => last (projectUrl p) <> Some 47%N) (projects j) -> k = j.
Proof.
  intros (Hc & Hv & Hp) Hs. destruct j as [c ps v], k as [c' ps' v']. cbn in *. subst. f_equal.
  induction Hp as [|p q ps ps' Hpq _ IH]; [done|]. apply Forall_cons in Hs as [Hl Hs]. f_equal; [|by apply IH].
  destruct Hpq as (Hw & Hn & Hi & Ht & n & Hu).
  assert (Hfix : strip_slash (projectUrl p) = projectUrl p).
  { destruct (strip_slash_cases (projectUrl p)) as [E|E]; [done|]. rewrite E, last_snoc in Hl. done. }
  assert (Hiter : Nat.iter n strip_slash (projectUrl p) = projectUrl p) by (clear Hu; induction n as [|n IHn]; [done|by rewrite Nat.iter_succ, IHn]).
  rewrite Hiter in Hu. destruct p, q; cbn in *. by subst.
Qed.

Lemma same_find ps qs ws : Forall2 same_project ps qs -> option_Forall2 same_project (find_project ps ws) (find_project qs ws).
Proof.
  unfold find_project. induction 1 as [|p q ps qs Hpq _ IH]; cbn [List.find]; [constructor|].
  destruct Hpq as (Hw & H). rewrite Hw. case_bool_decide; [by constructor|done].
Qed.
Lemma same_filter ps qs ws : Forall2 same_project ps qs ->
  Forall2 same_project (filter (fun p => p_workspace p <> ws) ps) (filter (fun p => p_workspace p <> ws) qs).
Proof.
  induction 1 as [|p q ps qs Hpq H IH]; [constructor|]. pose proof Hpq as (Hw & _). rewrite !filter_cons, Hw.
  case_decide; [by constructor|done].
Qed.

(** What a method does is the same on journals that differ by such slashes. *)
Lemma saved_same j k op : same_journal j k -> option_Forall2 same_journal (saved j op) (saved k op).
Proof.
  intros (Hc & Hv & Hp). destruct j as [cs ps vs], k as [cs' qs vs']. cbn in Hc, Hv, Hp. subst cs' vs'.
  destruct op as [cid tid fe st logical err now|ws name url now|ws l|ws]; cbn [saved].
  - unfold record. cbn [commands]. destruct (bounded cid _); [|constructor]. destruct (bounded tid _); [|constructor].
    cbn [mbind result_bind]. constructor. split_and!; [done| |done]. cbn [conversations]. unfold record_conversation. cbn -[find_project].
    destruct (if truthy_opt logical then _ else _); [|done].
    by destruct (same_find ps qs (src_workspace fe) Hp) as [p q (_ & _ & -> & _)|].
  - unfold recordWorkspaceProject. destruct (project_binding _ _ _ _ _) as [b|]; [|constructor]. cbn [mbind result_bind].
    constructor. split_and!; cbn [bind_project commands projects conversations].
    + done.
    + by destruct (same_find ps qs (p_workspace b) Hp) as [p q (_ & _ & -> & _)|].
    + apply Forall2_app; [by apply same_filter|]. constructor; [apply same_project_refl|constructor].
  - unfold clearProviderConversation. cbn. destruct (Nat.eqb _ _); by constructor.
  - unfold clearWorkspaceProject. cbn. pose proof (same_filter ps qs ws Hp) as Hf.
    rewrite <- (Forall2_length _ _ _ Hf), <- (Forall2_length _ _ _ Hp). destruct (Nat.eqb _ _); by constructor.
Qed.

Section Lawful.
Context (laws : url_laws parse_url).

Lemma project_binding_ok ws name url now b : safe now ->
  project_binding parse_url ws name url now = Ok b -> project_ok parse_url b.
Proof.
  intros Hn H. unfold project_binding in H. apply bind_Ok in H as (u & Eu & H).
  apply bind_Ok in H as (w & _ & H). apply bind_Ok in H as (n & _ & H).
  apply bind_Ok in H as (i & Ei & H). injection H as <-.
  apply (normalizeChatGptProjectUrl_spec _ laws) in Eu as (r & Hr & Hp & Hh & Hpath & ->).
  split_and!; [|by eapply chatGptProjectId_nonempty|done]. by eapply (stripped_url_ok _ laws).
Qed.
Lemma saved_ok j op k : journal_ok parse_url j -> op_ok op -> saved j op = Some k -> journal_ok parse_url k.
Proof.
  intros Hj Ho. destruct op as [cid tid fe st logical err now|ws name url now|ws l|ws]; cbn [saved].
  - destruct (record _ _ _ _ _ _ _ _) as [[next j']|] eqn:E; [|done]. intros [= <-]. destruct Ho. by eapply record_ok.
  - unfold recordWorkspaceProject. destruct (project_binding _ _ _ _ _) as [b|] eqn:E; [|done].
    intros [= <-]. by eapply bind_project_ok, project_binding_ok.
  - by apply clearProviderConversation_ok.
  - by apply clearWorkspaceProject_ok.
Qed.
Lemma emptyJournal_ok : journal_ok parse_url emptyJournal.
Proof. constructor; simpl; try constructor. unfold MAX_COMMANDS. lia. Qed.

Context (JSON_parse : jstr -> option value) (JSON_stringify : value -> jstr).
Hypothesis journals_are_kept : forall j, journal_ok parse_url j ->
  JSON_parse (save JSON_stringify j) = Some (journal_value j).

Lemma load_save j : journal_ok parse_url j -> load parse_url JSON_parse (Some (save JSON_stringify j)) = read_back j.
Proof. intros Hj. unfold load. cbn [mbind option_bind]. by rewrite journals_are_kept, load_journal_value. Qed.

(** The journal in the file follows the one in memory. *)
Lemma file_follows ops : forall j file, Forall op_ok ops -> journal_ok parse_url j ->
  journal_ok parse_url (load parse_url JSON_parse file) -> same_journal j (load parse_url JSON_parse file) ->
  journal_ok parse_url (fold_left apply_op ops j) /\
  same_journal (fold_left apply_op ops j) (load parse_url JSON_parse (fold_left (file_op JSON_parse JSON_stringify) ops file)).
Proof.
  induction ops as [|op ops IH]; intros j file Ho Hj Hk Hs; [done|]. apply Forall_cons in Ho as [Ho1 Ho]. cbn [fold_left].
  set (k := load parse_url JSON_parse file) in *. assert (Hop := saved_same j k op Hs).
  change (apply_op j op) with (default j (saved j op)).
  change (file_op JSON_parse JSON_stringify file op) with (match saved k op with Some j => Some (save JSON_stringify j) | None => file end).
  destruct (saved j op) as [j'|] eqn:Ej, (saved k op) as [k'|] eqn:Ek; inversion Hop; subst; [|by apply IH].
  assert (journal_ok parse_url j') by (by eapply (saved_ok j op)). assert (journal_ok parse_url k') by (by eapply (saved_ok k op)).
  apply IH; [done..| |]; rewrite load_save by done.
  - by apply read_back_ok.
  - by apply same_read_back.
Qed.

(** C37: the command journal survives a restart: after any sequence of calls
    made one after another, from a start without a file, what the next [load]
    reads is the journal those calls make in memory - commands, bindings and
    conversations, field by field - except that a project URL may have lost
    slashes at its end, one for each time the file was read; it is the very
    same journal when no stored URL ends in a slash. The journal never holds
    more than 128 commands, no command id twice, no workspace with two
    projects and no logical conversation with two provider conversations.
    (Clocks and epochs are safe integers; [URL] and [JSON] keep what is
    documented of them.) *)
Theorem journal_survives_restart ops : Forall op_ok ops ->
  same_journal (run_ops ops) (load parse_url JSON_parse (file_after JSON_parse JSON_stringify ops)) /\
  (Forall (fun p => last (projectUrl p) <> Some 47%N) (projects (run_ops ops)) ->
   load parse_url JSON_parse (file_after JSON_parse JSON_stringify ops) = run_ops ops) /\
  (length (commands (run_ops ops)) <= 128)%nat /\ NoDup (map commandId (commands (run_ops ops))) /\
  NoDup (map p_workspace (projects (run_ops ops))) /\
  NoDup (map conversation_key (conversations (run_ops ops))).
Proof.
  intros Ho. destruct (file_follows ops emptyJournal None Ho) as [Hj Hs]; [apply emptyJournal_ok..| |].
  { split_and!; [done..|constructor]. }
  split; [exact Hs|]. split; [by apply same_journal_exact|]. by destruct Hj.
Qed.
End Lawful.
End Runs.

(** ** Which provider conversation continues a logical one *)

Lemma find_filter {A} (f : A -> bool) (P : A -> Prop) `{forall x, Decision (P x)} l :
  (forall y, f y = true -> P y) -> List.find f (filter P l) = List.find f l.
Proof.
  intros H'. induction l as [|x l IH]; [done|]. rewrite filter_cons. simpl.
  destruct (f x) eqn:E.
  - rewrite decide_True by auto. simpl. by rewrite E.
  - destruct (decide (P x)); simpl; [by rewrite E|done].
Qed.
Lemma find_filter_none {A} (f : A -> bool) (P : A -> Prop) `{forall x, Decision (P x)} l :
  (forall y, f y = true -> ~ P y) -> List.find f (filter P l) = None.
Proof.
  intros H'. destruct (List.find f (filter P l)) eqn:E; [|done]. apply find_some in E as [Hin Hf].
  apply list_elem_of_In, list_elem_of_filter in Hin as [HP _]. by apply H' in HP.
Qed.
Lemma find_app {A} (f : A -> bool) l k :
  List.find f (l ++ k) = match List.find f l with Some x => Some x | None => List.find f k end.
Proof. induction l as [|x l IH]; [done|]. simpl. by destruct (f x). Qed.

(** The predicate [latestProviderConversationId] searches with *)
Definition routes (ws logical pid : jstr) (c : ChatGptConversationBinding) : bool :=
  bool_decide (c_workspace c = ws) && bool_decide (c_projectId c = pid) && bool_decide (c_logical c = logical).
Lemma routes_true ws l pid c : routes ws l pid c = true <->
  conversation_key c = (ws, l) /\ c_projectId c = pid.
Proof.
  unfold routes, conversation_key. rewrite !andb_true_iff, !bool_decide_eq_true. split.
  - by intros [[-> ->] ->].
  - by intros [[= -> ->] ->].
Qed.

Lemma find_project_bind b ps : find_project (filter (fun p => p_workspace p <> p_workspace b) ps ++ [b])
  (p_workspace b) = Some b.
Proof.
  unfold find_project. rewrite find_app, find_filter_none by (intros y Hy; to_prop; by intros ?).
  simpl. by rewrite bool_decide_eq_true_2.
Qed.

Lemma latest_routes ws l j : latestProviderConversationId ws l j =
  match find_project (projects j) ws with
  | Some p => c_provider <$> List.find (routes ws l (p_projectId p)) (conversations j)
  | None => None
  end.
Proof.
  unfold latestProviderConversationId. destruct (find_project _ _) as [p|]; [|done]. cbn [mbind option_bind].
  fold (routes ws l (p_projectId p)). by destruct (List.find _ _).
Qed.

(** A recorded route is found, and hides no other. *)
Lemma find_route_here l k c ws pid : same_conversation ws l c = true -> c_projectId c = pid ->
  List.find (routes ws l pid) (filter (fun c => same_conversation ws l c = false) k ++ [c]) = Some c.
Proof.
  intros Hs Hp. rewrite find_app, find_filter_none; cycle 1.
  - intros y [Hy _]%routes_true Hn. by apply same_conversation_key in Hn.
  - simpl. unfold routes, same_conversation in *. to_prop. subst. by rewrite !bool_decide_eq_true_2.
Qed.
Lemma find_route_other ws l ws' l' pid k c : (ws', l') <> (ws, l) -> conversation_key c = (ws, l) ->
  List.find (routes ws' l' pid) (filter (fun c => same_conversation ws l c = false) k ++ [c])
  = List.find (routes ws' l' pid) k.
Proof.
  intros Hne Hc. rewrite find_app, find_filter; cycle 1.
  - intros y [Hy _]%routes_true. rewrite same_conversation_key. congruence.
  - destruct (List.find _ k); [done|]. simpl. destruct (routes ws' l' pid c) eqn:E; [|done].
    apply routes_true in E as [E _]. congruence.
Qed.

Lemma record_conversation_eq next now j l cv p :
  logicalConversationId next = Some l -> l <> [] -> providerConversationId next = VString cv -> cv <> [] ->
  find_project (projects j) (workspace next) = Some p ->
  record_conversation next now j =
    filter (fun c => same_conversation (workspace next) l c = false) (conversations j)
    ++ [{| c_workspace := workspace next; c_projectId := p_projectId p; c_logical := l;
           c_provider := VString cv; c_updatedAt := now |}].
Proof.
  intros Hl Hl' Hv Hv' Hp. unfold record_conversation. rewrite Hl, Hp, Hv. cbn [truthy_value].
  by rewrite !(proj2 (truthy_true _)).
Qed.

Lemma record_routes cid tid fe st l err now j next j' cv p :
  record cid tid fe st (Some l) err now j = Ok (next, j') -> l <> [] ->
  conversationId fe = Some cv -> cv <> [] -> find_project (projects j) (src_workspace fe) = Some p ->
  projects j' = projects j /\
  conversations j' = filter (fun c => same_conversation (src_workspace fe) l c = false) (conversations j)
    ++ [{| c_workspace := src_workspace fe; c_projectId := p_projectId p; c_logical := l;
           c_provider := VString cv; c_updatedAt := now |}].
Proof.
  intros H Hl Hv Hv' Hp. unfold record in H. apply bind_Ok in H as (c' & _ & H).
  apply bind_Ok in H as (t' & _ & H). injection H as _ <-. split; [done|]. cbn [conversations].
  set (nx := next_snapshot _ _ _ _ _ _ _ _). change (src_workspace fe) with (workspace nx).
  apply (record_conversation_eq nx now j l cv p); try done; simpl.
  - by rewrite (proj2 (truthy_true _) Hl).
  - rewrite Hv. unfold if_truthy. simpl. by rewrite (proj2 (truthy_true _) Hv').
Qed.

(** A command recorded for a logical conversation of a workspace with a
    project makes its provider conversation the one that continues it, and
    changes the route of no other logical conversation; clearing the route
    removes it; binding the workspace to another project makes it unreachable. *)
Theorem conversation_routing cid tid fe st l err now j next j' cv p :
  record cid tid fe st (Some l) err now j = Ok (next, j') -> l <> [] ->
  conversationId fe = Some cv -> cv <> [] -> find_project (projects j) (src_workspace fe) = Some p ->
  latestProviderConversationId (src_workspace fe) l j' = Some (VString cv) /\
  (forall ws' l', (ws', l') <> (src_workspace fe, l) ->
     latestProviderConversationId ws' l' j' = latestProviderConversationId ws' l' j) /\
  (exists j'', clearProviderConversation (src_workspace fe) l j' = Some j'' /\
     latestProviderConversationId (src_workspace fe) l j'' = None) /\
  (forall b, p_workspace b = src_workspace fe -> p_projectId b <> p_projectId p ->
     latestProviderConversationId (src_workspace fe) l (bind_project b j') = None).
Proof.
  intros H Hl Hv Hv' Hp. destruct (record_routes _ _ _ _ _ _ _ _ _ _ _ _ H Hl Hv Hv' Hp) as [Hj Hc].
  assert (Hs : same_conversation (src_workspace fe) l {| c_workspace := src_workspace fe; c_projectId := p_projectId p;
    c_logical := l; c_provider := VString cv; c_updatedAt := now |} = true).
  { unfold same_conversation. simpl. by rewrite !bool_decide_eq_true_2. }
  split_and!.
  - by rewrite latest_routes, Hj, Hp, Hc, find_route_here.
  - intros ws' l' Hne. rewrite !latest_routes, Hj. destruct (find_project _ ws'); [|done].
    by rewrite Hc, find_route_other.
  - unfold clearProviderConversation. rewrite Hc. destruct (Nat.eqb _ _) eqn:E.
    + apply Nat.eqb_eq in E. rewrite filter_app, !length_app in E. rewrite filter_cons_False in E by congruence.
      pose proof (length_filter (fun c => same_conversation (src_workspace fe) l c = false)
        (filter (fun c => same_conversation (src_workspace fe) l c = false) (conversations j))).
      simpl in E. lia.
    + eexists. split; [done|]. rewrite latest_routes. cbn [projects conversations]. rewrite Hj, Hp.
      rewrite find_filter_none; [done|]. intros y [Hy _]%routes_true Hn. by apply same_conversation_key in Hn.
  - intros b Hb Hne. rewrite latest_routes. cbn [bind_project projects conversations].
    rewrite <- Hb, find_project_bind, Hb, Hj, Hp, bool_decide_eq_true_2 by done.
    destruct (List.find _ _) as [c|] eqn:E; [|done]. apply find_some in E as [Hin Hr].
    apply routes_true in Hr as [Hk Hr]. apply list_elem_of_In, list_elem_of_filter in Hin as [_ Hin].
    rewrite Hc in Hin. apply elem_of_app in Hin as [Hin|Hin].
    + apply list_elem_of_filter in Hin as [Hin _]. by apply same_conversation_key in Hin.
    + apply list_elem_of_singleton in Hin as ->. by subst.
Qed.

(** ** Concrete journals *)

(** Plain [https://chatgpt.com/...] URLs, without search or hash, that are
    their own text *)
Definition sample_origin : jstr := js "https://chatgpt.com".
Definition sample_url (path : jstr) : Url :=
  {| protocol := js "https:"; hostname := js "chatgpt.com"; pathname := path;
     href := sample_origin ++ path; bare := sample_origin ++ path |}.
Definition sample_parse (v : jstr) : option Url :=
  if starts_with v (sample_origin ++ js "/") then Some (sample_url (drop 19 v)) else None.
Lemma sample_parse_path r : sample_parse (sample_origin ++ 47%N :: r) = Some (sample_url (47%N :: r)).
Proof. unfold sample_parse. rewrite (proj2 (starts_with_spec _ _)); [done|]. exists r. by rewrite <- app_assoc. Qed.
Lemma sample_laws : url_laws sample_parse.
Proof.
  assert (H : forall v u, sample_parse v = Some u -> exists r, u = sample_url (47%N :: r)).
  { intros v u. unfold sample_parse. destruct (starts_with v _) eqn:E; [|done]. intros [= <-].
    apply starts_with_spec in E as [t ->]. by exists t. }
  split; intros v u Hv; destruct (H v u Hv) as [r ->]; intros _.
  - apply sample_parse_path.
  - intros Hne. cbn [bare pathname sample_url] in *. unfold less_slash. cbn [bare pathname protocol hostname sample_url].
    destruct r as [|x r _] using rev_ind; [by destruct Hne|].
    assert (Hs : forall s, strip_slash (s ++ [x]) = if (x =? 47)%N then s else s ++ [x]).
    { intros s. unfold strip_slash. rewrite reverse_snoc. by destruct (x =? 47)%N; [rewrite reverse_involutive|]. }
    rewrite app_comm_cons, app_assoc, !Hs. destruct (x =? 47)%N; [apply sample_parse_path|].
    rewrite <- app_assoc, <- app_comm_cons. apply sample_parse_path.
Qed.
Definition sample_JSON_parse (raw : jstr) : option value :=
  match JsonCodec.sample_parse raw with Ok v => Some v | Throw _ => None end.
Lemma sample_JSON_keeps j : sample_JSON_parse (save JsonCodec.sample_stringify j) = Some (journal_value j).
Proof. unfold sample_JSON_parse, save. by rewrite JsonCodec.sample_json_line. Qed.

Definition sample_binding : FrontendBinding :=
  {| src_runId := js "run"; src_workspace := js "ws"; fe_epoch := 1; documentId := js "doc";
     conversationId := Some (js "conv"); turnId := None |}.
Definition sample_ops (path : string) : list journal_op :=
  [OProject (js "ws") (js " Project ") (sample_origin ++ js path) 5;
   ORecord (js "cmd") (js "task") sample_binding queued (Some (js "logical")) None 6].
Lemma sample_journal_ops_ok path : Forall op_ok (sample_ops path).
Proof. by repeat constructor. Qed.

Lemma journal_survives_restart_witness :
  load sample_parse sample_JSON_parse (file_after sample_parse sample_JSON_parse JsonCodec.sample_stringify (sample_ops "/g/g-p-1/project/"))
    = run_ops sample_parse (sample_ops "/g/g-p-1/project/") /\
  length (conversations (run_ops sample_parse (sample_ops "/g/g-p-1/project/"))) = 1%nat.
Proof.
  destruct (journal_survives_restart sample_parse sample_laws sample_JSON_parse JsonCodec.sample_stringify
    (fun j _ => sample_JSON_keeps j) _ (sample_journal_ops_ok "/g/g-p-1/project/")) as (_ & H & _).
  split; [|vm_compute; reflexivity]. apply H. apply (bool_decide_eq_true_1 _). vm_compute. reflexivity.
Defined.

(** Only one slash is taken off the end of a project URL, and another each
    time the file is read: the binding that [recordWorkspaceProject] returned is
    not the one that is read back. *)
Example slashes_are_lost_one_by_one :
  let urls j := map projectUrl (projects j) in
  let load_after ops := load sample_parse sample_JSON_parse (file_after sample_parse sample_JSON_parse JsonCodec.sample_stringify ops) in
  urls (run_ops sample_parse (sample_ops "/g/g-p-1/project///")) = [sample_origin ++ js "/g/g-p-1/project//"] /\
  urls (load_after (sample_ops "/g/g-p-1/project///")) = [sample_origin ++ js "/g/g-p-1/project"].
Proof. vm_compute. split; reflexivity. Qed.

Lemma conversation_routing_witness :
  exists next j', record (js "cmd") (js "task") sample_binding queued (Some (js "logical")) None 6
      (run_ops sample_parse [OProject (js "ws") (js " Project ") (sample_origin ++ js "/g/g-p-1/project") 5]) = Ok (next, j') /\
    latestProviderConversationId (js "ws") (js "logical") j' = Some (VString (js "conv")).
Proof.
  eexists _, _. split; [vm_compute; reflexivity|].
  eapply (conversation_routing (js "cmd") (js "task") sample_binding queued (js "logical") None 6
    (run_ops sample_parse [OProject (js "ws") (js " Project ") (sample_origin ++ js "/g/g-p-1/project") 5]));
    [vm_compute; reflexivity|done|reflexivity|done|vm_compute; reflexivity].
Defined.

(** [record] awaits [load] and then [save] with nothing that keeps another
    [record] of the same store out in between: two commands recorded at once
    both load the same journal, and the second save drops the first command. *)
Example concurrent_records_lose_update :
  match record (js "a") (js "task") sample_binding queued None None 6 emptyJournal,
        record (js "b") (js "task") sample_binding queued None None 7 emptyJournal with
  | Ok (_, file_after_a), Ok (_, file_after_b) =>
      map commandId (commands file_after_a) = [js "a"] /\ map commandId (commands file_after_b) = [js "b"]
  | _, _ => False
  end.
Proof. vm_compute. split; reflexivity. Qed.
End BrowserCommands.
