(* ===== verification/ReviewOwnership.v ===== *)
(** * Which ChatGPT answer belongs to a submitted message

    [desktop/src/main/chatgpt-review-response-ownership.ts]: the driver polls
    the conversation page and decides from two snapshots, one taken before it
    submitted and one now, whether the newest user turn is its own and whether
    the newest assistant text answers it. *)

From S2P Require Import Prelude JsValue Regex ReviewLoop.

Module ReviewOwnership.

Record ChatGptConversationSnapshot := {
  count : Z; text : jstr; generating : bool; turnIds : list jstr; latestTurnId : jstr;
  userCount : Z; userTurnIds : list jstr; latestUserTurnId : jstr; latestUserText : jstr;
  assistantAfterLatestUser : bool; interrupted : bool }.

Definition submittedControlOwnershipMarkers (message taskId : jstr) : list jstr :=
  (js "TASK_ID: " ++ taskId) ::
  concat (map (fun name =>
    match exec (ReviewLoop.header_regex name) message with
    | Some (_, stop) => if truthy (group 1 (caps stop))
                        then [js name ++ js ": " ++ trim (group 1 (caps stop))] else []
    | None => []
    end) ["STATE"; "ITERATION"]%string).

(** The new-user-turn test of [snapshotOwnsSubmittedUserTurn] *)
Definition new_user_turn (before snapshot : ChatGptConversationSnapshot) : bool :=
  (userCount before <? userCount snapshot)
  || (truthy (latestUserTurnId snapshot) && bool_decide (latestUserTurnId snapshot ∉ userTurnIds before))
  || (truthy (latestUserText snapshot) && bool_decide (latestUserText snapshot <> latestUserText before)).

Definition snapshotOwnsSubmittedUserTurn (before snapshot : ChatGptConversationSnapshot)
    (submittedMessage taskId : jstr) : bool :=
  if negb (new_user_turn before snapshot) then false
  else forallb (fun marker => includes (latestUserText snapshot) marker)
         (submittedControlOwnershipMarkers submittedMessage taskId).

Definition new_assistant_turn (before snapshot : ChatGptConversationSnapshot) : bool :=
  if truthy (latestTurnId snapshot) then bool_decide (latestTurnId snapshot ∉ turnIds before)
  else count before <? count snapshot.

Definition ownedAssistantResponseCandidate (before snapshot : ChatGptConversationSnapshot)
    (accepted acceptedOwnedUserTurn : bool) : bool :=
  if negb accepted || interrupted snapshot then false
  else
    let newAssistantTurn := new_assistant_turn before snapshot in
    let changedAssistantText := truthy (trim (text snapshot)) && bool_decide (text snapshot <> text before) in
    if acceptedOwnedUserTurn
    then assistantAfterLatestUser snapshot && (newAssistantTurn || changedAssistantText)
    else newAssistantTurn.

Definition assistantActivitySignature (s : ChatGptConversationSnapshot) : jstr :=
  join [58%N]
    [js_int (count s); latestTurnId s; js_int (userCount s); latestUserTurnId s; js_int (slen (text s));
     drop (length (text s) - 80) (text s); js (if interrupted s then "interrupted" else "ok")].

(** The page as it was: nothing the ownership decision looks at has changed. *)
Record unchanged (before snapshot : ChatGptConversationSnapshot) : Prop := {
  same_turn : latestTurnId snapshot = [] \/ latestTurnId snapshot ∈ turnIds before;
  same_count : count snapshot <= count before;
  same_text : text snapshot = text before }.

(** A stale answer is never taken for the awaited one: what was on the page
    when the message was submitted is no candidate, however its acceptance was
    established; a candidate needs an accepted message and an uninterrupted
    page, and a user turn is owned only if its text names the active task. *)
Theorem stale_answer_is_no_candidate before snapshot message taskId accepted owned :
  (unchanged before snapshot -> ownedAssistantResponseCandidate before snapshot accepted owned = false) /\
  (ownedAssistantResponseCandidate before snapshot accepted owned = true ->
     accepted = true /\ interrupted snapshot = false /\ (owned = true -> assistantAfterLatestUser snapshot = true)) /\
  (snapshotOwnsSubmittedUserTurn before snapshot message taskId = true ->
     new_user_turn before snapshot = true /\
     exists a b, latestUserText snapshot = a ++ (js "TASK_ID: " ++ taskId) ++ b).
Proof.
  unfold ownedAssistantResponseCandidate, snapshotOwnsSubmittedUserTurn. cbv zeta. split_and!.
  - intros [Ht Hc Hx]. assert (new_assistant_turn before snapshot = false) as ->.
    { unfold new_assistant_turn. destruct Ht as [->|Ht]; [by apply Z.ltb_ge|].
      destruct (truthy _); [by apply bool_decide_eq_false_2; intros []|by apply Z.ltb_ge]. }
    rewrite Hx, (bool_decide_eq_false_2 (text before <> text before)) by (by intros []). rewrite !andb_false_r.
    by destruct (negb accepted || _), owned; rewrite ?andb_false_r.
  - destruct accepted; [|done]. destruct (interrupted snapshot); [done|]. cbn [negb orb]. intros H.
    split_and!; [done|done|]. intros ->. by apply andb_prop in H as [? _].
  - destruct (new_user_turn before snapshot); [|done]. cbn [negb]. intros H. split; [done|].
    unfold submittedControlOwnershipMarkers in H. cbn [forallb] in H. apply andb_prop in H as [H _].
    by apply includes_spec.
Qed.

(** *** Witness *)
Definition sample_before : ChatGptConversationSnapshot := {|
  count := 1; text := js "old"; generating := false; turnIds := [js "t1"]; latestTurnId := js "t1";
  userCount := 1; userTurnIds := [js "u1"]; latestUserTurnId := js "u1"; latestUserText := js "hello";
  assistantAfterLatestUser := true; interrupted := false |}.
Lemma stale_answer_is_no_candidate_witness :
  unchanged sample_before sample_before /\
  ownedAssistantResponseCandidate sample_before sample_before true true = false.
Proof.
  assert (H : unchanged sample_before sample_before) .
  { constructor; [right; apply list_elem_of_singleton; reflexivity|cbn; lia|reflexivity]. }
  split; [exact H|]. exact (proj1 (stale_answer_is_no_candidate sample_before sample_before [] [] true true) H).
Defined.

Example fresh_answer : ownedAssistantResponseCandidate sample_before
  {| count := 1; text := js "new"; generating := false; turnIds := [js "t1"]; latestTurnId := js "t1";
     userCount := 2; userTurnIds := [js "u1"; js "u2"]; latestUserTurnId := js "u2"; latestUserText := js "TASK_ID: t";
     assistantAfterLatestUser := true; interrupted := false |} true true = true.
Proof. reflexivity. Qed.
End ReviewOwnership.
