(* ===== verification/DaemonOrphan.v ===== *)
(** * Finding the daemon an earlier Desktop left behind (daemon-manager.ts)

    On Linux, [start] looks through [/proc] for a process that runs the bundled
    binary, belongs to this user and has lost its parent, and ends it - if
    there is exactly one. What [/proc] shows is an argument: the names of its
    directories, and the [cmdline] and [status] files that can be read. *)

From S2P Require Import Prelude JsValue Regex Path.

Module DaemonOrphan.

(** ** Definitions *)

(** [/^\d+$/.test(name)] *)
Definition is_digit (u : N) : bool := ((48 <=? u) && (u <=? 57))%N.
Definition all_digits (s : jstr) : bool := truthy s && forallb is_digit s.
(** [Number(s)] of digits *)
Definition decimal (s : jstr) : Z := fold_left (fun n u => n * 10 + (Z.of_N u - 48)) s 0.
(** [Number.isSafeInteger(Number(s))] of digits: rounding keeps what is safe and
    makes nothing safe that is not. *)
Definition safe_decimal (s : jstr) : option Z :=
  if decimal s <=? MAX_SAFE_INTEGER then Some (decimal s) else None.

Record Entry := { name : jstr; isDirectory : bool }.
Record ProcStatus := { ppid : Z; uid : Z }.

(** [/^PPid:\s+(\d+)$/m] and [/^Uid:\s+(\d+)/m] *)
Definition digits : regex := Group 1 (plus (Class is_digit)).
Definition ppid_line : regex := seqs [LineStart; lit "PPid:"; plus space; digits; LineEnd].
Definition uid_line : regex := seqs [LineStart; lit "Uid:"; plus space; digits].
Definition first_number (r : regex) (s : jstr) : option Z :=
  match exec r s with Some (_, stop) => safe_decimal (group 1 (caps stop)) | None => None end.

Definition basename (p : jstr) : jstr :=
  default [] (last (List.filter truthy (split_char SLASH p))).

Section proc.
Context (process_cwd : jstr) (process_pid : Z) (currentUid : option Z).
Context (cmdline status : Z -> option jstr).

Definition readProcCommand (pid : Z) : option (list jstr) :=
  match cmdline pid with
  | Some raw => match List.filter truthy (split_char 0 raw) with [] => None | command => Some command end
  | None => None
  end.
Definition readProcStatus (pid : Z) : option ProcStatus :=
  raw ← status pid;
  p ← first_number ppid_line raw;
  u ← first_number uid_line raw;
  Some {| ppid := p; uid := u |}.

Definition isOrphanParent (ppid : Z) : bool :=
  (ppid =? 1) ||
  match readProcCommand ppid with
  | Some (command :: args) => bool_decide (basename command = js "systemd") && bool_decide (js "--user" ∈ command :: args)
  | _ => false
  end.

(** The checks of one entry: the process it names, when it is a candidate. *)
Definition candidate (binaryPath : jstr) (e : Entry) : option Z :=
  if negb (isDirectory e) || negb (all_digits (name e)) then None
  else
    match safe_decimal (name e) with
    | None => None
    | Some pid =>
        if (pid <=? 1) || (pid =? process_pid) then None
        else
          match readProcCommand pid with
          | Some (command :: _) =>
              if bool_decide (resolve process_cwd command = binaryPath) then
                match readProcStatus pid with
                | Some st =>
                    if match currentUid with Some u => negb (uid st =? u) | None => false end then None
                    else if isOrphanParent (ppid st) then Some pid else None
                | None => None
                end
              else None
          | _ => None
          end
    end.

(** The loop, which gives up at the second candidate; [entries] is [None] when
    [/proc] cannot be read. *)
Fixpoint scan_entries (binaryPath : jstr) (candidates : list Z) (entries : list Entry) : option Z :=
  match entries with
  | [] => head candidates
  | e :: entries =>
      match candidate binaryPath e with
      | None => scan_entries binaryPath candidates entries
      | Some pid =>
          if Nat.ltb 1 (length (candidates ++ [pid])) then None
          else scan_entries binaryPath (candidates ++ [pid]) entries
      end
  end.
Definition findLegacyOrphanedBundledDaemon (binaryPath : jstr) (entries : option (list Entry)) : option Z :=
  entries ≫= scan_entries binaryPath [].

(** [recoverLegacyOrphanedBundledDaemon]: its answer and the signals it sent.
    [term_sent], [kill_sent]: whether [process.kill] throws; [gone_after_term],
    [gone_after_kill], [gone]: what waiting for the exit or looking once finds. *)
Inductive OrphanSignal := TermOrphan (pid : Z) | KillOrphan (pid : Z).
Definition recoverLegacyOrphanedBundledDaemon (linux : bool) (binaryPath : jstr) (entries : option (list Entry))
    (term_sent gone_after_term kill_sent gone_after_kill gone : bool) : bool * list OrphanSignal :=
  if negb linux then (false, [])
  else match findLegacyOrphanedBundledDaemon (resolve process_cwd binaryPath) entries with
  | None => (false, [])
  | Some pid =>
      if negb term_sent then (false, [])
      else if gone_after_term then (true, [TermOrphan pid])
      else if negb kill_sent then (gone, [TermOrphan pid])
      else (gone_after_kill, [TermOrphan pid; KillOrphan pid])
  end.

(** ** The one candidate *)

Lemma scan_entries_spec binaryPath entries : forall candidates, (length candidates <= 1)%nat ->
  scan_entries binaryPath candidates entries =
  match candidates ++ omap (candidate binaryPath) entries with [pid] => Some pid | _ => None end.
Proof.
  induction entries as [|e entries IH]; intros candidates Hl; cbn.
  - rewrite app_nil_r. destruct candidates as [|x [|y l]]; cbn in *; [done|done|lia].
  - destruct (candidate binaryPath e) as [pid|]; [|by apply IH].
    destruct candidates as [|x [|y l]]; cbn in Hl |- *; [by rewrite IH|done|lia].
Qed.

(** Desktop ends a process only if it is the one it means. A signal goes to
    a process at most when that process, and no other that [/proc] lists, runs
    the bundled binary, is not Desktop itself, belongs to the same user and
    was left by its parent; it is killed only after it was asked to end. *)
Theorem only_the_orphan_is_signalled linux binaryPath entries ts ga ks gk g :
  let r := recoverLegacyOrphanedBundledDaemon linux binaryPath entries ts ga ks gk g in
  r.2 = [] \/
  exists es e pid command args st,
    entries = Some es /\ omap (candidate (resolve process_cwd binaryPath)) es = [pid] /\ e ∈ es /\
    (r.2 = [TermOrphan pid] \/ r.2 = [TermOrphan pid; KillOrphan pid]) /\
    decimal (name e) = pid /\ 1 < pid /\ pid <> process_pid /\
    readProcCommand pid = Some (command :: args) /\ resolve process_cwd command = resolve process_cwd binaryPath /\
    readProcStatus pid = Some st /\ (forall u, currentUid = Some u -> uid st = u) /\ isOrphanParent (ppid st) = true.
Proof.
  cbn. unfold recoverLegacyOrphanedBundledDaemon. destruct linux; cbn [negb]; [|by left].
  destruct (findLegacyOrphanedBundledDaemon _ entries) as [pid|] eqn:E; [|by left].
  destruct ts; cbn [negb]; [|by left]. right.
  destruct entries as [es|]; cbn in E; [|done]. rewrite scan_entries_spec in E by (cbn; lia). cbn [app] in E.
  destruct (omap _ es) as [|x [|y l]] eqn:Eo; try done. injection E as ->.
  assert (Hin : pid ∈ omap (candidate (resolve process_cwd binaryPath)) es) by (rewrite Eo; by left).
  apply list_elem_of_omap in Hin as (e & He & Hc). unfold candidate in Hc.
  destruct (negb (isDirectory e) || negb (all_digits (name e))); [done|].
  unfold safe_decimal in Hc. destruct (decimal (name e) <=? _); [|done].
  destruct ((decimal (name e) <=? 1) || (decimal (name e) =? process_pid)) eqn:Ep; [done|].
  destruct (readProcCommand (decimal (name e))) as [[|command args]|] eqn:Ec; [done| |done].
  case_bool_decide as Er; [|done]. destruct (readProcStatus (decimal (name e))) as [st|] eqn:Es; [|done].
  destruct (match currentUid with Some u => negb (uid st =? u) | None => false end) eqn:Eu; [done|].
  destruct (isOrphanParent (ppid st)) eqn:Eop; [|done]. injection Hc as <-.
  exists es, e, (decimal (name e)), command, args, st. to_prop. split_and!; try done; try lia.
  - destruct ga; [by left|]. destruct ks; [by right|by left].
  - intros u Hu. rewrite Hu in Eu. by to_prop.
Qed.

End proc.

(** A scan of a concrete [/proc]: one orphan is found, two are left alone. *)
Definition sample_cmdline (pid : Z) : option jstr :=
  if (pid =? 70) || (pid =? 71) then Some (js "/opt/sn" ++ [0%N] ++ js "--serve" ++ [0%N])
  else if pid =? 9 then Some (js "/usr/lib/systemd/systemd" ++ [0%N] ++ js "--user" ++ [0%N]) else None.
Definition sample_status (pid : Z) : option jstr :=
  Some (js "Name:sn" ++ [10%N] ++ js "PPid: 9" ++ [10%N] ++ js "Uid: 1000 1000" ++ [10%N]).
Definition dir (n : string) : Entry := {| name := js n; isDirectory := true |}.
Example orphan_found :
  let find := findLegacyOrphanedBundledDaemon (js "/") 5 (Some 1000) sample_cmdline sample_status (js "/opt/sn") in
  find (Some [dir "self"; dir "1"; dir "9"; dir "70"]) = Some 70 /\
  find (Some [dir "9"; dir "70"; dir "71"]) = None /\ find None = None.
Proof. vm_compute. done. Qed.

End DaemonOrphan.
