(* ===== verification/DaemonLog.v ===== *)
(** * What a managed daemon inherits and what its log shows (daemon-manager.ts)

    The environment of the child, the checks on a launch plan, and the
    sanitizing of every line the daemon writes before it reaches a listener:
    no secret of the launch plan survives it. The private paths of the user
    ([HOME] and [USERPROFILE]) are an argument. *)

From S2P Require Import Prelude JsValue JsMap Regex Path.

Module DaemonLog.

(** ** Definitions *)

Definition REDACTED : jstr := js "[REDACTED]".
Definition MIN_SECRET : Z := 8.
Definition MAX_LINE : nat := 8 * 1024.

(** [s.split(secret).join("[REDACTED]")] for a secret that is not empty; with
    as much fuel as the text has code units. *)
Fixpoint redact_literal (fuel : nat) (secret s : jstr) : jstr :=
  match fuel with
  | O => s
  | S fuel =>
      if starts_with s secret then REDACTED ++ redact_literal fuel secret (slice_from (length secret) s)
      else match s with [] => [] | u :: t => u :: redact_literal fuel secret t end
  end.
Definition replace_secret (s secret : jstr) : jstr := redact_literal (S (length s)) secret s.

(** Longest first, so that a secret inside another one does not tear it. *)
Definition uniqueSecrets (secrets : list jstr) : list jstr :=
  sort_by (fun l r => slen r - slen l) (unique (List.filter (fun s => MIN_SECRET <=? slen s) secrets)).

Definition quote_mark (u : N) : bool := ((u =? 34) || (u =? 39))%N.
Definition bearer_header : regex :=
  Seq (Group 1 (seqs [ilit "authorization"; spaces; Class (any_of ":="); spaces; ilit "bearer"; plus space]))
      (plus (Class (fun u => negb (is_space u) && negb (quote_mark u)))).
Definition secret_parameter : regex :=
  Seq (Group 1 (seqs [Class (any_of "?&"); alts [ilit "access_token"; ilit "token"; ilit "credential"; ilit "secret"]; one 61]))
      (plus (Class (fun u => negb (u =? 38)%N && negb (is_space u) && negb (quote_mark u)))).
Definition keep_group (c : list (nat * jstr)) : jstr := group 1 c ++ REDACTED.

Definition sanitizeLogLine (home : list jstr) (line : jstr) (secrets : list jstr) : jstr :=
  let s := map (fun u => if ((u =? 0) || (u =? 13))%N then 32%N else u) line in
  let privatePaths := List.filter (fun p => MIN_SECRET <=? slen p) home in
  let s := fold_left replace_secret (uniqueSecrets (secrets ++ privatePaths)) s in
  let s := replace_all bearer_header keep_group s in
  let s := replace_all secret_parameter keep_group s in
  trim (slice_to MAX_LINE s).

(** ** The launch plan *)

(** [NodeJS.ProcessEnv]: the variables in the order of their insertion. *)
Definition ProcessEnv : Type := list (jstr * jstr).
Definition env_get (env : ProcessEnv) (name : string) : option jstr := map_get env (js name).

Record DaemonLaunchPlan := { configPath : jstr; environment : ProcessEnv; redactedSecrets : list jstr }.

Definition SENSITIVE_ENV_NAME : regex :=
  alts [ilit "TOKEN"; ilit "SECRET"; ilit "CREDENTIAL"; ilit "BEARER"; ilit "PASSWORD"; ilit "PRIVATE_KEY"].

(** [configure]: the plan that is stored *)
Definition configure (plan : DaemonLaunchPlan) : result DaemonLaunchPlan :=
  _ ← require (isAbsolute (configPath plan)) "managed SourceNerve config path must be absolute";
  _ ← require (bool_decide (env_get (environment plan) "SOURCENERVE_CONFIG" = Some (configPath plan)))
        "managed SourceNerve environment must use the configured SOURCENERVE_CONFIG path";
  _ ← require (truthy_opt (env_get (environment plan) "SOURCENERVE_BEARER_TOKEN"))
        "managed SourceNerve environment is missing local bearer";
  let inferredSecrets := map snd (List.filter (fun kv => test SENSITIVE_ENV_NAME kv.1) (environment plan)) in
  Ok {| configPath := configPath plan; environment := environment plan;
        redactedSecrets := uniqueSecrets (redactedSecrets plan ++ inferredSecrets ++ [configPath plan]) |}.

Definition allowedParent : list jstr := map js
  ["PATH"; "HOME"; "USERPROFILE"; "SYSTEMROOT"; "WINDIR"; "TEMP"; "TMP"; "TMPDIR"; "LANG"; "LC_ALL";
   "XDG_CONFIG_HOME"; "XDG_DATA_HOME"; "SSH_AUTH_SOCK"; "GIT_CONFIG_GLOBAL"; "SOURCENERVE_DEBUG_AUTH"]%string.

Definition inherit (parent : ProcessEnv) (env : ProcessEnv) (name : jstr) : ProcessEnv :=
  match map_get parent name with
  | Some v => if truthy v then map_set env name v else env
  | None => env
  end.
Definition buildChildEnvironment (runtime parent : ProcessEnv) : ProcessEnv :=
  let environment := fold_left (inherit parent) allowedParent [] in
  let environment := fold_left (fun env kv => map_set env kv.1 kv.2) runtime environment in
  map_set environment (js "GIT_TERMINAL_PROMPT") (js "0").

(** ** Substrings *)

(** [s] holds no copy of [p]. *)
Definition free (p s : jstr) : Prop := includes s p = false.

Lemma free_spec p s : free p s <-> forall a b, s <> a ++ p ++ b.
Proof.
  unfold free. rewrite <- not_true_iff_false, includes_spec. split.
  - intros H a b ->. apply H. by exists a, b.
  - intros H (a & b & ->). by eapply H.
Qed.

Lemma free_part p a m b : free p (a ++ m ++ b) -> free p m.
Proof. rewrite !free_spec. intros H x y ->. apply (H (a ++ x) (y ++ b)). by rewrite <- !app_assoc. Qed.
Lemma free_prefix p a b : free p (a ++ b) -> free p a.
Proof. apply (free_part p [] a b). Qed.
Lemma free_suffix p a b : free p (a ++ b) -> free p b.
Proof. intros H. apply (free_part p a b []). by rewrite app_nil_r. Qed.

Lemma app_split {A} (a b x y : list A) : a ++ b = x ++ y ->
  (exists l, x = a ++ l /\ b = l ++ y) \/ (exists l, a = x ++ l /\ y = l ++ b).
Proof.
  revert x. induction a as [|u a IH]; intros x H; cbn in *; [left; by exists x|].
  destruct x as [|v x]; cbn in *; [right; exists (u :: a); by rewrite <- H|].
  injection H as -> H. destruct (IH x H) as [(l & -> & ->)|(l & -> & ->)]; [left|right]; by exists l.
Qed.

(** A copy does not reach across a code unit it does not have. *)
Lemma free_across p a c b : c ∉ p -> p <> [] -> free p a -> free p b -> free p (a ++ c :: b).
Proof.
  intros Hc Hne Ha Hb. rewrite free_spec. intros x y H. rewrite free_spec in Ha, Hb.
  destruct (app_split _ _ _ _ H) as [(l & -> & E)|(l & -> & E)].
  - destruct l as [|v l]; cbn in E.
    + destruct p as [|u p]; [done|]. injection E as <- _. apply Hc. by left.
    + injection E as <- ->. by eapply Hb.
  - destruct (app_split _ _ _ _ E) as [(l' & -> & E')|(l' & -> & E')]; [by eapply Ha|].
    destruct l' as [|v l']; cbn in E'.
    + apply (Ha x []). by rewrite !app_nil_r.
    + injection E' as <- _. apply Hc. apply elem_of_app. right. by left.
Qed.

(** A secret the marker cannot be a part of *)
Definition plain_secret (p : jstr) : Prop := MIN_SECRET <= slen p /\ 91%N ∉ p /\ 93%N ∉ p /\ p <> js "REDACTED".

Lemma plain_nonempty p : plain_secret p -> p <> [].
Proof. intros (H & _) ->. vm_compute in H. congruence. Qed.

Lemma free_word p : plain_secret p -> free p (js "REDACTED").
Proof.
  intros (Hl & _ & _ & Hne). rewrite free_spec. intros a b E. unfold slen, MIN_SECRET in Hl.
  pose proof (f_equal length E) as HL. rewrite !length_app in HL. change (length (js "REDACTED")) with 8%nat in HL.
  destruct a; [|cbn in HL; lia]. destruct b; [|cbn in HL; lia]. cbn in E. rewrite app_nil_r in E. by apply Hne.
Qed.

(** The marker keeps its two sides apart. *)
Lemma free_marker p a b : plain_secret p -> free p a -> free p b -> free p (a ++ REDACTED ++ b).
Proof.
  intros Hp Ha Hb. destruct Hp as (H1 & H2 & H3 & H4). assert (Hp : plain_secret p) by done.
  change (REDACTED ++ b) with (91%N :: (js "REDACTED" ++ 93%N :: b)).
  apply free_across; [done|by apply plain_nonempty|done|].
  apply free_across; [done|by apply plain_nonempty|by apply free_word|done].
Qed.

(** ** Replacing a literal *)

(** What is already behind the scan ([w]) and ahead of it. *)
Lemma redact_literal_free p q : plain_secret p -> q <> [] -> forall fuel w s,
  free p (w ++ s) -> free p (w ++ redact_literal fuel q s).
Proof.
  intros Hp Hq. induction fuel as [|fuel IH]; intros w s H; cbn [redact_literal]; [done|].
  destruct (starts_with s q) eqn:E.
  - apply free_marker; [done|by apply free_prefix in H|]. apply (IH []).
    apply free_suffix in H. apply starts_with_spec in E as [t ->]. unfold slice_from. rewrite drop_app_length.
    by apply free_suffix in H.
  - destruct s as [|u s]; [done|]. change (w ++ u :: ?x) with (w ++ [u] ++ x). rewrite app_assoc. apply IH.
    by rewrite <- app_assoc.
Qed.

Lemma redact_literal_removes q : plain_secret q -> forall fuel s, (length s < fuel)%nat ->
  free q (redact_literal fuel q s).
Proof.
  intros Hq. pose proof (plain_nonempty q Hq) as Hne.
  assert (G : forall fuel w s, (length s < fuel)%nat ->
    (forall x y, w <> x ++ q ++ y) ->
    (forall x y, w ++ s = x ++ q ++ y -> (length w <= length x)%nat) ->
    free q (w ++ redact_literal fuel q s)).
  { intros fuel. induction fuel as [|fuel IH]; intros w s Hl Hw Hover; [lia|]. cbn [redact_literal].
    destruct (starts_with s q) eqn:E.
    - apply free_marker; [done|by apply free_spec|]. apply starts_with_spec in E as [t ->].
      unfold slice_from. rewrite drop_app_length. apply (IH [] t).
      + rewrite length_app in Hl. destruct q; [done|]. cbn in Hl. lia.
      + intros x y Ex. destruct x; [destruct q; done|done].
      + intros x y _. cbn. lia.
    - destruct s as [|u s]; [apply free_spec; intros x y Ex; rewrite app_nil_r in Ex; by eapply Hw|].
      change (w ++ u :: ?x) with (w ++ [u] ++ x). rewrite app_assoc. apply IH.
      + cbn in Hl. lia.
      + intros x y Ex. assert (Hx : (length w <= length x)%nat).
        { apply (Hover x (y ++ s)). change (u :: s) with ([u] ++ s). by rewrite app_assoc, Ex, <- !app_assoc. }
        pose proof (f_equal length Ex) as HL. rewrite !length_app in HL. cbn in HL.
        destruct Hq as [H8 _]. unfold slen, MIN_SECRET in H8. lia.
      + intros x y Ex. rewrite <- app_assoc in Ex. pose proof (Hover x y Ex) as Hx. rewrite length_app. cbn.
        destruct (decide (length x = length w)) as [Heq|]; [exfalso|lia].
        assert (x = w /\ [u] ++ s = q ++ y) as [-> Es].
        { apply app_inj_1 in Ex as [-> Es]; [done|by symmetry]. }
        assert (starts_with (u :: s) q = true) by (apply starts_with_spec; by exists y). congruence. }
  intros fuel s Hl. apply (G fuel [] s Hl).
  - intros x y Ex. destruct x; [destruct q; done|done].
  - intros x y _. cbn. lia.
Qed.

Lemma replace_secret_free p q s : plain_secret p -> q <> [] -> free p s -> free p (replace_secret s q).
Proof. intros Hp Hq Hs. exact (redact_literal_free p q Hp Hq (S (length s)) [] s Hs). Qed.

Lemma replace_secret_removes q s : plain_secret q -> free q (replace_secret s q).
Proof. intros Hq. apply redact_literal_removes; [done|lia]. Qed.

Lemma replace_secrets_free p l : plain_secret p -> Forall (fun q => q <> []) l -> forall s,
  p ∈ l \/ free p s -> free p (fold_left replace_secret l s).
Proof.
  intros Hp. induction 1 as [|q l Hq _ IH]; intros s Hs; cbn.
  - destruct Hs as [H|H]; [by apply not_elem_of_nil in H|done].
  - apply IH. destruct Hs as [[->|Hin]%elem_of_cons|Hs]; [right; by apply replace_secret_removes|by left|].
    right. by apply replace_secret_free.
Qed.

(** ** Replacing a pattern behind its first group *)

Lemma matched_group a b before t b' t' c : group_free b = true ->
  matcher (Seq (Group 1 a) b) Some (Scan before t []) = Some (Scan b' t' c) ->
  exists m m', t = m ++ m' ++ t' /\ keep_group c = m ++ REDACTED.
Proof.
  intros Hb H. cbn [matcher] in H. apply matcher_sound in H as (s1 & m & [Hr _] & _ & H & _). cbn in Hr.
  destruct (matcher_caps b Hb _ _ _ H) as (s2 & [= ->] & Hc).
  apply matcher_sound in H as (s2 & m' & [Hr' _] & _ & [= ->] & _). cbn in Hr', Hc.
  exists m, m'. split; [by rewrite Hr, Hr'|]. unfold keep_group. rewrite Hc. cbn. f_equal.
  rewrite Hr, length_app. replace (length m + length (rest s1) - length (rest s1))%nat with (length m) by lia.
  by rewrite take_app_length.
Qed.

Lemma replace_group_free p a b : plain_secret p -> group_free b = true -> forall n w before t,
  free p (w ++ t) -> free p (w ++ replace_from n (Seq (Group 1 a) b) keep_group before t).
Proof.
  intros Hp Hb. induction n as [|n IH]; intros w before t H; [done|]. cbn [replace_from].
  assert (Hmove : forall w', free p (w' ++ t) ->
    free p (w' ++ match t with [] => [] | u :: t => u :: replace_from n (Seq (Group 1 a) b) keep_group (u :: before) t end)).
  { intros w' H'. destruct t as [|u t]; [done|]. change (w' ++ u :: ?x) with (w' ++ [u] ++ x). rewrite app_assoc.
    apply IH. by rewrite <- app_assoc. }
  destruct (matcher _ _ _) as [[b' t' c]|] eqn:E; [|by apply Hmove].
  destruct (matched_group _ _ _ _ _ _ _ Hb E) as (m & m' & Ht & ->).
  rewrite <- !app_assoc, (app_assoc w). apply free_marker; [done| |].
  - rewrite Ht, app_assoc in H. by apply free_prefix in H.
  - apply free_suffix in H. destruct (Nat.ltb _ _); [|by apply (Hmove [])].
    apply (IH []). rewrite Ht in H. by do 2 apply free_suffix in H.
Qed.

Lemma trim_free p s : free p s -> free p (trim s).
Proof.
  intros H. destruct (trim_slice s) as (n & m & ->). rewrite <- (take_drop n s) in H. apply free_suffix in H.
  rewrite <- (take_drop m (drop n s)) in H. by apply free_prefix in H.
Qed.

Lemma elem_of_uniqueSecrets p l : p ∈ uniqueSecrets l <-> p ∈ l /\ MIN_SECRET <= slen p.
Proof.
  unfold uniqueSecrets. rewrite elem_of_sort_by, elem_of_unique, list_elem_of_In, filter_In, <- list_elem_of_In, Z.leb_le. done.
Qed.

(** C28: no secret of a launch plan, and no private path of the user, that is of
    at least eight code units, holds no bracket and is not the word of the
    marker, appears in a line the daemon's log shows or in a message about it,
    whatever the line says and whichever other secrets are cut out of it. (A
    shorter secret is left, and one with brackets can be completed by the
    marker of another: [marker_completes_secret].) *)
Theorem sanitized_line_keeps_no_secret home line secrets p :
  p ∈ secrets \/ p ∈ home -> plain_secret p ->
  includes (sanitizeLogLine home line secrets) p = false.
Proof.
  intros Hin Hp. unfold sanitizeLogLine. apply trim_free. unfold slice_to.
  match goal with |- free p (take _ ?x) => assert (H : free p x) end.
  { refine (replace_group_free p _ _ Hp _ _ [] _ _ _); [reflexivity|].
    refine (replace_group_free p _ _ Hp _ _ [] _ _ _); [reflexivity|]. cbn [app]. apply replace_secrets_free; [done| |left].
    - apply Forall_forall. intros q [_ Hq]%elem_of_uniqueSecrets ->. vm_compute in Hq. congruence.
    - apply elem_of_uniqueSecrets. destruct Hp as [Hl _]. split; [|done]. apply elem_of_app.
      destruct Hin as [Hin|Hin]; [by left|right]. rewrite list_elem_of_In, filter_In, <- list_elem_of_In, Z.leb_le. done. }
  match type of H with free p ?x => rewrite <- (take_drop MAX_LINE x) in H end. by apply free_prefix in H.
Qed.

Lemma sanitized_line_keeps_no_secret_witness :
  includes (sanitizeLogLine [] (js "token=abcdefgh1 and abcdefgh1") [js "abcdefgh1"]) (js "abcdefgh1") = false.
Proof.
  apply sanitized_line_keeps_no_secret; [left; by left|]. vm_compute. split_and!; try discriminate; set_solver.
Defined.

(** A secret that ends where the marker begins comes back: what is cut out of
    the line around it completes it. *)
Example marker_completes_secret :
  includes (sanitizeLogLine [] (js "0123456789abcdefg") [js "9abcdefg"; js "12345678[RED"]) (js "12345678[RED") = true.
Proof. vm_compute. done. Qed.

(** ** The environment of the child *)

Lemma map_get_assign_all (l : ProcessEnv) : forall env k, map_wf l ->
  map_get (fold_left (fun env kv => map_set env kv.1 kv.2) l env) k =
  match map_get l k with Some v => Some v | None => map_get env k end.
Proof.
  induction l as [|[k' v] l IH]; intros env k Hl; [done|]. unfold map_wf in Hl. cbn in Hl. apply NoDup_cons in Hl as [Hk Hl].
  cbn [fold_left]. rewrite IH by done. rewrite map_get_cons, map_get_set. cbn. case_bool_decide as E; [|done].
  subst k'. destruct (map_get l k) as [v'|] eqn:Ek; [|done]. exfalso. apply Hk.
  apply map_get_elem in Ek. by apply (list_elem_of_fmap_2 fst l (k, v')).
Qed.

Lemma map_get_inherit_all parent names : forall env k,
  map_get (fold_left (inherit parent) names env) k =
  if bool_decide (k ∈ names) && truthy_opt (map_get parent k) then map_get parent k else map_get env k.
Proof.
  induction names as [|n names IH]; intros env k; [done|]. cbn [fold_left]. rewrite IH. unfold inherit.
  destruct (bool_decide (k ∈ names)) eqn:E; to_prop.
  - rewrite (bool_decide_eq_true_2 (k ∈ n :: names)) by set_solver. cbn.
    destruct (truthy_opt (map_get parent k)) eqn:Et; [done|].
    destruct (map_get parent n) as [v|] eqn:En; [|done]. destruct (truthy v) eqn:Ev; [|done].
    rewrite map_get_set. case_bool_decide; [|done]. subst. rewrite En in Et. cbn in Et. congruence.
  - cbn. destruct (decide (k = n)) as [->|Hne].
    + rewrite bool_decide_eq_true_2 by set_solver. cbn. destruct (map_get parent n) as [v|]; [|done]. cbn.
      destruct (truthy v); [|done]. by rewrite map_get_set_eq.
    + rewrite bool_decide_eq_false_2 by set_solver. cbn.
      destruct (map_get parent n) as [v|]; [|done]. destruct (truthy v); [|done]. by rewrite map_get_set_ne.
Qed.

(** The child sees the variables of the launch plan and, of its parent's,
    only the listed ones that are set; the plan's win, and Git never prompts. *)
Theorem child_environment_exact runtime parent name : map_wf runtime ->
  map_get (buildChildEnvironment runtime parent) name =
  if bool_decide (name = js "GIT_TERMINAL_PROMPT") then Some (js "0")
  else match map_get runtime name with
       | Some v => Some v
       | None => if bool_decide (name ∈ allowedParent) && truthy_opt (map_get parent name)
                 then map_get parent name else None
       end.
Proof.
  intros Hr. unfold buildChildEnvironment. rewrite map_get_set. rewrite (bool_decide_ext _ (name = js "GIT_TERMINAL_PROMPT")) by (split; congruence).
  case_bool_decide; [done|]. rewrite map_get_assign_all by done. destruct (map_get runtime name); [done|].
  by rewrite map_get_inherit_all.
Qed.

Lemma child_environment_exact_witness :
  map_get (buildChildEnvironment [(js "SOURCENERVE_CONFIG", js "/c")] [(js "AWS_SECRET", js "x")]) (js "AWS_SECRET") = None.
Proof.
  rewrite (child_environment_exact [(js "SOURCENERVE_CONFIG", js "/c")] [(js "AWS_SECRET", js "x")] (js "AWS_SECRET")
    ltac:(apply (bool_decide_unpack _); vm_compute; exact I)). vm_compute. reflexivity.
Defined.

End DaemonLog.
