(* ===== verification/DaemonManager.v ===== *)
(** * The managed daemon (daemon-manager.ts)

    [start], [stop], [restart] and [attachExternal] wait for the daemon and the
    operating system, so every call is split at its awaits and the calls
    interleave: a [World] holds the manager, the processes it has spawned, the
    events its listener got, and where each call stands ([pc]). A step is a new
    call, the answer a call waits for, or something a process does.

    What an answer says - whether a daemon serves the port, its version, its
    readiness, whether the deadline has passed - is part of the step. The
    user's private paths are an argument. *)

From S2P Require Import Prelude JsValue Regex Path DaemonLog.
Import DaemonLog.

Module DaemonManager.

(** ** State *)

Inductive DaemonRuntimeState := stopped | starting | ready | stopping_ | crashed | external | incompatible.
#[export] Instance DaemonRuntimeState_eq_dec : EqDecision DaemonRuntimeState. Proof. solve_decision. Defined.

(** [exitCode] is absent, [null] ([Some None]) or a number; a process is named
    by its index among those spawned, which stands for its [pid]. *)
Record DaemonSnapshot := {
  state : DaemonRuntimeState; managed : bool; pid : option nat; version : option jstr;
  exitCode : option (option Z); signal : option jstr; message : option jstr }.

Definition bare (st : DaemonRuntimeState) (m : bool) : DaemonSnapshot := {|
  state := st; managed := m; pid := None; version := None; exitCode := None; signal := None; message := None |}.
Definition with_message (msg : jstr) (s : DaemonSnapshot) : DaemonSnapshot := {|
  state := state s; managed := managed s; pid := pid s; version := version s; exitCode := exitCode s;
  signal := signal s; message := Some msg |}.

Inductive Signal := SIGTERM | SIGKILL.

(** A spawned process: [p_exit] is [None] while its [exitCode] and
    [signalCode] are null; [p_closed] once [close] has been emitted. *)
Record Proc := {
  p_exit : option (option Z * option jstr); p_closed : bool; p_signals : list Signal; p_secrets : list jstr }.
Definition running (p : Proc) : bool := match p_exit p with None => true | Some _ => false end.

Record ExistingDaemonProbe := {
  x_version : option jstr; x_compatible : bool; x_authenticated : bool; x_message : option jstr }.

(** What the awaiting caller of [stop] does next: return, go on in [start]
    after a version mismatch or in its catch block, or start (in [restart]). *)
Inductive Cont :=
| ReturnSnapshot
| ThenIncompatible (c : nat) (v : option jstr)
| ThenFail (e : exn) (c : nat)
| ThenStart.

Inductive pc :=
| Probing                                       (* [start]: the first probe *)
| Recovering (existing : ExistingDaemonProbe)
| ProbingAgain
| CheckingExecutable
| Polling (c : nat) (lastError : option exn)    (* [waitUntilReady]: health and readiness *)
| Sleeping (c : nat) (lastError : option exn)
| ReadingVersion (c : nat)
| WaitingClose (c : nat) (forced at_once : bool) (k : Cont)  (* [stop]: one of its two waits *)
| Attaching
| Done (r : result DaemonSnapshot).

Inductive Event :=
| StateEvent (st : DaemonRuntimeState) (msg : option jstr)
| LogEvent (level line : jstr).

Record World := {
  child : option nat; launchPlan : option DaemonLaunchPlan; stopping : bool; snapshotValue : DaemonSnapshot;
  procs : list Proc; calls : gmap nat pc; events : list Event }.

Definition new_world : World := {|
  child := None; launchPlan := None; stopping := false; snapshotValue := bare stopped false;
  procs := []; calls := ∅; events := [] |}.

Definition with_child (c : option nat) (w : World) : World := {|
  child := c; launchPlan := launchPlan w; stopping := stopping w; snapshotValue := snapshotValue w;
  procs := procs w; calls := calls w; events := events w |}.
Definition with_stopping (b : bool) (w : World) : World := {|
  child := child w; launchPlan := launchPlan w; stopping := b; snapshotValue := snapshotValue w;
  procs := procs w; calls := calls w; events := events w |}.
Definition with_procs (l : list Proc) (w : World) : World := {|
  child := child w; launchPlan := launchPlan w; stopping := stopping w; snapshotValue := snapshotValue w;
  procs := l; calls := calls w; events := events w |}.
Definition with_plan (p : DaemonLaunchPlan) (w : World) : World := {|
  child := child w; launchPlan := Some p; stopping := stopping w; snapshotValue := snapshotValue w;
  procs := procs w; calls := calls w; events := events w |}.
Definition goto (id : nat) (c : pc) (w : World) : World := {|
  child := child w; launchPlan := launchPlan w; stopping := stopping w; snapshotValue := snapshotValue w;
  procs := procs w; calls := <[id := c]> (calls w); events := events w |}.
Definition emit (e : Event) (w : World) : World := {|
  child := child w; launchPlan := launchPlan w; stopping := stopping w; snapshotValue := snapshotValue w;
  procs := procs w; calls := calls w; events := events w ++ [e] |}.

(** [transition]: the new snapshot, and its event *)
Definition transition (s : DaemonSnapshot) (w : World) : World :=
  emit (StateEvent (state s) (message s)) {|
    child := child w; launchPlan := launchPlan w; stopping := stopping w; snapshotValue := s;
    procs := procs w; calls := calls w; events := events w |}.

Definition finish (id : nat) (r : result DaemonSnapshot) : World -> World := goto id (Done r).
Definition return_snapshot (id : nat) (w : World) : World := finish id (Ok (snapshotValue w)) w.
Definition raise (id : nat) (msg : string) : World -> World := finish id (fail msg).

Definition is_child (c : nat) (w : World) : bool := bool_decide (child w = Some c).
Definition is_running (c : nat) (w : World) : bool := match procs w !! c with Some p => running p | None => false end.
Definition has_closed (c : nat) (w : World) : bool := match procs w !! c with Some p => p_closed p | None => false end.
Definition secrets_of (c : nat) (w : World) : list jstr := match procs w !! c with Some p => p_secrets p | None => [] end.

(** [child.kill(signal)] *)
Definition kill (s : Signal) (c : nat) (w : World) : World :=
  with_procs (alter (fun p => {| p_exit := p_exit p; p_closed := p_closed p; p_signals := p_signals p ++ [s];
                                 p_secrets := p_secrets p |}) c (procs w)) w.

(** [!snapshot.managed && (state === "external" || state === "incompatible")] *)
Definition is_foreign (s : DaemonSnapshot) : bool :=
  negb (managed s) && (bool_decide (state s = external) || bool_decide (state s = incompatible)).

Section manager.
Context (home : list jstr) (expectedVersion binaryName : jstr).

(** ** [start] *)

Definition start_call (id : nat) (w : World) : World :=
  match child w, launchPlan w with
  | Some _, _ => return_snapshot id w
  | None, None => raise id "SourceNerve daemon launch plan is not configured" w
  | None, Some _ => goto id Probing w
  end.

(** What [probeExisting] finds: no health, no answer to the authenticated
    request, or a version. *)
Inductive ProbeAnswer := NoHealth | NotAuthenticated | Serves (v : option jstr).
Definition probeExisting (a : ProbeAnswer) : option ExistingDaemonProbe :=
  match a with
  | NoHealth => None
  | Serves v => Some {| x_version := v; x_compatible := bool_decide (v = Some expectedVersion);
                        x_authenticated := true; x_message := None |}
  | NotAuthenticated => Some {| x_version := None; x_compatible := false; x_authenticated := false;
      x_message := Some (js "A process is already serving the SourceNerve health endpoint but Desktop cannot authenticate it") |}
  end.

Definition default_message (x : ExistingDaemonProbe) : jstr :=
  if x_compatible x then js "An externally managed SourceNerve daemon is already running"
  else js "Running SourceNerve version " ++ default (js "unknown") (x_version x)
       ++ js " is incompatible with Desktop " ++ expectedVersion.

(** [if (existing) ... await ensureExecutable] *)
Definition after_probe (id : nat) (existing : option ExistingDaemonProbe) (w : World) : World :=
  match existing with
  | Some x =>
      return_snapshot id (transition {|
        state := if x_compatible x then external else incompatible; managed := false; pid := None;
        version := x_version x; exitCode := None; signal := None;
        message := Some (default (default_message x) (x_message x)) |} w)
  | None => goto id CheckingExecutable w
  end.

(** Spawn, and wait for the process to become ready. *)
Definition spawn (id : nat) (w : World) : World :=
  let secrets := match launchPlan w with Some p => redactedSecrets p | None => [] end in
  let c := length (procs w) in
  let w := transition (bare starting true) (with_stopping false w) in
  goto id (Polling c None) (with_child (Some c) (with_procs
    (procs w ++ [ {| p_exit := None; p_closed := false; p_signals := []; p_secrets := secrets |} ]) w)).

(** The end of the catch block *)
Definition fail_end (id : nat) (c : nat) (e : exn) (w : World) : World :=
  finish id (Throw e)
    (if bool_decide (state (snapshotValue w) = incompatible) then w
     else transition (with_message (match e with
            | Error msg => sanitizeLogLine home msg (secrets_of c w)
            | NotAnError _ => js "SourceNerve daemon failed to become ready"
            end) (bare crashed true)) w).

(** ** [stop] *)

(** [waitForClose(child, ...)]: a process that has exited counts as closed at once. *)
Definition wait_close (id c : nat) (forced : bool) (k : Cont) (w : World) : World :=
  goto id (WaitingClose c forced (negb (is_running c w)) k) w.

(** [stop] of a child, up to its first wait *)
Definition stop_child (id c : nat) (k : Cont) (w : World) : World :=
  let s := snapshotValue w in
  let w := transition {| state := stopping_; managed := true; pid := Some c; version := version s;
                         exitCode := exitCode s; signal := signal s; message := message s |} (with_stopping true w) in
  wait_close id c false k (if is_running c w then kill SIGTERM c w else w).

(** The catch block of [start] *)
Definition fail_start (id c : nat) (e : exn) (w : World) : World :=
  if is_child c w then stop_child id c (ThenFail e c) w else fail_end id c e w.

(** [stop] has ended with [r]. *)
Definition after_stop (id : nat) (k : Cont) (r : result DaemonSnapshot) (w : World) : World :=
  match k with
  | ReturnSnapshot => finish id r w
  | ThenIncompatible c v =>
      fail_start id c (Error (js "bundled SourceNerve daemon version is incompatible"))
        (transition {| state := incompatible; managed := true; pid := None; version := v; exitCode := None;
           signal := None; message := Some (js "Bundled SourceNerve version " ++ default (js "unknown") v
             ++ js " does not match Desktop " ++ expectedVersion) |} w)
  | ThenFail e c => fail_end id c e w
  | ThenStart => match r with Ok _ => start_call id w | Throw e => finish id (Throw e) w end
  end.

Definition stop_call (id : nat) (k : Cont) (w : World) : World :=
  match child w with
  | Some c => stop_child id c k w
  | None =>
      if is_foreign (snapshotValue w)
      then after_stop id k (fail "cannot stop an externally managed or conflicting SourceNerve daemon") w
      else let w := transition (bare stopped (managed (snapshotValue w))) w in
           after_stop id k (Ok (snapshotValue w)) w
  end.

(** After one of the two waits of [stop] *)
Definition after_wait (id c : nat) (forced closed : bool) (k : Cont) (w : World) : World :=
  if negb closed && is_running c w then
    if forced then
      after_stop id k (fail "SourceNerve daemon did not terminate")
        (transition (with_message (js "SourceNerve daemon did not terminate after forced shutdown")
           {| state := crashed; managed := true; pid := Some c; version := None; exitCode := None; signal := None;
              message := None |}) (with_stopping false w))
    else wait_close id c true k (kill SIGKILL c w)
  else
    let w := transition (bare stopped true)
               (with_stopping false (if is_child c w then with_child None w else w)) in
    after_stop id k (Ok (snapshotValue w)) w.

(** ** [restart] and [attachExternal] *)

Definition restart_call (id : nat) (w : World) : World :=
  if is_foreign (snapshotValue w)
  then raise id "cannot restart an externally managed or conflicting SourceNerve daemon" w
  else match child w with Some _ => stop_call id ThenStart w | None => start_call id w end.

Definition attach_call (id : nat) (w : World) : World :=
  match child w with
  | Some _ => raise id "managed SourceNerve daemon is already running" w
  | None => goto id Attaching w
  end.
Definition attach_probed (id : nat) (existing : option ExistingDaemonProbe) (w : World) : World :=
  match existing with
  | None => raise id "no external SourceNerve daemon is available" w
  | Some x =>
      if negb (x_authenticated x) then raise id "external SourceNerve daemon uses a different local credential" w
      else if negb (x_compatible x) then raise id "external SourceNerve daemon is incompatible" w
      else return_snapshot id (transition {|
        state := external; managed := false; pid := None; version := x_version x; exitCode := None; signal := None;
        message := Some (js "Attached to externally managed SourceNerve daemon") |} w)
  end.

(** ** The answers that calls wait for *)

Inductive PollAnswer := PollReady | PollNotReady | PollFails (e : exn).
Inductive Answer :=
| Probed (a : ProbeAnswer)
| Recovered (recovered : bool)
| Executable (found : bool)
| Polled (a : PollAnswer)
| Slept (deadline_passed : bool)
| VersionRead (r : result (option jstr))
| Closed
| TimedOut.

Definition timeout_error (lastError : option exn) : exn :=
  Error (js "SourceNerve readiness timeout" ++
         match lastError with Some (Error msg) => js ": " ++ msg | _ => [] end).

(** The loop of [waitUntilReady]: after the two requests, and after the pause *)
Definition polled (id c : nat) (a : PollAnswer) (w : World) : World :=
  match a with
  | PollReady => goto id (ReadingVersion c) w
  | PollNotReady => goto id (Sleeping c (Some (Error (js "SourceNerve readiness reported not ready")))) w
  | PollFails e => goto id (Sleeping c (Some e)) w
  end.
Definition slept (id c : nat) (lastError : option exn) (deadline_passed : bool) (w : World) : World :=
  if deadline_passed then fail_start id c (timeout_error lastError) w
  else match child w with
       | None => fail_start id c (Error (js "SourceNerve daemon exited during startup")) w
       | Some _ => goto id (Polling c lastError) w
       end.

Definition resume (id : nat) (c : pc) (a : Answer) (w : World) : World :=
  match c, a with
  | Probing, Probed a =>
      match probeExisting a with
      | Some x => if x_authenticated x then goto id (Recovering x) w else after_probe id (Some x) w
      | None => after_probe id None w
      end
  | Recovering x, Recovered r =>
      if r then goto id ProbingAgain (emit (LogEvent (js "warn")
                  (js "Recovered an orphaned Desktop-managed SourceNerve daemon before restart")) w)
      else after_probe id (Some x) w
  | ProbingAgain, Probed a => after_probe id (probeExisting a) w
  | CheckingExecutable, Executable found =>
      if found then spawn id w
      else finish id (Throw (Error (js "bundled SourceNerve daemon is unavailable: " ++ binaryName))) w
  | Polling c _, Polled a => polled id c a w
  | Sleeping c lastError, Slept deadline_passed => slept id c lastError deadline_passed w
  | ReadingVersion c, VersionRead (Ok v) =>
      if bool_decide (v = Some expectedVersion) then
        return_snapshot id (transition {| state := ready; managed := true; pid := Some c; version := v;
                                          exitCode := None; signal := None; message := None |} w)
      else stop_call id (ThenIncompatible c v) w
  | ReadingVersion c, VersionRead (Throw e) => fail_start id c e w
  | WaitingClose c forced at_once k, Closed =>
      if at_once || has_closed c w then after_wait id c forced true k w else w
  | WaitingClose c forced at_once k, TimedOut =>
      if at_once || has_closed c w then w else after_wait id c forced false k w
  | Attaching, Probed a => attach_probed id (probeExisting a) w
  | _, _ => w
  end.

(** ** What processes do *)

Definition set_exit (code : option Z) (sig : option jstr) (p : Proc) : Proc :=
  {| p_exit := Some (code, sig); p_closed := p_closed p; p_signals := p_signals p; p_secrets := p_secrets p |}.
Definition set_closed (p : Proc) : Proc :=
  {| p_exit := p_exit p; p_closed := true; p_signals := p_signals p; p_secrets := p_secrets p |}.

(** The [close] listener of [start] *)
Definition on_close (c : nat) (code : option Z) (sig : option jstr) (w : World) : World :=
  if is_child c w then
    let intentional := stopping w in
    transition {|
      state := if intentional then stopped else crashed; managed := true; pid := None; version := None;
      exitCode := Some code; signal := sig;
      message := if intentional then None
                 else Some (js "SourceNerve daemon exited unexpectedly"
                            ++ match code with None => [] | Some n => js " with code " ++ js_int n end) |}
      (with_stopping false (with_child None w))
  else w.

(** The [error] listener, for a process that could not be spawned. (Node also
    emits [error] when a process could not be signalled; that is not modelled.) *)
Definition on_error (c : nat) (msg : jstr) (w : World) : World :=
  if is_child c w
  then transition (with_message (sanitizeLogLine home msg (secrets_of c w)) (bare crashed true)) (with_child None w)
  else w.

Definition on_line (c : nat) (is_error : bool) (line : jstr) (w : World) : World :=
  let msg := sanitizeLogLine home line (secrets_of c w) in
  if truthy msg then emit (LogEvent (js (if is_error then "error" else "info")) msg) w else w.

Inductive Input :=
| CallStart (id : nat) | CallStop (id : nat) | CallRestart (id : nat) | CallAttach (id : nat)
| Configure (plan : DaemonLaunchPlan)
| Resume (id : nat) (a : Answer)
| ProcExit (c : nat) (code : option Z) (sig : option jstr)
| ProcClose (c : nat)
| ProcError (c : nat) (msg : jstr)
| ProcLine (c : nat) (is_error : bool) (line : jstr).

Definition new_call (id : nat) (f : World -> World) (w : World) : World :=
  match calls w !! id with Some _ => w | None => f w end.

Definition step (i : Input) (w : World) : World :=
  match i with
  | CallStart id => new_call id (start_call id) w
  | CallStop id => new_call id (stop_call id ReturnSnapshot) w
  | CallRestart id => new_call id (restart_call id) w
  | CallAttach id => new_call id (attach_call id) w
  | Configure plan => match configure plan with Ok p => with_plan p w | Throw _ => w end
  | Resume id a => match calls w !! id with Some c => resume id c a w | None => w end
  | ProcExit c code sig =>
      if is_running c w then with_procs (alter (set_exit code sig) c (procs w)) w else w
  | ProcClose c =>
      match procs w !! c with
      | Some p =>
          match p_exit p with
          | Some (code, sig) => if p_closed p then w
                                else on_close c code sig (with_procs (alter set_closed c (procs w)) w)
          | None => w
          end
      | None => w
      end
  | ProcError c msg =>
      if is_running c w then on_error c msg (with_procs (alter (set_exit (Some (-2)) None) c (procs w)) w) else w
  | ProcLine c is_error line => on_line c is_error line w
  end.
Definition run (is_ : list Input) (w : World) : World := fold_left (fun w i => step i w) is_ w.

End manager.
(** ** Calls that are about to spawn *)

Definition pre_spawn (c : pc) : bool :=
  match c with Probing | Recovering _ | ProbingAgain | CheckingExecutable => true | _ => false end.
Definition launching (c : pc) : bool :=
  pre_spawn c || match c with WaitingClose _ _ _ ThenStart => true | _ => false end.
Definition is_launching (w : World) : Prop := exists id c, calls w !! id = Some c /\ launching c = true.

(** What holds of the processes whatever the calls are doing, as long as two
    launches do not overlap. *)
Record inv (ch : option nat) (ps : list Proc) (cs : gmap nat pc) : Prop := {
  i_live : forall c p, ps !! c = Some p -> running p = true -> ch = Some c;
  i_child : forall c, ch = Some c -> exists p, ps !! c = Some p /\ p_closed p = false;
  i_closed : forall c p, ps !! c = Some p -> p_closed p = true -> running p = false;
  i_idle : forall id c, cs !! id = Some c -> pre_spawn c = true -> ch = None;
  i_one : forall id id' c c', cs !! id = Some c -> cs !! id' = Some c' ->
            launching c = true -> launching c' = true -> id = id';
  i_wait : forall id c f k, cs !! id = Some (WaitingClose c f true k) ->
             exists p, ps !! c = Some p /\ running p = false }.

Definition Inv (w : World) : Prop := inv (child w) (procs w) (calls w).
(** The same, call [id] left aside: it is running. *)
Definition Inv_but (id : nat) (w : World) : Prop := inv (child w) (procs w) (delete id (calls w)).
Definition alone (id : nat) (w : World) : Prop :=
  forall id' c, calls w !! id' = Some c -> id' <> id -> launching c = false.

Lemma Inv_take id c w : Inv w -> calls w !! id = Some c ->
  Inv_but id w /\ (launching c = true -> alone id w) /\ (pre_spawn c = true -> child w = None) /\
  (forall d f k, c = WaitingClose d f true k -> exists p, procs w !! d = Some p /\ running p = false).
Proof.
  intros [H1 H2 H3 H4 H5 H6] Hc. split_and!.
  - split; auto; intros; repeat match goal with H : delete _ _ !! _ = Some _ |- _ => apply lookup_delete_Some in H as [? H] end; eauto.
  - intros Hl id' c' Hc' Hne. destruct (launching c') eqn:E; [|done]. destruct Hne. by eapply H5.
  - intros Hp. by eapply H4.
  - intros d f k ->. by eapply H6.
Qed.

Lemma Inv_new id w : Inv w -> calls w !! id = None -> Inv_but id w.
Proof. intros H Hc. unfold Inv_but. by rewrite delete_id. Qed.

Lemma goto_Inv id c w : Inv_but id w -> (pre_spawn c = true -> child w = None) -> (launching c = true -> alone id w) ->
  (forall d f k, c = WaitingClose d f true k -> exists p, procs w !! d = Some p /\ running p = false) -> Inv (goto id c w).
Proof.
  intros [H1 H2 H3 H4 H5 H6] Hp Ha Hw. split; cbn; auto.
  - intros id' c' Hc'. apply lookup_insert_Some in Hc' as [[<- <-]|[Hne Hc']]; [done|].
    eapply H4. by rewrite lookup_delete_ne.
  - intros i j ci cj Hi Hj Li Lj. apply lookup_insert_Some in Hi as [[<- <-]|[Hi' Hi]];
      apply lookup_insert_Some in Hj as [[<- <-]|[Hj' Hj]]; [done| | |].
    + rewrite (Ha Li _ _ Hj) in Lj by congruence. done.
    + rewrite (Ha Lj _ _ Hi) in Li by congruence. done.
    + eapply (H5 i j ci cj); by rewrite ?lookup_delete_ne.
  - intros id' d f k Hc'. apply lookup_insert_Some in Hc' as [[<- ->]|[Hne Hc']]; [by eapply Hw|].
    eapply H6. by rewrite lookup_delete_ne.
Qed.

Lemma goto_quiet id c w : Inv_but id w -> launching c = false ->
  (forall d f k, c <> WaitingClose d f true k) -> Inv (goto id c w).
Proof.
  intros H Hl Hw. apply goto_Inv; [done| | |].
  - unfold launching in Hl. intros Hp. by rewrite Hp in Hl.
  - congruence.
  - intros d f k ->. by destruct (Hw d f k).
Qed.
Lemma finish_Inv id r w : Inv_but id w -> Inv (finish id r w).
Proof. intros H. by apply goto_quiet. Qed.

(** Forgetting a child that no longer runs, and changing processes in ways
    that do not make them run. *)
Lemma inv_forget ch ps cs : inv ch ps cs -> (forall c p, ch = Some c -> ps !! c = Some p -> running p = false) ->
  inv None ps cs.
Proof.
  intros [H1 H2 H3 H4 H5 H6] Hr. split; auto; [|done].
  intros c p Hp Hrun. pose proof (H1 c p Hp Hrun) as Hc. by rewrite (Hr c p Hc Hp) in Hrun.
Qed.

Lemma inv_alter ch ps cs c f : inv ch ps cs ->
  (forall p, running (f p) = true -> running p = true) ->
  (forall p, ps !! c = Some p -> p_closed (f p) = true -> running (f p) = false /\ (p_closed p = false -> ch <> Some c)) ->
  inv ch (alter f c ps) cs.
Proof.
  intros [H1 H2 H3 H4 H5 H6] Hr Hc.
  assert (L : forall d q, alter f c ps !! d = Some q -> exists p, ps !! d = Some p /\ (q = p \/ (d = c /\ q = f p))).
  { intros d q Hq. destruct (decide (d = c)) as [->|Hne].
    - rewrite list_lookup_alter_eq in Hq. apply fmap_Some in Hq as (p & Hp & ->). eauto.
    - rewrite list_lookup_alter_ne in Hq by done. eauto. }
  split; auto.
  - intros d q Hq Hrun. destruct (L d q Hq) as (p & Hp & [->|[-> ->]]); eauto.
  - intros d Hd. destruct (H2 d Hd) as (p & Hp & Hcl). destruct (decide (d = c)) as [->|Hne].
    + exists (f p). rewrite list_lookup_alter_eq, Hp. split; [done|]. destruct (p_closed (f p)) eqn:E; [|done].
      by destruct (Hc p Hp E) as [_ Hch]; destruct (Hch Hcl).
    + exists p. by rewrite list_lookup_alter_ne.
  - intros d q Hq Hcl. destruct (L d q Hq) as (p & Hp & [->|[-> ->]]); [by eapply H3|]. by apply Hc.
  - intros id d g k Hw. destruct (H6 _ _ _ _ Hw) as (p & Hp & Hrun). destruct (decide (d = c)) as [->|Hne].
    + exists (f p). rewrite list_lookup_alter_eq, Hp. split; [done|]. destruct (running (f p)) eqn:E; [|done].
      by rewrite <- Hrun, (Hr p E).
    + exists p. by rewrite list_lookup_alter_ne.
Qed.

Section reachable.
Context (home : list jstr) (expectedVersion binaryName : jstr).

Lemma is_running_lookup c w : is_running c w = true <-> exists p, procs w !! c = Some p /\ running p = true.
Proof. unfold is_running. destruct (procs w !! c); naive_solver. Qed.

Lemma fail_end_Inv id c e w : Inv_but id w -> Inv (fail_end home id c e w).
Proof. intros H. unfold fail_end. apply finish_Inv. by destruct (bool_decide _). Qed.

Lemma wait_close_Inv id c forced k w : Inv_but id w -> is_Some (procs w !! c) -> (k = ThenStart -> alone id w) ->
  Inv (wait_close id c forced k w).
Proof.
  intros H [p Hp] Hk. apply goto_Inv; [done|done| |].
  - unfold launching. cbn. destruct k; try done. intros _. by apply Hk.
  - intros d f k' [= <- _ Hr _]. apply negb_true_iff in Hr. unfold is_running in Hr. rewrite Hp in Hr. eauto.
Qed.

Lemma kill_Inv id s c w : Inv_but id w -> Inv_but id (kill s c w).
Proof.
  intros H. apply inv_alter; [done|done|]. intros p Hp Hcl. cbn in *. split; [|congruence].
  exact (i_closed _ _ _ H c p Hp Hcl).
Qed.

Lemma stop_child_Inv id c k w : Inv_but id w -> child w = Some c -> (k = ThenStart -> alone id w) ->
  Inv (stop_child id c k w).
Proof.
  intros H Hc Hk. destruct (i_child _ _ _ H c Hc) as (p & Hp & _). unfold stop_child.
  set (w1 := transition _ (with_stopping true w)).
  assert (H1 : Inv_but id w1) by exact H. assert (A1 : k = ThenStart -> alone id w1) by exact Hk.
  assert (P1 : procs w1 !! c = Some p) by exact Hp.
  destruct (is_running c w1); apply wait_close_Inv; [by apply kill_Inv| |done|done|by rewrite P1|done].
  unfold kill. cbn [procs with_procs]. by rewrite list_lookup_alter_eq, P1.
Qed.

Lemma is_child_true c w : is_child c w = true -> child w = Some c.
Proof. unfold is_child. intros H. by to_prop. Qed.

Lemma fail_start_Inv id c e w : Inv_but id w -> Inv (fail_start home id c e w).
Proof.
  intros H. unfold fail_start. destruct (is_child c w) eqn:E; [|by apply fail_end_Inv].
  apply stop_child_Inv; [done|by apply is_child_true|done].
Qed.

Lemma start_call_Inv id w : Inv_but id w -> alone id w -> Inv (start_call id w).
Proof.
  intros H Ha. unfold start_call. destruct (child w) eqn:E; [by apply finish_Inv|].
  destruct (launchPlan w); [|by apply finish_Inv]. by apply goto_Inv.
Qed.

Lemma after_stop_Inv id k r w : Inv_but id w -> (k = ThenStart -> alone id w) ->
  Inv (after_stop home expectedVersion id k r w).
Proof.
  intros H Hk. destruct k as [|c v|e c|]; cbn.
  - by apply finish_Inv.
  - by apply fail_start_Inv.
  - by apply fail_end_Inv.
  - destruct r; [by apply start_call_Inv; auto|by apply finish_Inv].
Qed.

Lemma stop_call_Inv id k w : Inv_but id w -> (k = ThenStart -> alone id w) ->
  Inv (stop_call home expectedVersion id k w).
Proof.
  intros H Hk. unfold stop_call. destruct (child w) eqn:E; [by apply stop_child_Inv|].
  destruct (is_foreign _); by apply after_stop_Inv.
Qed.

Lemma after_wait_Inv id c forced closed k w : Inv_but id w -> (k = ThenStart -> alone id w) ->
  (closed = true -> is_running c w = false) -> Inv (after_wait home expectedVersion id c forced closed k w).
Proof.
  intros H Hk Hclosed. unfold after_wait. destruct (negb closed && is_running c w) eqn:E.
  - destruct forced; [by apply after_stop_Inv|]. apply wait_close_Inv; [by apply kill_Inv| |done].
    apply andb_prop in E as [_ E]. apply is_running_lookup in E as (p & Hp & _). cbn.
    rewrite list_lookup_alter_eq, Hp. done.
  - apply after_stop_Inv; [|by destruct (is_child c w)].
    destruct (is_child c w) eqn:Ec; [|done]. apply (inv_forget _ _ _ H). unfold is_child in Ec. to_prop.
    intros d p Hd Hp. assert (d = c) as -> by congruence. destruct (running p) eqn:Er; [|done].
    assert (Hr : is_running c w = true) by (apply is_running_lookup; eauto). rewrite Hr in E, Hclosed.
    destruct closed; [by specialize (Hclosed eq_refl)|done].
Qed.

Lemma after_probe_Inv id x w : Inv_but id w -> alone id w -> child w = None -> Inv (after_probe expectedVersion id x w).
Proof. intros H Ha Hc. destruct x; cbn; [by apply finish_Inv|by apply goto_Inv]. Qed.

Lemma spawn_Inv id w : Inv_but id w -> alone id w -> child w = None -> Inv (spawn id w).
Proof.
  intros [H1 H2 H3 H4 H5 H6] Ha Hc. apply goto_quiet; [|done|done]. cbn. split; cbn; auto.
  - intros c p Hp Hr. apply lookup_app_Some in Hp as [Hp|[Hl Hp]].
    + rewrite (H1 c p Hp Hr) in Hc. done.
    + apply list_lookup_singleton_Some in Hp as [Hp _]. f_equal. lia.
  - intros c [= <-]. eexists. by rewrite list_lookup_middle.
  - intros c p Hp Hcl. apply lookup_app_Some in Hp as [Hp|[_ Hp]]; [by eapply H3|].
    by apply list_lookup_singleton_Some in Hp as [_ <-].
  - intros id' c Hc' Hp. apply lookup_delete_Some in Hc' as [Hne Hc'].
    assert (Hl : launching c = false) by (by eapply Ha). unfold launching in Hl. by rewrite Hp in Hl.
  - intros id' c f k Hw. destruct (H6 _ _ _ _ Hw) as (p & Hp & Hr). exists p. split; [|done].
    by apply lookup_app_l_Some.
Qed.

(** ** Every step keeps it *)

Lemma resume_Inv id c a w : Inv w -> calls w !! id = Some c ->
  Inv (resume home expectedVersion binaryName id c a w).
Proof.
  intros H Hc. destruct (Inv_take id c w H Hc) as (Hb & Ha & Hp & Hw).
  destruct c as [|x| | |d le|d le|d|d forced ao k| |r]; cbn in Ha, Hp; cbn [resume];
    try specialize (Ha eq_refl); try specialize (Hp eq_refl).
  - destruct a; try done. destruct (probeExisting expectedVersion a) as [x|]; [|by apply after_probe_Inv].
    destruct (x_authenticated x); [by apply goto_Inv|by apply after_probe_Inv].
  - destruct a as [|r| | | | | |]; try done. destruct r; [by apply goto_Inv|by apply after_probe_Inv].
  - destruct a; try done. by apply after_probe_Inv.
  - destruct a as [| |found| | | | |]; try done. destruct found; [by apply spawn_Inv|by apply finish_Inv].
  - destruct a as [| | |a| | | |]; try done. destruct a; by apply goto_quiet.
  - destruct a as [| | | |b| | |]; try done. unfold slept. destruct b; [by apply fail_start_Inv|].
    destruct (child w); [by apply goto_quiet|by apply fail_start_Inv].
  - destruct a as [| | | | |r| |]; try done. destruct r as [v|e]; [|by apply fail_start_Inv].
    case_bool_decide; [by apply finish_Inv|]. by apply stop_call_Inv.
  - assert (Hk : k = ThenStart -> alone id w) by (intros ->; by apply Ha).
    destruct a; try done.
    + destruct (ao || has_closed d w) eqn:E; [|done]. apply after_wait_Inv; [done|done|]. intros _.
      destruct (is_running d w) eqn:Er; [|done]. apply is_running_lookup in Er as (p & Hd & Hr).
      destruct ao; cbn in E.
      * destruct (Hw _ _ _ eq_refl) as (p' & Hd' & Hr'). congruence.
      * unfold has_closed in E. rewrite Hd in E. by rewrite (i_closed _ _ _ Hb d p Hd E) in Hr.
    + destruct (ao || has_closed d w); [done|]. by apply after_wait_Inv.
  - destruct a; try done. destruct (probeExisting expectedVersion a) as [x|]; cbn; [|by apply finish_Inv].
    destruct (negb (x_authenticated x)); [by apply finish_Inv|].
    destruct (negb (x_compatible x)); by apply finish_Inv.
  - by destruct a.
Qed.

(** A launch is a call of [start] or [restart]. *)
Definition launches (i : Input) : Prop := match i with CallStart _ | CallRestart _ => True | _ => False end.

Lemma not_launching_alone id w : ~ is_launching w -> alone id w.
Proof. intros H id' c Hc _. destruct (launching c) eqn:E; [|done]. destruct H. by exists id', c. Qed.

Lemma new_call_Inv id f w : Inv w -> (Inv_but id w -> Inv (f w)) -> Inv (new_call id f w).
Proof. intros H Hf. unfold new_call. destruct (calls w !! id) eqn:E; [done|]. by apply Hf, Inv_new. Qed.

Lemma alter_exit_inv ch ps cs c code sig : inv ch ps cs -> inv ch (alter (set_exit code sig) c ps) cs.
Proof.
  intros H. apply (inv_alter _ _ _ _ _ H); [done|]. intros p Hp Hcl. split; [done|]. cbn in Hcl. congruence.
Qed.

Lemma alter_closed_inv ch ps cs c p : inv ch ps cs -> ps !! c = Some p -> running p = false -> ch <> Some c ->
  inv ch (alter set_closed c ps) cs.
Proof.
  intros H Hp Hr Hch. apply (inv_alter _ _ _ _ _ H); [done|]. intros q Hq _. split; [|done].
  assert (q = p) as -> by congruence. exact Hr.
Qed.

Lemma step_Inv i w : Inv w -> (launches i -> ~ is_launching w) ->
  Inv (step home expectedVersion binaryName i w).
Proof.
  intros H Hl. destruct i as [id|id|id|id|plan|id a|c code sig|c|c msg|c err line]; cbn [step].
  - apply new_call_Inv; [done|]. intros Hb. apply start_call_Inv; [done|]. by apply not_launching_alone, Hl.
  - apply new_call_Inv; [done|]. intros Hb. by apply stop_call_Inv.
  - apply new_call_Inv; [done|]. intros Hb. assert (Ha : alone id w) by by apply not_launching_alone, Hl.
    unfold restart_call. destruct (is_foreign _); [by apply finish_Inv|].
    destruct (child w) eqn:E; [by apply stop_call_Inv|by apply start_call_Inv].
  - apply new_call_Inv; [done|]. intros Hb. unfold attach_call.
    destruct (child w); [by apply finish_Inv|by apply goto_quiet].
  - by destruct (configure plan).
  - destruct (calls w !! id) eqn:E; [by apply resume_Inv|done].
  - destruct (is_running c w); [|done]. by apply alter_exit_inv.
  - destruct (procs w !! c) as [p|] eqn:Ep; [|done]. destruct (p_exit p) as [[code sig]|] eqn:Ex; [|done].
    assert (Hr : running p = false) by (unfold running; by rewrite Ex).
    destruct (p_closed p); [done|]. unfold on_close. cbn. destruct (is_child c _) eqn:Ec.
    + apply is_child_true in Ec. apply (alter_closed_inv None (procs w) (calls w) c p); [|done..].
      apply (inv_forget _ _ _ H). intros d q Hd Hq. cbn in Ec. congruence.
    + apply (alter_closed_inv (child w) (procs w) (calls w) c p); [done..|].
      unfold is_child in Ec. by to_prop.
  - destruct (is_running c w) eqn:Er; [|done]. apply is_running_lookup in Er as (p & Hp & Hr).
    unfold on_error. destruct (is_child c _) eqn:Ec; [|by apply alter_exit_inv].
    apply is_child_true in Ec. cbn in Ec. apply (inv_forget (child w)); [by apply alter_exit_inv|].
    intros d q Hd Hq. assert (d = c) as -> by congruence. cbn in Hq. rewrite list_lookup_alter_eq, Hp in Hq.
    by injection Hq as <-.
  - unfold on_line. by destruct (truthy _).
Qed.

(** ** Runs *)

(** A run in which no [start] or [restart] is called while one is on its way. *)
Inductive reachable : World -> Prop :=
| reach_new : reachable new_world
| reach_step i w : reachable w -> (launches i -> ~ is_launching w) ->
    reachable (step home expectedVersion binaryName i w).

Lemma new_Inv : Inv new_world.
Proof. by split. Qed.

Lemma reachable_Inv w : reachable w -> Inv w.
Proof. induction 1; [apply new_Inv|by apply step_Inv]. Qed.

(** C13: the manager never loses a daemon. As long as launches do not overlap,
    over every interleaving of calls, answers, exits and listeners: a daemon
    process that still runs is the one [stop] and the listeners act on, so at
    most one runs; and what the manager holds as its child has not been seen
    to close. *)
Theorem running_daemon_is_child w : reachable w ->
  (forall c p, procs w !! c = Some p -> running p = true -> child w = Some c) /\
  (forall c c' p p', procs w !! c = Some p -> procs w !! c' = Some p' ->
     running p = true -> running p' = true -> c = c') /\
  (forall c, child w = Some c -> exists p, procs w !! c = Some p /\ p_closed p = false).
Proof.
  intros H%reachable_Inv. split_and!; [apply H| |apply H].
  intros c c' p p' Hp Hp' Hr Hr'. pose proof (i_live _ _ _ H _ _ Hp Hr). pose proof (i_live _ _ _ H _ _ Hp' Hr').
  congruence.
Qed.

(** ** [stop] *)

Lemma is_running_kill s c d w : is_running d (kill s c w) = is_running d w.
Proof.
  unfold is_running, kill. cbn. destruct (decide (d = c)) as [->|Hne].
  - rewrite list_lookup_alter_eq. by destruct (procs w !! c).
  - by rewrite list_lookup_alter_ne.
Qed.

(** The end of a wait: with [close] when the process has closed or had exited
    before the wait began, with the timer otherwise. *)
Definition wait_answer (c : nat) (at_once : bool) (w : World) : Answer :=
  if at_once || has_closed c w then Closed else TimedOut.

(** C29: [stop] settles, and says what it did. Whatever the process does in the
    meantime, each of its two waits ends the call or, after the first, kills
    the process. When it returns, the process has exited, the manager has let
    go of it and is stopped; when it throws, the process still runs after the
    second wait, and the manager, which still holds it, reports a crash. *)
Theorem stop_settles w id c forced at_once :
  reachable w -> calls w !! id = Some (WaitingClose c forced at_once ReturnSnapshot) ->
  let w' := step home expectedVersion binaryName (Resume id (wait_answer c at_once w)) w in
  (is_running c w = false /\ is_running c w' = false /\ child w' <> Some c /\
     snapshotValue w' = bare stopped true /\ calls w' !! id = Some (Done (Ok (bare stopped true)))) \/
  (is_running c w = true /\ forced = false /\ is_running c w' = true /\
     calls w' !! id = Some (WaitingClose c true false ReturnSnapshot) /\
     exists p, procs w' !! c = Some p /\ last (p_signals p) = Some SIGKILL) \/
  (is_running c w = true /\ forced = true /\ is_running c w' = true /\ child w' = Some c /\
     state (snapshotValue w') = crashed /\
     calls w' !! id = Some (Done (fail "SourceNerve daemon did not terminate"))).
Proof.
  intros H%reachable_Inv Hc w'.
  assert (Hw : w' = after_wait home expectedVersion id c forced (at_once || has_closed c w) ReturnSnapshot w).
  { unfold w'. cbn [step]. rewrite Hc. unfold wait_answer. destruct (at_once || has_closed c w) eqn:E; cbn [resume]; by rewrite E. }
  rewrite Hw. clear Hw w'.
  assert (Hclosed : at_once || has_closed c w = true -> is_running c w = false).
  { intros E. destruct (is_running c w) eqn:Er; [|done]. apply is_running_lookup in Er as (p & Hp & Hr).
    destruct at_once; cbn in E.
    - destruct (i_wait _ _ _ H _ _ _ _ Hc) as (p' & Hp' & Hr'). congruence.
    - unfold has_closed in E. rewrite Hp in E. by rewrite (i_closed _ _ _ H c p Hp E) in Hr. }
  unfold after_wait. destruct (is_running c w) eqn:Er.
  - right. destruct (at_once || has_closed c w); [by specialize (Hclosed eq_refl)|]. cbn [negb andb].
    apply is_running_lookup in Er as Hp. destruct Hp as (p & Hp & Hr).
    destruct forced; [right|left]; (split; [done|split; [done|]]).
    + cbn. split_and!; [done|by apply (i_live _ _ _ H c p)|done|by rewrite lookup_insert_eq].
    + unfold wait_close. rewrite is_running_kill, Er. cbn. split_and!.
      * change (is_running c (kill SIGKILL c w) = true). by rewrite is_running_kill.
      * by rewrite lookup_insert_eq.
      * rewrite list_lookup_alter_eq, Hp. eexists. split; [done|]. by apply last_snoc.
  - rewrite andb_false_r. left. cbn. split; [done|]. split_and!.
    + by destruct (is_child c w).
    + destruct (is_child c w) eqn:E; [done|]. unfold is_child in E. by to_prop.
    + done.
    + by rewrite lookup_insert_eq.
Qed.

End reachable.

(** ** What listeners and other processes see *)

Section listener.
Context (home : list jstr) (expectedVersion binaryName : jstr).

(** The state of the last state event *)
Definition last_state (l : list Event) : option (DaemonRuntimeState * option jstr) :=
  last (omap (fun e => match e with StateEvent s m => Some (s, m) | LogEvent _ _ => None end) l).

Definition told (w : World) : Prop :=
  default (stopped, None) (last_state (events w)) = (state (snapshotValue w), message (snapshotValue w)).

Lemma told_transition s w : told (transition s w).
Proof. unfold told, last_state. cbn. rewrite omap_app. cbn. by rewrite last_snoc. Qed.
Lemma told_log level line w : told w -> told (emit (LogEvent level line) w).
Proof. unfold told, last_state. cbn. rewrite omap_app. cbn. by rewrite app_nil_r. Qed.

Ltac keep_told := first [assumption | apply told_transition | apply told_log; assumption].

Lemma told_fail_end id c e w : told w -> told (fail_end home id c e w).
Proof. intros H. unfold fail_end. destruct (bool_decide _); [done|]. apply told_transition. Qed.
Lemma told_stop_child id c k w : told (stop_child id c k w).
Proof. unfold stop_child. set (w1 := transition _ _). assert (told w1) by apply told_transition. by destruct (is_running c w1). Qed.
Lemma told_fail_start id c e w : told w -> told (fail_start home id c e w).
Proof. intros H. unfold fail_start. destruct (is_child c w); [apply told_stop_child|by apply told_fail_end]. Qed.
Lemma told_start_call id w : told w -> told (start_call id w).
Proof. intros H. unfold start_call. destruct (child w); [done|]. by destruct (launchPlan w). Qed.
Lemma told_after_stop id k r w : told w -> told (after_stop home expectedVersion id k r w).
Proof.
  intros H. destruct k; cbn; [done|apply told_fail_start, told_transition|by apply told_fail_end|].
  destruct r; [by apply told_start_call|done].
Qed.
Lemma told_stop_call id k w : told w -> told (stop_call home expectedVersion id k w).
Proof.
  intros H. unfold stop_call. destruct (child w); [apply told_stop_child|].
  destruct (is_foreign _); apply told_after_stop; [done|apply told_transition].
Qed.
Lemma told_after_wait id c forced closed k w : told w -> told (after_wait home expectedVersion id c forced closed k w).
Proof.
  intros H. unfold after_wait. destruct (_ && _); [|apply told_after_stop, told_transition].
  destruct forced; [apply told_after_stop, told_transition|done].
Qed.
Lemma told_after_probe id x w : told w -> told (after_probe expectedVersion id x w).
Proof. intros H. destruct x; [apply told_transition|done]. Qed.

Lemma told_resume id c a w : told w -> told (resume home expectedVersion binaryName id c a w).
Proof.
  intros H. destruct c as [|x| | |d le|d le|d|d forced ao k| |r], a as [a|b|b|a|b|r'| |]; cbn [resume]; try exact H.
  - destruct (probeExisting expectedVersion a) as [x|]; [|by apply told_after_probe].
    destruct (x_authenticated x); [done|by apply told_after_probe].
  - destruct b; [by apply told_log|by apply told_after_probe].
  - by apply told_after_probe.
  - destruct b; [|done]. apply told_transition.
  - by destruct a.
  - unfold slept. destruct b; [by apply told_fail_start|]. destruct (child w); [done|by apply told_fail_start].
  - destruct r' as [v|e]; [|by apply told_fail_start]. case_bool_decide; [apply told_transition|by apply told_stop_call].
  - destruct (_ || _); [by apply told_after_wait|done].
  - destruct (_ || _); [done|by apply told_after_wait].
  - destruct (probeExisting expectedVersion a) as [x|]; cbn; [|done].
    destruct (negb (x_authenticated x)); [done|]. destruct (negb (x_compatible x)); [done|]. apply told_transition.
Qed.

Lemma told_step i w : told w -> told (step home expectedVersion binaryName i w).
Proof.
  intros H. destruct i as [id|id|id|id|plan|id a|c code sig|c|c msg|c err line]; cbn [step].
  - unfold new_call. destruct (calls w !! id); [done|by apply told_start_call].
  - unfold new_call. destruct (calls w !! id); [done|by apply told_stop_call].
  - unfold new_call. destruct (calls w !! id); [done|]. unfold restart_call. destruct (is_foreign _); [done|].
    destruct (child w) eqn:E; [by apply told_stop_call|by apply told_start_call].
  - unfold new_call, attach_call. destruct (calls w !! id); [done|]. by destruct (child w).
  - by destruct (configure plan).
  - destruct (calls w !! id); [by apply told_resume|done].
  - by destruct (is_running c w).
  - destruct (procs w !! c) as [p|]; [|done]. destruct (p_exit p) as [[code sig]|]; [|done].
    destruct (p_closed p); [done|]. unfold on_close. destruct (is_child c _); [apply told_transition|done].
  - destruct (is_running c w); [|done]. unfold on_error. destruct (is_child c _); [apply told_transition|done].
  - unfold on_line. destruct (truthy _); [by apply told_log|done].
Qed.

(** A listener always knows the state. Over every interleaving whatsoever,
    launches overlapping or not, the last state event carries the state and
    the message of the current snapshot. *)
Theorem listener_knows_state is_ :
  let w := run home expectedVersion binaryName is_ new_world in
  default (stopped, None) (last_state (events w)) = (state (snapshotValue w), message (snapshotValue w)).
Proof.
  change (told (run home expectedVersion binaryName is_ new_world)).
  assert (G : forall l w, told w -> told (run home expectedVersion binaryName l w)); [|by apply G].
  induction l as [|i l IH]; intros w H; [done|]. by apply IH, told_step.
Qed.

(** A daemon that Desktop did not start is left alone: while one owns the
    port, [stop] and [restart] throw at once and change nothing. *)
Theorem foreign_daemon_is_left_alone w id : child w = None -> is_foreign (snapshotValue w) = true ->
  calls w !! id = None ->
  step home expectedVersion binaryName (CallStop id) w =
    goto id (Done (fail "cannot stop an externally managed or conflicting SourceNerve daemon")) w /\
  step home expectedVersion binaryName (CallRestart id) w =
    goto id (Done (fail "cannot restart an externally managed or conflicting SourceNerve daemon")) w.
Proof.
  intros Hc Hf Hid. cbn [step]. unfold new_call, stop_call, restart_call. by rewrite Hid, Hc, Hf.
Qed.

End listener.

(** ** Concrete runs *)

Definition sample_plan : DaemonLaunchPlan := {|
  configPath := js "/etc/sn.toml";
  environment := [(js "SOURCENERVE_CONFIG", js "/etc/sn.toml"); (js "SOURCENERVE_BEARER_TOKEN", js "bearer-token")];
  redactedSecrets := [] |}.
Abbreviation sample_run := (run [] (js "1.0") (js "sourcenerve")).
Abbreviation found_nothing := (Probed NoHealth).

(** Start a daemon up to its first health request. *)
Definition launch (id : nat) : list Input :=
  [CallStart id; Resume id found_nothing; Resume id (Executable true)].
Definition becomes_ready (id : nat) : list Input :=
  [Resume id (Polled PollReady); Resume id (VersionRead (Ok (Some (js "1.0"))))].

Example start_and_stop :
  let w := sample_run (Configure sample_plan :: launch 0 ++ becomes_ready 0 ++
    [CallStop 1; Resume 1 TimedOut; ProcExit 0 None (Some (js "SIGKILL")); ProcClose 0; Resume 1 Closed]) new_world in
  calls w !! 0%nat = Some (Done (Ok {| state := ready; managed := true; pid := Some 0%nat; version := Some (js "1.0");
    exitCode := None; signal := None; message := None |})) /\
  calls w !! 1%nat = Some (Done (Ok (bare stopped true))) /\
  map p_signals (procs w) = [[SIGTERM; SIGKILL]] /\ child w = None.
Proof. vm_compute. done. Qed.

(** A [stop] while the daemon starts up ends in a crash: its own exit is what
    the waiting [start] reports, over the [stopped] that [stop] returned. *)
Example stop_during_startup_crashes :
  let w := sample_run (Configure sample_plan :: launch 0 ++
    [CallStop 1; ProcExit 0 (Some 0) None; ProcClose 0; Resume 1 Closed;
     Resume 0 (Polled (PollFails (Error (js "refused")))); Resume 0 (Slept false)]) new_world in
  calls w !! 1%nat = Some (Done (Ok (bare stopped true))) /\
  state (snapshotValue w) = crashed /\ message (snapshotValue w) = Some (js "SourceNerve daemon exited during startup").
Proof. vm_compute. done. Qed.

(** Two calls of [start] that overlap before the first spawns both spawn, and
    the manager loses the first daemon: nothing stops it any more. *)
Example overlapping_starts_lose_daemon :
  let w := sample_run (Configure sample_plan ::
    [CallStart 0; CallStart 1; Resume 0 found_nothing; Resume 1 found_nothing;
     Resume 0 (Executable true); Resume 1 (Executable true)] ++
    [CallStop 2; ProcExit 1 (Some 0) None; ProcClose 1; Resume 2 Closed]) new_world in
  map running (procs w) = [true; false] /\ child w = None /\ state (snapshotValue w) = stopped.
Proof. vm_compute. done. Qed.

(** A daemon that exits between its last answer and the end of [start] is
    reported ready: [start] does not look at the child again. *)
Example ready_after_exit :
  let w := sample_run (Configure sample_plan :: launch 0 ++
    [Resume 0 (Polled PollReady); ProcExit 0 (Some 1) None; ProcClose 0;
     Resume 0 (VersionRead (Ok (Some (js "1.0"))))]) new_world in
  child w = None /\ state (snapshotValue w) = ready.
Proof. vm_compute. done. Qed.

Definition stopping_run : list Input := Configure sample_plan :: launch 0 ++ becomes_ready 0 ++ [CallStop 1].

Lemma stopping_run_reachable : reachable [] (js "1.0") (js "sourcenerve") (sample_run stopping_run new_world).
Proof.
  unfold stopping_run, launch, becomes_ready, run. cbn [app fold_left].
  repeat (apply reach_step; [|cbn [launches]; try done]); [apply reach_new|].
  intros _ (id & c & Hc & _). vm_compute in Hc. destruct id; done.
Qed.

Lemma running_daemon_is_child_witness : child (sample_run stopping_run new_world) = Some 0%nat.
Proof.
  destruct (running_daemon_is_child [] (js "1.0") (js "sourcenerve") _ stopping_run_reachable) as [H _].
  apply (H 0%nat {| p_exit := None; p_closed := false; p_signals := [SIGTERM]; p_secrets := [js "bearer-token"; js "/etc/sn.toml"] |});
    [vm_compute; reflexivity | reflexivity].
Defined.

Lemma stop_settles_witness :
  calls (sample_run (stopping_run ++ [Resume 1 TimedOut]) new_world) !! 1%nat =
  Some (WaitingClose 0 true false ReturnSnapshot).
Proof.
  destruct (stop_settles [] (js "1.0") (js "sourcenerve") (sample_run stopping_run new_world) 1 0 false false
    stopping_run_reachable ltac:(vm_compute; reflexivity)) as [[H _]|[(_ & _ & _ & H & _)|(_ & H & _)]].
  - vm_compute in H. discriminate.
  - vm_compute in H. vm_compute. exact H.
  - discriminate.
Defined.

Definition attached : World :=
  run [] (js "1.0") (js "sourcenerve") [CallAttach 0; Resume 0 (Probed (Serves (Some (js "1.0"))))] new_world.
Lemma foreign_daemon_is_left_alone_witness :
  step [] (js "1.0") (js "sourcenerve") (CallStop 1) attached =
  goto 1 (Done (fail "cannot stop an externally managed or conflicting SourceNerve daemon")) attached.
Proof.
  destruct (foreign_daemon_is_left_alone [] (js "1.0") (js "sourcenerve") attached 1 ltac:(vm_compute; reflexivity)
    ltac:(vm_compute; reflexivity) ltac:(vm_compute; reflexivity)) as [H _]. exact H.
Defined.

End DaemonManager.
