(* ===== verification/WorkspaceManager.v ===== *)
(** * Managed workspaces (workspace-manager.ts)

    The manager stages repositories that the user picked and saves and removes
    workspaces in the registry file. Its calls await the file system, [git] and
    the daemon, so each call is split at its awaits: a [Manager] lists where the
    calls stand, and an event starts a call or lets one of them go on. What the
    outside world answers in between - the clock, the paths, [git], the
    snapshots of the daemon, a failing write - comes with the event.

    [JSON], [URL] and the digest are arguments. *)

From S2P Require Import Prelude JsValue JsMap LocalFile Path Validate TaskPolicy JsonCodec WorkspaceStore RepositoryInspection DaemonManager.
Import TaskPolicy WorkspaceStore RepositoryInspection.
Import (hints) DaemonManager.

Module WorkspaceManager.

Definition SELECTION_TTL_MS : Z := 10 * 60000.
Definition MAX_PENDING_SELECTIONS : nat := 32.
Definition DAEMON_STABLE_TIMEOUT_MS : Z := 25000.

Record PendingSelection := { sel_root : jstr; expiresAt : Z }.
Record WorkspaceSaveInput := {
  originalId : option jstr; selectionId : option jstr; in_id : jstr; in_name : jstr; in_access : Access;
  in_remote : jstr; in_defaultBranch : jstr }.

(** ** Views *)

Inductive Validation :=
| Ready (head : jstr) (branch : option jstr) (dirty localWritable : bool)
| Invalid (message : jstr).
(** A view shows the fields of the workspace and what the inspection found. *)
Record ManagedWorkspaceView := { shown : ManagedWorkspace; validation : Validation }.
Definition toManagedWorkspaceView (w : ManagedWorkspace) (i : RepositoryInspection) : ManagedWorkspaceView :=
  {| shown := w; validation := Ready (r_head i) (r_branch i) (r_dirty i) (r_localWritable i) |}.

Record WorkspaceRepositorySelection := {
  s_selectionId : jstr; s_suggestedId : jstr; s_suggestedName : jstr; s_inspection : RepositoryInspection }.
Definition toRepositorySelection (sha256_hex : jstr -> jstr) (selection : jstr) (i : RepositoryInspection) : WorkspaceRepositorySelection :=
  let name := slice_to 128 (path_basename (r_root i)) in
  {| s_selectionId := selection; s_suggestedId := suggestWorkspaceIdForRoot sha256_hex (r_root i);
     s_suggestedName := if truthy name then name else js "Workspace"; s_inspection := i |}.

(** [WorkspaceManagerError]s carry their message; no other error is thrown by
    an inspection. *)
Definition safeRepositoryValidationMessage (e : exn) : jstr :=
  match e with
  | Error m => m
  | NotAnError _ => js "Repository validation failed. Choose the repository again or repair the local Git checkout."
  end.

(** ** State *)

(** What the outside world answers while a call goes on to its next await *)
Record Answers := {
  now : Z; fresh_uuid : jstr;
  realpath_answer : Trace -> jstr -> result jstr; git_answer : Trace -> jstr -> list jstr -> result jstr;
  writable_answer : Trace -> jstr -> bool;
  read_error : option exn; configExists : bool;
  snapshots : list (DaemonManager.DaemonSnapshot * Z);
  write_outcome : write_fault }.

(** Where a call waits: a save or a removal for the file, the inspection, the
    daemon, the write, and a save for the final inspection. The write with its
    rename is one step; two overlapping calls share the temporary file in the
    code, which is not modelled. *)
Inductive call :=
| Staging (selectedPath : jstr)
| SavingLoad (input : WorkspaceSaveInput)
| RemovingLoad (workspaceId : jstr)
| SavingInspect (input : WorkspaceSaveInput) (previous : list ManagedWorkspace) (root : jstr)
| WaitingDaemon (next : list ManagedWorkspace) (saved : option ManagedWorkspace) (deadline : Z)
| Writing (next : list ManagedWorkspace) (saved : option ManagedWorkspace)
| Viewing (w : ManagedWorkspace).

Inductive outcome :=
| Staged (s : WorkspaceRepositorySelection)
| Saved (v : ManagedWorkspaceView)
| Removed (removed : bool)
| Rejected (e : exn).

Record Manager := {
  disk : Disk;
  pendingSelections : list (jstr * PendingSelection);
  calls : list call;
  log : list outcome }.

Definition set_disk (d : Disk) (m : Manager) : Manager :=
  {| disk := d; pendingSelections := pendingSelections m; calls := calls m; log := log m |}.
Definition set_pending (p : list (jstr * PendingSelection)) (m : Manager) : Manager :=
  {| disk := disk m; pendingSelections := p; calls := calls m; log := log m |}.
Definition set_calls (c : list call) (m : Manager) : Manager :=
  {| disk := disk m; pendingSelections := pendingSelections m; calls := c; log := log m |}.
Definition new_manager (d : Disk) : Manager := {| disk := d; pendingSelections := []; calls := []; log := [] |}.

Definition goto (i : nat) (c : call) (m : Manager) : Manager := set_calls (<[i := c]> (calls m)) m.
Definition finish (i : nat) (o : outcome) (m : Manager) : Manager :=
  {| disk := disk m; pendingSelections := pendingSelections m; calls := delete i (calls m); log := log m ++ [o] |}.

Inductive request := Stage (selectedPath : jstr) | Save (input : WorkspaceSaveInput) | Remove (workspaceId : jstr).
Inductive event := Start (now : Z) (r : request) | Advance (i : nat) (a : Answers).

(** ** Selections *)

Definition pruneExpiredSelections (now : Z) (p : list (jstr * PendingSelection)) : list (jstr * PendingSelection) :=
  filter (fun kv => now < expiresAt kv.2) p.

Definition consumeSelection (now : Z) (selectionId : jstr) (p : list (jstr * PendingSelection)) :
    result jstr * list (jstr * PendingSelection) :=
  let p := pruneExpiredSelections now p in
  match map_get p selectionId with
  | None => (fail "Repository selection expired. Choose the repository again.", p)
  | Some s => (Ok (sel_root s), map_delete p selectionId)
  end.

(** ** Waiting for the daemon *)

(** The polls of the daemon, each with the time of the check after it; [None]
    when the daemon still starts or stops at the last of them. *)
Fixpoint waitForDaemonStable (allowExternal : bool) (deadline : Z) (polls : list (DaemonManager.DaemonSnapshot * Z)) :
    option (result DaemonManager.DaemonSnapshot) :=
  match polls with
  | [] => None
  | (s, t) :: polls' =>
      if bool_decide (DaemonManager.state s = DaemonManager.incompatible)
      then Some (fail "The running SourceNerve daemon is incompatible with this Desktop build.")
      else if negb (DaemonManager.managed s) && bool_decide (DaemonManager.state s = DaemonManager.external) && negb allowExternal
      then Some (fail "A SourceNerve daemon not owned by this Desktop is running. Stop it before changing managed workspaces.")
      else if bool_decide (DaemonManager.state s <> DaemonManager.starting /\ DaemonManager.state s <> DaemonManager.stopping_)
      then Some (Ok s)
      else if deadline <=? t
      then Some (fail "SourceNerve daemon is still changing state. Wait for the current runtime operation to finish and retry.")
      else waitForDaemonStable allowExternal deadline polls'
  end.

Section Manager.
Context (JSON_parse : jstr -> result value) (JSON_stringify : value -> jstr).
Context (URL_parse : jstr -> option URL) (sha256_hex : jstr -> jstr).
Context (registryPath pid : jstr).

Definition inspect (a : Answers) (path : jstr) (remote branch : option jstr) : W RepositoryInspection :=
  inspectRepository URL_parse (realpath_answer a) (git_answer a) (writable_answer a) path remote branch.

(** ** The list of workspaces *)

Fixpoint views (a : Answers) (l : list ManagedWorkspace) : W (list ManagedWorkspaceView) :=
  match l with
  | [] => mret []
  | w :: l' =>
      v ← try_catch (i ← inspect a (root w) (Some (remote w)) (Some (defaultBranch w)); mret (toManagedWorkspaceView w i))
            (fun e => mret {| shown := w; validation := Invalid (safeRepositoryValidationMessage e) |});
      vs ← views a l';
      mret (v :: vs)
  end.

Definition read_registry (a : Answers) (d : Disk) : result (option (list ManagedWorkspace)) :=
  loadWorkspaceRegistry JSON_parse
    (match read_error a with Some e => ReadError e | None => readFile d registryPath end).

Definition listManagedWorkspaces (a : Answers) (d : Disk) : result (list ManagedWorkspaceView) :=
  workspaces ← read_registry a d;
  (views a (default [] workspaces) []).1.

Definition requireManagedRegistryForMutation (a : Answers) (d : Disk) : result (list ManagedWorkspace) :=
  registry ← read_registry a d;
  match registry with
  | Some l => Ok l
  | None => if configExists a
            then fail "An existing unmanaged SourceNerve configuration was found. Import it before using the managed workspace editor."
            else Ok []
  end.

(** ** Saving *)

Definition is_original (input : WorkspaceSaveInput) (w : ManagedWorkspace) : bool := bool_decide (originalId input = Some (id w)).
Definition find_original (input : WorkspaceSaveInput) (previous : list ManagedWorkspace) : option ManagedWorkspace :=
  if truthy_opt (originalId input) then head (filter (fun w => is_original input w = true) previous) else None.

(** The repository of a save: a pending selection, or that of the workspace that
    is edited. *)
Definition choose_root (now : Z) (input : WorkspaceSaveInput) (previous : list ManagedWorkspace) (p : list (jstr * PendingSelection)) :
    result jstr * list (jstr * PendingSelection) :=
  let original := find_original input previous in
  if truthy_opt (originalId input) && bool_decide (original = None) then (fail "Workspace is no longer registered.", p)
  else
    let (root, p) := match selectionId input with
                     | Some s => if truthy s then consumeSelection now s p else (Ok (default [] (root <$> original)), p)
                     | None => (Ok (default [] (root <$> original)), p)
                     end in
    match root with
    | Throw e => (Throw e, p)
    | Ok r => if truthy r then (Ok r, p)
              else (fail "Choose a repository with the native directory picker before saving this workspace.", p)
    end.

(** Whether another workspace already has this repository *)
Fixpoint registered_elsewhere (a : Answers) (input : WorkspaceSaveInput) (root' : jstr) (l : list ManagedWorkspace) : W bool :=
  match l with
  | [] => mret false
  | w :: l' =>
      if is_original input w then registered_elsewhere a input root' l' else
      r ← try_catch (p ← realpath (realpath_answer a) (root w); mret (bool_decide (p = root'))) (fun _ => mret false);
      if r : bool then mret true else registered_elsewhere a input root' l'
  end.

Definition next_workspace (input : WorkspaceSaveInput) (i : RepositoryInspection) : ManagedWorkspace :=
  {| id := in_id input; name := trim (in_name input); root := r_root i; access := in_access input; remote := in_remote input;
     defaultBranch := in_defaultBranch input; provider := r_provider i; repository := r_repository i |}.
Definition next_registry (input : WorkspaceSaveInput) (w : ManagedWorkspace) (previous : list ManagedWorkspace) : list ManagedWorkspace :=
  if bool_decide (find_original input previous = None) then previous ++ [w]
  else map (fun x => if is_original input x then w else x) previous.

(** From the inspection to the new list *)
Definition check_save (a : Answers) (input : WorkspaceSaveInput) (previous : list ManagedWorkspace) (root' : jstr) : W ManagedWorkspace :=
  i ← inspect a root' (Some (in_remote input)) (Some (in_defaultBranch input));
  _ ← js_guard (bool_decide (in_access input = read_write) && negb (r_localWritable i))
        "The selected repository is not locally writable. Choose read-only access or repair filesystem permissions.";
  _ ← js_guard (existsb (fun w => bool_decide (id w = in_id input) && negb (is_original input w)) previous)
        "Workspace ID is already in use.";
  elsewhere ← registered_elsewhere a input (r_root i) previous;
  _ ← js_guard elsewhere "This repository is already registered as another workspace.";
  mret (next_workspace input i).

(** ** Steps *)

Definition start (now : Z) (r : request) (m : Manager) : Manager :=
  match r with
  | Stage path =>
      let m := set_pending (pruneExpiredSelections now (pendingSelections m)) m in
      if (MAX_PENDING_SELECTIONS <=? length (pendingSelections m))%nat
      then {| disk := disk m; pendingSelections := pendingSelections m; calls := calls m;
              log := log m ++ [Rejected (Error (js "Too many pending repository selections. Close unused workspace forms and try again."))] |}
      else set_calls (calls m ++ [Staging path]) m
  | Save input => set_calls (calls m ++ [SavingLoad input]) m
  | Remove workspaceId => set_calls (calls m ++ [RemovingLoad workspaceId]) m
  end.

Definition saveRegistry (a : Answers) (next : list ManagedWorkspace) : M Disk unit :=
  saveWorkspaceRegistry JSON_stringify registryPath pid (write_outcome a) next.

Definition advance (i : nat) (a : Answers) (m : Manager) : Manager :=
  match calls m !! i with
  | None => m
  | Some (Staging path) =>
      match (inspect a path None None []).1 with
      | Throw e => finish i (Rejected e) m
      | Ok insp =>
          finish i (Staged (toRepositorySelection sha256_hex (fresh_uuid a) insp))
            (set_pending (map_set (pendingSelections m) (fresh_uuid a)
                            {| sel_root := r_root insp; expiresAt := now a + SELECTION_TTL_MS |}) m)
      end
  | Some (SavingLoad input) =>
      match requireManagedRegistryForMutation a (disk m) with
      | Throw e => finish i (Rejected e) m
      | Ok previous =>
          let (r, p) := choose_root (now a) input previous (pendingSelections m) in
          let m := set_pending p m in
          match r with
          | Throw e => finish i (Rejected e) m
          | Ok root => goto i (SavingInspect input previous root) m
          end
      end
  | Some (RemovingLoad workspaceId) =>
      match requireManagedRegistryForMutation a (disk m) with
      | Throw e => finish i (Rejected e) m
      | Ok previous =>
          if existsb (fun w => bool_decide (id w = workspaceId)) previous
          then goto i (WaitingDaemon (filter (fun w => id w <> workspaceId) previous) None (now a + DAEMON_STABLE_TIMEOUT_MS)) m
          else finish i (Removed false) m
      end
  | Some (SavingInspect input previous root) =>
      match (check_save a input previous root []).1 with
      | Throw e => finish i (Rejected e) m
      | Ok w => goto i (WaitingDaemon (next_registry input w previous) (Some w) (now a + DAEMON_STABLE_TIMEOUT_MS)) m
      end
  | Some (WaitingDaemon next saved deadline) =>
      match waitForDaemonStable false deadline (snapshots a) with
      | None => m
      | Some (Throw e) => finish i (Rejected e) m
      | Some (Ok _) => goto i (Writing next saved) m
      end
  | Some (Writing next saved) =>
      let (r, d) := saveRegistry a next (disk m) in
      let m := set_disk d m in
      match r, saved with
      | Throw e, _ => finish i (Rejected e) m
      | Ok _, Some w => goto i (Viewing w) m
      | Ok _, None => finish i (Removed true) m
      end
  | Some (Viewing w) =>
      match (inspect a (root w) (Some (remote w)) (Some (defaultBranch w)) []).1 with
      | Throw e => finish i (Rejected e) m
      | Ok insp => finish i (Saved (toManagedWorkspaceView w insp)) m
      end
  end.

Definition step (m : Manager) (e : event) : Manager :=
  match e with Start now r => start now r m | Advance i a => advance i a m end.
Definition run (es : list event) (m : Manager) : Manager := fold_left step es m.

(** ** Listing *)

(** A workspace whose inspection fails is still listed. *)
Lemma views_shown a l t : exists vs t', views a l t = (Ok vs, t') /\ map shown vs = l.
Proof.
  revert t. induction l as [|w l IH]; intros t; [by exists [], t|]. cbn [views]. rewrite M_bind_run. unfold try_catch.
  rewrite M_bind_run. destruct (inspect a (root w) _ _ t) as [[i|e] t']; cbn; rewrite M_bind_run;
    destruct (IH t') as (vs & t'' & -> & Hvs); eexists _, t''; (split; [reflexivity|]); cbn; by rewrite Hvs.
Qed.

(** ** What a save has checked *)

(** Paths do not change while a call goes on, and a canonical path resolves to
    itself whenever it resolves. *)
Context (Canonical : jstr -> Prop).
Record stable (a : Answers) : Prop := {
  st_canonical t p q : realpath_answer a t p = Ok q -> Canonical q /\ forall t', realpath_answer a t' q = Ok q;
  st_fixed t p q : Canonical p -> realpath_answer a t p = Ok q -> q = p }.

Lemma elsewhere_false a input r l : triple (fun _ => True) (registered_elsewhere a input r l)
  (fun b => b = false -> Forall (fun w => is_original input w = false -> exists t, realpath_answer a t (root w) <> Ok r) l).
Proof.
  induction l as [|w l IH]; cbn [registered_elsewhere]; [apply triple_ret; constructor|].
  destruct (is_original input w) eqn:Ei.
  - eapply triple_weaken; [exact IH|]. intros b H Hb. constructor; [congruence|auto].
  - eapply triple_bind with (Q := fun b => b = false -> exists t, realpath_answer a t (root w) <> Ok r).
    + intros t _. split; [done|]. unfold try_catch, realpath. rewrite M_bind_run. intros b Hb Eb. exists t.
      destruct (realpath_answer a t (root w)) as [p|]; [|done]. injection Hb as <-. to_prop. congruence.
    + intros b Hb. destruct b; [by apply triple_ret|]. eapply triple_weaken; [exact IH|]. intros b' H Hb'. constructor; auto.
Qed.

Lemma check_save_spec a input previous path w : stable a -> Canonical path ->
  (check_save a input previous path []).1 = Ok w ->
  root w = path /\ forall x, x ∈ previous -> is_original input x = false -> root x <> root w.
Proof.
  intros Ha Hp. assert (H : triple (fun _ => True) (check_save a input previous path)
    (fun w => exists i t, realpath_answer a t path = Ok (r_root i) /\ w = next_workspace input i /\
       Forall (fun w => is_original input w = false -> exists t, realpath_answer a t (root w) <> Ok (r_root i)) previous)).
  { unfold check_save. eapply triple_bind with (Q := fun i => exists t, realpath_answer a t path = Ok (r_root i)).
    { intros t _. split; [done|]. intros i Hi%inspect_root. by exists t. }
    intros i [t Ht]. do 2 (eapply triple_bind; [apply triple_any|]; intros ? _).
    eapply triple_bind; [apply elsewhere_false|]. intros b Hb. eapply triple_bind; [apply triple_guard|]. intros [] Eb.
    apply triple_ret. by exists i, t; auto. }
  intros Hw. destruct (H [] I) as [_ Hq]. destruct (Hq w Hw) as (i & t & Hr & -> & Hf). simpl.
  split; [by apply (st_fixed a Ha t)|]. intros x Hx Ho E. rewrite Forall_forall in Hf. destruct (Hf x Hx Ho) as [t' Ht'].
  apply Ht'. rewrite E. by apply (st_canonical a Ha t path).
Qed.

(** ** Changes of the list *)

Inductive change (l : list ManagedWorkspace) : list ManagedWorkspace -> Prop :=
| change_add w : change l (l ++ [w])
| change_edit i w : i ∈ map id l -> change l (map (fun x => if bool_decide (id x = i) then w else x) l)
| change_remove i : i ∈ map id l -> change l (filter (fun x => id x <> i) l).

Lemma edit_roots i w l : NoDup (map id l) -> NoDup (map root l) -> (forall x, x ∈ l -> id x <> i -> root x <> root w) ->
  NoDup (map root (map (fun x => if bool_decide (id x = i) then w else x) l)).
Proof.
  induction l as [|x l IH]; [done|]. cbn [map]. intros [Hi Hid]%NoDup_cons [Hr Hroot]%NoDup_cons Hw.
  assert (Hl : forall y, y ∈ l -> id x = i -> id y <> i).
  { intros y Hy <- E. apply Hi. rewrite <- E. by apply list_elem_of_fmap_2. }
  constructor; [|apply IH; [done|done|]; intros y Hy; apply Hw; by right].
  intros (y' & E & (y & -> & Hy)%list_elem_of_fmap)%list_elem_of_fmap. revert E. repeat case_bool_decide; intros E.
  - by apply (Hl y).
  - apply (Hw y); [by right|done|done].
  - apply (Hw x); [by left|done|done].
  - apply Hr. rewrite E. by apply list_elem_of_fmap_2.
Qed.

Lemma find_original_Some input l x : find_original input l = Some x -> x ∈ l /\ originalId input = Some (id x).
Proof.
  unfold find_original. destruct (truthy_opt _); [|done]. intros H.
  assert (Hin : x ∈ filter (fun w => is_original input w = true) l) by (destruct (filter _ l); [done|injection H as ->; by left]).
  apply list_elem_of_filter in Hin as [Ho Hin]. split; [done|]. unfold is_original in Ho. by to_prop.
Qed.

Lemma next_registry_spec input w l : NoDup (map id l) -> NoDup (map root l) ->
  (forall x, x ∈ l -> is_original input x = false -> root x <> root w) ->
  (forall x, x ∈ l -> find_original input l = None -> is_original input x = false) ->
  change l (next_registry input w l) /\ NoDup (map root (next_registry input w l)) /\
  forall x, x ∈ next_registry input w l -> x = w \/ x ∈ l.
Proof.
  intros Hid Hroot Hw Hnone. unfold next_registry. case_bool_decide as Eo.
  - split_and!; [constructor| |].
    + rewrite map_app. apply NoDup_app. split_and!; [done| |apply NoDup_singleton].
      intros r (x & -> & Hx)%list_elem_of_fmap Hin%list_elem_of_singleton. by apply (Hw x Hx); [apply Hnone|].
    + intros x [Hx|Hx%list_elem_of_singleton]%elem_of_app; auto.
  - destruct (find_original input l) as [o|] eqn:E; [|done]. apply find_original_Some in E as [Ho Ei].
    assert (Hext : map (fun x => if is_original input x then w else x) l = map (fun x => if bool_decide (id x = id o) then w else x) l).
    { apply map_ext. intros x. unfold is_original. rewrite Ei. repeat case_bool_decide; congruence. }
    rewrite Hext. split_and!.
    + constructor. by apply list_elem_of_fmap_2.
    + apply edit_roots; [done|done|]. intros x Hx Hne. apply Hw; [done|]. unfold is_original. rewrite Ei.
      apply bool_decide_eq_false. congruence.
    + intros x (y & -> & Hy)%list_elem_of_fmap. case_bool_decide; auto.
Qed.

Lemma find_original_None input l : Forall workspace_ok l -> find_original input l = None ->
  forall x, x ∈ l -> is_original input x = false.
Proof.
  intros Hl H x Hx. apply not_true_iff_false. intros Ho. pose proof Ho as Ho'. unfold is_original in Ho'. to_prop.
  unfold find_original in H. rewrite Ho' in H. rewrite Forall_forall in Hl. pose proof (ok_id _ (Hl x Hx)) as Hi.
  unfold workspace_id_ok in Hi. destruct (id x) eqn:E; [done|]. cbn [truthy_opt truthy] in H.
  assert (Hin : x ∈ filter (fun w => is_original input w = true) l) by by apply list_elem_of_filter.
  destruct (filter _ l); [by apply elem_of_nil in Hin|done].
Qed.

(** ** Calls that do not overlap *)

(** Whether a call is on its way to a write *)
Definition mutating (c : call) : bool := match c with Staging _ | Viewing _ => false | _ => true end.
Definition is_mutation (r : request) : bool := match r with Stage _ => false | _ => true end.
(** No save or removal starts while another is on its way to its write. *)
Fixpoint serial (m : Manager) (es : list event) : bool :=
  match es with
  | [] => true
  | e :: es' =>
      match e with Start _ r => negb (is_mutation r) || forallb (fun c => negb (mutating c)) (calls m) | Advance _ _ => true end
      && serial (step m e) es'
  end.

Definition staged_root (o : outcome) : option jstr := match o with Staged s => Some (r_root (s_inspection s)) | _ => None end.
Definition event_stable (e : event) : Prop := match e with Advance _ a => stable a | Start _ _ => True end.

(** The repositories a workspace may have: those of the file at the start, and
    those that were staged *)
Definition known (l0 : list ManagedWorkspace) (lg : list outcome) : list jstr := map root l0 ++ omap staged_root lg.

Definition list_ok (K : list jstr) (l : list ManagedWorkspace) : Prop :=
  NoDup (map root l) /\ Forall (fun w => root w ∈ K /\ Canonical (root w)) l.
Definition call_ok (K : list jstr) (l : list ManagedWorkspace) (c : call) : Prop :=
  match c with
  | SavingInspect _ previous root => previous = l /\ root ∈ K /\ Canonical root
  | WaitingDaemon next _ _ | Writing next _ => list_ok K next /\ change l next
  | _ => True
  end.

Record inv (l0 : list ManagedWorkspace) (m : Manager) (o : option (list ManagedWorkspace)) : Prop := {
  inv_file : holds JSON_stringify registryPath (disk m) o;
  inv_list : list_ok (known l0 (log m)) (default [] o);
  inv_chain : rtc change l0 (default [] o);
  inv_pending : Forall (fun kv => sel_root kv.2 ∈ known l0 (log m) /\ Canonical (sel_root kv.2)) (pendingSelections m);
  inv_calls : Forall (call_ok (known l0 (log m)) (default [] o)) (calls m);
  inv_one : (length (filter (fun c => mutating c = true) (calls m)) <= 1)%nat }.

Context (json_inverse : forall l, JSON_parse (serialize JSON_stringify l) = Ok (registry_value l)).

Lemma list_ok_mono K K' l : K ⊆ K' -> list_ok K l -> list_ok K' l.
Proof. intros HK [? H]. split; [done|]. eapply Forall_impl; [exact H|]. naive_solver. Qed.
Lemma call_ok_mono K K' l c : K ⊆ K' -> call_ok K l c -> call_ok K' l c.
Proof. intros HK. destruct c; simpl; try done; intros H; destruct_and?; split_and?; eauto using list_ok_mono. Qed.
Lemma known_mono l0 lg o : known l0 lg ⊆ known l0 (lg ++ [o]).
Proof. intros x. unfold known. rewrite omap_app, !elem_of_app. tauto. Qed.

Lemma calls_split i c m : calls m !! i = Some c -> exists l1 l2, calls m = l1 ++ c :: l2 /\
  (forall x, <[i := x]> (calls m) = l1 ++ x :: l2) /\ delete i (calls m) = l1 ++ l2.
Proof.
  intros H. exists (take i (calls m)), (drop (S i) (calls m)). split_and!.
  - by rewrite take_drop_middle.
  - intros x. apply insert_take_drop. by apply lookup_lt_Some in H.
  - apply delete_take_drop.
Qed.

(** A step that keeps the file leaves everything but the call as it is. *)
Lemma inv_goto l0 m o i c c' p : inv l0 m o -> calls m !! i = Some c -> mutating c = true ->
  call_ok (known l0 (log m)) (default [] o) c' ->
  Forall (fun kv => sel_root kv.2 ∈ known l0 (log m) /\ Canonical (sel_root kv.2)) p ->
  inv l0 (goto i c' (set_pending p m)) o.
Proof.
  intros [Hf Hl Hc Hp Hcs Hone] Hi Hm Hok Hp'. destruct (calls_split i c m Hi) as (l1 & l2 & E & Ei & _).
  constructor; simpl; try done; rewrite Ei; rewrite E in Hcs, Hone.
  - apply Forall_app in Hcs as [? [? ?]%Forall_cons]. apply Forall_app. split; [done|]. by constructor.
  - rewrite filter_app, filter_cons_True, length_app in Hone by done. simpl in Hone.
    rewrite filter_app, length_app, filter_cons. case_decide; simpl; lia.
Qed.
Lemma inv_finish l0 m o i c out : inv l0 m o -> calls m !! i = Some c -> inv l0 (finish i out m) o.
Proof.
  intros [Hf Hl Hc Hp Hcs Hone] Hi. pose proof (known_mono l0 (log m) out) as HK. constructor; simpl; try done.
  - by eapply list_ok_mono.
  - eapply Forall_impl; [exact Hp|]. naive_solver.
  - apply Forall_delete. eapply Forall_impl; [exact Hcs|]. intros x. by apply call_ok_mono.
  - destruct (calls_split i c m Hi) as (l1 & l2 & E & _ & ->). rewrite E, filter_app, length_app, filter_cons in Hone.
    rewrite filter_app, length_app. case_decide; simpl in Hone; lia.
Qed.
Lemma inv_set_pending l0 m o p : inv l0 m o ->
  Forall (fun kv => sel_root kv.2 ∈ known l0 (log m) /\ Canonical (sel_root kv.2)) p -> inv l0 (set_pending p m) o.
Proof. by intros []. Qed.

Lemma prune_selections_sub now p : sublist (pruneExpiredSelections now p) p.
Proof. apply sublist_filter. Qed.
Lemma Forall_sublist {A} (P : A -> Prop) l k : sublist l k -> Forall P k -> Forall P l.
Proof. intros Hs Hk. apply Forall_forall. intros x Hx. rewrite Forall_forall in Hk. apply Hk. by eapply elem_of_sublist. Qed.

(** The repository a save chooses is known. *)
Lemma choose_root_ok (Q : jstr -> Prop) now input l p : Forall (fun kv => Q (sel_root kv.2)) p -> Forall (fun w => Q (root w)) l ->
  let (r, p') := choose_root now input l p in
  (forall path, r = Ok path -> Q path) /\ Forall (fun kv => Q (sel_root kv.2)) p'.
Proof.
  intros Hp Hl. unfold choose_root. destruct (_ && _); [done|].
  assert (Ht : forall path, truthy path = true -> default [] (root <$> find_original input l) = path -> Q path).
  { intros path Hne <-. destruct (find_original input l) as [x|] eqn:E; [|by simpl in Hne].
    apply find_original_Some in E as [Hx _]. rewrite Forall_forall in Hl. by apply Hl. }
  assert (Hpr : Forall (fun kv => Q (sel_root kv.2)) (pruneExpiredSelections now p)) by (eapply Forall_sublist; [apply prune_selections_sub|done]).
  assert (Hcase : forall (r : result jstr) (p' : list (jstr * PendingSelection)),
    (forall path, truthy path = true -> r = Ok path -> Q path) -> Forall (fun kv => Q (sel_root kv.2)) p' ->
    let (r', p'') := match r with
      | Throw e => (Throw e, p')
      | Ok r => if truthy r then (Ok r, p') else (fail "Choose a repository with the native directory picker before saving this workspace.", p')
      end in (forall path, r' = Ok path -> Q path) /\ Forall (fun kv => Q (sel_root kv.2)) p'').
  { intros [r|e] p' Hr Hp'; [|done]. destruct (truthy r) eqn:E; [|done]. split; [|done]. intros path [= <-]. by apply Hr. }
  destruct (selectionId input) as [s|]; [destruct (truthy s)|].
  2,3: apply (Hcase (Ok _)); [|done]; intros path Hne [= E]; by apply Ht.
  unfold consumeSelection. destruct (map_get _ s) as [sel|] eqn:E.
  - apply (Hcase (Ok _)); [|unfold map_delete; eapply Forall_sublist; [apply sublist_filter|done]].
    intros path _ [= <-]. apply map_get_elem in E. rewrite Forall_forall in Hpr. by apply (Hpr (s, sel)).
  - by apply (Hcase (fail _)).
Qed.

Lemma read_ok a m o l : holds JSON_stringify registryPath (disk m) o -> requireManagedRegistryForMutation a (disk m) = Ok l -> l = default [] o.
Proof.
  intros Hh. pose proof (load_holds JSON_parse JSON_stringify registryPath json_inverse _ _ Hh) as Hl.
  unfold requireManagedRegistryForMutation, read_registry. destruct (read_error a); [done|]. unfold load in Hl. rewrite Hl.
  cbn [mbind result_bind]. destruct o; [by intros [= <-]|]. by destruct (configExists a); [|intros [= <-]].
Qed.

Lemma holds_registry_ok d o : holds JSON_stringify registryPath d o -> registry_ok (default [] o).
Proof. intros [_ H]. destruct o; [by destruct H|]. split_and!; [constructor..|simpl; unfold MAX_WORKSPACES; lia]. Qed.

Lemma inv_set_disk l0 m o d : inv l0 m o -> holds JSON_stringify registryPath d o -> inv l0 (set_disk d m) o.
Proof. by intros []. Qed.

(** A write that succeeds makes the new list the registry; no other call knew
    the old one. *)
Lemma inv_commit l0 m o i next saved d c : inv l0 m o -> calls m !! i = Some (Writing next saved) ->
  holds JSON_stringify registryPath d (Some next) -> mutating c = false ->
  inv l0 (goto i c (set_disk d m)) (Some next).
Proof.
  intros [Hf Hl Hc Hp Hcs Hone] Hi Hd Hm. destruct (calls_split i _ m Hi) as (l1 & l2 & E & Ei & _).
  assert (Hothers : Forall (fun c => mutating c = false) (l1 ++ l2)).
  { rewrite E, filter_app, filter_cons_True, length_app in Hone by done. simpl in Hone. apply Forall_app. split;
    (apply Forall_forall; intros x Hx; apply not_true_iff_false; intros Hmx;
     assert (Hin : x ∈ filter (fun c => mutating c = true) l1 ++ filter (fun c => mutating c = true) l2)
       by (apply elem_of_app; rewrite !list_elem_of_filter; auto);
     apply list_elem_of_split in Hin as (k1 & k2 & Hk); apply (f_equal length) in Hk;
     rewrite !length_app in Hk; simpl in Hk; lia). }
  assert (Hw : call_ok (known l0 (log m)) (default [] o) (Writing next saved)) by (rewrite Forall_lookup in Hcs; eauto).
  destruct Hw as [Hnext Hch]. apply Forall_app in Hothers as [H1 H2].
  assert (Htriv : forall x, mutating x = false -> call_ok (known l0 (log m)) next x) by by intros [].
  constructor; simpl; try done.
  - by eapply rtc_r.
  - rewrite Ei. apply Forall_app. split; [by eapply Forall_impl|]. constructor; [by apply Htriv|by eapply Forall_impl].
  - rewrite Ei, filter_app, length_app, filter_cons_False by congruence. rewrite E, filter_app, length_app, filter_cons_True in Hone by done.
    simpl in Hone. lia.
Qed.
Lemma delete_insert_same {A} (i : nat) (x : A) (l : list A) : delete i (<[i:=x]> l) = delete i l.
Proof. by rewrite !delete_take_drop, take_insert_ge, drop_insert_lt by lia. Qed.

Lemma advance_inv l0 m o i a : stable a -> inv l0 m o -> exists o', inv l0 (advance i a m) o'.
Proof.
  intros Ha Hinv. pose proof Hinv as [Hf [Hroots Hl] Hc Hp Hcs Hone]. unfold advance.
  destruct (calls m !! i) as [c|] eqn:Hi; [|by exists o].
  assert (Hok : call_ok (known l0 (log m)) (default [] o) c) by (rewrite Forall_lookup in Hcs; eauto).
  assert (Hfin : forall out, exists o', inv l0 (finish i out m) o') by (intros out; exists o; by apply (inv_finish l0 m o i c)).
  destruct c as [path|input|rid|input previous path|next saved deadline|next saved|w]; cbn in Hok.
  - destruct (inspect a path None None []).1 as [insp|e] eqn:E; [|done]. apply inspect_root in E.
    destruct (st_canonical a Ha _ _ _ E) as [Hcan _]. exists o.
    pose proof (inv_finish l0 m o i _ (Staged (toRepositorySelection sha256_hex (fresh_uuid a) insp)) Hinv Hi) as Hfin'.
    apply (inv_set_pending l0 _ o _ Hfin'). apply Forall_map_set.
    + split; [|done]. simpl. unfold known. rewrite omap_app. apply elem_of_app. right. apply elem_of_app. right. by left.
    + by destruct Hfin'.
  - destruct (requireManagedRegistryForMutation a (disk m)) as [previous|e] eqn:E; [|done]. apply (read_ok _ _ o) in E as ->; [|done].
    pose proof (choose_root_ok (fun r => r ∈ known l0 (log m) /\ Canonical r) (now a) input (default [] o) (pendingSelections m) Hp Hl) as Hch.
    destruct (choose_root _ _ _ _) as [[path|e] p]; destruct Hch as [Hpath Hp'].
    + exists o. apply (inv_goto l0 m o i (SavingLoad input)); try done. simpl. split; [done|]. by apply Hpath.
    + exists o. apply (inv_finish l0 _ o i (SavingLoad input)); [by apply inv_set_pending|done].
  - destruct (requireManagedRegistryForMutation a (disk m)) as [previous|e] eqn:E; [|done]. apply (read_ok _ _ o) in E as ->; [|done].
    destruct (existsb _ _) eqn:Ee; [|done]. exists o.
    apply (inv_goto l0 m o i (RemovingLoad rid) _ (pendingSelections m)); try done. simpl.
    apply existsb_exists in Ee as (x & Hx%list_elem_of_In & Ex). to_prop. split; [split|].
    + change (map root) with (fmap (M := list) root). by apply NoDup_fmap_filter.
    + by eapply Forall_sublist; [apply sublist_filter|].
    + constructor. rewrite <- Ex. by apply list_elem_of_fmap_2.
  - destruct Hok as (-> & Hk & Hcan). destruct (check_save a input (default [] o) path []).1 as [w|e] eqn:E; [|done].
    apply check_save_spec in E as [Hr Hw]; [|done..]. pose proof (holds_registry_ok _ _ Hf) as (Hwok & Hids & _).
    destruct (next_registry_spec input w (default [] o)) as (H1 & H2 & H3); [done|done|done| |].
    { intros x Hx Hn. by apply (find_original_None input (default [] o)). }
    exists o. apply (inv_goto l0 m o i (SavingInspect input (default [] o) path) _ (pendingSelections m)); try done.
    simpl. split; [|done]. split; [done|]. apply Forall_forall. intros x [->|Hx]%H3; [by rewrite Hr|].
    rewrite Forall_forall in Hl. by apply Hl.
  - destruct (waitForDaemonStable _ _ _) as [[s|e]|]; [|done|by exists o]. exists o.
    by apply (inv_goto l0 m o i (WaitingDaemon next saved deadline) _ (pendingSelections m)).
  - pose proof (save_holds JSON_stringify registryPath pid (write_outcome a) next (disk m) o Hf) as Hs.
    unfold saveRegistry. destruct (saveWorkspaceRegistry _ _ _ _ _ _) as [[[]|e] d]; destruct Hs as [_ Hs]; cbn [is_ok] in Hs.
    + exists (Some next). destruct saved as [w|]; [by eapply inv_commit|].
      pose proof (inv_commit l0 m o i next None d (Staging []) Hinv Hi Hs eq_refl) as H.
      apply (inv_finish l0 _ _ i (Staging []) (Removed true)) in H.
      * unfold finish, goto in H. simpl in H. by rewrite delete_insert_same in H.
      * simpl. apply list_lookup_insert_eq. by apply lookup_lt_Some in Hi.
    + exists o. apply (inv_finish l0 _ o i (Writing next saved)); [by apply inv_set_disk|done].
  - by destruct (inspect a _ _ _ []).1.
Qed.

Lemma start_inv l0 m o now r : inv l0 m o ->
  negb (is_mutation r) || forallb (fun c => negb (mutating c)) (calls m) = true -> inv l0 (start now r m) o.
Proof.
  intros Hinv Hser. pose proof Hinv as [Hf Hl Hc Hp Hcs Hone].
  assert (Hadd : forall c p, call_ok (known l0 (log m)) (default [] o) c ->
    (mutating c = true -> forallb (fun c => negb (mutating c)) (calls m) = true) ->
    Forall (fun kv => sel_root kv.2 ∈ known l0 (log m) /\ Canonical (sel_root kv.2)) p ->
    inv l0 (set_calls (calls m ++ [c]) (set_pending p m)) o).
  { intros c p Hok Hm Hp'. constructor; simpl; try done; [apply Forall_app; split; [done|by forall_list]|].
    rewrite filter_app, length_app. destruct (mutating c) eqn:E.
    - specialize (Hm eq_refl). rewrite forallb_forall in Hm.
      destruct (filter (fun c => mutating c = true) (calls m)) as [|x l] eqn:Ef.
      + simpl. etransitivity; [apply length_filter|]. simpl. lia.
      + assert (Hx : x ∈ filter (fun c => mutating c = true) (calls m)) by (rewrite Ef; by left).
        apply list_elem_of_filter in Hx as [Ex Hx%list_elem_of_In]. apply Hm in Hx. by rewrite Ex in Hx.
    - rewrite (filter_cons_False _ c) by congruence. simpl. lia. }
  assert (Hpr : Forall (fun kv => sel_root kv.2 ∈ known l0 (log m) /\ Canonical (sel_root kv.2)) (pruneExpiredSelections now (pendingSelections m)))
    by (eapply Forall_sublist; [apply prune_selections_sub|done]).
  destruct r as [path|input|rid]; cbn [start is_mutation negb orb] in *.
  - cbv zeta. destruct (_ <=? _)%nat; [|by apply (Hadd (Staging path) _ I)].
    destruct (inv_set_pending _ _ _ _ Hinv Hpr) as [Gf Gl Gc Gp Gcs Gone]. simpl in *.
    set (out := Rejected _). pose proof (known_mono l0 (log m) out) as HK. constructor; simpl; try done.
    + by eapply list_ok_mono.
    + eapply Forall_impl; [exact Gp|]. naive_solver.
    + eapply Forall_impl; [exact Gcs|]. intros c. by apply call_ok_mono.
  - by apply (Hadd (SavingLoad input) (pendingSelections m)).
  - by apply (Hadd (RemovingLoad rid) (pendingSelections m)).
Qed.

Lemma run_manager_inv l0 es : forall m o, inv l0 m o -> serial m es = true -> Forall event_stable es -> exists o', inv l0 (run es m) o'.
Proof.
  induction es as [|e es IH]; intros m o Hinv Hser Hst; [by exists o|]. apply Forall_cons in Hst as [He Hst].
  cbn [serial] in Hser. apply andb_prop in Hser as [H1 H2]. destruct e as [now r|i a]; simpl in *.
  - by eapply IH; [apply start_inv|..].
  - destruct (advance_inv l0 m o i a He Hinv) as [o' Ho']. by eapply IH.
Qed.

End Manager.

(** ** Concrete runs *)

Definition sample_answers (table : answer_table) (uuid : string) (fault : write_fault) : Answers := {|
  now := 0; fresh_uuid := js uuid; realpath_answer := fun _ p => Ok p; git_answer := fun _ _ args => answer table args;
  writable_answer := fun _ _ => true; read_error := None; configExists := false;
  snapshots := [(DaemonManager.bare DaemonManager.stopped true, 0)]; write_outcome := fault |}.
(** A repository at [path]: [git] answers the questions of an inspection. *)
Definition repository_table (path : string) : answer_table := [
  (["rev-parse"; "--show-toplevel"], path); (["rev-parse"; "--verify"; "HEAD"], "0123456789abcdef0123456789abcdef01234567");
  (["remote"], "origin"); (["show-ref"; "--verify"; "--quiet"; "refs/heads/main"], "x");
  (["check-ref-format"; "--branch"; "main"], "main"); (["remote"; "get-url"; "origin"], "git@github.com:org/demo.git");
  (["status"; "--porcelain=v1"], "")]%string.
Definition answers_at (path uuid : string) : Answers := sample_answers (repository_table path) uuid NoFault.
Definition save_input (i : string) (selection : string) : WorkspaceSaveInput := {|
  originalId := None; selectionId := Some (js selection); in_id := js i; in_name := js "Demo "; in_access := read_write;
  in_remote := js "origin"; in_defaultBranch := js "main" |}.
Definition sha (_ : jstr) : jstr := js "0123456789abcdef".
Abbreviation sample_run := (run sample_parse sample_stringify no_url sha (js "/workspaces.json") (js "42")).
Abbreviation sample_load m := (load sample_parse (js "/workspaces.json") (disk m)).

Definition stage_events (path uuid : string) : list event := [Start 0 (Stage (js path)); Advance 0 (answers_at path uuid)].
Definition save_events (path i uuid : string) : list event :=
  Start 0 (Save (save_input i uuid)) :: replicate 5 (Advance 0 (answers_at path uuid)).
Definition sample_events : list event :=
  stage_events "/work/a" "one" ++ save_events "/work/a" "a" "one" ++
  stage_events "/work/a" "two" ++ save_events "/work/a" "b" "two" ++
  stage_events "/work/b" "three" ++ save_events "/work/b" "b" "three" ++
  Start 0 (Remove (js "a")) :: replicate 3 (Advance 0 (answers_at "/work/a" "x")).

Lemma sample_events_stable : Forall (event_stable (fun _ => True)) sample_events.
Proof. repeat constructor; simpl; intros; simplify_eq; done. Qed.


(** Two saves that overlap: the second has read the list before the first wrote
    its own. Both succeed, and the first workspace is lost. *)
Example overlapping_saves_lose_workspace :
  let m := sample_run (stage_events "/work/a" "one" ++ stage_events "/work/b" "two" ++
    [Start 0 (Save (save_input "a" "one")); Start 0 (Save (save_input "b" "two"))] ++
    [Advance 0 (answers_at "/work/a" "x"); Advance 1 (answers_at "/work/b" "x")] ++
    replicate 4 (Advance 0 (answers_at "/work/a" "x")) ++ replicate 4 (Advance 0 (answers_at "/work/b" "x"))) (new_manager ∅) in
  map (fun o => match o with Saved v => id (shown v) | _ => [] end) (log m) = [[]; []; js "a"; js "b"] /\
  (map id ∘ default []) <$> sample_load m = Ok [js "b"].
Proof. vm_compute. done. Qed.

(** The inspection after the write fails: the caller is told that the save was
    rejected, but the workspace is in the registry. *)
Example saved_but_rejected :
  let m := sample_run (stage_events "/work/a" "one" ++ Start 0 (Save (save_input "a" "one")) ::
    replicate 4 (Advance 0 (answers_at "/work/a" "x")) ++ [Advance 0 (sample_answers [] "x" NoFault)]) (new_manager ∅) in
  last (log m) = Some (Rejected (Error (js "The selected directory is not a Git repository."))) /\
  (map id ∘ default []) <$> sample_load m = Ok [js "a"].
Proof. vm_compute. done. Qed.

(** A save that is refused for its id has used up the selection: the corrected
    save is refused as well, with the message of an expired selection. *)
Example refused_save_loses_selection :
  let m := sample_run (stage_events "/work/a" "one" ++ save_events "/work/a" "a" "one" ++
    stage_events "/work/b" "two" ++ save_events "/work/b" "a" "two" ++ save_events "/work/b" "b" "two") (new_manager ∅) in
  drop 3 (log m) = [Rejected (Error (js "Workspace ID is already in use."));
                    Rejected (Error (js "Repository selection expired. Choose the repository again."))].
Proof. vm_compute. done. Qed.
End WorkspaceManager.
