(* ===== verification/RuntimeProfile.v ===== *)
(** * The daemon's configuration (runtime-profile.ts)

    The product profile that ships with the application is checked once, and the
    configuration of the daemon is generated from it and from the managed
    workspaces as TOML, whose strings are quoted by [JSON.stringify]; secrets go
    to the environment of the daemon instead.

    [read_toml] is the specification's reader of the part of TOML that the code
    writes: tables, arrays of tables, and basic strings with just the escapes
    and characters TOML allows.

    The URL parser, and [Number(...)] and [String(...)] of values that are no
    numbers and no strings, are arguments. *)

From S2P Require Import Prelude JsValue JsMap LocalFile Path Validate TaskPolicy WorkspaceStore DaemonLog.
Import TaskPolicy WorkspaceStore.

Module RuntimeProfile.

(** ** Strings in TOML *)

Definition QUOTE : N := 34.
Definition NEWLINE : N := 10.
Definition hex_unit (n : N) : N := if (n <? 10)%N then (48 + n)%N else (87 + n)%N.
(** [\uXXXX] *)
Definition unicode_escape (u : N) : jstr :=
  [BACKSLASH; 117; hex_unit (N.shiftr u 12); hex_unit (N.land (N.shiftr u 8) 15); hex_unit (N.land (N.shiftr u 4) 15);
   hex_unit (N.land u 15)]%N.
(** A code unit that stands alone in [JSON.stringify] *)
Definition quote_unit (u : N) : jstr :=
  if (u =? 8)%N then [BACKSLASH; 98]%N else if (u =? 9)%N then [BACKSLASH; 116]%N else if (u =? 10)%N then [BACKSLASH; 110]%N
  else if (u =? 12)%N then [BACKSLASH; 102]%N else if (u =? 13)%N then [BACKSLASH; 114]%N
  else if (u =? QUOTE)%N || (u =? BACKSLASH)%N then [BACKSLASH; u]
  else if (u <? 32)%N || is_high_surrogate u || is_low_surrogate u then unicode_escape u
  else [u].
Fixpoint quote_units (s : jstr) : jstr :=
  match s with
  | [] => []
  | u :: t =>
      match t with
      | v :: t' => if is_high_surrogate u && is_low_surrogate v then u :: v :: quote_units t' else quote_unit u ++ quote_units t
      | [] => quote_unit u
      end
  end.
(** [JSON.stringify(value)] of a string *)
Definition JSON_string (s : jstr) : jstr := QUOTE :: quote_units s ++ [QUOTE].

Definition tomlString (v : jstr) : result jstr :=
  if has_nul v then fail "TOML strings cannot contain NUL" else Ok (JSON_string v).

(** ** The product profile *)

(** A URL as far as it is looked at *)
Record URL := { protocol : jstr; username : jstr; password : jstr; hash : jstr }.

Definition nonstring_throws {A} (v : value) (undefined : A) (k : jstr -> A) : result A :=
  match v with
  | VUndefined | VNull => Ok undefined
  | VString s => Ok (k s)
  | _ => fail "value is not a function"
  end.
(** [value?.key] *)
Definition maybe (v : value) (key : string) : value := match v with VObject fs => field fs (js key) | _ => VUndefined end.
Definition is_flag (b : bool) (v : value) : bool := match v with VBool c => Bool.eqb b c | _ => false end.
Definition is_bool (v : value) : bool := match v with VBool _ => true | _ => false end.

Section Profile.
Context (URL_parse : value -> option URL) (Number_of : value -> num) (String_of : value -> jstr).

Definition isCredentialFreeHttpsUrl (v : value) : bool :=
  match URL_parse v with
  | Some u => bool_decide (protocol u = js "https:") && negb (truthy (username u)) && negb (truthy (password u)) && negb (truthy (hash u))
  | None => false
  end.

(** [value < 256] *)
Definition below_256 (v : value) : bool :=
  match match v with VNumber n => n | VUndefined => NNaN | _ => Number_of v end with
  | NInt z => z <? 256
  | NFrac m e => m <? 256 * 2 ^ Zpos e
  | NInf negative => negative
  | NNaN => false
  end.

(** [/^__[A-Z0-9_]+__$/] *)
Definition placeholder (s : jstr) : bool :=
  starts_with s (js "__") && ends_with s (js "__") && (5 <=? slen s)
  && forallb (fun u => ((65 <=? u) && (u <=? 90) || (48 <=? u) && (u <=? 57) || (u =? 95))%N) s.

Definition validateDesktopBehaviorPolicy (policy : value) : result unit :=
  require (truthy_value policy && is_bool (maybe policy "allowBackgroundMode") && is_bool (maybe policy "allowLaunchAtLogin")
           && is_bool (maybe policy "allowNotifications")) "Desktop behavior policy is invalid".

Definition validateCliProvider (name : string) (provider : value) (cli hostname : string) : result unit :=
  _ ← require (truthy_value provider && is_string (maybe provider "cli") (js cli))
        ("Desktop " +:+ name +:+ " provider must use " +:+ cli +:+ " CLI");
  _ ← require (is_string (maybe provider "hostname") (js hostname)) ("Desktop " +:+ name +:+ " provider hostname is invalid");
  require (isCredentialFreeHttpsUrl (maybe provider "apiBaseUrl"))
    ("Desktop " +:+ name +:+ " API endpoint must use credential-free HTTPS").

(** [for (const [label, url] of [...]) if (!isCredentialFreeHttpsUrl(url)) throw ...] *)
Fixpoint require_urls (urls : list (string * value)) : result unit :=
  match urls with
  | [] => Ok tt
  | (label, url) :: urls' =>
      _ ← require (isCredentialFreeHttpsUrl url) ("Desktop " +:+ label +:+ " URL must use credential-free HTTPS");
      require_urls urls'
  end.
(** [for (const key of [...]) if (!profile.bootstrapBroker?.[key]?.startsWith("/")) throw ...] *)
Fixpoint require_absolute (broker : value) (keys : list string) : result unit :=
  match keys with
  | [] => Ok tt
  | key :: keys' =>
      ok ← nonstring_throws (maybe broker key) false (fun s => starts_with s [SLASH]);
      _ ← require ok ("Desktop bootstrap broker " +:+ key +:+ " must be absolute");
      require_absolute broker keys'
  end.

Definition validateProductProfile (v : value) (allowPlaceholders : bool) : result value :=
  match is_record v with
  | None => fail "Desktop product profile must be an object"
  | Some fs =>
      let profile := field fs ∘ js in
      _ ← require (is_int (profile "schemaVersion") 1) "unsupported Desktop product profile schemaVersion";
      _ ← require (is_string (maybe (profile "product") "name") (js "SourceNerve")) "unexpected Desktop product name";
      described ← (if is_string (maybe (profile "plugin") "name") (js "SourceNerve")
                   then nonstring_throws (maybe (profile "plugin") "description") false (fun s => truthy (trim s))
                   else Ok false);
      _ ← require described "Desktop plugin profile is invalid";
      _ ← require_urls [("website", maybe (profile "product") "websiteUrl"); ("support", maybe (profile "product") "supportUrl");
                        ("privacy", maybe (profile "product") "privacyUrl"); ("terms", maybe (profile "product") "termsUrl");
                        ("plugin icon", maybe (profile "plugin") "iconUrl"); ("ChatGPT setup", maybe (profile "plugin") "chatgptSetupUrl")];
      let daemon := profile "daemon" in
      _ ← require (is_flag true (maybe daemon "managed") && is_string (maybe daemon "bind") (js "127.0.0.1:7331"))
            "Desktop SourceNerve daemon must stay managed and loopback-bound";
      _ ← require (is_string (maybe daemon "healthPath") (js "/healthz") && is_string (maybe daemon "mcpPath") (js "/mcp"))
            "Desktop daemon endpoint contract is invalid";
      _ ← validateDesktopBehaviorPolicy (profile "desktopBehavior");
      _ ← validateCliProvider "GitHub" (maybe (profile "gitProviders") "github") "gh" "github.com";
      _ ← validateCliProvider "GitLab" (maybe (profile "gitProviders") "gitlab") "glab" "gitlab.com";
      _ ← require (is_string (maybe (profile "publicMcp") "authentication") (js "none")) "Desktop Public MCP must use No Auth";
      _ ← require (negb (below_256 (maybe (profile "installation") "localBearerEntropyBits")))
            "Desktop local bearer policy must provide at least 256 bits of entropy";
      _ ← require (is_flag true (maybe (profile "installation") "secureStoreRequired"))
            "Desktop secure storage cannot be optional";
      _ ← require (is_flag false (maybe (profile "cloudflare") "desktopReceivesAccountApiToken"))
            "Desktop must never receive the Cloudflare account API token";
      _ ← require_absolute (profile "bootstrapBroker") ["enrollPath"; "rotateTunnelPath"; "revokePath"; "statusPath"];
      _ ← (if allowPlaceholders then Ok tt
           else let url := maybe (profile "bootstrapBroker") "baseUrl" in
                require (truthy_value url && negb (placeholder (match url with VString s => s | _ => String_of url end))
                         && isCredentialFreeHttpsUrl url)
                  "unresolved packaged Desktop profile value: bootstrapBroker.baseUrl");
      Ok v
  end%string.

(** ** The runtime *)

Record MaterializeRuntimeInput := {
  productProfile : value; in_configPath : jstr; stateDirectory : jstr; localBearer : jstr;
  workspaces : list ManagedWorkspace; githubToken : option jstr; gitlabToken : option jstr }.

Definition isPrintableAscii (s : jstr) : bool := truthy s && forallb (fun u => (0x21 <=? u)%N && (u <=? 0x7e)%N) s.
Definition token_ok (token : option jstr) : bool :=
  match token with
  | Some t => negb (truthy t) || (negb (slen t <? 20) && negb (4096 <? slen t) && isPrintableAscii t)
  | None => true
  end.

Fixpoint validateWorkspaces (ids : list jstr) (l : list ManagedWorkspace) : result unit :=
  match l with
  | [] => Ok tt
  | w :: l' =>
      let refuse (bad : bool) (msg : string) : result unit := if bad then fail_for msg (id w) else Ok tt in
      _ ← refuse (negb (workspace_id_ok (id w))) "invalid workspace id";
      _ ← refuse (bool_decide (id w ∈ ids)) "duplicate workspace id";
      _ ← refuse (negb (truthy (trim (name w))) || (128 <? slen (name w))) "invalid workspace name";
      _ ← refuse (negb (isAbsolute (root w))) "workspace root must be absolute";
      _ ← refuse (negb (truthy (trim (remote w))) || (128 <? slen (remote w))) "invalid workspace remote";
      _ ← refuse (negb (truthy (trim (defaultBranch w))) || (256 <? slen (defaultBranch w))) "invalid workspace default branch";
      _ ← refuse (truthy_opt (repository w) && bool_decide (provider w = None)) "workspace repository requires provider";
      validateWorkspaces (id w :: ids) l'
  end.

Definition validateMaterializationInput (input : MaterializeRuntimeInput) : result unit :=
  _ ← validateProductProfile (productProfile input) true;
  let bearer := localBearer input in
  _ ← require (negb (slen bearer <? 32) && negb (256 <? slen bearer) && isPrintableAscii bearer)
        "Desktop local bearer must be 32-256 printable ASCII bytes";
  _ ← require (token_ok (githubToken input)) "Desktop GitHub provider token has an invalid shape";
  _ ← require (token_ok (gitlabToken input)) "Desktop GitLab provider token has an invalid shape";
  _ ← require (negb (bool_decide (workspaces input = []))) "Desktop runtime requires at least one selected workspace";
  validateWorkspaces [] (workspaces input).

(** [`key = ${tomlString(value)}`] *)
Definition toml_line (key : string) (v : jstr) : result jstr := s ← tomlString v; Ok (js key ++ js " = " ++ s).
Definition workspace_lines (w : ManagedWorkspace) : result (list jstr) :=
  i ← toml_line "id" (id w); n ← toml_line "name" (name w); r ← toml_line "root" (root w);
  a ← toml_line "access" (access_name (access w)); m ← toml_line "remote" (remote w); b ← toml_line "default_branch" (defaultBranch w);
  p ← (match provider w with Some p => (fun l => [l]) <$> toml_line "provider" (provider_name p) | None => Ok [] end);
  s ← (match repository w with
       | Some s => if truthy s then (fun l => [l]) <$> toml_line "repository" s else Ok []
       | None => Ok [] end);
  Ok ([[]; js "[[workspace]]"; i; n; r; a; m; b] ++ p ++ s).

Definition bind_of (profile : value) : jstr := match maybe (maybe profile "daemon") "bind" with VString s => s | _ => [] end.
Definition header_lines (bind state_dir : jstr) : list jstr :=
  [js "# Generated by SourceNerve Desktop. User secrets are supplied out-of-band."; js "[server]"; bind; []; js "[storage]"; state_dir; [];
   js "[auth]"; js "# bearer_token is intentionally supplied through SOURCENERVE_BEARER_TOKEN."; []; js "[github]";
   js "# token is supplied transiently from the authenticated gh CLI when configured."].

(** The lines, each with a line feed *)
Definition toml_text (lines : list jstr) : jstr := join [NEWLINE] lines ++ [NEWLINE].
Definition buildRuntimeToml (input : MaterializeRuntimeInput) : result jstr :=
  _ ← validateMaterializationInput input;
  bind ← toml_line "bind" (bind_of (productProfile input));
  state_dir ← toml_line "state_dir" (stateDirectory input);
  ws ← map_result workspace_lines (workspaces input);
  Ok (toml_text (header_lines bind state_dir ++ concat ws)).

Definition atomicWrite (pid : jstr) (fault : write_fault) (filePath content : jstr) : M Disk unit :=
  replaceFile fault (filePath ++ js ".tmp-" ++ pid) filePath content.

(** The configuration written and the environment of the daemon *)
Definition materializeRuntime (pid : jstr) (fault : write_fault) (input : MaterializeRuntimeInput) : M Disk (jstr * DaemonLog.ProcessEnv) :=
  _ ← lift (validateMaterializationInput input);
  toml ← lift (buildRuntimeToml input);
  _ ← atomicWrite pid fault (in_configPath input) toml;
  let environment := [(js "SOURCENERVE_CONFIG", in_configPath input); (js "SOURCENERVE_BEARER_TOKEN", localBearer input)]
    ++ match githubToken input with Some t => if truthy t then [(js "SOURCENERVE_GITHUB_TOKEN", t)] else [] | None => [] end
    ++ match gitlabToken input with Some t => if truthy t then [(js "SOURCENERVE_GITLAB_TOKEN", t)] else [] | None => [] end in
  mret (in_configPath input, environment).
End Profile.

(** ** Reading the configuration back

    A reader of TOML 1.0 for documents of tables with quoted values. It reads
    no other kind of value and not the escape [\U], and all it accepts is TOML:
    it refuses what TOML refuses, raw
    control characters but the tab, escapes TOML does not have, code units and
    escapes that are no Unicode scalar value, keys and headers that are not
    bare, a key or a table given twice, and anything else on a line. *)

Definition hex_value (u : N) : option N :=
  if ((48 <=? u) && (u <=? 57))%N then Some (u - 48)%N
  else if ((97 <=? u) && (u <=? 102))%N then Some (u - 87)%N
  else if ((65 <=? u) && (u <=? 70))%N then Some (u - 55)%N
  else None.
Definition hex4 (a b c d : N) : option N :=
  a ← hex_value a; b ← hex_value b; c ← hex_value c; d ← hex_value d; Some (a * 4096 + b * 256 + c * 16 + d)%N.
Definition is_surrogate (u : N) : bool := is_high_surrogate u || is_low_surrogate u.
Definition escaped (c : N) : option N :=
  if (c =? 98)%N then Some 8%N else if (c =? 116)%N then Some 9%N else if (c =? 110)%N then Some 10%N
  else if (c =? 102)%N then Some 12%N else if (c =? 114)%N then Some 13%N
  else if (c =? QUOTE)%N || (c =? BACKSLASH)%N then Some c else None.
Definition prefixed (l : jstr) (r : option (jstr * jstr)) : option (jstr * jstr) := prod_map (app l) (fun r => r) <$> r.
(** The text of a basic string behind its opening quote, and what follows it *)
Fixpoint unquote (s : jstr) : option (jstr * jstr) :=
  match s with
  | [] => None
  | u :: t =>
      if (u =? QUOTE)%N then Some ([], t)
      else if (u =? BACKSLASH)%N then
        match t with
        | c :: t' =>
            if (c =? 117)%N then
              match t' with
              | h1 :: h2 :: h3 :: h4 :: t'' =>
                  match hex4 h1 h2 h3 h4 with
                  | Some n => if is_surrogate n then None else prefixed [n] (unquote t'')
                  | None => None
                  end
              | _ => None
              end
            else match escaped c with Some c' => prefixed [c'] (unquote t') | None => None end
        | [] => None
        end
      else if is_control u && negb (u =? 9)%N then None
      else if is_high_surrogate u then
        match t with v :: t' => if is_low_surrogate v then prefixed [u; v] (unquote t') else None | [] => None end
      else if is_low_surrogate u then None
      else prefixed [u] (unquote t)
  end.

Definition HASH : N := 35.
Definition OPEN : N := 91.
Definition CLOSE : N := 93.
Definition bare_unit (u : N) : bool :=
  ((65 <=? u) && (u <=? 90) || (97 <=? u) && (u <=? 122) || (48 <=? u) && (u <=? 57) || (u =? 95) || (u =? 45))%N.
Definition bare (k : jstr) : bool := truthy k && forallb bare_unit k.
(** [[name]] for [n = 1], [[[name]]] for [n = 2] *)
Definition header_of (n : nat) (l : jstr) : option jstr :=
  let k := take (length l - 2 * n) (drop n l) in
  if bool_decide (l = replicate n OPEN ++ k ++ replicate n CLOSE) && bare k then Some k else None.
Inductive item := Blank | Header (array : bool) (name : jstr) | Pair (k v : jstr).
(** [key = "value"] *)
Fixpoint read_pair (l : jstr) : option (jstr * jstr) :=
  match l with
  | [] => None
  | u :: t =>
      if (u =? 32)%N then
        if starts_with t (js "= " ++ [QUOTE]) then
          match unquote (drop 3 t) with Some (v, []) => Some ([], v) | _ => None end
        else None
      else prod_map (cons u) (fun v => v) <$> read_pair t
  end.
Definition read_item (l : jstr) : option item :=
  match l with
  | [] => Some Blank
  | u :: t =>
      if (u =? HASH)%N then if existsb (fun u => is_control u && negb (u =? 9)%N) t then None else Some Blank
      else if (u =? OPEN)%N then
        match header_of 2 l, header_of 1 l with
        | Some k, _ => Some (Header true k)
        | None, Some k => Some (Header false k)
        | None, None => None
        end
      else match read_pair l with Some (k, v) => if bare k then Some (Pair k v) else None | None => None end
  end.

(** A table: whether it is one of an array of tables, its name and its keys *)
Abbreviation table := (bool * jstr * list (jstr * jstr))%type.
Definition clashes (array : bool) (name : jstr) (t : table) : bool := bool_decide (t.1.2 = name) && negb (array && t.1.1).
(** The keys before the first header, and the tables *)
Fixpoint read_lines (ls : list jstr) : option (list (jstr * jstr) * list table) :=
  match ls with
  | [] => Some ([], [])
  | l :: ls' =>
      match read_item l, read_lines ls' with
      | Some Blank, Some acc => Some acc
      | Some (Pair k v), Some (kvs, ts) => if bool_decide (k ∈ map fst kvs) then None else Some ((k, v) :: kvs, ts)
      | Some (Header array name), Some (kvs, ts) =>
          if existsb (clashes array name) ts then None else Some ([], (array, name, kvs) :: ts)
      | _, _ => None
      end
  end.
Definition read_toml (toml : jstr) : option (list (jstr * jstr) * list table) := read_lines (split_char NEWLINE toml).

(** Text that TOML can hold as [JSON.stringify] writes it: no unpaired
    surrogate and no U+007F *)
Fixpoint toml_ok (s : jstr) : bool :=
  match s with
  | [] => true
  | u :: t =>
      if is_high_surrogate u then match t with v :: t' => is_low_surrogate v && toml_ok t' | [] => false end
      else negb (is_low_surrogate u) && negb (u =? 127)%N && toml_ok t
  end.

Definition workspace_fields (w : ManagedWorkspace) : list (jstr * jstr) :=
  [(js "id", id w); (js "name", name w); (js "root", root w); (js "access", access_name (access w)); (js "remote", remote w);
   (js "default_branch", defaultBranch w)]
  ++ match provider w with Some p => [(js "provider", provider_name p)] | None => [] end
  ++ match repository w with Some s => if truthy s then [(js "repository", s)] else [] | None => [] end.

Definition fields_ok (w : ManagedWorkspace) : bool := forallb (fun kv => toml_ok kv.2) (workspace_fields w).
(** The document that describes workspaces *)
Definition tables_of (state_dir : jstr) (ws : list ManagedWorkspace) : list table :=
  [(false, js "server", [(js "bind", js "127.0.0.1:7331")]); (false, js "storage", [(js "state_dir", state_dir)]);
   (false, js "auth", []); (false, js "github", [])] ++ map (fun w => (true, js "workspace", workspace_fields w)) ws.

(** *** Quoting *)

Lemma hex_unit_back n : (n < 16)%N -> hex_value (hex_unit n) = Some n.
Proof.
  intros H. assert (Hall : forallb (fun n => bool_decide (hex_value (hex_unit n) = Some n)) (map N.of_nat (seq 0 16)) = true) by (vm_compute; reflexivity).
  rewrite forallb_forall in Hall. specialize (Hall n). apply bool_decide_eq_true in Hall; [done|].
  apply in_map_iff. exists (N.to_nat n). split; [lia|]. apply in_seq. lia.
Qed.
Lemma nibbles u : (u < 65536)%N ->
  (N.shiftr u 12 < 16)%N /\ (u = N.shiftr u 12 * 4096 + N.land (N.shiftr u 8) 15 * 256 + N.land (N.shiftr u 4) 15 * 16 + N.land u 15)%N.
Proof.
  intros Hu. change 15%N with (N.ones 4). rewrite !N.land_ones, !N.shiftr_div_pow2.
  change (2 ^ 12)%N with 4096%N. change (2 ^ 8)%N with 256%N. change (2 ^ 4)%N with 16%N.
  zify. Z.to_euclidean_division_equations. lia.
Qed.
Lemma nibble_small u : (N.land u 15 < 16)%N.
Proof. change 15%N with (N.ones 4). rewrite N.land_ones. by apply N.mod_lt. Qed.

Lemma surrogate_bound u : is_high_surrogate u = true \/ is_low_surrogate u = true -> (0xD800 <= u < 65536)%N.
Proof. unfold is_high_surrogate, is_low_surrogate. rewrite !andb_true_iff, !N.leb_le. lia. Qed.
Lemma unquote_escape u r : (u < 65536)%N -> unquote (unicode_escape u ++ r) = if is_surrogate u then None else prefixed [u] (unquote r).
Proof.
  intros Hu. destruct (nibbles u Hu) as [H1 H2]. unfold unicode_escape. cbn [app unquote]. change (BACKSLASH =? QUOTE)%N with false.
  change (BACKSLASH =? BACKSLASH)%N with true. change (117 =? 117)%N with true. cbv iota.
  unfold hex4. rewrite !hex_unit_back by (exact H1 || apply nibble_small). cbn [mbind option_bind]. by rewrite <- H2.
Qed.
(** A code unit that is no half of a pair: it is read back, or refused when
    TOML does not have it. *)
Lemma unquote_unit u r : unquote (quote_unit u ++ r) = if is_surrogate u || (u =? 127)%N then None else prefixed [u] (unquote r).
Proof.
  unfold quote_unit. repeat match goal with |- context [(u =? ?c)%N] => 
    lazymatch c with 127%N => fail | _ => destruct (N.eqb_spec u c) as [->|]; [reflexivity|] end end. cbn [orb].
  destruct ((u <? 32)%N || is_high_surrogate u || is_low_surrogate u) eqn:E.
  - assert (Hu : (u < 65536)%N).
    { rewrite !orb_true_iff, N.ltb_lt in E. destruct E as [[?|?]|?]; [lia|apply surrogate_bound; auto..]. }
    rewrite unquote_escape by done. destruct (N.eqb_spec u 127) as [->|]; [done|]. by rewrite orb_false_r.
  - apply orb_false_elim in E as [[E1 E2]%orb_false_elim E3]. unfold is_surrogate. rewrite E2, E3. cbn [app unquote orb].
    rewrite (proj2 (N.eqb_neq u QUOTE)), (proj2 (N.eqb_neq u BACKSLASH)) by done. rewrite E2, E3.
    unfold is_control. apply N.ltb_ge in E1. rewrite (proj2 (N.leb_gt u 0x1f)) by lia. cbn [orb].
    destruct (N.eqb_spec u 127) as [->|]; [done|]. done.
Qed.
Lemma toml_ok_unit u s : is_high_surrogate u = false -> toml_ok (u :: s) = negb (is_surrogate u || (u =? 127)%N) && toml_ok s.
Proof. intros H. cbn [toml_ok]. rewrite H. unfold is_surrogate. rewrite H. cbn [orb]. by rewrite negb_orb. Qed.
Lemma unquote_quoted s r : unquote (quote_units s ++ QUOTE :: r) = if toml_ok s then Some (s, r) else None.
Proof.
  induction s as [|u|u v s IH2 IH1] using list_two_ind; [done| |].
  - simpl quote_units. rewrite unquote_unit. destruct (is_high_surrogate u) eqn:Hu; [by unfold is_surrogate; cbn [toml_ok]; rewrite Hu|].
    rewrite toml_ok_unit by done. by destruct (_ || _).
  - change (quote_units (u :: v :: s)) with (if is_high_surrogate u && is_low_surrogate v then u :: v :: quote_units s
      else quote_unit u ++ quote_units (v :: s)). destruct (is_high_surrogate u) eqn:Hu; [destruct (is_low_surrogate v) eqn:Hv|]; cbn [andb].
    + pose proof (surrogate_bound u (or_introl Hu)). cbn [app unquote].
      rewrite (proj2 (N.eqb_neq u QUOTE)), (proj2 (N.eqb_neq u BACKSLASH)) by (unfold QUOTE, BACKSLASH; lia).
      unfold is_control. rewrite (proj2 (N.leb_gt u 0x1f)), (proj2 (N.eqb_neq u 0x7f)) by lia. cbn [orb andb]. rewrite Hu, Hv, IH1.
      cbn [toml_ok]. rewrite Hu, Hv. cbn [andb]. by destruct (toml_ok s).
    + rewrite <- app_assoc, unquote_unit. cbn [toml_ok]. unfold is_surrogate. by rewrite Hu, Hv.
    + rewrite <- app_assoc, unquote_unit, IH2. rewrite (toml_ok_unit u) by done. destruct (_ || _); [done|]. cbn [negb andb].
      by destruct (toml_ok (v :: s)).
Qed.

(** *** Lines *)

Lemma quoted_no_newline s : NEWLINE ∉ quote_units s.
Proof.
  assert (Hh : forall n, NEWLINE <> hex_unit n) by (intros n; unfold NEWLINE, hex_unit; destruct (n <? 10)%N; lia).
  assert (Hn : forall u, NEWLINE ∉ quote_unit u).
  { intros u. unfold quote_unit. repeat match goal with |- context [(u =? ?c)%N] =>
      destruct (N.eqb_spec u c) as [->|]; [apply (bool_decide_eq_true_1 _); vm_compute; reflexivity|] end. cbn [orb].
    destruct (_ || _); [|by apply not_elem_of_cons; split; [|apply not_elem_of_nil]].
    unfold unicode_escape. rewrite !not_elem_of_cons. split_and!; try apply Hh; try done. apply not_elem_of_nil. }
  induction s as [|u|u v s IH2 IH1] using list_two_ind; [apply not_elem_of_nil|apply Hn|].
  change (quote_units (u :: v :: s)) with (if is_high_surrogate u && is_low_surrogate v then u :: v :: quote_units s
      else quote_unit u ++ quote_units (v :: s)). destruct (_ && _) eqn:E.
  - apply andb_prop in E as [Hu Hv]. pose proof (surrogate_bound u (or_introl Hu)). pose proof (surrogate_bound v (or_intror Hv)).
    rewrite !not_elem_of_cons. unfold NEWLINE. split_and!; [lia|lia|done].
  - rewrite elem_of_app. intros [H|H]; [by apply (Hn u)|done].
Qed.

Lemma toml_line_Ok key v l : toml_line key v = Ok l -> l = js key ++ js " = " ++ JSON_string v.
Proof. unfold toml_line, tomlString. destruct (has_nul v); [done|]. by intros [= <-]. Qed.

(** [key = "value"] *)
Definition key_line (kv : jstr * jstr) : jstr := kv.1 ++ js " = " ++ JSON_string kv.2.
Lemma bare_units k : bare k = true -> exists u t, k = u :: t /\ Forall (fun u => bare_unit u = true) k.
Proof.
  unfold bare. intros H. to_prop. destruct k as [|u t]; [done|]. exists u, t. split; [done|].
  apply Forall_forall. intros x Hx. rewrite forallb_forall in *. by apply H0, list_elem_of_In.
Qed.
Lemma bare_unit_not u : bare_unit u = true -> u <> NEWLINE /\ u <> 32%N /\ u <> HASH /\ u <> OPEN.
Proof. unfold bare_unit, NEWLINE, HASH, OPEN. intros H. split_and!; intros ->; done. Qed.
Lemma key_line_no_newline kv : bare kv.1 = true -> NEWLINE ∉ key_line kv.
Proof.
  intros (u & t & _ & Hk)%bare_units. unfold key_line. rewrite !elem_of_app. intros [H|[H|H]].
  - rewrite Forall_forall in Hk. by apply Hk, bare_unit_not in H as [? _].
  - revert H. apply (bool_decide_eq_false_1 _). vm_compute. reflexivity.
  - unfold JSON_string in H. apply elem_of_cons in H as [H|[H|H%list_elem_of_singleton]%elem_of_app]; [done| |done]. by apply quoted_no_newline in H.
Qed.
Lemma read_pair_line kv : Forall (fun u => bare_unit u = true) kv.1 -> read_pair (key_line kv) = if toml_ok kv.2 then Some kv else None.
Proof.
  destruct kv as [k v]. unfold key_line. cbn [fst snd]. induction 1 as [|u k Hu _ IH].
  - change ([] ++ js " = " ++ JSON_string v) with (32%N :: (js "= " ++ [QUOTE]) ++ quote_units v ++ [QUOTE]). cbn [read_pair].
    change (32 =? 32)%N with true. cbv iota. rewrite starts_with_app.
    change (drop 3 ((js "= " ++ [QUOTE]) ++ quote_units v ++ [QUOTE])) with (quote_units v ++ QUOTE :: []). rewrite unquote_quoted.
    by destruct (toml_ok v).
  - cbn [app read_pair]. rewrite (proj2 (N.eqb_neq u 32)) by by apply bare_unit_not. rewrite IH. by destruct (toml_ok v).
Qed.
Lemma read_key_line kv : bare kv.1 = true -> read_item (key_line kv) = if toml_ok kv.2 then Some (Pair kv.1 kv.2) else None.
Proof.
  intros Hb. destruct (bare_units _ Hb) as (u & t & E & Hk). pose proof (read_pair_line kv Hk) as H. revert H.
  destruct kv as [k v]. cbn [fst snd] in *. subst k. unfold key_line. cbn [fst snd app]. unfold read_item.
  apply Forall_cons in Hk as [(_ & _ & H1 & H2)%bare_unit_not _]. rewrite (proj2 (N.eqb_neq u HASH)), (proj2 (N.eqb_neq u OPEN)) by done.
  intros ->. destruct (toml_ok v); [|done]. by rewrite Hb.
Qed.
Lemma read_lines_None a b : read_lines b = None -> read_lines (a ++ b) = None.
Proof. intros H. induction a as [|l a IH]; [done|]. cbn [app read_lines]. rewrite IH. by destruct (read_item l) as [[]|]. Qed.
Lemma read_blank ls : read_lines ([] :: ls) = read_lines ls. Proof. cbn [read_lines read_item]. by destruct (read_lines ls). Qed.
Lemma read_header l array name ls : read_item l = Some (Header array name) ->
  read_lines (l :: ls) = '(kvs, ts) ← read_lines ls; if existsb (clashes array name) ts then None else Some ([], (array, name, kvs) :: ts).
Proof. intros H. cbn [read_lines]. rewrite H. by destruct (read_lines ls) as [[]|]. Qed.
Lemma read_comment l ls : read_item l = Some Blank -> read_lines (l :: ls) = read_lines ls.
Proof. intros H. cbn [read_lines]. rewrite H. by destruct (read_lines ls). Qed.
(** The keys of a table *)
Lemma read_keys kvs ls ts : Forall (fun k => bare k = true) (map fst kvs) -> NoDup (map fst kvs) -> read_lines ls = Some ([], ts) ->
  read_lines (map key_line kvs ++ ls) = if forallb (fun kv => toml_ok kv.2) kvs then Some (kvs, ts) else None.
Proof.
  intros Hb Hn Hl. induction kvs as [|kv kvs IH]; [done|]. cbn [map] in Hb, Hn. apply Forall_cons in Hb as [Hkv Hb]. apply NoDup_cons in Hn as [Hk Hn].
  cbn [map app read_lines forallb]. rewrite read_key_line, IH by done. destruct (toml_ok kv.2); [|done]. cbn [andb].
  destruct (forallb _ kvs); [|done]. rewrite bool_decide_eq_false_2 by done. by destruct kv.
Qed.

Lemma read_table h name kvs ls ts : read_item h = Some (Header false name) -> Forall (fun k => bare k = true) (map fst kvs) -> NoDup (map fst kvs) ->
  read_lines ls = Some ([], ts) -> existsb (clashes false name) ts = false ->
  read_lines (h :: map key_line kvs ++ ls) = if forallb (fun kv => toml_ok kv.2) kvs then Some ([], (false, name, kvs) :: ts) else None.
Proof.
  intros Hh Hb Hn Hl Hc. rewrite (read_header _ _ _ _ Hh), (read_keys _ _ ts) by done. destruct (forallb _ kvs); [|done].
  cbn [mbind option_bind]. by rewrite Hc.
Qed.

Lemma key_lines_of key v l : toml_line key v = Ok l -> l = key_line (js key, v).
Proof. apply toml_line_Ok. Qed.
Lemma workspace_lines_keys w ls : workspace_lines w = Ok ls -> ls = [] :: js "[[workspace]]" :: map key_line (workspace_fields w).
Proof.
  unfold workspace_lines, workspace_fields. intros H. inv_ok.
  repeat match goal with H : toml_line _ _ = Ok ?x |- _ => apply key_lines_of in H; subst x end.
  rewrite !map_app. cbn [app map]. repeat f_equal.
  - destruct (provider w); inv_ok; [|done]. match goal with H : toml_line _ _ = Ok ?x |- _ => apply key_lines_of in H; subst x end. done.
  - destruct (repository w) as [s|]; [destruct (truthy s)|]; inv_ok; try done.
    match goal with H : toml_line _ _ = Ok ?x |- _ => apply key_lines_of in H; subst x end. done.
Qed.
Definition field_names : list jstr := map js ["id"; "name"; "root"; "access"; "remote"; "default_branch"; "provider"; "repository"]%string.
Lemma workspace_keys w : Forall (fun k => bare k = true) (map fst (workspace_fields w)) /\ NoDup (map fst (workspace_fields w)).
Proof.
  assert (H : map fst (workspace_fields w) `sublist_of` field_names).
  { unfold workspace_fields. rewrite !map_app. change field_names with (take 6 field_names ++ [js "provider"] ++ [js "repository"]).
    repeat apply sublist_app; [done|destruct (provider w); [done|apply sublist_nil_l]|].
    destruct (repository w) as [s|]; [destruct (truthy s); [done|]|]; apply sublist_nil_l. }
  split.
  - assert (Hf : Forall (fun k => bare k = true) field_names) by (forall_list; vm_compute; reflexivity). rewrite Forall_forall in Hf |- *.
    intros k Hk. apply Hf. by eapply elem_of_submseteq; [|apply sublist_submseteq].
  - eapply sublist_NoDup; [|exact H]. apply (bool_decide_eq_true_1 _). vm_compute. reflexivity.
Qed.
Definition workspace_table (w : ManagedWorkspace) : table := (true, js "workspace", workspace_fields w).
Lemma read_workspaces l : forall lss, map_result workspace_lines l = Ok lss ->
  Forall (fun l => NEWLINE ∉ l) (concat lss) /\
  read_lines (concat lss ++ [[]]) = if forallb fields_ok l then Some ([], map workspace_table l) else None.
Proof.
  induction l as [|w l IH]; intros lss H; cbn [map_result] in H; inv_ok; [by split|].
  match goal with H : workspace_lines w = Ok ?x, H' : map_result _ _ = Ok ?y |- _ =>
    destruct (IH y H') as [G1 G2]; apply workspace_lines_keys in H; subst x; clear IH H'; rename y into rest end.
  destruct (workspace_keys w) as [Hb Hn]. cbn [concat]. split.
  - apply Forall_app. split; [|done]. apply Forall_cons_2; [apply not_elem_of_nil|].
    apply Forall_cons_2; [apply (bool_decide_eq_true_1 _); vm_compute; reflexivity|]. apply Forall_fmap. rewrite Forall_fmap in Hb.
    eapply Forall_impl; [exact Hb|]. intros kv. apply key_line_no_newline.
  - rewrite <- app_assoc. cbn [app forallb]. rewrite read_blank, (read_header _ true (js "workspace")) by (vm_compute; reflexivity).
    destruct (forallb fields_ok l); [|by rewrite read_lines_None, andb_false_r].
    rewrite (read_keys (workspace_fields w) (concat rest ++ [[]]) (map workspace_table l)) by done. rewrite andb_true_r.
    unfold fields_ok at 1. destruct (forallb _ _); [|done]. cbn [mbind option_bind].
    replace (existsb _ _) with false; [done|]. symmetry. clear. induction l as [|x l IH]; [done|]. cbn [map existsb]. rewrite IH.
    unfold clashes, workspace_table. cbn. by rewrite andb_false_r.
Qed.

(** The input with other secrets *)
Definition with_secrets (bearer : jstr) (github gitlab : option jstr) (input : MaterializeRuntimeInput) : MaterializeRuntimeInput :=
  {| productProfile := productProfile input; in_configPath := in_configPath input; stateDirectory := stateDirectory input;
     localBearer := bearer; workspaces := workspaces input; githubToken := github; gitlabToken := gitlab |}.

Section Reading.
Context (URL_parse : value -> option URL) (Number_of : value -> num) (String_of : value -> jstr).

Lemma checked_bind input : validateMaterializationInput URL_parse Number_of String_of input = Ok tt ->
  bind_of (productProfile input) = js "127.0.0.1:7331".
Proof.
  unfold validateMaterializationInput. intros (v & H & _)%bind_Ok. unfold validateProductProfile in H.
  destruct (productProfile input) as [| | | | | |fs]; try done. cbn [is_record] in H. inv_ok. to_prop. unfold bind_of. cbn [maybe].
  match goal with H : is_string (maybe _ "bind") _ = true |- _ => revert H end.
  unfold compose. destruct (maybe (field fs (js "daemon")) "bind"); try done. cbn. by intros ->%bool_decide_eq_true.
Qed.
(** The document, when TOML can hold the texts; otherwise it is no TOML. *)
Lemma toml_read_back input toml : buildRuntimeToml URL_parse Number_of String_of input = Ok toml ->
  read_toml toml = if toml_ok (stateDirectory input) && forallb fields_ok (workspaces input)
                   then Some ([], tables_of (stateDirectory input) (workspaces input)) else None.
Proof.
  unfold buildRuntimeToml. intros H. inv_ok.
  match goal with u : unit |- _ => destruct u end.
  match goal with Hb : toml_line "bind" _ = Ok ?b, Hs : toml_line "state_dir" _ = Ok ?s, Hw : map_result _ _ = Ok ?lss |- _ =>
    apply key_lines_of in Hb; apply key_lines_of in Hs; destruct (read_workspaces _ lss Hw) as [G1 G2]; subst b s; rename lss into ws end.
  match goal with H : validateMaterializationInput _ _ _ _ = _ |- _ => rewrite (checked_bind _ H) end.
  unfold read_toml, toml_text. rewrite (split_char_app_sep NEWLINE _ []). rewrite split_char_join; [|done|].
  - change (split_char NEWLINE []) with [@nil N]. set (rest := concat ws ++ [[]]) in *. cbn [header_lines app]. fold rest.
    destruct (forallb fields_ok (workspaces input)); [|by rewrite andb_false_r; exact (read_lines_None (header_lines _ _) rest G2)].
    rewrite andb_true_r. set (tabs := map workspace_table (workspaces input)) in *.
    assert (Hclash : forall n, n <> js "workspace" -> existsb (clashes false n) tabs = false).
    { intros n Hn. subst tabs. clear -Hn. induction (workspaces input) as [|w l IH]; [done|]. cbn [map existsb]. rewrite IH.
      unfold clashes, workspace_table. cbn [fst snd andb negb]. by rewrite bool_decide_eq_false_2. }
    assert (Hgithub : read_lines ([] :: js "[github]" :: js "# token is supplied transiently from the authenticated gh CLI when configured." :: rest) =
      Some ([], (false, js "github", []) :: tabs)).
    { rewrite read_blank. apply (read_table _ (js "github") []); [vm_compute; reflexivity|constructor..| |by apply Hclash].
      by rewrite read_comment by (vm_compute; reflexivity). }
    assert (Hauth : read_lines ([] :: js "[auth]" :: js "# bearer_token is intentionally supplied through SOURCENERVE_BEARER_TOKEN." :: [] ::
      js "[github]" :: js "# token is supplied transiently from the authenticated gh CLI when configured." :: rest) =
      Some ([], (false, js "auth", []) :: (false, js "github", []) :: tabs)).
    { rewrite read_blank. apply (read_table _ (js "auth") []); [vm_compute; reflexivity|constructor..| |].
      - by rewrite read_comment by (vm_compute; reflexivity).
      - cbn [existsb]. by rewrite Hclash. }
    pose proof (read_table (js "[storage]") (js "storage") [(js "state_dir", stateDirectory input)] _ _ eq_refl
      ltac:(by repeat constructor) (NoDup_singleton _) Hauth ltac:(cbn [existsb]; by rewrite Hclash)) as Hstorage.
    cbn [forallb snd] in Hstorage. rewrite andb_true_r in Hstorage. rewrite read_comment by (vm_compute; reflexivity).
    destruct (toml_ok (stateDirectory input)); [|exact (read_lines_None [js "[server]"; key_line (js "bind", js "127.0.0.1:7331"); []] _ Hstorage)].
    rewrite <- read_blank in Hstorage.
    apply (read_table (js "[server]") (js "server") [(js "bind", js "127.0.0.1:7331")] _ _ eq_refl
      ltac:(by repeat constructor) (NoDup_singleton _) Hstorage). cbn [existsb]. by rewrite Hclash.
  - repeat apply Forall_cons_2; try (apply key_line_no_newline; reflexivity); try (apply (bool_decide_eq_true_1 _); vm_compute; reflexivity).
    exact G1.
Qed.

(** C27: the configuration that is written describes exactly the managed
    workspaces. Read as TOML it has the bind address, the state directory, one
    [[workspace]] table per workspace, in order, with the fields of that
    workspace, and nothing else, whatever the names, paths and branches contain:
    it is only no TOML at all when one of them has an unpaired surrogate or a
    U+007F, which [JSON.stringify] writes as TOML does not allow. And it says
    nothing of the secrets: with any other bearer and tokens that are accepted,
    it is the same text. *)
Theorem configuration_describes_workspaces input toml
  (Hbuild : buildRuntimeToml URL_parse Number_of String_of input = Ok toml) :
  read_toml toml = (if toml_ok (stateDirectory input) && forallb fields_ok (workspaces input)
                    then Some ([], tables_of (stateDirectory input) (workspaces input)) else None) /\
  forall bearer github gitlab,
    validateMaterializationInput URL_parse Number_of String_of (with_secrets bearer github gitlab input) = Ok tt ->
    buildRuntimeToml URL_parse Number_of String_of (with_secrets bearer github gitlab input) = Ok toml.
Proof.
  split; [by apply toml_read_back|]. unfold buildRuntimeToml in *. inv_ok.
  intros bearer github gitlab Hv. rewrite Hv. cbn [mbind result_bind productProfile stateDirectory workspaces with_secrets].
  repeat match goal with H : ?m = Ok _ |- context [?m] => rewrite H; cbn [mbind result_bind] end. reflexivity.
Qed.
End Reading.

(** ** A profile *)

Definition sample_profile : value := VObject [
  (js "schemaVersion", VInt 1);
  (js "product", VObject [(js "name", VString (js "SourceNerve")); (js "websiteUrl", VString (js "https://x")); (js "supportUrl", VString (js "https://x"));
     (js "privacyUrl", VString (js "https://x")); (js "termsUrl", VString (js "https://x"))]);
  (js "plugin", VObject [(js "name", VString (js "SourceNerve")); (js "description", VString (js "Plugin")); (js "iconUrl", VString (js "https://x"));
     (js "chatgptSetupUrl", VString (js "https://x"))]);
  (js "daemon", VObject [(js "managed", VBool true); (js "bind", VString (js "127.0.0.1:7331")); (js "healthPath", VString (js "/healthz"));
     (js "mcpPath", VString (js "/mcp"))]);
  (js "desktopBehavior", VObject [(js "allowBackgroundMode", VBool true); (js "allowLaunchAtLogin", VBool true); (js "allowNotifications", VBool true)]);
  (js "gitProviders", VObject [
     (js "github", VObject [(js "cli", VString (js "gh")); (js "hostname", VString (js "github.com")); (js "apiBaseUrl", VString (js "https://x"))]);
     (js "gitlab", VObject [(js "cli", VString (js "glab")); (js "hostname", VString (js "gitlab.com")); (js "apiBaseUrl", VString (js "https://x"))])]);
  (js "publicMcp", VObject [(js "authentication", VString (js "none"))]);
  (js "installation", VObject [(js "secureStoreRequired", VBool true)]);
  (js "cloudflare", VObject [(js "desktopReceivesAccountApiToken", VBool false)]);
  (js "bootstrapBroker", VObject [(js "enrollPath", VString (js "/a")); (js "rotateTunnelPath", VString (js "/b")); (js "revokePath", VString (js "/c"));
     (js "statusPath", VString (js "/d"))])].
Definition https_only (v : value) : option URL :=
  match v with
  | VString s => if starts_with s (js "https://") then Some {| protocol := js "https:"; username := []; password := []; hash := [] |} else None
  | _ => None
  end.

(** The profile says nothing of the entropy of the local bearer; the check that
    asks for at least 256 bits lets it pass, as [undefined < 256] is false. *)
Example missing_entropy_is_accepted :
  validateProductProfile https_only (fun _ => NNaN) (fun _ => []) sample_profile true = Ok sample_profile.
Proof. vm_compute. reflexivity. Qed.

(** A workspace whose name tries to add a table of its own *)
Definition sample_workspace : ManagedWorkspace := {|
  id := js "demo"; name := js "x" ++ [QUOTE; NEWLINE] ++ js "[[workspace]]" ++ [NEWLINE] ++ js "root = " ++ [QUOTE; 47; QUOTE]%N; root := js "/work/demo"; access := read_only;
  remote := js "origin"; defaultBranch := js "main"; provider := Some github; repository := Some (js "org/demo") |}.
Definition sample_input : MaterializeRuntimeInput := {|
  productProfile := sample_profile; in_configPath := js "/etc/sn.toml"; stateDirectory := js "/var/sn"; localBearer := replicate 40 65%N;
  workspaces := [sample_workspace]; githubToken := None; gitlabToken := None |}.
Lemma configuration_describes_workspaces_witness :
  exists toml, buildRuntimeToml https_only (fun _ => NNaN) (fun _ => []) sample_input = Ok toml /\
    read_toml toml = Some ([], tables_of (js "/var/sn") [sample_workspace]).
Proof.
  destruct (buildRuntimeToml https_only (fun _ => NNaN) (fun _ => []) sample_input) as [toml|e] eqn:E; [|vm_compute in E; discriminate E].
  exists toml. split; [reflexivity|]. apply (configuration_describes_workspaces _ _ _ sample_input toml E).
Defined.

(** The state directory with a U+007F in its name: it is accepted, and what is
    written is no TOML. *)
Definition delete_input : MaterializeRuntimeInput := {|
  productProfile := sample_profile; in_configPath := js "/etc/sn.toml"; stateDirectory := js "/var/sn" ++ [127%N];
  localBearer := replicate 40 65%N; workspaces := [sample_workspace]; githubToken := None; gitlabToken := None |}.
Example delete_is_written_raw : exists toml,
  buildRuntimeToml https_only (fun _ => NNaN) (fun _ => []) delete_input = Ok toml /\ read_toml toml = None.
Proof. eexists. split; [vm_compute; reflexivity|]. vm_compute. reflexivity. Qed.
End RuntimeProfile.
