(* ===== verification/WorkspaceGrants.v ===== *)
(** * Workspaces reach the daemon (workspace-grant-manager.ts)

    After a change of the registry the grant manager lists the workspaces,
    writes the daemon's configuration for them and restarts the daemon with it;
    with no workspaces left it stops the daemon and removes the configuration.
    Its mutations run one after another ([enqueueMutation]), so that one is
    modelled as one computation. What the daemon manager, the secret store, the
    command line tools and the file system answer is an argument; a trace
    records what was done to the daemon and its files, in order. *)

From S2P Require Import Prelude JsValue LocalFile JsonCodec Path WorkspaceStore RepositoryInspection DaemonLog DaemonManager WorkspaceManager RuntimeProfile.
Import WorkspaceStore RepositoryInspection WorkspaceManager RuntimeProfile.
Import (hints) DaemonManager.

Module WorkspaceGrants.

Abbreviation Snapshot := DaemonManager.DaemonSnapshot.

(** What is done to the daemon *)
Inductive action :=
| StopDaemon
| RemoveConfig
| WriteConfig (toml : jstr)
| ConfigureDaemon (plan : DaemonLog.DaemonLaunchPlan)
| RestartDaemon
| StartDaemon.

Record World := { disk : Disk; done : list action }.
Definition act (a : action) : M World unit := modify (fun w => {| disk := disk w; done := done w ++ [a] |}).
Definition set_disk (d : Disk) (w : World) : World := {| disk := d; done := done w |}.

(** The answers of the outside world to one mutation. The polls of the daemon
    come with the time of the check after each. *)
Record Outside := {
  polls_before : list (Snapshot * Z); polls_after : list (Snapshot * Z); deadline_before : Z; deadline_after : Z;
  stop_answer : result Snapshot; unlink_error : option exn;
  bearer : result (option jstr); github_token : option jstr; gitlab_token : option jstr;
  config_fault : write_fault; restart_answer : result Snapshot; start_answer : result Snapshot }.

(** [None] while the daemon still starts or stops and the time is not up *)
Fixpoint waitForDaemonStable (deadline : Z) (polls : list (Snapshot * Z)) : option (result Snapshot) :=
  match polls with
  | [] => None
  | (s, t) :: polls' =>
      if bool_decide (DaemonManager.state s <> DaemonManager.starting /\ DaemonManager.state s <> DaemonManager.stopping_) then Some (Ok s)
      else if deadline <=? t
      then Some (fail "SourceNerve daemon did not finish the current lifecycle operation before workspace reconciliation timed out")
      else waitForDaemonStable deadline polls'
  end.
(** A mutation whose polls end before the wait does is still waiting. *)
Definition STILL_WAITING : exn := NotAnError (js "still waiting").
Definition settled_daemon (deadline : Z) (polls : list (Snapshot * Z)) : M World Snapshot :=
  match waitForDaemonStable deadline polls with Some r => lift r | None => rethrow STILL_WAITING end.

Definition toManagedWorkspace (v : ManagedWorkspaceView) : ManagedWorkspace :=
  let w := shown v in
  {| id := id w; name := name w; root := root w; access := access w; remote := remote w; defaultBranch := defaultBranch w;
     provider := provider w;
     repository := match repository w with Some s => if truthy s then Some s else None | None => None end |}.

Section Grants.
Context (URL_parse : value -> option RuntimeProfile.URL) (Number_of : value -> num) (String_of : value -> jstr).
Context (profile : value) (configPath stateDirectory pid : jstr).

Definition is_foreign (s : Snapshot) : bool :=
  negb (DaemonManager.managed s) &&
  (bool_decide (DaemonManager.state s = DaemonManager.external) || bool_decide (DaemonManager.state s = DaemonManager.incompatible)).

(** [materializeRuntime], with the write recorded *)
Definition materialize (fault : write_fault) (input : MaterializeRuntimeInput) : M World (jstr * DaemonLog.ProcessEnv) := fun w =>
  match materializeRuntime URL_parse Number_of String_of pid fault input (disk w) with
  | (Ok p, d) => (Ok p, {| disk := d; done := done w ++ [WriteConfig (default [] (d !! configPath))] |})
  | (Throw e, d) => (Throw e, set_disk d w)
  end.

(** [unlink(configPath)], where a missing file is no error *)
Definition remove_config (error : option exn) : M World unit :=
  match error with
  | Some e => rethrow e
  | None => _ ← act RemoveConfig; modify (fun w => set_disk (delete configPath (disk w)) w)
  end.

Definition applyRuntime (o : Outside) (workspaces : list ManagedWorkspace) : M World unit :=
  current ← settled_daemon (deadline_before o) (polls_before o);
  _ ← js_guard (is_foreign current)
        "cannot update managed workspaces while an external SourceNerve daemon owns the local port";
  if bool_decide (workspaces = []) then
    _ ← (if DaemonManager.managed current && negb (bool_decide (DaemonManager.state current = DaemonManager.stopped))
         then _ ← act StopDaemon; _ ← lift (stop_answer o); mret tt else mret tt);
    remove_config (unlink_error o)
  else
    localBearer ← lift (bearer o);
    _ ← js_guard (negb (truthy_opt localBearer)) "SourceNerve local bearer is unavailable";
    let localBearer := default [] localBearer in
    let githubToken := if existsb (fun w => bool_decide (provider w = Some github)) workspaces then github_token o else None in
    let gitlabToken := if existsb (fun w => bool_decide (provider w = Some gitlab)) workspaces then gitlab_token o else None in
    materialized ← materialize (config_fault o)
      {| productProfile := profile; in_configPath := configPath; RuntimeProfile.stateDirectory := stateDirectory;
         RuntimeProfile.localBearer := localBearer; RuntimeProfile.workspaces := workspaces;
         RuntimeProfile.githubToken := githubToken; RuntimeProfile.gitlabToken := gitlabToken |};
    plan ← lift (DaemonLog.configure
      {| DaemonLog.configPath := materialized.1; DaemonLog.environment := materialized.2;
         DaemonLog.redactedSecrets := [localBearer]
           ++ match githubToken with Some t => if truthy t then [t] else [] | None => [] end
           ++ match gitlabToken with Some t => if truthy t then [t] else [] | None => [] end |});
    _ ← act (ConfigureDaemon plan);
    stable ← settled_daemon (deadline_after o) (polls_after o);
    result ← (if DaemonManager.managed stable && bool_decide (DaemonManager.state stable = DaemonManager.ready)
              then _ ← act RestartDaemon; lift (restart_answer o)
              else if bool_decide (DaemonManager.state stable = DaemonManager.stopped) || bool_decide (DaemonManager.state stable = DaemonManager.crashed)
              then _ ← act StartDaemon; lift (start_answer o)
              else mret stable);
    js_guard (negb (bool_decide (DaemonManager.state result = DaemonManager.ready)) || negb (DaemonManager.managed result))
      "managed SourceNerve daemon did not become ready after applying workspace changes".

(** [workspaceChanged] on what [listManagedWorkspaces] answers *)
Definition workspaceChanged (o : Outside) (views : result (list ManagedWorkspaceView)) : M World unit :=
  views ← lift views;
  applyRuntime o (map toManagedWorkspace views).

(** ** A change that is applied *)

Lemma toManagedWorkspace_id v : workspace_ok (shown v) -> toManagedWorkspace v = shown v.
Proof.
  intros H. pose proof (ok_repository _ H) as Hr. unfold toManagedWorkspace. destruct (shown v) as [i n r a m b p s]. cbn in *.
  destruct s as [[|u s]|]; done.
Qed.
Lemma views_to_workspaces vs l : map shown vs = l -> Forall workspace_ok l -> map toManagedWorkspace vs = l.
Proof.
  intros <-. induction vs as [|v vs IH]; [done|]. cbn. intros [Hv Hvs]%Forall_cons. by rewrite toManagedWorkspace_id, IH.
Qed.

(** The plan a configuration is handed to the daemon with *)
Record plan_ok (plan : DaemonLog.DaemonLaunchPlan) : Prop := {
  plan_path : DaemonLog.configPath plan = configPath;
  plan_config : DaemonLog.env_get (DaemonLog.environment plan) "SOURCENERVE_CONFIG" = Some configPath;
  plan_secrets : forall name v, (name, v) ∈ DaemonLog.environment plan -> DaemonLog.MIN_SECRET <= slen v ->
                 v ∈ DaemonLog.redactedSecrets plan }.

Lemma materialize_Ok fault input w p w' : in_configPath input = configPath ->
  materialize fault input w = (Ok p, w') ->
  exists toml, buildRuntimeToml URL_parse Number_of String_of input = Ok toml /\
    p = (configPath, [(js "SOURCENERVE_CONFIG", configPath); (js "SOURCENERVE_BEARER_TOKEN", RuntimeProfile.localBearer input)]
      ++ match RuntimeProfile.githubToken input with Some t => if truthy t then [(js "SOURCENERVE_GITHUB_TOKEN", t)] else [] | None => [] end
      ++ match RuntimeProfile.gitlabToken input with Some t => if truthy t then [(js "SOURCENERVE_GITLAB_TOKEN", t)] else [] | None => [] end) /\
    disk w' !! configPath = Some toml /\ done w' = done w ++ [WriteConfig toml].
Proof.
  intros Hpath. unfold materialize, materializeRuntime. cbv [mbind M_bind lift]. rewrite Hpath.
  destruct (validateMaterializationInput _ _ _ input); [|done]. destruct (buildRuntimeToml _ _ _ input) as [toml|]; [|done].
  unfold atomicWrite. pose proof (replaceFile_atomic fault (configPath ++ js ".tmp-" ++ pid) configPath toml (disk w)
    (temporary_ne configPath (js ".tmp-") pid ltac:(done))) as H.
  destruct (replaceFile _ _ _ _ _) as [[[]|e] d]; [|done]. destruct H as [Hok Hd]. cbn in Hok. rewrite <- Hok in Hd.
  intros [= <- <-]. exists toml. split_and!; [done|done|done|]. cbn. by rewrite Hd.
Qed.

Lemma configure_ok env secrets plan : DaemonLog.configure {| DaemonLog.configPath := configPath; DaemonLog.environment := env;
    DaemonLog.redactedSecrets := secrets |} = Ok plan ->
  (forall name v, (name, v) ∈ env -> v = configPath \/ v ∈ secrets) -> plan_ok plan.
Proof.
  unfold DaemonLog.configure. cbn. intros H Henv. inv_ok. to_prop. constructor; cbn; try done.
  intros name v Hin Hlen. apply DaemonLog.elem_of_uniqueSecrets. split; [|done]. rewrite !elem_of_app.
  destruct (Henv name v Hin) as [->|Hs]; [right; right; by left|by left].
Qed.

Definition answered_ready (r : result Snapshot) : Prop :=
  exists s, r = Ok s /\ DaemonManager.state s = DaemonManager.ready /\ DaemonManager.managed s = true.

(** What was done for a list of workspaces: the configuration removed, or
    written, handed to the daemon, and the daemon restarted or started with it *)
Inductive applied (o : Outside) (ws : list ManagedWorkspace) (w w' : World) : Prop :=
| nothing_managed stopped :
    ws = [] -> disk w' !! configPath = None -> stopped ∈ [[]; [StopDaemon]] -> done w' = done w ++ stopped ++ [RemoveConfig] ->
    applied o ws w w'
| daemon_runs toml plan started :
    disk w' !! configPath = Some toml ->
    read_toml toml = (if toml_ok stateDirectory && forallb fields_ok ws then Some ([], tables_of stateDirectory ws) else None) -> plan_ok plan ->
    done w' = done w ++ [WriteConfig toml; ConfigureDaemon plan; started] ->
    started = RestartDaemon /\ answered_ready (restart_answer o) \/ started = StartDaemon /\ answered_ready (start_answer o) ->
    applied o ws w w'.

Lemma settled_run deadline polls w s w' : settled_daemon deadline polls w = (Ok s, w') -> waitForDaemonStable deadline polls = Some (Ok s) /\ w' = w.
Proof. unfold settled_daemon. destruct (waitForDaemonStable _ _) as [[]|]; by intros [= <- <-]. Qed.
Lemma lift_run {S A} (r : result A) (s : S) a s' : lift r s = (Ok a, s') -> r = Ok a /\ s' = s.
Proof. by intros [= -> ->]. Qed.
Lemma guard_run {S} bad msg (s : S) u s' : js_guard bad msg s = (Ok u, s') -> bad = false /\ s' = s.
Proof. unfold js_guard. destruct bad; [done|]. by intros [= _ ->]. Qed.
Lemma bind_run {S A B} (m : M S A) (f : A -> M S B) s b s' : (m ≫= f) s = (Ok b, s') ->
  exists a s1, m s = (Ok a, s1) /\ f a s1 = (Ok b, s').
Proof. rewrite M_bind_run. destruct (m s) as [[a|e] s1]; [by exists a, s1|done]. Qed.

Lemma finish_run (result : Snapshot) msg (w w' : World) :
  js_guard (negb (bool_decide (DaemonManager.state result = DaemonManager.ready)) || negb (DaemonManager.managed result)) msg w = (Ok tt, w') ->
  DaemonManager.state result = DaemonManager.ready /\ DaemonManager.managed result = true /\ w' = w.
Proof. intros [H ->]%guard_run. to_prop. done. Qed.

Lemma token_secret (key : jstr) (token : option jstr) (name v : jstr) :
  (name, v) ∈ match token with Some t => if truthy t then [(key, t)] else [] | None => [] end ->
  v ∈ match token with Some t => if truthy t then [t] else [] | None => [] end.
Proof.
  destruct token as [t|]; [destruct (truthy t)|]; try (by intros ?%elem_of_nil). intros [= _ ->]%list_elem_of_singleton. by left.
Qed.

Lemma applyRuntime_spec o ws w w' : applyRuntime o ws w = (Ok tt, w') -> applied o ws w w'.
Proof.
  unfold applyRuntime. intros H. apply bind_run in H as (current & ? & [_ ->]%settled_run & H).
  apply bind_run in H as ([] & ? & [_ ->]%guard_run & H). case_bool_decide as Ews.
  - apply bind_run in H as ([] & w1 & H1 & H).
    assert (Hw1 : exists stopped, stopped ∈ [[]; [StopDaemon]] /\ done w1 = done w ++ stopped /\ disk w1 = disk w).
    { destruct (_ && _).
      - apply bind_run in H1 as ([] & w2 & [= <-] & H1). apply bind_run in H1 as (s & w3 & [_ ->]%lift_run & [= <-]).
        exists [StopDaemon]. split_and!; [right; by left|done|done].
      - injection H1 as <-. exists []. rewrite app_nil_r. split_and!; [by left|done|done]. }
    destruct Hw1 as (stopped & Hin & Hd & Hdisk). unfold remove_config in H. destruct (unlink_error o); [done|].
    apply bind_run in H as ([] & w2 & [= <-] & [= <-]). apply (nothing_managed _ _ _ _ stopped); [done| |done|].
    + cbn. apply lookup_delete_eq.
    + cbn. by rewrite Hd, <- app_assoc.
  - apply bind_run in H as (b & ? & [_ ->]%lift_run & H). apply bind_run in H as ([] & ? & [Hb ->]%guard_run & H). cbv zeta in H.
    apply bind_run in H as (p & w1 & H1 & H). apply materialize_Ok in H1 as (toml & Htoml & -> & Hdisk & Hdone); [|done].
    apply toml_read_back in Htoml. apply bind_run in H as (plan & ? & [Hplan ->]%lift_run & H).
    apply configure_ok in Hplan.
    2:{ intros name v Hin. cbn [snd RuntimeProfile.localBearer RuntimeProfile.githubToken RuntimeProfile.gitlabToken] in Hin.
        apply elem_of_app in Hin as [Hin|Hin].
        - apply elem_of_cons in Hin as [[= _ ->]|[= _ ->]%list_elem_of_singleton]; [by left|right; by left].
        - right. apply elem_of_cons. right. apply elem_of_app in Hin as [Hin|Hin]; apply elem_of_app; [left|right]; by eapply token_secret. }
    apply bind_run in H as ([] & w2 & [= <-] & H). apply bind_run in H as (stable & w3 & [_ ->]%settled_run & H).
    apply bind_run in H as (r & w4 & H1 & (Hr1 & Hr2 & ->)%finish_run).
    destruct (DaemonManager.managed stable && _) eqn:E1; [|destruct (_ || _) eqn:E2].
    + apply bind_run in H1 as ([] & w5 & [= <-] & [Ha ->]%lift_run). apply (daemon_runs _ _ _ _ toml plan RestartDaemon); try done.
      * cbn. by rewrite Hdone, <- !app_assoc.
      * left. split; [done|]. by exists r.
    + apply bind_run in H1 as ([] & w5 & [= <-] & [Ha ->]%lift_run). apply (daemon_runs _ _ _ _ toml plan StartDaemon); try done.
      * cbn. by rewrite Hdone, <- !app_assoc.
      * right. split; [done|]. by exists r.
    + injection H1 as <- _. rewrite Hr2 in E1. cbn in E1. to_prop. done.
Qed.

End Grants.

(** ** A concrete change *)

Definition registered : ManagedWorkspace := {|
  id := js "demo"; name := js "Demo"; root := js "/work/demo"; access := read_write; remote := js "origin"; defaultBranch := js "main";
  provider := Some github; repository := Some (js "org/demo") |}.
Definition sample_disk : Disk := {[ js "/workspaces.json" := serialize JsonCodec.sample_stringify [registered] ]}.
Definition sample_outside : Outside := {|
  polls_before := [(DaemonManager.bare DaemonManager.starting true, 0); (DaemonManager.bare DaemonManager.stopped true, 1)];
  polls_after := [(DaemonManager.bare DaemonManager.stopped true, 2)]; deadline_before := 75000; deadline_after := 75000;
  stop_answer := fail "not asked"; unlink_error := None; bearer := Ok (Some (replicate 40 65%N)); github_token := Some (replicate 30 66%N);
  gitlab_token := None; config_fault := NoFault; restart_answer := fail "not asked";
  start_answer := Ok (DaemonManager.bare DaemonManager.ready true) |}.
Abbreviation sample_change := (workspaceChanged https_only (fun _ => NNaN) (fun _ => []) sample_profile (js "/etc/sn.toml") (js "/var/sn") (js "42")
  sample_outside (listManagedWorkspaces JsonCodec.sample_parse no_url (js "/workspaces.json") (answers_at "/work/demo" "x") sample_disk)
  {| disk := ∅; done := [] |}).
Lemma sample_registry : holds JsonCodec.sample_stringify (js "/workspaces.json") sample_disk (Some [registered]).
Proof.
  split; [by apply lookup_singleton_eq|]. split; [|vm_compute; congruence].
  apply (validateRegistry_sound (registry_value [registered])). vm_compute. reflexivity.
Qed.


(** The wait for the daemon ends when the time is up. *)
Lemma wait_ends deadline polls : (exists s t, (s, t) ∈ polls /\ deadline <= t) -> is_Some (waitForDaemonStable deadline polls).
Proof.
  intros (s & t & Hin & Ht). induction polls as [|[s' t'] polls IH]; [by apply elem_of_nil in Hin|]. cbn [waitForDaemonStable].
  case_bool_decide; [by eexists|]. destruct (Z.leb_spec deadline t'); [by eexists|]. apply IH.
  apply elem_of_cons in Hin as [[= -> ->]|Hin]; [lia|done].
Qed.
End WorkspaceGrants.
