(* ===== verification/UpdateCompatibility.v ===== *)
(** * Which update fits the installed desktop

    [desktop/src/main/update-compatibility.ts] checks the metadata of a release
    and turns its notes into plain text;
    [desktop/src/main/single-instance-version-handoff.ts] decides whether a
    second instance is of a newer version. The patterns are data of [Regex];
    [String(...)] of a value that may be no string is an argument. *)

From S2P Require Import Prelude JsValue JsMap JsObject Path Utf8 Regex.

Module UpdateCompatibility.

Definition SUPPORTED_PRODUCT_PROFILE_SCHEMA_VERSION : Z := 1.

Record DesktopUpdateRelease := {
  version : jstr; daemonVersion : jstr; profileSchemaVersion : Z;
  releaseNotes : option jstr; releaseDate : option jstr }.

(** ** Versions *)

Definition DOT : N := 46.
Definition digit : regex := Class is_digit.
(** [/^\d+\.\d+\.\d+$/] *)
Definition version_pattern : regex :=
  seqs [InputStart; plus digit; one DOT; plus digit; one DOT; plus digit; InputEnd].
Definition isStableSemver (s : jstr) : bool := test version_pattern s.

(** [Number.isSafeInteger(Number(digits))]: a number above the bound is rounded
    to a double that is above it too. *)
Definition safe_digits (n : N) : bool := Z.of_N n <=? MAX_SAFE_INTEGER.

Definition invalid_version {A} (s : jstr) : result A := Throw (Error (js "invalid stable semantic version: " ++ s)).
Definition semverParts (s : jstr) : result (N * N * N) :=
  if isStableSemver s then
    match map digits_value (split_char DOT s) with
    | major :: minor :: patch :: _ =>
        if forallb safe_digits [major; minor; patch] then Ok (major, minor, patch) else invalid_version s
    | _ => invalid_version s
    end
  else invalid_version s.

(** The loop over the three parts *)
Fixpoint compare_parts (a b : list N) : Z :=
  match a, b with
  | x :: a', y :: b' => if (x =? y)%N then compare_parts a' b' else if (x <? y)%N then -1 else 1
  | _, _ => 0
  end.
Definition compareSemver (left right : jstr) : result Z :=
  '(a1, a2, a3) ← semverParts left;
  '(b1, b2, b3) ← semverParts right;
  Ok (compare_parts [a1; a2; a3] [b1; b2; b3]).

(** [/^[a-z0-9_-]{2,32}$/i] *)
Definition arch_char (u : N) : bool := is_word u || (u =? 45)%N.
Definition updaterChannelForArch (arch : jstr) : result jstr :=
  if (2 <=? slen arch) && (slen arch <=? 32) && forallb arch_char arch
  then Ok (js "latest-" ++ arch) else fail "invalid updater architecture".

(** ** Release notes *)

Definition LF : N := 10.
Definition not_close : regex := star (Class (fun u => negb (u =? 62)%N)).
Definition active (tag : string) : regex :=
  seqs [one 60; ilit tag; WordBoundary; not_close; one 62; Star false (Class (fun _ => true));
        lit "</"; ilit tag; one 62].
Definition block_tag : regex :=
  alts ([Seq (ilit "h") (Class (fun u => (49 <=? u) && (u <=? 54))%N)] ++
        map ilit ["p"; "div"; "ul"; "ol"; "section"; "article"; "blockquote"; "pre"]%string).
(** The passes before the entities are decoded *)
Definition layout : list (regex * jstr) :=
  [(active "script", []);
   (active "style", []);
   (seqs [one 60; spaces; ilit "br"; spaces; opt (one 47); one 62], [LF]);
   (seqs [one 60; spaces; ilit "li"; WordBoundary; not_close; one 62], [0x2022; 32]%N);
   (seqs [one 60; spaces; one 47; spaces; ilit "li"; spaces; one 62], [LF]);
   (seqs [one 60; spaces; opt (one 47); spaces; block_tag; WordBoundary; not_close; one 62], [LF]);
   (seqs [one 60; plus (Class (fun u => negb (u =? 62)%N)); one 62], [])].
Definition blank : regex := Class (fun u => (u =? 32)%N || (u =? 9)%N).
(** ... and those after *)
Definition tidy : list (regex * jstr) :=
  [(one 13, []); (Seq (plus blank) (one LF), [LF]); (Seq (one LF) (plus blank), [LF]);
   (at_least 2 blank, [32%N]); (at_least 3 (one LF), [LF; LF])].
Definition replace_with (passes : list (regex * jstr)) (s : jstr) : jstr :=
  fold_left (fun s p => replace_all p.1 (fun _ => p.2) s) passes s.

(** [String.fromCodePoint] *)
Definition from_code_point (c : N) : jstr :=
  if (c <? 0x10000)%N then [c]
  else [0xD800 + (c - 0x10000) / 0x400; 0xDC00 + (c - 0x10000) mod 0x400]%N.
Definition hex_digit (u : N) : bool :=
  is_digit u || ((97 <=? fold_case u) && (fold_case u <=? 102))%N.
Definition hex_value (s : jstr) : N :=
  fold_left (fun n u => n * 16 + (if is_digit u then u - 48 else fold_case u - 87))%N s 0%N.

(** [/&(?:#(\d+)|#x([0-9a-f]+)|([a-z]+));/gi]; group 0 is the whole match *)
Definition entity_pattern : regex :=
  Group 0 (seqs [one 38;
    alts [Seq (one 35) (Group 1 (plus digit)); seqs [one 35; ilit "x"; Group 2 (plus (Class hex_digit))];
          Group 3 (plus (Class (fun u => alnum u && negb (is_digit u))))]; one 59]).
Definition entities : list (jstr * jstr) :=
  [(js "amp", [38]); (js "apos", [39]); (js "gt", [62]); (js "lt", [60]); (js "nbsp", [32]); (js "quot", [34])]%N.
(** What an inherited property reads as once it is turned into a string: of the
    inherited names, [constructor] is the one without capitals. *)
Definition inherited_text : jstr := js "function Object() { [native code] }".
Definition decode_entity (c : list (nat * jstr)) : jstr :=
  let decimal := group 1 c in let hex := group 2 c in
  if truthy decimal || truthy hex then
    let codePoint := if truthy decimal then digits_value decimal else hex_value hex in
    if ((codePoint <=? 0x10ffff) && negb ((0xd800 <=? codePoint) && (codePoint <=? 0xdfff)))%N
    then from_code_point codePoint else []
  else match get_property entities (toLowerCase (group 3 c)) with
       | Own s => s
       | FromPrototype => inherited_text
       | Undefined => group 0 c
       end.
Definition decodeHtmlEntities (s : jstr) : jstr := replace_all entity_pattern decode_entity s.

Definition plainTextReleaseNotes (s : jstr) : jstr :=
  trim (replace_with tidy (decodeHtmlEntities (replace_with layout s))).
(** [[\u0000-\u0008\u000b\u000c\u000e-\u001f\u007f]] *)
Definition dropped (u : N) : bool := is_control u && negb ((u =? 9) || (u =? 10) || (u =? 13))%N.
Definition NOTES_LIMIT : nat := 16384.
Definition bounded (s : jstr) : jstr := slice_to NOTES_LIMIT (filter (fun u => dropped u = false) s).

Definition note_of (entry : value) : jstr :=
  match is_record entry with
  | Some fs => match field fs (js "note") with VString s => s | _ => [] end
  | None => []
  end.
Definition releaseNotesText (v : value) : option jstr :=
  let raw := match v with
             | VString s => s
             | VArray l => join [LF; LF] (filter (fun s => truthy s = true) (map note_of l))
             | _ => [] end in
  if truthy raw then
    let normalized := plainTextReleaseNotes raw in
    if truthy normalized then Some (bounded normalized) else None
  else None.

(** ** The metadata of a release *)

Section Release.
Variable String_of : value -> jstr.

Definition updateReleaseFromInfo (v : value) (currentVersion : jstr) : result DesktopUpdateRelease :=
  match is_record v with
  | None => fail "update metadata must be an object"
  | Some info =>
      match field info (js "version") with
      | VString version =>
          _ ← require (isStableSemver version) "update metadata contains an invalid stable Desktop version";
          order ← compareSemver version currentVersion;
          _ ← require (negb (order <=? 0)) "update metadata must target a newer Desktop version";
          match is_record (field info (js "sourcenerve")) with
          | None => fail "update metadata is missing SourceNerve compatibility information"
          | Some compatibility =>
              _ ← require (is_string (field compatibility (js "daemonVersion")) version)
                    "update metadata Desktop and daemon versions do not match";
              _ ← (if is_int (field compatibility (js "profileSchemaVersion")) SUPPORTED_PRODUCT_PROFILE_SCHEMA_VERSION
                   then Ok tt
                   else Throw (Error (js "update requires unsupported product profile schema " ++
                                      String_of (field compatibility (js "profileSchemaVersion")))));
              Ok {| version := version; daemonVersion := version;
                    profileSchemaVersion := SUPPORTED_PRODUCT_PROFILE_SCHEMA_VERSION;
                    releaseDate := match field info (js "releaseDate") with VString d => Some d | _ => None end;
                    releaseNotes := match releaseNotesText (field info (js "releaseNotes")) with
                                    | Some s => if truthy s then Some s else None | None => None end |}
          end
      | _ => fail "update metadata contains an invalid stable Desktop version"
      end
  end.
End Release.

(** ** A second instance of another version *)

Definition SOURCE_NERVE_SINGLE_INSTANCE_VERSION_KEY : jstr := js "sourceNerveDesktopVersion".
Definition sourceNerveSingleInstanceData (v : jstr) : value :=
  VObject [(SOURCE_NERVE_SINGLE_INSTANCE_VERSION_KEY, VString v)].
Definition stableSemver (s : jstr) : option (list N) :=
  if isStableSemver s then
    let parts := map digits_value (split_char DOT s) in
    if (length parts =? 3)%nat && forallb safe_digits parts then Some parts else None
  else None.
Fixpoint first_difference (next current : list N) : bool :=
  match next, current with
  | x :: next', y :: current' => if (x =? y)%N then first_difference next' current' else (y <? x)%N
  | _, _ => false
  end.
Definition shouldRestartForNewerInstalledInstance (currentVersion : jstr) (additionalData : value) : bool :=
  match is_record additionalData with
  | None => false
  | Some fs =>
      match field fs SOURCE_NERVE_SINGLE_INSTANCE_VERSION_KEY with
      | VString requested =>
          match stableSemver currentVersion, stableSemver requested with
          | Some current, Some next => first_difference next current
          | _, _ => false
          end
      | _ => false
      end
  end.

(** ** Facts about versions *)

Definition digits (s : jstr) : Prop := s <> [] /\ Forall (fun u => is_digit u = true) s.
Definition dotted (a b c : jstr) : jstr := a ++ [DOT] ++ b ++ [DOT] ++ c.

Lemma isStableSemver_spec s : isStableSemver s = true <->
  exists a b c, digits a /\ digits b /\ digits c /\ s = dotted a b c.
Proof.
  unfold isStableSemver, version_pattern, digit. cbn [seqs fold_right]. rewrite test_spec. split.
  - intros (m1 & m2 & m3 & -> & H).
    repeat match goal with
    | H : consumes (plus _) _ _ _ |- _ => apply consumes_plus_class in H
    | H : consumes (one _) _ _ _ |- _ => apply consumes_one in H as ->
    | H : consumes InputStart _ _ _ |- _ => apply consumes_input_start in H as [-> ?]
    | H : consumes InputEnd _ _ _ |- _ => apply consumes_input_end in H as [-> ?]
    | H : consumes Eps _ _ _ |- _ => apply consumes_eps in H as ->
    | H : consumes (Seq _ _) _ _ _ |- _ => apply consumes_seq in H as (? & ? & -> & ? & ?)
    end.
    assert (m1 = []) as -> by (by apply (inj reverse)).
    match goal with |- exists a b c, _ /\ _ /\ _ /\ [] ++ ([] ++ ?x ++ _ ++ ?y ++ _ ++ ?z ++ _) ++ _ = _ => exists x, y, z end.
    split_and!; [done..|]. cbn [app] in *. subst. unfold dotted. cbn [app]. by rewrite !app_nil_r.
  - intros (a & b & c & Ha & Hb & Hc & ->). exists [], (dotted a b c), []. split; [by rewrite app_nil_r|].
    apply consumes_seq. exists [], (dotted a b c). split_and!; [done|by constructor|].
    repeat (apply consumes_seq; eexists _, _; split_and!; [reflexivity|by first [apply consumes_plus_class|apply consumes_one]|]).
    apply consumes_seq. exists c, []. split_and!; [by rewrite app_nil_r|by apply consumes_plus_class|].
    apply consumes_seq. exists [], []. by repeat constructor.
Qed.
Lemma digits_no_dot d : digits d -> DOT ∉ d.
Proof. intros [_ H] Hin. rewrite Forall_forall in H. by apply H in Hin. Qed.
Lemma split_dotted a b c : digits a -> digits b -> digits c -> split_char DOT (dotted a b c) = [a; b; c].
Proof.
  intros Ha Hb Hc. unfold dotted. cbn [app]. rewrite split_char_app by by apply digits_no_dot.
  rewrite split_char_app by by apply digits_no_dot. by rewrite split_char_none by by apply digits_no_dot.
Qed.
(** The parts of a version are the numbers its digits denote, when all three
    are safe integers. *)
Lemma semverParts_spec s p : semverParts s = Ok p <-> exists a b c,
  digits a /\ digits b /\ digits c /\ s = dotted a b c /\ p = (digits_value a, digits_value b, digits_value c) /\
  safe_digits (digits_value a) = true /\ safe_digits (digits_value b) = true /\ safe_digits (digits_value c) = true.
Proof.
  unfold semverParts. split.
  - destruct (isStableSemver s) eqn:E; [|done]. apply isStableSemver_spec in E as (a & b & c & Ha & Hb & Hc & ->).
    rewrite split_dotted by done. cbn [map forallb]. destruct (safe_digits _) eqn:E1; [|done].
    destruct (safe_digits (digits_value b)) eqn:E2; [|done]. destruct (safe_digits (digits_value c)) eqn:E3; [|done].
    intros [= <-]. exists a, b, c. by split_and!.
  - intros (a & b & c & Ha & Hb & Hc & -> & -> & E1 & E2 & E3).
    rewrite (proj2 (isStableSemver_spec _)) by by exists a, b, c.
    rewrite split_dotted by done. cbn [map forallb]. by rewrite E1, E2, E3.
Qed.
Lemma semverParts_stable s p : semverParts s = Ok p -> isStableSemver s = true.
Proof. unfold semverParts. by destruct (isStableSemver s). Qed.

Lemma stableSemver_parts s : stableSemver s =
  match semverParts s with Ok (a, b, c) => Some [a; b; c] | Throw _ => None end.
Proof.
  unfold stableSemver, semverParts. destruct (isStableSemver s) eqn:E; [|done].
  apply isStableSemver_spec in E as (a & b & c & Ha & Hb & Hc & ->). rewrite split_dotted by done. cbn [map length Nat.eqb andb].
  by destruct (forallb safe_digits _).
Qed.

(** ** The order *)

Lemma compare_parts_flip a b : length a = length b -> compare_parts b a = - compare_parts a b.
Proof.
  revert b. induction a as [|x a IH]; intros [|y b] H; try done. cbn. injection H as H. rewrite (N.eqb_sym y x).
  destruct (N.eqb_spec x y) as [->|Hne]; [by apply IH|].
  destruct (N.ltb_spec x y), (N.ltb_spec y x); (done || lia).
Qed.
Lemma compare_parts_0 a b : length a = length b -> compare_parts a b = 0 <-> a = b.
Proof.
  revert b. induction a as [|x a IH]; intros [|y b] H; try done. cbn. injection H as H.
  destruct (N.eqb_spec x y) as [->|Hne].
  - rewrite IH by done. split; [by intros ->|by intros [= ->]].
  - split; [by destruct (x <? y)%N|by intros [= -> ->]].
Qed.
Lemma compare_parts_range a b : compare_parts a b = -1 \/ compare_parts a b = 0 \/ compare_parts a b = 1.
Proof.
  revert b. induction a as [|x a IH]; intros [|y b]; cbn; auto.
  destruct (x =? y)%N; [apply IH|]. destruct (x <? y)%N; auto.
Qed.
Lemma compare_parts_trans a b c : compare_parts a b = 1 -> 0 <= compare_parts b c -> length b = length c -> compare_parts a c = 1.
Proof.
  revert b c. induction a as [|x a IH]; intros [|y b] [|z c]; try done. cbn. intros H1 H2 [= Hl].
  destruct (N.eqb_spec x y) as [->|Hxy].
  - destruct (N.eqb_spec y z) as [->|Hyz]; [by apply (IH b)|]. destruct (N.ltb_spec y z); [lia|done].
  - destruct (N.ltb_spec x y); [lia|]. destruct (N.eqb_spec y z) as [->|Hyz].
    + rewrite (proj2 (N.eqb_neq _ _) Hxy). by rewrite (proj2 (N.ltb_ge _ _)).
    + destruct (N.ltb_spec y z); [lia|]. rewrite (proj2 (N.eqb_neq x z)) by lia. by rewrite (proj2 (N.ltb_ge x z)) by lia.
Qed.
Lemma compareSemver_Ok l r n : compareSemver l r = Ok n <-> exists a1 a2 a3 b1 b2 b3,
  semverParts l = Ok (a1, a2, a3) /\ semverParts r = Ok (b1, b2, b3) /\ n = compare_parts [a1; a2; a3] [b1; b2; b3].
Proof.
  unfold compareSemver. split.
  - intros ([[a1 a2] a3] & Ha & ([[b1 b2] b3] & Hb & [= <-])%bind_Ok)%bind_Ok. by eexists _, _, _, _, _, _.
  - intros (a1 & a2 & a3 & b1 & b2 & b3 & Ha & Hb & ->). by rewrite Ha; cbn; rewrite Hb.
Qed.

(** Comparing stable versions is a total order up to leading zeros:
    exchanging the operands negates the result, the result is zero exactly when
    the three numbers agree, and being newer composes with being at least as
    new. *)
Theorem compareSemver_orders l r t n : compareSemver l r = Ok n ->
  (n = -1 \/ n = 0 \/ n = 1) /\ compareSemver r l = Ok (- n) /\
  (n = 0 <-> semverParts l = semverParts r) /\
  (n = 1 -> forall k, compareSemver r t = Ok k -> 0 <= k -> compareSemver l t = Ok 1).
Proof.
  intros (a1 & a2 & a3 & b1 & b2 & b3 & Ha & Hb & ->)%compareSemver_Ok. split_and!; [apply compare_parts_range|..].
  - apply compareSemver_Ok. eexists _, _, _, _, _, _. split_and!; [done..|]. by rewrite (compare_parts_flip [a1; a2; a3]).
  - rewrite compare_parts_0 by done. rewrite Ha, Hb. split; [by intros [= -> -> ->]|by intros [= -> -> ->]].
  - intros H1 k (? & ? & ? & c1 & c2 & c3 & Hb' & Hc & ->)%compareSemver_Ok Hk. rewrite Hb in Hb'. injection Hb' as <- <- <-.
    apply compareSemver_Ok. eexists _, _, _, _, _, _. split_and!; [done..|]. symmetry. by eapply compare_parts_trans.
Qed.
Lemma compareSemver_orders_witness : compareSemver (js "1.10.0") (js "01.9.9") = Ok 1 /\
  compareSemver (js "01.9.9") (js "1.10.0") = Ok (-1).
Proof.
  assert (H : compareSemver (js "1.10.0") (js "01.9.9") = Ok 1) by (vm_compute; reflexivity).
  split; [exact H|]. exact (proj1 (proj2 (compareSemver_orders _ _ (js "1.0.0") 1 H))).
Defined.

(** A running instance gives way to a second one exactly when the version
    the second one announces is newer in the order the updater uses; a version
    that is no stable one never wins. *)
Theorem handoff_is_to_newer current requested :
  shouldRestartForNewerInstalledInstance current (sourceNerveSingleInstanceData requested) = true <->
  compareSemver requested current = Ok 1.
Proof.
  unfold shouldRestartForNewerInstalledInstance, sourceNerveSingleInstanceData. cbn [is_record field].
  rewrite bool_decide_true by done. rewrite !stableSemver_parts. unfold compareSemver.
  destruct (semverParts current) as [[[b1 b2] b3]|]; destruct (semverParts requested) as [[[a1 a2] a3]|]; try done.
  cbn [first_difference compare_parts mbind result_bind].
  repeat match goal with |- context [(?x =? ?y)%N] => destruct (N.eqb_spec x y) end; try done;
    match goal with |- (?x <? ?y)%N = true <-> _ => destruct (N.ltb_spec x y), (N.ltb_spec y x) end; (done || lia).
Qed.

(** ** What is accepted *)

Definition readable (u : N) : Prop := is_control u = false \/ u = 9%N \/ u = 10%N.
(** What a release that is shown promises to an installation of [current] *)
Definition fits (current : jstr) (r : DesktopUpdateRelease) : Prop :=
  compareSemver (version r) current = Ok 1 /\ daemonVersion r = version r /\
  profileSchemaVersion r = SUPPORTED_PRODUCT_PROFILE_SCHEMA_VERSION /\
  forall notes, releaseNotes r = Some notes ->
    notes <> [] /\ (length notes <= NOTES_LIMIT)%nat /\ Forall readable notes.

Lemma replace_with_Forall P l s : Forall (fun p : regex * jstr => Forall P p.2) l -> Forall P s -> Forall P (replace_with l s).
Proof.
  unfold replace_with. intros H. revert s. induction H as [|p l Hp _ IH]; intros s Hs; [done|]. cbn.
  by apply IH, replace_all_Forall.
Qed.
Lemma plain_no_cr s : Forall (fun u => u <> 13%N) (plainTextReleaseNotes s).
Proof.
  unfold plainTextReleaseNotes. generalize (decodeHtmlEntities (replace_with layout s)). intros t.
  destruct (trim_slice (replace_with tidy t)) as (n & m & ->). apply Forall_take, Forall_drop.
  unfold tidy. change (replace_with (?p :: ?l) t) with (replace_with l (replace_all p.1 (fun _ => p.2) t)).
  apply replace_with_Forall; [by repeat constructor|apply delete_one].
Qed.
Lemma releaseNotesText_ok v s : releaseNotesText v = Some s -> (length s <= NOTES_LIMIT)%nat /\ Forall readable s.
Proof.
  unfold releaseNotesText. match goal with |- context [truthy ?r] => generalize r end. intros raw.
  destruct (truthy raw); [|done]. pose proof (plain_no_cr raw) as Hcr. destruct (truthy _); [|done]. intros [= <-].
  revert Hcr. generalize (plainTextReleaseNotes raw). intros t Hcr. unfold bounded, slice_to. split; [apply firstn_le_length|].
  apply Forall_take, Forall_forall. intros u [Hd Hu]%list_elem_of_filter. rewrite Forall_forall in Hcr. specialize (Hcr u Hu).
  unfold dropped in Hd. unfold readable. destruct (is_control u); [|by left]. right.
  apply negb_false_iff in Hd. rewrite !orb_true_iff, !N.eqb_eq in Hd. cbn in Hd. tauto.
Qed.

Section Accepted.
Variable String_of : value -> jstr.

(** The metadata an installation of [current] accepts *)
Definition acceptable (v : value) (current ver : jstr) : Prop := exists info compatibility,
  v = VObject info /\ field info (js "version") = VString ver /\ compareSemver ver current = Ok 1 /\
  field info (js "sourcenerve") = VObject compatibility /\
  field compatibility (js "daemonVersion") = VString ver /\
  field compatibility (js "profileSchemaVersion") = VNumber (NInt SUPPORTED_PRODUCT_PROFILE_SCHEMA_VERSION).

Lemma updateReleaseFromInfo_Ok v current r : updateReleaseFromInfo String_of v current = Ok r ->
  acceptable v current (version r) /\ fits current r.
Proof.
  unfold updateReleaseFromInfo. destruct v as [| | | | | |info]; try done. cbn [is_record].
  destruct (field info (js "version")) as [| | | |ver| |] eqn:Ev; try done.
  intros (? & Hs & (n & Hn & (? & Hp%require_Ok & H)%bind_Ok)%bind_Ok)%bind_Ok.
  destruct (field info (js "sourcenerve")) as [| | | | | |compat] eqn:Ec; try done. cbn [is_record] in H.
  apply bind_Ok in H as (? & Hd%require_Ok & (? & Hk & [= <-])%bind_Ok). cbn [version].
  assert (n = 1) as ->.
  { apply compareSemver_Ok in Hn as (a1 & a2 & a3 & b1 & b2 & b3 & _ & _ & ->). apply negb_true_iff, Z.leb_gt in Hp.
    destruct (compare_parts_range [a1; a2; a3] [b1; b2; b3]) as [E|[E|E]]; rewrite E in *; (lia || done). }
  split.
  - exists info, compat. split_and!; [done..| |].
    + destruct (field compat (js "daemonVersion")); try done. cbn in Hd. by apply bool_decide_eq_true in Hd as ->.
    + destruct (field compat (js "profileSchemaVersion")) as [| | |[z| | |]| | |]; try done. cbn [is_int] in Hk.
      destruct (z =? _) eqn:E; [|done]. by apply Z.eqb_eq in E as ->.
  - split_and!; [done..|]. cbn [releaseNotes]. intros notes.
    destruct (releaseNotesText _) as [s|] eqn:Es; [|done]. destruct (truthy s) eqn:Et; [|done]. intros [= <-].
    apply releaseNotesText_ok in Es. apply truthy_true in Et. tauto.
Qed.

(** The updater offers a release exactly when its metadata is an object whose
    stable version is newer than the installed one, whose daemon has the same
    version and whose product profile is of the schema this build supports;
    the release offered then carries that version and notes that are not
    empty, bounded, and without control characters but tabs and newlines. *)
Theorem release_accepted_iff_compatible v current :
  (forall r, updateReleaseFromInfo String_of v current = Ok r -> acceptable v current (version r) /\ fits current r) /\
  (forall ver, acceptable v current ver -> exists r, updateReleaseFromInfo String_of v current = Ok r /\ version r = ver).
Proof.
  split; [apply updateReleaseFromInfo_Ok|]. intros ver (info & compat & -> & Ev & Hn & Ec & Ed & Ek).
  unfold updateReleaseFromInfo. cbn [is_record]. rewrite Ev.
  assert (Hs : isStableSemver ver = true).
  { apply compareSemver_Ok in Hn as (? & ? & ? & ? & ? & ? & Hp & _). by eapply semverParts_stable. }
  rewrite Hs, Hn. cbn [require mbind result_bind negb Z.leb Z.compare]. rewrite Ec. cbn [is_record].
  rewrite Ed, Ek. cbn [is_string is_int]. rewrite bool_decide_true by done. cbn. by eexists.
Qed.
End Accepted.

(** ** Examples *)

Definition html_note : jstr :=
  js "<h2>What's Changed</h2><ul><li>fix updater by <a href='x'>@example</a> in <a>#1</a></li></ul>" ++
  js "<p><strong>Full Changelog</strong>: <tt>v1...v2</tt></p><script>alert('ignored')</script>".
Example html_note_is_plain :
  releaseNotesText (VArray [VObject [(js "note", VString html_note)]]) =
  Some (js "What's Changed" ++ [LF; LF; 0x2022; 32]%N ++ js "fix updater by @example in #1" ++ [LF; LF] ++
        js "Full Changelog: v1...v2").
Proof. vm_compute. reflexivity. Qed.
Example sample_release_accepted : is_ok (updateReleaseFromInfo (fun _ => []) (VObject
    [(js "version", VString (js "0.2.0"));
     (js "sourcenerve", VObject [(js "daemonVersion", VString (js "0.2.0")); (js "profileSchemaVersion", VNumber (NInt 1))])])
  (js "0.1.0")) = true.
Proof. vm_compute. reflexivity. Qed.
Example compare_numeric : compareSemver (js "1.10.0") (js "1.9.9") = Ok 1.
Proof. vm_compute. reflexivity. Qed.
(** An entity that is not in the table, but in the table's prototype *)
Example constructor_entity : decodeHtmlEntities (js "&copy; &constructor; &#8226;&lt;") =
  js "&copy; function Object() { [native code] } " ++ [0x2022; 60]%N.
Proof. vm_compute. reflexivity. Qed.

End UpdateCompatibility.
