(* ===== verification/UpdateManager.v ===== *)
(** * The updater of the desktop

    [desktop/src/main/update-manager.ts]: [DesktopUpdateManager] drives
    electron-updater through a check, a download and a restart, and shows where
    it stands. The updater itself is outside: its events, and how its promises
    settle, are the inputs of a run, in any order the event loop may deliver
    them; what the manager asks of it is recorded. Listeners are called, and do
    not throw. *)

From S2P Require Import Prelude JsValue Regex UpdateCompatibility.

Module UpdateManager.
Import UpdateCompatibility.

Inductive DesktopUpdateState :=
| disabled | idle | checking | up_to_date | available | downloading | downloaded
| installing | install_failed | incompatible | error.
#[export] Instance DesktopUpdateState_eq_dec : EqDecision DesktopUpdateState.
Proof. solve_decision. Defined.

Record DesktopUpdateProgress := { percent : num; transferred : num; total : num; bytesPerSecond : num }.
(** [apiVersion] and [channel] are constants. *)
Record DesktopUpdateView := {
  enabled : bool; state : DesktopUpdateState; updaterChannel : jstr; currentVersion : jstr;
  release : option DesktopUpdateRelease; progress : option DesktopUpdateProgress; message : option jstr }.

(** ** Messages *)

Definition control_or_del : regex := Class is_control.
Definition metadata_char (u : N) : bool := is_word u || (u =? 45)%N.
(** [/latest-[a-z0-9_-]+(?:-[a-z0-9_-]+)?\.ya?ml/i] *)
Definition metadata_file : regex :=
  seqs [ilit "latest-"; plus (Class metadata_char); opt (Seq (one 45) (plus (Class metadata_char)));
        one 46; ilit "y"; opt (ilit "a"); ilit "ml"].
(** [/cannot find|not found|release artifacts?|\b404\b/i] *)
Definition missing_artifact : regex :=
  alts [ilit "cannot find"; ilit "not found"; Seq (ilit "release artifact") (opt (ilit "s"));
        seqs [WordBoundary; lit "404"; WordBoundary]].
Definition isMissingPlatformMetadata (m : jstr) : bool :=
  truthy m && (test metadata_file m && test missing_artifact m).

Definition compatibility_messages : list (jstr * jstr) := map (fun p => (js p.1, js p.2))
  [("update metadata must be an object", "Available update metadata is invalid.");
   ("update metadata contains an invalid stable Desktop version", "Available update metadata contains an invalid Desktop version.");
   ("update metadata must target a newer Desktop version", "Available update metadata does not target a newer Desktop version.");
   ("update metadata is missing SourceNerve compatibility information", "Available update metadata is missing SourceNerve compatibility information.");
   ("update metadata Desktop and daemon versions do not match", "Available update metadata has mismatched Desktop and daemon versions.")]%string.
Definition newer_profile_message : jstr := js "This update requires a newer SourceNerve product profile format.".
Definition safeCompatibilityMessage (m : jstr) : option jstr :=
  match find (fun p => bool_decide (m = p.1)) compatibility_messages with
  | Some p => Some p.2
  | None => if starts_with m (js "update requires unsupported product profile schema") then Some newer_profile_message else None
  end.

Definition rpm_messages : list jstr := map js
  ["SourceNerve RPM update has no downloaded installer.";
   "SourceNerve RPM update requires PolicyKit authentication (pkexec).";
   "SourceNerve RPM update package-manager override is unsupported.";
   "SourceNerve RPM update package manager is unavailable.";
   "System authorization was not completed. Approve the Fedora authentication prompt, then retry.";
   "The Fedora package manager is busy. Close other software update/install operations, then retry.";
   "There is not enough disk space to install the SourceNerve update.";
   "The SourceNerve RPM update has a package dependency or conflict error.";
   "SourceNerve RPM update installation timed out.";
   "SourceNerve RPM update installation failed."]%string.
Definition safeRpmUpdateMessage (m : jstr) : option jstr := find (fun a => bool_decide (m = a)) rpm_messages.

Definition missing_metadata_message : jstr := js "Update metadata for this platform is not available in the release yet.".
Definition safeMessage (e : exn) (fallback : jstr) : jstr :=
  let raw := match e with Error m => m | NotAnError _ => [] end in
  let normalized := trim (replace_all (plus space) (fun _ => [32%N]) (replace_all control_or_del (fun _ => [32%N]) raw)) in
  if isMissingPlatformMetadata normalized then missing_metadata_message else
  match safeCompatibilityMessage normalized with
  | Some m => m
  | None => match safeRpmUpdateMessage normalized with Some m => m | None => fallback end
  end.

(** ** Progress *)

(** [Math.max(0, n)] and [Math.min(100, n)] *)
Definition at_least_zero (n : num) : num :=
  match n with
  | NInt z => NInt (Z.max 0 z)
  | NFrac m e => if m <? 0 then NInt 0 else n
  | NInf negative => if negative then NInt 0 else n
  | NNaN => NNaN
  end.
Definition at_most_100 (n : num) : num :=
  match n with
  | NInt z => NInt (Z.min 100 z)
  | NFrac m e => if 100 * 2 ^ Zpos e <=? m then NInt 100 else n
  | NInf negative => if negative then n else NInt 100
  | NNaN => NNaN
  end.
Definition is_finite (n : num) : bool := match n with NInt _ | NFrac _ _ => true | _ => false end.
Definition normalizeProgress (p : DesktopUpdateProgress) : DesktopUpdateProgress :=
  {| percent := if is_finite (percent p) then at_least_zero (at_most_100 (percent p)) else NInt 0;
     transferred := at_least_zero (transferred p); total := at_least_zero (total p);
     bytesPerSecond := at_least_zero (bytesPerSecond p) |}.

(** ** The updater *)

Inductive Platform := win32 | darwin | linux | other_platform.
Definition isSupportedPlatform (p : Platform) : bool := match p with other_platform => false | _ => true end.
Inductive AppUpdater := NsisUpdater | MacUpdater | AppImageUpdater | SourceNerveRpmUpdater.
Definition isInteractiveRpmUpdater (u : AppUpdater) : bool := match u with SourceNerveRpmUpdater => true | _ => false end.
(** [appimage]: whether [process.env.APPIMAGE] is set *)
Definition createPlatformUpdater (p : Platform) (appimage : bool) : option AppUpdater :=
  match p with
  | win32 => Some NsisUpdater
  | darwin => Some MacUpdater
  | linux => Some (if appimage then AppImageUpdater else SourceNerveRpmUpdater)
  | other_platform => None
  end.

Record UpdaterConfig := {
  autoDownload : bool; autoInstallOnAppQuit : bool; allowPrerelease : bool; allowDowngrade : bool; channel : jstr }.

(** What the manager does to the world outside *)
Inductive effect :=
| Notify (listener : nat) (v : DesktopUpdateView)
| CheckForUpdates | DownloadUpdate
| QuitAndInstall | InstallDownloadedUpdateAndRestart.

Record Options := {
  o_currentVersion : jstr; o_packaged : bool; o_platform : Platform; o_arch : jstr;
  o_updater : option (option AppUpdater); o_appimage : bool; o_config : UpdaterConfig }.

Record Manager := {
  m_platform : Platform; m_updater : option AppUpdater; m_config : UpdaterConfig;
  m_initialized : bool; m_listeners : list nat; m_view : DesktopUpdateView; m_effects : list effect }.

Definition new_manager (o : Options) : result Manager :=
  channel ← updaterChannelForArch (o_arch o);
  let on := o_packaged o && isSupportedPlatform (o_platform o) in
  let updater := match o_updater o with
                 | None => if on then createPlatformUpdater (o_platform o) (o_appimage o) else None
                 | Some u => u end in
  let on := on && bool_decide (is_Some updater) in
  Ok {| m_platform := o_platform o; m_updater := updater; m_config := o_config o;
        m_initialized := false; m_listeners := []; m_effects := [];
        m_view := {| enabled := on; state := if on then idle else disabled; updaterChannel := channel;
                     currentVersion := o_currentVersion o; release := None; progress := None;
                     message := if o_packaged o then None
                                else Some (js "Updates are disabled in local development builds.") |} |}.

Definition set_view (v : DesktopUpdateView) (m : Manager) : Manager :=
  {| m_platform := m_platform m; m_updater := m_updater m; m_config := m_config m; m_initialized := m_initialized m;
     m_listeners := m_listeners m; m_view := v; m_effects := m_effects m |}.
Definition perform (e : list effect) (m : Manager) : Manager :=
  {| m_platform := m_platform m; m_updater := m_updater m; m_config := m_config m; m_initialized := m_initialized m;
     m_listeners := m_listeners m; m_view := m_view m; m_effects := m_effects m ++ e |}.

(** A field of [Partial<DesktopUpdateView>]: absent, or given (perhaps as
    [undefined]). *)
Inductive update (A : Type) := Keep | Give (a : option A).
Arguments Keep {A}.
Arguments Give {A} a.
Definition updated {A} (u : update A) (old : option A) : option A := match u with Keep => old | Give a => a end.

Definition patch (st : DesktopUpdateState) (rel : update DesktopUpdateRelease) (prog : update DesktopUpdateProgress)
    (msg : jstr) : M Manager unit := modify (fun m =>
  let old := m_view m in
  let v := {| enabled := enabled old; state := st; updaterChannel := updaterChannel old;
              currentVersion := currentVersion old; release := updated rel (release old);
              progress := updated prog (progress old); message := Some msg |} in
  perform (map (fun l => Notify l v) (m_listeners m)) (set_view v m)).

(** ** Operations *)

Section Manager.
Variable String_of : value -> jstr.
(** electron-updater's setter of the channel *)
Variable set_channel : jstr -> UpdaterConfig -> UpdaterConfig.

Definition configure (channel : jstr) (c : UpdaterConfig) : UpdaterConfig :=
  let c := {| autoDownload := false; autoInstallOnAppQuit := false; allowPrerelease := false;
              allowDowngrade := allowDowngrade c; channel := UpdateManager.channel c |} in
  let c := set_channel channel c in
  {| autoDownload := autoDownload c; autoInstallOnAppQuit := autoInstallOnAppQuit c;
     allowPrerelease := allowPrerelease c; allowDowngrade := false; channel := UpdateManager.channel c |}.

Definition initialize : M Manager DesktopUpdateView := fun m =>
  (Ok (m_view m),
   if m_initialized m || bool_decide (m_updater m = None) then m
   else {| m_platform := m_platform m; m_updater := m_updater m;
           m_config := configure (updaterChannel (m_view m)) (m_config m); m_initialized := true;
           m_listeners := m_listeners m; m_view := m_view m; m_effects := m_effects m |}).
Definition snapshot : M Manager DesktopUpdateView := gets m_view.
Definition ensureInitialized : M Manager unit :=
  initialized ← gets m_initialized;
  if (initialized : bool) then mret tt else (_ ← initialize; mret tt).

Definition subscribe (listener : nat) : M Manager unit := modify (fun m =>
  {| m_platform := m_platform m; m_updater := m_updater m; m_config := m_config m; m_initialized := m_initialized m;
     m_listeners := if bool_decide (listener ∈ m_listeners m) then m_listeners m else m_listeners m ++ [listener];
     m_view := m_view m; m_effects := m_effects m |}).
Definition unsubscribe (listener : nat) : M Manager unit := modify (fun m =>
  {| m_platform := m_platform m; m_updater := m_updater m; m_config := m_config m; m_initialized := m_initialized m;
     m_listeners := filter (fun l => l <> listener) (m_listeners m); m_view := m_view m; m_effects := m_effects m |}).

Definition checking_message : jstr := js "Checking GitHub Releases for a stable update.".
Definition up_to_date_message : jstr := js "SourceNerve is up to date.".
Definition downloading_message : jstr := js "Downloading the verified update package.".
Definition downloaded_message : jstr := js "Update downloaded. Restart SourceNerve to install it.".
Definition available_message (version : jstr) : jstr := js "SourceNerve " ++ version ++ js " is available.".

Definition compatibleRelease (info : value) : M Manager DesktopUpdateRelease :=
  v ← snapshot; lift (updateReleaseFromInfo String_of info (currentVersion v)).
Definition applyAvailableInfo (info : value) : M Manager unit :=
  try_catch
    (r ← compatibleRelease info; patch available (Give (Some r)) (Give None) (available_message (version r)))
    (fun e => patch incompatible (Give None) (Give None) (safeMessage e (js "Available update is incompatible."))).

(** The listeners [initialize] registers *)
Definition on_checking : M Manager unit := patch checking Keep Keep checking_message.
Definition on_not_available : M Manager unit := patch up_to_date (Give None) (Give None) up_to_date_message.
Definition on_progress (p : DesktopUpdateProgress) : M Manager unit :=
  patch downloading Keep (Give (Some (normalizeProgress p))) downloading_message.
Definition on_downloaded (info : value) : M Manager unit :=
  try_catch
    (r ← compatibleRelease info; v ← snapshot; patch downloaded (Give (Some r)) (Give (progress v)) downloaded_message)
    (fun e => patch incompatible Keep Keep (safeMessage e (js "Downloaded update is incompatible."))).
Definition on_error (e : exn) : M Manager unit :=
  v ← snapshot;
  patch (if decide (state v = installing) then install_failed else error) Keep Keep
    (safeMessage e (js "Desktop update failed.")).

(** [!this.updater || !this.view.enabled], negated *)
Definition usable (m : Manager) : bool := bool_decide (is_Some (m_updater m)) && enabled (m_view m).

(** [check], up to its [await] and from there on. [true]: it waits. *)
Definition check : M Manager bool :=
  _ ← ensureInitialized;
  on ← gets usable;
  if negb on then mret false else
  (_ ← patch checking Keep (Give None) checking_message;
   _ ← modify (perform [CheckForUpdates]);
   mret true).
Definition info_version (info : value) : value :=
  match info with VObject fs => field fs (js "version") | _ => VUndefined end.
Definition check_settled (r : result (option value)) : M Manager unit :=
  try_catch
    (info ← lift r;
     let info := match info with Some i => if truthy_value i then Some i else None | None => None end in
     match info with
     | None => on_not_available
     | Some info =>
         v ← snapshot;
         order ← lift match info_version info with
                      | VString ver => compareSemver ver (currentVersion v)
                      | w => invalid_version (String_of w) end;
         if order <=? 0 then on_not_available else applyAvailableInfo info
     end)
    (fun e => patch error Keep Keep (safeMessage e (js "Unable to check for updates."))).

Definition download : M Manager bool :=
  _ ← ensureInitialized;
  on ← gets usable;
  if negb on then mret false else
  (v ← snapshot;
   if negb (bool_decide (state v = available)) || negb (bool_decide (is_Some (release v))) then
     (_ ← patch error Keep Keep (js "Check for a compatible update before downloading."); mret false)
   else
     (_ ← patch downloading Keep (Give None) downloading_message;
      _ ← modify (perform [DownloadUpdate]);
      mret true)).
Definition download_settled (r : result unit) : M Manager unit :=
  try_catch
    (_ ← lift r;
     v ← snapshot;
     if decide (state v = downloading) then patch downloaded Keep Keep downloaded_message else mret tt)
    (fun e => patch error Keep Keep (safeMessage e (js "Unable to download the update."))).

Definition may_install (st : DesktopUpdateState) : bool := match st with downloaded | install_failed => true | _ => false end.
(** [quit]: whether [quitAndInstall] throws *)
Definition restartToUpdate (quit : result unit) : M Manager bool :=
  _ ← ensureInitialized;
  m ← get_state;
  match m_updater m with
  | None => throw "A verified update must be downloaded before restart-to-update."
  | Some u =>
      _ ← js_guard (negb (may_install (state (m_view m)))) "A verified update must be downloaded before restart-to-update.";
      _ ← patch installing Keep Keep
            (match m_platform m with linux => js "Waiting for system authorization to install the update."
             | _ => js "Restarting SourceNerve to install the update." end);
      if (match m_platform m with linux => true | _ => false end) && isInteractiveRpmUpdater u
      then (_ ← modify (perform [InstallDownloadedUpdateAndRestart]); mret true)
      else (_ ← modify (perform [QuitAndInstall]); _ ← lift quit; mret false)
  end.
Definition install_settled (r : result unit) : M Manager unit :=
  try_catch (lift r)
    (fun e => patch install_failed Keep Keep (safeMessage e (js "SourceNerve RPM update installation failed."))).

(** ** Runs

    What the event loop delivers. A promise settles after the call that waits
    for it, and the updater's events have listeners once [initialize] has run. *)

Inductive input :=
| Subscribe (listener : nat) | Unsubscribe (listener : nat) | Initialize
| Check_ | CheckSettled (r : result (option value))
| Download_ | DownloadSettled (r : result unit)
| Restart_ (quit : result unit) | InstallSettled (r : result unit)
| EvChecking | EvNotAvailable | EvAvailable (info : value) | EvProgress (p : DesktopUpdateProgress)
| EvDownloaded (info : value) | EvError (e : exn).

Definition handle (i : input) : M Manager bool :=
  let still (op : M Manager unit) : M Manager bool := (_ ← op; mret false) in
  match i with
  | Subscribe l => still (subscribe l)
  | Unsubscribe l => still (unsubscribe l)
  | Initialize => _ ← initialize; mret false
  | Check_ => check
  | CheckSettled r => still (check_settled r)
  | Download_ => download
  | DownloadSettled r => still (download_settled r)
  | Restart_ quit => restartToUpdate quit
  | InstallSettled r => still (install_settled r)
  | EvChecking => still on_checking
  | EvNotAvailable => still on_not_available
  | EvAvailable info => still (applyAvailableInfo info)
  | EvProgress p => still (on_progress p)
  | EvDownloaded info => still (on_downloaded info)
  | EvError e => still (on_error e)
  end.

(** The calls that wait, besides the manager *)
Record World := { manager : Manager; checks : nat; downloads : nat; installs : nat }.
Definition start (m : Manager) : World := {| manager := m; checks := 0; downloads := 0; installs := 0 |}.
Definition possible (i : input) (w : World) : bool :=
  match i with
  | CheckSettled _ => (0 <? checks w)%nat
  | DownloadSettled _ => (0 <? downloads w)%nat
  | InstallSettled _ => (0 <? installs w)%nat
  | EvChecking | EvNotAvailable | EvAvailable _ | EvProgress _ | EvDownloaded _ | EvError _ => m_initialized (manager w)
  | _ => true
  end.
Definition waiting (waits : bool) (i : input) (w : World) (m : Manager) : World :=
  let n := if waits then 1%nat else 0%nat in
  match i with
  | Check_ => {| manager := m; checks := checks w + n; downloads := downloads w; installs := installs w |}
  | CheckSettled _ => {| manager := m; checks := pred (checks w); downloads := downloads w; installs := installs w |}
  | Download_ => {| manager := m; checks := checks w; downloads := downloads w + n; installs := installs w |}
  | DownloadSettled _ => {| manager := m; checks := checks w; downloads := pred (downloads w); installs := installs w |}
  | Restart_ _ => {| manager := m; checks := checks w; downloads := downloads w; installs := installs w + n |}
  | InstallSettled _ => {| manager := m; checks := checks w; downloads := downloads w; installs := pred (installs w) |}
  | _ => {| manager := m; checks := checks w; downloads := downloads w; installs := installs w |}
  end.
Definition step (i : input) (w : World) : option World :=
  if possible i w then
    let (r, m) := handle i (manager w) in
    Some (waiting match r with Ok b => b | Throw _ => false end i w m)
  else None.
Fixpoint run (l : list input) (w : World) : option World :=
  match l with [] => Some w | i :: l => w' ← step i w; run l w' end.

(** Each input of a run is [ok] where it arrives. *)
Fixpoint all_ok (ok : input -> World -> bool) (l : list input) (w : World) : bool :=
  match l with
  | [] => true
  | i :: l => ok i w && match step i w with Some w' => all_ok ok l w' | None => true end
  end.

(** ** Runs keep what each input keeps *)

Lemma waiting_manager b i w m : manager (waiting b i w m) = m.
Proof. by destruct i. Qed.
Lemma step_manager i w w' : step i w = Some w' -> possible i w = true /\ manager w' = (handle i (manager w)).2.
Proof.
  unfold step. destruct (possible i w); [|done]. destruct (handle i (manager w)) as [r m]. intros [= <-].
  by rewrite waiting_manager.
Qed.
Lemma updater_run_keeps (P : World -> Prop) (ok : input -> World -> bool) l :
  (forall i w w', ok i w = true -> step i w = Some w' -> P w -> P w') ->
  forall w w', all_ok ok l w = true -> run l w = Some w' -> P w -> P w'.
Proof.
  intros Hstep. induction l as [|i l IH]; intros w w'; cbn [run all_ok]; [by intros _ [= <-]|].
  destruct (step i w) as [w1|] eqn:E; [|done]. intros [Hi Hl]%andb_prop Hr Hp. eapply IH; [done..|]. by eapply Hstep.
Qed.
Lemma all_ok_true l w : all_ok (fun _ _ => true) l w = true.
Proof. revert w. induction l as [|i l IH]; intros w; [done|]. cbn. by destruct (step i w). Qed.

(** ** What is shown *)

Definition operation_messages : list jstr := map js
  ["Updates are disabled in local development builds."; "Checking GitHub Releases for a stable update.";
   "SourceNerve is up to date."; "Downloading the verified update package.";
   "Update downloaded. Restart SourceNerve to install it."; "Available update is incompatible.";
   "Downloaded update is incompatible."; "Desktop update failed."; "Unable to check for updates.";
   "Check for a compatible update before downloading."; "Unable to download the update.";
   "Waiting for system authorization to install the update."; "Restarting SourceNerve to install the update.";
   "SourceNerve RPM update installation failed."]%string.
Definition known_messages : list jstr :=
  operation_messages ++ missing_metadata_message :: newer_profile_message ::
  map snd compatibility_messages ++ rpm_messages.
(** One of the program's own sentences, whatever the updater reported *)
Definition own_message (m : jstr) : Prop :=
  m ∈ known_messages \/ exists ver, isStableSemver ver = true /\ m = available_message ver.
Definition percent_ok (n : num) : Prop :=
  match n with NInt z => 0 <= z <= 100 | NFrac m e => 0 <= m < 100 * 2 ^ Zpos e | _ => False end.

Definition view_ok (v : DesktopUpdateView) : Prop :=
  (forall r, release v = Some r -> fits (currentVersion v) r) /\
  (forall p, progress v = Some p -> percent_ok (percent p)) /\
  (forall m, message v = Some m -> own_message m).

Lemma normalizeProgress_ok p : percent_ok (percent (normalizeProgress p)).
Proof.
  cbn [normalizeProgress percent]. destruct (percent p) as [z|m e|b|]; cbn; try lia.
  destruct (100 * 2 ^ Zpos e <=? m) eqn:E; cbn; [lia|]. apply Z.leb_gt in E.
  destruct (m <? 0) eqn:E2; cbn; [lia|]. apply Z.ltb_ge in E2. lia.
Qed.
Ltac known := left; refine (bool_decide_unpack _ _); vm_compute; exact I.
Lemma find_elem {A} (f : A -> bool) l x : find f l = Some x -> x ∈ l /\ f x = true.
Proof. intros H. apply find_some in H as [H ?]. by rewrite list_elem_of_In. Qed.
Lemma safeMessage_own e fallback : own_message fallback -> own_message (safeMessage e fallback).
Proof.
  intros Hf. unfold safeMessage. match goal with |- context [isMissingPlatformMetadata ?t] => generalize t end. intros t.
  destruct (isMissingPlatformMetadata t); [known|]. destruct (safeCompatibilityMessage t) as [m|] eqn:E.
  - unfold safeCompatibilityMessage in E. destruct (find _ _) as [p|] eqn:F.
    + injection E as <-. apply find_elem in F as [F _]. left. unfold known_messages. apply elem_of_app. right.
      do 2 apply list_elem_of_further. apply elem_of_app. left. by apply list_elem_of_fmap_2.
    + destruct (starts_with _ _); [|done]. injection E as <-. known.
  - destruct (safeRpmUpdateMessage t) as [m|] eqn:F; [|done]. apply find_elem in F as [F _]. left.
    unfold known_messages. apply elem_of_app. right. do 2 apply list_elem_of_further. apply elem_of_app. by right.
Qed.

Definition shown_ok (cur : jstr) (m : Manager) : Prop :=
  currentVersion (m_view m) = cur /\ view_ok (m_view m) /\
  Forall (fun e => match e with Notify _ v => view_ok v /\ currentVersion v = cur | _ => True end) (m_effects m).

Section shown.
Context (cur : jstr).
Notation keeps op := (triple (shown_ok cur) op (fun _ => True)).

Lemma patch_shown st rel prog msg :
  (forall r, rel = Give (Some r) -> fits cur r) -> (forall p, prog = Give (Some p) -> percent_ok (percent p)) ->
  own_message msg -> keeps (patch st rel prog msg).
Proof.
  intros Hr Hp Hm m (Hc & (Vr & Vp & Vm) & He). split; [|done]. unfold patch, modify. cbn [snd].
  set (v := Build_DesktopUpdateView _ _ _ _ _ _ _).
  assert (Hv : view_ok v /\ currentVersion v = cur).
  { split; [|done]. subst v. split_and!; cbn.
    - rewrite Hc in *. destruct rel as [|r']; cbn; intros r E; [by apply Vr|]. subst. by apply Hr.
    - destruct prog as [|p']; cbn; intros p E; [by apply Vp|]. subst. by apply Hp.
    - by intros ? [= <-]. }
  destruct Hv as [Hv Hcv]. split_and!; [done..|]. cbn. apply Forall_app. split; [done|].
  apply Forall_fmap, Forall_true. by intros l.
Qed.
Lemma snapshot_shown : triple (shown_ok cur) snapshot (fun v => view_ok v /\ currentVersion v = cur).
Proof. intros m (Hc & Hv & He). split; [done|]. by intros v [= <-]. Qed.
Lemma gets_shown {A} (f : Manager -> A) : keeps (gets f).
Proof. by intros m H. Qed.
Lemma perform_shown e : Forall (fun e => match e with Notify _ _ => False | _ => True end) e -> keeps (modify (perform e)).
Proof.
  intros He m (Hc & Hv & Hm). split; [|done]. split_and!; [done..|]. cbn. apply Forall_app. split; [done|].
  eapply Forall_impl; [exact He|]. by intros [].
Qed.
Lemma initialize_shown : keeps initialize.
Proof. intros m H. split; [|done]. unfold initialize. cbn [snd]. by destruct (_ || _). Qed.
Lemma ensure_shown : keeps ensureInitialized.
Proof.
  eapply triple_bind; [apply gets_shown|]. intros [] _; [by apply triple_ret|].
  eapply triple_bind; [apply initialize_shown|]. intros ? _. by apply triple_ret.
Qed.
Lemma compatible_shown info : triple (shown_ok cur) (compatibleRelease info) (fun r => fits cur r /\ isStableSemver (version r) = true).
Proof.
  eapply triple_bind; [apply snapshot_shown|]. intros v [_ Hc].
  eapply triple_weaken; [apply triple_lift|]. intros r H. apply updateReleaseFromInfo_Ok in H as [_ H]. rewrite Hc in H.
  split; [done|]. destruct H as [H _]. apply compareSemver_Ok in H as (? & ? & ? & ? & ? & ? & Hp & _). by eapply semverParts_stable.
Qed.
Lemma still_shown st msg : own_message msg -> keeps (patch st Keep Keep msg).
Proof. intros H. by apply patch_shown. Qed.
Lemma clear_shown st rel msg : rel <> Keep -> (forall r, rel = Give (Some r) -> fits cur r) -> own_message msg ->
  keeps (patch st rel (Give None) msg).
Proof. intros _ Hr H. by apply patch_shown. Qed.
Lemma not_available_shown : keeps on_not_available.
Proof. apply clear_shown; [done..|known]. Qed.
Lemma applyAvailableInfo_shown info : keeps (applyAvailableInfo info).
Proof.
  apply triple_catch.
  - eapply triple_bind; [apply compatible_shown|]. intros r [Hf Hs]. apply clear_shown; [done|by intros ? [= <-]|].
    right. by exists (version r).
  - intros e. apply clear_shown; [done..|]. apply safeMessage_own. known.
Qed.
Lemma on_downloaded_shown info : keeps (on_downloaded info).
Proof.
  apply triple_catch; [|intros e; apply still_shown, safeMessage_own; known].
  eapply triple_bind; [apply compatible_shown|]. intros r [Hf _].
  eapply triple_bind; [apply snapshot_shown|]. intros v [(_ & Hp & _) _].
  apply patch_shown; [by intros ? [= <-]|intros p [= E]; by apply Hp|known].
Qed.
Lemma on_error_shown e : keeps (on_error e).
Proof. eapply triple_bind; [apply snapshot_shown|]. intros v _. apply still_shown, safeMessage_own. known. Qed.
Lemma check_shown : keeps check.
Proof.
  eapply triple_bind; [apply ensure_shown|]. intros _ _. eapply triple_bind; [apply gets_shown|]. intros [] _; cbn [negb]; [|by apply triple_ret].
  eapply triple_bind; [apply patch_shown; [done..|known]|]. intros _ _.
  eapply triple_bind; [apply perform_shown; by repeat constructor|]. intros _ _. by apply triple_ret.
Qed.
Lemma check_settled_shown r : keeps (check_settled r).
Proof.
  apply triple_catch; [|intros e; apply still_shown, safeMessage_own; known].
  eapply triple_bind; [apply triple_lift|]. intros info _. cbv zeta.
  destruct (match info with Some _ => _ | None => _ end) as [i|]; [|apply not_available_shown].
  eapply triple_bind; [apply snapshot_shown|]. intros v _. eapply triple_bind; [apply triple_lift|]. intros n _.
  destruct (n <=? 0); [apply not_available_shown|apply applyAvailableInfo_shown].
Qed.
Lemma download_shown : keeps download.
Proof.
  eapply triple_bind; [apply ensure_shown|]. intros _ _. eapply triple_bind; [apply gets_shown|]. intros [] _; cbn [negb]; [|by apply triple_ret].
  eapply triple_bind; [apply snapshot_shown|]. intros v _. destruct (_ || _).
  - eapply triple_bind; [apply still_shown; known|]. intros _ _. by apply triple_ret.
  - eapply triple_bind; [apply patch_shown; [done..|known]|]. intros _ _.
    eapply triple_bind; [apply perform_shown; by repeat constructor|]. intros _ _. by apply triple_ret.
Qed.
Lemma download_settled_shown r : keeps (download_settled r).
Proof.
  apply triple_catch; [|intros e; apply still_shown, safeMessage_own; known].
  eapply triple_bind; [apply triple_lift|]. intros _ _. eapply triple_bind; [apply snapshot_shown|]. intros v _.
  destruct (decide _); [apply still_shown; known|by apply triple_ret].
Qed.
Lemma restart_shown quit : keeps (restartToUpdate quit).
Proof.
  eapply triple_bind; [apply ensure_shown|]. intros _ _. eapply triple_bind; [exact (gets_shown id)|]. intros m _.
  destruct (m_updater m) as [u|]; [|apply triple_throw].
  eapply triple_bind; [apply triple_guard|]. intros [] _.
  eapply triple_bind; [apply still_shown; destruct (m_platform m); known|]. intros _ _. destruct (_ && _).
  - eapply triple_bind; [apply perform_shown; by repeat constructor|]. intros _ _. by apply triple_ret.
  - eapply triple_bind; [apply perform_shown; by repeat constructor|]. intros _ _.
    eapply triple_bind; [apply triple_lift|]. intros _ _. by apply triple_ret.
Qed.
Lemma handle_shown i : keeps (handle i).
Proof.
  assert (Hstill : forall op : M Manager unit, keeps op -> keeps (_ ← op; mret false)).
  { intros op H. eapply triple_bind; [exact H|]. intros _ _. by apply triple_ret. }
  destruct i; cbn [handle]; try apply Hstill.
  - by intros m H.
  - by intros m H.
  - eapply triple_bind; [apply initialize_shown|]. intros _ _. by apply triple_ret.
  - apply check_shown.
  - apply check_settled_shown.
  - apply download_shown.
  - apply download_settled_shown.
  - apply restart_shown.
  - apply triple_catch; [eapply triple_weaken; [apply triple_lift|done]|]. intros e. apply still_shown, safeMessage_own. known.
  - apply still_shown. known.
  - apply not_available_shown.
  - apply applyAvailableInfo_shown.
  - apply patch_shown; [done|intros ? [= <-]; apply normalizeProgress_ok|known].
  - apply on_downloaded_shown.
  - apply on_error_shown.
Qed.
End shown.

Lemma new_manager_shown o m : new_manager o = Ok m -> shown_ok (o_currentVersion o) m.
Proof.
  unfold new_manager. intros (ch & _ & [= <-])%bind_Ok. split_and!; [done| |constructor].
  split_and!; cbn; [done..|]. destruct (o_packaged o); [done|]. intros ? [= <-]. known.
Qed.

(** C14: Whatever the updater reports and in whatever order its events and
    promises arrive, every view the listeners are given offers only a release
    that is newer than the installed version and compatible with it, a
    percentage between 0 and 100, and one of the program's own sentences: no
    text of an error of the updater is shown. *)
Theorem shown_updates_fit o m l w : new_manager o = Ok m -> run l (start m) = Some w ->
  view_ok (m_view (manager w)) /\
  forall listener v, Notify listener v ∈ m_effects (manager w) -> view_ok v /\ currentVersion v = o_currentVersion o.
Proof.
  intros Hm Hr. assert (H : shown_ok (o_currentVersion o) (manager w)).
  { apply (updater_run_keeps (fun w => shown_ok (o_currentVersion o) (manager w)) _ l) with (2 := all_ok_true _ _) (3 := Hr); [|by apply new_manager_shown].
    intros i w1 w2 _ [_ ->]%step_manager H. by apply handle_shown. }
  destruct H as (_ & Hv & He). split; [done|]. intros listener v Hin. rewrite Forall_forall in He. exact (He _ Hin).
Qed.

(** ** What is installed *)

Definition completes_download (i : input) : bool :=
  match i with DownloadSettled (Ok _) | EvDownloaded _ => true | _ => false end.
(** The states a download leads to *)
Definition late (st : DesktopUpdateState) : bool :=
  match st with downloaded | installing | install_failed => true | _ => false end.
Definition installs_update (e : effect) : bool :=
  match e with QuitAndInstall | InstallDownloadedUpdateAndRestart => true | _ => false end.
Definition quiet (m : Manager) : Prop :=
  late (state (m_view m)) = false /\ Forall (fun e => installs_update e = false) (m_effects m).

Notation stays_quiet op := (triple quiet op (fun _ => True)).
Lemma patch_quiet st rel prog msg : late st = false -> stays_quiet (patch st rel prog msg).
Proof.
  intros Hl m [_ He]. split; [|done]. split; [done|]. cbn. apply Forall_app. split; [done|].
  apply Forall_fmap, Forall_true. by intros l.
Qed.
Lemma gets_quiet {A} (f : Manager -> A) : stays_quiet (gets f).
Proof. by intros m H. Qed.
Lemma snapshot_quiet : triple quiet snapshot (fun v => late (state v) = false).
Proof. intros m [Hl He]. split; [done|]. by intros v [= <-]. Qed.
Lemma perform_quiet e : installs_update e = false -> stays_quiet (modify (perform [e])).
Proof. intros He m [Hl Hm]. split; [|done]. split; [done|]. cbn. apply Forall_app. by repeat constructor. Qed.
Lemma applyAvailableInfo_quiet info : stays_quiet (applyAvailableInfo info).
Proof.
  apply triple_catch; [|by intros e; apply patch_quiet]. eapply (triple_bind _ _ _ (fun _ => True)); [|by intros r _; apply patch_quiet].
  eapply triple_bind; [apply snapshot_quiet|]. intros v _. by eapply triple_weaken; [apply triple_lift|].
Qed.
Lemma check_settled_quiet r : stays_quiet (check_settled r).
Proof.
  apply triple_catch; [|by intros e; apply patch_quiet]. eapply triple_bind; [apply triple_lift|]. intros info _. cbv zeta.
  destruct (match info with Some _ => _ | None => _ end) as [i|]; [|by apply patch_quiet].
  eapply triple_bind; [apply snapshot_quiet|]. intros v _. eapply triple_bind; [apply triple_lift|]. intros n _.
  destruct (n <=? 0); [by apply patch_quiet|apply applyAvailableInfo_quiet].
Qed.
Definition ensured (m : Manager) : Manager := (initialize m).2.
Lemma ensure_run m : ensureInitialized m = (Ok tt, ensured m).
Proof.
  unfold ensureInitialized, ensured. rewrite M_bind_run. cbn [gets]. destruct (m_initialized m) eqn:E.
  - unfold initialize. by rewrite E.
  - by rewrite M_bind_run.
Qed.
Lemma ensured_quiet m : quiet m -> quiet (ensured m).
Proof. unfold ensured, initialize. cbn [snd]. by destruct (_ || _). Qed.
Lemma ensure_quiet : stays_quiet ensureInitialized.
Proof. intros m H. rewrite ensure_run. split; [by apply ensured_quiet|done]. Qed.
(** Restarting does nothing unless the state says an update was downloaded. *)
Lemma restart_quiet quit m : may_install (state (m_view m)) = false ->
  exists msg, restartToUpdate quit m = (Throw (Error msg), ensured m).
Proof.
  intros Hs. unfold restartToUpdate. rewrite M_bind_run, ensure_run. cbn [fst snd].
  assert (Hv : m_view (ensured m) = m_view m) by (unfold ensured, initialize; cbn [snd]; by destruct (_ || _)).
  rewrite M_bind_run. cbn [get_state]. destruct (m_updater (ensured m)); [|eexists; reflexivity].
  rewrite M_bind_run, Hv. unfold js_guard. rewrite Hs. eexists. reflexivity.
Qed.

Lemma handle_quiet i : completes_download i = false -> (forall r, i <> InstallSettled r) -> stays_quiet (handle i).
Proof.
  assert (Hstill : forall op : M Manager unit, stays_quiet op -> stays_quiet (_ ← op; mret false)).
  { intros op H. eapply triple_bind; [exact H|]. intros _ _. by apply triple_ret. }
  destruct i as [| | | |r| |r|quit|r| | |info|pr|info|e]; cbn [handle completes_download]; intros Hd Hi; try apply Hstill.
  - by intros m H.
  - by intros m H.
  - eapply (triple_bind _ _ _ (fun _ => True)); [|intros _ _; by apply triple_ret].
    intros m H. split; [|done]. unfold initialize. cbn [snd]. by destruct (_ || _).
  - eapply triple_bind; [apply ensure_quiet|]. intros _ _. eapply triple_bind; [apply gets_quiet|]. intros [] _; cbn [negb]; [|by apply triple_ret].
    eapply triple_bind; [by apply patch_quiet|]. intros _ _. eapply triple_bind; [by apply perform_quiet|]. intros _ _. by apply triple_ret.
  - apply check_settled_quiet.
  - eapply triple_bind; [apply ensure_quiet|]. intros _ _. eapply triple_bind; [apply gets_quiet|]. intros [] _; cbn [negb]; [|by apply triple_ret].
    eapply triple_bind; [apply snapshot_quiet|]. intros v _. destruct (_ || _).
    + eapply triple_bind; [by apply patch_quiet|]. intros _ _. by apply triple_ret.
    + eapply triple_bind; [by apply patch_quiet|]. intros _ _. eapply triple_bind; [by apply perform_quiet|]. intros _ _. by apply triple_ret.
  - destruct r as [|e]; [done|]. apply triple_catch; [|by intros e'; apply patch_quiet].
    eapply triple_bind; [apply triple_lift|]. by intros a.
  - intros m H. assert (Hm : may_install (state (m_view m)) = false) by (destruct H as [H _]; by destruct (state (m_view m))).
    destruct (restart_quiet quit m Hm) as [msg ->]. split; [|done]. cbn [snd]. by apply ensured_quiet.
  - by destruct (Hi r).
  - by apply patch_quiet.
  - by apply patch_quiet.
  - apply applyAvailableInfo_quiet.
  - by apply patch_quiet.
  - done.
  - eapply triple_bind; [apply snapshot_quiet|]. intros v Hv. apply patch_quiet. destruct (decide _) as [E|]; [|done]. cbn in Hv; by rewrite E in Hv.
Qed.
(** Before a download has completed, no restart is under way either. *)
Lemma step_quiet i w w' : completes_download i = false -> step i w = Some w' ->
  quiet (manager w) /\ installs w = 0%nat -> quiet (manager w') /\ installs w' = 0%nat.
Proof.
  intros Hd Hs [Hq Hn]. apply step_manager in Hs as Hs'. destruct Hs' as [Hp Hm]. assert (Hi : forall r, i <> InstallSettled r).
  { intros r ->. cbn in Hp. by rewrite Hn in Hp. }
  split; [rewrite Hm; by apply handle_quiet|]. unfold step in Hs. rewrite Hp in Hs.
  destruct i; try (destruct (handle _ _); injection Hs as <-; done); [|by destruct (Hi r)].
  assert (Hmay : may_install (state (m_view (manager w))) = false) by (destruct Hq as [H _]; by destruct (state _)).
  cbn [handle] in Hs. destruct (restart_quiet quit _ Hmay) as [msg E]. rewrite E in Hs. injection Hs as <-. cbn. lia.
Qed.

(** The states that name the release they are about *)
Definition named (st : DesktopUpdateState) : bool :=
  match st with available | downloading | downloaded | installing | install_failed => true | _ => false end.
(** No other operation comes between: progress is reported while the view is
    downloading, and an installation fails while it is installing. *)
Definition in_turn (i : input) (w : World) : bool :=
  match i with
  | EvProgress _ => bool_decide (state (m_view (manager w)) = downloading)
  | InstallSettled (Throw _) => bool_decide (state (m_view (manager w)) = installing)
  | _ => true
  end.

Definition named_ok (m : Manager) : Prop := named (state (m_view m)) = true -> is_Some (release (m_view m)).
Notation stays_named op := (triple named_ok op (fun _ => True)).
Lemma patch_named st rel prog msg m : named_ok m ->
  named st = false \/ (exists r, rel = Give (Some r)) \/ rel = Keep /\ named (state (m_view m)) = true ->
  named_ok (patch st rel prog msg m).2.
Proof.
  intros H Hc. unfold named_ok. cbn. destruct Hc as [->|[[r ->]|[-> Hs]]]; [done|by eexists|]. intros _. by apply H.
Qed.
Lemma patch_stays_named st rel prog msg : named st = false \/ (exists r, rel = Give (Some r)) -> stays_named (patch st rel prog msg).
Proof. intros H m Hm. split; [|done]. apply patch_named; [done|]. tauto. Qed.
Lemma stays_run {A} (op : M Manager A) m : stays_named op -> named_ok m -> named_ok (op m).2.
Proof. intros Hop H. exact (proj1 (Hop m H)). Qed.
Lemma then_ret_named {A} (op : M Manager unit) (a : A) : stays_named op -> stays_named (_ ← op; mret a).
Proof. intros H. eapply triple_bind; [exact H|]. intros _ _. by apply triple_ret. Qed.
Lemma perform_named e : stays_named (modify (perform e)).
Proof. by intros m H. Qed.
Lemma ensured_named m : named_ok m -> named_ok (ensured m).
Proof. unfold ensured, initialize. cbn [snd]. by destruct (_ || _). Qed.
Lemma applyAvailableInfo_named info : stays_named (applyAvailableInfo info).
Proof.
  apply triple_catch; [|intros e; apply patch_stays_named; by left].
  apply (triple_bind _ _ _ (fun _ => True)); [|intros r _; apply patch_stays_named; right; by eexists].
  apply (triple_bind _ _ _ (fun _ => True)); [by intros m H|]. intros v _. eapply triple_weaken; [apply triple_lift|done].
Qed.
Lemma on_downloaded_named info : stays_named (on_downloaded info).
Proof.
  apply triple_catch; [|intros e; apply patch_stays_named; by left].
  apply (triple_bind _ _ _ (fun _ => True)); [|intros r _; apply (triple_bind _ _ _ (fun _ => True)); [by intros m H|]].
  - apply (triple_bind _ _ _ (fun _ => True)); [by intros m H|]. intros v _. eapply triple_weaken; [apply triple_lift|done].
  - intros v _. apply patch_stays_named. right. by eexists.
Qed.
Lemma check_settled_named r : stays_named (check_settled r).
Proof.
  apply triple_catch; [|intros e; apply patch_stays_named; by left]. eapply triple_bind; [apply triple_lift|]. intros info _. cbv zeta.
  destruct (match info with Some _ => _ | None => _ end) as [i|]; [|apply patch_stays_named; by left].
  apply (triple_bind _ _ _ (fun _ => True)); [by intros m H|]. intros v _. eapply triple_bind; [apply triple_lift|]. intros n _.
  destruct (n <=? 0); [apply patch_stays_named; by left|apply applyAvailableInfo_named].
Qed.
Lemma download_named : stays_named download.
Proof.
  intros m H. split; [|done]. unfold download. rewrite M_bind_run, ensure_run. apply ensured_named in H. revert H.
  generalize (ensured m). clear m. intros m H. rewrite M_bind_run. cbn [gets]. destruct (usable m); cbn [negb]; [|done].
  rewrite M_bind_run. cbn [snapshot gets].
  destruct (bool_decide (state (m_view m) = available)) eqn:E; cbn [negb orb];
    [destruct (bool_decide (is_Some (release (m_view m)))); cbn [negb orb]|].
  2,3: apply (stays_run (_ ← patch error _ _ _; mret false)); [apply then_ret_named, patch_stays_named; by left|done].
  rewrite M_bind_run. apply (stays_run (_ ← modify (perform [DownloadUpdate]); mret true)); [apply then_ret_named, perform_named|].
  apply patch_named; [done|]. right. right. apply bool_decide_eq_true in E. by rewrite E.
Qed.
Lemma download_settled_named r : stays_named (download_settled r).
Proof.
  intros m H. split; [|done]. unfold download_settled, try_catch. rewrite M_bind_run. cbn [lift].
  destruct r as [[]|e]; [|apply patch_named; [done|by left]]. rewrite M_bind_run. cbn [snapshot gets].
  destruct (decide _) as [E|]; [|done]. apply (patch_named downloaded Keep Keep downloaded_message); [done|].
  right. right. by rewrite E.
Qed.
Lemma restart_named quit : stays_named (restartToUpdate quit).
Proof.
  intros m H. split; [|done]. unfold restartToUpdate. rewrite M_bind_run, ensure_run. apply ensured_named in H. revert H.
  generalize (ensured m). clear m. intros m H. rewrite M_bind_run. cbn [get_state]. destruct (m_updater m) as [u|]; [|done].
  rewrite M_bind_run. unfold js_guard. destruct (may_install _) eqn:E; cbn [negb]; [|done]. rewrite M_bind_run.
  match goal with |- named_ok (match patch ?a ?b ?c ?d m with (_, _) => _ end).2 => pose proof (patch_named a b c d m H) as Hp end.
  destruct (patch _ _ _ _ m) as [[[]|e] m'] eqn:Ep; [|done]. cbn [snd] in Hp.
  assert (Hm : named_ok m') by (apply Hp; right; right; split; [done|by destruct (state (m_view m))]). clear Hp Ep.
  destruct (_ && _).
  - by apply (stays_run (_ ← modify (perform [InstallDownloadedUpdateAndRestart]); mret true)); [apply then_ret_named, perform_named|].
  - apply (stays_run (_ ← modify (perform [QuitAndInstall]); _ ← lift quit; mret false)); [|done].
    eapply triple_bind; [apply perform_named|]. intros _ _.
    eapply triple_bind; [apply triple_lift|]. intros _ _. by apply triple_ret.
Qed.
Lemma step_named i w w' : in_turn i w = true -> step i w = Some w' -> named_ok (manager w) -> named_ok (manager w').
Proof.
  intros Ht [Hp ->]%step_manager H. revert H Ht.
  assert (Hstill : forall op : M Manager unit, named_ok (op (manager w)).2 -> named_ok ((_ ← op; mret false) (manager w)).2).
  { intros op Hop. rewrite M_bind_run. by destruct (op (manager w)) as [[a|e] m]. }
  destruct i as [| | | |r| |r|quit|r| | |info|pr|info|e]; cbn [handle in_turn]; intros H Ht; try apply Hstill; try done.
  - rewrite M_bind_run. unfold initialize. by apply (ensured_named (manager w)).
  - unfold check. rewrite M_bind_run, ensure_run. apply ensured_named in H. revert H. generalize (ensured (manager w)). intros m H.
    rewrite M_bind_run. cbn [gets]. destruct (usable m); cbn [negb]; [|done].
    apply (stays_run (_ ← patch checking Keep (Give None) checking_message; _ ← modify (perform [CheckForUpdates]); mret true)); [|done].
    eapply triple_bind; [apply patch_stays_named; by left|]. intros _ _. eapply triple_bind; [apply perform_named|]. intros _ _. by apply triple_ret.
  - apply stays_run; [apply check_settled_named|done].
  - apply stays_run; [apply download_named|done].
  - apply stays_run; [apply download_settled_named|done].
  - apply stays_run; [apply restart_named|done].
  - unfold install_settled, try_catch. destruct r as [u|e]; [done|]. cbn [lift]. apply patch_named; [done|].
    right. right. apply bool_decide_eq_true in Ht. by rewrite Ht.
  - apply stays_run; [apply applyAvailableInfo_named|done].
  - apply patch_named; [done|]. right. right. apply bool_decide_eq_true in Ht. by rewrite Ht.
  - apply stays_run; [apply on_downloaded_named|done].
  - unfold on_error. rewrite M_bind_run. cbn [snapshot gets]. apply patch_named; [done|].
    destruct (decide _) as [E|]; [|by left]. right. right. by rewrite E.
Qed.

Lemma new_manager_quiet o m : new_manager o = Ok m -> quiet m /\ named_ok m.
Proof.
  unfold new_manager. intros (ch & _ & [= <-])%bind_Ok. unfold quiet, named_ok. cbn. by destruct (_ && _).
Qed.

(** C24: The updater is asked to install only after a download has completed,
    in every order of calls, events and settling promises; and when each
    operation runs its course before the next one interferes, a view that says
    an update is available, downloading, downloaded, installing or failed to
    install names the release it is about, which is newer and compatible. *)
Theorem install_needs_a_download o m l w : new_manager o = Ok m -> run l (start m) = Some w ->
  (existsb installs_update (m_effects (manager w)) = true -> existsb completes_download l = true) /\
  (all_ok in_turn l (start m) = true -> named (state (m_view (manager w))) = true ->
   exists r, release (m_view (manager w)) = Some r /\ fits (currentVersion (m_view (manager w))) r).
Proof.
  intros Hm Hr. destruct (new_manager_quiet o m Hm) as [Hq Hn]. split.
  - intros He. destruct (existsb completes_download l) eqn:Ec; [done|]. exfalso.
    assert (H : quiet (manager w) /\ installs w = 0%nat).
    { eapply (updater_run_keeps (fun w => quiet (manager w) /\ installs w = 0%nat) (fun i _ => negb (completes_download i)) l); [|clear Hr|exact Hr|by split].
      - intros i w1 w2 Hi. apply step_quiet. by apply negb_true_iff.
      - generalize (start m). clear - Ec. induction l as [|i l IH]; intros w; [done|]. cbn in *.
        apply orb_false_iff in Ec as [-> Ec]. cbn. destruct (step i w); [by apply IH|done]. }
    destruct H as [[_ H] _]. rewrite Forall_forall in H. apply existsb_exists in He as (e & Hin & He).
    apply list_elem_of_In in Hin. by rewrite H in He.
  - intros Ht Hs.
    assert (H : named_ok (manager w)) by (by apply (updater_run_keeps (fun w => named_ok (manager w)) in_turn l step_named (start m))).
    assert (Hok : shown_ok (o_currentVersion o) (manager w)).
    { apply (updater_run_keeps (fun w => shown_ok (o_currentVersion o) (manager w)) _ l) with (2 := all_ok_true _ _) (3 := Hr); [|by apply new_manager_shown].
      intros i w1 w2 _ [_ ->]%step_manager H1. by apply handle_shown. }
    destruct (H Hs) as [r E]. exists r. split; [done|]. destruct Hok as (_ & (Hf & _) & _). by apply Hf.
Qed.

(** The first [initialize] of a build with an updater leaves the view as it
    is and the updater's [allowDowngrade] off, whatever selecting the channel
    did to it. *)
Theorem initialize_forbids_downgrade m : m_updater m <> None -> m_initialized m = false ->
  (initialize m).1 = Ok (m_view m) /\ m_initialized (initialize m).2 = true /\
  allowDowngrade (m_config (initialize m).2) = false.
Proof. intros Hu Hi. unfold initialize. rewrite Hi. by rewrite bool_decide_false. Qed.

(** A development build, which has no updater, keeps the view it started
    with through any run and asks for nothing. *)
Theorem development_build_is_inert o m l w : o_packaged o = false -> o_updater o = None ->
  new_manager o = Ok m -> run l (start m) = Some w ->
  m_view (manager w) = m_view m /\ m_effects (manager w) = [].
Proof.
  intros Hp Hu Hm Hr. set (P w := m_view (manager w) = m_view m /\ m_effects (manager w) = [] /\
    m_updater (manager w) = None /\ m_initialized (manager w) = false /\ checks w = 0%nat /\ downloads w = 0%nat /\ installs w = 0%nat).
  enough (H : P w) by (destruct H as (? & ? & _); by split).
  assert (H0 : P (start m)).
  { unfold new_manager in Hm. apply bind_Ok in Hm as (ch & _ & [= <-]). subst P. cbn. by rewrite Hu, Hp. }
  eapply (updater_run_keeps P (fun _ _ => true)); [|apply all_ok_true|exact Hr|exact H0].
  clear. intros i w1 w2 _ Hs (Hv & He & Hu & Hi & H1 & H2 & H3).
  assert (Hen : ensured (manager w1) = manager w1) by (unfold ensured, initialize; cbn [snd]; by rewrite Hu, orb_true_r).
  unfold step in Hs. destruct (possible i w1) eqn:Hp; [|done].
  destruct i; cbn [possible] in Hp; rewrite ?H1, ?H2, ?H3, ?Hi in Hp; try done; cbn [handle] in Hs.
  1,2: injection Hs as <-; by split_and!.
  all: unfold check, download, restartToUpdate in Hs; rewrite M_bind_run in Hs.
  - change (initialize (manager w1)) with (Ok (m_view (manager w1)), ensured (manager w1)) in Hs. rewrite Hen in Hs.
    injection Hs as <-. by split_and!.
  - rewrite ensure_run, Hen, M_bind_run in Hs. cbn [gets] in Hs. unfold usable in Hs. rewrite Hu in Hs. injection Hs as <-.
    split_and!; cbn; (done || lia).
  - rewrite ensure_run, Hen, M_bind_run in Hs. cbn [gets] in Hs. unfold usable in Hs. rewrite Hu in Hs. injection Hs as <-.
    split_and!; cbn; (done || lia).
  - rewrite ensure_run, Hen, M_bind_run in Hs. cbn [get_state] in Hs. rewrite Hu in Hs. injection Hs as <-.
    split_and!; cbn; (done || lia).
Qed.

End Manager.

(** ** A run *)

Definition no_text (v : value) : jstr := [].
(** The setter of electron-updater also allows downgrades. *)
Definition setter (ch : jstr) (c : UpdaterConfig) : UpdaterConfig :=
  {| autoDownload := autoDownload c; autoInstallOnAppQuit := autoInstallOnAppQuit c;
     allowPrerelease := allowPrerelease c; allowDowngrade := true; channel := ch |}.
Definition sample_options : Options :=
  {| o_currentVersion := js "0.1.25"; o_packaged := true; o_platform := linux; o_arch := js "x64";
     o_updater := None; o_appimage := false;
     o_config := {| autoDownload := true; autoInstallOnAppQuit := true; allowPrerelease := true; allowDowngrade := false; channel := [] |} |}.
Definition sample_manager : Manager :=
  match new_manager sample_options with
  | Ok m => m
  | Throw _ => {| m_platform := linux; m_updater := None; m_config := o_config sample_options; m_initialized := false;
                  m_listeners := []; m_effects := [];
                  m_view := {| enabled := false; state := disabled; updaterChannel := []; currentVersion := [];
                               release := None; progress := None; message := None |} |}
  end.
Definition metadata (ver : string) : value :=
  VObject [(js "version", VString (js ver));
           (js "sourcenerve", VObject [(js "daemonVersion", VString (js ver)); (js "profileSchemaVersion", VNumber (NInt 1))])].
Definition sample_progress : DesktopUpdateProgress :=
  {| percent := NInt 250; transferred := NInt 1024; total := NInt 1024; bytesPerSecond := NNaN |}.
Definition sample_run : list input :=
  [Subscribe 1; Check_; EvChecking; EvAvailable (metadata "0.1.26"); CheckSettled (Ok (Some (metadata "0.1.26")));
   Download_; EvProgress sample_progress; EvDownloaded (metadata "0.1.26"); DownloadSettled (Ok tt);
   Restart_ (Ok tt); InstallSettled (Throw (Error (js "token=abc /home/user")))].
Definition after (l : list input) : World :=
  match run no_text setter l (start sample_manager) with Some w => w | None => start sample_manager end.
Lemma shown_updates_fit_witness : view_ok (m_view (manager (after sample_run))).
Proof.
  assert (H : run no_text setter sample_run (start sample_manager) = Some (after sample_run)) by (vm_compute; reflexivity).
  exact (proj1 (shown_updates_fit no_text setter sample_options sample_manager sample_run _ ltac:(vm_compute; reflexivity) H)).
Defined.
Lemma install_needs_a_download_witness : exists r, release (m_view (manager (after sample_run))) = Some r /\
  fits (currentVersion (m_view (manager (after sample_run)))) r.
Proof.
  assert (H : run no_text setter sample_run (start sample_manager) = Some (after sample_run)) by (vm_compute; reflexivity).
  apply (install_needs_a_download no_text setter sample_options sample_manager sample_run _ ltac:(vm_compute; reflexivity) H);
    vm_compute; reflexivity.
Defined.
Lemma initialize_forbids_downgrade_witness : allowDowngrade (m_config (initialize setter sample_manager).2) = false.
Proof. apply (initialize_forbids_downgrade setter sample_manager); [done|reflexivity]. Defined.
Definition development_options : Options :=
  {| o_currentVersion := js "0.1.25"; o_packaged := false; o_platform := linux; o_arch := js "x64";
     o_updater := None; o_appimage := false; o_config := o_config sample_options |}.
Lemma development_build_is_inert_witness : exists m w, new_manager development_options = Ok m /\
  run no_text setter [Check_; Download_; Restart_ (Ok tt)] (start m) = Some w /\ m_effects (manager w) = [].
Proof.
  eexists _, _. split; [vm_compute; reflexivity|]. split; [vm_compute; reflexivity|].
  exact (proj2 (development_build_is_inert no_text setter development_options _ [Check_; Download_; Restart_ (Ok tt)] _
    eq_refl eq_refl ltac:(vm_compute; reflexivity) ltac:(vm_compute; reflexivity))).
Defined.

(** A check that overlaps a download withdraws the release; the download then
    ends in an update that can be installed and has no name. *)
Example overlapping_check_loses_release :
  let v := m_view (manager (after [Check_; CheckSettled (Ok (Some (metadata "0.1.26"))); Download_; Check_;
             CheckSettled (Ok None); EvProgress sample_progress; DownloadSettled (Ok tt)])) in
  state v = downloaded /\ release v = None /\ may_install (state v) = true.
Proof. vm_compute. done. Qed.
(** The reason a prerelease was refused for is overwritten when the check
    settles, because comparing its version throws. *)
Example refusal_overwritten :
  let l := [Check_; EvAvailable (metadata "0.2.0-beta.1")] in
  message (m_view (manager (after l))) = Some (js "Available update metadata contains an invalid Desktop version.") /\
  message (m_view (manager (after (l ++ [CheckSettled (Ok (Some (metadata "0.2.0-beta.1")))])))) =
    Some (js "Unable to check for updates.").
Proof. vm_compute. done. Qed.

End UpdateManager.
