(* ===== verification/CrashMarkers.v ===== *)
(** * How the last run ended (crash-marker-store.ts)

    [CrashMarkerStore] keeps one small file that says whether the desktop is
    running or has ended cleanly, and how its daemon last ended. Writes go
    through a queue of promises; the next start reads the file. [JSON],
    [Date.parse] and the clock are arguments; an exit of the daemon is kept as
    the object it is, because one that was read from the file is passed on
    unchanged. *)

From S2P Require Import Prelude JsValue Validate Utf8 LocalFile RuntimeLog JsonCodec.

Module CrashMarkers.

Definition SCHEMA_VERSION : Z := 1.

Inductive exit_status := running | clean.
#[export] Instance exit_status_eq_dec : EqDecision exit_status.
Proof. solve_decision. Defined.
Definition status_name (s : exit_status) : jstr := match s with running => js "running" | clean => js "clean" end.

(** The fields of a [DaemonExitSummary], in their order *)
Abbreviation DaemonExitSummary := (list (jstr * value)).
Record MainExitSummary := { x_clean : bool; x_startedAt : jstr; x_endedAt : option value }.
(** [endedAt] is read without a check of its type; [VUndefined] when absent. *)
Record StoredExitMarker := {
  sessionId : jstr; startedAt : jstr; status : exit_status; endedAt : value;
  lastDaemonExit : option DaemonExitSummary }.

Inductive DaemonRuntimeState := crashed | stopped | other_state.
Record DaemonSnapshot := {
  d_state : DaemonRuntimeState; d_exitCode : option (option num); d_signal : option jstr; d_message : option jstr }.

(** ** The file *)

Definition optional_field (key : string) (v : value) : list (jstr * value) :=
  match v with VUndefined => [] | _ => [(js key, v)] end.
Definition marker_value (m : StoredExitMarker) : value :=
  VObject ([(js "schemaVersion", VInt SCHEMA_VERSION); (js "sessionId", VString (sessionId m));
            (js "startedAt", VString (startedAt m)); (js "status", VString (status_name (status m)))] ++
           optional_field "endedAt" (endedAt m) ++
           optional_field "lastDaemonExit" (match lastDaemonExit m with Some fs => VObject fs | None => VUndefined end)).

Section Marker.
Context (JSON_parse : jstr -> result value) (JSON_stringify : value -> jstr).
(** [Number.isFinite(Date.parse(v))] *)
Context (date_ok : value -> bool).
Context (filePath pid : jstr) (homeDirectory : option jstr).

Definition bounded_field (fs : list (jstr * value)) (key : string) (max : Z) : bool :=
  match field fs (js key) with
  | VUndefined => true
  | VString s => slen s <=? max
  | _ => false
  end.
Definition is_exit_state (v : value) : bool := is_string v (js "crashed") || is_string v (js "stopped").
Definition isDaemonExitSummary (v : value) : bool :=
  match is_record v with
  | None => false
  | Some summary =>
      match field summary (js "timestamp") with VString s => date_ok (VString s) | _ => false end &&
      is_exit_state (field summary (js "state")) &&
      match field summary (js "exitCode") with
      | VUndefined | VNull => true
      | VNumber n => bool_decide (is_Some (safe_integer n))
      | _ => false
      end &&
      bounded_field summary "signal" 512 && bounded_field summary "message" 4096
  end.

Definition MAX_MARKER_BYTES : Z := 64 * 1024.
Definition as_marker (v : value) : option StoredExitMarker :=
  match v with
  | VObject fs =>
      let get key := field fs (js key) in
      match get "sessionId", get "startedAt", get "status" with
      | VString id, VString started, VString st =>
          if is_int (get "schemaVersion") SCHEMA_VERSION && (slen id <=? 128)%Z &&
             (bool_decide (st = js "running") || bool_decide (st = js "clean")) && date_ok (VString started) &&
             (match get "endedAt" with VUndefined => true | v => date_ok v end) &&
             (match get "lastDaemonExit" with VUndefined => true | v => isDaemonExitSummary v end)
          then Some {| sessionId := id; startedAt := started;
                       status := if bool_decide (st = js "clean") then clean else running;
                       endedAt := get "endedAt";
                       lastDaemonExit := match get "lastDaemonExit" with VObject d => Some d | _ => None end |}
          else None
      | _, _, _ => None
      end
  | _ => None
  end%string.
(** Every failure is caught: there is then no marker. *)
Definition readMarker (file : read_outcome) : option StoredExitMarker :=
  match file with
  | Contents raw =>
      if MAX_MARKER_BYTES <? utf8_len raw then None
      else match JSON_parse raw with Ok v => as_marker v | Throw _ => None end
  | _ => None
  end.
Definition serialize (m : StoredExitMarker) : jstr := JSON_stringify (marker_value m) ++ [10%N].
Definition writeMarker (fault : write_fault) (uuid : jstr) (m : StoredExitMarker) : M Disk unit :=
  replaceFile fault (filePath ++ js ".tmp-" ++ (pid ++ js "-" ++ uuid)) filePath (serialize m).

(** ** The store *)

Record Store := {
  disk : Disk;
  s_sessionId : jstr; s_startedAt : jstr;
  previousMainExit : option MainExitSummary;
  s_lastDaemonExit : option DaemonExitSummary;
  (** what [initialize] has read and not yet looked at *)
  loading : option (option StoredExitMarker);
  (** [writeQueue]: the markers to write, and those written, with the outcome *)
  writeQueue : list StoredExitMarker;
  written : list (StoredExitMarker * bool) }.
Definition new_store (d : Disk) (id now : jstr) : Store :=
  {| disk := d; s_sessionId := id; s_startedAt := now; previousMainExit := None; s_lastDaemonExit := None;
     loading := None; writeQueue := []; written := [] |}.

Definition enqueueWrite (st : exit_status) (ended : option jstr) (s : Store) : Store :=
  {| disk := disk s; s_sessionId := s_sessionId s; s_startedAt := s_startedAt s;
     previousMainExit := previousMainExit s; s_lastDaemonExit := s_lastDaemonExit s; loading := loading s;
     writeQueue := writeQueue s ++
       [{| sessionId := s_sessionId s; startedAt := s_startedAt s; status := st;
           endedAt := match ended with Some t => if truthy t then VString t else VUndefined | None => VUndefined end;
           lastDaemonExit := s_lastDaemonExit s |}];
     written := written s |}.

(** [initialize] up to its [await], and from there on *)
Definition initialize (broken : option exn) (s : Store) : Store :=
  {| disk := disk s; s_sessionId := s_sessionId s; s_startedAt := s_startedAt s;
     previousMainExit := previousMainExit s; s_lastDaemonExit := s_lastDaemonExit s;
     loading := Some (readMarker (match broken with Some e => ReadError e | None => readFile (disk s) filePath end));
     writeQueue := writeQueue s; written := written s |}.
Definition initialize_read (s : Store) : Store :=
  match loading s with
  | None => s
  | Some previous =>
      let (main, daemon) :=
        match previous with
        | Some m => (Some {| x_clean := bool_decide (status m = clean); x_startedAt := startedAt m;
                             x_endedAt := if truthy_value (endedAt m) then Some (endedAt m) else None |},
                     lastDaemonExit m)
        | None => (previousMainExit s, s_lastDaemonExit s)
        end in
      enqueueWrite running None
        {| disk := disk s; s_sessionId := s_sessionId s; s_startedAt := s_startedAt s;
           previousMainExit := main; s_lastDaemonExit := daemon; loading := None;
           writeQueue := writeQueue s; written := written s |}
  end.

Definition exit_name (st : DaemonRuntimeState) : option jstr :=
  match st with crashed => Some (js "crashed") | stopped => Some (js "stopped") | other_state => None end.
Definition sanitized_value (o : option jstr) : value :=
  match o with
  | Some s => if truthy s then VString (RuntimeLog.sanitizeRuntimeText s homeDirectory) else VUndefined
  | None => VUndefined
  end.
Definition exit_code_value (o : option (option num)) : value :=
  match o with Some (Some n) => VNumber n | Some None => VNull | None => VUndefined end.
Definition exit_summary (d : DaemonSnapshot) (st now : jstr) : DaemonExitSummary :=
  [(js "timestamp", VString now); (js "state", VString st)] ++
  optional_field "exitCode" (exit_code_value (d_exitCode d)) ++
  optional_field "signal" (sanitized_value (d_signal d)) ++ optional_field "message" (sanitized_value (d_message d)).
Definition recordDaemonSnapshot (d : DaemonSnapshot) (now : jstr) (s : Store) : Store :=
  match exit_name (d_state d) with
  | None => s
  | Some st =>
      enqueueWrite running None
        {| disk := disk s; s_sessionId := s_sessionId s; s_startedAt := s_startedAt s;
           previousMainExit := previousMainExit s; s_lastDaemonExit := Some (exit_summary d st now);
           loading := loading s; writeQueue := writeQueue s; written := written s |}
  end.
Definition markClean (now : jstr) (s : Store) : Store := enqueueWrite clean (Some now) s.

(** The head of the queue runs. *)
Definition run_write (fault : write_fault) (uuid : jstr) (s : Store) : Store :=
  match writeQueue s with
  | [] => s
  | m :: queue =>
      let (r, d) := writeMarker fault uuid m (disk s) in
      {| disk := d; s_sessionId := s_sessionId s; s_startedAt := s_startedAt s;
         previousMainExit := previousMainExit s; s_lastDaemonExit := s_lastDaemonExit s; loading := loading s;
         writeQueue := queue; written := written s ++ [(m, is_ok r)] |}
  end.

Inductive event :=
| Initialize (broken : option exn) | InitializeRead
| RecordDaemonSnapshot (d : DaemonSnapshot) (now : jstr) | MarkClean (now : jstr)
| RunWrite (fault : write_fault) (uuid : jstr).
Definition step (s : Store) (e : event) : Store :=
  match e with
  | Initialize broken => initialize broken s
  | InitializeRead => initialize_read s
  | RecordDaemonSnapshot d now => recordDaemonSnapshot d now s
  | MarkClean now => markClean now s
  | RunWrite fault uuid => run_write fault uuid s
  end.
Definition run (es : list event) (s : Store) : Store := fold_left step es s.

(** ** What the next start learns *)

Definition marks (s : Store) : list StoredExitMarker := map fst (written s) ++ writeQueue s.
Definition succeeded (p : StoredExitMarker * bool) : option StoredExitMarker := if p.2 then Some p.1 else None.
Definition last_success (l : list (StoredExitMarker * bool)) : option StoredExitMarker := last (omap succeeded l).

(** The mark a call leaves, if any: its status and its time of ending *)
Definition marking (s : Store) (e : event) : option (exit_status * option jstr) :=
  match e with
  | InitializeRead => match loading s with Some _ => Some (running, None) | None => None end
  | RecordDaemonSnapshot d _ => match exit_name (d_state d) with Some _ => Some (running, None) | None => None end
  | MarkClean now => Some (clean, Some now)
  | _ => None
  end.
Definition quiet (e : event) : bool := match e with Initialize _ | RunWrite _ _ => true | _ => false end.

(** Times that are dates, and what the reader accepts of a daemon's exit *)
Definition date (t : jstr) : Prop := t <> [] /\ date_ok (VString t) = true.
Definition text_fits (o : option jstr) (max : Z) : Prop :=
  match o with Some t => truthy t = false \/ slen (RuntimeLog.sanitizeRuntimeText t homeDirectory) <= max | None => True end.
Definition event_ok (e : event) : Prop :=
  match e with
  | MarkClean now => date now
  | RecordDaemonSnapshot d now => date now /\ text_fits (d_signal d) 512 /\ text_fits (d_message d) 4096 /\
      match d_exitCode d with Some (Some n) => is_Some (safe_integer n) | _ => True end
  | _ => True
  end.
Definition exit_ok (o : option DaemonExitSummary) : Prop :=
  match o with Some fs => isDaemonExitSummary (VObject fs) = true | None => True end.
Definition marker_ok (id now : jstr) (m : StoredExitMarker) : Prop :=
  sessionId m = id /\ startedAt m = now /\ (endedAt m = VUndefined \/ date_ok (endedAt m) = true) /\ exit_ok (lastDaemonExit m).

Lemma field_cons k v fs k' : field ((k, v) :: fs) k' = if bool_decide (k = k') then v else field fs k'.
Proof. done. Qed.
Lemma field_optional a v fs k : field (optional_field a v ++ fs) k =
  if bool_decide (js a = k) then match v with VUndefined => field fs k | _ => v end else field fs k.
Proof. destruct v; cbn [optional_field app]; rewrite ?field_cons; by destruct (bool_decide _). Qed.
Ltac decide_js := repeat match goal with |- context [bool_decide (js ?a = js ?b)] =>
  let r := eval vm_compute in (bool_decide (js a = js b)) in change (bool_decide (js a = js b)) with r end.
Lemma as_marker_value id now m : slen id <= 128 -> date now -> marker_ok id now m -> as_marker (marker_value m) = Some m.
Proof.
  intros Hid [_ Hnow] (Hi & Hn & He & Hx). destruct m as [i n st en x]. cbn in Hi, Hn, He, Hx. subst i n.
  unfold marker_value, as_marker. cbn [sessionId startedAt status endedAt lastDaemonExit app].
  rewrite !field_cons. decide_js. cbv iota.
  rewrite <- (app_nil_r (optional_field "lastDaemonExit" _)), !field_optional. decide_js. cbv iota.
  assert (Hst : (bool_decide (status_name st = js "running") || bool_decide (status_name st = js "clean")) = true /\
    bool_decide (status_name st = js "clean") = bool_decide (st = clean)) by (by destruct st).
  destruct Hst as [-> ->]. rewrite Hnow. change (is_int (VInt SCHEMA_VERSION) SCHEMA_VERSION) with true.
  rewrite (proj2 (Z.leb_le _ _) Hid). cbn [andb].
  assert (Hs : (if bool_decide (st = clean) then clean else running) = st) by (by destruct st). rewrite Hs.
  change (field [] ?k) with VUndefined.
  assert (Hx' : (match x with Some fs => isDaemonExitSummary (VObject fs) | None => true end) = true) by (by destruct x).
  destruct x as [fs|]; [rewrite Hx'|]; (destruct He as [->|He]; [done|]); destruct en; by rewrite ?He.
Qed.

(** ** Every run *)

Definition store_ok (d0 : Disk) (id now : jstr) (s : Store) : Prop :=
  s_sessionId s = id /\ s_startedAt s = now /\
  Forall (marker_ok id now) (marks s) /\ exit_ok (s_lastDaemonExit s) /\
  match loading s with Some (Some m) => exit_ok (lastDaemonExit m) | _ => True end /\
  disk s !! filePath = match last_success (written s) with Some m => Some (serialize m) | None => d0 !! filePath end.

Lemma marks_enqueue st ended s : marks (enqueueWrite st ended s) = marks s ++
  [{| sessionId := s_sessionId s; startedAt := s_startedAt s; status := st;
      endedAt := match ended with Some t => if truthy t then VString t else VUndefined | None => VUndefined end;
      lastDaemonExit := s_lastDaemonExit s |}].
Proof. unfold marks, enqueueWrite. cbn. by rewrite app_assoc. Qed.
Lemma enqueue_ok d0 id now st ended s : store_ok d0 id now s -> match ended with Some t => date t | None => True end ->
  store_ok d0 id now (enqueueWrite st ended s).
Proof.
  intros (Hi & Hn & Hm & Hx & Hl & Hd) He. split_and!; [done|done| |done..]. rewrite marks_enqueue.
  apply Forall_app. split; [done|]. apply Forall_singleton. split_and!; [done|done| |done]. cbn.
  destruct ended as [t|]; [|by left]. destruct (truthy t); [right; apply He|by left].
Qed.
Lemma readMarker_exit_ok f m : readMarker f = Some m -> exit_ok (lastDaemonExit m).
Proof.
  unfold readMarker. destruct f as [raw| |]; [|done..]. destruct (_ <? _); [done|]. destruct (JSON_parse raw) as [v|]; [|done].
  unfold as_marker. destruct v as [| | | | | |fs]; try done. cbv zeta.
  destruct (field fs (js "sessionId")); try done. destruct (field fs (js "startedAt")); try done.
  destruct (field fs (js "status")); try done. destruct (_ && _) eqn:E; [|done]. intros [= <-]. cbn [lastDaemonExit].
  apply andb_prop in E as [_ E]. by destruct (field fs (js "lastDaemonExit")).
Qed.
Lemma exit_summary_ok d st now : exit_name (d_state d) = Some st -> event_ok (RecordDaemonSnapshot d now) ->
  exit_ok (Some (exit_summary d st now)).
Proof.
  intros Hst ([_ Hnow] & Hs & Hm & Hc).
  assert (Ht : forall o max, text_fits o max -> match sanitized_value o with VUndefined => true | VString s => slen s <=? max | _ => false end = true).
  { intros [t|] max; [|done]. cbn. destruct (truthy t); [|done]. intros [|H]; [done|by apply Z.leb_le]. }
  apply Ht in Hs, Hm. unfold exit_ok, isDaemonExitSummary, bounded_field, exit_summary. cbn [is_record app].
  rewrite !field_cons, <- (app_nil_r (optional_field "message" _)), !field_optional. decide_js. cbv iota.
  change (field [] ?k) with VUndefined. rewrite Hnow.
  assert (Hstate : is_exit_state (VString st) = true) by (destruct (d_state d); inversion Hst; done).
  rewrite Hstate. cbn [andb].
  assert (Hcode : match exit_code_value (d_exitCode d) with VUndefined | VNull => true
      | VNumber n => bool_decide (is_Some (safe_integer n)) | _ => false end = true).
  { destruct (d_exitCode d) as [[n|]|]; [|done..]. by apply bool_decide_eq_true. }
  revert Hcode Hs Hm. generalize (exit_code_value (d_exitCode d)) (sanitized_value (d_signal d)) (sanitized_value (d_message d)).
  intros c g m Hc' Hs Hm. assert (Hval : forall v : value, match v with VUndefined => VUndefined | _ => v end = v) by by intros [].
  by rewrite !Hval, Hc', Hs, Hm.
Qed.

Lemma step_markers_ok d0 id now s e : event_ok e -> store_ok d0 id now s -> store_ok d0 id now (step s e).
Proof.
  intros He Hok. pose proof Hok as (Hi & Hn & Hm & Hx & Hl & Hd). destruct e as [broken| |d t|t|fault uuid]; cbn [step].
  - split_and!; [done..| |done]. cbn. destruct (readMarker _) as [m|] eqn:E; [|done]. by eapply readMarker_exit_ok.
  - unfold initialize_read. destruct (loading s) as [[m|]|]; [..|done]; by apply enqueue_ok.
  - unfold recordDaemonSnapshot. destruct (exit_name (d_state d)) as [st|] eqn:E; [|done].
    apply enqueue_ok; [|done]. split_and!; [done|done|done| |done..]. by apply exit_summary_ok.
  - by apply enqueue_ok.
  - unfold run_write. destruct (writeQueue s) as [|m queue] eqn:Eq; [done|].
    pose proof (replaceFile_atomic fault (filePath ++ js ".tmp-" ++ (pid ++ js "-" ++ uuid)) filePath (serialize m) (disk s)) as Hw.
    unfold writeMarker. destruct (replaceFile _ _ _ _ _) as [r d]. destruct Hw as [Hr Hf]; [by apply temporary_ne|].
    split_and!; [done|done| |done|done|].
    + unfold marks in *. cbn. rewrite Eq in Hm. by rewrite map_app, <- app_assoc.
    + cbn. rewrite Hf. unfold last_success. rewrite omap_app, last_app. cbn. unfold succeeded at 1. cbn. rewrite Hr.
      destruct (write_succeeds fault); [done|]. cbn. by rewrite Hd.
Qed.
Lemma run_markers_ok d0 id now es s : Forall event_ok es -> store_ok d0 id now s -> store_ok d0 id now (run es s).
Proof.
  intros He. revert s. induction He as [|e es He _ IH]; intros s Hs; [done|]. cbn. by apply IH, step_markers_ok.
Qed.
Lemma new_marker_store_ok d id now : store_ok d id now (new_store d id now).
Proof. by split_and!. Qed.

(** *** The last mark *)

Lemma quiet_marks e s : quiet e = true -> marks (step s e) = marks s /\ s_lastDaemonExit (step s e) = s_lastDaemonExit s.
Proof.
  destruct e as [broken| |d t|t|fault uuid]; try done. intros _. cbn [step]. unfold run_write.
  destruct (writeQueue s) as [|m queue] eqn:E; [done|]. destruct (writeMarker fault uuid m (disk s)) as [r d].
  unfold marks. cbn. by rewrite E, map_app, <- app_assoc.
Qed.
Lemma quiet_run es s : Forall (fun e => quiet e = true) es ->
  marks (run es s) = marks s /\ s_lastDaemonExit (run es s) = s_lastDaemonExit s.
Proof.
  intros H. revert s. induction H as [|e es He _ IH]; intros s; [done|].
  change (run (e :: es) s) with (run es (step s e)). destruct (IH (step s e)) as [-> ->].
  by apply quiet_marks.
Qed.
Lemma marking_marks s e st ended : marking s e = Some (st, ended) -> last (marks (step s e)) =
  Some {| sessionId := s_sessionId s; startedAt := s_startedAt s; status := st;
          endedAt := match ended with Some t => if truthy t then VString t else VUndefined | None => VUndefined end;
          lastDaemonExit := s_lastDaemonExit (step s e) |}.
Proof.
  destruct e as [broken| |d t|t|fault uuid]; cbn [marking step]; try done.
  - unfold initialize_read. destruct (loading s) as [[m|]|]; [..|done]; intros [= <- <-]; rewrite marks_enqueue, last_snoc; done.
  - unfold recordDaemonSnapshot. destruct (exit_name _); [|done]. intros [= <- <-]. by rewrite marks_enqueue, last_snoc.
  - intros [= <- <-]. unfold markClean. by rewrite marks_enqueue, last_snoc.
Qed.

(** What JSON and the limit on the size allow to be read back *)
Definition stored (m : StoredExitMarker) : Prop :=
  JSON_parse (serialize m) = Ok (marker_value m) /\ utf8_len (serialize m) <= MAX_MARKER_BYTES.
Definition next_start (d : Disk) (id now : jstr) : Store := run [Initialize None; InitializeRead] (new_store d id now).

Lemma run_app es es' s : run (es ++ es') s = run es' (run es s).
Proof. apply fold_left_app. Qed.
Lemma next_start_reads d id now id' now' m : slen id <= 128 -> date now -> marker_ok id now m -> stored m ->
  d !! filePath = Some (serialize m) ->
  previousMainExit (next_start d id' now') = Some {| x_clean := bool_decide (status m = clean); x_startedAt := now;
    x_endedAt := if truthy_value (endedAt m) then Some (endedAt m) else None |} /\
  s_lastDaemonExit (next_start d id' now') = lastDaemonExit m.
Proof.
  intros Hid Hnow Hm [Hp Hs] Hd. unfold next_start, run. cbn [fold_left step]. unfold initialize, initialize_read. cbn [loading disk new_store].
  unfold readFile. rewrite Hd. unfold readMarker. destruct (Z.ltb_spec MAX_MARKER_BYTES (utf8_len (serialize m))); [lia|].
  rewrite Hp, (as_marker_value id now m) by done. destruct Hm as (_ & -> & _). done.
Qed.

(** C25: The next start learns how this run ended. When the queue of writes is
    drained, its last write succeeded and what it wrote is within the size a
    start reads, and the daemon's snapshots carry exit codes that are safe
    integers, signals of at most 512 characters and messages of at most 4,096,
    once sanitized (a longer signal makes the next start refuse the mark:
    [long_signal_loses_the_mark]), the session id has at most 128 characters and
    the times are dates: what a new start reports of this one
    is decided by the last call that marks it, whatever came before it and
    however many earlier writes failed: clean, with the time, if that was [markClean],
    and an unclean exit if it was a snapshot of the daemon or the mark of the
    start; the daemon's last exit is the one this run knew. *)
Theorem next_start_learns_the_end d id now es e es' st ended id' now' :
  let s := run es (new_store d id now) in let s' := run (es ++ e :: es') (new_store d id now) in
  slen id <= 128 -> date now -> Forall event_ok (es ++ e :: es') ->
  marking s e = Some (st, ended) -> Forall (fun e => quiet e = true) es' ->
  writeQueue s' = [] -> (exists m, last (written s') = Some (m, true) /\ stored m) ->
  previousMainExit (next_start (disk s') id' now') =
    Some {| x_clean := bool_decide (st = clean); x_startedAt := now; x_endedAt := VString <$> ended |} /\
  s_lastDaemonExit (next_start (disk s') id' now') = s_lastDaemonExit s'.
Proof.
  cbv zeta. intros Hid Hnow Hev Hmark Hq Hw (m & Hlast & Hst).
  pose proof (run_markers_ok d id now _ _ Hev (new_marker_store_ok d id now)) as (_ & _ & Hm & _ & _ & Hd).
  rewrite run_app in *. change (run (e :: es') ?s) with (run es' (step s e)) in *.
  set (s0 := run es (new_store d id now)) in *. destruct (quiet_run es' (step s0 e) Hq) as [Hms Hx].
  assert (Hs0 : s_sessionId s0 = id /\ s_startedAt s0 = now).
  { apply Forall_app in Hev as [Hev _]. by destruct (run_markers_ok d id now _ _ Hev (new_marker_store_ok d id now)) as (? & ? & _). }
  pose proof (marking_marks s0 e st ended Hmark) as Hl. rewrite <- Hms in Hl. destruct Hs0 as [Hi Hn]. rewrite Hi, Hn, <- Hx in Hl.
  assert (Hsplit : exists w, written (run es' (step s0 e)) = w ++ [(m, true)]) by by apply last_Some.
  destruct Hsplit as [w Ew]. unfold marks in Hl, Hm. rewrite Hw, app_nil_r, Ew, map_app in Hl, Hm. cbn in Hl, Hm.
  rewrite last_snoc in Hl. injection Hl as Hl. rewrite Forall_app, Forall_singleton in Hm. destruct Hm as [_ Hm].
  unfold last_success in Hd. rewrite Ew, omap_app, last_app in Hd. cbn in Hd.
  destruct (next_start_reads _ id now id' now' m Hid Hnow Hm Hst Hd) as [-> ->]. rewrite Hl. cbn. split; [|done].
  f_equal. destruct e as [broken| |d1 t|t|fault uuid]; cbn in Hmark; try done.
  - destruct (loading s0); [|done]. by injection Hmark as <- <-.
  - destruct (exit_name _); [|done]. by injection Hmark as <- <-.
  - injection Hmark as <- <-. apply Forall_app in Hev as [_ Hev]. apply Forall_cons in Hev as [[Ht _] _].
    cbn. rewrite (proj2 (truthy_true t) Ht). cbn. by rewrite (proj2 (truthy_true t) Ht).
Qed.

Lemma clean_marked es d id now : Forall (fun m => status m = clean -> exists t, MarkClean t ∈ es) (marks (run es (new_store d id now))).
Proof.
  induction es as [|e es IH] using rev_ind; [constructor|]. rewrite run_app. set (s := run es (new_store d id now)) in *.
  assert (Hmono : Forall (fun m => status m = clean -> exists t, MarkClean t ∈ es ++ [e]) (marks s)).
  { eapply Forall_impl; [exact IH|]. intros m H Hc. destruct (H Hc) as [t Ht]. exists t. apply elem_of_app. by left. }
  change (run [e] s) with (step s e).
  assert (Henq : forall st ended s', marks s' = marks s -> (st = clean -> exists t, e = MarkClean t) ->
    Forall (fun m => status m = clean -> exists t, MarkClean t ∈ es ++ [e]) (marks (enqueueWrite st ended s'))).
  { intros st ended s' Hs Hst. rewrite marks_enqueue, Hs. apply Forall_app. split; [done|]. apply Forall_singleton. cbn.
    intros Hc. destruct (Hst Hc) as [t ->]. exists t. apply elem_of_app. right. by apply list_elem_of_singleton. }
  destruct e as [broken| |d' t|t|fault uuid].
  - by rewrite (proj1 (quiet_marks (Initialize broken) s eq_refl)).
  - cbn [step]. unfold initialize_read. destruct (loading s) as [[m|]|]; [..|done]; by apply Henq.
  - cbn [step]. unfold recordDaemonSnapshot. destruct (exit_name _); [|done]. by apply Henq.
  - cbn [step]. apply Henq; [done|]. intros _. by exists t.
  - by rewrite (proj1 (quiet_marks (RunWrite fault uuid) s eq_refl)).
Qed.

(** A run that stops at any point, even in the middle of a write, is not
    taken for a clean one: once its first write has succeeded, the next start
    reports a clean exit only if [markClean] was called. *)
Theorem crash_is_noticed d id now es m id' now' x : let s := run es (new_store d id now) in
  slen id <= 128 -> date now -> Forall event_ok es -> last_success (written s) = Some m -> stored m ->
  previousMainExit (next_start (disk s) id' now') = Some x ->
  x_startedAt x = now /\ (x_clean x = true -> exists t, MarkClean t ∈ es).
Proof.
  cbv zeta. intros Hid Hnow Hev Hl Hst. pose proof (clean_marked es d id now) as Hc.
  destruct (run_markers_ok d id now _ _ Hev (new_marker_store_ok d id now)) as (_ & _ & Hm & _ & _ & Hd). rewrite Hl in Hd.
  assert (Hin : m ∈ marks (run es (new_store d id now))).
  { unfold last_success in Hl. apply last_Some_elem_of, list_elem_of_omap in Hl as ([m' b] & Hin & Hb).
    unfold succeeded in Hb. destruct b; [|done]. injection Hb as ->. unfold marks. apply elem_of_app. left.
    by apply (list_elem_of_fmap_2 fst) in Hin. }
  rewrite Forall_forall in Hm, Hc. destruct (next_start_reads _ id now id' now' m Hid Hnow (Hm m Hin) Hst Hd) as [-> _].
  intros [= <-]. cbn. split; [done|]. intros H%bool_decide_eq_true. by apply (Hc m).
Qed.

End Marker.

(** ** A run *)

Definition some_date (v : value) : bool := match v with VString _ => true | _ => false end.
Definition run_sample : list event -> Store -> Store := run sample_parse sample_stringify some_date (js "/m/last-exit.json") (js "7") None.
Definition next_sample (d : Disk) : Store :=
  next_start sample_parse sample_stringify some_date (js "/m/last-exit.json") (js "7") None d (js "b") (js "2026-08-21").
Definition first_store : Store := new_store ∅ (js "a") (js "2026-08-20").
Definition stopped_snapshot : DaemonSnapshot :=
  {| d_state := stopped; d_exitCode := Some (Some (NInt 0)); d_signal := None; d_message := Some (js "managed daemon stopped") |}.
Definition write : event := RunWrite NoFault (js "u").
Definition graceful : list event :=
  [Initialize None; InitializeRead; write; RecordDaemonSnapshot stopped_snapshot (js "t1")].
Definition graceful_end : list event := [RunWrite RenameFails (js "u"); write].

Lemma graceful_ok : Forall (event_ok some_date None) graceful.
Proof.
  repeat apply Forall_cons_2; try exact I; [|constructor].
  split_and!; [by split|exact I|right; vm_compute; discriminate|by eexists].
Qed.
Lemma next_start_learns_the_end_witness :
  previousMainExit (next_sample (disk (run_sample (graceful ++ MarkClean (js "t2") :: graceful_end) first_store))) =
  Some {| x_clean := true; x_startedAt := js "2026-08-20"; x_endedAt := Some (VString (js "t2")) |}.
Proof.
  refine (proj1 (next_start_learns_the_end sample_parse sample_stringify some_date (js "/m/last-exit.json") (js "7") None
    ∅ (js "a") (js "2026-08-20") graceful (MarkClean (js "t2")) graceful_end clean (Some (js "t2")) (js "b") (js "2026-08-21") _ _ _ _ _ _ _)).
  - vm_compute. discriminate.
  - split; [discriminate|reflexivity].
  - apply Forall_app. split; [apply graceful_ok|]. by repeat constructor.
  - vm_compute. reflexivity.
  - repeat constructor.
  - vm_compute. reflexivity.
  - eexists. split; [vm_compute; reflexivity|]. split; vm_compute; [reflexivity|discriminate].
Defined.
Lemma crash_is_noticed_witness : exists x,
  previousMainExit (next_sample (disk (run_sample graceful first_store))) = Some x /\ (x_clean x = true -> exists t, MarkClean t ∈ graceful).
Proof.
  eexists. split; [vm_compute; reflexivity|].
  refine (proj2 (crash_is_noticed sample_parse sample_stringify some_date (js "/m/last-exit.json") (js "7") None
    ∅ (js "a") (js "2026-08-20") graceful _ (js "b") (js "2026-08-21") _ _ _ _ _ _ _)).
  - vm_compute. discriminate.
  - split; [discriminate|reflexivity].
  - apply graceful_ok.
  - vm_compute. reflexivity.
  - split; vm_compute; [reflexivity|discriminate].
  - vm_compute. reflexivity.
Defined.

(** A snapshot of the daemon after [markClean] takes the clean mark back. *)
Example late_snapshot_takes_clean_back :
  (fun x => x_clean x) <$> previousMainExit (next_sample (disk (run_sample
    (graceful ++ [MarkClean (js "t2"); RecordDaemonSnapshot stopped_snapshot (js "t3"); write; write; write]) first_store))) = Some false.
Proof. vm_compute. reflexivity. Qed.
(** A signal of more than 512 characters is written but not read back, and the
    whole mark is lost. *)
Example long_signal_loses_the_mark :
  previousMainExit (next_sample (disk (run_sample
    (graceful ++ [RecordDaemonSnapshot {| d_state := crashed; d_exitCode := None; d_signal := Some (repeat 65%N 600); d_message := None |} (js "t3");
                  write; write]) first_store))) = None.
Proof. vm_compute. reflexivity. Qed.

End CrashMarkers.
