(* ===== verification/PluginManifest.v ===== *)
(** * What a plugin package may declare

    The pure part of [desktop/src/main/plugin-package.ts]: the readers of the
    manifest's fields, of the MCP servers and of the harness extension, and
    the checks for secrets and for fields that would run something. The URL
    parser, SHA-256, [JSON] and [localeCompare] are arguments. *)

From S2P Require Import Prelude JsValue JsMap JsObject Path Utf8 Regex TaskPolicy.

Module PluginManifest.

Definition MAX_MCP_SERVERS : Z := 16.
Definition MAX_HARNESS_ITEMS : Z := 64.
Definition MAX_HARNESS_EVENTS : Z := 32.
Definition MAX_ARGS : Z := 64.
Definition MAX_ARG_BYTES : Z := 1024.

(** [throw new Error(`...`)] of a message in parts *)
Definition err {A} (parts : list jstr) : result A := Throw (Error (concat parts)).
Definition size {A} (l : list A) : Z := Z.of_nat (length l).
(** [`${label}[${index}]`] *)
Definition at_index (label : jstr) (i : nat) : jstr := label ++ js "[" ++ js_int (Z.of_nat i) ++ js "]".
(** [values.map((value, index) => f(value, index))] where [f] may throw *)
Definition map_indexed {A B} (f : nat -> A -> result B) (l : list A) : result (list B) :=
  map_result (fun p => f p.1 p.2) (imap pair l).

(** ** Field readers *)

Definition text_fits (min max : Z) (s : jstr) : bool :=
  (min <=? slen s) && (slen s <=? max) && (min <=? slen (trim s)) && negb (has_control s).
Definition boundedText (v : value) (min max : Z) (label : jstr) : result jstr :=
  match v with
  | VString s => if text_fits min max s then Ok (trim s) else err [label; js " is invalid"]
  | _ => err [label; js " is invalid"]
  end.
Definition optionalBoundedText (v : value) (min max : Z) (label : jstr) : result (option jstr) :=
  match v with VUndefined => Ok None | _ => Some <$> boundedText v min max label end.
Definition optionalRecord (v : value) (label : jstr) : result (option (list (jstr * value))) :=
  match v with
  | VUndefined => Ok None
  | VObject fs => Ok (Some fs)
  | _ => err [label; js " must be an object"]
  end.

(** [/^[A-Za-z0-9][A-Za-z0-9._-]*$/] *)
Definition identifier_ok (s : jstr) : bool :=
  match s with u :: t => alnum u && forallb TaskPolicy.is_id_unit t | [] => false end.
Definition reserved (s : jstr) : bool := bool_decide (s = js "core") || starts_with s (js "core.").
Definition identifier (v : value) (label : jstr) : result jstr :=
  text ← boundedText v 1 64 label;
  if negb (identifier_ok text) then err [label; js " may contain only letters, digits, dot, underscore, and hyphen"]
  else if reserved text then err [label; js " uses the reserved core namespace"]
  else Ok text.

Definition stringArray (v : value) (label : jstr) (maxItems maxBytes : Z) : result (list jstr) :=
  match v with
  | VUndefined => Ok []
  | VArray l =>
      if maxItems <? size l then err [label; js " is invalid"]
      else map_indexed (fun i item => boundedText item 1 maxBytes (at_index label i)) l
  | _ => err [label; js " is invalid"]
  end.

(** [/^[A-Z_][A-Z0-9_]*$/] *)
Definition is_upper (u : N) : bool := ((65 <=? u) && (u <=? 90) || (u =? 95))%N.
Definition variable_ok (s : jstr) : bool :=
  match s with u :: t => is_upper u && forallb (fun u => is_upper u || is_digit u) t | [] => false end.
Definition environmentVariable (v : value) (label : jstr) : result bool :=
  text ← boundedText v 1 128 label;
  if variable_ok text then Ok true else err [label; js " is invalid"].

(** What the code reads of a parsed URL; [href] is [toString()]. *)
Record URL := { protocol : jstr; username : jstr; password : jstr; hash : jstr; href : jstr }.

(** ** Fields that are refused *)

Definition EXECUTION_FIELDS : list jstr := map js
  ["scripts"; "hooks"; "install"; "preinstall"; "postinstall"; "preuninstall"; "postuninstall";
   "binaries"; "executables"; "commands"]%string.
Definition rejectExecutionFields (manifest : list (jstr * value)) : result unit :=
  match find (fun kv => bool_decide (toLowerCase kv.1 ∈ EXECUTION_FIELDS)) manifest with
  | Some (blocked, _) => err [js "Plugin manifest execution field "; blocked; js " is not supported in Phase 1"]
  | None => Ok tt
  end.

(** [/token|secret|password|api[_-]?key|credential/], on a key in lower case *)
Definition secret_words : list regex :=
  [lit "token"; lit "secret"; lit "password"; seqs [lit "api"; opt (Class (any_of "_-")); lit "key"]; lit "credential"].
Definition secret_key : regex := alts secret_words.
Definition is_object (v : value) : bool := match v with VObject _ => true | _ => false end.
Definition secret_field (key : jstr) : bool :=
  negb (bool_decide (toLowerCase key = js "bearer_token_env_var")) && test secret_key (toLowerCase key).
Definition rejectInlineSecrets (fs : list (jstr * value)) (id : jstr) : result unit :=
  match find (fun kv => secret_field kv.1) fs with
  | Some (key, _) => err [js "MCP server "; id; js " must not embed secret field "; key; js " in the plugin package"]
  | None =>
      if existsb (fun name => is_object (field fs (js name))) ["env"; "environment"; "headers"]%string
      then err [js "MCP server "; id; js " must not embed environment or header values in the plugin package"]
      else Ok tt
  end.

(** [HARNESS_SECRET_KEY] *)
Definition harness_secret_key : regex :=
  alts ([ilit "token"; ilit "secret"; ilit "password"; seqs [ilit "api"; opt (Class (any_of "_-")); ilit "key"];
         ilit "credential"; ilit "authorization"; Seq (ilit "header") (opt (ilit "s")); ilit "environment"] ++
        [seqs [Alt InputStart (one 95); ilit "env"; Alt InputEnd (one 95)]]).
(** The first key of a value, at any depth, that names a secret, with its place *)
Fixpoint secret_inside (location : jstr) (v : value) : option (jstr * jstr) :=
  match v with
  | VArray l => (fix items i l := match l with [] => None | v :: l =>
      match secret_inside (at_index location i) v with Some k => Some k | None => items (S i) l end end) O l
  | VObject fs => (fix fields fs := match fs with [] => None | (key, child) :: fs =>
      if test harness_secret_key key then Some (location, key)
      else match secret_inside (location ++ js "." ++ key) child with Some k => Some k | None => fields fs end end) fs
  | _ => None
  end.
Definition rejectHarnessSecrets (v : value) (location : jstr) : result unit :=
  match secret_inside location v with
  | Some (place, key) => err [place; js " must not declare secret/provider credential field "; key]
  | None => Ok tt
  end.

(** ** The harness extension *)

Inductive PluginHarnessPolicyTarget := target_skill (skillId : jstr) | target_mcp.
Inductive policy_decision := ask | deny.
Record PluginHarnessPolicyInterceptor := { p_id : jstr; p_target : PluginHarnessPolicyTarget; p_decision : policy_decision }.
(** [runtime] is ["harness-job"]. *)
Record PluginHarnessJobProvider := { j_id : jstr }.
Inductive sandbox_mode := read_only | workspace_write.
#[export] Instance sandbox_mode_eq_dec : EqDecision sandbox_mode.
Proof. solve_decision. Defined.
Inductive sandbox_enforcement := partial | unavailable.
Record PluginHarnessSandboxProvider := { s_id : jstr; s_modes : list sandbox_mode; s_enforcement : sandbox_enforcement }.
Record PluginHarnessContextProvider := { c_id : jstr; c_skillId : jstr }.
(** [mode] is ["sanitized-metadata"]. *)
Record PluginHarnessEventObserver := { o_id : jstr; o_events : list jstr }.
Record PluginHarnessExtension := {
  configHash : jstr; policyInterceptors : list PluginHarnessPolicyInterceptor; jobProviders : list PluginHarnessJobProvider;
  sandboxProviders : list PluginHarnessSandboxProvider; contextProviders : list PluginHarnessContextProvider;
  eventObservers : list PluginHarnessEventObserver }.

Definition HARNESS_OBSERVER_EVENTS : list jstr := map js
  ["tool/requested"; "tool/approved"; "tool/started"; "tool/result"; "tool/failed"; "job/started"; "job/completed";
   "job/failed"; "approval/requested"; "approval/resolved"; "checkpoint/created"; "run/completed"; "run/cancelled";
   "run/failed"; "run/stale"]%string.

Definition harnessArray (v : value) (label : string) : result (list value) :=
  match v with
  | VUndefined => Ok []
  | VArray l => if MAX_HARNESS_ITEMS <? size l then err [js "Plugin Harness "; js label; js " is invalid"] else Ok l
  | _ => err [js "Plugin Harness "; js label; js " is invalid"]
  end.
Definition harnessRecord (v : value) (label : jstr) : result (list (jstr * value)) :=
  match is_record v with Some fs => Ok fs | None => err [js "Plugin Harness "; label; js " must be an object"] end.
Definition item_label (name : string) (i : nat) : jstr := at_index (js name) i.
(** [`Harness ${name} ${index} id`] *)
Definition id_label (name : string) (i : nat) : jstr := concat [js "Harness "; js name; js " "; js_int (Z.of_nat i); js " id"].

Definition parseHarnessPolicy (skillIds : list jstr) (hasMcp : bool) (i : nat) (v : value) : result PluginHarnessPolicyInterceptor :=
  item ← harnessRecord v (item_label "policyInterceptors" i);
  id ← identifier (field item (js "id")) (id_label "policy" i);
  let label := js "Harness policy " ++ id in
  match is_record (field item (js "target")) with
  | None => err [label; js " target is invalid"]
  | Some target =>
      kind ← boundedText (field target (js "kind")) 1 32 (label ++ js " target kind");
      target ← (if bool_decide (kind = js "skill") then
                  (skillId ← identifier (field target (js "skillId")) (label ++ js " skillId");
                   if bool_decide (skillId ∈ skillIds) then Ok (target_skill skillId)
                   else err [label; js " references unknown skill "; skillId])
                else if bool_decide (kind = js "mcp") then
                  (if hasMcp then Ok target_mcp else err [label; js " targets MCP but the plugin has no MCP component"])
                else err [label; js " target kind must be skill or mcp"]);
      decision ← boundedText (field item (js "decision")) 1 16 (label ++ js " decision");
      if bool_decide (decision = js "ask") then Ok {| p_id := id; p_target := target; p_decision := ask |}
      else if bool_decide (decision = js "deny") then Ok {| p_id := id; p_target := target; p_decision := deny |}
      else err [label; js " may only tighten central policy to ask or deny"]
  end.

Definition parseHarnessJobProvider (i : nat) (v : value) : result PluginHarnessJobProvider :=
  item ← harnessRecord v (item_label "jobProviders" i);
  id ← identifier (field item (js "id")) (id_label "job provider" i);
  if is_string (field item (js "runtime")) (js "harness-job") then Ok {| j_id := id |}
  else err [js "Harness job provider "; id; js " must use the existing harness-job runtime"].

Definition sandbox_mode_of (label : jstr) (i : nat) (v : value) : result sandbox_mode :=
  text ← boundedText v 1 32 (at_index (label ++ js " mode") i);
  if bool_decide (text = js "read-only") then Ok read_only
  else if bool_decide (text = js "workspace-write") then Ok workspace_write
  else err [label; js " cannot register danger-full-access"].
Definition parseHarnessSandboxProvider (i : nat) (v : value) : result PluginHarnessSandboxProvider :=
  item ← harnessRecord v (item_label "sandboxProviders" i);
  id ← identifier (field item (js "id")) (id_label "sandbox provider" i);
  let label := js "Harness sandbox provider " ++ id in
  match field item (js "modes") with
  | VArray l =>
      if (size l =? 0) || (2 <? size l) then err [label; js " modes are invalid"] else
      modes ← map_indexed (sandbox_mode_of label) l;
      if negb (bool_decide (NoDup modes)) then err [label; js " contains duplicate modes"] else
      enforcement ← boundedText (field item (js "enforcement")) 1 32 (label ++ js " enforcement");
      if bool_decide (enforcement = js "partial") then Ok {| s_id := id; s_modes := modes; s_enforcement := partial |}
      else if bool_decide (enforcement = js "unavailable") then Ok {| s_id := id; s_modes := modes; s_enforcement := unavailable |}
      else err [label; js " cannot claim trusted full enforcement"]
  | _ => err [label; js " modes are invalid"]
  end.

Definition parseHarnessContextProvider (skillIds : list jstr) (i : nat) (v : value) : result PluginHarnessContextProvider :=
  item ← harnessRecord v (item_label "contextProviders" i);
  id ← identifier (field item (js "id")) (id_label "context provider" i);
  let label := js "Harness context provider " ++ id in
  skillId ← identifier (field item (js "skillId")) (label ++ js " skillId");
  if bool_decide (skillId ∈ skillIds) then Ok {| c_id := id; c_skillId := skillId |}
  else err [label; js " references unknown skill "; skillId].

Definition observer_event (label : jstr) (i : nat) (v : value) : result jstr :=
  text ← boundedText v 1 64 (at_index (label ++ js " event") i);
  if bool_decide (text ∈ HARNESS_OBSERVER_EVENTS) then Ok text else err [label; js " uses unsupported event "; text].
Definition parseHarnessEventObserver (i : nat) (v : value) : result PluginHarnessEventObserver :=
  item ← harnessRecord v (item_label "eventObservers" i);
  id ← identifier (field item (js "id")) (id_label "event observer" i);
  let label := js "Harness event observer " ++ id in
  if negb (is_string (field item (js "mode")) (js "sanitized-metadata"))
  then err [label; js " may receive sanitized-metadata only"] else
  match field item (js "events") with
  | VArray l =>
      if (size l =? 0) || (MAX_HARNESS_EVENTS <? size l) then err [label; js " events are invalid"] else
      events ← map_indexed (observer_event label) l;
      if negb (bool_decide (NoDup events)) then err [label; js " contains duplicate events"]
      else Ok {| o_id := id; o_events := events |}
  | _ => err [label; js " events are invalid"]
  end.

(** [registrations] *)
Definition registrations (h : PluginHarnessExtension) : list jstr :=
  map (fun x => js "policy:" ++ p_id x) (policyInterceptors h) ++ map (fun x => js "job:" ++ j_id x) (jobProviders h) ++
  map (fun x => js "sandbox:" ++ s_id x) (sandboxProviders h) ++ map (fun x => js "context:" ++ c_id x) (contextProviders h) ++
  map (fun x => js "observer:" ++ o_id x) (eventObservers h).

(** ** The parsers that need the outside *)

Inductive transport := streamable_http (url : jstr) | stdio (command : jstr) (args : list jstr).
Inductive mcp_auth := auth_none | auth_bearer_env | auth_unknown.
Record PluginMcpComponentView := { m_id : jstr; m_transport : transport; m_auth : mcp_auth; m_definitionHash : jstr }.

Section Parsers.
Context (JSON_parse : jstr -> result value) (JSON_stringify : value -> jstr).
Context (URL_parse : jstr -> option URL) (sha256 : jstr -> jstr) (localeCompare : jstr -> jstr -> Z).

Definition NUL : N := 0.
Definition digest (parts : list jstr) : jstr := sha256 (join [NUL] parts).

Definition parseJsonRecord (raw label : jstr) : result (list (jstr * value)) :=
  match JSON_parse raw with
  | Throw _ => err [label; js " is not valid JSON"]
  | Ok v => match is_record v with Some fs => Ok fs | None => err [label; js " must be a JSON object"] end
  end.

Definition secureHttpsUrl (v : value) (label : jstr) : result jstr :=
  text ← boundedText v 1 2048 label;
  match URL_parse text with
  | None => err [label; js " is invalid"]
  | Some u =>
      if negb (bool_decide (protocol u = js "https:")) || truthy (username u) || truthy (password u) || truthy (hash u)
      then err [label; js " must be credential-free HTTPS"] else Ok (href u)
  end.

Definition auth_name (a : mcp_auth) : jstr :=
  match a with auth_none => js "none" | auth_bearer_env => js "bearer-env" | auth_unknown => js "unknown" end.
Definition http_component (id url : jstr) (auth : mcp_auth) : PluginMcpComponentView :=
  {| m_id := id; m_transport := streamable_http url; m_auth := auth;
     m_definitionHash := digest [JSON_stringify (VObject
       [(js "type", VString (js "streamable-http")); (js "url", VString url); (js "auth", VString (auth_name auth))])] |}.
Definition is_undefined (v : value) : bool := match v with VUndefined => true | _ => false end.

(** [/[/\]/.test(command) || command.startsWith("-")] *)
Definition command_is_path (command : jstr) : bool :=
  existsb (fun u => (u =? 47) || (u =? 92))%N command || starts_with command (js "-").
Definition parseMcpServer (entry : jstr * value) : result PluginMcpComponentView :=
  let (name, candidate) := entry in
  id ← identifier (VString name) (js "MCP server id");
  let label := js "MCP server " ++ id in
  match is_record candidate with
  | None => err [label; js " configuration is invalid"]
  | Some fs =>
      let get key := field fs (js key) in
      _ ← rejectInlineSecrets fs id;
      if is_string (get "type"%string) (js "http") || is_string (get "type"%string) (js "streamable-http") || negb (is_undefined (get "url"%string)) then
        (url ← secureHttpsUrl (get "url"%string) (label ++ js " URL");
         auth ← (if is_undefined (get "bearer_token_env_var"%string) then Ok auth_none
                 else (_ ← environmentVariable (get "bearer_token_env_var"%string) (label ++ js " bearer token environment variable");
                       Ok auth_bearer_env));
         Ok (http_component id url auth))
      else if is_string (get "type"%string) (js "stdio") || negb (is_undefined (get "command"%string)) then
        (command ← boundedText (get "command"%string) 1 1024 (label ++ js " command");
         if command_is_path command then err [label; js " command must be a reviewed executable name, not a path"] else
         args ← stringArray (get "args"%string) (label ++ js " args") MAX_ARGS MAX_ARG_BYTES;
         Ok {| m_id := id; m_transport := stdio command args; m_auth := auth_unknown;
               m_definitionHash := digest [JSON_stringify (VObject
                 [(js "type", VString (js "stdio")); (js "command", VString command); (js "args", VArray (map VString args))])] |})
      else err [label; js " uses an unsupported transport"]
  end.
Definition parseMcpServers (raw : jstr) : result (list PluginMcpComponentView) :=
  parsed ← parseJsonRecord raw (js "plugin MCP config");
  let config := match is_record (field parsed (js "mcpServers")) with Some c => c | None => parsed end in
  if MAX_MCP_SERVERS <? size config then err [js "Plugin package may contain at most 16 MCP servers"]
  else map_result parseMcpServer (sort_by (fun l r => localeCompare l.1 r.1) config).

Definition parseHarnessExtension (raw : jstr) (skillIds : list jstr) (hasMcp : bool) : result PluginHarnessExtension :=
  parsed ← parseJsonRecord raw (js "plugin Harness config");
  _ ← rejectHarnessSecrets (VObject parsed) (js "plugin Harness config");
  policies ← (l ← harnessArray (field parsed (js "policyInterceptors")) "policyInterceptors"; map_indexed (parseHarnessPolicy skillIds hasMcp) l);
  jobs ← (l ← harnessArray (field parsed (js "jobProviders")) "jobProviders"; map_indexed parseHarnessJobProvider l);
  sandboxes ← (l ← harnessArray (field parsed (js "sandboxProviders")) "sandboxProviders"; map_indexed parseHarnessSandboxProvider l);
  contexts ← (l ← harnessArray (field parsed (js "contextProviders")) "contextProviders"; map_indexed (parseHarnessContextProvider skillIds) l);
  observers ← (l ← harnessArray (field parsed (js "eventObservers")) "eventObservers"; map_indexed parseHarnessEventObserver l);
  let h := {| configHash := digest [raw]; policyInterceptors := policies; jobProviders := jobs; sandboxProviders := sandboxes;
              contextProviders := contexts; eventObservers := observers |} in
  if negb (bool_decide (NoDup (registrations h))) then err [js "Plugin Harness config contains duplicate registrations"]
  else Ok h.

(** [SOURCENERVE_APP_MCP_BRIDGES]: the one key is also the app's and the
    server's id. *)
Definition BRIDGE_URL : jstr := js "https://mcp.atlassian.com/v1/mcp/authv2".
Definition SOURCENERVE_APP_MCP_BRIDGES : list (jstr * jstr) := [(js "atlassian-rovo", BRIDGE_URL)].
(** [/^connector_[A-Za-z0-9]+$/] *)
Definition connector_ok (s : jstr) : bool :=
  starts_with s (js "connector_") && truthy (drop 10 s) && forallb alnum (drop 10 s).
(** The bridge an id finds, by its app key, server id and url: of an inherited
    property they are all [undefined]. *)
Definition bridge_of (pluginId : jstr) : option (option (jstr * jstr * jstr)) :=
  match get_property SOURCENERVE_APP_MCP_BRIDGES pluginId with
  | Own url => Some (Some (pluginId, pluginId, url))
  | FromPrototype => Some None
  | Undefined => None
  end.
Definition sourceNerveAppMcpBridge (pluginId raw : jstr) : result (option PluginMcpComponentView) :=
  let label := js "Plugin " ++ pluginId in
  match bridge_of pluginId with
  | None => Ok None
  | Some bridge =>
      let '(appKey, mcpId, url) := default (js "undefined", js "undefined", []) bridge in
      parsed ← parseJsonRecord raw (js "plugin " ++ pluginId ++ js " app config");
      match is_record (field parsed (js "apps")) with
      | None => err [label; js " app config must declare apps"]
      | Some apps =>
          match is_record (field apps appKey) with
          | None => err [label; js " app config is missing "; appKey]
          | Some app =>
              connectorId ← boundedText (field app (js "id")) 1 256 (label ++ js " host connector id");
              if negb (connector_ok connectorId) then err [label; js " host connector id is invalid"] else
              url ← secureHttpsUrl (match bridge with Some _ => VString url | None => VUndefined end)
                      (label ++ js " SourceNerve MCP bridge URL");
              Ok (Some (http_component mcpId url auth_none))
          end
      end
  end.

End Parsers.

(** ** What the readers accept *)

Lemma trim_slen s : slen (trim s) <= slen s.
Proof. destruct (trim_slice s) as (n & m & ->). unfold slen. rewrite length_take, length_drop. lia. Qed.
Lemma trim_no_control s : has_control s = false -> has_control (trim s) = false.
Proof.
  destruct (trim_slice s) as (n & m & ->). intros H. apply existsb_take. rewrite <- (take_drop n s) in H.
  unfold has_control in H. rewrite existsb_app in H. by apply orb_false_iff in H as [_ H].
Qed.

(** Bounded text on one line *)
Definition line_ok (min max : Z) (s : jstr) : Prop := min <= slen s <= max /\ has_control s = false.
Lemma boundedText_ok v min max label s : boundedText v min max label = Ok s -> line_ok min max s.
Proof.
  unfold boundedText. destruct v as [| | | |t| |]; try done. destruct (text_fits min max t) eqn:E; [|done]. intros [= <-].
  unfold text_fits in E. to_prop. pose proof (trim_slen t). split; [lia|by apply trim_no_control].
Qed.
Lemma optionalBoundedText_ok v min max label o s : optionalBoundedText v min max label = Ok o -> o = Some s -> line_ok min max s.
Proof.
  unfold optionalBoundedText. intros H ->. destruct v; try done; apply fmap_Ok in H as (t & H & [= <-]); by apply boundedText_ok in H.
Qed.

(** A name a plugin may use: bounded, of a fixed alphabet, and not in the
    application's own namespace *)
Definition id_ok (s : jstr) : Prop := slen s <= 64 /\ identifier_ok s = true /\ reserved s = false.
Lemma identifier_id_ok v label s : identifier v label = Ok s -> id_ok s.
Proof.
  unfold identifier. intros (t & Ht & H)%bind_Ok. apply boundedText_ok in Ht as [Hl _].
  destruct (identifier_ok t) eqn:E1; [|done]. destruct (reserved t) eqn:E2; [done|]. injection H as <-. split_and!; (done || lia).
Qed.

Lemma map_indexed_Forall {A B} (P : B -> Prop) (f : nat -> A -> result B) l k :
  (forall i a b, f i a = Ok b -> P b) -> map_indexed f l = Ok k -> Forall P k /\ length k = length l.
Proof.
  intros Hf H. unfold map_indexed in H. split.
  - eapply map_result_Forall; [exact H|]. intros [i a] b. apply Hf.
  - apply map_result_length in H. by rewrite H, length_imap.
Qed.

(** *** Secrets *)

(** A key of an object that lies in a value, at any depth *)
Inductive key_inside (key : jstr) : value -> Prop :=
| key_here fs child : (key, child) ∈ fs -> key_inside key (VObject fs)
| key_in_field fs k child : (k, child) ∈ fs -> key_inside key child -> key_inside key (VObject fs)
| key_in_item l v : v ∈ l -> key_inside key v -> key_inside key (VArray l).

Lemma secret_inside_complete : forall v location, secret_inside location v = None ->
  forall key, key_inside key v -> test harness_secret_key key = false.
Proof.
  fix IH 1. intros [| | | | |l|fs] location H key Hk; try by inversion Hk.
  - assert (Hin : exists v, v ∈ l /\ key_inside key v) by (inversion Hk; subst; by eexists).
    clear Hk. revert H Hin. cbn [secret_inside]. generalize O. induction l as [|v l IHl]; intros i H (w & Hw & Hk).
    + by apply elem_of_nil in Hw.
    + destruct (secret_inside _ v) eqn:E; [done|]. apply elem_of_cons in Hw as [->|Hw]; [by eapply IH|].
      eapply IHl; [exact H|]. by exists w.
  - assert (Hin : exists k child, (k, child) ∈ fs /\ (k = key \/ key_inside key child)).
    { inversion Hk; subst; eexists _, _; (split; [done|]); [by left|by right]. }
    clear Hk. revert H Hin. cbn [secret_inside]. induction fs as [|[k' c'] fs IHl]; intros H (k & child & Hw & Hk).
    + by apply elem_of_nil in Hw.
    + destruct (test harness_secret_key k') eqn:Et; [done|]. destruct (secret_inside _ c') eqn:E; [done|].
      apply elem_of_cons in Hw as [[= -> ->]|Hw]; [destruct Hk as [->|Hk]; [done|by eapply IH]|].
      eapply IHl; [exact H|]. by exists k, child.
Qed.

(** *** The harness extension *)

Definition policy_ok (skillIds : list jstr) (hasMcp : bool) (x : PluginHarnessPolicyInterceptor) : Prop :=
  id_ok (p_id x) /\ match p_target x with target_skill s => s ∈ skillIds | target_mcp => hasMcp = true end.
Definition sandbox_ok (x : PluginHarnessSandboxProvider) : Prop :=
  id_ok (s_id x) /\ s_modes x <> [] /\ NoDup (s_modes x).
Definition context_ok (skillIds : list jstr) (x : PluginHarnessContextProvider) : Prop := id_ok (c_id x) /\ c_skillId x ∈ skillIds.
Definition observer_ok (x : PluginHarnessEventObserver) : Prop :=
  id_ok (o_id x) /\ o_events x <> [] /\ NoDup (o_events x) /\ Forall (fun e => e ∈ HARNESS_OBSERVER_EVENTS) (o_events x).
Definition harness_ok (skillIds : list jstr) (hasMcp : bool) (h : PluginHarnessExtension) : Prop :=
  Forall (policy_ok skillIds hasMcp) (policyInterceptors h) /\ Forall (fun x => id_ok (j_id x)) (jobProviders h) /\
  Forall sandbox_ok (sandboxProviders h) /\ Forall (context_ok skillIds) (contextProviders h) /\
  Forall observer_ok (eventObservers h) /\ NoDup (registrations h) /\ size (registrations h) <= 5 * MAX_HARNESS_ITEMS.

(** What the remaining branches of a reader return *)
Ltac reader := repeat match goal with
  | H : (_ ≫= _) = Ok _ |- _ => apply bind_Ok in H as (? & ? & H)
  | H : identifier _ _ = Ok _ |- _ => apply identifier_id_ok in H
  | H : (if ?b then _ else _) = Ok _ |- _ => destruct b eqn:?; try discriminate H
  | H : match ?x with _ => _ end = Ok _ |- _ => destruct x eqn:?; try discriminate H
  | H : Ok _ = Ok _ |- _ => injection H as <-
  end.

Lemma parseHarnessPolicy_ok skillIds hasMcp i v x : parseHarnessPolicy skillIds hasMcp i v = Ok x -> policy_ok skillIds hasMcp x.
Proof.
  unfold parseHarnessPolicy. cbv zeta. intros H. reader; split; cbn; try done; by eapply bool_decide_eq_true_1.
Qed.
Lemma parseHarnessJobProvider_ok i v x : parseHarnessJobProvider i v = Ok x -> id_ok (j_id x).
Proof. unfold parseHarnessJobProvider. intros H. by reader. Qed.
Lemma nonempty_of_size {A B} (l : list A) (k : list B) n : (size l =? 0) || n = false -> length k = length l -> k <> [].
Proof. intros [H _]%orb_false_iff Hl ->. apply Z.eqb_neq in H. unfold size in H. simpl in Hl. lia. Qed.
Lemma map_indexed_length {A B} (f : nat -> A -> result B) l k : map_indexed f l = Ok k -> length k = length l.
Proof. intros H. by destruct (map_indexed_Forall (fun _ => True) f l k (fun _ _ _ _ => I) H). Qed.
Lemma no_duplicates {A} `{EqDecision A} (l : list A) : negb (bool_decide (NoDup l)) = false -> NoDup l.
Proof. intros H%negb_false_iff. by apply bool_decide_eq_true in H. Qed.
Lemma parseHarnessSandboxProvider_ok i v x : parseHarnessSandboxProvider i v = Ok x -> sandbox_ok x.
Proof.
  unfold parseHarnessSandboxProvider. cbv zeta. intros H.
  reader; (split_and!; cbn; [done|eapply nonempty_of_size, map_indexed_length; done|by apply no_duplicates]).
Qed.
Lemma parseHarnessContextProvider_ok skillIds i v x : parseHarnessContextProvider skillIds i v = Ok x -> context_ok skillIds x.
Proof. unfold parseHarnessContextProvider. cbv zeta. intros H. reader. split; [done|]. by eapply bool_decide_eq_true_1. Qed.
Lemma parseHarnessEventObserver_ok i v x : parseHarnessEventObserver i v = Ok x -> observer_ok x.
Proof.
  unfold parseHarnessEventObserver. cbv zeta. intros H. reader. split_and!; cbn; [done| |by apply no_duplicates|].
  - eapply nonempty_of_size, map_indexed_length; done.
  - eapply map_indexed_Forall; [|done]. intros j w e He. unfold observer_event in He. reader. by eapply bool_decide_eq_true_1.
Qed.

Lemma harness_items_ok {A} (P : A -> Prop) (f : nat -> value -> result A) v label k :
  (forall i v x, f i v = Ok x -> P x) -> (l ← harnessArray v label; map_indexed f l) = Ok k ->
  Forall P k /\ size k <= MAX_HARNESS_ITEMS.
Proof.
  intros Hf (l & Hl & H)%bind_Ok. split; [by eapply map_indexed_Forall|].
  apply map_indexed_length in H. unfold size. rewrite H. unfold harnessArray in Hl.
  destruct v; try done; [injection Hl as <-; done|]. destruct (_ <? _) eqn:E; [done|]. injection Hl as <-. by apply Z.ltb_ge in E.
Qed.
Lemma size_app {A} (l k : list A) : size (l ++ k) = size l + size k.
Proof. unfold size. rewrite length_app. lia. Qed.
Lemma size_map {A B} (f : A -> B) l : size (map f l) = size l.
Proof. unfold size. by rewrite length_map. Qed.

(** *** What an accepted harness extension says

    Relations between the JSON value of an item and what is returned for it,
    stated of the file and not of the reader. *)

(** A field that is a text of bounded length on one line, read without the
    white space around it *)
Definition says (v : value) (min max : Z) (s : jstr) : Prop :=
  exists t, v = VString t /\ text_fits min max t = true /\ s = trim t.
Definition names (v : value) (s : jstr) : Prop := says v 1 64 s /\ identifier_ok s = true /\ reserved s = false.
Definition decision_text (d : policy_decision) : jstr := match d with ask => js "ask" | deny => js "deny" end.
Definition mode_text (m : sandbox_mode) : jstr := match m with read_only => js "read-only" | workspace_write => js "workspace-write" end.
Definition enforcement_text (e : sandbox_enforcement) : jstr := match e with partial => js "partial" | unavailable => js "unavailable" end.

Definition target_says (skillIds : list jstr) (hasMcp : bool) (v : value) (t : PluginHarnessPolicyTarget) : Prop :=
  exists fs, v = VObject fs /\
  match t with
  | target_skill s => says (field fs (js "kind")) 1 32 (js "skill") /\ names (field fs (js "skillId")) s /\ s ∈ skillIds
  | target_mcp => says (field fs (js "kind")) 1 32 (js "mcp") /\ hasMcp = true
  end.
Definition policy_says (skillIds : list jstr) (hasMcp : bool) (v : value) (x : PluginHarnessPolicyInterceptor) : Prop :=
  exists fs, v = VObject fs /\ names (field fs (js "id")) (p_id x) /\
  target_says skillIds hasMcp (field fs (js "target")) (p_target x) /\
  says (field fs (js "decision")) 1 16 (decision_text (p_decision x)).
Definition job_says (v : value) (x : PluginHarnessJobProvider) : Prop :=
  exists fs, v = VObject fs /\ names (field fs (js "id")) (j_id x) /\ field fs (js "runtime") = VString (js "harness-job").
(** A list of distinct items, at least one and at most [max] *)
Definition lists {A} (max : Z) (R : value -> A -> Prop) (v : value) (l : list A) : Prop :=
  exists vs, v = VArray vs /\ 0 < size vs <= max /\ Forall2 R vs l /\ NoDup l.
Definition sandbox_says (v : value) (x : PluginHarnessSandboxProvider) : Prop :=
  exists fs, v = VObject fs /\ names (field fs (js "id")) (s_id x) /\
  lists 2 (fun v m => says v 1 32 (mode_text m)) (field fs (js "modes")) (s_modes x) /\
  says (field fs (js "enforcement")) 1 32 (enforcement_text (s_enforcement x)).
Definition context_says (skillIds : list jstr) (v : value) (x : PluginHarnessContextProvider) : Prop :=
  exists fs, v = VObject fs /\ names (field fs (js "id")) (c_id x) /\
  names (field fs (js "skillId")) (c_skillId x) /\ c_skillId x ∈ skillIds.
Definition observer_says (v : value) (x : PluginHarnessEventObserver) : Prop :=
  exists fs, v = VObject fs /\ names (field fs (js "id")) (o_id x) /\ field fs (js "mode") = VString (js "sanitized-metadata") /\
  lists MAX_HARNESS_EVENTS (fun v e => says v 1 64 e /\ e ∈ HARNESS_OBSERVER_EVENTS) (field fs (js "events")) (o_events x).
(** One of the five lists: absent, or as long as what is returned *)
Definition section_says {A} (R : value -> A -> Prop) (v : value) (l : list A) : Prop :=
  (v = VUndefined /\ l = []) \/ exists vs, v = VArray vs /\ size vs <= MAX_HARNESS_ITEMS /\ Forall2 R vs l.
Definition extension_says (skillIds : list jstr) (hasMcp : bool) (file : list (jstr * value)) (h : PluginHarnessExtension) : Prop :=
  section_says (policy_says skillIds hasMcp) (field file (js "policyInterceptors")) (policyInterceptors h) /\
  section_says job_says (field file (js "jobProviders")) (jobProviders h) /\
  section_says sandbox_says (field file (js "sandboxProviders")) (sandboxProviders h) /\
  section_says (context_says skillIds) (field file (js "contextProviders")) (contextProviders h) /\
  section_says observer_says (field file (js "eventObservers")) (eventObservers h).

Lemma secret_inside_None v location :
  secret_inside location v = None <-> forall key, key_inside key v -> test harness_secret_key key = false.
Proof.
  split; [apply secret_inside_complete|]. revert location. revert v. fix IH 1. intros [| | | | |l|fs] location H; try done; cbn [secret_inside].
  - generalize O. induction l as [|v l IHl]; intros i; [done|]. rewrite IH.
    + apply IHl. intros key Hk. apply H. inversion Hk; subst. eapply key_in_item; [by apply elem_of_cons; right|done].
    + intros key Hk. apply H. eapply key_in_item; [by apply elem_of_cons; left|done].
  - induction fs as [|[k c] fs IHl]; [done|]. rewrite (H k) by (eapply key_here; by apply elem_of_cons; left). rewrite IH.
    + apply IHl. intros key Hk. apply H. inversion Hk; subst; [eapply key_here|eapply key_in_field; [|done]]; by apply elem_of_cons; right.
    + intros key Hk. apply H. eapply key_in_field; [by apply elem_of_cons; left|done].
Qed.

Lemma boundedText_iff v min max label s : boundedText v min max label = Ok s <-> says v min max s.
Proof.
  unfold boundedText, says. split.
  - destruct v as [| | | |t| |]; try done. destruct (text_fits min max t) eqn:E; [|done]. intros [= <-]. by exists t.
  - intros (t & -> & -> & ->). done.
Qed.
Lemma identifier_iff v label s : identifier v label = Ok s <-> names v s.
Proof.
  unfold identifier, names. rewrite bind_Ok. setoid_rewrite boundedText_iff. split.
  - intros (t & Ht & H). destruct (identifier_ok t) eqn:E1; [|done]. destruct (reserved t) eqn:E2; [done|]. by injection H as <-.
  - intros (Ht & E1 & E2). exists s. by rewrite E1, E2.
Qed.
Lemma says_fun v min max s t : says v min max s -> says v min max t -> s = t.
Proof. intros (a & -> & _ & ->) (b & [= ->] & _ & ->). done. Qed.
Lemma harnessRecord_iff v label fs : harnessRecord v label = Ok fs <-> v = VObject fs.
Proof. unfold harnessRecord. split; [destruct v; try done; by intros [= ->]|by intros ->]. Qed.
Lemma is_record_iff v fs : is_record v = Some fs <-> v = VObject fs.
Proof. split; [destruct v; try done; by intros [= ->]|by intros ->]. Qed.
Lemma is_string_iff v s : is_string v s = true <-> v = VString s.
Proof. unfold is_string. destruct v; try done. rewrite bool_decide_eq_true. split; [by intros ->|by intros [= ->]]. Qed.
Lemma map_indexed_iff {A B} (R : A -> B -> Prop) (f : nat -> A -> result B) l k :
  (forall i a b, f i a = Ok b <-> R a b) -> map_indexed f l = Ok k <-> Forall2 R l k.
Proof.
  intros Hf. unfold map_indexed. rewrite map_result_Ok. change (@pair nat A) with (fun i => @pair nat A ((fun i => i) i)).
  generalize (fun i : nat => i). revert k. induction l as [|a l IH]; intros k g; cbn [imap].
  - split; intros H; by apply Forall2_nil_inv_l in H as ->.
  - destruct k as [|b k]; [split; intros H; by apply Forall2_cons_nil_inv in H|]. rewrite !Forall2_cons. cbn. rewrite Hf.
    specialize (IH k (g ∘ S)). unfold compose in *. by rewrite IH.
Qed.

(** A reader that has returned, read as what its input says *)
Ltac spell := repeat match goal with
  | H : (_ ≫= _) = Ok _ |- _ => apply bind_Ok in H as (? & ? & H)
  | H : harnessRecord _ _ = Ok _ |- _ => apply harnessRecord_iff in H
  | H : is_record _ = Some _ |- _ => apply is_record_iff in H
  | H : is_string _ _ = true |- _ => apply is_string_iff in H
  | H : negb (is_string _ _) = false |- _ => apply negb_false_iff, is_string_iff in H
  | H : identifier _ _ = Ok _ |- _ => apply identifier_iff in H
  | H : boundedText _ _ _ _ = Ok _ |- _ => apply boundedText_iff in H
  | H : negb (bool_decide (NoDup _)) = false |- _ => apply no_duplicates in H
  | H : bool_decide _ = true |- _ => apply bool_decide_eq_true in H
  | H : (if ?b then _ else _) = Ok _ |- _ => destruct b eqn:?; try discriminate H
  | H : match ?x with _ => _ end = Ok _ |- _ => destruct x eqn:?; try discriminate H
  | H : Ok _ = Ok _ |- _ => injection H as <-
  | _ => progress subst
  end.
(** The other way: a reader computed from what its input says *)
Ltac read := repeat (first
  [ rewrite (proj2 (identifier_iff _ _ _)) by eassumption
  | rewrite (proj2 (boundedText_iff _ _ _ _ _)) by eassumption
  | rewrite bool_decide_true by done
  | rewrite bool_decide_false by done
  | progress cbn [mbind result_bind harnessRecord is_record negb] ]).

Lemma harness_list_iff {A} `{EqDecision A} (R : value -> A -> Prop) (f : nat -> value -> result A) max l k :
  (forall i v x, f i v = Ok x <-> R v x) ->
  ((size l =? 0) || (max <? size l) = false /\ map_indexed f l = Ok k /\ NoDup k) <-> lists max R (VArray l) k.
Proof.
  intros Hf. rewrite (map_indexed_iff R f l k Hf). unfold lists. rewrite orb_false_iff, Z.eqb_neq, Z.ltb_ge.
  assert (0 <= size l) by (unfold size; lia). split.
  - intros ([? ?] & ? & ?). exists l. split_and!; (done || lia).
  - intros (vs & [= <-] & ? & ? & ?). split_and!; (done || lia).
Qed.
Lemma parseHarnessPolicy_iff skillIds hasMcp i v x : parseHarnessPolicy skillIds hasMcp i v = Ok x <-> policy_says skillIds hasMcp v x.
Proof.
  split.
  - unfold parseHarnessPolicy. cbv zeta. intros H. spell; (eexists; split; [done|split; [done|split; [eexists; split; [eassumption|]|done]]]); cbn; by split_and?.
  - intros (fs & -> & Hid & (t & Ht & Hk) & Hd). unfold parseHarnessPolicy. cbv zeta. read. rewrite Ht. cbn [is_record].
    destruct x as [id [s|] d]; cbn in *; [destruct Hk as (Hk & Hs & Hin)|destruct Hk as [Hk ->]]; destruct d; cbn [decision_text] in Hd; by read.
Qed.
Lemma parseHarnessJobProvider_iff i v x : parseHarnessJobProvider i v = Ok x <-> job_says v x.
Proof.
  split.
  - unfold parseHarnessJobProvider. intros H. spell. by eexists.
  - intros (fs & -> & Hid & Hr). unfold parseHarnessJobProvider. read. rewrite Hr. by destruct x.
Qed.
Lemma sandbox_mode_of_iff label i v m : sandbox_mode_of label i v = Ok m <-> says v 1 32 (mode_text m).
Proof.
  unfold sandbox_mode_of. split.
  - intros H. by spell.
  - intros H. destruct m; cbn [mode_text] in H; by read.
Qed.
Lemma parseHarnessSandboxProvider_iff i v x : parseHarnessSandboxProvider i v = Ok x <-> sandbox_says v x.
Proof.
  split.
  - unfold parseHarnessSandboxProvider. cbv zeta. intros H. spell; (eexists; split; [done|split; [done|split; [|done]]]);
      cbn [s_modes]; match goal with H : field _ _ = VArray _ |- _ => rewrite H end;
      match goal with H : map_indexed (sandbox_mode_of ?l) _ = _ |- _ => apply (harness_list_iff _ _ _ _ _ (sandbox_mode_of_iff l)); by split_and! end.
  - intros (fs & -> & Hid & Hl & He). unfold parseHarnessSandboxProvider. cbv zeta. read.
    pose proof Hl as (vs & Hm & _). rewrite Hm in Hl |- *.
    apply (harness_list_iff _ _ _ _ _ (sandbox_mode_of_iff (js "Harness sandbox provider " ++ s_id x))) in Hl as (-> & -> & Hd).
    destruct x as [id ms []]; cbn in *; by read.
Qed.
Lemma parseHarnessContextProvider_iff skillIds i v x : parseHarnessContextProvider skillIds i v = Ok x <-> context_says skillIds v x.
Proof.
  split.
  - unfold parseHarnessContextProvider. cbv zeta. intros H. spell. by eexists.
  - intros (fs & -> & Hid & Hs & Hin). unfold parseHarnessContextProvider. cbv zeta. read. by destruct x.
Qed.
Lemma observer_event_iff label i v e : observer_event label i v = Ok e <-> says v 1 64 e /\ e ∈ HARNESS_OBSERVER_EVENTS.
Proof.
  unfold observer_event. split.
  - intros H. by spell.
  - intros [H Hin]. by read.
Qed.
Lemma parseHarnessEventObserver_iff i v x : parseHarnessEventObserver i v = Ok x <-> observer_says v x.
Proof.
  split.
  - unfold parseHarnessEventObserver. cbv zeta. intros H. spell; (eexists; split; [done|split; [done|split; [done|]]]);
      cbn [o_events]; match goal with H : field _ _ = VArray _ |- _ => rewrite H end;
      match goal with H : map_indexed (observer_event ?l) _ = _ |- _ => apply (harness_list_iff _ _ _ _ _ (observer_event_iff l)); by split_and! end.
  - intros (fs & -> & Hid & Hm & Hl). unfold parseHarnessEventObserver. cbv zeta. read. rewrite (proj2 (is_string_iff _ _) Hm). read.
    pose proof Hl as (vs & Hv & _). rewrite Hv in Hl |- *.
    apply (harness_list_iff _ _ _ _ _ (observer_event_iff (js "Harness event observer " ++ o_id x))) in Hl as (-> & -> & Hd).
    read. by destruct x.
Qed.

Lemma harness_section_iff {A} (R : value -> A -> Prop) (f : nat -> value -> result A) v label l :
  (forall i v x, f i v = Ok x <-> R v x) -> (vs ← harnessArray v label; map_indexed f vs) = Ok l <-> section_says R v l.
Proof.
  intros Hf. rewrite bind_Ok. setoid_rewrite (map_indexed_iff R f _ l Hf). unfold section_says, harnessArray. split.
  - intros (vs & Hv & H). destruct v as [| | | | |k|]; try done.
    + injection Hv as <-. apply Forall2_nil_inv_l in H as ->. by left.
    + destruct (_ <? _) eqn:E; [done|]. injection Hv as <-. apply Z.ltb_ge in E. right. by exists k.
  - intros [[-> ->]|(vs & -> & Hs & H)]; [by exists []|]. exists vs. apply Z.ltb_ge in Hs. by rewrite Hs.
Qed.

Section Accepted.
Context (JSON_parse : jstr -> result value) (JSON_stringify : value -> jstr).
Context (URL_parse : jstr -> option URL) (sha256 : jstr -> jstr) (localeCompare : jstr -> jstr -> Z).

Lemma parseJsonRecord_Ok raw label fs : parseJsonRecord JSON_parse raw label = Ok fs <-> JSON_parse raw = Ok (VObject fs).
Proof.
  unfold parseJsonRecord. destruct (JSON_parse raw) as [v|e]; [|done]. destruct v; cbn; try done. split; by intros [= ->].
Qed.

Lemma parseHarnessExtension_ok raw skillIds hasMcp h : parseHarnessExtension JSON_parse sha256 raw skillIds hasMcp = Ok h ->
  harness_ok skillIds hasMcp h /\ exists parsed, JSON_parse raw = Ok (VObject parsed) /\
  forall key, key_inside key (VObject parsed) -> test harness_secret_key key = false.
Proof.
  unfold parseHarnessExtension. cbv zeta.
  intros (parsed & Hp%parseJsonRecord_Ok & ([] & Hs & (ps & H1 & (js' & H2 & (ss & H3 & (cs & H4 & (os & H5 & H)%bind_Ok)%bind_Ok)%bind_Ok)%bind_Ok)%bind_Ok)%bind_Ok)%bind_Ok.
  destruct (negb _) eqn:Hd; [done|]. injection H as <-. apply no_duplicates in Hd.
  apply (harness_items_ok (policy_ok skillIds hasMcp)) in H1 as [? L1]; [|apply parseHarnessPolicy_ok].
  apply (harness_items_ok (fun x => id_ok (j_id x))) in H2 as [? L2]; [|apply parseHarnessJobProvider_ok].
  apply (harness_items_ok sandbox_ok) in H3 as [? L3]; [|apply parseHarnessSandboxProvider_ok].
  apply (harness_items_ok (context_ok skillIds)) in H4 as [? L4]; [|apply parseHarnessContextProvider_ok].
  apply (harness_items_ok observer_ok) in H5 as [? L5]; [|apply parseHarnessEventObserver_ok].
  split.
  - split_and!; [done..|]. unfold registrations. cbn [policyInterceptors jobProviders sandboxProviders contextProviders eventObservers].
    rewrite !size_app, !size_map. lia.
  - exists parsed. split; [done|]. unfold rejectHarnessSecrets in Hs. destruct (secret_inside _ _) as [[]|] eqn:E; [done|].
    intros key Hk. by eapply secret_inside_complete.
Qed.

Lemma parseHarnessExtension_iff raw skillIds hasMcp h :
  parseHarnessExtension JSON_parse sha256 raw skillIds hasMcp = Ok h <->
  exists file, JSON_parse raw = Ok (VObject file) /\ secret_inside (js "plugin Harness config") (VObject file) = None /\
    extension_says skillIds hasMcp file h /\ NoDup (registrations h) /\ configHash h = digest sha256 [raw].
Proof.
  unfold parseHarnessExtension. cbv zeta. split.
  - intros (file & Hp%parseJsonRecord_Ok & ([] & Hs & (ps & H1 & (jobs & H2 & (ss & H3 & (cs & H4 & (os & H5 & H)%bind_Ok)%bind_Ok)%bind_Ok)%bind_Ok)%bind_Ok)%bind_Ok)%bind_Ok.
    destruct (negb _) eqn:Hd; [done|]. injection H as <-. apply no_duplicates in Hd. exists file. split; [done|]. split.
    { unfold rejectHarnessSecrets in Hs. by destruct (secret_inside _ _) as [[]|]. }
    split; [|done]. unfold extension_says. cbn. split_and!; eapply harness_section_iff; try eassumption.
    + apply parseHarnessPolicy_iff.
    + apply parseHarnessJobProvider_iff.
    + apply parseHarnessSandboxProvider_iff.
    + apply parseHarnessContextProvider_iff.
    + apply parseHarnessEventObserver_iff.
  - intros (file & Hp & Hs & (H1 & H2 & H3 & H4 & H5) & Hd & Hc).
    rewrite (proj2 (parseJsonRecord_Ok _ _ _) Hp). cbn [mbind result_bind]. unfold rejectHarnessSecrets. rewrite Hs. cbn [mbind result_bind].
    rewrite (proj2 (harness_section_iff _ _ _ "policyInterceptors" _ (parseHarnessPolicy_iff skillIds hasMcp)) H1).
    rewrite (proj2 (harness_section_iff _ _ _ "jobProviders" _ parseHarnessJobProvider_iff) H2).
    rewrite (proj2 (harness_section_iff _ _ _ "sandboxProviders" _ parseHarnessSandboxProvider_iff) H3).
    rewrite (proj2 (harness_section_iff _ _ _ "contextProviders" _ (parseHarnessContextProvider_iff skillIds)) H4).
    rewrite (proj2 (harness_section_iff _ _ _ "eventObservers" _ parseHarnessEventObserver_iff) H5).
    cbn [mbind result_bind]. rewrite <- Hc. destruct h; cbn in *. by rewrite bool_decide_true.
Qed.

(** C16: A harness extension is accepted exactly when its file is a JSON
    object that names no secret at any depth and says nothing but what
    tightens the application: every policy says ["ask"] or ["deny"], for a
    skill of the package or for its MCP servers when it has some; every job
    provider names the existing runtime; every sandbox names distinct modes
    among ["read-only"] and ["workspace-write"] and says ["partial"] or
    ["unavailable"] of its enforcement; every context provider names a skill
    of the package; every observer asks for sanitized metadata of distinct
    known events; identifiers are bounded and outside the application's
    namespace, and nothing is registered twice. What is returned is what the
    file says, item by item, and a digest of it. *)
Theorem harness_extension_only_tightens raw skillIds hasMcp h :
  parseHarnessExtension JSON_parse sha256 raw skillIds hasMcp = Ok h <->
  exists file, JSON_parse raw = Ok (VObject file) /\
    (forall key, key_inside key (VObject file) -> test harness_secret_key key = false) /\
    extension_says skillIds hasMcp file h /\ NoDup (registrations h) /\ configHash h = digest sha256 [raw].
Proof.
  rewrite parseHarnessExtension_iff. split; intros (file & Hf & Hs & H); exists file; (split; [done|]);
    (split; [|exact H]); by apply (secret_inside_None _ (js "plugin Harness config")).
Qed.

(** *** MCP servers *)

Definition transport_ok (t : transport) : Prop :=
  match t with
  | streamable_http url => exists text u, URL_parse text = Some u /\ protocol u = js "https:" /\
      username u = [] /\ password u = [] /\ hash u = [] /\ url = href u
  | stdio command args => line_ok 1 1024 command /\ command_is_path command = false /\
      size args <= MAX_ARGS /\ Forall (line_ok 1 MAX_ARG_BYTES) args
  end.
Definition component_ok (m : PluginMcpComponentView) : Prop := id_ok (m_id m) /\ transport_ok (m_transport m).

Lemma truthy_false s : truthy s = false -> s = [].
Proof. by destruct s. Qed.
Lemma secureHttpsUrl_ok v label url : secureHttpsUrl URL_parse v label = Ok url -> transport_ok (streamable_http url).
Proof.
  unfold secureHttpsUrl. intros (text & _ & H)%bind_Ok. destruct (URL_parse text) as [u|] eqn:E; [|done].
  destruct (_ || _) eqn:Eb; [done|]. injection H as <-. rewrite !orb_false_iff, negb_false_iff, bool_decide_eq_true in Eb.
  destruct Eb as [[[Hp Hu%truthy_false] Hw%truthy_false] Hh%truthy_false]. by exists text, u.
Qed.
Lemma plugin_stringArray_ok v label maxItems maxBytes l : 0 <= maxItems -> stringArray v label maxItems maxBytes = Ok l ->
  size l <= maxItems /\ Forall (line_ok 1 maxBytes) l.
Proof.
  unfold stringArray. intros Hm H. destruct v as [| | | | |items|]; try done; [by injection H as <-|].
  destruct (maxItems <? size items) eqn:E; [done|]. apply Z.ltb_ge in E. split.
  - apply map_indexed_length in H. unfold size in *. lia.
  - eapply map_indexed_Forall; [|exact H]. intros i a b. apply boundedText_ok.
Qed.
Lemma parseMcpServer_ok entry m : parseMcpServer JSON_stringify URL_parse sha256 entry = Ok m ->
  component_ok m /\ exists fs, entry.2 = VObject fs /\ Forall (fun kv => secret_field kv.1 = false) fs.
Proof.
  unfold parseMcpServer. destruct entry as [name candidate]. cbv zeta. intros (id & Hid%identifier_id_ok & H)%bind_Ok.
  destruct candidate as [| | | | | |fs]; try done. cbn [is_record] in H. apply bind_Ok in H as (u & Hr & H).
  assert (Hs : Forall (fun kv => secret_field kv.1 = false) fs).
  { unfold rejectInlineSecrets in Hr. destruct (find _ _) as [[]|] eqn:E; [done|]. apply Forall_forall. intros kv Hin.
    apply (find_none _ _ E). by apply list_elem_of_In. }
  destruct (_ || _).
  - apply bind_Ok in H as (url & Hu%secureHttpsUrl_ok & (auth & _ & [= <-])%bind_Ok). split; [by split|]. by exists fs.
  - destruct (_ || _); [|done]. apply bind_Ok in H as (c & Hc%boundedText_ok & H). destruct (command_is_path c) eqn:Ec; [done|].
    apply bind_Ok in H as (args & Ha & [= <-]). apply plugin_stringArray_ok in Ha as [? ?]; [|done].
    split; [split; [done|by split_and!]|]. by exists fs.
Qed.
Lemma parseMcpServers_ok raw l : parseMcpServers JSON_parse JSON_stringify URL_parse sha256 localeCompare raw = Ok l ->
  Forall component_ok l /\ size l <= MAX_MCP_SERVERS.
Proof.
  unfold parseMcpServers. intros (parsed & _ & H)%bind_Ok. cbv zeta in H. destruct (_ <? _) eqn:E; [done|]. apply Z.ltb_ge in E.
  split.
  - eapply map_result_Forall; [exact H|]. intros entry m Hm. by apply parseMcpServer_ok in Hm as [? _].
  - apply map_result_length in H. unfold size in *. rewrite H, (Permutation_length (sort_by_perm _ _)). lia.
Qed.
Lemma sourceNerveAppMcpBridge_ok id raw m : sourceNerveAppMcpBridge JSON_parse JSON_stringify URL_parse sha256 id raw = Ok (Some m) ->
  component_ok m.
Proof.
  unfold sourceNerveAppMcpBridge. intros H. cbv zeta in H. destruct (bridge_of id) as [bridge|] eqn:Eb; [|done].
  destruct (default _ bridge) as [[appKey mcpId] url] eqn:Ed.
  apply bind_Ok in H as (parsed & _ & H). destruct (is_record _) as [apps|]; [|done]. destruct (is_record _) as [app|]; [|done].
  apply bind_Ok in H as (c & _ & H). destruct (negb _); [done|]. apply bind_Ok in H as (u & Hu & [= <-]).
  destruct bridge as [b|]; [|done]. cbn in Ed. subst b. apply secureHttpsUrl_ok in Hu. split; [|done]. cbn [m_id http_component].
  unfold bridge_of, get_property in Eb. destruct (map_get _ _) as [v|] eqn:Em; [|by destruct (inherited id)].
  apply map_get_elem in Em. unfold SOURCENERVE_APP_MCP_BRIDGES in Em. apply list_elem_of_singleton in Em as [= -> ->].
  injection Eb as <- <- <-. by split_and!.
Qed.
End Accepted.

(** ** An extension *)

Definition JSON_is (v : value) (raw : jstr) : result value := Ok v.

Definition sample_policy (decision : jstr) : value :=
  VObject [(js "id", VString (js "p")); (js "target", VObject [(js "kind", VString (js "mcp"))]); (js "decision", VString decision)].
Definition sample_extension : value :=
  VObject [(js "policyInterceptors", VArray [sample_policy (js " ask ")]);
           (js "jobProviders", VArray [VObject [(js "id", VString (js "j")); (js "runtime", VString (js "harness-job"))]]);
           (js "sandboxProviders", VArray [VObject [(js "id", VString (js "s"));
             (js "modes", VArray [VString (js "read-only")]); (js "enforcement", VString (js "partial"))]])].
Lemma harness_extension_only_tightens_witness : exists h file,
  JSON_is sample_extension (js "{}") = Ok (VObject file) /\ extension_says [] true file h /\ length (registrations h) = 3%nat.
Proof.
  eexists. destruct (proj1 (harness_extension_only_tightens (JSON_is sample_extension) id (js "{}") [] true _)
    ltac:(vm_compute; reflexivity)) as (file & Hf & _ & He & _). exists file. split; [exact Hf|]. split; [exact He|]. vm_compute. reflexivity.
Defined.
(** Any other decision is refused. *)
Example allowing_policy_is_refused :
  parseHarnessPolicy [] true 0 (sample_policy (js "allow")) = err [js "Harness policy p may only tighten central policy to ask or deny"].
Proof. vm_compute. reflexivity. Qed.
(** A key of the file that names a secret is found at any depth. *)
Example nested_secret_is_found :
  parseHarnessExtension (fun _ => Ok (VObject [(js "x", VArray [VObject [(js "MY_ENV", VNull)]])])) id [] [] true =
  err [js "plugin Harness config.x[0] must not declare secret/provider credential field MY_ENV"].
Proof. vm_compute. reflexivity. Qed.

End PluginManifest.
