(* ===== verification/PluginPackage.v ===== *)
(** * The inspection of a plugin package

    [inspectLocalPluginPackage] of [desktop/src/main/plugin-package.ts] reads
    a package from disk and gives what the user reviews before it is
    installed. The file system answers as it likes: each answer may depend on
    every access made before, so a package that changes while it is read is
    covered. The accesses are recorded. *)

From S2P Require Import Prelude JsValue JsObject Path Utf8 Regex TaskPolicy JsonCodec PluginManifest.

Module PluginPackage.
Import PluginManifest.

Definition MAX_MANIFEST_BYTES : Z := 256 * 1024.
Definition MAX_MCP_CONFIG_BYTES : Z := 256 * 1024.
Definition MAX_APP_CONFIG_BYTES : Z := 256 * 1024.
Definition MAX_HARNESS_CONFIG_BYTES : Z := 128 * 1024.
Definition MAX_SKILL_BYTES : Z := 128 * 1024.
Definition MAX_SKILLS : Z := 32.

(** ** The file system *)

Inductive access := Realpath (p : jstr) | Lstat (p : jstr) | ReadFile (p : jstr) | Readdir (p : jstr).
Inductive file_kind := Regular (size : Z) | Directory | SymbolicLink | Special.
(** An error of [lstat], and whether its code is [ENOENT] *)
Inductive lstat_answer := Stat (k : file_kind) | LstatError (missing : bool) (e : exn).
Record Dirent := { d_name : jstr; d_kind : file_kind }.
Record FileSystem := {
  realpath : list access -> jstr -> result jstr;
  lstat : list access -> jstr -> lstat_answer;
  readFile : list access -> jstr -> result jstr;
  readdir : list access -> jstr -> result (list Dirent) }.

Record PluginSkillView := {
  k_id : jstr; k_name : jstr; k_description : option jstr; k_relativePath : jstr; k_contentHash : jstr; k_bytes : Z }.
Record InspectedPluginSkill := { descriptor : PluginSkillView; content : jstr }.
Record PluginPackageReview := {
  r_id : jstr; r_name : jstr; r_version : jstr; r_description : jstr; r_publisher : option jstr; r_category : option jstr;
  r_label : jstr; r_manifestHash : jstr; r_mcpServers : list PluginMcpComponentView; r_skills : list PluginSkillView;
  r_harness : option PluginHarnessExtension; r_warnings : list jstr }.
Record InspectedPluginPackage := { i_root : jstr; i_review : PluginPackageReview; i_skills : list InspectedPluginSkill }.

(** ** Paths *)

(** [path.posix.normalize]: [..] above the start of a relative path is kept. *)
Fixpoint normalize_relative (above : bool) (acc : list jstr) (segs : list jstr) : list jstr :=
  match segs with
  | [] => reverse acc
  | s :: segs' =>
      if negb (truthy s) || is_dot s then normalize_relative above acc segs'
      else if is_dotdot s then
        match acc with
        | top :: acc' => if is_dotdot top then normalize_relative above (s :: acc) segs' else normalize_relative above acc' segs'
        | [] => normalize_relative above (if above then [s] else []) segs'
        end
      else normalize_relative above (s :: acc) segs'
  end.
Definition trailing_slash (p : jstr) : bool := match last p with Some u => (u =? SLASH)%N | None => false end.
Definition posix_normalize (p : jstr) : jstr :=
  if negb (truthy p) then js "." else
  let abs := isAbsolute p in
  let body := join [SLASH] (normalize_relative (negb abs) [] (split_char SLASH p)) in
  if negb (truthy body) then (if abs then [SLASH] else if trailing_slash p then js "./" else js ".")
  else (if abs then [SLASH] else []) ++ body ++ (if trailing_slash p then [SLASH] else []).

Definition strip_here (p : jstr) : jstr := if starts_with p (js "./") then drop 2 p else p.
Definition declaredRelativePath (v : value) (name : string) : result jstr :=
  text ← boundedText v 1 512 (concat [js "plugin "; js name; js " path"]);
  let text := TaskPolicy.to_slashes text in
  if starts_with text [SLASH] || TaskPolicy.has_drive text then err [js "Plugin "; js name; js " path must be relative"] else
  let normalized := posix_normalize (strip_here text) in
  if bool_decide (normalized = js "..") || starts_with normalized (js "../") || includes normalized (js "/../")
  then err [js "Plugin "; js name; js " path escapes the package root"] else Ok normalized.

Definition inside (root relative : jstr) : result jstr :=
  let resolved := resolve root relative in
  let relation := Path.relative root root resolved in
  if negb (truthy relation) || bool_decide (relation = js ".") then Ok resolved
  else if bool_decide (relation = js "..") || starts_with relation (js "../") || isAbsolute relation
  then err [js "Plugin package path escapes the package root"] else Ok resolved.

(** ** Skills *)

(** [content.split(/\r?\n/)] *)
Definition strip_cr (line : jstr) : jstr := match last line with Some u => if (u =? 13)%N then slice_last line else line | None => line end.
Definition lines_of (s : jstr) : list jstr :=
  let l := split_char 10 s in map strip_cr (take (length l - 1) l) ++ drop (length l - 1) l.
(** [/^#\s+(.+?)\s*$/] *)
Definition title_pattern : regex := seqs [InputStart; one 35; plus space; Group 1 (lazy_plus dot); spaces; InputEnd].
Definition title_of (line : jstr) : option jstr :=
  match exec title_pattern line with
  | Some (_, stop) =>
      let v := trim (group 1 (caps stop)) in
      if truthy v && (slen v <=? 128) && negb (has_control v) then Some v else None
  | None => None
  end.
Definition first_some {A B} (f : A -> option B) (l : list A) : option B := head (omap f l).
Definition skillTitle (content : jstr) : option jstr := first_some title_of (lines_of content).
(** [/^[A-Za-z0-9_-]+:\s*/] *)
Definition key_pattern : regex := seqs [InputStart; plus (Class (fun u => is_word u || (u =? 45)%N)); one 58; spaces].
Definition description_of (raw : jstr) : option jstr :=
  let line := trim raw in
  if negb (truthy line) || bool_decide (line = js "---") || starts_with line (js "#") || test key_pattern line then None
  else Some (slice_to 512 line).
Definition skillDescription (content : jstr) : option jstr := first_some description_of (lines_of content).

(** [if (text)] of an optional string *)
Definition if_text (o : option jstr) : option jstr := if truthy_opt o then o else None.

Definition publisherName (manifest : list (jstr * value)) (interface : option (list (jstr * value))) : result (option jstr) :=
  match field manifest (js "author") with
  | VString s => optionalBoundedText (VString s) 1 256 (js "plugin author")
  | author =>
      match is_record author with
      | Some a => if negb (is_undefined (field a (js "name"))) then optionalBoundedText (field a (js "name")) 1 256 (js "plugin author")
                  else match interface with
                       | Some fs => optionalBoundedText (field fs (js "developerName")) 1 256 (js "plugin developer name")
                       | None => Ok None end
      | None => match interface with
                | Some fs => optionalBoundedText (field fs (js "developerName")) 1 256 (js "plugin developer name")
                | None => Ok None end
      end
  end.

(** ** The inspection *)

Section Inspection.
Context (JSON_parse : jstr -> result value) (JSON_stringify : value -> jstr).
Context (URL_parse : jstr -> option URL) (sha256 : jstr -> jstr) (localeCompare : jstr -> jstr -> Z).
Context (fs : FileSystem).

Abbreviation IO := (M (list access)).
Definition ask_fs {A} (a : access) (f : list access -> A) : IO A := fun log => (Ok (f log), log ++ [a]).
Definition attempt {A} (a : access) (f : list access -> result A) : IO A := r ← ask_fs a f; lift r.

(** The two conditions on [lstat] that [inspectSkills] and
    [readBoundedRegularFile] make *)
Definition must_be (right : file_kind -> bool) (p missing wrong : jstr) : IO file_kind :=
  answer ← ask_fs (Lstat p) (fun log => lstat fs log p);
  match answer with
  | LstatError true _ => lift (err [missing])
  | LstatError false e => rethrow e
  | Stat k => if right k then mret k else lift (err [wrong])
  end.
Definition is_file (k : file_kind) : bool := match k with Regular _ => true | _ => false end.
Definition is_directory (k : file_kind) : bool := match k with Directory => true | _ => false end.
Definition size_of (k : file_kind) : Z := match k with Regular n => n | _ => 0 end.

Definition exceeds {A} (label : jstr) (maxBytes : Z) : result A := err [label; js " exceeds "; js_int maxBytes; js " byte limit"].
Definition readBoundedRegularFile (p : jstr) (maxBytes : Z) (label : jstr) : IO jstr :=
  k ← must_be is_file p (label ++ js " is missing") (label ++ js " must be a regular file, not a symlink");
  if maxBytes <? size_of k then lift (exceeds label maxBytes) else
  content ← attempt (ReadFile p) (fun log => readFile fs log p);
  if maxBytes <? utf8_len content then lift (exceeds label maxBytes) else mret content.

Definition inspectSkill (packageRoot skillsRoot : jstr) (entry : Dirent) : IO InspectedPluginSkill :=
  if negb (is_directory (d_kind entry)) then lift (err [js "Plugin skill entry "; d_name entry; js " must be a directory"]) else
  id ← lift (identifier (VString (d_name entry)) (js "skill id"));
  skillFile ← lift (inside packageRoot
    (Path.relative packageRoot packageRoot (resolve packageRoot (skillsRoot ++ js "/" ++ d_name entry ++ js "/SKILL.md"))));
  content ← readBoundedRegularFile skillFile MAX_SKILL_BYTES (js "skill " ++ id);
  mret {| descriptor := {| k_id := id; k_name := default id (skillTitle content);
                           k_description := if_text (skillDescription content);
                           k_relativePath := Path.relative packageRoot packageRoot skillFile;
                           k_contentHash := digest sha256 [content]; k_bytes := utf8_len content |};
          content := content |}.
Fixpoint inspect_each (packageRoot skillsRoot : jstr) (l : list Dirent) : IO (list InspectedPluginSkill) :=
  match l with
  | [] => mret []
  | entry :: l' =>
      skill ← inspectSkill packageRoot skillsRoot entry;
      rest ← inspect_each packageRoot skillsRoot l';
      mret (skill :: rest)
  end.
Definition inspectSkills (packageRoot skillsRoot : jstr) : IO (list InspectedPluginSkill) :=
  _ ← must_be is_directory skillsRoot (js "Plugin skills directory is missing")
        (js "Plugin skills path must be a real directory, not a symlink");
  entries ← attempt (Readdir skillsRoot) (fun log => readdir fs log skillsRoot);
  let candidates := filter (fun e => starts_with (d_name e) (js ".") = false) entries in
  if MAX_SKILLS <? size candidates then lift (err [js "Plugin package may contain at most 32 skills"])
  else inspect_each packageRoot skillsRoot (sort_by (fun l r => localeCompare (d_name l) (d_name r)) candidates).

(** A file the manifest declares: its path is checked and it is read. *)
Definition declared_file (packageRoot : jstr) (v : value) (name : string) (maxBytes : Z) (label : string) : IO jstr :=
  declared ← lift (declaredRelativePath v name);
  p ← lift (inside packageRoot declared);
  readBoundedRegularFile p maxBytes (js label).

Definition bridged_warning (displayName : jstr) : jstr :=
  js "SourceNerve will connect " ++ displayName ++ js " through its managed remote MCP endpoint and own the OAuth lifecycle.".
Definition no_bridge_warning : jstr :=
  js "This package declares a host app integration, but no SourceNerve-managed MCP bridge is available. Host connector authentication is not treated as a SourceNerve connection.".

(** The parts the hash of the manifest covers *)
Definition skill_part (s : InspectedPluginSkill) : jstr := k_relativePath (descriptor s) ++ [NUL] ++ k_contentHash (descriptor s).
Definition hash_parts (manifestRaw mcpRaw appRaw harnessRaw : jstr) (skills : list InspectedPluginSkill) : list jstr :=
  [js "manifest" ++ [NUL] ++ manifestRaw; js "mcp" ++ [NUL] ++ mcpRaw; js "app" ++ [NUL] ++ appRaw;
   js "harness" ++ [NUL] ++ harnessRaw] ++ sort_by jstr_compare (map skill_part skills).

Definition read_mcp (packageRoot : jstr) (manifest : list (jstr * value)) : IO (jstr * list PluginMcpComponentView) :=
  if is_undefined (field manifest (js "mcpServers")) then mret ([], []) else
  raw ← declared_file packageRoot (field manifest (js "mcpServers")) "mcpServers" MAX_MCP_CONFIG_BYTES "plugin MCP config";
  servers ← lift (parseMcpServers JSON_parse JSON_stringify URL_parse sha256 localeCompare raw);
  mret (raw, servers).
Definition read_apps (packageRoot id displayName : jstr) (manifest : list (jstr * value)) (servers : list PluginMcpComponentView) :
    IO (jstr * list PluginMcpComponentView * list jstr) :=
  if is_undefined (field manifest (js "apps")) then mret ([], servers, []) else
  raw ← declared_file packageRoot (field manifest (js "apps")) "apps" MAX_APP_CONFIG_BYTES "plugin app config";
  match servers with
  | _ :: _ => mret (raw, servers, [])
  | [] =>
      bridged ← lift (sourceNerveAppMcpBridge JSON_parse JSON_stringify URL_parse sha256 id raw);
      mret match bridged with
           | Some b => (raw, [b], [bridged_warning displayName])
           | None => (raw, [], [no_bridge_warning])
           end
  end.
Definition read_skills (packageRoot : jstr) (manifest : list (jstr * value)) : IO (list InspectedPluginSkill) :=
  if is_undefined (field manifest (js "skills")) then mret [] else
  declared ← lift (declaredRelativePath (field manifest (js "skills")) "skills");
  skillsRoot ← lift (inside packageRoot declared);
  inspectSkills packageRoot skillsRoot.
Definition read_harness (packageRoot : jstr) (manifest : list (jstr * value)) (skillIds : list jstr) (hasMcp : bool) :
    IO (jstr * option PluginHarnessExtension) :=
  if is_undefined (field manifest (js "harness")) then mret ([], None) else
  raw ← declared_file packageRoot (field manifest (js "harness")) "harness" MAX_HARNESS_CONFIG_BYTES "plugin Harness config";
  h ← lift (parseHarnessExtension JSON_parse sha256 raw skillIds hasMcp);
  mret (raw, Some h).

(** The inspection of the manifest's fields and of what it declares *)
Definition inspect_manifest (packageRoot manifestRaw : jstr) (manifest : list (jstr * value)) : IO InspectedPluginPackage :=
  _ ← lift (rejectExecutionFields manifest);
  id ← lift (identifier (field manifest (js "name")) (js "plugin name"));
  version ← lift (boundedText (field manifest (js "version")) 1 64 (js "plugin version"));
  description ← lift (boundedText (field manifest (js "description")) 1 4096 (js "plugin description"));
  interface ← lift (optionalRecord (field manifest (js "interface")) (js "plugin interface"));
  displayName ← lift match interface with
                     | Some i => default id <$> optionalBoundedText (field i (js "displayName")) 1 128 (js "plugin display name")
                     | None => Ok id end;
  publisher ← lift (publisherName manifest interface);
  category ← lift match interface with
                  | Some i => optionalBoundedText (field i (js "category")) 1 128 (js "plugin category")
                  | None => Ok None end;
  '(mcpRaw, mcpServers) ← read_mcp packageRoot manifest;
  '(appRaw, mcpServers, warnings) ← read_apps packageRoot id displayName manifest mcpServers;
  skills ← read_skills packageRoot manifest;
  '(harnessRaw, harness) ← read_harness packageRoot manifest (map (fun s => k_id (descriptor s)) skills) (negb (bool_decide (mcpServers = [])));
  mret {| i_root := packageRoot;
          i_review := {| r_id := id; r_name := displayName; r_version := version; r_description := description;
                         r_publisher := if_text publisher; r_category := if_text category;
                         r_label := if truthy (path_basename packageRoot) then path_basename packageRoot else id;
                         r_manifestHash := digest sha256 (hash_parts manifestRaw mcpRaw appRaw harnessRaw skills);
                         r_mcpServers := mcpServers; r_skills := map descriptor skills; r_harness := harness;
                         r_warnings := warnings |};
          i_skills := skills |}.

(** The inspection after the root is known *)
Definition inspect_at (packageRoot : jstr) : IO InspectedPluginPackage :=
  manifestPath ← lift (inside packageRoot (js ".codex-plugin/plugin.json"));
  manifestRaw ← readBoundedRegularFile manifestPath MAX_MANIFEST_BYTES (js "plugin manifest");
  manifest ← lift (parseJsonRecord JSON_parse manifestRaw (js "plugin manifest"));
  inspect_manifest packageRoot manifestRaw manifest.

Definition root_ok (root : jstr) : bool := truthy root && (slen root <=? 4096) && negb (has_line_break_or_nul root).
Definition inspectLocalPluginPackage (root : jstr) : IO InspectedPluginPackage :=
  _ ← js_guard (negb (root_ok root)) "Plugin package root is invalid";
  packageRoot ← attempt (Realpath root) (fun log => realpath fs log root);
  inspect_at packageRoot.

(** ** Where an inspection looks *)

(** [p] lies in the directory [root], by their segments. *)
Definition below (root p : jstr) : Prop := prefix (segments root root) (segments root p).
Lemma inside_below root relative p : inside root relative = Ok p -> below root p.
Proof.
  unfold inside. cbv zeta. set (resolved := resolve root relative). intros H.
  enough (leads_down (Path.relative root root resolved) = true /\ resolved = p) as [Hl <-].
  { rewrite relative_leads_down in Hl. by apply bool_decide_eq_true in Hl. }
  revert H. generalize (Path.relative root root resolved). intros rel. unfold leads_down.
  destruct (truthy rel); cbn [negb orb]; [|by intros [= ->]].
  case_bool_decide as Hdot; cbn [orb]; [intros [= ->]; by rewrite Hdot|].
  destruct (bool_decide (rel = js "..")); cbn [negb andb orb]; [done|].
  destruct (starts_with rel (js "../")); cbn [negb andb orb]; [done|].
  destruct (isAbsolute rel); cbn [negb]; [done|]. by intros [= ->].
Qed.

(** A log that is careful with the package at [root]: after [start], every
    access is below [root], a file is read only right after [lstat] said that
    it is a regular file that is not too large, and a directory is listed only
    right after [lstat] said that it is one. *)
Inductive careful (start : list access) (root : jstr) : list access -> Prop :=
| careful_start : careful start root start
| careful_lstat l p : careful start root l -> below root p -> careful start root (l ++ [Lstat p])
| careful_read l p n : careful start root l -> below root p -> lstat fs l p = Stat (Regular n) -> n <= MAX_MANIFEST_BYTES ->
    careful start root ((l ++ [Lstat p]) ++ [ReadFile p])
| careful_readdir l p : careful start root l -> below root p -> lstat fs l p = Stat Directory ->
    careful start root ((l ++ [Lstat p]) ++ [Readdir p]).

Section careful.
Context (start : list access) (root : jstr).
Notation keeps := (triple (careful start root)).

Lemma must_be_run right p missing wrong l : must_be right p missing wrong l =
  (match lstat fs l p with
   | LstatError true _ => err [missing] | LstatError false e => Throw e
   | Stat k => if right k then Ok k else err [wrong] end, l ++ [Lstat p]).
Proof.
  unfold must_be. rewrite M_bind_run. cbn [ask_fs]. destruct (lstat fs l p) as [k|[] e]; [|done..]. by destruct (right k).
Qed.
(** A computation that has thrown after the log [H] speaks of *)
Ltac halted H := split; [exact H|intros ? E; discriminate E].
Lemma readBoundedRegularFile_careful p maxBytes label : below root p -> maxBytes <= MAX_MANIFEST_BYTES ->
  keeps (readBoundedRegularFile p maxBytes label) (fun content => utf8_len content <= maxBytes).
Proof.
  intros Hp Hmax l Hl. unfold readBoundedRegularFile. rewrite M_bind_run, must_be_run.
  assert (Hs : careful start root (l ++ [Lstat p])) by by constructor.
  destruct (lstat fs l p) as [k|[] e] eqn:Ek; [|halted Hs..]. destruct k as [n| | |]; cbn [is_file]; [|halted Hs..].
  cbn [size_of]. destruct (Z.ltb_spec maxBytes n); [halted Hs|].
  assert (Hr : careful start root ((l ++ [Lstat p]) ++ [ReadFile p])) by (apply (careful_read _ _ l p n); (done || lia)).
  unfold attempt. rewrite !M_bind_run. cbn [ask_fs]. change (lift ?r ?log) with (r, log). destruct (readFile fs (l ++ [Lstat p]) p) as [c|e]; cbn iota beta; [|halted Hr].
  destruct (Z.ltb_spec maxBytes (utf8_len c)); [halted Hr|]. split; [done|]. intros a [= <-]. done.
Qed.

Lemma lift_careful {A} (r : result A) (Q : A -> Prop) : (forall a, r = Ok a -> Q a) -> keeps (lift r) Q.
Proof. intros H. eapply triple_weaken; [apply triple_lift|]. exact H. Qed.

Definition skill_ok (s : InspectedPluginSkill) : Prop :=
  id_ok (k_id (descriptor s)) /\ k_bytes (descriptor s) = utf8_len (content s) /\ utf8_len (content s) <= MAX_SKILL_BYTES /\
  k_contentHash (descriptor s) = digest sha256 [content s].
Lemma inspectSkill_careful skillsRoot entry : keeps (inspectSkill root skillsRoot entry) skill_ok.
Proof.
  unfold inspectSkill. destruct (negb _); [by apply lift_careful|].
  eapply triple_bind; [apply lift_careful; intros id; apply identifier_id_ok|]. intros id Hid.
  eapply triple_bind; [apply lift_careful; intros p; apply inside_below|]. intros p Hp.
  eapply triple_bind; [by apply readBoundedRegularFile_careful|]. intros c Hc. apply triple_ret. by split_and!.
Qed.
Lemma inspect_each_careful skillsRoot l : keeps (inspect_each root skillsRoot l)
  (fun skills => Forall skill_ok skills /\ length skills = length l).
Proof.
  induction l as [|entry l IH]; [by apply triple_ret|]. cbn [inspect_each].
  eapply triple_bind; [apply inspectSkill_careful|]. intros s Hs. eapply triple_bind; [apply IH|]. intros rest [Hr Hl].
  apply triple_ret. split; [by constructor|]. cbn. lia.
Qed.
Lemma inspectSkills_careful skillsRoot : below root skillsRoot -> keeps (inspectSkills root skillsRoot)
  (fun skills => Forall skill_ok skills /\ size skills <= MAX_SKILLS).
Proof.
  intros Hp l Hl. unfold inspectSkills. rewrite M_bind_run, must_be_run.
  assert (Hs : careful start root (l ++ [Lstat skillsRoot])) by by constructor.
  destruct (lstat fs l skillsRoot) as [k|[] e] eqn:Ek; [|halted Hs..]. destruct k; cbn [is_directory]; [halted Hs| |halted Hs..].
  assert (Hr : careful start root ((l ++ [Lstat skillsRoot]) ++ [Readdir skillsRoot])) by by constructor.
  unfold attempt. rewrite !M_bind_run. cbn [ask_fs]. change (lift ?r ?log) with (r, log). destruct (readdir fs _ _) as [entries|e]; cbn iota beta; [|halted Hr].
  cbv zeta. destruct (Z.ltb_spec MAX_SKILLS (size (filter (fun e => starts_with (d_name e) (js ".") = false) entries))) as [Hn|Hn]; [halted Hr|].
  match goal with |- context [inspect_each root skillsRoot ?k ?log] => destruct (inspect_each_careful skillsRoot k log Hr) as [H1 H2] end.
  split; [done|]. intros skills E. destruct (H2 skills E) as [Hf Hlen]. split; [done|]. unfold size in *.
  by rewrite Hlen, (Permutation_length (sort_by_perm _ _)).
Qed.

Lemma declared_file_careful v name maxBytes label : maxBytes <= MAX_MANIFEST_BYTES ->
  keeps (declared_file root v name maxBytes label) (fun _ => True).
Proof.
  intros Hm. eapply triple_bind; [by apply lift_careful with (Q := fun _ => True)|]. intros d _.
  eapply triple_bind; [apply lift_careful; intros p; apply inside_below|]. intros p Hp.
  eapply triple_weaken; [by apply readBoundedRegularFile_careful|done].
Qed.
(** *** What the review promises *)

Definition ids (l : list PluginSkillView) : list jstr := map k_id l.
(** The claims an accepted package is reviewed under *)
Definition package_ok (p : InspectedPluginPackage) : Prop :=
  let r := i_review p in
  id_ok (r_id r) /\ line_ok 1 64 (r_version r) /\ line_ok 1 4096 (r_description r) /\
  (forall x, r_publisher r = Some x -> line_ok 1 256 x) /\ (forall x, r_category r = Some x -> line_ok 1 128 x) /\
  Forall (component_ok URL_parse) (r_mcpServers r) /\ size (r_mcpServers r) <= MAX_MCP_SERVERS /\
  Forall skill_ok (i_skills p) /\ size (i_skills p) <= MAX_SKILLS /\ r_skills r = map descriptor (i_skills p) /\
  match r_harness r with Some h => harness_ok (ids (r_skills r)) (negb (bool_decide (r_mcpServers r = []))) h | None => True end /\
  exists manifestRaw manifest mcpRaw appRaw harnessRaw, JSON_parse manifestRaw = Ok (VObject manifest) /\
    Forall (fun kv => toLowerCase kv.1 ∉ EXECUTION_FIELDS) manifest /\
    r_manifestHash r = digest sha256 (hash_parts manifestRaw mcpRaw appRaw harnessRaw (i_skills p)).

Definition servers_ok (l : list PluginMcpComponentView) : Prop := Forall (component_ok URL_parse) l /\ size l <= MAX_MCP_SERVERS.
Lemma read_mcp_careful manifest : keeps (read_mcp root manifest) (fun r => servers_ok r.2).
Proof.
  unfold read_mcp. destruct (is_undefined _); [by apply triple_ret|].
  eapply triple_bind; [by apply declared_file_careful|]. intros raw _.
  eapply triple_bind; [apply lift_careful; intros l; apply parseMcpServers_ok|]. intros l Hl. by apply triple_ret.
Qed.
Lemma read_apps_careful id name manifest servers : servers_ok servers ->
  keeps (read_apps root id name manifest servers) (fun r => servers_ok r.1.2).
Proof.
  intros Hs. unfold read_apps. destruct (is_undefined _); [by apply triple_ret|].
  eapply triple_bind; [by apply declared_file_careful|]. intros raw _. destruct servers as [|m l]; [|by apply triple_ret].
  eapply (triple_bind _ _ _ (fun o => match o with Some m => component_ok URL_parse m | None => True end)).
  - apply lift_careful. intros [m|] H; [|done]. by apply sourceNerveAppMcpBridge_ok in H.
  - intros [m|] Hm; apply triple_ret; [|done]. split; [by apply Forall_singleton|done].
Qed.
Lemma read_skills_careful manifest : keeps (read_skills root manifest) (fun l => Forall skill_ok l /\ size l <= MAX_SKILLS).
Proof.
  unfold read_skills. destruct (is_undefined _); [by apply triple_ret|].
  eapply triple_bind; [by apply lift_careful with (Q := fun _ => True)|]. intros d _.
  eapply triple_bind; [apply lift_careful; intros p; apply inside_below|]. intros p Hp. by apply inspectSkills_careful.
Qed.
Lemma read_harness_careful manifest skillIds hasMcp : keeps (read_harness root manifest skillIds hasMcp)
  (fun r => match r.2 with Some h => harness_ok skillIds hasMcp h | None => True end).
Proof.
  unfold read_harness. destruct (is_undefined _); [by apply triple_ret|].
  eapply triple_bind; [by apply declared_file_careful|]. intros raw _.
  eapply triple_bind; [apply lift_careful; intros h Hh; apply parseHarnessExtension_ok in Hh as [Hh _]; exact Hh|].
  intros h Hh. by apply triple_ret.
Qed.
Lemma publisherName_ok manifest interface o x : publisherName manifest interface = Ok o -> o = Some x -> line_ok 1 256 x.
Proof.
  unfold publisherName. intros H Ho. destruct (field manifest (js "author")); cbn [is_record] in H;
    repeat match type of H with (match ?i with _ => _ end) = _ => destruct i | (if ?b then _ else _) = _ => destruct b end;
    try (by eapply optionalBoundedText_ok); injection H as <-; done.
Qed.
Lemma if_text_Some o x : if_text o = Some x -> o = Some x.
Proof. unfold if_text. by destruct (truthy_opt o). Qed.
Lemma rejectExecutionFields_ok manifest u : rejectExecutionFields manifest = Ok u ->
  Forall (fun kv => toLowerCase kv.1 ∉ EXECUTION_FIELDS) manifest.
Proof.
  unfold rejectExecutionFields. destruct (find _ _) as [[]|] eqn:E; [done|]. intros _. apply Forall_forall. intros kv Hin.
  apply list_elem_of_In in Hin. pose proof (find_none _ _ E _ Hin) as H. by apply bool_decide_eq_false in H.
Qed.

Lemma inspect_at_careful : keeps (inspect_at root) package_ok.
Proof.
  eapply triple_bind; [apply lift_careful; intros p; apply inside_below|]. intros p Hp.
  eapply triple_bind; [by apply readBoundedRegularFile_careful|]. intros manifestRaw _.
  eapply triple_bind; [apply lift_careful; intros m; apply parseJsonRecord_Ok|]. intros manifest Hm. unfold inspect_manifest.
  eapply triple_bind; [apply lift_careful; intros u; apply rejectExecutionFields_ok|]. intros [] Hx.
  eapply triple_bind; [apply lift_careful; intros id; apply identifier_id_ok|]. intros id Hid.
  eapply triple_bind; [apply lift_careful; intros v; apply boundedText_ok|]. intros version Hv.
  eapply triple_bind; [apply lift_careful; intros v; apply boundedText_ok|]. intros description Hd.
  eapply triple_bind; [by apply lift_careful with (Q := fun _ => True)|]. intros interface _.
  eapply triple_bind; [by apply lift_careful with (Q := fun _ => True)|]. intros displayName _.
  eapply triple_bind; [apply lift_careful; intros o Ho; exact (fun x => publisherName_ok _ _ _ x Ho)|]. intros publisher Hp'.
  eapply (triple_bind _ _ _ (fun o => forall x, o = Some x -> line_ok 1 128 x)).
  { apply lift_careful. intros o Ho x ->. destruct interface as [i|]; [|done]. by eapply optionalBoundedText_ok. }
  intros category Hc. eapply triple_bind; [apply read_mcp_careful|]. intros [mcpRaw servers] Hs.
  eapply triple_bind; [by apply read_apps_careful|]. intros [[appRaw servers'] warnings] [Hs1 Hs2].
  eapply triple_bind; [apply read_skills_careful|]. intros skills [Hk1 Hk2].
  eapply triple_bind; [apply read_harness_careful|]. intros [harnessRaw h] Hh.
  apply triple_ret. split_and!; cbn [i_review r_id r_version r_description r_publisher r_category r_mcpServers i_skills r_skills r_harness r_manifestHash]; try done.
  - intros x H%if_text_Some. by apply Hp'.
  - intros x H%if_text_Some. by apply Hc.
  - cbn in Hh. destruct h; [|done]. unfold ids. by rewrite map_map.
  - by exists manifestRaw, manifest, mcpRaw, appRaw, harnessRaw.
Qed.
End careful.

Lemma inspect_cases root : (inspectLocalPluginPackage root []).2 = [] /\ is_ok (inspectLocalPluginPackage root []).1 = false \/
  (inspectLocalPluginPackage root []).2 = [Realpath root] /\ is_ok (inspectLocalPluginPackage root []).1 = false \/
  exists packageRoot, realpath fs [] root = Ok packageRoot /\
    inspectLocalPluginPackage root [] = inspect_at packageRoot [Realpath root].
Proof.
  unfold inspectLocalPluginPackage. rewrite M_bind_run. unfold js_guard. destruct (negb (root_ok root)); [by left|right].
  unfold attempt. rewrite !M_bind_run. cbn [ask_fs app]. change (lift ?r ?log) with (r, log).
  destruct (realpath fs [] root) as [p|e]; [right|by left]. by exists p.
Qed.

(** C15: An inspection touches nothing outside the package, and reads no file
    that [lstat] has not just said to be a regular one of a bounded size,
    whatever the file system answers and however it changes in between; and a
    package it accepts has a bounded description under an allowed name, at
    most 16 MCP servers that are credential-free HTTPS endpoints or plain
    executable names, at most 32 skills, a harness extension that only
    tightens, and no manifest field that would run something. *)
Theorem inspection_is_confined root :
  let (r, log) := inspectLocalPluginPackage root [] in
  (log = [] \/ log = [Realpath root] \/
   exists packageRoot, realpath fs [] root = Ok packageRoot /\ careful [Realpath root] packageRoot log) /\
  forall p, r = Ok p -> package_ok p.
Proof.
  destruct (inspect_cases root) as [[Hl Hr]|[[Hl Hr]|(pr & Hp & ->)]].
  1,2: destruct (inspectLocalPluginPackage root []) as [r log]; cbn in Hl, Hr; subst log; split; [by auto|by intros p ->].
  destruct (inspect_at_careful [Realpath root] pr [Realpath root] (careful_start _ _)) as [Hc Hq].
  destruct (inspect_at pr [Realpath root]) as [r log]. split; [right; right; by exists pr|exact Hq].
Qed.

End Inspection.

(** ** The hash of the manifest *)

Lemma tokens_app A l : split_char NUL (join [NUL] (l ++ [A])) = concat (map (split_char NUL) (l ++ [A])).
Proof.
  induction l as [|x l IH]; [by cbn; rewrite app_nil_r|]. cbn [app map concat]. rewrite <- IH.
  destruct (l ++ [A]) as [|y k] eqn:E; [by destruct l|].
  change (join [NUL] (x :: y :: k)) with (x ++ NUL :: join [NUL] (y :: k)). apply split_char_app_sep.
Qed.
Lemma tokens l : l <> [] -> split_char NUL (join [NUL] l) = concat (map (split_char NUL) l).
Proof. intros H. destruct (exists_last H) as (l' & A & ->). apply tokens_app. Qed.
Lemma last_occurrence {A} (x : A) l k l' k' : l ++ x :: k = l' ++ x :: k' -> x ∉ k -> x ∉ k' -> l = l' /\ k = k'.
Proof.
  intros H Hk Hk'. assert (Hin : forall m : list A, x ∈ m ++ x :: k /\ x ∈ m ++ x :: k') by (intros m; split; apply elem_of_app; right; left).
  apply app_eq_inv in H as [(m & -> & H)|(m & -> & H)]; (destruct m as [|y m]; cbn in H; [injection H as ->; by rewrite app_nil_r|]);
    injection H as <- ->; exfalso; destruct (Hin m); tauto.
Qed.

(** The parts of a text that [JSON.parse] accepts hold no NUL, nor do paths;
    [harness] is neither of these nor a hash. *)
Definition plain_token (t : jstr) : Prop := NUL ∉ t /\ t <> js "harness".
Definition hashable (manifestRaw mcpRaw harnessRaw : jstr) (skills : list InspectedPluginSkill) : Prop :=
  NUL ∉ manifestRaw /\ NUL ∉ mcpRaw /\ plain_token harnessRaw /\
  Forall (fun s => plain_token (k_relativePath (descriptor s)) /\ plain_token (k_contentHash (descriptor s))) skills.

Lemma split_named name raw : NUL ∉ js name -> split_char NUL (js name ++ [NUL] ++ raw) = js name :: split_char NUL raw.
Proof. intros H. cbn [app]. by rewrite split_char_app. Qed.
Definition two_tokens (part : jstr) : Prop := exists a b, split_char NUL part = [a; b] /\ plain_token a /\ plain_token b.
Lemma concat_pairs l l' : Forall two_tokens l -> Forall two_tokens l' ->
  concat (map (split_char NUL) l) = concat (map (split_char NUL) l') -> l = l'.
Proof.
  intros H. revert l'. induction H as [|p l (a & b & Hp & _) _ IH]; intros l' H' E; destruct H' as [|p' l' (a' & b' & Hp' & _) H'];
    cbn in E; rewrite ?Hp, ?Hp' in E; try done.
  injection E as -> -> E. f_equal; [|by apply IH].
  rewrite <- (join_split_char NUL p), <- (join_split_char NUL p'). by rewrite Hp, Hp'.
Qed.
Lemma skill_parts_two skills : Forall (fun s => plain_token (k_relativePath (descriptor s)) /\ plain_token (k_contentHash (descriptor s))) skills ->
  Forall two_tokens (sort_by jstr_compare (map skill_part skills)).
Proof.
  intros H. rewrite sort_by_perm. apply Forall_map. eapply Forall_impl; [exact H|]. intros s [Hr Hc]. cbn.
  eexists _, _. split; [|split; [exact Hr|exact Hc]]. unfold skill_part. cbn [app].
  rewrite split_char_app by apply Hr. by rewrite split_char_none by apply Hc.
Qed.
Lemma hash_tokens M C A H skills : hashable M C H skills ->
  split_char NUL (join [NUL] (hash_parts M C A H skills)) =
  [js "manifest"; M; js "mcp"; C; js "app"] ++ split_char NUL A ++ js "harness" :: H ::
  concat (map (split_char NUL) (sort_by jstr_compare (map skill_part skills))).
Proof.
  intros (HM & HC & [HH _] & _). rewrite tokens by done. unfold hash_parts. rewrite map_app, concat_app. cbn [map concat].
  rewrite !split_named by (intros E; apply (bool_decide_eq_true_2 _) in E; by vm_compute in E).
  rewrite (split_char_none NUL M), (split_char_none NUL C), (split_char_none NUL H) by done.
  cbn [app]. by rewrite <- app_assoc.
Qed.
Lemma no_harness_token l : Forall two_tokens l -> js "harness" ∉ concat (map (split_char NUL) l).
Proof.
  induction 1 as [|p l (a & b & Hp & [_ Ha] & [_ Hb]) _ IH]; cbn; [apply not_elem_of_nil|].
  rewrite Hp. cbn. rewrite !not_elem_of_cons. by split_and!.
Qed.

(** The text whose hash pins a package determines the package: two
    packages that are hashed alike have the same manifest, the same server,
    app and harness files, and the same skills by path and content hash, even
    though the app file may hold any text. *)
Theorem manifest_hash_pins_package M C A H skills M' C' A' H' skills' :
  hashable M C H skills -> hashable M' C' H' skills' ->
  join [NUL] (hash_parts M C A H skills) = join [NUL] (hash_parts M' C' A' H' skills') ->
  M = M' /\ C = C' /\ A = A' /\ H = H' /\ map skill_part skills ≡ₚ map skill_part skills'.
Proof.
  intros Hh Hh' E. apply (f_equal (split_char NUL)) in E. rewrite !hash_tokens in E by done.
  cbn [app] in E. injection E as -> -> E.
  destruct Hh as (_ & _ & [_ HH] & Hs%skill_parts_two), Hh' as (_ & _ & [_ HH'] & Hs'%skill_parts_two).
  apply last_occurrence in E as [EA ET].
  2,3: apply not_elem_of_cons; split; [by intros <-|by apply no_harness_token].
  injection ET as -> ET. apply concat_pairs in ET; [|done..]. split_and!; [done..| |done|].
  - by rewrite <- (join_split_char NUL A), <- (join_split_char NUL A'), EA.
  - by rewrite <- (sort_by_perm jstr_compare (map skill_part skills)), ET, sort_by_perm.
Qed.

(** ** A package *)

(** A disk of files and directories; [follow] resolves the links among the
    directories of a path. *)
Definition disk (files : list (jstr * jstr)) (dirs : list (jstr * list Dirent)) (follow : jstr -> jstr) : FileSystem := {|
  realpath := fun _ p => Ok p;
  lstat := fun _ p =>
    match find (fun f => bool_decide (f.1 = follow p)) files with
    | Some f => Stat (Regular (utf8_len f.2))
    | None => if existsb (fun d => bool_decide (d.1 = follow p)) dirs then Stat Directory else LstatError true (Error [])
    end;
  readFile := fun _ p => match find (fun f => bool_decide (f.1 = follow p)) files with Some f => Ok f.2 | None => fail "ENOENT" end;
  readdir := fun _ p => match find (fun d => bool_decide (d.1 = follow p)) dirs with Some d => Ok d.2 | None => fail "ENOENT" end |}.
Definition text (s : string) : value := VString (js s).
Definition manifest (more : list (jstr * value)) : value :=
  VObject ([(js "name", text "review-test"); (js "version", text "1.0.0"); (js "description", text "A test")] ++ more).
Definition servers : value :=
  VObject [(js "linear", VObject [(js "type", text "http"); (js "url", text "https://mcp.linear.app/mcp")]);
           (js "local", VObject [(js "type", text "stdio"); (js "command", text "node"); (js "args", VArray [text "x.js"])])].
Definition extension : value :=
  VObject [(js "policyInterceptors", VArray [VObject [(js "id", text "p"); (js "target", VObject [(js "kind", text "skill"); (js "skillId", text "review")]); (js "decision", text "deny")]]);
           (js "eventObservers", VArray [VObject [(js "id", text "o"); (js "mode", text "sanitized-metadata"); (js "events", VArray [text "tool/started"])]])].
Definition sample_url (s : jstr) : option URL :=
  if starts_with s (js "https://") then Some {| protocol := js "https:"; username := []; password := []; hash := []; href := s |} else None.
Definition sample_hash (s : jstr) : jstr := js "sha" ++ js_int (slen s).
Definition inspect (fs : FileSystem) : result InspectedPluginPackage * list access :=
  inspectLocalPluginPackage sample_parse sample_stringify sample_url sample_hash jstr_compare fs (js "/pkg") [].
Definition json (v : value) : jstr := sample_stringify v.
Definition sample_disk : FileSystem := disk
  [(js "/pkg/.codex-plugin/plugin.json", json (manifest [(js "mcpServers", text "./.mcp.json"); (js "skills", text "./skills/"); (js "harness", text "harness.json")]));
   (js "/pkg/.mcp.json", json servers); (js "/pkg/harness.json", json extension); (js "/pkg/skills/review/SKILL.md", js "# Review  " ++ [13; 10]%N ++ js "Reads a diff.")]
  [(js "/pkg/skills", [{| d_name := js ".git"; d_kind := Directory |}; {| d_name := js "review"; d_kind := Directory |}])] id.
Definition summary (p : InspectedPluginPackage) : list jstr :=
  [r_id (i_review p); r_name (i_review p)] ++ map m_id (r_mcpServers (i_review p)) ++
  map k_relativePath (r_skills (i_review p)) ++ map k_name (r_skills (i_review p)) ++
  omap k_description (r_skills (i_review p)).
Example sample_package : summary <$> (inspect sample_disk).1 =
  Ok (map js ["review-test"; "review-test"; "linear"; "local"; "skills/review/SKILL.md"; "Review"; "Reads a diff."]%string).
Proof. vm_compute. reflexivity. Qed.

Definition sample_skills : list InspectedPluginSkill :=
  [{| descriptor := {| k_id := js "a"; k_name := js "a"; k_description := None; k_relativePath := js "skills/a/SKILL.md"; k_contentHash := js "00"; k_bytes := 1 |};
      content := js "x" |}].
Lemma sample_hashable : hashable (js "{}") [] [] sample_skills.
Proof. repeat (apply conj || apply Forall_cons_2); try apply Forall_nil_2; try discriminate; refine (bool_decide_unpack _ _); vm_compute; exact I. Qed.
Lemma manifest_hash_pins_package_witness : js "{}" = js "{}" /\ map skill_part sample_skills ≡ₚ map skill_part sample_skills.
Proof.
  destruct (manifest_hash_pins_package (js "{}") [] [0%N] [] sample_skills (js "{}") [] [0%N] [] sample_skills
    sample_hashable sample_hashable eq_refl) as (H1 & _ & _ & _ & H2). by split.
Defined.

(** [lstat] looks at the last name of a path only: a directory of the package
    that is a link leads out of it, and the file behind it is read. *)
Definition follow_link (p : jstr) : jstr := if starts_with p (js "/pkg/link/") then js "/outside/" ++ drop 10 p else p.
Example linked_directory_leaves_the_package :
  let (r, log) := inspect (disk
    [(js "/pkg/.codex-plugin/plugin.json", json (manifest [(js "mcpServers", text "./link/mcp.json")]));
     (js "/outside/mcp.json", json servers)] [] follow_link) in
  is_ok r = true /\ last log = Some (ReadFile (js "/pkg/link/mcp.json")) /\ follow_link (js "/pkg/link/mcp.json") = js "/outside/mcp.json".
Proof. vm_compute. done. Qed.
(** Names are trimmed after they were told apart. *)
Example servers_share_an_id :
  map m_id <$> parseMcpServers sample_parse sample_stringify sample_url sample_hash jstr_compare (json (VObject
    [(js "db", VObject [(js "command", text "node")]); (js "db ", VObject [(js "command", text "python")])])) =
  Ok [js "db"; js "db"].
Proof. vm_compute. reflexivity. Qed.
(** A plugin named like an inherited property finds a bridge that has no url. *)
Example inherited_bridge :
  sourceNerveAppMcpBridge sample_parse sample_stringify sample_url sample_hash (js "constructor")
    (json (VObject [(js "apps", VObject [(js "undefined", VObject [(js "id", text "connector_1")])])])) =
  err [js "Plugin constructor SourceNerve MCP bridge URL is invalid"].
Proof. vm_compute. reflexivity. Qed.

End PluginPackage.
