(* ===== verification/PluginRegistry.v ===== *)
(** * The registry of installed plugins (plugin-registry.ts)

    The registry keeps the installed plugins and who owns which MCP extension,
    in memory and in one JSON file. A replacement checks the whole snapshot,
    writes it, and then installs what the check returned; a load checks what
    it reads with the same function.

    [JSON] is an argument. *)

From S2P Require Import Prelude JsValue JsObject Utf8 Validate Codec LocalFile Regex TaskPolicy JsonCodec PluginManifest PluginPackage.

Module PluginRegistry.
Import PluginManifest PluginPackage.

Definition REGISTRY_SCHEMA_VERSION : Z := 1.
Definition MAX_REGISTRY_BYTES : Z := 2 * 1024 * 1024.
Definition MAX_PLUGINS : Z := 128.
Definition MAX_OWNERSHIP : Z := 512.

Inductive PluginStatus := installed | enabled_ | disabled | error | updating.
Inductive PluginSourceKind := local | catalog | github | https.
#[global] Instance PluginSourceKind_eq_dec : EqDecision PluginSourceKind. Proof. solve_decision. Defined.
Record PluginSourceView := { so_kind : PluginSourceKind; so_label : jstr }.
Record InstalledPluginRecord := {
  id : jstr; name : jstr; version : jstr; description : jstr; publisher : option jstr; category : option jstr;
  source : PluginSourceView; status : PluginStatus; enabled : bool; manifestHash : jstr;
  mcpExtensionIds : list jstr; skills : list PluginSkillView; harness : option PluginHarnessExtension;
  installedAt : Z; updatedAt : Z }.
Record PluginMcpOwnershipRecord := { extensionId : jstr; definitionHash : jstr; owners : list jstr; directInstall : bool }.
Record PluginRegistrySnapshot := { plugins : list InstalledPluginRecord; mcpOwnership : list PluginMcpOwnershipRecord }.

Definition status_names : list (string * PluginStatus) :=
  [("installed", installed); ("enabled", enabled_); ("disabled", disabled); ("error", error); ("updating", updating)]%string.
Definition kind_names : list (string * PluginSourceKind) :=
  [("local", local); ("catalog", catalog); ("github", github); ("https", https)]%string.
Definition decision_names : list (string * policy_decision) := [("ask", ask); ("deny", deny)]%string.
Definition mode_names : list (string * sandbox_mode) := [("read-only", read_only); ("workspace-write", workspace_write)]%string.
Definition enforcement_names : list (string * sandbox_enforcement) := [("partial", partial); ("unavailable", unavailable)]%string.

(** ** Field readers

    A label is the beginning of the error's message; the value comes last. *)

Definition invalid_field {A} (label : jstr) : result A := err [label; js " is invalid"].
Definition boundedText (max : Z) (label : jstr) (v : value) : result jstr := PluginManifest.boundedText v 1 max label.
Definition identifier (max : Z) (label : jstr) (v : value) : result jstr :=
  text ← boundedText max label v; if identifier_ok text then Ok text else invalid_field label.
(** [/^[a-f0-9]{64}$/] *)
Definition lower_hex (u : N) : bool := (is_digit u || (97 <=? u) && (u <=? 102))%N.
Definition hash_ok (s : jstr) : bool := TaskPolicy.fits (replicate 64 lower_hex) s.
Definition sha256 (label : jstr) (v : value) : result jstr :=
  match v with VString s => if hash_ok s then Ok s else invalid_field label | _ => invalid_field label end.
Definition integer (min max : Z) (label : jstr) (v : value) : result Z :=
  match v with
  | VNumber n => match safe_in_range min max n with Some z => Ok z | None => invalid_field label end
  | _ => invalid_field label
  end.
Definition timestamp : jstr -> value -> result Z := integer 0 MAX_SAFE_INTEGER.
Definition boolean (message : jstr) (v : value) : result bool := match v with VBool b => Ok b | _ => err [message] end.
(** A string of a table, or the message *)
Definition matches {A} (table : list (string * A)) (message : jstr) (v : value) : result A :=
  match v with
  | VString s => match enum_lookup table s with Some a => Ok a | None => err [message] end
  | _ => err [message]
  end.
(** [value !== undefined ? { field: f(value) } : {}] *)
Definition if_defined {A} (f : value -> result A) (v : value) : result (option A) :=
  match v with VUndefined => Ok None | _ => Some <$> f v end.
Definition record_of (message : jstr) (v : value) : result (list (jstr * value)) :=
  match is_record v with Some fs => Ok fs | None => err [message] end.
Definition array_of (max : Z) (message : jstr) (v : value) : result (list value) :=
  match v with VArray l => if max <? size l then err [message] else Ok l | _ => err [message] end.

(** [values.map(...)] where each item is checked against the ids of the items
    before it *)
Fixpoint map_seen {A} (key : A -> jstr) (f : list jstr -> value -> result A) (seen : list jstr) (l : list value) : result (list A) :=
  match l with
  | [] => Ok []
  | v :: l' => a ← f seen v; rest ← map_seen key f (key a :: seen) l'; Ok (a :: rest)
  end.

Definition stringList (maxItems maxLength : Z) (label : jstr) (v : value) : result (list jstr) :=
  l ← array_of maxItems (label ++ js " is invalid") v;
  map_seen (fun s => s) (fun seen item =>
    text ← identifier maxLength label item;
    if bool_decide (text ∈ seen) then err [label; js " contains duplicate "; text] else Ok text) [] l.

Definition escapes (p : jstr) : bool := bool_decide (p = js "..") || starts_with p (js "../") || includes p (js "/../").
Definition safeRelativePath (label : jstr) (v : value) : result jstr :=
  text ← boundedText 512 label v;
  let text := TaskPolicy.to_slashes text in
  if starts_with text [Path.SLASH] || TaskPolicy.has_drive text then err [label; js " must be relative"] else
  let normalized := posix_normalize text in
  if escapes normalized then err [label; js " escapes the managed root"] else Ok normalized.

(** ** Plugins *)

Definition validateSource (pluginId : jstr) (v : value) : result PluginSourceView :=
  let label := js "plugin " ++ pluginId ++ js " source" in
  fs ← record_of (label ++ js " is invalid") v;
  kind ← matches kind_names (label ++ js " kind is invalid") (field fs (js "kind"));
  text ← boundedText 1024 (label ++ js " label") (field fs (js "label"));
  Ok {| so_kind := kind; so_label := text |}.

Definition validateSkill (pluginId : jstr) (seen : list jstr) (v : value) : result PluginSkillView :=
  let plugin := js "plugin " ++ pluginId in
  fs ← record_of (plugin ++ js " skill is invalid") v;
  id ← identifier 64 (plugin ++ js " skill id") (field fs (js "id"));
  if bool_decide (id ∈ seen) then err [plugin; js " has duplicate skill "; id] else
  let label := plugin ++ js " skill " ++ id in
  bytes ← integer 0 (128 * 1024) (label ++ js " bytes") (field fs (js "bytes"));
  name ← boundedText 128 (label ++ js " name") (field fs (js "name"));
  description ← if_defined (boundedText 512 (label ++ js " description")) (field fs (js "description"));
  relativePath ← safeRelativePath (label ++ js " path") (field fs (js "relativePath"));
  contentHash ← sha256 (label ++ js " hash") (field fs (js "contentHash"));
  Ok {| k_id := id; k_name := name; k_description := description; k_relativePath := relativePath;
        k_contentHash := contentHash; k_bytes := bytes |}.
Definition validateSkills (pluginId : jstr) (v : value) : result (list PluginSkillView) :=
  l ← array_of 32 (js "plugin " ++ pluginId ++ js " has invalid skills") v;
  map_seen k_id (validateSkill pluginId) [] l.

Definition itemArray (label : jstr) (v : value) : result (list value) := array_of MAX_HARNESS_ITEMS (label ++ js " are invalid") v.

Definition validatePolicy (plugin : jstr) (skillIds : list jstr) (hasMcp : bool) (v : value) : result PluginHarnessPolicyInterceptor :=
  let label := plugin ++ js " Harness policy" in
  fs ← record_of (label ++ js " is invalid") v;
  id ← identifier 64 (label ++ js " id") (field fs (js "id"));
  let label := label ++ js " " ++ id in
  target ← record_of (label ++ js " target is invalid") (field fs (js "target"));
  target ← (if is_string (field target (js "kind")) (js "skill") then
              (skillId ← identifier 64 (label ++ js " skill") (field target (js "skillId"));
               if bool_decide (skillId ∈ skillIds) then Ok (target_skill skillId) else err [label; js " references unknown skill"])
            else if is_string (field target (js "kind")) (js "mcp") then
              (if hasMcp then Ok target_mcp else err [plugin; js " Harness MCP policy has no MCP component"])
            else err [label; js " target is invalid"]);
  decision ← matches decision_names (label ++ js " cannot weaken central policy") (field fs (js "decision"));
  Ok {| p_id := id; p_target := target; p_decision := decision |}.

Definition validateJobProvider (plugin : jstr) (v : value) : result PluginHarnessJobProvider :=
  let label := plugin ++ js " Harness job provider" in
  fs ← record_of (label ++ js " is invalid") v;
  id ← identifier 64 (label ++ js " id") (field fs (js "id"));
  if is_string (field fs (js "runtime")) (js "harness-job") then Ok {| j_id := id |}
  else err [label; js " "; id; js " runtime is invalid"].

Definition validateSandboxProvider (plugin : jstr) (v : value) : result PluginHarnessSandboxProvider :=
  let label := plugin ++ js " Harness sandbox provider" in
  fs ← record_of (label ++ js " is invalid") v;
  id ← identifier 64 (label ++ js " id") (field fs (js "id"));
  let label := label ++ js " " ++ id in
  match field fs (js "modes") with
  | VArray l =>
      if (size l =? 0) || (2 <? size l) then err [label; js " modes are invalid"] else
      modes ← map_result (matches mode_names (label ++ js " mode is invalid")) l;
      if negb (bool_decide (NoDup modes)) then err [label; js " modes duplicate"] else
      enforcement ← matches enforcement_names (label ++ js " enforcement is invalid") (field fs (js "enforcement"));
      Ok {| s_id := id; s_modes := modes; s_enforcement := enforcement |}
  | _ => err [label; js " modes are invalid"]
  end.

Definition validateContextProvider (plugin : jstr) (skillIds : list jstr) (v : value) : result PluginHarnessContextProvider :=
  let label := plugin ++ js " Harness context provider" in
  fs ← record_of (label ++ js " is invalid") v;
  id ← identifier 64 (label ++ js " id") (field fs (js "id"));
  skillId ← identifier 64 (label ++ js " " ++ id ++ js " skill") (field fs (js "skillId"));
  if bool_decide (skillId ∈ skillIds) then Ok {| c_id := id; c_skillId := skillId |}
  else err [label; js " "; id; js " references unknown skill"].

Definition observed_event (label : jstr) (v : value) : result jstr :=
  text ← boundedText 64 (label ++ js " event") v;
  if bool_decide (text ∈ HARNESS_OBSERVER_EVENTS) then Ok text else err [label; js " event is invalid"].
Definition validateEventObserver (plugin : jstr) (v : value) : result PluginHarnessEventObserver :=
  let label := plugin ++ js " Harness event observer" in
  fs ← record_of (label ++ js " is invalid") v;
  id ← identifier 64 (label ++ js " id") (field fs (js "id"));
  let label := label ++ js " " ++ id in
  if negb (is_string (field fs (js "mode")) (js "sanitized-metadata")) then err [label; js " mode is invalid"] else
  match field fs (js "events") with
  | VArray l =>
      if (size l =? 0) || (MAX_HARNESS_EVENTS <? size l) then err [label; js " events are invalid"] else
      events ← map_result (observed_event (plugin ++ js " Harness observer " ++ id)) l;
      if negb (bool_decide (NoDup events)) then err [label; js " events duplicate"]
      else Ok {| o_id := id; o_events := events |}
  | _ => err [label; js " events are invalid"]
  end.

Definition validateHarness (pluginId : jstr) (skillIds : list jstr) (hasMcp : bool) (v : value) : result PluginHarnessExtension :=
  let plugin := js "plugin " ++ pluginId in
  fs ← record_of (plugin ++ js " Harness extension is invalid") v;
  policies ← (l ← itemArray (plugin ++ js " Harness policies") (field fs (js "policyInterceptors"));
              map_result (validatePolicy plugin skillIds hasMcp) l);
  jobs ← (l ← itemArray (plugin ++ js " Harness job providers") (field fs (js "jobProviders")); map_result (validateJobProvider plugin) l);
  sandboxes ← (l ← itemArray (plugin ++ js " Harness sandbox providers") (field fs (js "sandboxProviders"));
               map_result (validateSandboxProvider plugin) l);
  contexts ← (l ← itemArray (plugin ++ js " Harness context providers") (field fs (js "contextProviders"));
              map_result (validateContextProvider plugin skillIds) l);
  observers ← (l ← itemArray (plugin ++ js " Harness event observers") (field fs (js "eventObservers"));
               map_result (validateEventObserver plugin) l);
  let h := {| configHash := []; policyInterceptors := policies; jobProviders := jobs; sandboxProviders := sandboxes;
              contextProviders := contexts; eventObservers := observers |} in
  if negb (bool_decide (NoDup (registrations h))) then err [plugin; js " Harness registrations contain duplicates"] else
  hash ← sha256 (plugin ++ js " Harness config hash") (field fs (js "configHash"));
  Ok {| configHash := hash; policyInterceptors := policies; jobProviders := jobs; sandboxProviders := sandboxes;
        contextProviders := contexts; eventObservers := observers |}.

Definition validatePlugin (seen : list jstr) (v : value) : result InstalledPluginRecord :=
  fs ← record_of (js "Desktop plugin registry item is invalid") v;
  id ← identifier 64 (js "plugin id") (field fs (js "id"));
  if bool_decide (id ∈ seen) then err [js "duplicate plugin id: "; id] else
  let label := js "plugin " ++ id in
  status ← matches status_names (js "invalid plugin status: " ++ id) (field fs (js "status"));
  enabled ← boolean (js "invalid plugin enabled flag: " ++ id) (field fs (js "enabled"));
  source ← validateSource id (field fs (js "source"));
  mcpExtensionIds ← stringList 64 128 (label ++ js " MCP ids") (field fs (js "mcpExtensionIds"));
  skills ← validateSkills id (field fs (js "skills"));
  harness ← if_defined (validateHarness id (ids skills) (negb (bool_decide (mcpExtensionIds = [])))) (field fs (js "harness"));
  installedAt ← timestamp (label ++ js " installedAt") (field fs (js "installedAt"));
  updatedAt ← timestamp (label ++ js " updatedAt") (field fs (js "updatedAt"));
  name ← boundedText 128 (label ++ js " name") (field fs (js "name"));
  version ← boundedText 64 (label ++ js " version") (field fs (js "version"));
  description ← boundedText 4096 (label ++ js " description") (field fs (js "description"));
  publisher ← if_defined (boundedText 256 (label ++ js " publisher")) (field fs (js "publisher"));
  category ← if_defined (boundedText 128 (label ++ js " category")) (field fs (js "category"));
  manifestHash ← sha256 (label ++ js " manifest hash") (field fs (js "manifestHash"));
  Ok {| id := id; name := name; version := version; description := description; publisher := publisher; category := category;
        source := source; status := status; enabled := enabled; manifestHash := manifestHash;
        mcpExtensionIds := mcpExtensionIds; skills := skills; harness := harness; installedAt := installedAt; updatedAt := updatedAt |}.

Definition validateOwnership (pluginIds : list jstr) (seen : list jstr) (v : value) : result PluginMcpOwnershipRecord :=
  fs ← record_of (js "Desktop plugin MCP ownership item is invalid") v;
  extensionId ← identifier 64 (js "MCP ownership extension id") (field fs (js "extensionId"));
  if bool_decide (extensionId ∈ seen) then err [js "duplicate MCP ownership extension id: "; extensionId] else
  let label := js "MCP ownership " ++ extensionId in
  directInstall ← boolean (js "invalid direct-install marker: " ++ extensionId) (field fs (js "directInstall"));
  owners ← stringList MAX_PLUGINS 64 (label ++ js " owners") (field fs (js "owners"));
  match find (fun owner => negb (bool_decide (owner ∈ pluginIds))) owners with
  | Some owner => err [label; js " references unknown plugin "; owner]
  | None =>
      definitionHash ← sha256 (label ++ js " definition hash") (field fs (js "definitionHash"));
      Ok {| extensionId := extensionId; definitionHash := definitionHash; owners := owners; directInstall := directInstall |}
  end.

Definition validateRegistry (v : value) : result PluginRegistrySnapshot :=
  match is_record v with
  | None => fail "Desktop plugin registry has invalid schema"
  | Some fs =>
      if negb (is_int (field fs (js "schemaVersion")) REGISTRY_SCHEMA_VERSION) then fail "Desktop plugin registry has invalid schema" else
      pluginValues ← array_of MAX_PLUGINS (js "Desktop plugin registry exceeds 128 plugin limit") (field fs (js "plugins"));
      ownershipValues ← array_of MAX_OWNERSHIP (js "Desktop plugin registry exceeds 512 MCP ownership limit") (field fs (js "mcpOwnership"));
      plugins ← map_seen id validatePlugin [] pluginValues;
      mcpOwnership ← map_seen extensionId (validateOwnership (map id plugins)) [] ownershipValues;
      Ok {| plugins := plugins; mcpOwnership := mcpOwnership |}
  end.

(** ** The objects written *)

Definition texts_value : list jstr -> value := list_value VString.
(** An optional field, which is left out of the object *)
Definition optional_text (o : option jstr) : value := match o with Some s => VString s | None => VUndefined end.
Definition name_value {A} (table : list (string * A)) `{EqDecision A} (a : A) : value :=
  match find (fun p => bool_decide (p.2 = a)) table with Some (s, _) => VString (js s) | None => VUndefined end.
#[export] Instance PluginStatus_eq_dec : EqDecision PluginStatus. Proof. solve_decision. Defined.
#[export] Instance policy_decision_eq_dec : EqDecision policy_decision. Proof. solve_decision. Defined.
#[export] Instance sandbox_enforcement_eq_dec : EqDecision sandbox_enforcement. Proof. solve_decision. Defined.

Definition source_value (s : PluginSourceView) : value :=
  VObject [(js "kind", name_value kind_names (so_kind s)); (js "label", VString (so_label s))].
Definition skill_value (k : PluginSkillView) : value :=
  VObject ((js "id", VString (k_id k)) :: (js "name", VString (k_name k)) :: opt_field "description" (optional_text (k_description k))
    [(js "relativePath", VString (k_relativePath k)); (js "contentHash", VString (k_contentHash k)); (js "bytes", VInt (k_bytes k))]).
Definition target_value (t : PluginHarnessPolicyTarget) : value :=
  match t with
  | target_skill s => VObject [(js "kind", VString (js "skill")); (js "skillId", VString s)]
  | target_mcp => VObject [(js "kind", VString (js "mcp"))]
  end.
Definition policy_value (x : PluginHarnessPolicyInterceptor) : value :=
  VObject [(js "id", VString (p_id x)); (js "target", target_value (p_target x)); (js "decision", name_value decision_names (p_decision x))].
Definition job_value (x : PluginHarnessJobProvider) : value :=
  VObject [(js "id", VString (j_id x)); (js "runtime", VString (js "harness-job"))].
Definition sandbox_value (x : PluginHarnessSandboxProvider) : value :=
  VObject [(js "id", VString (s_id x)); (js "modes", list_value (name_value mode_names) (s_modes x));
           (js "enforcement", name_value enforcement_names (s_enforcement x))].
Definition context_value (x : PluginHarnessContextProvider) : value :=
  VObject [(js "id", VString (c_id x)); (js "skillId", VString (c_skillId x))].
Definition observer_value (x : PluginHarnessEventObserver) : value :=
  VObject [(js "id", VString (o_id x)); (js "events", texts_value (o_events x)); (js "mode", VString (js "sanitized-metadata"))].
Definition harness_value (h : PluginHarnessExtension) : value :=
  VObject [(js "configHash", VString (configHash h)); (js "policyInterceptors", list_value policy_value (policyInterceptors h));
           (js "jobProviders", list_value job_value (jobProviders h)); (js "sandboxProviders", list_value sandbox_value (sandboxProviders h));
           (js "contextProviders", list_value context_value (contextProviders h)); (js "eventObservers", list_value observer_value (eventObservers h))].
Definition optional_harness (o : option PluginHarnessExtension) : value := match o with Some h => harness_value h | None => VUndefined end.
Definition plugin_value (p : InstalledPluginRecord) : value :=
  VObject ((js "id", VString (id p)) :: (js "name", VString (name p)) :: (js "version", VString (version p)) ::
    (js "description", VString (description p)) :: opt_field "publisher" (optional_text (publisher p))
    (opt_field "category" (optional_text (category p))
    ((js "source", source_value (source p)) :: (js "status", name_value status_names (status p)) :: (js "enabled", VBool (enabled p)) ::
     (js "manifestHash", VString (manifestHash p)) :: (js "mcpExtensionIds", texts_value (mcpExtensionIds p)) ::
     (js "skills", list_value skill_value (skills p)) :: opt_field "harness" (optional_harness (harness p))
     [(js "installedAt", VInt (installedAt p)); (js "updatedAt", VInt (updatedAt p))]))).
Definition ownership_value (r : PluginMcpOwnershipRecord) : value :=
  VObject [(js "extensionId", VString (extensionId r)); (js "definitionHash", VString (definitionHash r));
           (js "owners", texts_value (owners r)); (js "directInstall", VBool (directInstall r))].
Definition registry_value (s : PluginRegistrySnapshot) : value :=
  VObject [(js "schemaVersion", VInt REGISTRY_SCHEMA_VERSION); (js "plugins", list_value plugin_value (plugins s));
           (js "mcpOwnership", list_value ownership_value (mcpOwnership s))].

(** ** What a check returns *)

(** Text on one line, without space around it *)
Definition line (max : Z) (s : jstr) : Prop := text_fits 1 max s = true /\ trim s = s.
Definition ident (max : Z) (s : jstr) : Prop := line max s /\ identifier_ok s = true.
Definition in_range (min max z : Z) : Prop := min <= z <= max.

#[export] Instance codec_text max label : Codec (boundedText max label) VString (line max).
Proof.
  split; unfold boundedText, line; cbn [PluginManifest.boundedText].
  - intros [| | | |t| |] s; try done. cbn. destruct (text_fits 1 max t) eqn:E; [|done]. intros [= <-].
    pose proof (trim_trimmed t) as Ht. split; [|exact Ht]. unfold trimmed in Ht. revert E. unfold text_fits. rewrite Ht. intros E. to_prop.
    pose proof (trim_slen t). rewrite !andb_true_iff, negb_true_iff, !Z.leb_le. split_and!; try lia. by apply trim_no_control.
  - intros s [H1 H2]. cbn. by rewrite H1, H2.
Qed.
#[export] Instance codec_ident max label : Codec (identifier max label) VString (ident max).
Proof.
  split; unfold identifier.
  - intros v s. intros (t & Ht & H)%bind_Ok. apply (codec_sound (f := boundedText max label)) in Ht.
    destruct (identifier_ok t) eqn:E; [|done]. by injection H as <-.
  - intros s [Hs E]. rewrite (codec_bind (boundedText max label) VString (line max)) by done. by rewrite E.
Qed.
#[export] Instance codec_sha label : Codec (sha256 label) VString (fun s => hash_ok s = true).
Proof.
  split; unfold sha256.
  - intros [| | | |t| |] s; try done. destruct (hash_ok t) eqn:E; [|done]. by intros [= <-].
  - intros s ->. done.
Qed.
Lemma codec_integer min max label : MIN_SAFE_INTEGER <= min -> max <= MAX_SAFE_INTEGER -> Codec (integer min max label) VInt (in_range min max).
Proof.
  intros H1 H2. split; unfold integer.
  - intros [| | |n| | |] z; try done. destruct (safe_in_range min max n) eqn:E; [|done]. intros [= <-].
    by apply safe_in_range_Some in E as (_ & ? & _).
  - intros z Hz. cbn. by rewrite safe_in_range_NInt by (unfold in_range in Hz; lia).
Qed.
#[export] Instance codec_bytes label : Codec (integer 0 (128 * 1024) label) VInt (in_range 0 (128 * 1024)).
Proof. by apply codec_integer. Qed.
#[export] Instance codec_timestamp label : Codec (timestamp label) VInt (in_range 0 MAX_SAFE_INTEGER).
Proof. by apply codec_integer. Qed.
#[export] Instance codec_boolean message : Codec (boolean message) VBool (fun _ => True).
Proof. by split. Qed.
Lemma codec_matches {A} `{EqDecision A} (table : list (string * A)) message :
  (forall a, matches table [] (name_value table a) = Ok a) -> Codec (matches table message) (name_value table) (fun _ => True).
Proof.
  intros H. split; [done|]. intros a _. specialize (H a). unfold matches in *. destruct (name_value table a); try done.
  by destruct (enum_lookup table s).
Qed.
#[export] Instance codec_status message : Codec (matches status_names message) (name_value status_names) (fun _ => True).
Proof. apply codec_matches. by intros []. Qed.
#[export] Instance codec_kind message : Codec (matches kind_names message) (name_value kind_names) (fun _ => True).
Proof. apply codec_matches. by intros []. Qed.
#[export] Instance codec_decision message : Codec (matches decision_names message) (name_value decision_names) (fun _ => True).
Proof. apply codec_matches. by intros []. Qed.
#[export] Instance codec_mode message : Codec (matches mode_names message) (name_value mode_names) (fun _ => True).
Proof. apply codec_matches. by intros []. Qed.
#[export] Instance codec_enforcement message : Codec (matches enforcement_names message) (name_value enforcement_names) (fun _ => True).
Proof. apply codec_matches. by intros []. Qed.

#[export] Instance codec_optional_text max label : Codec (if_defined (boundedText max label)) optional_text (opt_ok (line max)).
Proof.
  split; unfold if_defined.
  - intros v [s|] H; [|done]. destruct v; try done; apply fmap_Ok in H as (t & H & [= <-]);
      by apply (codec_sound (f := boundedText max label)) in H.
  - intros [s|] H; [|done]. cbn [optional_text]. cbn [opt_ok] in H. by rewrite (codec_complete (f := boundedText max label) s H).
Qed.

(** ** Lists whose items have distinct keys *)

Section MapSeen.
Context {A : Type} (key : A -> jstr) (f : list jstr -> value -> result A).

Lemma map_seen_sound (P : A -> Prop) : (forall seen v a, f seen v = Ok a -> P a /\ key a ∉ seen) ->
  forall l seen k, map_seen key f seen l = Ok k ->
  Forall P k /\ NoDup (map key k) /\ Forall (fun a => key a ∉ seen) k /\ length k = length l.
Proof.
  intros Hf l. induction l as [|v l IH]; intros seen k H; cbn [map_seen] in H; [injection H as <-; split_and!; constructor|].
  inv_ok. match goal with H : f _ _ = Ok ?a, H' : map_seen _ _ _ _ = Ok ?r |- _ =>
    rename a into a0, r into r0; apply Hf in H as [Hp Hs]; apply IH in H' as (HP & Hn & Hd & Hl) end.
  rewrite Forall_forall in Hd. split_and!.
  - by constructor.
  - cbn. constructor; [|done]. intros (b & Eb & Hb)%list_elem_of_fmap. apply (Hd b Hb). rewrite <- Eb. by left.
  - constructor; [done|]. apply Forall_forall. intros b Hb Hin. apply (Hd b Hb). by right.
  - cbn. by rewrite Hl.
Qed.
Lemma map_seen_complete (g : A -> value) (P : A -> Prop) : (forall seen a, P a -> key a ∉ seen -> f seen (g a) = Ok a) ->
  forall k seen, Forall P k -> NoDup (map key k) -> Forall (fun a => key a ∉ seen) k -> map_seen key f seen (map g k) = Ok k.
Proof.
  intros Hf k. induction k as [|a k IH]; intros seen Hk Hn Hs; [done|]. cbn [map_seen map] in *.
  apply Forall_cons in Hk as [Ha Hk]. apply Forall_cons in Hs as [Hsa Hs]. apply NoDup_cons in Hn as [Hna Hn].
  rewrite Hf by done. cbn [mbind result_bind]. rewrite IH; [done..|]. rewrite Forall_forall in Hs |- *.
  intros b Hb. apply not_elem_of_cons. split; [|by apply Hs]. intros E. apply Hna. rewrite <- E. by apply list_elem_of_fmap_2.
Qed.
End MapSeen.

Lemma array_of_Ok max message v l : array_of max message v = Ok l <-> v = VArray l /\ size l <= max.
Proof.
  unfold array_of. destruct v as [| | | | |k|]; try (split; [done|by intros [[=] _]]).
  destruct (Z.ltb_spec max (size k)); split; [done|intros [[= ->] ?]; lia|by intros [= ->]|by intros [[= ->] _]].
Qed.
Lemma array_of_list {A} (g : A -> value) max message (k : list A) : size k <= max -> array_of max message (list_value g k) = Ok (map g k).
Proof. intros H. apply array_of_Ok. split; [done|]. unfold size in *. by rewrite length_map. Qed.

Definition distinct_idents (maxItems maxLength : Z) (l : list jstr) : Prop :=
  size l <= maxItems /\ Forall (ident maxLength) l /\ NoDup l.
#[export] Instance codec_stringList maxItems maxLength label :
  Codec (stringList maxItems maxLength label) texts_value (distinct_idents maxItems maxLength).
Proof.
  split; unfold stringList.
  - intros v k (l & [-> Hl]%array_of_Ok & H)%bind_Ok.
    apply (map_seen_sound _ _ (ident maxLength)) in H as (H1 & H2 & _ & H3).
    + rewrite map_id in H2. split_and!; [|done..]. unfold size in *. lia.
    + intros seen w a (t & Ht & H')%bind_Ok. apply (codec_sound (f := identifier maxLength label)) in Ht.
      case_bool_decide; [done|]. by injection H' as <-.
  - intros k (H1 & H2 & H3). unfold texts_value. rewrite array_of_list by done. cbn [mbind result_bind].
    apply map_seen_complete with (P := ident maxLength); [|done|by rewrite map_id|apply Forall_forall; intros; apply not_elem_of_nil].
    intros seen a Ha Hs. rewrite (codec_bind (identifier maxLength label) VString (ident maxLength)) by done. by rewrite bool_decide_eq_false_2.
Qed.

(** ** Well-formed snapshots *)

Definition source_ok (s : PluginSourceView) : Prop := line 1024 (so_label s).
(** A path stays below the plugin's directory. *)
Definition registered_skill_ok (k : PluginSkillView) : Prop :=
  ident 64 (k_id k) /\ in_range 0 (128 * 1024) (k_bytes k) /\ line 128 (k_name k) /\ opt_ok (line 512) (k_description k) /\
  escapes (k_relativePath k) = false /\ hash_ok (k_contentHash k) = true.
(** A path that the registry does not change: [safeRelativePath] trims before
    it resolves the dots, so a second check may change or refuse what the
    first one returned. *)
Definition path_stable (p : jstr) : Prop := safeRelativePath [] (VString p) = Ok p.
Definition registered_policy_ok (skillIds : list jstr) (hasMcp : bool) (x : PluginHarnessPolicyInterceptor) : Prop :=
  ident 64 (p_id x) /\ match p_target x with target_skill s => ident 64 s /\ s ∈ skillIds | target_mcp => hasMcp = true end.
Definition registered_sandbox_ok (x : PluginHarnessSandboxProvider) : Prop :=
  ident 64 (s_id x) /\ in_range 1 2 (size (s_modes x)) /\ NoDup (s_modes x).
Definition registered_context_ok (skillIds : list jstr) (x : PluginHarnessContextProvider) : Prop :=
  ident 64 (c_id x) /\ ident 64 (c_skillId x) /\ c_skillId x ∈ skillIds.
Definition registered_observer_ok (x : PluginHarnessEventObserver) : Prop :=
  ident 64 (o_id x) /\ in_range 1 MAX_HARNESS_EVENTS (size (o_events x)) /\
  Forall (fun e => line 64 e /\ e ∈ HARNESS_OBSERVER_EVENTS) (o_events x) /\ NoDup (o_events x).
Definition items_ok {A} (P : A -> Prop) (l : list A) : Prop := Forall P l /\ size l <= MAX_HARNESS_ITEMS.
Definition registered_harness_ok (skillIds : list jstr) (hasMcp : bool) (h : PluginHarnessExtension) : Prop :=
  items_ok (registered_policy_ok skillIds hasMcp) (policyInterceptors h) /\ items_ok (fun x => ident 64 (j_id x)) (jobProviders h) /\
  items_ok registered_sandbox_ok (sandboxProviders h) /\ items_ok (registered_context_ok skillIds) (contextProviders h) /\
  items_ok registered_observer_ok (eventObservers h) /\ NoDup (registrations h) /\ hash_ok (configHash h) = true.
Definition plugin_ok (p : InstalledPluginRecord) : Prop :=
  ident 64 (id p) /\ line 128 (name p) /\ line 64 (version p) /\ line 4096 (description p) /\
  opt_ok (line 256) (publisher p) /\ opt_ok (line 128) (category p) /\ source_ok (source p) /\ hash_ok (manifestHash p) = true /\
  distinct_idents 64 128 (mcpExtensionIds p) /\
  (Forall registered_skill_ok (skills p) /\ NoDup (ids (skills p)) /\ size (skills p) <= 32) /\
  opt_ok (registered_harness_ok (ids (skills p)) (negb (bool_decide (mcpExtensionIds p = [])))) (harness p) /\
  in_range 0 MAX_SAFE_INTEGER (installedAt p) /\ in_range 0 MAX_SAFE_INTEGER (updatedAt p).
Definition ownership_ok (pluginIds : list jstr) (r : PluginMcpOwnershipRecord) : Prop :=
  ident 64 (extensionId r) /\ hash_ok (definitionHash r) = true /\ distinct_idents MAX_PLUGINS 64 (owners r) /\
  Forall (fun o => o ∈ pluginIds) (owners r).
Definition snapshot_ok (s : PluginRegistrySnapshot) : Prop :=
  (Forall plugin_ok (plugins s) /\ NoDup (map id (plugins s)) /\ size (plugins s) <= MAX_PLUGINS) /\
  (Forall (ownership_ok (map id (plugins s))) (mcpOwnership s) /\ NoDup (map extensionId (mcpOwnership s)) /\
   size (mcpOwnership s) <= MAX_OWNERSHIP).
Definition paths_stable (s : PluginRegistrySnapshot) : Prop :=
  Forall (fun p => Forall (fun k => path_stable (k_relativePath k)) (skills p)) (plugins s).

(** *** What passes is well-formed *)

Lemma record_of_Ok message v fs : record_of message v = Ok fs <-> v = VObject fs.
Proof. unfold record_of. destruct v; cbn; naive_solver. Qed.

(** Take a successful reader apart. *)
Ltac read_ok := repeat match goal with
  | H : (_ ≫= _) = Ok _ |- _ => apply bind_Ok in H as (? & ? & H)
  | H : record_of _ _ = Ok _ |- _ => apply record_of_Ok in H
  | H : array_of _ _ _ = Ok _ |- _ => apply array_of_Ok in H as [? ?]
  | H : (if bool_decide _ then _ else _) = Ok _ |- _ => case_bool_decide; try discriminate H
  | H : (if negb (bool_decide _) then _ else _) = Ok _ |- _ => case_bool_decide; cbn [negb] in H; try discriminate H
  | H : (if ?b then _ else _) = Ok _ |- _ => destruct b eqn:?; try discriminate H
  | H : match ?x with _ => _ end = Ok _ |- _ => destruct x eqn:?; try discriminate H
  | H : Ok _ = Ok _ |- _ => injection H as <-
  end.

Lemma safeRelativePath_ok label v p : safeRelativePath label v = Ok p -> escapes p = false.
Proof. unfold safeRelativePath. cbv zeta. intros H. by read_ok. Qed.
Lemma validateSource_ok pluginId v s : validateSource pluginId v = Ok s -> source_ok s.
Proof. unfold validateSource. cbv zeta. intros H. read_ok. decoded. done. Qed.
Lemma validateSkill_ok pluginId seen v k : validateSkill pluginId seen v = Ok k -> registered_skill_ok k /\ k_id k ∉ seen.
Proof.
  unfold validateSkill. cbv zeta. intros H. read_ok.
  match goal with H : safeRelativePath _ _ = Ok _ |- _ => apply safeRelativePath_ok in H end. decoded. by split_and!.
Qed.
Lemma validateSkills_ok pluginId v l : validateSkills pluginId v = Ok l ->
  Forall registered_skill_ok l /\ NoDup (ids l) /\ size l <= 32.
Proof.
  unfold validateSkills. intros (vs & [-> Hvs]%array_of_Ok & H)%bind_Ok.
  apply (map_seen_sound _ _ registered_skill_ok) in H as (H1 & H2 & _ & H3); [|apply validateSkill_ok].
  split_and!; [done..|]. unfold size in *. lia.
Qed.

Lemma validatePolicy_ok plugin skillIds hasMcp v x : validatePolicy plugin skillIds hasMcp v = Ok x -> registered_policy_ok skillIds hasMcp x.
Proof. unfold validatePolicy. cbv zeta. intros H. read_ok; decoded; by split. Qed.
Lemma validateJobProvider_ok plugin v x : validateJobProvider plugin v = Ok x -> ident 64 (j_id x).
Proof. unfold validateJobProvider. cbv zeta. intros H. read_ok. by decoded. Qed.
Lemma counted {A} (l : list A) max : (size l =? 0) || (max <? size l) = false -> in_range 1 max (size l).
Proof. intros H. unfold in_range, size in *. to_prop. lia. Qed.
Lemma map_result_size {A B} (f : A -> result B) l k : map_result f l = Ok k -> size k = size l.
Proof. intros H. unfold size. by rewrite (map_result_length f l k H). Qed.
Lemma validateSandboxProvider_ok plugin v x : validateSandboxProvider plugin v = Ok x -> registered_sandbox_ok x.
Proof.
  unfold validateSandboxProvider. cbv zeta. intros H. read_ok.
  match goal with H : map_result _ _ = Ok _ |- _ => apply map_result_size in H as Hs end. decoded.
  split_and!; cbn; [done| |done]. rewrite Hs. by apply counted.
Qed.
Lemma validateContextProvider_ok plugin skillIds v x : validateContextProvider plugin skillIds v = Ok x -> registered_context_ok skillIds x.
Proof. unfold validateContextProvider. cbv zeta. intros H. read_ok. decoded. by split_and!. Qed.
Lemma observed_event_ok label v e : observed_event label v = Ok e -> line 64 e /\ e ∈ HARNESS_OBSERVER_EVENTS.
Proof. unfold observed_event. intros H. read_ok. by decoded. Qed.
Lemma validateEventObserver_ok plugin v x : validateEventObserver plugin v = Ok x -> registered_observer_ok x.
Proof.
  unfold validateEventObserver. cbv zeta. intros H. read_ok.
  match goal with H : map_result _ _ = Ok _ |- _ => apply map_result_size in H as Hs;
    eapply map_result_Forall in H; [|intros ? ?; apply observed_event_ok] end. decoded.
  split_and!; cbn; [done| |done|done]. rewrite Hs. by apply counted.
Qed.
Lemma items_of_ok {A} (P : A -> Prop) (f : value -> result A) label v k : (forall v x, f v = Ok x -> P x) ->
  (l ← itemArray label v; map_result f l) = Ok k -> items_ok P k.
Proof.
  intros Hf (l & [-> Hl]%array_of_Ok & H)%bind_Ok. split; [by eapply map_result_Forall|]. by rewrite (map_result_size f l k H).
Qed.
Lemma validateHarness_ok pluginId skillIds hasMcp v h : validateHarness pluginId skillIds hasMcp v = Ok h ->
  registered_harness_ok skillIds hasMcp h.
Proof.
  unfold validateHarness. cbv zeta.
  intros (fs & _ & (ps & H1 & (js' & H2 & (ss & H3 & (cs & H4 & (os & H5 & H)%bind_Ok)%bind_Ok)%bind_Ok)%bind_Ok)%bind_Ok)%bind_Ok.
  apply (items_of_ok (registered_policy_ok skillIds hasMcp)) in H1; [|apply validatePolicy_ok].
  apply (items_of_ok (fun x => ident 64 (j_id x))) in H2; [|apply validateJobProvider_ok].
  apply (items_of_ok registered_sandbox_ok) in H3; [|apply validateSandboxProvider_ok].
  apply (items_of_ok (registered_context_ok skillIds)) in H4; [|apply validateContextProvider_ok].
  apply (items_of_ok registered_observer_ok) in H5; [|apply validateEventObserver_ok].
  read_ok. decoded. by split_and!.
Qed.
Lemma if_defined_ok {A} (P : A -> Prop) (f : value -> result A) v o : (forall v a, f v = Ok a -> P a) -> if_defined f v = Ok o -> opt_ok P o.
Proof. intros Hf H. destruct o as [a|]; [|done]. unfold if_defined in H. destruct v; try done; apply fmap_Ok in H as (c0 & H & [= <-]); by eapply Hf. Qed.

Lemma validatePlugin_ok seen v p : validatePlugin seen v = Ok p -> plugin_ok p /\ id p ∉ seen.
Proof.
  unfold validatePlugin. cbv zeta. intros H. read_ok.
  match goal with H : validateSource _ _ = Ok _ |- _ => apply validateSource_ok in H end.
  match goal with H : validateSkills _ _ = Ok _ |- _ => apply validateSkills_ok in H as (? & ? & ?) end.
  match goal with H : if_defined (validateHarness _ _ _) _ = Ok _ |- _ => eapply if_defined_ok in H; [|intros ? ?; apply validateHarness_ok] end.
  decoded. by split_and!.
Qed.
Lemma find_None_Forall {A} (f : A -> bool) l : find f l = None -> Forall (fun x => f x = false) l.
Proof. induction l as [|x l IH]; intros H; [constructor|]. cbn in H. destruct (f x) eqn:E; [done|]. constructor; auto. Qed.
Lemma validateOwnership_ok pluginIds seen v r : validateOwnership pluginIds seen v = Ok r -> ownership_ok pluginIds r /\ extensionId r ∉ seen.
Proof.
  unfold validateOwnership. cbv zeta. intros H. read_ok. decoded. split; [|done]. split_and!; try done.
  eapply Forall_impl; [by apply find_None_Forall|]. intros o Ho. cbn in Ho. apply negb_false_iff in Ho. by apply bool_decide_eq_true in Ho.
Qed.
Lemma validateRegistry_ok v s : validateRegistry v = Ok s -> snapshot_ok s.
Proof.
  unfold validateRegistry. intros H. read_ok.
  repeat match goal with
  | H : map_seen id _ _ _ = Ok _ |- _ => apply (map_seen_sound _ _ plugin_ok) in H as (? & ? & _ & ?); [|apply validatePlugin_ok]
  | H : map_seen extensionId (validateOwnership ?ids) _ _ = Ok _ |- _ =>
      apply (map_seen_sound _ _ (ownership_ok ids)) in H as (? & ? & _ & ?); [|apply validateOwnership_ok]
  end.
  unfold size in *. split; (split_and!; cbn; [done..|]; unfold size; lia).
Qed.

(** *** A well-formed snapshot passes unchanged *)

Lemma record_of_object message fs : record_of message (VObject fs) = Ok fs. Proof. done. Qed.
(** Run a reader on an object it wrote. *)
Lemma is_string_same s : is_string (VString s) s = true.
Proof. unfold is_string. by apply bool_decide_eq_true_2. Qed.
Lemma is_string_other s t : bool_decide (s = t) = false -> is_string (VString s) t = false.
Proof. done. Qed.
Ltac rerun := repeat first
  [ rewrite is_string_same | rewrite is_string_other by (vm_compute; reflexivity) | rewrite record_of_object | progress cbn [mbind result_bind] | progress read_opt_fields | decode_field
  | rewrite bool_decide_eq_false_2 by done | rewrite bool_decide_eq_true_2 by done ].

#[export] Instance codec_source pluginId : Codec (validateSource pluginId) source_value source_ok.
Proof.
  split; [apply validateSource_ok|]. intros s Hs. unfold validateSource, source_value, source_ok in *. cbv zeta. rerun. by destruct s.
Qed.
Lemma safeRelativePath_label label v q : safeRelativePath [] v = Ok q -> safeRelativePath label v = Ok q.
Proof.
  unfold safeRelativePath. cbv zeta. intros (t & Ht & H)%bind_Ok.
  assert (boundedText 512 label v = Ok t) as ->.
  { unfold boundedText, PluginManifest.boundedText in *. destruct v; try done. by destruct (text_fits _ _ _). }
  cbn [mbind result_bind]. read_ok. done.
Qed.
Lemma validateSkill_complete pluginId seen k : registered_skill_ok k -> path_stable (k_relativePath k) -> k_id k ∉ seen ->
  validateSkill pluginId seen (skill_value k) = Ok k.
Proof.
  intros (H1 & H2 & H3 & H4 & H5 & H6) Hp Hs. unfold validateSkill, skill_value. cbv zeta. rerun.
  rewrite (safeRelativePath_label _ _ _ Hp). rerun. by destruct k.
Qed.
Lemma validateSkills_complete pluginId l : Forall registered_skill_ok l -> NoDup (ids l) -> size l <= 32 ->
  Forall (fun k => path_stable (k_relativePath k)) l -> validateSkills pluginId (list_value skill_value l) = Ok l.
Proof.
  intros H1 H2 H3 H4. unfold validateSkills. rewrite array_of_list by done. cbn [mbind result_bind].
  apply map_seen_complete with (P := fun k => registered_skill_ok k /\ path_stable (k_relativePath k)); [|by apply Forall_and|done|].
  - intros seen k [Hk Hp] Hs. by apply validateSkill_complete.
  - apply Forall_forall. intros. apply not_elem_of_nil.
Qed.

#[export] Instance codec_policy plugin skillIds hasMcp :
  Codec (validatePolicy plugin skillIds hasMcp) policy_value (registered_policy_ok skillIds hasMcp).
Proof.
  split; [apply validatePolicy_ok|]. intros x [Hi Ht]. unfold validatePolicy, policy_value. cbv zeta. rerun.
  destruct (p_target x) as [s|] eqn:E; unfold target_value.
  - destruct Ht as [Hs Hin]. rerun. rewrite <- E. by destruct x.
  - rerun. rewrite Ht. rerun.
    rewrite <- E. by destruct x.
Qed.
#[export] Instance codec_job plugin : Codec (validateJobProvider plugin) job_value (fun x => ident 64 (j_id x)).
Proof.
  split; [apply validateJobProvider_ok|]. intros x Hi. unfold validateJobProvider, job_value. cbv zeta. rerun.
  by destruct x.
Qed.
Lemma counted_true {A} (l : list A) max : in_range 1 max (size l) -> (size l =? 0) || (max <? size l) = false.
Proof. unfold in_range. intros H. apply orb_false_iff. split; [apply Z.eqb_neq|apply Z.ltb_ge]; lia. Qed.
#[export] Instance codec_sandbox plugin : Codec (validateSandboxProvider plugin) sandbox_value registered_sandbox_ok.
Proof.
  split; [apply validateSandboxProvider_ok|]. intros x (Hi & Hn & Hd). unfold validateSandboxProvider, sandbox_value. cbv zeta. rerun.
  unfold list_value at 1. rewrite size_map, counted_true by done.
  rewrite (codec_map_result _ (name_value mode_names) (fun _ => True)) by apply list_any. rerun. cbn [negb]. rerun. by destruct x.
Qed.
#[export] Instance codec_context plugin skillIds : Codec (validateContextProvider plugin skillIds) context_value (registered_context_ok skillIds).
Proof.
  split; [apply validateContextProvider_ok|]. intros x (Hi & Hs & Hin). unfold validateContextProvider, context_value. cbv zeta. rerun.
  by destruct x.
Qed.
#[export] Instance codec_event label : Codec (observed_event label) VString (fun e => line 64 e /\ e ∈ HARNESS_OBSERVER_EVENTS).
Proof. split; [apply observed_event_ok|]. intros e [H1 H2]. unfold observed_event. rerun. done. Qed.
#[export] Instance codec_observer plugin : Codec (validateEventObserver plugin) observer_value registered_observer_ok.
Proof.
  split; [apply validateEventObserver_ok|]. intros x (Hi & Hn & He & Hd). unfold validateEventObserver, observer_value. cbv zeta. rerun. cbn [negb]. rerun.
  unfold texts_value, list_value at 1. rewrite size_map, counted_true by done.
  rewrite (codec_map_result _ VString _ _ He). rerun. cbn [negb]. by destruct x.
Qed.
Lemma items_complete {A} (f : value -> result A) g P `{!Codec f g P} label k : items_ok P k ->
  (l ← itemArray label (list_value g k); map_result f l) = Ok k.
Proof. intros [H1 H2]. unfold itemArray. rewrite array_of_list by done. cbn [mbind result_bind]. by apply (codec_map_result f g P). Qed.
#[export] Instance codec_harness pluginId skillIds hasMcp :
  Codec (validateHarness pluginId skillIds hasMcp) harness_value (registered_harness_ok skillIds hasMcp).
Proof.
  split; [apply validateHarness_ok|]. intros h (H1 & H2 & H3 & H4 & H5 & H6 & H7). unfold validateHarness, harness_value. cbv zeta.
  rewrite record_of_object. cbn [mbind result_bind]. read_opt_fields.
  rewrite (items_complete (validatePolicy (js "plugin " ++ pluginId) skillIds hasMcp) _ _ _ _ H1). cbn [mbind result_bind].
  rewrite (items_complete (validateJobProvider (js "plugin " ++ pluginId)) _ _ _ _ H2). cbn [mbind result_bind].
  rewrite (items_complete (validateSandboxProvider (js "plugin " ++ pluginId)) _ _ _ _ H3). cbn [mbind result_bind].
  rewrite (items_complete (validateContextProvider (js "plugin " ++ pluginId) skillIds) _ _ _ _ H4). cbn [mbind result_bind].
  rewrite (items_complete (validateEventObserver (js "plugin " ++ pluginId)) _ _ _ _ H5). cbn [mbind result_bind].
  unfold registrations in *. cbn [policyInterceptors jobProviders sandboxProviders contextProviders eventObservers].
  rewrite bool_decide_eq_true_2 by done. cbn [negb]. rerun. by destruct h.
Qed.
#[export] Instance codec_optional_harness pluginId skillIds hasMcp :
  Codec (if_defined (validateHarness pluginId skillIds hasMcp)) optional_harness (opt_ok (registered_harness_ok skillIds hasMcp)).
Proof.
  split; [intros v o; apply if_defined_ok, validateHarness_ok|]. intros [h|] H; [|done]. cbn [optional_harness opt_ok] in *.
  unfold if_defined. change (harness_value h) with (VObject (match harness_value h with VObject fs => fs | _ => [] end)) at 1. cbv iota.
  by rewrite (codec_complete (f := validateHarness pluginId skillIds hasMcp) h H).
Qed.

Lemma validatePlugin_complete seen p : plugin_ok p -> Forall (fun k => path_stable (k_relativePath k)) (skills p) -> id p ∉ seen ->
  validatePlugin seen (plugin_value p) = Ok p.
Proof.
  intros (H1 & H2 & H3 & H4 & H5 & H6 & H7 & H8 & H9 & (Ha & Hb & Hc) & Hd & He & Hf) Hp Hs.
  unfold validatePlugin, plugin_value. cbv zeta. rerun. rewrite validateSkills_complete by done. rerun. by destruct p.
Qed.
Lemma find_none {A} (f : A -> bool) l : Forall (fun x => f x = false) l -> find f l = None.
Proof. induction 1 as [|x l Hx _ IH]; [done|]. cbn. by rewrite Hx. Qed.
Lemma validateOwnership_complete pluginIds seen r : ownership_ok pluginIds r -> extensionId r ∉ seen ->
  validateOwnership pluginIds seen (ownership_value r) = Ok r.
Proof.
  intros (H1 & H2 & H3 & H4) Hs. unfold validateOwnership, ownership_value. cbv zeta. rerun.
  rewrite find_none.
  - rerun. by destruct r.
  - eapply Forall_impl; [exact H4|]. intros o Ho. cbn. by rewrite bool_decide_eq_true_2.
Qed.
Lemma plugin_registry_complete s : snapshot_ok s -> paths_stable s -> validateRegistry (registry_value s) = Ok s.
Proof.
  intros ((H1 & H2 & H3) & (H4 & H5 & H6)) Hp. unfold validateRegistry, registry_value. cbn [is_record]. read_opt_fields.
  change (negb (is_int _ _)) with false. cbv iota. rewrite !array_of_list by done. cbn [mbind result_bind].
  rewrite map_seen_complete with (P := fun p => plugin_ok p /\ Forall (fun k => path_stable (k_relativePath k)) (skills p)).
  - cbn [mbind result_bind]. rewrite map_seen_complete with (P := ownership_ok (map id (plugins s))); [by destruct s| |done|done|].
    + intros seen r. apply validateOwnership_complete.
    + apply Forall_forall. intros. apply not_elem_of_nil.
  - intros seen p [Hok Hst]. by apply validatePlugin_complete.
  - by apply Forall_and.
  - done.
  - apply Forall_forall. intros. apply not_elem_of_nil.
Qed.

(** ** The registry and its file *)

Definition empty : PluginRegistrySnapshot := {| plugins := []; mcpOwnership := [] |}.
Record Registry := { disk : Disk; snapshot : PluginRegistrySnapshot }.

Section Store.
Context (JSON_parse : jstr -> result value) (JSON_stringify : value -> jstr).
Context (filePath pid : jstr).

Definition temporary (now : Z) : jstr := filePath ++ js ".tmp-" ++ pid ++ js "-" ++ js_int now.
Definition serialize (s : PluginRegistrySnapshot) : jstr := JSON_stringify (registry_value s) ++ [10%N].

(** [None] is the answer for a missing file. *)
Definition loadPluginRegistry (file : read_outcome) : result (option PluginRegistrySnapshot) :=
  match file with
  | Missing => Ok None
  | ReadError e => Throw e
  | Contents raw =>
      _ ← require (utf8_len raw <=? MAX_REGISTRY_BYTES) "Desktop plugin registry exceeds 2 MiB limit";
      parsed ← JSON_parse raw;
      Some <$> validateRegistry parsed
  end.
Definition on_disk {A} (m : M Disk A) : M Registry A := fun r =>
  let (a, d) := m (disk r) in (a, {| disk := d; snapshot := snapshot r |}).
Definition set_snapshot (s : PluginRegistrySnapshot) : M Registry unit := modify (fun r => {| disk := disk r; snapshot := s |}).

Definition savePluginRegistry (fault : write_fault) (now : Z) (s : PluginRegistrySnapshot) : M Disk unit :=
  _ ← js_guard (MAX_REGISTRY_BYTES <? utf8_len (serialize s)) "Desktop plugin registry exceeds 2 MiB limit";
  replaceFile fault (temporary now) filePath (serialize s).

Definition initialize : M Registry unit :=
  r ← get_state;
  loaded ← lift (loadPluginRegistry (LocalFile.readFile (disk r) filePath));
  set_snapshot (default empty loaded).
Definition replace (fault : write_fault) (now : Z) (s : PluginRegistrySnapshot) : M Registry unit :=
  validated ← lift (validateRegistry (registry_value s));
  _ ← on_disk (savePluginRegistry fault now validated);
  set_snapshot validated.

(** What a replacement does: it installs and writes what the check returned,
    or it rejects and neither the file nor the memory changes. *)
Lemma replace_cases fault now s r :
  let (a, r') := replace fault now s r in
  if is_ok a then exists t, validateRegistry (registry_value s) = Ok t /\ snapshot r' = t /\
    utf8_len (serialize t) <= MAX_REGISTRY_BYTES /\ disk r' !! filePath = Some (serialize t)
  else snapshot r' = snapshot r /\ disk r' !! filePath = disk r !! filePath.
Proof.
  unfold replace. rewrite M_bind_run. change (lift ?r ?log) with (r, log).
  destruct (validateRegistry (registry_value s)) as [t|e] eqn:E; cbn iota beta; [|by split].
  rewrite M_bind_run. unfold on_disk, savePluginRegistry, js_guard. rewrite M_bind_run.
  destruct (Z.ltb_spec MAX_REGISTRY_BYTES (utf8_len (serialize t))) as [Hs|Hs]; [by split|]. cbn iota beta.
  assert (Hne : temporary now <> filePath) by (unfold temporary; by apply temporary_ne).
  pose proof (replaceFile_atomic fault (temporary now) filePath (serialize t) (disk r) Hne) as H.
  destruct (replaceFile _ _ _ _ _) as [a d]. destruct H as [Ha Hd].
  destruct a as [[]|e]; cbn in Ha |- *; rewrite <- Ha in Hd; [|by split].
  exists t. by split_and!.
Qed.

(** The memory is what a restart would read. *)
Definition durable (r : Registry) : Prop :=
  snapshot_ok (snapshot r) /\ paths_stable (snapshot r) /\
  (disk r !! filePath = None /\ snapshot r = empty \/
   disk r !! filePath = Some (serialize (snapshot r)) /\ utf8_len (serialize (snapshot r)) <= MAX_REGISTRY_BYTES).

Context (json_inverse : forall s, JSON_parse (serialize s) = Ok (registry_value s)).

Lemma load_durable r : durable r -> initialize r = (Ok tt, r).
Proof.
  intros (Hok & Hst & Hd). unfold initialize, get_state. rewrite !M_bind_run. change (lift ?x ?log) with (x, log). unfold LocalFile.readFile.
  destruct Hd as [[-> He]|[-> Hs]]; cbn iota beta.
  - cbn. f_equal. destruct r as [d s]. cbn in *. by subst.
  - cbn [loadPluginRegistry]. rewrite (proj2 (Z.leb_le _ _) Hs), json_inverse. cbn [require mbind result_bind].
    rewrite plugin_registry_complete by done. cbn. f_equal. by destruct r.
Qed.
(** The snapshot of a plugin whose paths the registry leaves alone is kept
    as it is. *)
Lemma validated_same s t : snapshot_ok s -> paths_stable s -> validateRegistry (registry_value s) = Ok t -> t = s.
Proof. intros H1 H2. rewrite plugin_registry_complete by done. by intros [= <-]. Qed.

(** ** Runs *)

Definition replacement : Type := write_fault * Z * PluginRegistrySnapshot.
Fixpoint run (ops : list replacement) (r : Registry) : Registry :=
  match ops with [] => r | (fault, now, s) :: ops' => run ops' (replace fault now s r).2 end.
(** The snapshot that the last replacement that resolved asked for *)
Fixpoint last_accepted (ops : list replacement) (r : Registry) : option PluginRegistrySnapshot :=
  match ops with
  | [] => None
  | (fault, now, s) :: ops' =>
      let (a, r') := replace fault now s r in
      match last_accepted ops' r' with Some t => Some t | None => if is_ok a then Some s else None end
  end.
(** A snapshot the registry stores as it is: its paths survive the check. *)
Definition storable (s : PluginRegistrySnapshot) : Prop :=
  forall t, validateRegistry (registry_value s) = Ok t -> paths_stable t.

Lemma replace_durable fault now s r : storable s -> durable r -> durable (replace fault now s r).2.
Proof.
  intros Hs (H1 & H2 & H3). pose proof (replace_cases fault now s r) as H. destruct (replace fault now s r) as [a r']. cbn [snd].
  destruct (is_ok a).
  - destruct H as (t & Ht & <- & Hl & Hd). split_and!; [by eapply validateRegistry_ok|by apply Hs|]. right. by split.
  - destruct H as [E1 E2]. unfold durable. by rewrite E1, E2.
Qed.

(** C17: The registry in memory is always well-formed and is what a restart
    reads from its file, from a registry that was loaded and for replacements
    asked for one after another, by
    snapshots whose skill paths the check returns unchanged when it is made a
    second time (the check trims a path after resolving it, so that a path it
    accepts may be changed or refused by the next load:
    [resolved_path_is_trimmed_later]): wherever a
    write fails, plugin ids and extension ids are distinct and bounded, every
    owner of an extension is an installed plugin, a harness policy only
    tightens and refers to what the plugin has, and loading the file gives
    back exactly the snapshot in memory, which is the last one that was
    accepted, as its check returned it. *)
Theorem registry_survives_restart ops r :
  durable r -> Forall (fun op : replacement => storable op.2) ops ->
  let r' := run ops r in
  snapshot_ok (snapshot r') /\ initialize r' = (Ok tt, r') /\
  match last_accepted ops r with
  | Some s => validateRegistry (registry_value s) = Ok (snapshot r')
  | None => snapshot r' = snapshot r
  end.
Proof.
  intros Hr Hops. cbv zeta.
  enough (H : durable (run ops r) /\ match last_accepted ops r with
    | Some s => validateRegistry (registry_value s) = Ok (snapshot (run ops r)) | None => snapshot (run ops r) = snapshot r end).
  { destruct H as [H ?]. split_and!; [apply H|by apply load_durable|done]. }
  revert r Hr. induction Hops as [|[[fault now] s] ops Hs _ IH]; intros r Hr; [done|].
  cbn [run last_accepted]. pose proof (replace_cases fault now s r) as H. pose proof (replace_durable fault now s r Hs Hr) as Hd.
  destruct (replace fault now s r) as [a r1]. cbn [fst snd] in *. destruct (IH r1 Hd) as [H1 H2]. split; [done|].
  destruct (last_accepted ops r1) as [t|]; [done|]. rewrite H2.
  destruct (is_ok a); [by destruct H as (t & Ht & -> & _)|by destruct H].
Qed.
End Store.

(** ** A registry *)

Definition sample_hash_text : jstr := concat (replicate 64 (js "a")).
Definition sample_plugin (name : string) (extensions : list jstr) : InstalledPluginRecord := {|
  id := js name; name := js name; version := js "1.0.0"; description := js "A plugin"; publisher := None; category := Some (js "Tools");
  source := {| so_kind := local; so_label := js "/pkg" |}; status := enabled_; enabled := true; manifestHash := sample_hash_text;
  mcpExtensionIds := extensions;
  skills := [{| k_id := js "review"; k_name := js "Review"; k_description := None; k_relativePath := js "skills/review/SKILL.md";
                k_contentHash := sample_hash_text; k_bytes := 12 |}];
  harness := Some {| configHash := sample_hash_text;
    policyInterceptors := [{| p_id := js "p"; p_target := target_skill (js "review"); p_decision := deny |}]; jobProviders := [];
    sandboxProviders := [{| s_id := js "s"; s_modes := [read_only]; s_enforcement := partial |}]; contextProviders := [];
    eventObservers := [{| o_id := js "o"; o_events := [js "tool/started"] |}] |};
  installedAt := 1; updatedAt := 2 |}.
Definition sample_snapshot : PluginRegistrySnapshot := {|
  plugins := [sample_plugin "one" [js "ext"]; sample_plugin "two" []];
  mcpOwnership := [{| extensionId := js "ext"; definitionHash := sample_hash_text; owners := [js "one"]; directInstall := true |}] |}.
Definition sample_registry : Registry := {| disk := ∅; snapshot := empty |}.
Definition sample_ops : list replacement :=
  [(NoFault, 1, sample_snapshot); (RenameFails, 2, empty); (WriteFails 1, 3, {| plugins := [sample_plugin "one" []]; mcpOwnership := [] |})].

Lemma sample_accepted : validateRegistry (registry_value sample_snapshot) = Ok sample_snapshot.
Proof. vm_compute. reflexivity. Qed.
Lemma paths_stable_check s : forallb (fun p => forallb (fun k =>
  bool_decide (safeRelativePath [] (VString (k_relativePath k)) = Ok (k_relativePath k))) (skills p)) (plugins s) = true -> paths_stable s.
Proof.
  intros H. apply Forall_forall. intros p Hp. apply Forall_forall. intros k Hk. rewrite forallb_forall in H.
  apply list_elem_of_In in Hp, Hk. specialize (H p Hp). cbn beta in H. rewrite forallb_forall in H. specialize (H k Hk).
  by apply bool_decide_eq_true in H.
Qed.
Lemma registry_survives_restart_witness : Forall (fun op : replacement => storable op.2) sample_ops /\
  snapshot_ok (snapshot (run sample_stringify (js "/r") [] sample_ops sample_registry)).
Proof.
  assert (Hops : Forall (fun op : replacement => storable op.2) sample_ops).
  { repeat apply Forall_cons_2; [..|apply Forall_nil_2]; intros t Ht; vm_compute in Ht; injection Ht as <-;
      apply paths_stable_check; vm_compute; reflexivity. }
  split; [exact Hops|].
  refine (proj1 (registry_survives_restart sample_parse sample_stringify (js "/r") [] (fun s => sample_json_line _) sample_ops sample_registry _ Hops)).
  split; [|split; [apply Forall_nil_2|left; split; reflexivity]].
  apply (validateRegistry_ok (registry_value empty)). vm_compute. reflexivity.
Defined.
Example last_write_is_kept : snapshot (run sample_stringify (js "/r") [] sample_ops sample_registry) = sample_snapshot.
Proof. vm_compute. reflexivity. Qed.
(** A path is trimmed before its dots are resolved: what the registry returned
    for the first path is changed by the next check, and what it returned for
    the second is refused by it, so that the file does not load again. *)
Example resolved_path_is_trimmed_later :
  safeRelativePath [] (VString (js "a/../ b")) = Ok (js " b") /\ safeRelativePath [] (VString (js " b")) = Ok (js "b") /\
  safeRelativePath [] (VString (js "a/../c:/b")) = Ok (js "c:/b") /\ is_ok (safeRelativePath [] (VString (js "c:/b"))) = false.
Proof. vm_compute. done. Qed.

End PluginRegistry.
