(* ===== verification/SkillPolicy.v ===== *)
(** * Which plugin skills a workspace uses (workspace-skill-policy.ts)

    A workspace has a policy that includes and excludes skills; the others are
    used when the files of the workspace, or the prompt, mention what they are
    for. The policies are kept in one JSON file.

    [JSON], [localeCompare], the clock and the file system are arguments, and
    so are the two functions that need the tables of Unicode:
    [toLocaleLowerCase] and the replacement of what is no letter or number. *)

From S2P Require Import Prelude JsValue JsMap JsObject Path Utf8 Regex Validate LocalFile JsonCodec PluginManifest PluginPackage.

Module SkillPolicy.
Import PluginManifest PluginPackage.

Definition SCHEMA_VERSION : Z := 1.
Definition MAX_STORE_BYTES : Z := 1024 * 1024.
Definition MAX_POLICIES : Z := 256.
Definition MAX_SKILL_OVERRIDES : Z := 256.
Definition MAX_DISCOVERY_ENTRIES : nat := 768.
Definition MAX_DISCOVERY_DEPTH : nat := 3.
Definition MAX_MANIFEST_BYTES : Z := 256 * 1024.

Definition SKIPPED_DIRECTORIES : list jstr := map js
  [".git"; ".hg"; ".svn"; ".venv"; "build"; "coverage"; "dist"; "node_modules"; "target"; "vendor"]%string.
Definition SIGNAL_ALIASES : list (jstr * list jstr) := map (fun p => (js p.1, map js p.2))
  [("angular", ["angular"; "@angular"]); ("aws", ["aws"; "amazon web services"]); ("azure", ["azure"]);
   ("cargo", ["cargo"; "cargo.toml"]); ("confluence", ["confluence"]); ("django", ["django"]);
   ("docker", ["docker"; "dockerfile"; "compose.yaml"; "docker-compose"]); ("electron", ["electron"]);
   ("fastapi", ["fastapi"]); ("figma", ["figma"]); ("gcp", ["gcp"; "google cloud"]); ("go", ["golang"; "go.mod"; "go.sum"]);
   ("java", ["java"; "maven"; "pom.xml"]); ("jira", ["jira"; "atlassian"]); ("jest", ["jest"]);
   ("kotlin", ["kotlin"; "gradle.kts"]); ("kubernetes", ["kubernetes"; "k8s"; "helm"]); ("mysql", ["mysql"]);
   ("next", ["next"; "nextjs"; "next.js"]); ("node", ["node"; "nodejs"; "package.json"; "npm"; "pnpm"; "yarn"]);
   ("playwright", ["playwright"]); ("postgres", ["postgres"; "postgresql"]); ("prisma", ["prisma"]);
   ("python", ["python"; "pyproject.toml"; "requirements.txt"; "pip"]); ("react", ["react"; "react-dom"]); ("redis", ["redis"]);
   ("rust", ["rust"; "cargo"; "cargo.toml"]); ("svelte", ["svelte"; "sveltekit"]); ("tailwind", ["tailwind"; "tailwindcss"]);
   ("terraform", ["terraform"; ".tf"]); ("typescript", ["typescript"; "tsconfig"; ".ts"; ".tsx"]); ("vite", ["vite"; "vitest"]);
   ("vitest", ["vitest"]); ("vue", ["vue"; "nuxt"])]%string.
Definition GENERIC_SKILL_TOKENS : list jstr := map js
  ["coding"; "debug"; "debugging"; "documentation"; "git"; "guidelines"; "karpathy"; "repository"; "review"; "testing"; "workflow"]%string.
Definition PROMPT_ONLY_SIGNALS : list jstr := map js
  ["aws"; "azure"; "confluence"; "docker"; "figma"; "gcp"; "jira"; "kubernetes"; "terraform"]%string.
(** The Vietnamese terms are given by their code units. *)
Definition AUTOMATIC_SKILL_TASK_TERMS : list jstr := map js
  ["add"; "build"; "change"; "check"; "create"; "debug"; "delete"; "edit"; "fix"; "implement"; "inspect"; "investigate";
   "migrate"; "optimize"; "redesign"; "refactor"; "remove"; "repair"; "resolve"; "review"; "test"; "update"; "verify"]%string ++
  [[99; 224; 105]; [99; 7853; 112; 32; 110; 104; 7853; 116]; [99; 104; 7881; 110; 104]; [273; 7893; 105]; [103; 7905];
   [107; 105; 7875; 109; 32; 116; 114; 97]; [108; 7895; 105]; [115; 7917; 97]; [116; 7841; 111]; [116; 104; 234; 109];
   [116; 104; 105; 7871; 116; 32; 107; 7871]; [120; 243; 97]; [120; 111; 225]]%N.
Definition CONVERSATIONAL_ONLY_PROMPTS : list jstr := map js
  ["hi"; "hello"; "hey"; "yo"; "ok"; "okay"; "thanks"; "thank you"; "yes"; "no"; "continue"]%string ++
  [[116; 105; 7871; 112; 32; 116; 7909; 99]; [99; 104; 224; 111]]%N.

Inductive automation := automatic | manual.
Inductive install_mode := install_manual | skills_only.
#[export] Instance automation_eq_dec : EqDecision automation. Proof. solve_decision. Defined.
#[export] Instance install_mode_eq_dec : EqDecision install_mode. Proof. solve_decision. Defined.
Record WorkspaceSkillPolicyView := {
  workspaceId : jstr; discovery : automation; use : automation; install : install_mode;
  include : list jstr; exclude : list jstr; updatedAt : Z }.

(** ** Text *)

Definition signal_unit (u : N) : bool :=
  ((97 <=? u) && (u <=? 122) || is_digit u || existsb (N.eqb u) (js "@.+_-"))%N.
Definition blanks (s : jstr) : jstr := replace_all (plus space) (fun _ => js " ") s.
Definition normalize (s : jstr) : jstr :=
  trim (blanks (replace_all (plus (Class (fun u => negb (signal_unit u)))) (fun _ => js " ") (toLowerCase s))).

(** [/^[A-Za-z0-9][A-Za-z0-9._-]{0,63}$/] *)
Definition plugin_identifier (s : jstr) : bool := identifier_ok s && (slen s <=? 64).
Definition identifier (v : value) (label : string) : result jstr :=
  match v with
  | VString s => if plugin_identifier s then Ok s else fail (label +:+ " is invalid")
  | _ => fail (label +:+ " is invalid")
  end.
Definition workspaceSkillKey (pluginId skillId : jstr) : result jstr :=
  p ← identifier (VString pluginId) "plugin id";
  s ← identifier (VString skillId) "skill id";
  Ok (p ++ js "/" ++ s).
Definition defaultWorkspaceSkillPolicy (id : jstr) : result WorkspaceSkillPolicyView :=
  id ← identifier (VString id) "workspace id";
  Ok {| workspaceId := id; discovery := automatic; use := automatic; install := skills_only; include := []; exclude := []; updatedAt := 0 |}.

(** ** Signals *)

(** [aliases.some((alias) => text.includes(normalize(alias)))] *)
Definition mentions (text : jstr) (aliases : list jstr) : bool := existsb (fun a => includes text (normalize a)) aliases.
Definition mentioned_signals (text : jstr) : list jstr := map fst (filter (fun p => mentions text p.2 = true) SIGNAL_ALIASES).
Definition sorted : list jstr -> list jstr := sort_by jstr_compare.

Definition discoverPromptSkillSignals (prompt : jstr) : list jstr :=
  let normalized := normalize prompt in
  if negb (truthy normalized) then [] else sorted (mentioned_signals normalized).
Definition promptScopedSkillSignals (workspaceSignals promptSignals : list jstr) : list jstr :=
  let scoped := filter (fun s => s ∉ PROMPT_ONLY_SIGNALS \/ s ∈ promptSignals) workspaceSignals in
  sorted (unique (scoped ++ promptSignals)).

(** [SIGNAL_ALIASES[signal] ?? [signal]]: what objects inherit is no array, and
    calling [some] on it throws. *)
Definition aliases_of (signal : jstr) : result (list jstr) :=
  match get_property SIGNAL_ALIASES signal with
  | Own aliases => Ok aliases
  | Undefined => Ok [signal]
  | FromPrototype => fail "some is not a function"
  end.
Definition skill_text (skill : PluginSkillView) : jstr :=
  normalize (k_id skill ++ js " " ++ k_name skill ++ js " " ++ default [] (k_description skill)).
(** [signals.filter((signal) => aliases(signal).some(...))] *)
Fixpoint matching_signals (text : jstr) (signals : list jstr) : result (list jstr) :=
  match signals with
  | [] => Ok []
  | s :: signals' =>
      aliases ← aliases_of s;
      rest ← matching_signals text signals';
      Ok (if mentions text aliases then s :: rest else rest)
  end.
Definition skillSignalMatches (skill : PluginSkillView) (signals : list jstr) : result (list jstr) :=
  matched ← matching_signals (skill_text skill) signals;
  Ok (sorted (unique matched)).
(** [signals.some(...)] stops at the first signal that matches. *)
Fixpoint catalogIdMatchesSignals (catalogId : jstr) (signals : list jstr) : result bool :=
  match signals with
  | [] => Ok false
  | s :: signals' =>
      aliases ← aliases_of s;
      if mentions (normalize catalogId) aliases then Ok true else catalogIdMatchesSignals catalogId signals'
  end.

(** [/(^| )(manage-skills|skill-optimizer|...)( |$)/] *)
Definition meta_skill : regex := seqs
  [Alt InputStart (one 32); alts (map lit ["manage-skills"; "skill-optimizer"; "skill-scanner"; "skill-check"; "skill-creator"]%string);
   Alt (one 32) InputEnd].
Definition isGenericWorkspaceSkill (skill : PluginSkillView) : bool :=
  let text := skill_text skill in
  if test meta_skill text then true
  else if mentions text (concat (map snd SIGNAL_ALIASES)) then false
  else existsb (fun token => truthy token && bool_decide (token ∈ GENERIC_SKILL_TOKENS)) (split_char 32 text).

Inductive activity_reason := Excluded | Included | DiscoveryDisabled | UseDisabled | General | Matched (signals : list jstr) | NoMatch.
Record activity := { active : bool; generic : bool; matchedSignals : list jstr; reason : activity_reason }.
Definition workspaceSkillIsActive (policy : WorkspaceSkillPolicyView) (pluginId : jstr) (skill : PluginSkillView) (signals : list jstr) :
    result activity :=
  key ← workspaceSkillKey pluginId (k_id skill);
  let g := isGenericWorkspaceSkill skill in
  matched ← skillSignalMatches skill signals;
  let answer a why := Ok {| active := a; generic := g; matchedSignals := matched; reason := why |} in
  if bool_decide (key ∈ exclude policy) then answer false Excluded
  else if bool_decide (key ∈ include policy) then answer true Included
  else if bool_decide (discovery policy = manual) then answer false DiscoveryDisabled
  else if bool_decide (use policy = manual) then answer false UseDisabled
  else if g then answer true General
  else if bool_decide (matched <> []) then answer true (Matched matched)
  else answer false NoMatch.

(** ** Prompts *)

Section Prompts.
Context (toLocaleLowerCase : jstr -> jstr).
(** [replace(/[^\p{L}\p{N}_+-]+/gu, " ")] *)
Context (words_only : jstr -> jstr).

(** [/[.!?]+$/g] *)
Definition end_marks : regex := Seq (plus (Class (any_of ".!?"))) InputEnd.
Definition conversational (prompt : jstr) : jstr := blanks (replace_all end_marks (fun _ => []) (toLocaleLowerCase (trim prompt))).
Definition promptNeedsAutomaticSkills (prompt : jstr) (promptSignals : list jstr) : bool :=
  if bool_decide (promptSignals <> []) then true else
  let said := conversational prompt in
  if negb (truthy said) || bool_decide (said ∈ CONVERSATIONAL_ONLY_PROMPTS) then false else
  let tokenized := js " " ++ trim (blanks (words_only said)) ++ js " " in
  existsb (fun term => includes tokenized (js " " ++ term ++ js " ")) AUTOMATIC_SKILL_TASK_TERMS.
End Prompts.

(** ** The files of a workspace *)

Definition ends_with_text (s p : jstr) : bool := starts_with (reverse s) (reverse p).
Definition name_is (file : jstr) (names : list string) : bool := existsb (fun n => bool_decide (file = js n)) names.
Definition name_ends (file : jstr) (ends : list string) : bool := existsb (fun e => ends_with_text file (js e)) ends.
Definition add (signal : jstr) (signals : list jstr) : list jstr := if bool_decide (signal ∈ signals) then signals else signals ++ [signal].
Definition add_if (c : bool) (signal : string) (signals : list jstr) : list jstr := if c then add (js signal) signals else signals.

Definition addSignalsFromFileName (file : jstr) (signals : list jstr) : list jstr :=
  let signals := add_if (name_is file ["package.json"; "package-lock.json"; "pnpm-lock.yaml"; "yarn.lock"]%string) "node" signals in
  let signals := add_if (name_is file ["tsconfig.json"]%string || name_ends file [".ts"; ".tsx"]%string) "typescript" signals in
  let signals := add_if (name_is file ["cargo.toml"; "cargo.lock"]%string) "cargo" signals in
  let signals := add_if (name_is file ["pyproject.toml"]%string || starts_with file (js "requirements") || name_ends file [".py"]%string) "python" signals in
  let signals := add_if (name_is file ["go.mod"; "go.sum"]%string || name_ends file [".go"]%string) "go" signals in
  let signals := add_if (name_is file ["pom.xml"; "build.gradle"]%string) "java" signals in
  let signals := add_if (name_is file ["build.gradle.kts"]%string || name_ends file [".kt"]%string) "kotlin" signals in
  let signals := add_if (name_is file ["dockerfile"; "compose.yaml"; "compose.yml"]%string || starts_with file (js "dockerfile.")
                         || starts_with file (js "docker-compose")) "docker" signals in
  let signals := add_if (name_ends file [".tf"]%string) "terraform" signals in
  let signals := add_if (includes file (js "playwright")) "playwright" signals in
  add_if (includes file (js "vitest")) "vitest" signals.
Definition isManifestFile (file : jstr) : bool :=
  name_is file ["package.json"; "cargo.toml"; "pyproject.toml"; "go.mod"; "pom.xml"; "build.gradle"; "build.gradle.kts"]%string
  || starts_with file (js "requirements") || name_ends file [".tf"]%string.
Definition add_all (found signals : list jstr) : list jstr := foldl (fun s x => add x s) signals found.

Inductive file_access := ReadDir (p : jstr) | ReadText (p : jstr).
Record Discovery := { queue : list (jstr * nat); visitedEntries : nat; signals : list jstr }.

Section Discovery.
Context (localeCompare : jstr -> jstr -> Z).
Context (readdir : list file_access -> jstr -> result (list Dirent)) (readFile : list file_access -> jstr -> result jstr).
Context (cwd : jstr).

Abbreviation IO := (M (list file_access)).
(** A call whose failure is caught *)
Definition tried {A} (a : file_access) (f : list file_access -> result A) : IO (option A) := fun log =>
  (Ok match f log with Ok x => Some x | Throw _ => None end, log ++ [a]).

Definition addSignalsFromManifest (filePath fileName : jstr) (signals : list jstr) : IO (list jstr) :=
  raw ← tried (ReadText filePath) (fun log => readFile log filePath);
  mret match raw with
       | None => signals
       | Some raw =>
           if MAX_MANIFEST_BYTES <? utf8_len raw then signals
           else add_all (mentioned_signals (normalize (fileName ++ js " " ++ raw))) signals
       end.
(** [path.join(directory, name)] of an absolute directory *)
Definition path_join (directory name : jstr) : jstr := resolve directory (directory ++ [SLASH] ++ name).

(** The loop over the entries of a directory *)
Fixpoint visit (directory : jstr) (depth : nat) (entries : list Dirent) (d : Discovery) : IO Discovery :=
  match entries with
  | [] => mret d
  | entry :: entries' =>
      if (MAX_DISCOVERY_ENTRIES <=? visitedEntries d)%nat then mret d else
      let d := {| queue := queue d; visitedEntries := S (visitedEntries d); signals := signals d |} in
      let lower := toLowerCase (d_name entry) in
      match d_kind entry with
      | SymbolicLink | Special => visit directory depth entries' d
      | Directory =>
          visit directory depth entries'
            (if (depth <? MAX_DISCOVERY_DEPTH)%nat && negb (bool_decide (lower ∈ SKIPPED_DIRECTORIES))
             then {| queue := queue d ++ [(path_join directory (d_name entry), S depth)]; visitedEntries := visitedEntries d; signals := signals d |}
             else d)
      | Regular _ =>
          let named := addSignalsFromFileName lower (signals d) in
          found ← (if isManifestFile lower then addSignalsFromManifest (path_join directory (d_name entry)) lower named else mret named);
          visit directory depth entries' {| queue := queue d; visitedEntries := visitedEntries d; signals := found |}
      end
  end.
(** The loop over the queue. The fuel is enough: every directory in it but
    the first is an entry that was counted. *)
Fixpoint search_queue (fuel : nat) (d : Discovery) : IO Discovery :=
  match fuel, queue d with
  | O, _ | _, [] => mret d
  | S n, (directory, depth) :: rest =>
      if (MAX_DISCOVERY_ENTRIES <=? visitedEntries d)%nat then mret d else
      let d := {| queue := rest; visitedEntries := visitedEntries d; signals := signals d |} in
      entries ← tried (ReadDir directory) (fun log => readdir log directory);
      match entries with
      | None => search_queue n d
      | Some entries =>
          d ← visit directory depth (sort_by (fun a b => localeCompare (d_name a) (d_name b)) entries) d;
          search_queue n d
      end
  end.
Definition discovery_fuel : nat := MAX_DISCOVERY_ENTRIES + 1.
Definition implied (s : list jstr) : list jstr :=
  let s := if bool_decide (js "cargo" ∈ s) then add (js "rust") s else s in
  if existsb (fun n => bool_decide (js n ∈ s)) ["react"; "next"; "vite"; "electron"]%string then add (js "node") s else s.
Definition search_workspace (root : jstr) : IO Discovery :=
  search_queue discovery_fuel {| queue := [(root, O)]; visitedEntries := 0; signals := [] |}.
Definition discoverWorkspaceSkillSignals (root : jstr) : IO (list jstr) :=
  d ← search_workspace (resolve cwd root);
  mret (sorted (implied (signals d))).
End Discovery.

(** ** The store *)

Definition automation_names : list (string * automation) := [("automatic", automatic); ("manual", manual)]%string.
Definition install_names : list (string * install_mode) := [("manual", install_manual); ("skills-only", skills_only)]%string.
Definition one_of {A} (table : list (string * A)) (v : value) (message : string) : result A :=
  match v with
  | VString s => match enum_lookup table s with Some a => Ok a | None => fail message end
  | _ => fail message
  end.
Definition validateSkillKey (label : string) (v : value) : result jstr :=
  match v with
  | VString s =>
      match split_char SLASH s with
      | [p; k] => workspaceSkillKey p k
      | _ => fail ("Workspace skill " +:+ label +:+ " entry is invalid")
      end
  | _ => fail ("Workspace skill " +:+ label +:+ " entry is invalid")
  end.
Definition validateOverrides (v : value) (label : string) : result (list jstr) :=
  match v with
  | VArray l =>
      if MAX_SKILL_OVERRIDES <? size l then fail ("Workspace skill " +:+ label +:+ " list is invalid") else
      keys ← map_result (validateSkillKey label) l;
      Ok (sorted (unique keys))
  | _ => fail ("Workspace skill " +:+ label +:+ " list is invalid")
  end.
Definition validatePolicyInput (input : value) (updatedAt : Z) : result WorkspaceSkillPolicyView :=
  match is_record input with
  | None => fail "Workspace skill policy input is invalid"
  | Some fs =>
      workspaceId ← identifier (field fs (js "workspaceId")) "workspace id";
      discovery ← one_of automation_names (field fs (js "discovery")) "Workspace skill discovery policy is invalid";
      use ← one_of automation_names (field fs (js "use")) "Workspace skill use policy is invalid";
      install ← one_of install_names (field fs (js "install")) "Workspace skill install policy is invalid";
      include ← validateOverrides (field fs (js "include")) "include";
      exclude ← validateOverrides (field fs (js "exclude")) "exclude";
      if existsb (fun key => bool_decide (key ∈ exclude)) include
      then fail "Workspace skill policy cannot include and exclude the same skill"
      else Ok {| workspaceId := workspaceId; discovery := discovery; use := use; install := install;
                 include := include; exclude := exclude; updatedAt := updatedAt |}
  end.
Definition validateStoredPolicy (v : value) : result WorkspaceSkillPolicyView :=
  match is_record v with
  | None => fail "Workspace skill policy record is invalid"
  | Some fs =>
      match field fs (js "updatedAt") with
      | VNumber n =>
          match safe_in_range 0 MAX_SAFE_INTEGER n with
          | Some at_ => validatePolicyInput v at_
          | None => fail "Workspace skill policy record is invalid"
          end
      | _ => fail "Workspace skill policy record is invalid"
      end
  end.

Abbreviation Policies := (list (jstr * WorkspaceSkillPolicyView)).
Record PolicyStore := { disk : Disk; policies : Policies; initialized : bool }.

Definition name_of {A} `{EqDecision A} (table : list (string * A)) (a : A) : jstr :=
  match find (fun p => bool_decide (p.2 = a)) table with Some (s, _) => js s | None => [] end.
Definition policy_value (p : WorkspaceSkillPolicyView) : value :=
  VObject [(js "workspaceId", VString (workspaceId p)); (js "discovery", VString (name_of automation_names (discovery p)));
           (js "use", VString (name_of automation_names (use p))); (js "install", VString (name_of install_names (install p)));
           (js "include", VArray (map VString (include p))); (js "exclude", VArray (map VString (exclude p)));
           (js "updatedAt", VInt (updatedAt p))].
Definition store_value (l : list WorkspaceSkillPolicyView) : value :=
  VObject [(js "schemaVersion", VInt SCHEMA_VERSION); (js "policies", VArray (map policy_value l))].

Section Store.
Context (JSON_parse : jstr -> result value) (JSON_stringify : value -> jstr) (localeCompare : jstr -> jstr -> Z).
Context (filePath pid : jstr).
Abbreviation S := (M PolicyStore).

Definition put_policies (m : Policies) : S unit := modify (fun s => {| disk := disk s; policies := m; initialized := initialized s |}).
Definition parse_store (raw : jstr) : result (list value) :=
  _ ← require (utf8_len raw <=? MAX_STORE_BYTES) "Workspace skill policy store exceeds the Desktop size limit";
  parsed ← JSON_parse raw;
  match parsed with
  | VObject fs =>
      match is_int (field fs (js "schemaVersion")) SCHEMA_VERSION, field fs (js "policies") with
      | true, VArray l => if MAX_POLICIES <? size l then fail "Workspace skill policy store exceeds the workspace limit" else Ok l
      | _, _ => fail "Workspace skill policy store has invalid schema"
      end
  | _ => fail "Workspace skill policy store has invalid schema"
  end.

(** The records that were read before an invalid one stay in the map. *)
Fixpoint load_policies (l : list value) : S unit :=
  match l with
  | [] => mret tt
  | v :: l' =>
      policy ← lift (validateStoredPolicy v);
      known ← gets (fun s => map_has (policies s) (workspaceId policy));
      if known : bool then lift (Throw (Error (js "Workspace skill policy store contains duplicate workspace " ++ workspaceId policy)))
      else m ← gets policies; _ ← put_policies (map_set m (workspaceId policy) policy);
           load_policies l'
  end.
Definition initialize : S unit :=
  s ← get_state;
  if initialized s then mret tt else
  _ ← match LocalFile.readFile (disk s) filePath with
      | Missing => mret tt
      | ReadError e => rethrow e
      | Contents raw => l ← lift (parse_store raw); load_policies l
      end;
  modify (fun s => {| disk := disk s; policies := policies s; initialized := true |}).

Definition get (workspaceId : jstr) : S WorkspaceSkillPolicyView :=
  _ ← initialize;
  id ← lift (identifier (VString workspaceId) "workspace id");
  s ← get_state;
  match map_get (policies s) id with Some p => mret p | None => lift (defaultWorkspaceSkillPolicy id) end.

Definition temporary (now : Z) : jstr := filePath ++ js ".tmp-" ++ pid ++ js "-" ++ js_int now.
Definition encode (m : Policies) : jstr :=
  JSON_stringify (store_value (sort_by (fun a b => localeCompare (workspaceId a) (workspaceId b)) (map_values m))) ++ [10%N].
(** The temporary file is removed when a write or the renaming fails. *)
Definition write_store (fault : write_fault) (now : Z) (encoded : jstr) : M Disk unit :=
  try_catch (replaceFile fault (temporary now) filePath encoded)
    (fun e => _ ← modify (delete (temporary now)); rethrow e).
Definition on_disk {A} (m : M Disk A) : S A := fun s =>
  let (r, d) := m (disk s) in (r, {| disk := d; policies := policies s; initialized := initialized s |}).
Definition persist (fault : write_fault) (now : Z) : S unit :=
  s ← get_state;
  let encoded := encode (policies s) in
  _ ← js_guard (MAX_STORE_BYTES <? utf8_len encoded) "Workspace skill policy store exceeds the Desktop size limit";
  on_disk (write_store fault now encoded).
Definition set (fault : write_fault) (now tick : Z) (input : value) : S WorkspaceSkillPolicyView :=
  _ ← initialize;
  policy ← lift (validatePolicyInput input now);
  s ← get_state;
  let before := map_get (policies s) (workspaceId policy) in
  let restored m := match before with Some p => map_set m (workspaceId policy) p | None => map_delete m (workspaceId policy) end in
  _ ← put_policies (map_set (policies s) (workspaceId policy) policy);
  _ ← try_catch (persist fault tick) (fun e => m ← gets policies; _ ← put_policies (restored m); rethrow e);
  mret policy.
End Store.

(** *** Where a discovery looks *)

Section Bounds.
Context (localeCompare : jstr -> jstr -> Z).
Context (readdir : list file_access -> jstr -> result (list Dirent)) (readFile : list file_access -> jstr -> result jstr).
Context (root : jstr).

(** A directory that is reached from the root through real directories only,
    none of which is skipped, and how deep it lies *)
Inductive reached : jstr -> nat -> Prop :=
| reached_root : reached root O
| reached_child log p n entries e : reached p n -> readdir log p = Ok entries -> e ∈ entries -> d_kind e = Directory ->
    toLowerCase (d_name e) ∉ SKIPPED_DIRECTORIES -> reached (path_join p (d_name e)) (S n).
Definition listed (p : jstr) : Prop := exists n, (n <= MAX_DISCOVERY_DEPTH)%nat /\ reached p n.
Definition access_ok (a : file_access) : Prop :=
  match a with
  | ReadDir p => listed p
  | ReadText p => exists dir log entries e size, listed dir /\ readdir log dir = Ok entries /\ e ∈ entries /\
      d_kind e = Regular size /\ isManifestFile (toLowerCase (d_name e)) = true /\ p = path_join dir (d_name e)
  end.

Definition known_signal (s : jstr) : Prop := s ∈ map fst SIGNAL_ALIASES.
Definition signals_ok (l : list jstr) : Prop := Forall known_signal l /\ NoDup l.
Record discovering (d : Discovery) (log : list file_access) : Prop := {
  dg_queue : Forall (fun q => (q.2 <= MAX_DISCOVERY_DEPTH)%nat /\ reached q.1 q.2) (queue d);
  dg_visited : (visitedEntries d <= MAX_DISCOVERY_ENTRIES)%nat;
  dg_count : (length log + length (queue d) <= 1 + visitedEntries d)%nat;
  dg_log : Forall access_ok log;
  dg_signals : signals_ok (signals d) }.
(** What is still to come: the queue and the entries that may still be counted *)
Definition remaining (d : Discovery) : nat := length (queue d) + (MAX_DISCOVERY_ENTRIES - visitedEntries d).

Lemma add_ok s l : known_signal s -> signals_ok l -> signals_ok (add s l).
Proof.
  intros Hs [H1 H2]. unfold add. case_bool_decide as Hin; [by split|]. split; [apply Forall_app; split; [done|by apply Forall_singleton]|].
  apply NoDup_app. split_and!; [done| |apply NoDup_singleton]. intros x Hx ->%list_elem_of_singleton. done.
Qed.
Lemma add_all_ok found l : Forall known_signal found -> signals_ok l -> signals_ok (add_all found l).
Proof. unfold add_all. intros H. revert l. induction H as [|s found Hs _ IH]; intros l Hl; [done|]. cbn. by apply IH, add_ok. Qed.
Lemma add_if_ok c s l : known_signal (js s) -> signals_ok l -> signals_ok (add_if c s l).
Proof. intros Hs Hl. unfold add_if. destruct c; [by apply add_ok|done]. Qed.
Lemma file_name_ok file l : signals_ok l -> signals_ok (addSignalsFromFileName file l).
Proof.
  intros Hl. unfold addSignalsFromFileName. cbv zeta.
  repeat (apply add_if_ok; [unfold known_signal; refine (bool_decide_unpack _ _); vm_compute; exact I|]). exact Hl.
Qed.
Lemma mentioned_known text : Forall known_signal (mentioned_signals text).
Proof.
  unfold mentioned_signals, known_signal. apply Forall_forall. intros s (p & -> & [_ Hp]%list_elem_of_filter)%list_elem_of_fmap.
  by apply list_elem_of_fmap_2.
Qed.

Lemma manifest_run p file l log : addSignalsFromManifest readFile p file l log =
  (Ok (match readFile log p with
       | Ok raw => if MAX_MANIFEST_BYTES <? utf8_len raw then l else add_all (mentioned_signals (normalize (file ++ js " " ++ raw))) l
       | Throw _ => l end), log ++ [ReadText p]).
Proof. unfold addSignalsFromManifest, tried. rewrite M_bind_run. by destruct (readFile log p). Qed.
Lemma manifest_signals_ok file l (r : result jstr) : signals_ok l -> signals_ok match r with
  | Ok raw => if MAX_MANIFEST_BYTES <? utf8_len raw then l else add_all (mentioned_signals (normalize (file ++ js " " ++ raw))) l
  | Throw _ => l end.
Proof. intros Hl. destruct r as [raw|]; [|done]. destruct (_ <? _); [done|]. apply add_all_ok; [apply mentioned_known|done]. Qed.

(** Go on with the entries that are left. *)
Ltac visit_rest IH Hin := match goal with |- context [visit _ _ _ _ ?d ?log] =>
  destruct (IH d log Hin) as (d' & log' & -> & Hd & Hr);
  [|exists d', log'; split_and!; [done..|]; unfold remaining in *; cbn [queue visitedEntries] in Hr; rewrite ?length_app in Hr; cbn [length] in Hr; lia] end.
Lemma visit_run directory depth log0 all : (depth <= MAX_DISCOVERY_DEPTH)%nat -> reached directory depth -> readdir log0 directory = Ok all ->
  forall entries d log, (forall e, e ∈ entries -> e ∈ all) -> discovering d log ->
  exists d' log', visit readFile directory depth entries d log = (Ok d', log') /\ discovering d' log' /\ (remaining d' <= remaining d)%nat.
Proof.
  intros Hdepth Hdir Hall entries. induction entries as [|e entries IH]; intros d log Hin [Hq Hv Hc Hl Hs].
  { exists d, log. split; [done|]. split; [by constructor|done]. }
  cbn [visit]. destruct (Nat.leb_spec MAX_DISCOVERY_ENTRIES (visitedEntries d)) as [Hm|Hm].
  { exists d, log. split; [done|]. split; [by constructor|done]. }
  assert (Hin' : forall e', e' ∈ entries -> e' ∈ all) by (intros; apply Hin; by right).
  assert (He : e ∈ all) by (apply Hin; by left).
  cbv zeta. destruct (d_kind e) as [size| | |] eqn:Ek.
  - destruct (isManifestFile (toLowerCase (d_name e))) eqn:Em.
    + rewrite M_bind_run, manifest_run. cbn iota beta. visit_rest IH Hin'.
      constructor; cbn [queue visitedEntries signals]; [done|lia|rewrite length_app; cbn [length]; lia| |by apply manifest_signals_ok, file_name_ok].
      apply Forall_app. split; [done|]. apply Forall_singleton. exists directory, log0, all, e, size. split_and!; try done. by exists depth.
    + rewrite M_bind_run. cbn [mret M_ret]. cbn iota beta. visit_rest IH Hin'. constructor; cbn [queue visitedEntries signals]; [done|lia|lia|done|by apply file_name_ok].
  - destruct (_ && _) eqn:Eb; visit_rest IH Hin'; [|constructor; cbn [queue visitedEntries signals]; try done; try lia].
    to_prop. apply Nat.ltb_lt in H. constructor; cbn [queue visitedEntries signals]; [|lia|rewrite length_app; cbn [length]; lia|done..].
    apply Forall_app. split; [done|]. apply Forall_singleton. cbn. split; [lia|]. by eapply reached_child.
  - visit_rest IH Hin'. constructor; cbn [queue visitedEntries signals]; (done || lia).
  - visit_rest IH Hin'. constructor; cbn [queue visitedEntries signals]; (done || lia).
Qed.
Lemma search_run fuel : forall d log, discovering d log -> (remaining d <= fuel)%nat ->
  exists d' log', search_queue localeCompare readdir readFile fuel d log = (Ok d', log') /\ discovering d' log' /\
    (queue d' = [] \/ visitedEntries d' = MAX_DISCOVERY_ENTRIES).
Proof.
  induction fuel as [|n IH]; intros d log Hd Hr.
  { exists d, log. split_and!; [done..|]. left. unfold remaining in Hr. destruct (queue d); [done|cbn in Hr; lia]. }
  cbn [search_queue]. destruct Hd as [Hq Hv Hc Hl Hs]. destruct (queue d) as [|[directory depth] rest] eqn:Eq.
  { exists d, log. split_and!; [done|by constructor; rewrite ?Eq|by left]. }
  destruct (Nat.leb_spec MAX_DISCOVERY_ENTRIES (visitedEntries d)) as [Hm|Hm].
  { exists d, log. split_and!; [done|by constructor; rewrite ?Eq|right; lia]. }
  apply Forall_cons in Hq as [[Hdep Hdir] Hq]. cbn [fst snd] in *. cbv zeta. rewrite M_bind_run. unfold tried at 1. cbn iota beta.
  assert (Hd : discovering {| queue := rest; visitedEntries := visitedEntries d; signals := signals d |} (log ++ [ReadDir directory])).
  { constructor; cbn [queue visitedEntries signals]; [done|done|rewrite length_app; cbn [length] in *; lia| |done]. apply Forall_app. split; [done|].
    apply Forall_singleton. by exists depth. }
  unfold remaining in Hr. rewrite Eq in Hr. cbn [length] in Hr.
  destruct (readdir log directory) as [entries|e] eqn:Er; [|apply IH; [exact Hd|unfold remaining; cbn [queue visitedEntries]; lia]].
  rewrite M_bind_run.
  destruct (visit_run directory depth log entries Hdep Hdir Er
    (sort_by (fun a b => localeCompare (d_name a) (d_name b)) entries) _ _ (fun e => proj1 (elem_of_sort_by _ _ _)) Hd)
    as (d1 & log1 & -> & Hd1 & Hr1).
  cbn iota beta. apply IH; [exact Hd1|]. unfold remaining in *. cbn [queue visitedEntries] in *. lia.
Qed.
(** [readdir] lists plain names. *)
Definition plain_names : Prop := forall log p entries, readdir log p = Ok entries -> Forall (fun e => kept_segment (d_name e)) entries.

Lemma path_join_render l name : Forall kept_segment l -> kept_segment name -> path_join (render_path l) name = render_path (l ++ [name]).
Proof.
  intros Hl Hn. unfold path_join, resolve. change (isAbsolute (render_path l ++ [SLASH] ++ name)) with true. cbv iota. f_equal.
  change (render_path l ++ [SLASH] ++ name) with (render_path l ++ SLASH :: name). rewrite split_char_app_sep.
  rewrite (split_char_none SLASH name) by apply Hn. rewrite normalize_segments_app by by apply Forall_singleton. f_equal.
  unfold render_path. change (SLASH :: join [SLASH] l) with ([] ++ SLASH :: join [SLASH] l).
  rewrite split_char_app by apply not_elem_of_nil. cbn [normalize_segments truthy negb orb].
  destruct l as [|x l]; [done|]. rewrite split_char_join, normalize_segments_id; [done..|].
  eapply Forall_impl; [exact Hl|]. intros y Hy. apply Hy.
Qed.
(** A reached directory lies below the root, as deep as it was counted. *)
Lemma reached_lies base p n : root = render_path base -> Forall kept_segment base -> plain_names -> reached p n ->
  exists below, p = render_path (base ++ below) /\ Forall kept_segment below /\ length below = n.
Proof.
  intros -> Hb Hp. induction 1 as [|log p n entries e _ (below & -> & Hk & Hl) Hr He _ _].
  - exists []. by rewrite app_nil_r.
  - specialize (Hp _ _ _ Hr). rewrite Forall_forall in Hp. specialize (Hp e He).
    exists (below ++ [d_name e]). rewrite app_assoc. split_and!.
    + apply path_join_render; [|done]. by apply Forall_app.
    + apply Forall_app. split; [done|by apply Forall_singleton].
    + rewrite length_app. cbn. lia.
Qed.
End Bounds.

Definition in_code_order : list jstr -> Prop := StronglySorted (fun x y => jstr_compare x y <= 0).
Lemma sorted_in_order l : in_code_order (sorted l).
Proof. apply sort_by_StronglySorted; [intros x; apply jstr_compare_total|intros x; apply jstr_compare_trans]. Qed.
Lemma sorted_idem l : in_code_order l -> sorted l = l.
Proof. apply sort_by_sorted. Qed.

Lemma sorted_ok l : signals_ok l -> signals_ok (sorted l).
Proof. intros [H1 H2]. unfold sorted. split; [by rewrite sort_by_perm|by rewrite sort_by_perm]. Qed.
Lemma implied_ok l : signals_ok l -> signals_ok (implied l).
Proof.
  intros H. unfold implied. cbv zeta.
  assert (H' : signals_ok (if bool_decide (js "cargo" ∈ l) then add (js "rust") l else l)).
  { destruct (bool_decide _); [|done]. apply add_ok; [|done]. unfold known_signal. refine (bool_decide_unpack _ _). vm_compute. exact I. }
  destruct (existsb _ _); [|done]. apply add_ok; [|done]. unfold known_signal. refine (bool_decide_unpack _ _). vm_compute. exact I.
Qed.
Lemma start_discovering readdir root : discovering readdir root {| queue := [(root, O)]; visitedEntries := 0; signals := [] |} [].
Proof.
  constructor; cbn [queue visitedEntries signals length]; [|lia|lia|done|by split; constructor].
  apply Forall_singleton. split; [cbn; lia|constructor].
Qed.

(** C40: Looking for what a workspace is about is bounded and stays inside it:
    whatever the file system answers, the search ends with every directory
    looked at or 768 entries counted, after at most 769 accesses; it lists
    directories that lie at most three names below the root and are reached
    through real directories only, none of them a skipped one, and reads
    manifests in those; what it returns are known signals, sorted and distinct. *)
Theorem discovery_is_bounded localeCompare readdir readFile cwd root : plain_names readdir ->
  let start := resolve cwd root in
  exists d log found, search_workspace localeCompare readdir readFile start [] = (Ok d, log) /\
    discoverWorkspaceSkillSignals localeCompare readdir readFile cwd root [] = (Ok found, log) /\
    (queue d = [] \/ visitedEntries d = MAX_DISCOVERY_ENTRIES) /\
    (length log <= 1 + MAX_DISCOVERY_ENTRIES)%nat /\ Forall (access_ok readdir start) log /\
    (forall p, ReadDir p ∈ log -> exists base below, start = render_path base /\ p = render_path (base ++ below) /\
       Forall kept_segment below /\ (length below <= MAX_DISCOVERY_DEPTH)%nat) /\
    Forall known_signal found /\ NoDup found /\ in_code_order found.
Proof.
  intros Hp start. destruct (search_run localeCompare readdir readFile start discovery_fuel _ _ (start_discovering readdir start))
    as (d & log & E & [Hq Hv Hc Hl Hs] & Hend); [unfold remaining, discovery_fuel; cbn [queue visitedEntries length]; lia|].
  exists d, log, (sorted (implied (signals d))). unfold discoverWorkspaceSkillSignals. rewrite M_bind_run.
  change (search_workspace localeCompare readdir readFile (resolve cwd root) []) with (search_queue localeCompare readdir readFile discovery_fuel {| queue := [(start, O)]; visitedEntries := 0; signals := [] |} []).
  rewrite E. split_and!; [exact E|done|exact Hend|lia|exact Hl| | | |].
  - intros p Hin. rewrite Forall_forall in Hl. destruct (Hl _ Hin) as (n & Hn & Hr).
    destruct (resolve_normal_form cwd root) as (base & Eb & Hb).
    destruct (reached_lies readdir start base p n Eb Hb Hp Hr) as (below & -> & Hk & Hlen). exists base, below. split_and!; [exact Eb|done..|lia].
  - by apply (sorted_ok (implied (signals d))), implied_ok.
  - by apply (sorted_ok (implied (signals d))), implied_ok.
  - apply sorted_in_order.
Qed.

(** ** When a skill is used *)

Definition signal_matches (text s : jstr) : Prop := exists aliases, aliases_of s = Ok aliases /\ mentions text aliases = true.
Lemma matching_signals_spec text l k : matching_signals text l = Ok k -> forall s, s ∈ k <-> s ∈ l /\ signal_matches text s.
Proof.
  revert k. induction l as [|x l IH]; intros k H s; cbn in H.
  - injection H as <-. split; [by intros []%elem_of_nil|by intros [[]%elem_of_nil _]].
  - apply bind_Ok in H as (aliases & Ha & H). apply bind_Ok in H as (rest & Hr & [= <-]). specialize (IH rest Hr s).
    destruct (mentions text aliases) eqn:Em; rewrite ?elem_of_cons, IH; split.
    + intros [->|[? ?]]; [split; [by left|by exists aliases]|split; [by right|done]].
    + intros [[->|?] ?]; [by left|by right].
    + intros [? ?]. split; [by right|done].
    + intros [[->|?] Hm]; [|done]. destruct Hm as (a & Ha' & Hm). congruence.
Qed.
Lemma matching_signals_total text l : Forall known_signal l -> exists k, matching_signals text l = Ok k.
Proof.
  induction 1 as [|s l Hs _ [k IH]]; cbn; [by eexists|]. unfold known_signal in Hs.
  assert (exists a, aliases_of s = Ok a) as [a ->].
  { assert (H : forallb (fun s => is_ok (aliases_of s)) (map fst SIGNAL_ALIASES) = true) by (vm_compute; reflexivity).
    rewrite forallb_forall in H. apply list_elem_of_In in Hs. specialize (H s Hs). cbn beta in H.
    destruct (aliases_of s) as [a|e]; [by exists a|done]. }
  rewrite IH. cbn. by eexists.
Qed.

(** C18: A skill is used in a workspace exactly when the policy does not exclude
    it and either includes it by name, or leaves discovery and use to the
    application and the skill is a general one or mentions what one of the
    workspace's signals stands for; exclusion always wins, the signals
    reported are exactly the matching ones, and the decision is made for every
    valid skill and every list of known signals. *)
Theorem skill_use_is_exact policy pluginId skill signals key :
  workspaceSkillKey pluginId (k_id skill) = Ok key -> Forall known_signal signals ->
  exists a, workspaceSkillIsActive policy pluginId skill signals = Ok a /\
  (active a = true <-> key ∉ exclude policy /\
     (key ∈ include policy \/ discovery policy = automatic /\ use policy = automatic /\
        (isGenericWorkspaceSkill skill = true \/ exists s, s ∈ signals /\ signal_matches (skill_text skill) s))) /\
  (forall s, s ∈ matchedSignals a <-> s ∈ signals /\ signal_matches (skill_text skill) s) /\ NoDup (matchedSignals a).
Proof.
  intros Hkey Hs. destruct (matching_signals_total (skill_text skill) signals Hs) as [matched Hm].
  pose proof (matching_signals_spec _ _ _ Hm) as Hspec.
  unfold workspaceSkillIsActive, skillSignalMatches. rewrite Hkey, Hm. cbn [mbind result_bind]. cbv zeta.
  assert (Hin : forall s, s ∈ sorted (unique matched) <-> s ∈ signals /\ signal_matches (skill_text skill) s).
  { intros s. unfold sorted. by rewrite elem_of_sort_by, elem_of_unique. }
  assert (Hnd : NoDup (sorted (unique matched))) by (unfold sorted; rewrite sort_by_perm; apply NoDup_unique).
  assert (Hne : sorted (unique matched) <> [] <-> exists s, s ∈ signals /\ signal_matches (skill_text skill) s).
  { split.
    - destruct (sorted (unique matched)) as [|s l]; [done|]. intros _. exists s. apply Hin. by left.
    - intros (s & Hsig) E. apply Hin in Hsig. rewrite E in Hsig. by apply elem_of_nil in Hsig. }
  repeat case_bool_decide; try (destruct (isGenericWorkspaceSkill skill)); try case_bool_decide;
    (eexists; split; [reflexivity|split; [cbn [active]|by split]]); destruct (discovery policy), (use policy); naive_solver.
Qed.

(** ** The store keeps the policies *)

Definition skill_key (s : jstr) : Prop := exists p k, plugin_identifier p = true /\ plugin_identifier k = true /\ s = p ++ SLASH :: k.
Definition overrides_ok (l : list jstr) : Prop :=
  Forall skill_key l /\ NoDup l /\ in_code_order l /\ size l <= MAX_SKILL_OVERRIDES.
Definition policy_ok (p : WorkspaceSkillPolicyView) : Prop :=
  plugin_identifier (workspaceId p) = true /\ overrides_ok (include p) /\ overrides_ok (exclude p) /\
  Forall (fun key => key ∉ exclude p) (include p) /\ 0 <= updatedAt p <= MAX_SAFE_INTEGER.

Lemma identifier_Ok v label s : identifier v label = Ok s <-> v = VString s /\ plugin_identifier s = true.
Proof.
  unfold identifier. destruct v as [| | | |t| |]; try (split; [done|by intros [[=] _]]).
  destruct (plugin_identifier t) eqn:E; split; [by intros [= <-]|by intros [[= ->] _]|done|intros [[= ->] ?]; congruence].
Qed.
Lemma identifier_no_slash s : plugin_identifier s = true -> SLASH ∉ s.
Proof.
  unfold plugin_identifier, identifier_ok. intros [H _]%andb_prop Hin. destruct s as [|u t]; [by apply elem_of_nil in Hin|].
  apply andb_prop in H as [H1 H2]. apply elem_of_cons in Hin as [<-|Hin]; [done|].
  rewrite forallb_forall in H2. apply list_elem_of_In in Hin. specialize (H2 _ Hin). done.
Qed.
Lemma skill_key_read label s : skill_key s -> validateSkillKey label (VString s) = Ok s.
Proof.
  intros (p & k & Hp & Hk & ->). unfold validateSkillKey.
  rewrite split_char_app, split_char_none by by apply identifier_no_slash. unfold workspaceSkillKey, identifier. by rewrite Hp, Hk.
Qed.
Lemma validateSkillKey_ok label v s : validateSkillKey label v = Ok s -> skill_key s.
Proof.
  unfold validateSkillKey, workspaceSkillKey. destruct v as [| | | |t| |]; try done. destruct (split_char SLASH t) as [|p [|k [|]]]; try done.
  intros (p' & [[= <-] Hp]%identifier_Ok & (k' & [[= <-] Hk]%identifier_Ok & [= <-])%bind_Ok)%bind_Ok. by exists p, k.
Qed.
Lemma unique_size l : size (unique l) <= size l.
Proof.
  unfold size, unique. enough (forall seen, length (unique_from seen l) <= length l)%nat by (specialize (H []); lia).
  induction l as [|x l IH]; intros seen; cbn; [lia|]. case_bool_decide; cbn; [specialize (IH seen)|specialize (IH (x :: seen))]; lia.
Qed.
Lemma sorted_size l : size (sorted l) = size l.
Proof. unfold size, sorted. by rewrite (Permutation_length (sort_by_perm _ _)). Qed.
Lemma validateOverrides_ok v label l : validateOverrides v label = Ok l -> overrides_ok l.
Proof.
  unfold validateOverrides. destruct v as [| | | | |vs|]; try done. destruct (Z.ltb_spec MAX_SKILL_OVERRIDES (size vs)); [done|].
  intros (keys & Hk & [= <-])%bind_Ok. apply map_result_length in Hk as Hlen.
  assert (Forall skill_key keys) by (eapply map_result_Forall; [exact Hk|]; intros ? ?; apply validateSkillKey_ok).
  split_and!.
  - unfold sorted. rewrite sort_by_perm. apply Forall_forall. intros s Hs. apply (proj1 (elem_of_unique _ _)) in Hs. rewrite Forall_forall in H0. by apply H0.
  - unfold sorted. rewrite sort_by_perm. apply NoDup_unique.
  - apply sorted_in_order.
  - rewrite sorted_size. pose proof (unique_size keys). unfold size in *. lia.
Qed.
Lemma overrides_read label l : overrides_ok l -> validateOverrides (VArray (map VString l)) label = Ok l.
Proof.
  intros (H1 & H2 & H3 & H4). unfold validateOverrides. rewrite size_map, (proj2 (Z.ltb_ge _ _) H4).
  assert (map_result (validateSkillKey label) (map VString l) = Ok l) as ->.
  { rewrite <- (map_id l) at 2. apply map_result_map. intros s Hs. apply skill_key_read. rewrite Forall_forall in H1. by apply H1. }
  cbn [mbind result_bind]. unfold unique. rewrite unique_from_NoDup by (try done; intros; apply not_elem_of_nil). by rewrite sorted_idem.
Qed.
Lemma one_of_Ok {A} (table : list (string * A)) v message a : one_of table v message = Ok a -> exists s, v = VString s /\ enum_lookup table s = Some a.
Proof. unfold one_of. destruct v; try done. destruct (enum_lookup table s) eqn:E; [|done]. intros [= <-]. by exists s. Qed.
Lemma validatePolicyInput_ok input now p : 0 <= now <= MAX_SAFE_INTEGER -> validatePolicyInput input now = Ok p -> policy_ok p.
Proof.
  unfold validatePolicyInput. intros Hn H. destruct (is_record input) as [fs|]; [|done].
  apply bind_Ok in H as (w & [_ Hw]%identifier_Ok & H). apply bind_Ok in H as (d & _ & H). apply bind_Ok in H as (u & _ & H).
  apply bind_Ok in H as (i & _ & H). apply bind_Ok in H as (inc & Hinc%validateOverrides_ok & H).
  apply bind_Ok in H as (exc & Hexc%validateOverrides_ok & H). destruct (existsb _ _) eqn:E; [done|]. injection H as <-.
  split; [done|]. split; [done|]. split; [done|]. split; [|done]. cbn. apply Forall_forall. intros key Hk Hx.
  assert (existsb (fun key => bool_decide (key ∈ exc)) inc = true); [|congruence].
  apply existsb_exists. exists key. split; [by apply list_elem_of_In|]. by apply bool_decide_eq_true_2.
Qed.
Lemma policy_read p : policy_ok p -> validateStoredPolicy (policy_value p) = Ok p.
Proof.
  intros (H1 & H2 & H3 & H4 & H5). unfold validateStoredPolicy, policy_value. cbn [is_record]. read_fields. cbn [VInt].
  rewrite safe_in_range_NInt by (unfold MIN_SAFE_INTEGER, MAX_SAFE_INTEGER in *; lia). unfold validatePolicyInput. cbn [is_record]. read_fields.
  rewrite (proj2 (identifier_Ok (VString (workspaceId p)) "workspace id" (workspaceId p)) (conj eq_refl H1)). cbn [mbind result_bind].
  assert (forall a m, one_of automation_names (VString (name_of automation_names a)) m = Ok a) as Ha by (by intros []).
  assert (forall a m, one_of install_names (VString (name_of install_names a)) m = Ok a) as Hi by (by intros []).
  rewrite !Ha, Hi. cbn [mbind result_bind]. rewrite !overrides_read by done. cbn [mbind result_bind].
  destruct (existsb _ _) eqn:E; [|by destruct p]. apply existsb_exists in E as (key & Hk & Hx). apply bool_decide_eq_true in Hx.
  rewrite Forall_forall in H4. apply list_elem_of_In in Hk. by destruct (H4 key Hk).
Qed.

Section Durable.
Context (JSON_parse : jstr -> result value) (JSON_stringify : value -> jstr) (localeCompare : jstr -> jstr -> Z).
Context (filePath pid : jstr).
Context (json_inverse : forall l, JSON_parse (JSON_stringify (store_value l) ++ [10%N]) = Ok (store_value l)).
Notation encode := (encode JSON_stringify localeCompare).
Notation initialize := (initialize JSON_parse filePath).
Notation set := (set JSON_parse JSON_stringify localeCompare filePath pid).
Notation get := (get JSON_parse filePath).

Definition entries_ok (m : Policies) : Prop :=
  map_wf m /\ Forall (fun kv => kv.1 = workspaceId kv.2 /\ policy_ok kv.2) m.
(** A store in use: its file is its memory. *)
Record in_use (s : PolicyStore) : Prop := {
  iu_init : initialized s = true;
  iu_entries : entries_ok (policies s);
  iu_file : disk s !! filePath = None /\ policies s = [] \/
            disk s !! filePath = Some (encode (policies s)) /\ utf8_len (encode (policies s)) <= MAX_STORE_BYTES }.

Lemma map_set_back (m : Policies) k v v' : map_get m k = Some v' -> map_set (map_set m k v) k v' = m.
Proof.
  induction m as [|[k1 v1] m IH]; [done|]. cbn [map_set]. rewrite map_get_cons. case_decide as E.
  - intros [= ->]. rewrite bool_decide_eq_true_2 by done. cbn [map_set]. rewrite bool_decide_eq_true_2 by done. by subst.
  - intros H. rewrite bool_decide_eq_false_2 by done. cbn [map_set]. rewrite bool_decide_eq_false_2 by done. by rewrite IH.
Qed.
Lemma map_delete_back (m : Policies) k v : map_get m k = None -> map_delete (map_set m k v) k = m.
Proof.
  intros H. rewrite map_set_new by by apply map_get_none. unfold map_delete. rewrite filter_app, filter_cons_False by (intros E; by apply E).
  rewrite filter_nil, app_nil_r. by apply map_delete_absent.
Qed.
Lemma entries_ok_set m k p : entries_ok m -> k = workspaceId p -> policy_ok p -> entries_ok (map_set m k p).
Proof. intros [H1 H2] -> Hp. split; [by apply map_set_wf|]. by apply Forall_map_set. Qed.

Lemma temporary_other now : temporary filePath pid now <> filePath.
Proof. unfold temporary. by apply temporary_ne. Qed.
Lemma write_store_atomic fault now content d :
  let (r, d') := write_store filePath pid fault now content d in
  is_ok r = write_succeeds fault /\ d' !! filePath = (if write_succeeds fault then Some content else d !! filePath).
Proof.
  unfold write_store, try_catch. pose proof (replaceFile_atomic fault (temporary filePath pid now) filePath content d (temporary_other now)) as H.
  destruct (replaceFile _ _ _ _ _) as [[a|e] d']; [done|]. destruct H as [H1 H2]. cbn. split; [done|].
  rewrite lookup_delete_ne by apply temporary_other. done.
Qed.

Lemma initialize_in_use s : initialized s = true -> initialize s = (Ok tt, s).
Proof. intros H. unfold SkillPolicy.initialize, get_state. rewrite M_bind_run. cbn iota beta. by rewrite H. Qed.

Lemma persist_run fault now s : let (r, s') := persist JSON_stringify localeCompare filePath pid fault now s in
  policies s' = policies s /\ initialized s' = initialized s /\
  match r with
  | Ok _ => write_succeeds fault = true /\ utf8_len (encode (policies s)) <= MAX_STORE_BYTES /\ disk s' !! filePath = Some (encode (policies s))
  | Throw _ => disk s' !! filePath = disk s !! filePath
  end.
Proof.
  unfold persist. rewrite M_bind_run. unfold get_state. cbn iota beta. cbv zeta. rewrite M_bind_run. unfold js_guard.
  destruct (Z.ltb_spec MAX_STORE_BYTES (utf8_len (encode (policies s)))) as [Hs|Hs]; [done|]. cbn iota beta. unfold on_disk.
  pose proof (write_store_atomic fault now (encode (policies s)) (disk s)) as H.
  destruct (write_store _ _ _ _ _ _) as [[[]|e] d']; destruct H as [H1 H2]; cbn [is_ok] in H1; rewrite <- H1 in H2;
    cbn [policies disk initialized]; by split_and!.
Qed.
Lemma set_cases fault now tick input s : initialized s = true ->
  let (r, s') := set fault now tick input s in
  match r with
  | Ok p => validatePolicyInput input now = Ok p /\ write_succeeds fault = true /\ policies s' = map_set (policies s) (workspaceId p) p /\
      utf8_len (encode (policies s')) <= MAX_STORE_BYTES /\ disk s' !! filePath = Some (encode (policies s'))
  | Throw _ => policies s' = policies s /\ disk s' !! filePath = disk s !! filePath
  end /\ initialized s' = true.
Proof.
  intros Hi. unfold SkillPolicy.set. rewrite M_bind_run, (initialize_in_use s Hi). cbn iota beta. rewrite M_bind_run.
  change (lift ?r ?x) with (r, x). destruct (validatePolicyInput input now) as [p|e]; cbn iota beta; [|done].
  rewrite M_bind_run. unfold get_state. cbn iota beta. cbv zeta. rewrite M_bind_run. unfold put_policies at 1, modify at 1. cbn iota beta.
  set (m := map_set (policies s) (workspaceId p) p). set (k := workspaceId p).
  assert (Hback : match map_get (policies s) k with Some b => map_set m k b | None => map_delete m k end = policies s).
  { unfold m. destruct (map_get (policies s) k) eqn:E; [by apply map_set_back|by apply map_delete_back]. }
  rewrite M_bind_run. unfold try_catch. match goal with |- context [persist _ _ _ _ _ _ ?s1] => pose proof (persist_run fault tick s1) as H end.
  destruct (persist _ _ _ _ _ _ _) as [[[]|e] s1]; destruct H as (Hp & Hin & H); cbn [policies disk initialized] in *.
  - cbn [mret M_ret]. rewrite Hp, Hin. by destruct H as (? & ? & ?).
  - cbv [gets put_policies modify rethrow mbind M_bind]. cbn [policies disk initialized]. rewrite Hp, Hback, Hin. by split_and!.
Qed.

(** *** Restarts *)

Definition restart (s : PolicyStore) : PolicyStore := {| disk := disk s; policies := []; initialized := false |}.
Lemma map_get_perm (m m' : Policies) k : map_wf m -> m ≡ₚ m' -> map_get m k = map_get m' k.
Proof.
  intros Hm Hp. assert (Hm' : map_wf m') by (unfold map_wf in *; by rewrite <- Hp).
  destruct (map_get m k) as [v|] eqn:E.
  - apply map_get_elem in E. rewrite Hp in E. symmetry. by apply map_elem_get.
  - destruct (map_get m' k) as [v|] eqn:E'; [|done]. apply map_get_elem in E'. rewrite <- Hp in E'.
    apply map_elem_get in E'; [|done]. congruence.
Qed.
Definition keyed (l : list WorkspaceSkillPolicyView) : Policies := map (fun p => (workspaceId p, p)) l.
Lemma keyed_values m : entries_ok m -> keyed (map_values m) = m.
Proof.
  intros [_ H]. unfold keyed, map_values. induction H as [|[k p] m [E _] _ IH]; [done|]. cbn in *. by rewrite IH, <- E.
Qed.
Lemma load_run l : forall s, Forall policy_ok l -> map_wf (policies s ++ keyed l) ->
  load_policies (map policy_value l) s = (Ok tt, {| disk := disk s; policies := policies s ++ keyed l; initialized := initialized s |}).
Proof.
  induction l as [|p l IH]; intros s Hl Hwf; cbn [map load_policies].
  - cbn. rewrite app_nil_r. by destruct s.
  - apply Forall_cons in Hl as [Hp Hl]. rewrite M_bind_run, policy_read by done. change (lift ?r ?x) with (r, x). cbn iota beta.
    assert (Hnew : workspaceId p ∉ map fst (policies s)).
    { unfold map_wf in Hwf. rewrite map_app in Hwf. apply NoDup_app in Hwf as (_ & H & _). intros Hin. apply (H _ Hin). cbn. by left. }
    rewrite M_bind_run. unfold gets at 1. cbn iota beta.
    assert (map_has (policies s) (workspaceId p) = false) as ->.
    { rewrite map_has_get. apply bool_decide_eq_false. intros [v Hv]. apply map_get_elem in Hv. apply Hnew.
      change (workspaceId p) with ((workspaceId p, v).1). by apply list_elem_of_fmap_2. }
    rewrite M_bind_run. unfold gets at 1. cbn iota beta. rewrite M_bind_run. unfold put_policies at 1, modify at 1. cbn iota beta.
    rewrite map_set_new by done. rewrite IH; [|done|]; cbn [policies disk initialized]; by rewrite <- app_assoc.
Qed.

Lemma restart_reads s : in_use s -> size (policies s) <= MAX_POLICIES -> exists m, m ≡ₚ policies s /\
  initialize (restart s) = (Ok tt, {| disk := disk s; policies := m; initialized := true |}).
Proof.
  intros [_ [Hwf He] Hf] Hn. unfold SkillPolicy.initialize. rewrite M_bind_run. unfold get_state. cbn [restart initialized disk]. cbn iota beta.
  unfold LocalFile.readFile. rewrite M_bind_run. destruct Hf as [[-> ->]|[-> Hs]].
  { exists []. split; [done|]. reflexivity. }
  set (l := sort_by (fun a b => localeCompare (workspaceId a) (workspaceId b)) (map_values (policies s))).
  assert (Hl : keyed l ≡ₚ policies s).
  { rewrite <- (keyed_values (policies s)) by by split. unfold l, keyed. by rewrite sort_by_perm. }
  exists (keyed l). split; [done|].
  assert (parse_store JSON_parse (encode (policies s)) = Ok (map policy_value l)) as E.
  { unfold parse_store. rewrite (proj2 (Z.leb_le _ _) Hs). cbn [require mbind result_bind]. unfold SkillPolicy.encode. fold l.
    rewrite json_inverse. cbn [mbind result_bind]. unfold store_value. read_fields. change (is_int _ _) with true. cbv iota.
    rewrite size_map. destruct (Z.ltb_spec MAX_POLICIES (size l)) as [Hlt|]; [|done]. apply Permutation_length in Hl.
    unfold keyed in Hl. rewrite length_map in Hl. unfold size in *. lia. }
  rewrite M_bind_run, E. change (lift ?r ?x) with (r, x). cbn iota beta. rewrite load_run; cbn [restart policies app]; [done| |by unfold map_wf; rewrite Hl].
  assert (Forall (fun kv => policy_ok kv.2) (keyed l)) as H.
  { rewrite Hl. eapply Forall_impl; [exact He|]. by intros kv [_ ?]. }
  unfold keyed in H. rewrite Forall_map in H. exact H.
Qed.

Record set_event := { e_fault : write_fault; e_now : Z; e_tick : Z; e_input : value }.
Definition run_set (e : set_event) : PolicyStore -> result WorkspaceSkillPolicyView * PolicyStore := set (e_fault e) (e_now e) (e_tick e) (e_input e).
Fixpoint run_sets (events : list set_event) (s : PolicyStore) : PolicyStore :=
  match events with [] => s | e :: events' => run_sets events' (run_set e s).2 end.
(** A map in which a call that resolves replaces the policy of its workspace,
    and a call that rejects changes nothing *)
Fixpoint spec_sets (events : list set_event) (s : PolicyStore) (f : jstr -> option WorkspaceSkillPolicyView) : jstr -> option WorkspaceSkillPolicyView :=
  match events with
  | [] => f
  | e :: events' =>
      let (r, s') := run_set e s in
      spec_sets events' s' (match r with Ok p => fun id => if bool_decide (workspaceId p = id) then Some p else f id | Throw _ => f end)
  end.

Lemma set_in_use e s : 0 <= e_now e <= MAX_SAFE_INTEGER -> in_use s -> in_use (run_set e s).2 /\
  size (policies (run_set e s).2) <= size (policies s) + 1.
Proof.
  intros Hn [Hi Hen Hf]. pose proof (set_cases (e_fault e) (e_now e) (e_tick e) (e_input e) s Hi) as H. unfold run_set.
  destruct (set _ _ _ _ s) as [[p|x] s']; cbn [snd]; destruct H as [H Hi'].
  - destruct H as (Hp & _ & E & Hs & Hd). apply validatePolicyInput_ok in Hp; [|done]. split.
    + constructor; [done|rewrite E; by apply entries_ok_set|by right].
    + rewrite E. unfold size. rewrite map_set_length. destruct (map_has _ _); lia.
  - destruct H as [E Hd]. split; [|rewrite E; lia]. constructor; [done|by rewrite E|]. by rewrite E, Hd.
Qed.
Lemma run_in_use events : forall s, Forall (fun e => 0 <= e_now e <= MAX_SAFE_INTEGER) events -> in_use s ->
  in_use (run_sets events s) /\ size (policies (run_sets events s)) <= size (policies s) + size events.
Proof.
  induction events as [|e events IH]; intros s Hn Hs; cbn [run_sets]; [split; [done|unfold size; cbn; lia]|].
  apply Forall_cons in Hn as [He Hn]. destruct (set_in_use e s He Hs) as [H1 H2]. destruct (IH _ Hn H1) as [H3 H4].
  split; [done|]. unfold size in *. cbn [length]. lia.
Qed.
Lemma run_spec events : forall s f, Forall (fun e => 0 <= e_now e <= MAX_SAFE_INTEGER) events -> in_use s ->
  (forall id, map_get (policies s) id = f id) -> forall id, map_get (policies (run_sets events s)) id = spec_sets events s f id.
Proof.
  induction events as [|e events IH]; intros s f Hn Hs Hf id; cbn [run_sets spec_sets]; [apply Hf|].
  apply Forall_cons in Hn as [He Hn]. pose proof (set_in_use e s He Hs) as [H1 _].
  pose proof (set_cases (e_fault e) (e_now e) (e_tick e) (e_input e) s (iu_init s Hs)) as H. unfold run_set in *.
  destruct (set _ _ _ _ s) as [[p|x] s']; cbn [snd] in *; destruct H as [H _]; (apply IH; [done..|]).
  - destruct H as (_ & _ & E & _). intros k. rewrite E, map_get_set, Hf. repeat case_bool_decide; congruence.
  - destruct H as [E _]. intros k. by rewrite E.
Qed.
End Durable.

Section Restarts.
Context (JSON_parse : jstr -> result value) (JSON_stringify : value -> jstr) (localeCompare : jstr -> jstr -> Z).
Context (filePath pid : jstr).
Context (json_inverse : forall l, JSON_parse (JSON_stringify (store_value l) ++ [10%N]) = Ok (store_value l)).

(** C19: The policies survive a restart: from a store that was loaded, after any
    calls that set policies, one at a time (at times that are safe integers), with writes that fail anywhere, asking for the policy of a
    workspace gives the last one whose call resolved, or the default, and it
    gives the same after a restart that reads the file, provided that no more
    than the 256 policies a load accepts are kept in the end (a 257th is
    accepted and saved, and the next start refuses the file); a call that
    rejects changes nothing. *)
Theorem policies_survive_restart events s f : in_use JSON_stringify localeCompare filePath s ->
  Forall (fun e => 0 <= e_now e <= MAX_SAFE_INTEGER) events -> (forall id, map_get (policies s) id = f id) ->
  let s' := run_sets JSON_parse JSON_stringify localeCompare filePath pid events s in
  size (policies s') <= MAX_POLICIES ->
  let answer := spec_sets JSON_parse JSON_stringify localeCompare filePath pid events s f in
  forall id, plugin_identifier id = true ->
  (get JSON_parse filePath id s').1 = match answer id with Some p => Ok p | None => defaultWorkspaceSkillPolicy id end /\
  (get JSON_parse filePath id (restart s')).1 = (get JSON_parse filePath id s').1.
Proof.
  intros Hs Hn Hf s' Hsize answer id Hid.
  destruct (run_in_use JSON_parse JSON_stringify localeCompare filePath pid events s Hn Hs) as [Hs' Hlen]. fold s' in Hs', Hlen.
  pose proof (run_spec JSON_parse JSON_stringify localeCompare filePath pid events s f Hn Hs Hf id) as Hget. fold s' answer in Hget.
  destruct (restart_reads JSON_parse JSON_stringify localeCompare filePath json_inverse s' Hs' ltac:(lia)) as (m & Hm & E).
  assert (Hread : forall x y, initialize JSON_parse filePath x = (Ok tt, y) ->
    (get JSON_parse filePath id x).1 = match map_get (policies y) id with Some p => Ok p | None => defaultWorkspaceSkillPolicy id end).
  { intros x y Hx. unfold get. rewrite M_bind_run, Hx. cbn iota beta. rewrite M_bind_run.
    rewrite (proj2 (identifier_Ok (VString id) "workspace id" id) (conj eq_refl Hid)). change (lift ?r ?x) with (r, x). cbn iota beta.
    rewrite M_bind_run. unfold get_state. cbn iota beta. by destruct (map_get (policies y) id). }
  rewrite (Hread _ _ E), (Hread _ _ (initialize_in_use JSON_parse filePath s' (iu_init _ _ _ _ Hs'))). cbn [policies].
  destruct Hs' as [_ [Hwf _] _]. rewrite Hget. split; [done|]. rewrite (map_get_perm m (policies s') id); [by rewrite Hget| |done].
  unfold map_wf in *. by rewrite Hm.
Qed.
End Restarts.

(** ** A workspace *)

Definition sample_skill (name : string) : PluginSkillView := {|
  k_id := js name; k_name := js name; k_description := None; k_relativePath := js "SKILL.md"; k_contentHash := []; k_bytes := 1 |}.
Definition sample_entries (p : jstr) : list Dirent :=
  if bool_decide (p = js "/repo") then
    [{| d_name := js "src"; d_kind := Directory |}; {| d_name := js "node_modules"; d_kind := Directory |};
     {| d_name := js "package.json"; d_kind := Regular 9 |}; {| d_name := js "link"; d_kind := SymbolicLink |}]
  else if bool_decide (p = js "/repo/src") then [{| d_name := js "main.ts"; d_kind := Regular 9 |}] else [].
Definition sample_readdir (log : list file_access) (p : jstr) : result (list Dirent) := Ok (sample_entries p).
Definition sample_read (log : list file_access) (p : jstr) : result jstr := Ok (js "{react}").
Example sample_discovery :
  discoverWorkspaceSkillSignals jstr_compare sample_readdir sample_read (js "/") (js "/repo") [] =
  (Ok (map js ["node"; "react"; "typescript"]%string), [ReadDir (js "/repo"); ReadText (js "/repo/package.json"); ReadDir (js "/repo/src")]).
Proof. vm_compute. reflexivity. Qed.
Lemma sample_plain : plain_names sample_readdir.
Proof.
  intros log p entries [= <-]. unfold sample_entries. repeat case_bool_decide; repeat apply Forall_cons_2; try apply Forall_nil_2;
    (split_and!; [discriminate|discriminate|discriminate|]); refine (bool_decide_unpack _ _); vm_compute; exact I.
Qed.
Lemma discovery_is_bounded_witness : exists found log,
  discoverWorkspaceSkillSignals jstr_compare sample_readdir sample_read (js "/") (js "/repo") [] = (Ok found, log) /\
  (length log <= 1 + MAX_DISCOVERY_ENTRIES)%nat.
Proof.
  destruct (discovery_is_bounded jstr_compare sample_readdir sample_read (js "/") (js "/repo") sample_plain)
    as (d & log & found & _ & H1 & _ & H2 & _). exists found, log. exact (conj H1 H2).
Defined.

Definition sample_policy : WorkspaceSkillPolicyView := {|
  workspaceId := js "w"; discovery := automatic; use := automatic; install := skills_only;
  include := [js "p/vue-kit"]; exclude := [js "p/review"]; updatedAt := 1 |}.
Lemma skill_use_is_exact_witness : exists a, workspaceSkillIsActive sample_policy (js "p") (sample_skill "react-kit") [js "react"] = Ok a /\
  (active a = true <-> js "p/react-kit" ∉ exclude sample_policy /\
     (js "p/react-kit" ∈ include sample_policy \/ discovery sample_policy = automatic /\ use sample_policy = automatic /\
        (isGenericWorkspaceSkill (sample_skill "react-kit") = true \/ exists s, s ∈ [js "react"] /\ signal_matches (skill_text (sample_skill "react-kit")) s))).
Proof.
  assert (H1 : workspaceSkillKey (js "p") (js "react-kit") = Ok (js "p/react-kit")) by (vm_compute; reflexivity).
  assert (H2 : Forall known_signal [js "react"]) by (apply Forall_singleton; unfold known_signal; refine (bool_decide_unpack _ _); vm_compute; exact I).
  destruct (skill_use_is_exact sample_policy (js "p") (sample_skill "react-kit") [js "react"] (js "p/react-kit") H1 H2) as (a & Ha & Hx & _).
  exists a. exact (conj Ha Hx).
Defined.
Example sample_activity : map (fun name => active <$> workspaceSkillIsActive sample_policy (js "p") (sample_skill name) [js "react"])
  ["react-kit"; "review"; "testing"; "vue-kit"; "vue-other"]%string = [Ok true; Ok false; Ok true; Ok true; Ok false].
Proof. vm_compute. reflexivity. Qed.

Definition sample_input : value := policy_value sample_policy.
Definition sample_store : PolicyStore := {| disk := ∅; policies := []; initialized := true |}.
Definition sample_events : list set_event :=
  [{| e_fault := NoFault; e_now := 5; e_tick := 6; e_input := sample_input |};
   {| e_fault := RenameFails; e_now := 7; e_tick := 8; e_input := VObject [] |}].
Lemma policies_survive_restart_witness : exists s',
  s' = run_sets sample_parse sample_stringify jstr_compare (js "/p") [] sample_events sample_store /\
  (get sample_parse (js "/p") (js "w") (restart s')).1 = (get sample_parse (js "/p") (js "w") s').1.
Proof.
  eexists. split; [reflexivity|].
  refine (proj2 (policies_survive_restart sample_parse sample_stringify jstr_compare (js "/p") [] (fun l => sample_json_line _)
    sample_events sample_store (fun _ => None) _ _ _ _ (js "w") _)).
  - constructor; [reflexivity|split; [constructor|constructor]|left; split; reflexivity].
  - repeat constructor; unfold MAX_SAFE_INTEGER; cbn; lia.
  - reflexivity.
  - vm_compute. discriminate.
  - vm_compute. reflexivity.
Defined.

(** A load that fails half-way keeps the records it read, so the next attempt
    takes the first of them for a duplicate, even when the file was repaired. *)
Definition broken_file : jstr := sample_stringify (VObject [(js "schemaVersion", VInt 1); (js "policies", VArray [sample_input; VNull])]).
Definition repaired_file : jstr := sample_stringify (VObject [(js "schemaVersion", VInt 1); (js "policies", VArray [sample_input])]).
Example repaired_file_is_refused :
  let broken := {| disk := {[ js "/p" := broken_file ]}; policies := []; initialized := false |} in
  let (r, s) := initialize sample_parse (js "/p") broken in
  is_ok r = false /\
  (initialize sample_parse (js "/p") {| disk := {[ js "/p" := repaired_file ]}; policies := policies s; initialized := initialized s |}).1 =
    Throw (Error (js "Workspace skill policy store contains duplicate workspace w")).
Proof. vm_compute. done. Qed.
(** The number of policies is checked by a load only: with one more than 256
    the file is written, and no restart can read it. *)
Definition many_events : list set_event := map (fun i =>
  {| e_fault := NoFault; e_now := 5; e_tick := 6; e_input := policy_value {|
     workspaceId := js "w" ++ js_int (Z.of_nat i); discovery := manual; use := manual; install := install_manual;
     include := []; exclude := []; updatedAt := 1 |} |}) (seq 0 257).
Example too_many_policies_are_saved :
  let s := run_sets (fun _ => fail "unused") (fun v => match v with VObject (_ :: (_, VArray l) :: _) => map (fun _ => 48%N) l | _ => [] end)
             jstr_compare (js "/p") [] many_events sample_store in
  size (policies s) = 257 /\
  (initialize (fun _ => Ok (store_value (map snd (policies s)))) (js "/p") (restart s)).1 = fail "Workspace skill policy store exceeds the workspace limit".
Proof. vm_compute. done. Qed.

End SkillPolicy.
