(* ===== verification/PluginManager.v ===== *)
(** * Installing, enabling and removing plugins (plugin-manager.ts)

    The manager installs a reviewed package: it finds or creates an MCP
    extension for every server the package declares, stores the skills, writes
    the registry, and hands the runtime what enabled plugins contribute. A
    step that fails is undone. [adaptMarketplacePluginReview] is from
    plugin-native-compat.ts.

    A call runs from its first to its last await without another one in
    between; what each collaborator answers (the MCP extension manager, the
    file system, a failing write, the clock, the marketplace) may depend on
    everything that was called before, and every call is recorded. [JSON], the
    URL parser, SHA-256 and [localeCompare] are arguments. *)

From S2P Require Import Prelude JsValue JsObject Path Utf8 LocalFile Validate Codec TaskPolicy JsonCodec PluginManifest PluginPackage PluginRegistry SkillPolicy JsMap.

Module PluginManager.
Import PluginManifest PluginPackage PluginRegistry.

Definition MAX_RUNTIME_SKILL_BYTES : Z := 128 * 1024.
Definition DEFAULT_PLUGIN_REGISTRY_URL : jstr :=
  js "https://raw.githubusercontent.com/openai/plugins/main/.agents/plugins/marketplace.json".

(** ** The MCP extensions *)

Inductive McpAuthType := no_auth | bearer | oauth.
#[export] Instance McpAuthType_eq_dec : EqDecision McpAuthType. Proof. solve_decision. Defined.
#[export] Instance mcp_auth_eq_dec : EqDecision mcp_auth. Proof. solve_decision. Defined.
(** The fields the manager reads *)
Record McpExtensionView := {
  e_id : jstr; e_namespace : jstr; e_source : jstr; e_transport : transport; e_authType : McpAuthType; e_enabled : bool }.
Record McpTool := { t_originalName : jstr; t_enabled : bool; t_automatic : bool }.
(** [required] is false and the update channel is [plugin]. *)
Record McpExtensionInstallInput := {
  in_id : jstr; in_name : jstr; in_version : jstr; in_namespace : jstr; in_source : jstr; in_transport : transport;
  in_authType : McpAuthType; in_oauth : option value }.
Inductive McpAuthorization := auth_manual (notes : list jstr) | auth_oauth (config : option value) | auth_not_required.

(** ** What the runtime is given *)

Record PluginRuntimeSkill := {
  rs_pluginId : jstr; rs_pluginName : jstr; rs_pluginVersion : jstr; rs_publisher : option jstr;
  rs_descriptor : PluginSkillView; rs_content : jstr; rs_workspaceIds : option (list jstr) }.
Record PluginRuntimeHarnessExtension := {
  rh_pluginId : jstr; rh_pluginName : jstr; rh_pluginVersion : jstr; rh_extension : PluginHarnessExtension }.
Record PluginRuntimeMaterialization := {
  m_skills : list PluginRuntimeSkill; m_harnessExtensions : list PluginRuntimeHarnessExtension;
  m_mcpOwnership : list (jstr * list jstr) }.

(** ** The outside *)

Inductive call :=
| McpList | McpInstall (i : McpExtensionInstallInput) | McpConnectOAuth (e : jstr) | McpEnable (e : jstr) | McpDisable (e : jstr)
| McpListTools (e : jstr) | McpUpdateToolPolicy (e tool : jstr) | McpRemove (e : jstr)
| DiscoverAuthorization (url : jstr) | Inspect (root : jstr) | RegistryLoad | RegistryWrite (s : PluginRegistrySnapshot)
| FsRemove (p : jstr) | FsMkdir (p : jstr) | FsWrite (p content : jstr) | FsRename (from to : jstr) | FsRead (p : jstr)
| ListWorkspaces | Materialize (m : PluginRuntimeMaterialization).
Abbreviation Log := (list call).

(** [o_workspaces] answers the workspaces that are ready, each with its
    signals. *)
Record Outside := {
  o_list : Log -> result (list McpExtensionView);
  o_install : Log -> McpExtensionInstallInput -> result McpExtensionView;
  o_tools : Log -> jstr -> result (list McpTool);
  o_authorization : Log -> jstr -> result McpAuthorization;
  o_files : Log -> FileSystem;
  o_write : Log -> write_fault;
  o_read : Log -> jstr -> result jstr;
  o_workspaces : Log -> result (list (jstr * list jstr));
  o_do : Log -> call -> result unit;
  o_now : Log -> Z }.

Record World := { registry : Registry; skillPolicies : SkillPolicy.PolicyStore; initialized : bool; calls : Log }.
Definition memory (w : World) : PluginRegistrySnapshot := snapshot (registry w).

Record Config := {
  cwd : jstr; pid : jstr; registryPath : jstr; skillPolicyPath : jstr; skillStoreRoot : jstr; marketplaceCacheRoot : jstr;
  repositoryRoot : option jstr; pluginRegistryUrl : jstr; has_workspaces : bool; has_runtime : bool }.

Abbreviation W := (M World).
(** The outcome of a call that is awaited under [catch] *)
Definition settled {S A} (m : M S A) : M S (result A) := fun s => let (r, s') := m s in (Ok r, s').
(** [.catch(() => undefined)] *)
Definition ignored {S A} (m : M S A) : M S unit := _ ← settled m; mret tt.

Definition log_call (c : call) (w : World) : World :=
  {| registry := registry w; skillPolicies := skillPolicies w; initialized := initialized w; calls := calls w ++ [c] |}.
Definition ask {A} (c : call) (f : Log -> result A) : W A := fun w => (f (calls w), log_call c w).
Definition on_registry {A} (m : M Registry A) : W A := fun w =>
  let (r, x) := m (registry w) in
  (r, {| registry := x; skillPolicies := skillPolicies w; initialized := initialized w; calls := calls w |}).
Definition on_policies {A} (m : M SkillPolicy.PolicyStore A) : W A := fun w =>
  let (r, x) := m (skillPolicies w) in
  (r, {| registry := registry w; skillPolicies := x; initialized := initialized w; calls := calls w |}).

(** [for (const x of l) await f(x)] *)
Fixpoint for_each {A} (f : A -> W unit) (l : list A) : W unit :=
  match l with [] => mret tt | x :: l' => _ ← f x; for_each f l' end.
(** The loop inside a [try], with what it has pushed when it ends or throws *)
Fixpoint collect {A L} (f : A -> L -> W L) (l : list A) (acc : L) : W (option exn * L) :=
  match l with
  | [] => mret (None, acc)
  | x :: l' => r ← settled (f x acc); match r with Ok acc' => collect f l' acc' | Throw e => mret (Some e, acc) end
  end.

(** ** The snapshot *)

Definition plugin_by (s : PluginRegistrySnapshot) (pluginId : jstr) : option InstalledPluginRecord :=
  find (fun p => bool_decide (id p = pluginId)) (plugins s).
Definition ownership_by (s : PluginRegistrySnapshot) (e : jstr) : option PluginMcpOwnershipRecord :=
  find (fun r => bool_decide (extensionId r = e)) (mcpOwnership s).
Definition requirePlugin (s : PluginRegistrySnapshot) (pluginId : jstr) : result InstalledPluginRecord :=
  if negb (SkillPolicy.plugin_identifier pluginId) then fail "Plugin id is invalid" else
  match plugin_by s pluginId with Some p => Ok p | None => err [js "Plugin "; pluginId; js " is not installed"] end.
Definition hasEnabledOwner (s : PluginRegistrySnapshot) (e : jstr) : bool :=
  let owned := match ownership_by s e with Some r => owners r | None => [] end in
  existsb (fun p => enabled p && bool_decide (id p ∈ owned)) (plugins s).
Definition isDirectInstall (s : PluginRegistrySnapshot) (e : jstr) : bool :=
  match ownership_by s e with Some r => directInstall r | None => false end.
Definition set_plugin (p : InstalledPluginRecord) (l : list InstalledPluginRecord) : list InstalledPluginRecord :=
  map (fun x => if bool_decide (id x = id p) then p else x) l.
Definition with_enabled (flag : bool) (now : Z) (p : InstalledPluginRecord) : InstalledPluginRecord := {|
  id := id p; name := name p; version := version p; description := description p; publisher := publisher p; category := category p;
  source := source p; status := if flag then enabled_ else disabled; enabled := flag; manifestHash := manifestHash p;
  mcpExtensionIds := mcpExtensionIds p; skills := skills p; harness := harness p; installedAt := installedAt p; updatedAt := now |}.
Definition without_extensions (now : Z) (p : InstalledPluginRecord) : InstalledPluginRecord := {|
  id := id p; name := name p; version := version p; description := description p; publisher := publisher p; category := category p;
  source := source p; status := status p; enabled := enabled p; manifestHash := manifestHash p;
  mcpExtensionIds := []; skills := skills p; harness := harness p; installedAt := installedAt p; updatedAt := now |}.
Definition with_owners (l : list jstr) (r : PluginMcpOwnershipRecord) : PluginMcpOwnershipRecord :=
  {| extensionId := extensionId r; definitionHash := definitionHash r; owners := l; directInstall := directInstall r |}.
Definition other_owners (pluginId : jstr) (r : PluginMcpOwnershipRecord) : list jstr := filter (fun o => o <> pluginId) (owners r).

Section Manager.
Context (JSON_parse : jstr -> result value) (JSON_stringify : value -> jstr).
Context (URL_parse : jstr -> option URL) (hostname : URL -> jstr) (sha256 : jstr -> jstr) (localeCompare : jstr -> jstr -> Z).
Context (o : Outside) (cfg : Config).

Definition now : W Z := fun w => (Ok (o_now o (calls w)), w).
Definition do (c : call) : W unit := ask c (fun log => o_do o log c).
Definition mcp_list : W (list McpExtensionView) := ask McpList (o_list o).
Definition replace (s : PluginRegistrySnapshot) : W unit := fun w =>
  on_registry (PluginRegistry.replace JSON_stringify (registryPath cfg) (pid cfg) (o_write o (calls w)) (o_now o (calls w)) s)
    (log_call (RegistryWrite s) w).
Definition view : W PluginRegistrySnapshot := gets memory.
Definition inspect (root : jstr) : W InspectedPluginPackage :=
  ask (Inspect root) (fun log => (inspectLocalPluginPackage JSON_parse JSON_stringify URL_parse sha256 localeCompare (o_files o log) root []).1).

(** ** Paths *)

Definition leads_out (relation : jstr) : bool :=
  bool_decide (relation = js "..") || starts_with relation (js "../") || isAbsolute relation.
Definition isInside (root candidate : jstr) : bool :=
  negb (leads_out (Path.relative (cwd cfg) (resolve (cwd cfg) root) (resolve (cwd cfg) candidate))).
Definition skillDirectory (pluginId : jstr) : result jstr :=
  if negb (SkillPolicy.plugin_identifier pluginId) then fail "Plugin id is invalid" else
  let root := resolve (cwd cfg) (skillStoreRoot cfg) in
  let resolved := resolve root pluginId in
  let relation := Path.relative (cwd cfg) root resolved in
  if negb (truthy relation) || leads_out relation then fail "Plugin skill path escaped the managed store" else Ok resolved.
Definition skill_file (directory skillId : jstr) : jstr := directory ++ [SLASH] ++ skillId ++ js ".md".
Definition isBundledSourceNervePackage (repository packageRoot pluginId : jstr) : bool :=
  bool_decide (pluginId = js "sourcenerve") &&
  bool_decide (resolve (cwd cfg) packageRoot = resolve (resolve (cwd cfg) repository) (js "plugins/sourcenerve")).

(** ** Reviews *)

Definition with_servers (servers : list PluginMcpComponentView) (warnings : list jstr) (r : PluginPackageReview) : PluginPackageReview := {|
  r_id := r_id r; r_name := r_name r; r_version := r_version r; r_description := r_description r; r_publisher := r_publisher r;
  r_category := r_category r; r_label := r_label r; r_manifestHash := r_manifestHash r; r_mcpServers := servers;
  r_skills := r_skills r; r_harness := r_harness r; r_warnings := warnings |}.
Definition with_review (r : PluginPackageReview) (p : InspectedPluginPackage) : InspectedPluginPackage :=
  {| i_root := i_root p; i_review := r; i_skills := i_skills p |}.

Definition isGitHubMcpComponent (c : PluginMcpComponentView) : bool :=
  if bool_decide (toLowerCase (m_id c) = js "github") then true else
  match m_transport c with
  | streamable_http url =>
      match URL_parse url with Some u => bool_decide (toLowerCase (hostname u) = js "api.githubcopilot.com") | None => false end
  | stdio _ _ => false
  end.
Definition addWarning (warnings : list jstr) (w : jstr) : list jstr := if bool_decide (w ∈ warnings) then warnings else warnings ++ [w].
Definition native_warning : jstr :=
  js "GitHub is backed by SourceNerve's native GitHub provider and the authenticated gh CLI session. The marketplace app binding does not require a separate SourceNerve OAuth client.".
Definition skipped_warning : jstr :=
  js "The marketplace GitHub MCP declaration is not installed separately. SourceNerve does not copy or persist GITHUB_PAT_TOKEN; GitHub provider credentials remain owned by gh CLI.".
(** The review, and whether a native provider stands for the plugin *)
Definition adaptMarketplacePluginReview (catalogId : jstr) (r : PluginPackageReview) : PluginPackageReview * bool :=
  if negb (bool_decide (pluginRegistryUrl cfg = DEFAULT_PLUGIN_REGISTRY_URL)) || negb (bool_decide (catalogId = js "github"))
     || negb (bool_decide (r_id r = js "github")) then (r, false)
  else
    let skipped := filter (fun c => isGitHubMcpComponent c = true) (r_mcpServers r) in
    let servers := filter (fun c => isGitHubMcpComponent c = false) (r_mcpServers r) in
    let warnings := addWarning (r_warnings r) native_warning in
    (with_servers servers (if bool_decide (skipped <> []) then addWarning warnings skipped_warning else warnings) r, true).
Definition hasSourceNerveCompatibleComponents (c : PluginPackageReview * bool) : bool :=
  c.2 || bool_decide (r_mcpServers c.1 <> []) || bool_decide (r_skills c.1 <> []) || bool_decide (is_Some (r_harness c.1)).

Definition builtin_warning : jstr :=
  js "SourceNerve Desktop uses its built-in local MCP runtime; the bundled SourceNerve plugin does not install a self-referential MCP extension.".
Definition adaptBundledPackage (p : InspectedPluginPackage) : InspectedPluginPackage :=
  match repositoryRoot cfg with
  | None => p
  | Some root =>
      let r := i_review p in
      if negb (isBundledSourceNervePackage root (i_root p) (r_id r)) || bool_decide (r_mcpServers r = []) then p
      else with_review (with_servers [] (r_warnings r ++ [builtin_warning]) r) p
  end.

(** ** Definitions of extensions *)

Definition normalizeUrl (url : jstr) : jstr := match URL_parse url with Some u => href u | None => url end.
Definition definition_auth (a : McpAuthType) : mcp_auth := match a with bearer => auth_bearer_env | _ => auth_none end.
Definition extensionDefinitionHash (e : McpExtensionView) : jstr :=
  sha256 (JSON_stringify match e_transport e with
    | streamable_http url => VObject [(js "type", VString (js "streamable-http")); (js "url", VString (normalizeUrl url));
                                      (js "auth", VString (auth_name (definition_auth (e_authType e))))]
    | stdio command args => VObject [(js "type", VString (js "stdio")); (js "command", VString command); (js "args", VArray (map VString args))]
    end).
Definition sameComponentDefinition (e : McpExtensionView) (c : PluginMcpComponentView) : bool :=
  match m_transport c, e_transport e with
  | streamable_http expected, streamable_http url =>
      bool_decide (normalizeUrl url = normalizeUrl expected) && bool_decide (auth_name (definition_auth (e_authType e)) = auth_name (m_auth c))
  | stdio command args, stdio command' args' => bool_decide (command' = command) && bool_decide (args' = args)
  | _, _ => false
  end.
Definition from_plugin_hub (e : McpExtensionView) : bool := starts_with (e_source e) (js "plugin-hub:").

Definition plain_prefix (n : nat) (c : PluginMcpComponentView) : jstr :=
  take n (map (fun u => if TaskPolicy.is_id_unit u then u else 45%N) (m_id c)).
Definition managedExtensionId (c : PluginMcpComponentView) : jstr :=
  take 64 (concat [js "plugin-"; plain_prefix 38 c; js "-"; take 16 (m_definitionHash c)]).
Definition managedNamespace (c : PluginMcpComponentView) : jstr :=
  take 48 (concat [js "plugin-"; plain_prefix 30 c; js "-"; take 8 (m_definitionHash c)]).
(** The middle dot in the name is one code unit. *)
Definition installInput (r : PluginPackageReview) (c : PluginMcpComponentView) : McpExtensionInstallInput := {|
  in_id := managedExtensionId c; in_name := take 128 (r_name r ++ [32; 0xB7; 32]%N ++ m_id c); in_version := r_version r;
  in_namespace := managedNamespace c;
  in_source := concat [js "plugin-hub:"; r_id r; js ":"; m_id c; js ":"; take 16 (m_definitionHash c)];
  in_transport := m_transport c; in_authType := no_auth; in_oauth := None |}.
Definition with_oauth (config : value) (i : McpExtensionInstallInput) : McpExtensionInstallInput := {|
  in_id := in_id i; in_name := in_name i; in_version := in_version i; in_namespace := in_namespace i; in_source := in_source i;
  in_transport := in_transport i; in_authType := oauth; in_oauth := Some config |}.

(** ** Installing a component

    [ownership] and the extensions known to this installation are threaded. *)
Record Resolution := {
  v_ownership : list PluginMcpOwnershipRecord; v_extensions : list McpExtensionView; v_extensionIds : list jstr;
  v_created : list jstr; v_reused : list jstr }.
Definition resolved (v : Resolution) (ownership : list PluginMcpOwnershipRecord) (e : jstr) : Resolution := {|
  v_ownership := ownership; v_extensions := v_extensions v; v_extensionIds := v_extensionIds v ++ [e];
  v_created := v_created v; v_reused := v_reused v ++ [e] |}.
Definition owned_by (pluginId e definition : jstr) (direct : bool) : PluginMcpOwnershipRecord :=
  {| extensionId := e; definitionHash := definition; owners := [pluginId]; directInstall := direct |}.
Definition add_owner (pluginId : jstr) (r : PluginMcpOwnershipRecord) : PluginMcpOwnershipRecord :=
  with_owners (if bool_decide (pluginId ∈ owners r) then owners r else owners r ++ [pluginId]) r.
(** The first record of a definition gets another owner. *)
Fixpoint share (pluginId definition : jstr) (l : list PluginMcpOwnershipRecord) : list PluginMcpOwnershipRecord :=
  match l with
  | [] => []
  | r :: l' => if bool_decide (definitionHash r = definition) then add_owner pluginId r :: l' else r :: share pluginId definition l'
  end.
Definition enable_if_needed (e : McpExtensionView) : W unit := if e_enabled e then mret tt else do (McpEnable (e_id e)).

Definition authorize (c : PluginMcpComponentView) (i : McpExtensionInstallInput) : W McpExtensionInstallInput :=
  match m_transport c with
  | streamable_http url =>
      auth ← ask (DiscoverAuthorization url) (fun log => o_authorization o log url);
      match auth with
      | auth_manual notes =>
          lift (err [js "Plugin MCP "; m_id c; js " requires authorization that SourceNerve could not configure automatically: ";
                     join (js " ") notes])
      | auth_oauth None => lift (err [js "Plugin MCP "; m_id c; js " OAuth discovery did not return a usable SourceNerve configuration"])
      | auth_oauth (Some config) => mret (with_oauth config i)
      | auth_not_required => mret i
      end
  | stdio _ _ => mret i
  end.
Definition open_tools (e : jstr) (tools : list McpTool) : W unit :=
  for_each (fun t => if t_enabled t && t_automatic t then mret tt else do (McpUpdateToolPolicy e (t_originalName t))) tools.
Definition start_extension (i : McpExtensionInstallInput) (e : jstr) : W unit :=
  _ ← (if bool_decide (in_authType i = oauth) then do (McpConnectOAuth e) else mret tt);
  _ ← do (McpEnable e);
  tools ← ask (McpListTools e) (fun log => o_tools o log e);
  open_tools e tools.
Definition install_component (r : PluginPackageReview) (c : PluginMcpComponentView) (v : Resolution) (i : McpExtensionInstallInput) : W Resolution :=
  i ← (if bool_decide (m_auth c = auth_none) then authorize c i else mret i);
  installed ← ask (McpInstall i) (fun log => o_install o log i);
  _ ← try_catch (start_extension i (e_id installed)) (fun e => _ ← ignored (do (McpRemove (e_id installed))); rethrow e);
  mret {| v_ownership := v_ownership v ++ [owned_by (r_id r) (e_id installed) (m_definitionHash c) false];
          v_extensions := v_extensions v ++ [installed]; v_extensionIds := v_extensionIds v ++ [e_id installed];
          v_created := v_created v ++ [e_id installed]; v_reused := v_reused v |}.

Definition reuse (r : PluginPackageReview) (c : PluginMcpComponentView) (v : Resolution) (e : McpExtensionView) : W Resolution :=
  _ ← enable_if_needed e;
  mret (resolved v (v_ownership v ++ [owned_by (r_id r) (e_id e) (m_definitionHash c) (negb (from_plugin_hub e))]) (e_id e)).

Definition ensureMcpComponent (r : PluginPackageReview) (c : PluginMcpComponentView) (v : Resolution) : W Resolution :=
  match find (fun x => bool_decide (definitionHash x = m_definitionHash c)) (v_ownership v) with
  | Some owned =>
      match find (fun e => bool_decide (e_id e = extensionId owned)) (v_extensions v) with
      | None => lift (err [js "Shared MCP component "; extensionId owned; js " is missing"])
      | Some existing =>
          _ ← enable_if_needed existing;
          mret (resolved v (share (r_id r) (m_definitionHash c) (v_ownership v)) (e_id existing))
      end
  | None =>
      match find (fun e => bool_decide (extensionDefinitionHash e = m_definitionHash c)) (v_extensions v) with
      | Some e => reuse r c v e
      | None =>
          if bool_decide (m_auth c = auth_bearer_env) then
            lift (err [js "Plugin MCP "; m_id c;
                       js " requires bearer environment configuration; Phase 1 refuses to copy ambient secrets automatically"])
          else
            let i := installInput r c in
            match find (fun e => bool_decide (e_id e = in_id i) || bool_decide (e_namespace e = in_namespace i)) (v_extensions v) with
            | Some e =>
                if sameComponentDefinition e c then reuse r c v e
                else lift (err [js "Plugin MCP "; m_id c; js " conflicts with existing MCP extension "; e_id e;
                                js "; remove or rename the conflicting extension before installing this plugin"])
            | None => install_component r c v i
            end
      end
  end.

(** ** Skills *)

Definition check_skill (s : InspectedPluginSkill) : result unit :=
  let bytes := utf8_len (content s) in
  if (MAX_RUNTIME_SKILL_BYTES <? bytes) || negb (bytes =? k_bytes (descriptor s)) then
    err [js "Plugin skill "; k_id (descriptor s); js " changed after package inspection"]
  else if negb (bool_decide (sha256 (content s) = k_contentHash (descriptor s))) then
    err [js "Plugin skill "; k_id (descriptor s); js " content hash changed after inspection"]
  else Ok tt.
Definition write_skill (directory : jstr) (s : InspectedPluginSkill) : W unit :=
  _ ← lift (check_skill s);
  do (FsWrite (skill_file directory (k_id (descriptor s))) (content s)).
Definition commitSkills (p : InspectedPluginPackage) : W unit :=
  pluginRoot ← lift (skillDirectory (r_id (i_review p)));
  t ← now;
  let temporary := concat [pluginRoot; js ".tmp-"; pid cfg; js "-"; js_int t] in
  _ ← do (FsRemove temporary);
  _ ← do (FsMkdir temporary);
  try_catch (_ ← for_each (write_skill temporary) (i_skills p);
             _ ← do (FsRemove pluginRoot);
             do (FsRename temporary pluginRoot))
    (fun e => _ ← ignored (do (FsRemove temporary)); rethrow e).

(** ** What the runtime is given *)

Record WorkspaceContext := { x_workspace : jstr; x_policy : SkillPolicy.WorkspaceSkillPolicyView; x_signals : list jstr }.
Definition policy_of (workspaceId : jstr) : W SkillPolicy.WorkspaceSkillPolicyView :=
  on_policies (SkillPolicy.get JSON_parse (skillPolicyPath cfg) workspaceId).
Abbreviation Overrides := (list (jstr * list jstr)).
Definition signals_of (overrides : Overrides) (w : jstr * list jstr) : list jstr := default w.2 (map_get overrides w.1).
Fixpoint contexts (overrides : Overrides) (l : list (jstr * list jstr)) : W (list WorkspaceContext) :=
  match l with
  | [] => mret []
  | w :: l' =>
      policy ← policy_of w.1;
      rest ← contexts overrides l';
      mret ({| x_workspace := w.1; x_policy := policy; x_signals := signals_of overrides w |} :: rest)
  end.
Definition workspaceContexts (overrides : Overrides) : W (option (list WorkspaceContext)) :=
  if negb (has_workspaces cfg) then mret None else
  l ← ask ListWorkspaces (o_workspaces o);
  x ← contexts overrides l; mret (Some x).

Fixpoint active_in (pluginId : jstr) (d : PluginSkillView) (l : list WorkspaceContext) : result (list jstr) :=
  match l with
  | [] => Ok []
  | x :: l' =>
      a ← SkillPolicy.workspaceSkillIsActive (x_policy x) pluginId d (x_signals x);
      rest ← active_in pluginId d l';
      Ok (if SkillPolicy.active a then x_workspace x :: rest else rest)
  end.
Definition workspaces_of (pluginId : jstr) (d : PluginSkillView) (x : option (list WorkspaceContext)) : result (option (list jstr)) :=
  match x with None => Ok None | Some l => Some <$> active_in pluginId d l end.
Definition managed_skill (p : InstalledPluginRecord) (d : PluginSkillView) : jstr := id p ++ [SLASH] ++ k_id d.
Definition check_content (p : InstalledPluginRecord) (d : PluginSkillView) (content : jstr) : result unit :=
  if MAX_RUNTIME_SKILL_BYTES <? utf8_len content then err [js "Managed plugin skill "; managed_skill p d; js " exceeds runtime limit"]
  else if negb (bool_decide (sha256 content = k_contentHash d)) then
    err [js "Managed plugin skill "; managed_skill p d; js " failed integrity validation"]
  else Ok tt.
Definition runtime_skill (x : option (list WorkspaceContext)) (p : InstalledPluginRecord) (d : PluginSkillView) : W PluginRuntimeSkill :=
  directory ← lift (skillDirectory (id p));
  let file := skill_file directory (k_id d) in
  content ← ask (FsRead file) (fun log => o_read o log file);
  _ ← lift (check_content p d content);
  workspaceIds ← lift (workspaces_of (id p) d x);
  mret {| rs_pluginId := id p; rs_pluginName := name p; rs_pluginVersion := version p; rs_publisher := if_text (publisher p);
          rs_descriptor := d; rs_content := content; rs_workspaceIds := workspaceIds |}.
Fixpoint map_each {A B} (f : A -> W B) (l : list A) : W (list B) :=
  match l with [] => mret [] | x :: l' => y ← f x; ys ← map_each f l'; mret (y :: ys) end.

Definition enabledPlugins (s : PluginRegistrySnapshot) : list InstalledPluginRecord := filter (fun p => enabled p = true) (plugins s).
Definition runtime_harness (p : InstalledPluginRecord) : option PluginRuntimeHarnessExtension :=
  (fun h => {| rh_pluginId := id p; rh_pluginName := name p; rh_pluginVersion := version p; rh_extension := h |}) <$> harness p.
Definition harness_owners (s : PluginRegistrySnapshot) : list jstr :=
  map id (filter (fun p => is_Some (harness p)) (enabledPlugins s)).
Definition runtime_ownership (s : PluginRegistrySnapshot) : list (jstr * list jstr) :=
  filter (fun r => r.2 <> [])
    (map (fun r => (extensionId r, filter (fun owner => owner ∈ harness_owners s) (owners r))) (mcpOwnership s)).
Definition materializeRuntime (overrides : Overrides) : W unit :=
  if negb (has_runtime cfg) then mret tt else
  snapshot ← view;
  x ← workspaceContexts overrides;
  skills ← map_each (fun p => map_each (runtime_skill x p) (skills p)) (enabledPlugins snapshot);
  do (Materialize {| m_skills := concat skills; m_harnessExtensions := omap runtime_harness (enabledPlugins snapshot);
                     m_mcpOwnership := runtime_ownership snapshot |}).

(** ** The calls *)

Record PluginInstallResult := { plugin : InstalledPluginRecord; createdMcpExtensions : list jstr; reusedMcpExtensions : list jstr }.

Definition effectiveSourceKind (sourceKind : PluginSourceKind) (root : jstr) : PluginSourceKind :=
  if isInside (marketplaceCacheRoot cfg) root then https
  else if bool_decide (sourceKind = local) && match repositoryRoot cfg with Some r => isInside r root | None => false end then catalog
  else sourceKind.
Definition new_record (p : InspectedPluginPackage) (sourceKind : PluginSourceKind) (extensionIds : list jstr) (t : Z) : InstalledPluginRecord :=
  let r := i_review p in
  let kind := effectiveSourceKind sourceKind (i_root p) in {|
  id := r_id r; name := r_name r; version := r_version r; description := r_description r; publisher := if_text (r_publisher r);
  category := if_text (r_category r);
  source := {| so_kind := kind;
               so_label := match kind with https => pluginRegistryUrl cfg | catalog => r_id r | _ => i_root p end |};
  status := enabled_; enabled := true; manifestHash := r_manifestHash r; mcpExtensionIds := extensionIds; skills := r_skills r;
  harness := r_harness r; installedAt := t; updatedAt := t |}.

(** The files of a plugin are removed; in an undo a failure is ignored. *)
Definition removeSkillDirectory (pluginId : jstr) : W unit :=
  directory ← lift (skillDirectory pluginId); do (FsRemove directory).
Definition drop_skills (pluginId : jstr) : W unit := directory ← lift (skillDirectory pluginId); ignored (do (FsRemove directory)).
Definition remove_all (l : list jstr) : W unit := for_each (fun e => ignored (do (McpRemove e))) l.
Definition disable_all (l : list jstr) : W unit := for_each (fun e => ignored (do (McpDisable e))) l.
(** The end of every [catch]: the snapshot is restored, then the runtime. *)
Definition restore (before : PluginRegistrySnapshot) (between : W unit) {A} (e : exn) : W A :=
  _ ← ignored (replace before); _ ← between; _ ← ignored (materializeRuntime []); rethrow e.

Definition commit_install (p : InspectedPluginPackage) (sourceKind : PluginSourceKind) (before : PluginRegistrySnapshot) (v : Resolution) :
    W PluginInstallResult :=
  t ← now;
  let plugin := new_record p sourceKind (v_extensionIds v) t in
  _ ← replace {| plugins := plugins before ++ [plugin]; mcpOwnership := v_ownership v |};
  _ ← materializeRuntime [];
  mret {| plugin := plugin; createdMcpExtensions := v_created v; reusedMcpExtensions := v_reused v |}.
(** What an installation does when a step throws. *)
Definition undo_install {A} (p : InspectedPluginPackage) (before : PluginRegistrySnapshot) (created : list jstr) (committed : bool) (e : exn) : W A :=
  _ ← (if committed then drop_skills (r_id (i_review p)) else mret tt);
  _ ← remove_all (rev created);
  restore before (mret tt) e.
Definition install_new (p : InspectedPluginPackage) (sourceKind : PluginSourceKind) (before : PluginRegistrySnapshot) : W PluginInstallResult :=
  current ← mcp_list;
  c ← collect (ensureMcpComponent (i_review p)) (r_mcpServers (i_review p))
        {| v_ownership := mcpOwnership before; v_extensions := current; v_extensionIds := []; v_created := []; v_reused := [] |};
  let v := c.2 in
  match c.1 with
  | Some e => undo_install p before (v_created v) false e
  | None =>
      committed ← settled (commitSkills p);
      match committed with
      | Throw e => undo_install p before (v_created v) false e
      | Ok _ => try_catch (commit_install p sourceKind before v) (undo_install p before (v_created v) true)
      end
  end.
Definition install_inspected (p : InspectedPluginPackage) (sourceKind : PluginSourceKind) : W PluginInstallResult :=
  before ← view;
  match plugin_by before (r_id (i_review p)) with
  | Some known =>
      mret {| plugin := known; createdMcpExtensions := []; reusedMcpExtensions := mcpExtensionIds known |}
  | None => install_new p sourceKind before
  end.
Definition adapted (p : InspectedPluginPackage) : InspectedPluginPackage :=
  adaptBundledPackage
    (if isInside (marketplaceCacheRoot cfg) (i_root p)
     then with_review (adaptMarketplacePluginReview (r_id (i_review p)) (i_review p)).1 p else p).

Fixpoint enable_extensions (l : list jstr) (enabledIds : list jstr) : W (option exn * list jstr) :=
  match l with
  | [] => mret (None, enabledIds)
  | e :: l' =>
      r ← settled (extensions ← mcp_list;
                   match find (fun x => bool_decide (e_id x = e)) extensions with
                   | None => lift (err [js "Plugin MCP extension "; e; js " is no longer installed"])
                   | Some x => if e_enabled x then mret false else _ ← do (McpEnable e); mret true
                   end);
      match r with
      | Ok done => enable_extensions l' (if done : bool then enabledIds ++ [e] else enabledIds)
      | Throw ex => mret (Some ex, enabledIds)
      end
  end.
Definition change_plugin (before : PluginRegistrySnapshot) (p : InstalledPluginRecord) : PluginRegistrySnapshot :=
  {| plugins := set_plugin p (plugins before); mcpOwnership := mcpOwnership before |}.
Definition undo_enable {A} (before : PluginRegistrySnapshot) (enabledIds : list jstr) (e : exn) : W A :=
  restore before (disable_all (filter (fun x => isDirectInstall before x = false) (rev enabledIds))) e.
Definition enable (pluginId : jstr) : W InstalledPluginRecord :=
  before ← view;
  p ← lift (requirePlugin before pluginId);
  if enabled p then mret p else
  c ← enable_extensions (mcpExtensionIds p) [];
  match c.1 with
  | Some e => undo_enable before c.2 e
  | None =>
      try_catch (t ← now;
                 let updated := with_enabled true t p in
                 _ ← replace (change_plugin before updated);
                 _ ← materializeRuntime [];
                 mret updated)
        (undo_enable before c.2)
  end.

Definition unused_extensions (next : PluginRegistrySnapshot) (l : list jstr) : list jstr :=
  filter (fun e => isDirectInstall next e = false /\ hasEnabledOwner next e = false) l.
Definition disable (pluginId : jstr) : W InstalledPluginRecord :=
  before ← view;
  p ← lift (requirePlugin before pluginId);
  if negb (enabled p) then mret p else
  t ← now;
  let updated := with_enabled false t p in
  let next := change_plugin before updated in
  _ ← replace next;
  try_catch (_ ← disable_all (unused_extensions next (mcpExtensionIds p));
             _ ← materializeRuntime [];
             mret updated)
    (restore before (mret tt)).

(** The records without an owner, and the ones that would be left without *)
Definition without_owner (pluginId : jstr) (l : list PluginMcpOwnershipRecord) : list PluginMcpOwnershipRecord :=
  omap (fun r => if bool_decide (pluginId ∈ owners r)
                 then if bool_decide (other_owners pluginId r = []) then None else Some (with_owners (other_owners pluginId r) r)
                 else Some r) l.
Definition removable (pluginId : jstr) (l : list PluginMcpOwnershipRecord) : list jstr :=
  map extensionId (filter (fun r => pluginId ∈ owners r /\ other_owners pluginId r = [] /\ directInstall r = false) l).
Definition without_plugin (pluginId : jstr) (s : PluginRegistrySnapshot) : PluginRegistrySnapshot :=
  {| plugins := filter (fun p => id p <> pluginId) (plugins s); mcpOwnership := without_owner pluginId (mcpOwnership s) |}.
Definition idle_extensions (s : PluginRegistrySnapshot) : list jstr :=
  map extensionId (filter (fun r => directInstall r = false /\ hasEnabledOwner s (extensionId r) = false) (mcpOwnership s)).
(** [true] when there was something to remove *)
Definition remove (pluginId : jstr) : W bool :=
  before ← view;
  match plugin_by before pluginId with
  | None => mret false
  | Some _ =>
      let next := without_plugin pluginId before in
      _ ← replace next;
      try_catch (_ ← removeSkillDirectory pluginId;
                 _ ← remove_all (removable pluginId (mcpOwnership before));
                 _ ← disable_all (idle_extensions next);
                 _ ← materializeRuntime [];
                 mret true)
        (restore before (mret tt))
  end.

Definition bundled_plugin (s : PluginRegistrySnapshot) : option InstalledPluginRecord :=
  find (fun p => bool_decide (id p = js "sourcenerve") && bool_decide (so_kind (source p) = catalog)) (plugins s).
Definition self_referential (before : PluginRegistrySnapshot) (p : InstalledPluginRecord) (current : list McpExtensionView) (e : jstr) : bool :=
  match ownership_by before e with
  | None => true
  | Some r => forallb (fun owner => bool_decide (owner = id p)) (owners r) && negb (directInstall r)
  end &&
  match find (fun x => bool_decide (e_id x = e)) current with
  | Some x => starts_with (e_source x) (js "plugin-hub:sourcenerve:")
  | None => false
  end.
(** A set of ids, in the order of their first occurrence *)
Definition unique (l : list jstr) : list jstr := foldl (fun s e => if bool_decide (e ∈ s) then s else s ++ [e]) [] l.
Definition reconcileBundledSourceNervePlugin : W unit :=
  if bool_decide (repositoryRoot cfg = None) then mret tt else
  before ← view;
  match bundled_plugin before with
  | None => mret tt
  | Some p =>
      if bool_decide (mcpExtensionIds p = []) then mret tt else
      current ← mcp_list;
      t ← now;
      _ ← replace {| plugins := set_plugin (without_extensions t p) (plugins before); mcpOwnership := without_owner (id p) (mcpOwnership before) |};
      remove_all (unique (filter (fun e => self_referential before p current e = true) (mcpExtensionIds p)))
  end.

Definition initialize : W unit :=
  w ← get_state;
  if initialized w then mret tt else
  _ ← on_registry (PluginRegistry.initialize JSON_parse (registryPath cfg));
  _ ← do (FsMkdir (skillStoreRoot cfg));
  _ ← do (FsMkdir (marketplaceCacheRoot cfg));
  _ ← on_policies (SkillPolicy.initialize JSON_parse (skillPolicyPath cfg));
  _ ← modify (fun w => {| registry := registry w; skillPolicies := skillPolicies w; initialized := true; calls := calls w |});
  _ ← reconcileBundledSourceNervePlugin;
  materializeRuntime [].
Definition installLocal (root : jstr) (sourceKind : PluginSourceKind) : W PluginInstallResult :=
  _ ← initialize;
  p ← inspect root;
  install_inspected (adapted p) sourceKind.

Inductive operation := Initialize | Install (root : jstr) (k : PluginSourceKind) | Enable (p : jstr) | Disable (p : jstr) | Remove (p : jstr).
Definition perform (op : operation) : W unit :=
  match op with
  | Initialize => initialize
  | Install root k => _ ← installLocal root k; mret tt
  | Enable p => _ ← initialize; _ ← enable p; mret tt
  | Disable p => _ ← initialize; _ ← disable p; mret tt
  | Remove p => _ ← initialize; _ ← remove p; mret tt
  end.

(** *** Who owns what

    Every owner of an extension is an installed plugin that lists it, and
    every extension a plugin lists has the plugin as an owner. *)
Definition lists (s : PluginRegistrySnapshot) (pluginId e : jstr) : Prop :=
  exists p, p ∈ plugins s /\ id p = pluginId /\ e ∈ mcpExtensionIds p.
Definition owns (s : PluginRegistrySnapshot) (pluginId e : jstr) : Prop :=
  exists r, r ∈ mcpOwnership s /\ extensionId r = e /\ pluginId ∈ owners r.
Definition linked (s : PluginRegistrySnapshot) : Prop := forall pluginId e, owns s pluginId e <-> lists s pluginId e.
Record consistent (s : PluginRegistrySnapshot) : Prop := {
  c_plugins : NoDup (map id (plugins s)); c_extensions : NoDup (map extensionId (mcpOwnership s)); c_linked : linked s }.

(** The check of the registry trims the ids, and keeps the links. *)
Lemma identifier_trims max label s t : identifier max label (VString s) = Ok t -> t = trim s.
Proof.
  unfold identifier. intros (x & Hx & H)%bind_Ok. unfold boundedText in Hx. cbn in Hx.
  destruct (text_fits 1 max s); [|done]. injection Hx as <-. destruct (identifier_ok (trim s)); [|done]. by injection H as <-.
Qed.
Lemma map_seen_Forall2 {A} (key : A -> jstr) f seen l k : map_seen key f seen l = Ok k -> Forall2 (fun v a => exists seen, f seen v = Ok a) l k.
Proof.
  revert seen k. induction l as [|v l IH]; intros seen k; cbn [map_seen]; [intros [= <-]; constructor|].
  intros (a & Ha & (rest & Hrest & [= <-])%bind_Ok)%bind_Ok. constructor; eauto.
Qed.
Lemma stringList_trims maxItems max label l k : stringList maxItems max label (texts_value l) = Ok k -> k = map trim l.
Proof.
  unfold stringList, texts_value, list_value. intros (vs & Hv & H)%bind_Ok. unfold array_of in Hv.
  destruct (maxItems <? size _); [done|]. injection Hv as <-. apply map_seen_Forall2 in H. rewrite Forall2_fmap_l in H.
  induction H as [|s t l k [seen Ht] _ IH]; [done|]. cbn [map]. rewrite <- IH. f_equal.
  apply bind_Ok in Ht as (x & Hx%identifier_trims & Ht). destruct (bool_decide (x ∈ seen)); [done|]. by injection Ht as <-.
Qed.
Lemma validatePlugin_trims seen p q : validatePlugin seen (plugin_value p) = Ok q ->
  id q = trim (id p) /\ mcpExtensionIds q = map trim (mcpExtensionIds p).
Proof.
  unfold validatePlugin, plugin_value. cbv zeta. rewrite record_of_object. cbn [mbind result_bind]. read_opt_fields.
  intros H. read_ok.
  cbn [id mcpExtensionIds].
  split; [by eapply identifier_trims|by eapply stringList_trims].
Qed.
Lemma validateOwnership_trims pluginIds seen r x : validateOwnership pluginIds seen (ownership_value r) = Ok x ->
  extensionId x = trim (extensionId r) /\ owners x = map trim (owners r).
Proof.
  unfold validateOwnership, ownership_value. cbv zeta. rewrite record_of_object. cbn [mbind result_bind]. read_opt_fields.
  intros H. read_ok.
  cbn [extensionId owners].
  split; [by eapply identifier_trims|by eapply stringList_trims].
Qed.
Lemma Forall2_from {A B} (g : A -> value) (P : A -> B -> Prop) (f : list jstr -> value -> result B) key l k :
  map_seen key f [] (map g l) = Ok k -> (forall seen a b, f seen (g a) = Ok b -> P a b) -> Forall2 P l k.
Proof. intros H HP. apply map_seen_Forall2 in H. rewrite Forall2_fmap_l in H. eapply Forall2_impl; [exact H|]. intros a b [seen Hb]. eauto. Qed.
Lemma validateRegistry_trims s t : validateRegistry (registry_value s) = Ok t ->
  Forall2 (fun p q => id q = trim (id p) /\ mcpExtensionIds q = map trim (mcpExtensionIds p)) (plugins s) (plugins t) /\
  Forall2 (fun r x => extensionId x = trim (extensionId r) /\ owners x = map trim (owners r)) (mcpOwnership s) (mcpOwnership t).
Proof.
  unfold validateRegistry, registry_value. cbn [is_record]. read_opt_fields. intros H. read_ok.
  unfold list_value in *. repeat match goal with H : VArray _ = VArray _ |- _ => injection H as <- end.
  cbn [plugins mcpOwnership].
  split; (eapply Forall2_from; [eassumption|]); [exact validatePlugin_trims|exact (validateOwnership_trims _)].
Qed.
Lemma Forall2_elem_l {A B} (P : A -> B -> Prop) l k x : Forall2 P l k -> x ∈ l -> exists y, y ∈ k /\ P x y.
Proof. intros H. induction H as [|a b l k Hab _ IH]; [by intros ?%not_elem_of_nil|]. intros [->|Hx]%elem_of_cons; [|destruct (IH Hx) as (y & ? & ?)]; eauto using list_elem_of_here, list_elem_of_further. Qed.
Lemma Forall2_elem_r {A B} (P : A -> B -> Prop) l k y : Forall2 P l k -> y ∈ k -> exists x, x ∈ l /\ P x y.
Proof. intros H. apply Forall2_flip in H. exact (Forall2_elem_l _ _ _ y H). Qed.
Lemma linked_checked s t : linked s -> validateRegistry (registry_value s) = Ok t -> linked t.
Proof.
  intros Hs [Hp Ho]%validateRegistry_trims pluginId e. split.
  - intros (x & Hx & <- & Hin). destruct (Forall2_elem_r _ _ _ _ Ho Hx) as (r & Hr & E1 & E2). rewrite E2 in Hin; change (map trim ?l) with (trim <$> l) in Hin.
    apply list_elem_of_fmap in Hin as (o' & -> & Hin).
    destruct (proj1 (Hs o' (extensionId r))) as (p & Hp' & <- & He); [by exists r|].
    destruct (Forall2_elem_l _ _ _ _ Hp Hp') as (q & Hq & E3 & E4). exists q. split_and!; [done..|].
    rewrite E4, E1; change (map trim ?l) with (trim <$> l). by apply list_elem_of_fmap_2.
  - intros (q & Hq & <- & Hin). destruct (Forall2_elem_r _ _ _ _ Hp Hq) as (p & Hp' & E1 & E2). rewrite E2 in Hin; change (map trim ?l) with (trim <$> l) in Hin.
    apply list_elem_of_fmap in Hin as (e' & -> & Hin).
    destruct (proj2 (Hs (id p) e')) as (r & Hr & <- & He); [by exists p|].
    destruct (Forall2_elem_l _ _ _ _ Ho Hr) as (x & Hx & E3 & E4). exists x. split_and!; [done..|].
    rewrite E4, E1; change (map trim ?l) with (trim <$> l). by apply list_elem_of_fmap_2.
Qed.
Lemma consistent_checked s t : linked s -> validateRegistry (registry_value s) = Ok t -> consistent t.
Proof.
  intros Hs Ht. destruct (validateRegistry_ok _ _ Ht) as ((_ & H1 & _) & (_ & H2 & _)). split; [done..|]. by apply (linked_checked s).
Qed.

(** ** What the steps keep

    [I] is kept by every call that is not [marked], by what happens to the
    policies, and by the writing of a [writable] snapshot. The marked calls
    add an extension or take one away, or put the skills of a plugin in their
    place. *)
Definition marked (c : call) : bool := match c with McpInstall _ | McpRemove _ | McpDisable _ | FsRename _ _ => true | _ => false end.
Definition with_policies (x : SkillPolicy.PolicyStore) (w : World) : World :=
  {| registry := registry w; skillPolicies := x; initialized := initialized w; calls := calls w |}.

Section Keeps.
Context (I : World -> Prop) (writable : PluginRegistrySnapshot -> Prop).
Context (keep_call : forall c w, marked c = false -> I w -> I (log_call c w)).
Context (keep_policies : forall x w, I w -> I (with_policies x w)).
Context (keep_replace : forall s, writable s -> triple I (replace s) (fun _ => True)).

Abbreviation keeps m := (triple I m (fun _ => True)).

Lemma kept_ask {A} c (f : Log -> result A) : marked c = false -> keeps (ask c f).
Proof. intros Hc w Hw. split; [by apply keep_call|done]. Qed.
Lemma kept_do c : marked c = false -> keeps (do c).
Proof. apply kept_ask. Qed.
Lemma kept_ret {A} (a : A) : keeps (mret a). Proof. by apply triple_ret. Qed.
Lemma kept_lift {A} (r : result A) : keeps (lift r). Proof. intros w Hw. by split. Qed.
Lemma kept_rethrow {A} e : keeps (rethrow e : W A). Proof. intros w Hw. by split. Qed.
Lemma kept_view : keeps view. Proof. intros w Hw. by split. Qed.
Lemma kept_now : keeps now. Proof. intros w Hw. by split. Qed.
Lemma kept_bind {A B} (m : W A) (f : A -> W B) : keeps m -> (forall a, keeps (f a)) -> keeps (m ≫= f).
Proof. intros Hm Hf. eapply triple_bind; [exact Hm|auto]. Qed.
Lemma kept_settled {A} (m : W A) Q : triple I m Q -> triple I (settled m) (fun r => forall a, r = Ok a -> Q a).
Proof. intros Hm w Hw. specialize (Hm w Hw) as [H1 H2]. unfold settled. destruct (m w) as [r w']. split; [done|]. by intros ? [= <-]. Qed.
Lemma kept_ignored {A} (m : W A) : keeps m -> keeps (ignored m).
Proof. intros Hm. eapply triple_bind; [by apply kept_settled|]. intros. apply kept_ret. Qed.
Lemma kept_for_each {A} (f : A -> W unit) l : Forall (fun x => keeps (f x)) l -> keeps (for_each f l).
Proof. induction 1 as [|x l Hx _ IH]; cbn [for_each]; [apply kept_ret|]. by apply kept_bind. Qed.
Lemma kept_map_each {A B} (f : A -> W B) l : (forall x, keeps (f x)) -> keeps (map_each f l).
Proof.
  intros Hf. induction l as [|x l IH]; cbn [map_each]; [apply kept_ret|].
  apply kept_bind; [done|]. intros y. apply kept_bind; [done|]. intros. apply kept_ret.
Qed.
Lemma kept_catch {A} (m : W A) h : keeps m -> (forall e, keeps (h e)) -> keeps (try_catch m h).
Proof. apply triple_catch. Qed.
Lemma kept_policies {A} (m : M SkillPolicy.PolicyStore A) : keeps (on_policies m).
Proof. intros w Hw. unfold on_policies. destruct (m _) as [r x]. split; [by apply (keep_policies x)|done]. Qed.

(** Go through a computation made of steps that are kept. *)
Ltac steps := repeat first
  [ apply kept_ret | apply kept_lift | apply kept_rethrow | apply kept_view | apply kept_now
  | by apply kept_ask | by apply kept_do | apply kept_policies | apply kept_ignored
  | apply kept_bind; [|intros ?] | apply kept_catch; [|intros ?]
  | assumption ].

Lemma kept_inspect root : keeps (inspect root). Proof. by apply kept_ask. Qed.
Lemma kept_contexts overrides l : keeps (contexts overrides l).
Proof. induction l as [|w l IH]; cbn [contexts]; unfold policy_of; steps. Qed.
Lemma kept_materialize overrides : keeps (materializeRuntime overrides).
Proof.
  unfold materializeRuntime, workspaceContexts. destruct (has_runtime cfg); cbn [negb]; [|steps].
  apply kept_bind; [steps|]. intros s. apply kept_bind.
  - destruct (has_workspaces cfg); cbn [negb]; [|steps]. apply kept_bind; [steps|]. intros l.
    apply kept_bind; [apply kept_contexts|]. intros. steps.
  - intros x. apply kept_bind; [|intros; steps]. apply kept_map_each. intros p. apply kept_map_each. intros d.
    unfold runtime_skill. cbv zeta. steps.
Qed.
Lemma kept_commitSkills p : (forall a b w, I w -> I (log_call (FsRename a b) w)) -> keeps (commitSkills p).
Proof.
  intros Hrename. unfold commitSkills. apply kept_bind; [steps|]. intros root. apply kept_bind; [steps|]. intros t. cbv zeta. steps;
    [apply kept_for_each, Forall_true; intros s; unfold write_skill; steps|intros w Hw; by split; [apply Hrename|]].
Qed.
Lemma kept_drop_skills pluginId : keeps (drop_skills pluginId).
Proof. unfold drop_skills. steps. Qed.
Lemma kept_restore before between {A} e : writable before -> keeps between -> keeps (restore before between (A := A) e).
Proof.
  intros Hb Hm. unfold restore. apply kept_bind; [apply kept_ignored; by apply keep_replace|]. intros _.
  apply kept_bind; [done|]. intros _. apply kept_bind; [apply kept_ignored, kept_materialize|]. intros. steps.
Qed.
Lemma kept_remove_all l : Forall (fun e => forall w, I w -> I (log_call (McpRemove e) w)) l -> keeps (remove_all l).
Proof. intros Hl. apply kept_for_each. eapply Forall_impl; [exact Hl|]. intros e He. apply kept_ignored. intros w Hw. by split; [apply He|]. Qed.
Lemma kept_disable_all l : Forall (fun e => forall w, I w -> I (log_call (McpDisable e) w)) l -> keeps (disable_all l).
Proof. intros Hl. apply kept_for_each. eapply Forall_impl; [exact Hl|]. intros e He. apply kept_ignored. intros w Hw. by split; [apply He|]. Qed.
Lemma kept_enable_if_needed e : keeps (enable_if_needed e).
Proof. unfold enable_if_needed. destruct (e_enabled e); steps. Qed.
Lemma kept_authorize c i : keeps (authorize c i).
Proof.
  unfold authorize. destruct (m_transport c); [|steps]. apply kept_bind; [steps|]. intros [|[config|]|]; steps.
Qed.
Lemma kept_start i e : keeps (start_extension i e).
Proof.
  unfold start_extension, open_tools. apply kept_bind; [case_bool_decide; steps|]. intros _. apply kept_bind; [steps|]. intros _.
  apply kept_bind; [steps|]. intros tools. apply kept_for_each, Forall_true. intros t. destruct (_ && _); steps.
Qed.
Lemma kept_undo_install {A} p before created committed e :
  writable before -> Forall (fun e => forall w, I w -> I (log_call (McpRemove e) w)) created ->
  keeps (undo_install p before created committed e : W A).
Proof.
  intros Hb Hc. unfold undo_install. apply kept_bind; [destruct committed; [apply kept_drop_skills|steps]|]. intros _.
  apply kept_bind; [by apply kept_remove_all, Forall_rev|]. intros _. apply kept_restore; [done|steps].
Qed.
Lemma kept_commit_install p sourceKind before v :
  (forall t, writable {| plugins := plugins before ++ [new_record p sourceKind (v_extensionIds v) t]; mcpOwnership := v_ownership v |}) ->
  keeps (commit_install p sourceKind before v).
Proof.
  intros Hw. unfold commit_install. apply kept_bind; [steps|]. intros t. cbv zeta. apply kept_bind; [by apply keep_replace|]. intros _.
  apply kept_bind; [apply kept_materialize|]. intros. steps.
Qed.
Lemma kept_enable_extensions l ids : keeps (enable_extensions l ids).
Proof.
  revert ids. induction l as [|e l IH]; intros ids; cbn [enable_extensions]; [steps|].
  apply kept_bind; [|intros [[]|]; [apply IH..|steps]].
  eapply triple_weaken; [apply kept_settled|done]. apply kept_bind; [by apply kept_ask|]. intros x.
  destruct (find _ x) as [y|]; [|steps]. destruct (e_enabled y); steps.
Qed.
End Keeps.

(** *** The links *)

Definition owned_in (l : list PluginMcpOwnershipRecord) (pluginId e : jstr) : Prop := exists r, r ∈ l /\ extensionId r = e /\ pluginId ∈ owners r.
Lemma owned_in_cons r l pluginId e : owned_in (r :: l) pluginId e <-> extensionId r = e /\ pluginId ∈ owners r \/ owned_in l pluginId e.
Proof.
  unfold owned_in. setoid_rewrite elem_of_cons. split.
  - intros (x & [->|Hx] & He & Ho); [by left|]. right. by exists x.
  - intros [[He Ho]|(x & Hx & He & Ho)]; [exists r|exists x]; auto.
Qed.
Lemma owned_in_app l k pluginId e : owned_in (l ++ k) pluginId e <-> owned_in l pluginId e \/ owned_in k pluginId e.
Proof.
  unfold owned_in. setoid_rewrite elem_of_app. split.
  - intros (x & [Hx|Hx] & H); [left|right]; by exists x.
  - intros [(x & Hx & H)|(x & Hx & H)]; exists x; auto.
Qed.
Lemma owned_in_one pluginId e definition direct p' e' : owned_in [owned_by pluginId e definition direct] p' e' <-> p' = pluginId /\ e' = e.
Proof.
  unfold owned_in. setoid_rewrite list_elem_of_singleton. split.
  - intros (x & -> & <- & Ho). cbn in Ho. apply list_elem_of_singleton in Ho. by split.
  - intros [-> ->]. eexists. split_and!; [done..|]. by apply list_elem_of_singleton.
Qed.
Lemma share_owns pluginId definition l r : find (fun x => bool_decide (definitionHash x = definition)) l = Some r ->
  forall p' e, owned_in (share pluginId definition l) p' e <-> owned_in l p' e \/ p' = pluginId /\ e = extensionId r.
Proof.
  induction l as [|x l IH]; [done|]. cbn [find share]. case_bool_decide as Hx; intros H p' e.
  - injection H as ->. rewrite !owned_in_cons. cbn [add_owner with_owners extensionId owners].
    case_bool_decide as Hp; [naive_solver|]. rewrite elem_of_app, list_elem_of_singleton. naive_solver.
  - rewrite !owned_in_cons, IH by done. tauto.
Qed.

(** What a resolution adds to the owners: the new plugin, to the extensions
    it has so far *)
Definition resolving (before : PluginRegistrySnapshot) (pluginId : jstr) (v : Resolution) : Prop :=
  forall p' e, owned_in (v_ownership v) p' e <-> lists before p' e \/ p' = pluginId /\ e ∈ v_extensionIds v.
Lemma resolving_added before pluginId v ownership ids e :
  resolving before pluginId v ->
  (forall p' e', owned_in ownership p' e' <-> owned_in (v_ownership v) p' e' \/ p' = pluginId /\ e' = e) ->
  ids = v_extensionIds v ++ [e] ->
  forall p' e', owned_in ownership p' e' <-> lists before p' e' \/ p' = pluginId /\ e' ∈ ids.
Proof. intros Hv Ho -> p' e'. rewrite Ho, (Hv p' e'), elem_of_app, list_elem_of_singleton. tauto. Qed.
Lemma owned_in_snoc pluginId l e definition direct p' e' :
  owned_in (l ++ [owned_by pluginId e definition direct]) p' e' <-> owned_in l p' e' \/ p' = pluginId /\ e' = e.
Proof. by rewrite owned_in_app, owned_in_one. Qed.

Lemma linked_with_new before p v : resolving before (id p) v -> mcpExtensionIds p = v_extensionIds v ->
  linked {| plugins := plugins before ++ [p]; mcpOwnership := v_ownership v |}.
Proof.
  intros Hv Hp p' e. change (owns _ p' e) with (owned_in (v_ownership v) p' e). rewrite (Hv p' e). unfold lists. cbn [plugins].
  setoid_rewrite elem_of_app. setoid_rewrite list_elem_of_singleton. rewrite <- Hp. split.
  - intros [(q & Hq & H)|[-> He]]; [exists q; auto|exists p; auto].
  - intros (q & [Hq| ->] & <- & He); [left; by exists q|by right].
Qed.
Lemma NoDup_key {A B} (f : A -> B) l x y : NoDup (map f l) -> x ∈ l -> y ∈ l -> f x = f y -> x = y.
Proof.
  induction l as [|z l IH]; [by intros _ ?%not_elem_of_nil|]. cbn [map]. intros [Hz Hl]%NoDup_cons.
  assert (Hin : forall u, u ∈ l -> f u ∈ map f l) by (intros; by apply (list_elem_of_fmap_2 f)).
  intros [->|Hx]%elem_of_cons [->|Hy]%elem_of_cons E; [done| | |by apply IH].
  - destruct Hz. rewrite E. auto.
  - destruct Hz. rewrite <- E. auto.
Qed.
Lemma find_some_elem {A} (f : A -> bool) l x : find f l = Some x -> x ∈ l /\ f x = true.
Proof. intros H. apply find_some in H as [H1 H2]. split; [by apply list_elem_of_In|done]. Qed.
Lemma plugin_by_Some s pluginId p : plugin_by s pluginId = Some p -> p ∈ plugins s /\ id p = pluginId.
Proof. intros [Hp E]%find_some_elem. by apply bool_decide_eq_true in E. Qed.
Lemma elem_of_set_plugin q l x : x ∈ set_plugin q l <-> (exists y, y ∈ l /\ id y = id q) /\ x = q \/ x ∈ l /\ id x <> id q.
Proof.
  unfold set_plugin. change (map ?f ?l) with (f <$> l). rewrite list_elem_of_fmap. split.
  - intros (y & -> & Hy). case_bool_decide; [left; split; [by exists y|done]|by right].
  - intros [[(y & Hy & E) ->]|[Hx E]]; [exists y; by rewrite bool_decide_eq_true_2|exists x; by rewrite bool_decide_eq_false_2].
Qed.
Lemma linked_change before p q : consistent before -> p ∈ plugins before -> id q = id p -> mcpExtensionIds q = mcpExtensionIds p ->
  linked (change_plugin before q).
Proof.
  intros Hc Hp Hid He p' e. change (owns _ p' e) with (owns before p' e). rewrite (c_linked _ Hc p' e). unfold lists, change_plugin. cbn [plugins].
  setoid_rewrite elem_of_set_plugin. rewrite Hid. split.
  - intros (x & Hx & <- & Hin). destruct (decide (id x = id p)) as [E|E].
    + assert (x = p) as -> by exact (NoDup_key id _ _ _ (c_plugins _ Hc) Hx Hp E).
      exists q. split_and!; [left; split; [by exists p|done]|by rewrite Hid|by rewrite He].
    + exists x. auto.
  - intros (x & [[_ ->]|[Hx _]] & <- & Hin); [exists p; rewrite <- He; auto|by exists x].
Qed.
Lemma elem_of_without pluginId l r : r ∈ without_owner pluginId l <->
  exists x, x ∈ l /\ (pluginId ∉ owners x /\ r = x \/ pluginId ∈ owners x /\ other_owners pluginId x <> [] /\ r = with_owners (other_owners pluginId x) x).
Proof.
  unfold without_owner. rewrite list_elem_of_omap. split; intros (x & Hx & H); exists x; (split; [done|]);
    repeat case_bool_decide; naive_solver.
Qed.
Lemma owns_without pluginId s p' e : owned_in (without_owner pluginId (mcpOwnership s)) p' e <-> owns s p' e /\ p' <> pluginId.
Proof.
  unfold owned_in, owns. setoid_rewrite elem_of_without. split.
  - intros (r & (x & Hx & [[Hn ->]|(Hin & Hne & ->)]) & <- & Ho).
    + split; [by exists x|]. by intros ->.
    + cbn in Ho. apply list_elem_of_filter in Ho as [Hne' Ho]. split; [by exists x|done].
  - intros [(x & Hx & <- & Ho) Hne]. destruct (decide (pluginId ∈ owners x)) as [Hin|Hn].
    + assert (Hf : p' ∈ other_owners pluginId x) by (by apply list_elem_of_filter).
      exists (with_owners (other_owners pluginId x) x). split_and!; [|done..]. exists x. split; [done|]. right. split_and!; [done| |done].
      intros E. rewrite E in Hf. by apply not_elem_of_nil in Hf.
    + exists x. split_and!; [|done..]. exists x. auto.
Qed.
Lemma linked_without pluginId before : linked before -> linked (without_plugin pluginId before).
Proof.
  intros Hl p' e. change (owns _ p' e) with (owned_in (without_owner pluginId (mcpOwnership before)) p' e).
  rewrite owns_without, (Hl p' e). unfold lists. cbn [without_plugin plugins]. setoid_rewrite list_elem_of_filter. naive_solver.
Qed.
Lemma linked_reconciled before p t : linked before -> p ∈ plugins before ->
  linked {| plugins := set_plugin (without_extensions t p) (plugins before); mcpOwnership := without_owner (id p) (mcpOwnership before) |}.
Proof.
  intros Hl Hp p' e. change (owns _ p' e) with (owned_in (without_owner (id p) (mcpOwnership before)) p' e).
  rewrite owns_without, (Hl p' e). unfold lists. cbn [plugins]. setoid_rewrite elem_of_set_plugin. cbn [without_extensions id]. split.
  - intros [(x & Hx & <- & He) Hne]. exists x. auto.
  - intros (x & [[_ ->]|[Hx Hne]] & <- & He); [by apply not_elem_of_nil in He|]. split; [by exists x|done].
Qed.

Lemma triple_reuse I before r c v e : triple I (enable_if_needed e) (fun _ => True) ->
  resolving before (r_id r) v -> triple I (reuse r c v e) (resolving before (r_id r)).
Proof.
  intros He Hv. unfold reuse. eapply triple_bind; [exact He|]. intros _ _. apply triple_ret.
  intros p' e'. cbn [resolved v_ownership v_extensionIds]. eapply resolving_added; [exact Hv| |done]. intros. apply owned_in_snoc.
Qed.

Definition running (w : World) : Prop := initialized w = true /\ consistent (memory w).
Lemma running_call c w : marked c = false -> running w -> running (log_call c w). Proof. done. Qed.
Lemma running_any c w : running w -> running (log_call c w). Proof. done. Qed.
Lemma running_policies x w : running w -> running (with_policies x w). Proof. done. Qed.
Lemma running_replace s : linked s -> triple running (replace s) (fun _ => True).
Proof.
  intros Hs w [Hi Hc]. split; [|done]. unfold replace, on_registry.
  match goal with |- context [PluginRegistry.replace ?j ?f ?p ?fault ?t s ?r] => pose proof (replace_cases j f p fault t s r) as H end.
  destruct (PluginRegistry.replace _ _ _ _ _ _ _) as [a r]. split; [done|]. unfold memory. cbn.
  destruct (is_ok a).
  - destruct H as (t & Ht & -> & _). by apply (consistent_checked s).
  - destruct H as [-> _]. exact Hc.
Qed.
Lemma running_taken l (f : jstr -> call) : Forall (fun e => forall w, running w -> running (log_call (f e) w)) l.
Proof. apply Forall_true. intros e w. apply running_any. Qed.

(** Each step keeps a running world, with the hypotheses discharged. *)
Ltac kept H := eapply (H running); try exact linked; eauto using running_call, running_policies, running_replace, running_taken.

Lemma triple_view {B} (f : PluginRegistrySnapshot -> W B) Q :
  (forall before, consistent before -> triple running (f before) Q) -> triple running (view ≫= f) Q.
Proof. intros Hf w Hw. rewrite M_bind_run. cbn. by apply Hf; [apply Hw|]. Qed.
Lemma triple_collect {A L} (I : World -> Prop) (Q : L -> Prop) (f : A -> L -> W L) l acc :
  (forall x acc, Q acc -> triple I (f x acc) Q) -> Q acc -> triple I (collect f l acc) (fun c => Q c.2).
Proof.
  intros Hf. revert acc. induction l as [|x l IH]; intros acc Ha; cbn [collect]; [by apply triple_ret|].
  eapply triple_bind; [by apply kept_settled, Hf|]. intros [acc'|e] H; [by apply IH, H|by apply triple_ret].
Qed.
Lemma running_reuse before r c v e : resolving before (r_id r) v -> triple running (reuse r c v e) (resolving before (r_id r)).
Proof. apply triple_reuse. kept @kept_enable_if_needed. Qed.

Lemma running_install_component before r c v i : resolving before (r_id r) v ->
  triple running (install_component r c v i) (resolving before (r_id r)).
Proof.
  intros Hv. unfold install_component. eapply triple_bind with (Q := fun _ => True).
  { case_bool_decide; [kept @kept_authorize|by apply triple_ret]. }
  intros i' _. eapply triple_bind with (Q := fun _ => True); [intros w Hw; by split|]. intros installed _. eapply triple_bind with (Q := fun _ => True).
  { apply triple_catch; [kept @kept_start|]. intros e. eapply triple_bind with (Q := fun _ => True); [|intros; intros w Hw; by split].
    kept @kept_ignored. intros w Hw. by split. }
  intros _ _. apply triple_ret. intros p' e'. cbn [v_ownership v_extensionIds].
  eapply resolving_added; [exact Hv| |done]. intros. apply owned_in_snoc.
Qed.
Lemma running_ensure before r c v : resolving before (r_id r) v -> triple running (ensureMcpComponent r c v) (resolving before (r_id r)).
Proof.
  intros Hv. unfold ensureMcpComponent. destruct (find _ (v_ownership v)) as [owned|] eqn:Eo.
  { destruct (find _ (v_extensions v)) as [x|] eqn:Ex; [|intros w Hw; by split].
    eapply triple_bind; [kept @kept_enable_if_needed|]. intros _ _. apply triple_ret. intros p' e'. cbn [resolved v_ownership v_extensionIds].
    eapply resolving_added; [exact Hv| |done]. intros p1 e1. rewrite (share_owns _ _ _ _ Eo).
    apply find_some_elem in Ex as [_ Ex]. apply bool_decide_eq_true in Ex. by rewrite Ex. }
  destruct (find _ (v_extensions v)) as [x|]; [by apply running_reuse|].
  case_bool_decide; [intros w Hw; by split|]. cbv zeta.
  destruct (find _ (v_extensions v)) as [x|]; [|by apply running_install_component].
  destruct (sameComponentDefinition x c); [by apply running_reuse|intros w Hw; by split].
Qed.
Lemma running_undo_install {A} p before created committed e : linked before ->
  triple running (undo_install p before created committed e : W A) (fun _ => True).
Proof. intros Hb. kept @kept_undo_install. Qed.
Lemma running_install_new p k before : consistent before -> plugin_by before (r_id (i_review p)) = None ->
  triple running (install_new p k before) (fun _ => True).
Proof.
  intros Hc Hnew. unfold install_new. eapply triple_bind; [kept @kept_ask|]. intros current _.
  eapply triple_bind.
  { apply (triple_collect running (resolving before (r_id (i_review p)))).
    - intros c v Hv. by apply running_ensure.
    - intros p' e. cbn [v_ownership v_extensionIds]. change (owned_in _ p' e) with (owns before p' e). rewrite (c_linked _ Hc p' e).
      split; [by left|]. intros [H|[_ H]]; [done|by apply not_elem_of_nil in H]. }
  intros [[e|] v] Hv; cbv zeta; cbn [fst snd] in *; [by apply running_undo_install, Hc|].
  eapply triple_bind; [kept @kept_settled; kept @kept_commitSkills|].
  intros [[]|e] _; [|by apply running_undo_install, Hc].
  apply triple_catch; [|intros e; by apply running_undo_install, Hc].
  kept @kept_commit_install. intros t. by apply linked_with_new.
Qed.
Lemma running_materialize overrides : triple running (materializeRuntime overrides) (fun _ => True).
Proof. kept @kept_materialize. Qed.
Lemma running_undo {A} before between e : linked before -> triple running between (fun _ => True) ->
  triple running (restore before between e : W A) (fun _ => True).
Proof. intros Hb Hm. kept @kept_restore. Qed.
Lemma running_disable_all l : triple running (disable_all l) (fun _ => True).
Proof. apply kept_disable_all, running_taken. Qed.
Lemma running_remove_all l : triple running (remove_all l) (fun _ => True).
Proof. apply kept_remove_all, running_taken. Qed.
Lemma requirePlugin_Ok s pluginId p : requirePlugin s pluginId = Ok p -> p ∈ plugins s /\ id p = pluginId.
Proof.
  unfold requirePlugin. destruct (negb _); [done|]. destruct (plugin_by s pluginId) as [q|] eqn:E; [|done]. intros [= <-].
  by apply plugin_by_Some.
Qed.
(** [and_then] splits at a step whose answer does not matter. *)
Ltac and_then H := eapply triple_bind with (Q := fun _ => True); [first [exact H|apply H]|intros ? _].

Lemma running_enable pluginId : triple running (enable pluginId) (fun _ => True).
Proof.
  unfold enable. apply triple_view. intros before Hc. eapply triple_bind; [apply triple_lift|]. intros p Hp.
  apply requirePlugin_Ok in Hp as [Hp _]. destruct (enabled p); [by apply triple_ret|].
  eapply triple_bind with (Q := fun _ => True); [kept @kept_enable_extensions|]. intros [[e|] ids] _; cbn [fst snd].
  { apply running_undo; [apply Hc|apply running_disable_all]. }
  apply triple_catch; [|intros e; apply running_undo; [apply Hc|apply running_disable_all]].
  eapply triple_bind with (Q := fun _ => True); [intros w Hw; by split|]. intros t _. cbv zeta.
  eapply triple_bind; [apply running_replace; by apply (linked_change _ p)|]. intros _ _.
  and_then (running_materialize []). by apply triple_ret.
Qed.
Lemma running_disable pluginId : triple running (disable pluginId) (fun _ => True).
Proof.
  unfold disable. apply triple_view. intros before Hc. eapply triple_bind; [apply triple_lift|]. intros p Hp.
  apply requirePlugin_Ok in Hp as [Hp _]. destruct (enabled p); cbn [negb]; [|by apply triple_ret].
  eapply triple_bind with (Q := fun _ => True); [intros w Hw; by split|]. intros t _. cbv zeta.
  eapply triple_bind; [apply running_replace; by apply (linked_change _ p)|]. intros _ _.
  apply triple_catch; [|intros e; apply running_undo; [apply Hc|by apply triple_ret]].
  and_then running_disable_all. and_then (running_materialize []). by apply triple_ret.
Qed.
Lemma running_remove pluginId : triple running (remove pluginId) (fun _ => True).
Proof.
  unfold remove. apply triple_view. intros before Hc. destruct (plugin_by before pluginId); [|by apply triple_ret]. cbv zeta.
  eapply triple_bind; [apply running_replace, linked_without, Hc|]. intros _ _.
  apply triple_catch; [|intros e; apply running_undo; [apply Hc|by apply triple_ret]].
  eapply triple_bind with (Q := fun _ => True).
  { unfold removeSkillDirectory. eapply triple_bind with (Q := fun _ => True); [intros w Hw; by split|]. intros d _. kept @kept_do. }
  intros _ _. and_then running_remove_all. and_then running_disable_all. and_then (running_materialize []). by apply triple_ret.
Qed.
Lemma running_reconcile : triple running reconcileBundledSourceNervePlugin (fun _ => True).
Proof.
  unfold reconcileBundledSourceNervePlugin. case_bool_decide; [by apply triple_ret|]. apply triple_view. intros before Hc.
  destruct (bundled_plugin before) as [p|] eqn:Ep; [|by apply triple_ret]. apply find_some_elem in Ep as [Hp _].
  case_bool_decide; [by apply triple_ret|]. eapply triple_bind; [kept @kept_ask|]. intros current _.
  eapply triple_bind with (Q := fun _ => True); [intros w Hw; by split|]. intros t _.
  eapply triple_bind; [apply running_replace, linked_reconciled; [apply Hc|done]|]. intros _ _. apply running_remove_all.
Qed.
Lemma running_install p k : triple running (install_inspected p k) (fun _ => True).
Proof.
  unfold install_inspected. apply triple_view. intros before Hc.
  destruct (plugin_by before (r_id (i_review p))) as [q|] eqn:E; [by apply triple_ret|]. by apply running_install_new.
Qed.

(** Before the start, the file decides what the manager will hold. *)
Definition loads_consistent (r : Registry) : Prop := forall s,
  loadPluginRegistry JSON_parse (LocalFile.readFile (disk r) (registryPath cfg)) = Ok s -> consistent (default empty s).
Definition ready (w : World) : Prop := if initialized w then consistent (memory w) else loads_consistent (registry w).
Lemma running_ready w : running w -> ready w. Proof. intros [Hi Hc]. unfold ready. by rewrite Hi. Qed.

(** The state between the load of the registry and the end of the start *)
Definition loaded (w : World) : Prop := initialized w = false /\ loads_consistent (registry w) /\ consistent (memory w).
Lemma loaded_do c : triple loaded (do c) (fun _ => True). Proof. intros w Hw. by split. Qed.
Lemma loaded_policies {A} (m : M SkillPolicy.PolicyStore A) : triple loaded (on_policies m) (fun _ => True).
Proof. intros w Hw. unfold on_policies. destruct (m _) as [r x]. by split. Qed.
Lemma load_registry w : loads_consistent (registry w) ->
  match on_registry (PluginRegistry.initialize JSON_parse (registryPath cfg)) w with
  | (Ok _, w') => initialized w' = initialized w /\ loads_consistent (registry w') /\ consistent (memory w')
  | (Throw _, w') => initialized w' = initialized w /\ registry w' = registry w
  end.
Proof.
  intros Hl. unfold on_registry, PluginRegistry.initialize, get_state. rewrite !M_bind_run. cbn iota beta.
  change (lift ?r ?x) with (r, x). cbn iota beta.
  destruct (loadPluginRegistry _ _) as [s|e] eqn:E; cbn iota beta; [|done].
  split_and!; [done|exact Hl|]. by apply Hl.
Qed.
Lemma start_up w : ready w -> ready (initialize w).2 /\ ((initialize w).1 = Ok tt -> running (initialize w).2).
Proof.
  intros Hw. unfold initialize, get_state. rewrite M_bind_run. cbn iota beta. destruct (initialized w) eqn:Hi.
  { split; [done|]. intros _. split; [done|]. unfold ready in Hw. by rewrite Hi in Hw. }
  assert (Hl : loads_consistent (registry w)) by (unfold ready in Hw; by rewrite Hi in Hw). clear Hw.
  rewrite M_bind_run. pose proof (load_registry w Hl) as H.
  destruct (on_registry _ w) as [[[]|e] w1]; [|split; [destruct H as [H1 H2]; unfold ready; cbn; by rewrite H1, Hi, H2|done]].
  rewrite Hi in H. change (loaded w1) in H. generalize dependent w1. clear w Hi Hl. intros w Hw. rewrite M_bind_run. destruct (loaded_do (FsMkdir (skillStoreRoot cfg)) w Hw) as [H1 _].
  destruct (do _ w) as [[[]|e] w1]; cbn [snd] in H1; [|split; [unfold ready; destruct H1 as (Hi & Hl & _); cbn; by rewrite Hi|done]].
  clear w Hw. rewrite M_bind_run. destruct (loaded_do (FsMkdir (marketplaceCacheRoot cfg)) w1 H1) as [H2 _].
  destruct (do _ w1) as [[[]|e] w2]; cbn [snd] in H2; [|split; [unfold ready; destruct H2 as (Hi & Hl & _); cbn; by rewrite Hi|done]].
  clear w1 H1. rewrite M_bind_run.
  destruct (loaded_policies (SkillPolicy.initialize JSON_parse (skillPolicyPath cfg)) w2 H2) as [H3 _].
  destruct (on_policies _ w2) as [[[]|e] w3]; cbn [snd] in H3; [|split; [unfold ready; destruct H3 as (Hi & Hl & _); cbn; by rewrite Hi|done]].
  clear w2 H2. rewrite M_bind_run. unfold modify. cbn iota beta.
  match goal with |- ready (_ ?w4).2 /\ _ => assert (Hw4 : running w4) by (split; [done|apply H3]) end.
  assert (Hrest : triple running (reconcileBundledSourceNervePlugin ≫= fun _ => materializeRuntime []) (fun _ => True)).
  { and_then running_reconcile. apply running_materialize. }
  destruct (Hrest _ Hw4) as [Hr _]. split; [by apply running_ready|done].
Qed.
Lemma after_start {A} (m : W A) w : triple running m (fun _ => True) -> ready w -> ready ((_ ← initialize; m) w).2.
Proof.
  intros Hm Hw. rewrite M_bind_run. destruct (start_up w Hw) as [H1 H2]. destruct (initialize w) as [[[]|e] w1]; [|done].
  apply running_ready. by apply (Hm w1), H2.
Qed.
Lemma ready_perform op w : ready w -> ready (perform op w).2.
Proof.
  intros Hw. destruct op; cbn [perform].
  - by apply start_up.
  - unfold installLocal. set (m := p ← inspect root; install_inspected (adapted p) k).
    change (ready ((_ ← (_ ← initialize; m); mret tt) w).2). rewrite M_bind_run.
    assert (H : ready ((_ ← initialize; m) w).2).
    { apply after_start; [|done]. and_then (kept_inspect running (fun c w _ => running_any c w)). apply running_install. }
    by destruct ((_ ← initialize; m) w) as [[]].
  - apply after_start; [|done]. and_then running_enable. by apply triple_ret.
  - apply after_start; [|done]. and_then running_disable. by apply triple_ret.
  - apply after_start; [|done]. and_then running_remove. by apply triple_ret.
Qed.
Fixpoint run (ops : list operation) (w : World) : World := match ops with [] => w | op :: ops' => run ops' (perform op w).2 end.

Lemma ready_run ops w : ready w -> ready (run ops w).
Proof. revert w. induction ops as [|op ops IH]; intros w Hw; [done|]. by apply IH, ready_perform. Qed.
Lemma running_run ops w : ready w -> initialized (run ops w) = true -> running (run ops w).
Proof. intros Hw%(ready_run ops) Hi. unfold ready in Hw. rewrite Hi in Hw. by split. Qed.

(** C20: Ownership of MCP extensions never drifts. However plugins are
    installed, enabled, disabled and removed, whatever the extension manager,
    the file system and the marketplace answer, and wherever a call throws or
    its undo fails: an installed plugin is an owner of an extension exactly
    when it lists it, plugin ids are distinct, and so are the extensions that
    are owned. *)
Theorem owners_are_the_listing_plugins ops w : ready w -> initialized (run ops w) = true ->
  let s := memory (run ops w) in
  (forall pluginId e, owns s pluginId e <-> lists s pluginId e) /\ NoDup (map id (plugins s)) /\ NoDup (map extensionId (mcpOwnership s)).
Proof. intros Hw Hi. cbv zeta. by destruct (running_run ops w Hw Hi) as [_ []]. Qed.

(** *** Whose extensions are touched *)

(** The call was made after [start], as the next one after [l]. *)
Definition since (start log l : Log) (c : call) : Prop := prefix start l /\ prefix (l ++ [c]) log.
Definition made (start log : Log) (e : jstr) : Prop := exists l i x, since start log l (McpInstall i) /\ o_install o l i = Ok x /\ e_id x = e.
Definition turned_on (start log : Log) (e : jstr) : Prop := exists l, since start log l (McpEnable e).
Definition only_of (target : jstr) (s : PluginRegistrySnapshot) (among : InstalledPluginRecord -> Prop) (e : jstr) : Prop :=
  isDirectInstall s e = false /\ forall p, p ∈ plugins s -> among p -> e ∈ mcpExtensionIds p -> id p = target.
Definition justified (target : jstr) (s : PluginRegistrySnapshot) (start log : Log) (c : call) : Prop :=
  match c with
  | McpRemove e => made start log e \/ only_of target s (fun _ => True) e
  | McpDisable e => turned_on start log e \/ only_of target s (fun p => enabled p = true) e
  | _ => True
  end.

Lemma since_grows start log log' l c : prefix log log' -> since start log l c -> since start log' l c.
Proof. intros H [H1 H2]. split; [done|]. by etrans. Qed.
Lemma made_grows start log log' e : prefix log log' -> made start log e -> made start log' e.
Proof. intros H (l & i & x & Hs & Hx). exists l, i, x. split; [by eapply since_grows|done]. Qed.
Lemma turned_on_grows start log log' e : prefix log log' -> turned_on start log e -> turned_on start log' e.
Proof. intros H (l & Hs). exists l. by eapply since_grows. Qed.
Lemma justified_grows target s start log log' c : prefix log log' -> justified target s start log c -> justified target s start log' c.
Proof. intros H. destruct c; try done; (intros [Hc|Hc]; [left; eauto using made_grows, turned_on_grows|by right]). Qed.

(** The records of a consistent snapshot *)
Lemma find_unique {A B} `{EqDecision B} (f : A -> B) l x : NoDup (map f l) -> x ∈ l -> find (fun y => bool_decide (f y = f x)) l = Some x.
Proof.
  intros Hn Hx. destruct (find _ l) as [y|] eqn:E.
  - apply find_some_elem in E as [Hy E]. apply bool_decide_eq_true in E. f_equal. by apply (NoDup_key f l).
  - apply find_None_Forall in E. rewrite Forall_forall in E. specialize (E x Hx). by rewrite bool_decide_eq_true_2 in E.
Qed.
Lemma ownership_of s r : consistent s -> r ∈ mcpOwnership s -> ownership_by s (extensionId r) = Some r.
Proof. intros Hc Hr. apply (find_unique extensionId); [apply Hc|done]. Qed.
Lemma owner_of_listed s p e : consistent s -> p ∈ plugins s -> e ∈ mcpExtensionIds p ->
  exists r, ownership_by s e = Some r /\ r ∈ mcpOwnership s /\ extensionId r = e /\ id p ∈ owners r.
Proof.
  intros Hc Hp He. destruct (proj2 (c_linked s Hc (id p) e)) as (r & Hr & E & Ho); [by exists p|].
  exists r. split; [|done]. rewrite <- E. by apply ownership_of.
Qed.
Lemma listed_is_owned s p e : consistent s -> p ∈ plugins s -> enabled p = true -> e ∈ mcpExtensionIds p -> hasEnabledOwner s e = true.
Proof.
  intros Hc Hp Hen He. destruct (owner_of_listed s p e Hc Hp He) as (r & Hr & _ & _ & Ho). unfold hasEnabledOwner. rewrite Hr.
  apply existsb_exists. exists p. split; [by apply list_elem_of_In|]. by rewrite Hen, bool_decide_eq_true_2.
Qed.
Lemma set_plugin_ids q l : map id (set_plugin q l) = map id l.
Proof. unfold set_plugin. rewrite map_map. apply map_ext. intros x. by case_bool_decide. Qed.
Lemma consistent_change s p q : consistent s -> p ∈ plugins s -> id q = id p -> mcpExtensionIds q = mcpExtensionIds p ->
  consistent (change_plugin s q).
Proof. intros Hc Hp H1 H2. split; [cbn; rewrite set_plugin_ids; apply Hc|apply Hc|by apply (linked_change _ p)]. Qed.
Lemma without_owner_extensions pluginId l e : e ∈ map extensionId (without_owner pluginId l) -> e ∈ map extensionId l.
Proof.
  intros H. apply list_elem_of_fmap in H as (r & -> & (x & Hx & [[_ ->]|(_ & _ & ->)])%elem_of_without); exact (list_elem_of_fmap_2 extensionId _ _ Hx).
Qed.
Lemma without_owner_NoDup pluginId l : NoDup (map extensionId l) -> NoDup (map extensionId (without_owner pluginId l)).
Proof.
  induction l as [|r l IH]; [done|]. cbn [map]. intros [Hr Hl]%NoDup_cons. cbn [without_owner omap list_omap].
  assert (H : extensionId r ∉ map extensionId (without_owner pluginId l)) by (intros ?; by apply Hr, (without_owner_extensions pluginId)).
  repeat case_bool_decide; cbn [map]; try (apply NoDup_cons; split; [exact H|]); by apply IH.
Qed.
Lemma consistent_without pluginId s : consistent s -> consistent (without_plugin pluginId s).
Proof.
  intros Hc. split; [|apply without_owner_NoDup, Hc|apply linked_without, Hc]. cbn. apply (NoDup_fmap_filter id), Hc.
Qed.

(** What is not used once [target] is changed is not used by the others. *)
Lemma unused_is_only_of before next target e : consistent next ->
  (forall p, p ∈ plugins before -> id p <> target -> p ∈ plugins next) ->
  isDirectInstall before e = false -> hasEnabledOwner next e = false -> only_of target before (fun p => enabled p = true) e.
Proof.
  intros Hc Hkeep Hd Hn. split; [done|]. intros p Hp Hen He. destruct (decide (id p = target)) as [|Hne]; [done|].
  by rewrite (listed_is_owned next p e Hc (Hkeep p Hp Hne) Hen He) in Hn.
Qed.
Lemma removable_is_only_of before target e : consistent before -> e ∈ removable target (mcpOwnership before) ->
  only_of target before (fun _ => True) e.
Proof.
  intros Hc He. unfold removable in He. apply list_elem_of_fmap in He as (r & -> & [(_ & Ho & Hd) Hr]%list_elem_of_filter).
  split; [unfold isDirectInstall; by rewrite ownership_of|]. intros p Hp _ Hin.
  destruct (owner_of_listed before p _ Hc Hp Hin) as (x & Hx & _ & _ & Hown). rewrite ownership_of in Hx by done. injection Hx as <-.
  destruct (decide (id p = target)) as [|Hne]; [done|].
  assert (H : id p ∈ other_owners target r) by (by apply list_elem_of_filter). rewrite Ho in H. by apply not_elem_of_nil in H.
Qed.
Lemma idle_is_only_of before target e : consistent before -> e ∈ idle_extensions (without_plugin target before) ->
  only_of target before (fun p => enabled p = true) e.
Proof.
  intros Hc He. unfold idle_extensions in He. apply list_elem_of_fmap in He as (r & -> & [[Hd Hn] Hr]%list_elem_of_filter).
  apply (unused_is_only_of _ (without_plugin target before)); [by apply consistent_without| | |done].
  - intros p Hp Hne. by apply list_elem_of_filter.
  - cbn [without_plugin mcpOwnership] in Hr. apply elem_of_without in Hr as (x & Hx & Hcase).
    assert (extensionId r = extensionId x /\ directInstall r = directInstall x) as [-> E] by (destruct Hcase as [[_ ->]|(_ & _ & ->)]; done).
    unfold isDirectInstall. rewrite ownership_of by done. by rewrite <- E.
Qed.
Lemma unused_after_change before p q e : consistent before -> p ∈ plugins before -> id q = id p -> mcpExtensionIds q = mcpExtensionIds p ->
  e ∈ unused_extensions (change_plugin before q) (mcpExtensionIds p) -> only_of (id p) before (fun p => enabled p = true) e.
Proof.
  intros Hc Hp H1 H2 He. apply list_elem_of_filter in He as [[Hd Hn] He].
  apply (unused_is_only_of _ (change_plugin before q)); [by apply (consistent_change _ p)| |exact Hd|done].
  intros x Hx Hne. apply elem_of_set_plugin. right. by rewrite H1.
Qed.
Lemma self_referential_is_only_of before p current e : consistent before -> p ∈ plugins before -> e ∈ mcpExtensionIds p ->
  self_referential before p current e = true -> only_of (id p) before (fun _ => True) e.
Proof.
  intros Hc Hp He H. destruct (owner_of_listed before p e Hc Hp He) as (r & Hr & _ & _ & _).
  unfold self_referential in H. rewrite Hr in H. apply andb_prop in H as [H _]. apply andb_prop in H as [Ho Hd].
  apply negb_true_iff in Hd. split; [unfold isDirectInstall; by rewrite Hr|]. intros x Hx _ Hin.
  destruct (owner_of_listed before x e Hc Hx Hin) as (r' & Hr' & _ & _ & Hown). rewrite Hr in Hr'. injection Hr' as <-.
  rewrite forallb_forall in Ho. apply list_elem_of_In in Hown. specialize (Ho _ Hown). by apply bool_decide_eq_true in Ho.
Qed.

Section Justified.
Context (target : jstr) (s : PluginRegistrySnapshot) (start : Log).

(** Everything done since [start] is justified, the extensions [created] were
    made since then and the ones in [on] turned on. *)
Definition fair (created on : list jstr) (w : World) : Prop :=
  (exists l, calls w = start ++ l /\ Forall (justified target s start (calls w)) l) /\
  Forall (made start (calls w)) created /\ Forall (turned_on start (calls w)) on.

Lemma fair_log created on c w : justified target s start (calls w ++ [c]) c -> fair created on w -> fair created on (log_call c w).
Proof.
  intros Hc ((l & E & Hl) & Hm & Ho). assert (Hp : prefix (calls w) (calls (log_call c w))) by (by exists [c]). split_and!.
  - exists (l ++ [c]). cbn [log_call calls]. split; [by rewrite E, app_assoc|]. apply Forall_app. split; [|by constructor].
    eapply Forall_impl; [exact Hl|]. intros x Hx. eapply justified_grows; [exact Hp|exact Hx].
  - eapply Forall_impl; [exact Hm|]. intros x Hx. eapply made_grows; [exact Hp|exact Hx].
  - eapply Forall_impl; [exact Ho|]. intros x Hx. eapply turned_on_grows; [exact Hp|exact Hx].
Qed.
Lemma fair_call created on c w : marked c = false -> fair created on w -> fair created on (log_call c w).
Proof. intros Hc. apply fair_log. by destruct c. Qed.
Lemma fair_policies created on x w : fair created on w -> fair created on (with_policies x w). Proof. done. Qed.
Lemma fair_replace created on t : True -> triple (fair created on) (replace t) (fun _ => True).
Proof.
  intros _ w Hw. split; [|done]. unfold replace, on_registry. destruct (PluginRegistry.replace _ _ _ _ _ _ _) as [a r].
  exact (fair_call created on (RegistryWrite t) w eq_refl Hw).
Qed.
Lemma fair_start created on w l c : fair created on w -> prefix (calls w ++ [c]) l -> since start l (calls w) c.
Proof. intros ((k & E & _) & _) Hp. split; [by exists k|done]. Qed.
Lemma fair_weaken created on w : fair created on w -> fair [] [] w.
Proof. intros (H & _ & _). by split_and!. Qed.

Ltac fairly H := eapply (H (fair _ _)); try exact (fun _ : PluginRegistrySnapshot => True); eauto using fair_call, fair_policies, fair_replace.

Lemma made_taken created on l : Forall (fun e => e ∈ created) l ->
  Forall (fun e => forall w, fair created on w -> fair created on (log_call (McpRemove e) w)) l.
Proof.
  intros Hl. eapply Forall_impl; [exact Hl|]. intros e He w Hw. apply fair_log; [|done]. left.
  destruct Hw as (_ & Hm & _). rewrite Forall_forall in Hm. eapply made_grows; [by exists [McpRemove e]|by apply Hm].
Qed.
Lemma on_taken created on l : Forall (fun e => e ∈ on) l ->
  Forall (fun e => forall w, fair created on w -> fair created on (log_call (McpDisable e) w)) l.
Proof.
  intros Hl. eapply Forall_impl; [exact Hl|]. intros e He w Hw. apply fair_log; [|done]. left.
  destruct Hw as (_ & _ & Hm). rewrite Forall_forall in Hm. eapply turned_on_grows; [by exists [McpDisable e]|by apply Hm].
Qed.
Lemma only_taken created on l : Forall (only_of target s (fun _ => True)) l ->
  Forall (fun e => forall w, fair created on w -> fair created on (log_call (McpRemove e) w)) l.
Proof. intros Hl. eapply Forall_impl; [exact Hl|]. intros e He w Hw. apply fair_log; [by right|done]. Qed.
Lemma only_disabled created on l : Forall (only_of target s (fun p => enabled p = true)) l ->
  Forall (fun e => forall w, fair created on w -> fair created on (log_call (McpDisable e) w)) l.
Proof. intros Hl. eapply Forall_impl; [exact Hl|]. intros e He w Hw. apply fair_log; [by right|done]. Qed.
Lemma all_members (l : list jstr) : Forall (fun e => e ∈ l) l. Proof. by apply Forall_forall. Qed.

(** After a step that created [f a], or that threw *)
Definition after {A} (created on : list jstr) (f : A -> list jstr) (x : result A * World) : Prop :=
  match x with (Ok a, w) => fair (f a) on w | (Throw _, w) => fair created on w end.
Lemma after_kept {A} created on (f : A -> list jstr) (m : W A) w : triple (fair created on) m (fun a => f a = created) ->
  fair created on w -> after created on f (m w).
Proof. intros Hm Hw. destruct (Hm w Hw) as [H1 H2]. unfold after. destruct (m w) as [[a|e] w']; [|done]. by rewrite (H2 a eq_refl). Qed.

Lemma fair_install_component r c v i w : fair (v_created v) [] w -> after (v_created v) [] v_created (install_component r c v i w).
Proof.
  intros Hw. unfold install_component. rewrite M_bind_run.
  assert (Ha : triple (fair (v_created v) []) (if bool_decide (m_auth c = auth_none) then authorize c i else mret i) (fun _ => True)).
  { case_bool_decide; [fairly @kept_authorize|by apply triple_ret]. }
  destruct (Ha w Hw) as [H1 _]. destruct (_ w) as [[i'|e] w1]; [|exact H1]. cbn [snd] in H1. clear i Ha Hw w.
  rewrite M_bind_run. unfold ask. cbn iota beta. destruct (o_install o (calls w1) i') as [x|e] eqn:E; [|by apply fair_log].
  assert (H2 : fair (v_created v ++ [e_id x]) [] (log_call (McpInstall i') w1)).
  { apply (fair_log _ _ (McpInstall i')) in H1 as H2; [|done]. destruct H2 as (Hl & Hm & Ho). split_and!; [done| |done].
    apply Forall_app. split; [done|]. apply Forall_singleton. exists (calls w1), i', x. split; [|done]. by eapply fair_start. }
  rewrite M_bind_run.
  assert (Ht : triple (fair (v_created v ++ [e_id x]) []) (try_catch (start_extension i' (e_id x))
    (fun e => _ ← ignored (do (McpRemove (e_id x))); rethrow e)) (fun _ => True)).
  { apply triple_catch; [fairly @kept_start|]. intros e. eapply triple_bind with (Q := fun _ => True); [|intros; intros u Hu; by split].
    apply kept_ignored. pose proof (made_taken (v_created v ++ [e_id x]) [] [e_id x]) as Hm. intros u Hu. split; [|done].
    refine (Forall_inv (Hm _) u Hu). apply Forall_singleton, elem_of_app. right. by apply list_elem_of_singleton. }
  destruct (Ht _ H2) as [H3 _]. destruct (try_catch _ _ _) as [[[]|e] w2]; cbn [snd] in H3; [exact H3|].
  destruct H3 as (Hl & Hm & Ho). split_and!; [done| |done]. by apply Forall_app in Hm as [? _].
Qed.
Lemma fair_reuse r c v e : triple (fair (v_created v) []) (reuse r c v e) (fun v' => v_created v' = v_created v).
Proof. unfold reuse. eapply triple_bind; [fairly @kept_enable_if_needed|]. intros _ _. by apply triple_ret. Qed.
Lemma fair_ensure r c v w : fair (v_created v) [] w -> after (v_created v) [] v_created (ensureMcpComponent r c v w).
Proof.
  intros Hw. unfold ensureMcpComponent. destruct (find _ (v_ownership v)) as [owned|].
  { destruct (find _ (v_extensions v)) as [x|]; [|exact Hw]. apply after_kept; [|done].
    eapply triple_bind; [fairly @kept_enable_if_needed|]. intros _ _. by apply triple_ret. }
  destruct (find _ (v_extensions v)) as [x|]; [apply after_kept; [apply fair_reuse|done]|].
  case_bool_decide; [exact Hw|]. cbv zeta.
  destruct (find _ (v_extensions v)) as [x|]; [|by apply fair_install_component].
  destruct (sameComponentDefinition x c); [apply after_kept; [apply fair_reuse|done]|exact Hw].
Qed.
Lemma fair_collect r l v w : fair (v_created v) [] w ->
  match collect (ensureMcpComponent r) l v w with (Ok c, w') => fair (v_created c.2) [] w' | (Throw _, _) => False end.
Proof.
  revert v w. induction l as [|c l IH]; intros v w Hw; cbn [collect]; [exact Hw|]. rewrite M_bind_run. unfold settled.
  pose proof (fair_ensure r c v w Hw) as H. destruct (ensureMcpComponent r c v w) as [[v'|e] w']; [by apply IH|exact H].
Qed.
Lemma fair_install_new p k before w : fair [] [] w -> fair [] [] (install_new p k before w).2.
Proof.
  intros Hw. unfold install_new. rewrite M_bind_run. unfold mcp_list, ask. cbn iota beta.
  destruct (o_list o (calls w)) as [current|e]; [|by apply fair_call]. rewrite M_bind_run.
  match goal with |- context [collect ?f ?l ?v ?w1] => pose proof (fair_collect (i_review p) l v w1) as H end.
  specialize (H (fair_call [] [] McpList w eq_refl Hw)). destruct (collect _ _ _ _) as [[[oe v]|e] w1]; [|done]. cbn [fst snd] in *.
  assert (Hundo : forall A committed e, triple (fair (v_created v) []) (undo_install p before (v_created v) committed e : W A) (fun _ => True)).
  { intros A committed e. apply (kept_undo_install (fair _ _) (fun _ => True)); auto using fair_call, fair_policies, fair_replace.
    apply made_taken, all_members. }
  assert (Hrun : forall m : W PluginInstallResult, triple (fair (v_created v) []) m (fun _ => True) -> fair [] [] (m w1).2).
  { intros m Hm. eapply fair_weaken, Hm, H. }
  destruct oe as [e|]; apply Hrun; [apply Hundo|].
  eapply triple_bind; [apply kept_settled; fairly @kept_commitSkills; intros; by apply fair_log|]. intros [[]|e] _; [|apply Hundo].
  apply triple_catch; [apply (kept_commit_install (fair _ _) (fun _ => True)); auto using fair_call, fair_policies, fair_replace|]. apply Hundo.
Qed.

Lemma fair_enable_extensions l on w : fair [] on w ->
  match enable_extensions l on w with (Ok c, w') => fair [] c.2 w' | (Throw _, _) => False end.
Proof.
  revert on w. induction l as [|e l IH]; intros on w Hw; cbn [enable_extensions]; [exact Hw|]. rewrite M_bind_run. unfold settled.
  rewrite M_bind_run. unfold mcp_list, ask. cbn iota beta. pose proof (fair_call [] on McpList w eq_refl Hw) as H1.
  destruct (o_list o (calls w)) as [extensions|ex]; [|exact H1]. destruct (find _ extensions) as [x|]; [|exact H1].
  destruct (e_enabled x); [by apply IH|]. rewrite M_bind_run. unfold do, ask. cbn iota beta.
  pose proof (fair_call [] on (McpEnable e) _ eq_refl H1) as H2. destruct (o_do o _ _) as [[]|ex]; [|exact H2].
  cbn [mret M_ret]. apply IH. destruct H2 as (Hl & Hm & Ho). split_and!; [done..|]. apply Forall_app. split; [done|].
  apply Forall_singleton. eexists. by eapply fair_start.
Qed.
End Justified.

Section Calls.
Context (target : jstr) (before : PluginRegistrySnapshot) (start : Log) (Hc : consistent before).
Abbreviation fair0 := (fair target before start).

Lemma fair_restore on between {A} e : triple (fair0 [] on) between (fun _ => True) ->
  triple (fair0 [] on) (restore before between e : W A) (fun _ => True).
Proof. intros Hm. apply (kept_restore (fair0 [] on) (fun _ => True)); auto using fair_call, fair_policies, fair_replace. Qed.
Lemma fair_materialize on overrides : triple (fair0 [] on) (materializeRuntime overrides) (fun _ => True).
Proof. apply kept_materialize; auto using fair_call, fair_policies. Qed.
Lemma fair_ended {A} on (m : W A) w : triple (fair0 [] on) m (fun _ => True) -> fair0 [] on w -> fair0 [] [] (m w).2.
Proof. intros Hm Hw. eapply fair_weaken, Hm, Hw. Qed.
Lemma fair_now on : triple (fair0 [] on) now (fun _ => True). Proof. intros w Hw. by split. Qed.

Lemma fair_enable w : memory w = before -> fair0 [] [] w -> fair0 [] [] (enable target w).2.
Proof.
  intros E Hw. unfold enable. rewrite M_bind_run. unfold view, gets. cbn iota beta. rewrite E, M_bind_run. change (lift ?r ?x) with (r, x).
  cbn iota beta. destruct (requirePlugin before target) as [p|e]; [|exact Hw]. destruct (enabled p); [exact Hw|].
  rewrite M_bind_run. pose proof (fair_enable_extensions target before start (mcpExtensionIds p) [] w Hw) as H.
  destruct (enable_extensions _ _ _) as [[[oe on]|e] w1]; [|done]. cbn [fst snd] in *.
  assert (Hundo : forall A e, triple (fair0 [] on) (undo_enable before on e : W A) (fun _ => True)).
  { intros A e. apply fair_restore, kept_disable_all, on_taken, Forall_forall. intros x [_ Hx]%list_elem_of_filter.
    by apply list_elem_of_In, in_rev, list_elem_of_In. }
  destruct oe as [e|]; (apply (fair_ended on); [|exact H]); [apply Hundo|]. apply triple_catch; [|apply Hundo].
  eapply triple_bind; [apply fair_now|]. intros t _. cbv zeta. eapply triple_bind; [by apply fair_replace|]. intros _ _.
  eapply triple_bind; [apply fair_materialize|]. intros _ _. by apply triple_ret.
Qed.
Lemma fair_disable w : memory w = before -> fair0 [] [] w -> fair0 [] [] (disable target w).2.
Proof.
  intros E Hw. unfold disable. rewrite M_bind_run. unfold view, gets. cbn iota beta. rewrite E, M_bind_run. change (lift ?r ?x) with (r, x).
  cbn iota beta. destruct (requirePlugin before target) as [p|e] eqn:Ep; [|exact Hw]. destruct (enabled p); cbn [negb]; [|exact Hw].
  apply requirePlugin_Ok in Ep as [Hp Hid]. apply (fair_ended []); [|exact Hw].
  eapply triple_bind; [apply fair_now|]. intros t _. cbv zeta. eapply triple_bind; [by apply fair_replace|]. intros _ _.
  apply triple_catch; [|intros e; by apply fair_restore, triple_ret].
  eapply triple_bind; [|intros _ _; eapply triple_bind; [apply fair_materialize|]; intros _ _; by apply triple_ret].
  apply kept_disable_all, only_disabled, Forall_forall. intros e He. rewrite <- Hid. by eapply unused_after_change in He.
Qed.
Lemma fair_remove w : memory w = before -> fair0 [] [] w -> fair0 [] [] (remove target w).2.
Proof.
  intros E Hw. unfold remove. rewrite M_bind_run. unfold view, gets. cbn iota beta. rewrite E.
  destruct (plugin_by before target); [|exact Hw]. cbv zeta. apply (fair_ended []); [|exact Hw].
  eapply triple_bind; [by apply fair_replace|]. intros _ _. apply triple_catch; [|intros e; by apply fair_restore, triple_ret].
  eapply triple_bind with (Q := fun _ => True).
  { unfold removeSkillDirectory. apply kept_bind; [apply kept_lift|]. intros d. apply kept_do; auto using fair_call. }
  intros _ _. eapply triple_bind.
  { apply kept_remove_all, only_taken, Forall_forall. intros e He. by apply removable_is_only_of. }
  intros _ _. eapply triple_bind.
  { apply kept_disable_all, only_disabled, Forall_forall. intros e He. by apply idle_is_only_of. }
  intros _ _. eapply triple_bind; [apply fair_materialize|]. intros _ _. by apply triple_ret.
Qed.
Lemma unique_elem l e : e ∈ unique l -> e ∈ l.
Proof.
  unfold unique. assert (H : forall acc, e ∈ foldl (fun s e => if bool_decide (e ∈ s) then s else s ++ [e]) acc l -> e ∈ acc \/ e ∈ l).
  { induction l as [|x l IH]; intros acc H; [by left|]. cbn [foldl] in H. apply IH in H as [H|H].
    - case_bool_decide; [by left|]. apply elem_of_app in H as [H|H%list_elem_of_singleton]; [by left|]. right. rewrite H. apply list_elem_of_here.
    - right. by apply list_elem_of_further. }
  intros [Hn|Hl]%H; [by apply not_elem_of_nil in Hn|done].
Qed.
Lemma fair_reconcile w : target = js "sourcenerve" -> memory w = before -> fair0 [] [] w -> fair0 [] [] (reconcileBundledSourceNervePlugin w).2.
Proof.
  intros Ht E Hw. unfold reconcileBundledSourceNervePlugin. case_bool_decide; [exact Hw|]. rewrite M_bind_run. unfold view, gets. cbn iota beta.
  rewrite E. destruct (bundled_plugin before) as [p|] eqn:Ep; [|exact Hw]. apply find_some_elem in Ep as [Hp Hid]. apply andb_prop in Hid as [Hid _].
  apply bool_decide_eq_true in Hid. case_bool_decide; [exact Hw|]. apply (fair_ended []); [|exact Hw].
  eapply triple_bind; [apply kept_ask; auto using fair_call|]. intros current _. eapply triple_bind; [apply fair_now|]. intros t _.
  eapply triple_bind; [by apply fair_replace|]. intros _ _. apply kept_remove_all, only_taken, Forall_forall. intros e He.
  apply unique_elem, list_elem_of_filter in He as [Hs He]. rewrite Ht, <- Hid. by eapply self_referential_is_only_of.
Qed.
Lemma fair_install p k w : memory w = before -> fair0 [] [] w -> fair0 [] [] (install_inspected p k w).2.
Proof.
  intros E Hw. unfold install_inspected. rewrite M_bind_run. unfold view, gets. cbn iota beta. rewrite E.
  destruct (plugin_by before _); [exact Hw|]. by apply fair_install_new.
Qed.
End Calls.

(** The plugin that a call is about; an installation is about none that is
    installed. *)
Definition target_of (op : operation) : jstr := match op with Enable p | Disable p | Remove p => p | Initialize | Install _ _ => [] end.
Definition justified_calls (target : jstr) (w w' : World) : Prop := exists l,
  calls w' = calls w ++ l /\ Forall (justified target (memory w) (calls w) (calls w')) l.
Lemma initialize_again w : initialized w = true -> initialize w = (Ok tt, w).
Proof. intros H. unfold initialize, get_state. rewrite M_bind_run. cbn iota beta. by rewrite H. Qed.
Lemma snd_discard {A} (m : W A) w : ((_ ← m; mret tt) w).2 = (m w).2.
Proof. rewrite M_bind_run. by destruct (m w) as [[a|e] w']. Qed.

(** C21: Extensions of others are left alone. Whatever a call on a plugin does
    and wherever it fails, it removes an MCP extension only if the call itself
    installed it, or the user did not install it directly and no other
    installed plugin lists it; it disables one only if the call itself enabled
    it, or the user did not install it directly and no other enabled plugin
    lists it. The same holds of the reconciliation of the bundled plugin at
    the start. *)
Theorem others_are_left_alone w : running w ->
  (forall op, justified_calls (target_of op) w (perform op w).2) /\
  justified_calls (js "sourcenerve") w (reconcileBundledSourceNervePlugin w).2.
Proof.
  intros [Hi Hc].
  assert (H0 : forall target, fair target (memory w) (calls w) [] [] w).
  { intros target. split_and!; [|constructor..]. exists []. split; [by rewrite app_nil_r|constructor]. }
  assert (Hend : forall target w', fair target (memory w) (calls w) [] [] w' -> justified_calls target w w') by (by intros ? ? [? _]).
  split; [|apply Hend; by apply fair_reconcile].
  intros op. apply Hend. destruct op; cbn [perform target_of]; try (unfold installLocal; rewrite snd_discard);
    rewrite ?M_bind_run, initialize_again by done; cbn iota beta; rewrite ?snd_discard.
  - done.
  - rewrite M_bind_run. unfold inspect, ask at 1. cbn iota beta. destruct (inspectLocalPluginPackage _ _ _ _ _ _ _ _).1 as [p|e].
    + apply fair_install; [done|]. by apply fair_call.
    + by apply fair_call.
  - by apply fair_enable.
  - by apply fair_disable.
  - by apply fair_remove.
Qed.

(** *** What the runtime is given *)

Section Materialized.
Context (w0 : World) (Hpolicies : SkillPolicy.initialized (skillPolicies w0) = true) (overrides : Overrides).

(** Nothing changed but the log, and nothing was handed over. *)
Definition reading (w : World) : Prop :=
  memory w = memory w0 /\ skillPolicies w = skillPolicies w0 /\
  exists l, calls w = calls w0 ++ l /\ Forall (fun c => match c with Materialize _ => False | _ => True end) l.
Lemma reading_ask {A} c (f : Log -> result A) : match c with Materialize _ => False | _ => True end ->
  triple reading (ask c f) (fun a => exists log, f log = Ok a).
Proof.
  intros Hc w (H1 & H2 & l & E & Hl). split; [|intros a Ha; by exists (calls w)]. split_and!; [done..|].
  exists (l ++ [c]). cbn. split; [by rewrite E, app_assoc|]. apply Forall_app. split; [done|by constructor].
Qed.

(** The policy the store has for a workspace *)
Definition policy_in_store (workspaceId : jstr) : result SkillPolicy.WorkspaceSkillPolicyView :=
  (SkillPolicy.get JSON_parse (skillPolicyPath cfg) workspaceId (skillPolicies w0)).1.
Lemma policies_same workspaceId (s : SkillPolicy.PolicyStore) : SkillPolicy.initialized s = true ->
  (SkillPolicy.get JSON_parse (skillPolicyPath cfg) workspaceId s).2 = s.
Proof.
  intros Hs. unfold SkillPolicy.get. rewrite M_bind_run. unfold SkillPolicy.initialize. rewrite M_bind_run. unfold get_state. cbn iota beta.
  rewrite Hs. cbn [mret M_ret]. rewrite M_bind_run. change (lift ?r ?x) with (r, x). cbn iota beta.
  destruct (SkillPolicy.identifier _ _) as [i|e]; [|done]. rewrite M_bind_run. cbn iota beta. by destruct (map_get _ _).
Qed.
Lemma reading_policy workspaceId : triple reading (policy_of workspaceId) (fun p => policy_in_store workspaceId = Ok p).
Proof.
  intros w (H1 & H2 & Hl). unfold policy_of, on_policies, policy_in_store.
  pose proof (policies_same workspaceId (skillPolicies w0) Hpolicies) as Hs. rewrite H2.
  destruct (SkillPolicy.get _ _ _ _) as [r x]. cbn [snd] in Hs. subst x. by split.
Qed.

(** A workspace that is ready, with the policy of the store and its signals *)
Definition context_of (ready : jstr * list jstr) (c : WorkspaceContext) : Prop :=
  x_workspace c = ready.1 /\ policy_in_store ready.1 = Ok (x_policy c) /\ x_signals c = signals_of overrides ready.
Definition known_contexts (x : option (list WorkspaceContext)) : Prop :=
  match x with
  | None => has_workspaces cfg = false
  | Some l => has_workspaces cfg = true /\ exists log ready, o_workspaces o log = Ok ready /\ Forall2 context_of ready l
  end.
Lemma reading_contexts l : triple reading (contexts overrides l) (Forall2 context_of l).
Proof.
  induction l as [|x l IH]; cbn [contexts]; [by apply triple_ret|]. eapply triple_bind; [apply reading_policy|]. intros p Hp.
  eapply triple_bind; [exact IH|]. intros rest Hr. apply triple_ret. by constructor.
Qed.
Lemma reading_workspaces : triple reading (workspaceContexts overrides) known_contexts.
Proof.
  unfold workspaceContexts. destruct (has_workspaces cfg) eqn:E; cbn [negb]; [|by apply triple_ret].
  eapply triple_bind; [by apply reading_ask|]. intros l [log Hl]. eapply triple_bind; [apply reading_contexts|]. intros x Hx.
  apply triple_ret. split; [done|]. by exists log, l.
Qed.

(** The workspaces a skill is given to: those in which it is to be used *)
Definition used_in (x : option (list WorkspaceContext)) (pluginId : jstr) (d : PluginSkillView) (ids : option (list jstr)) : Prop :=
  match x, ids with
  | None, None => True
  | Some l, Some ids => forall w, w ∈ ids <-> exists c a, c ∈ l /\ x_workspace c = w /\
      SkillPolicy.workspaceSkillIsActive (x_policy c) pluginId d (x_signals c) = Ok a /\ SkillPolicy.active a = true
  | _, _ => False
  end.
Lemma active_in_used pluginId d l ids : active_in pluginId d l = Ok ids -> used_in (Some l) pluginId d (Some ids).
Proof.
  revert ids. induction l as [|c l IH]; intros ids; cbn [active_in].
  - intros [= <-] w. split; [by intros ?%not_elem_of_nil|]. by intros (c & a & ?%not_elem_of_nil & _).
  - intros (a & Ha & (rest & Hr & [= <-])%bind_Ok)%bind_Ok w. specialize (IH rest Hr w). cbn [used_in] in IH.
    assert (H : (exists c' a', c' ∈ c :: l /\ x_workspace c' = w /\ SkillPolicy.workspaceSkillIsActive (x_policy c') pluginId d (x_signals c') = Ok a' /\
      SkillPolicy.active a' = true) <-> x_workspace c = w /\ SkillPolicy.active a = true \/ w ∈ rest).
    { rewrite IH. split.
      - intros (c' & a' & [->|Hin]%elem_of_cons & E & Ha' & Hact); [left|right; by exists c', a'].
        rewrite Ha in Ha'. injection Ha' as <-. by split.
      - intros [[E Hact]|(c' & a' & Hin & H)]; [exists c, a|exists c', a']; (split; [rewrite elem_of_cons; auto|done]). }
    rewrite H. destruct (SkillPolicy.active a); [rewrite elem_of_cons; naive_solver|naive_solver].
Qed.

(** A skill that was reviewed when its plugin was installed *)
Definition reviewed (x : option (list WorkspaceContext)) (p : InstalledPluginRecord) (d : PluginSkillView) (k : PluginRuntimeSkill) : Prop :=
  rs_pluginId k = id p /\ rs_pluginName k = name p /\ rs_pluginVersion k = version p /\ rs_descriptor k = d /\
  sha256 (rs_content k) = k_contentHash d /\ utf8_len (rs_content k) <= MAX_RUNTIME_SKILL_BYTES /\ used_in x (id p) d (rs_workspaceIds k).
Lemma reading_skill x p d : triple reading (runtime_skill x p d) (reviewed x p d).
Proof.
  unfold runtime_skill. eapply triple_bind; [apply triple_lift|]. intros directory _. cbv zeta.
  eapply triple_bind; [by apply reading_ask|]. intros content _. eapply triple_bind; [apply triple_lift|]. intros u Hc.
  eapply triple_bind; [apply triple_lift|]. intros ids Hi. apply triple_ret. unfold check_content in Hc.
  destruct (Z.ltb_spec MAX_RUNTIME_SKILL_BYTES (utf8_len content)) as [|Hl]; [done|]. case_bool_decide as Hh; cbn [negb] in Hc; [|done].
  split_and!; [done..|]. cbn [rs_workspaceIds]. unfold workspaces_of in Hi. destruct x as [l|]; [|by injection Hi as <-].
  apply fmap_Ok in Hi as (k & Hk & ->). by apply active_in_used.
Qed.
Lemma reading_map {A B} (R : A -> B -> Prop) (f : A -> W B) l : (forall a, triple reading (f a) (R a)) ->
  triple reading (map_each f l) (Forall2 R l).
Proof.
  intros Hf. induction l as [|a l IH]; cbn [map_each]; [by apply triple_ret|]. eapply triple_bind; [apply Hf|]. intros b Hb.
  eapply triple_bind; [exact IH|]. intros k Hk. apply triple_ret. by constructor.
Qed.
End Materialized.

Record handed_over (overrides : Overrides) (w : World) (m : PluginRuntimeMaterialization) : Prop := {
  h_skills : exists x skills_of, known_contexts w overrides x /\ m_skills m = concat skills_of /\
    Forall2 (fun p => Forall2 (reviewed x p) (skills p)) (enabledPlugins (memory w)) skills_of;
  h_harness : forall h, h ∈ m_harnessExtensions m <->
    exists p, p ∈ plugins (memory w) /\ enabled p = true /\ harness p = Some (rh_extension h) /\
      rh_pluginId h = id p /\ rh_pluginName h = name p /\ rh_pluginVersion h = version p;
  h_owners : forall e owner, (exists l, (e, l) ∈ m_mcpOwnership m /\ owner ∈ l) <->
    exists p, p ∈ plugins (memory w) /\ enabled p = true /\ is_Some (harness p) /\ id p = owner /\ e ∈ mcpExtensionIds p }.

Lemma harness_given s h : h ∈ omap runtime_harness (enabledPlugins s) <->
  exists p, p ∈ plugins s /\ enabled p = true /\ harness p = Some (rh_extension h) /\
    rh_pluginId h = id p /\ rh_pluginName h = name p /\ rh_pluginVersion h = version p.
Proof.
  rewrite list_elem_of_omap. unfold enabledPlugins, runtime_harness. setoid_rewrite list_elem_of_filter. split.
  - intros (p & [He Hp] & H). destruct (harness p) as [x|] eqn:Ex; [|done]. injection H as <-. by exists p.
  - intros (p & Hp & He & Hx & E1 & E2 & E3). exists p. split; [done|]. rewrite Hx. cbn. destruct h as [a b c d]. cbn in *. by subst.
Qed.
Lemma owners_given s e owner : consistent s -> (exists l, (e, l) ∈ runtime_ownership s /\ owner ∈ l) <->
  exists p, p ∈ plugins s /\ enabled p = true /\ is_Some (harness p) /\ id p = owner /\ e ∈ mcpExtensionIds p.
Proof.
  intros Hc. unfold runtime_ownership. setoid_rewrite list_elem_of_filter. change (map ?f ?l) with (f <$> l). setoid_rewrite list_elem_of_fmap.
  assert (Hh : forall i, i ∈ harness_owners s <-> exists p, p ∈ plugins s /\ enabled p = true /\ is_Some (harness p) /\ id p = i).
  { intros i. unfold harness_owners, enabledPlugins. change (map ?f ?l) with (f <$> l). rewrite list_elem_of_fmap.
    setoid_rewrite list_elem_of_filter. setoid_rewrite list_elem_of_filter. naive_solver. }
  split.
  - intros (l & [_ (r & E0 & Hr)] & Ho). injection E0 as E1 E2. rewrite E2 in Ho. rewrite E1. clear E1 E2. apply list_elem_of_filter in Ho as [Hin Ho]. apply Hh in Hin as (p & Hp & He & Hx & <-).
    destruct (proj1 (c_linked s Hc (id p) (extensionId r))) as (q & Hq & E & Hl); [by exists r|].
    assert (q = p) as -> by exact (NoDup_key id _ _ _ (c_plugins s Hc) Hq Hp E). by exists p.
  - intros (p & Hp & He & Hx & <- & Hl). destruct (proj2 (c_linked s Hc (id p) e)) as (r & Hr & <- & Ho); [by exists p|].
    assert (H : id p ∈ filter (fun owner => owner ∈ harness_owners s) (owners r)).
    { apply list_elem_of_filter. split; [|done]. apply Hh. by exists p. }
    eexists. split; [split; [|exists r; by split]|exact H]. cbn. intros E. rewrite E in H. by apply not_elem_of_nil in H.
Qed.

(** C22: The runtime is given only what was reviewed. Materializing reads and
    changes nothing else; it either throws before anything is handed over or
    hands over, once and last: the skills of the enabled plugins in order,
    each with the content whose hash the review recorded, within the size
    limit, and for the ready workspaces in which its policy and signals make
    it active; the harness extensions of the enabled plugins; and as owners of
    an MCP extension exactly the enabled plugins with a harness extension that
    list it. *)
Theorem runtime_gets_the_reviewed overrides w : running w -> SkillPolicy.initialized (skillPolicies w) = true -> has_runtime cfg = true ->
  let (r, w') := materializeRuntime overrides w in
  memory w' = memory w /\ exists l, calls w' = calls w ++ l /\
  ((forall m, Materialize m ∉ l) /\ is_ok r = false \/
   exists l1 m, l = l1 ++ [Materialize m] /\ (forall m', Materialize m' ∉ l1) /\ handed_over overrides w m).
Proof.
  intros [_ Hc] Hp Hr. unfold materializeRuntime. rewrite Hr. cbn [negb]. rewrite M_bind_run. unfold view, gets. cbn iota beta.
  assert (H0 : reading w w) by (split_and!; [done..|]; exists []; split; [by rewrite app_nil_r|constructor]).
  assert (Hnone : forall l, Forall (fun c => match c with Materialize _ => False | _ => True end) l -> forall m, Materialize m ∉ l).
  { intros l Hl m Hm. rewrite Forall_forall in Hl. by apply (Hl _ Hm). }
  assert (Hstop : forall w', reading w w' -> memory w' = memory w /\ exists l, calls w' = calls w ++ l /\ forall m, Materialize m ∉ l).
  { intros w' (H1 & _ & l & E & Hl). split; [done|]. exists l. split; [done|by apply Hnone]. }
  rewrite M_bind_run. destruct (reading_workspaces w Hp overrides w H0) as [H1 Q1].
  destruct (workspaceContexts overrides w) as [[x|e] w1]; cbn [fst snd] in *.
  2: { destruct (Hstop w1 H1) as (? & l & ? & ?). split; [done|]. exists l. by split; [|left]. }
  specialize (Q1 x eq_refl). rewrite M_bind_run.
  assert (Hm : triple (reading w) (map_each (fun p => map_each (runtime_skill x p) (skills p)) (enabledPlugins (memory w)))
    (Forall2 (fun p => Forall2 (reviewed x p) (skills p)) (enabledPlugins (memory w)))).
  { apply reading_map. intros p. apply reading_map. intros d. apply reading_skill. }
  destruct (Hm w1 H1) as [H2 Q2]. destruct (map_each _ _ w1) as [[sks|e] w2]; cbn [fst snd] in *.
  2: { destruct (Hstop w2 H2) as (? & l & ? & ?). split; [done|]. exists l. by split; [|left]. }
  specialize (Q2 sks eq_refl). destruct (Hstop w2 H2) as (E1 & l & E2 & Hl). unfold do, ask. cbn [log_call memory registry calls].
  split; [done|]. eexists. split; [by rewrite E2, <- app_assoc|]. right. eexists _, _. split; [done|]. split; [done|]. split.
  - exists x, sks. split_and!; [exact Q1|reflexivity|exact Q2].
  - apply harness_given.
  - intros e owner. exact (owners_given (memory w) e owner Hc).
Qed.

(** *** Undoing a failed installation *)

(** What a call did, and the call that takes it back *)
Inductive effect (l : Log) : call -> call -> Prop :=
| effect_install i x : o_install o l i = Ok x -> effect l (McpInstall i) (McpRemove (e_id x))
| effect_skills t d : o_do o l (FsRename t d) = Ok tt -> effect l (FsRename t d) (FsRemove d).

Section Undone.
Context (start : Log).

Definition taken_back (log l : Log) (c u : call) : Prop := exists l', since start log l' u /\ prefix (l ++ [c]) l'.
(** Everything done since [start] was taken back afterwards, or is [pending]. *)
Definition undone (pending : call -> Prop) (w : World) : Prop := prefix start (calls w) /\
  forall l c u, since start (calls w) l c -> effect l c u -> pending u \/ taken_back (calls w) l c u.

Lemma since_snoc log c l d : since start (log ++ [c]) l d -> since start log l d \/ l = log /\ d = c.
Proof.
  intros [H1 [k Hk]]. destruct k as [|x k _] using rev_ind.
  - rewrite app_nil_r in Hk. apply app_inj_tail in Hk as [-> ->]. by right.
  - rewrite app_assoc in Hk. apply app_inj_tail in Hk as [Hk _]. left. split; [done|]. by exists k.
Qed.
Lemma undone_log pending pending' c w : (forall u, pending u -> pending' u) -> (forall u, effect (calls w) c u -> pending' u) ->
  undone pending w -> undone pending' (log_call c w).
Proof.
  intros Hi Hc [Hs H]. assert (Hp : prefix (calls w) (calls (log_call c w))) by (by exists [c]).
  split; [by etrans|]. intros l d u [Hsince|[-> ->]]%since_snoc He; [|left; auto].
  destruct (H l d u Hsince He) as [?|(l' & Hl' & ?)]; [left; auto|right]. exists l'. split; [|done]. by eapply since_grows.
Qed.
Definition no_effect (c : call) : Prop := forall l u, ~ effect l c u.
Lemma undone_call pending c w : no_effect c -> undone pending w -> undone pending (log_call c w).
Proof. intros Hc. apply undone_log; [done|]. intros u Hu. by destruct (Hc _ _ Hu). Qed.
Lemma undone_by pending pending' u w : (forall v, pending v -> v = u \/ pending' v) -> no_effect u ->
  undone pending w -> undone pending' (log_call u w).
Proof.
  intros Hi Hn Hw. pose proof (undone_call _ u _ Hn Hw) as [Hs H]. split; [done|]. intros l c v Hsince He.
  destruct (H l c v Hsince He) as [Hp|Hback]; [|by right]. destruct (Hi v Hp) as [->|?]; [right|by left].
  exists (calls w). split; [split; [apply Hw|done]|]. apply since_snoc in Hsince as [[_ ?]|[-> ->]]; [done|]. by destruct (Hn _ _ He).
Qed.
Lemma undone_weaken pending pending' w : (forall u, pending u -> pending' u) -> undone pending w -> undone pending' w.
Proof. intros Hi [Hs H]. split; [done|]. intros l c u H1 H2. destruct (H l c u H1 H2); auto. Qed.
Lemma unmarked_no_effect c : marked c = false -> no_effect c.
Proof. intros Hm l u He. by destruct He. Qed.

Lemma ignored_run {A} (m : W A) w : ignored m w = (Ok tt, (m w).2).
Proof. unfold ignored, settled. rewrite M_bind_run. by destruct (m w). Qed.
Lemma undone_remove_all l pending w : undone pending w -> (forall u, pending u -> u ∈ map McpRemove l) ->
  undone (fun _ => False) (remove_all l w).2.
Proof.
  unfold remove_all. revert pending w. induction l as [|e l IH]; intros pending w Hw Hin; cbn [for_each].
  - eapply undone_weaken; [|exact Hw]. intros u Hu. apply Hin in Hu. by apply not_elem_of_nil in Hu.
  - rewrite M_bind_run, ignored_run. cbn [do ask snd]. apply (IH (fun u => u ∈ map McpRemove l)); [|done].
    eapply undone_by; [|by inversion 1|exact Hw]. intros v Hv. apply Hin in Hv. by apply elem_of_cons in Hv.
Qed.

Lemma undone_keep pending c w : marked c = false -> undone pending w -> undone pending (log_call c w).
Proof. intros Hc. by apply undone_call, unmarked_no_effect. Qed.
Lemma undone_policies pending x w : undone pending w -> undone pending (with_policies x w). Proof. done. Qed.
Lemma undone_replace pending t : True -> triple (undone pending) (replace t) (fun _ => True).
Proof.
  intros _ w Hw. split; [|done]. unfold replace, on_registry. destruct (PluginRegistry.replace _ _ _ _ _ _ _) as [a r].
  exact (undone_keep pending (RegistryWrite t) w eq_refl Hw).
Qed.
Ltac undoing H := eapply (H (undone _)); try exact (fun _ : PluginRegistrySnapshot => True);
  eauto using undone_keep, undone_policies, undone_replace.

(** The removals that an installation owes *)
Definition owed (created : list jstr) (u : call) : Prop := u ∈ map McpRemove created.
Lemma owed_snoc created e u : owed (created ++ [e]) u <-> owed created u \/ u = McpRemove e.
Proof. unfold owed. rewrite map_app, elem_of_app. cbn [map]. by rewrite list_elem_of_singleton. Qed.
Definition after_undoing {A} (created : list jstr) (f : A -> list jstr) (x : result A * World) : Prop :=
  match x with (Ok a, w) => undone (owed (f a)) w | (Throw _, w) => undone (owed created) w end.
Lemma undoing_kept {A} created (f : A -> list jstr) (m : W A) w : triple (undone (owed created)) m (fun a => f a = created) ->
  undone (owed created) w -> after_undoing created f (m w).
Proof. intros Hm Hw. destruct (Hm w Hw) as [H1 H2]. unfold after_undoing. destruct (m w) as [[a|e] w']; [|done]. by rewrite (H2 a eq_refl). Qed.

Lemma undoing_install_component r c v i w : undone (owed (v_created v)) w ->
  after_undoing (v_created v) v_created (install_component r c v i w).
Proof.
  intros Hw. unfold install_component. rewrite M_bind_run.
  assert (Ha : triple (undone (owed (v_created v))) (if bool_decide (m_auth c = auth_none) then authorize c i else mret i) (fun _ => True)).
  { case_bool_decide; [undoing @kept_authorize|by apply triple_ret]. }
  destruct (Ha w Hw) as [H1 _]. destruct (_ w) as [[i'|e] w1]; [|exact H1]. cbn [snd] in H1. clear i Ha Hw w.
  rewrite M_bind_run. unfold ask. cbn iota beta. destruct (o_install o (calls w1) i') as [x|e] eqn:E.
  2: { eapply undone_log; [done| |exact H1]. intros u Hu. inversion Hu as [? x Hx|]; congruence. }
  assert (H2 : undone (owed (v_created v ++ [e_id x])) (log_call (McpInstall i') w1)).
  { eapply undone_log; [| |exact H1]; intros u Hu; apply owed_snoc; [by left|right]. inversion Hu as [? y Hy|]; subst. rewrite E in Hy. by injection Hy as ->. }
  rewrite M_bind_run. unfold try_catch.
  assert (Ht : triple (undone (owed (v_created v ++ [e_id x]))) (start_extension i' (e_id x)) (fun _ => True)) by undoing @kept_start.
  destruct (Ht _ H2) as [H3 _]. destruct (start_extension _ _ _) as [[[]|e] w2]; cbn [snd] in H3; [exact H3|].
  rewrite M_bind_run, ignored_run. cbn. eapply undone_by; [|by inversion 1|exact H3]. intros u Hu. apply owed_snoc in Hu as [|]; auto.
Qed.
Lemma undoing_reuse r c v e : triple (undone (owed (v_created v))) (reuse r c v e) (fun v' => v_created v' = v_created v).
Proof. unfold reuse. eapply triple_bind; [undoing @kept_enable_if_needed|]. intros _ _. by apply triple_ret. Qed.
Lemma undoing_ensure r c v w : undone (owed (v_created v)) w -> after_undoing (v_created v) v_created (ensureMcpComponent r c v w).
Proof.
  intros Hw. unfold ensureMcpComponent. destruct (find _ (v_ownership v)) as [owned|].
  { destruct (find _ (v_extensions v)) as [x|]; [|exact Hw]. apply undoing_kept; [|done].
    eapply triple_bind; [undoing @kept_enable_if_needed|]. intros _ _. by apply triple_ret. }
  destruct (find _ (v_extensions v)) as [x|]; [apply undoing_kept; [apply undoing_reuse|done]|].
  case_bool_decide; [exact Hw|]. cbv zeta.
  destruct (find _ (v_extensions v)) as [x|]; [|by apply undoing_install_component].
  destruct (sameComponentDefinition x c); [apply undoing_kept; [apply undoing_reuse|done]|exact Hw].
Qed.
Lemma undoing_collect r l v w : undone (owed (v_created v)) w ->
  match collect (ensureMcpComponent r) l v w with (Ok c, w') => undone (owed (v_created c.2)) w' | (Throw _, _) => False end.
Proof.
  revert v w. induction l as [|c l IH]; intros v w Hw; cbn [collect]; [exact Hw|]. rewrite M_bind_run. unfold settled.
  pose proof (undoing_ensure r c v w Hw) as H. destruct (ensureMcpComponent r c v w) as [[v'|e] w']; [by apply IH|exact H].
Qed.

(** The skills in their place are owed too. *)
Definition owed_skills (pluginId : jstr) (created : list jstr) (u : call) : Prop :=
  owed created u \/ exists d, skillDirectory pluginId = Ok d /\ u = FsRemove d.
Lemma undoing_write_skills temporary skills pending :
  triple (undone pending) (for_each (write_skill temporary) skills) (fun _ => True).
Proof.
  apply kept_for_each, Forall_true. intros s. unfold write_skill. apply kept_bind; [apply kept_lift|]. intros _.
  apply kept_do; [apply undone_keep|done].
Qed.
Lemma undoing_commitSkills p created w : undone (owed created) w ->
  match commitSkills p w with
  | (Ok _, w') => is_ok (skillDirectory (r_id (i_review p))) = true /\ undone (owed_skills (r_id (i_review p)) created) w'
  | (Throw _, w') => undone (owed created) w'
  end.
Proof.
  intros Hw. unfold commitSkills. rewrite M_bind_run. change (lift ?r ?x) with (r, x). cbn iota beta.
  destruct (skillDirectory (r_id (i_review p))) as [root|e] eqn:Er; [|exact Hw]. rewrite M_bind_run. unfold now at 1. cbn iota beta. cbv zeta.
  generalize (concat [root; js ".tmp-"; pid cfg; js "-"; js_int (o_now o (calls w))]). intros temporary.
  assert (Hdo : forall c w, marked c = false -> undone (owed created) w -> undone (owed created) (do c w).2) by (intros; by apply undone_keep).
  rewrite M_bind_run. pose proof (Hdo (FsRemove temporary) w eq_refl Hw) as H1. destruct (do _ w) as [[[]|e] w1]; [|exact H1]. cbn [snd] in H1.
  rewrite M_bind_run. pose proof (Hdo (FsMkdir temporary) w1 eq_refl H1) as H2. destruct (do _ w1) as [[[]|e] w2]; [|exact H2]. cbn [snd] in H2.
  unfold try_catch. rewrite M_bind_run. destruct (undoing_write_skills temporary (i_skills p) (owed created) w2 H2) as [H3 _].
  assert (Hfail : forall (e : exn) w', undone (owed created) w' ->
    match ((_ ← ignored (do (FsRemove temporary)); rethrow e) : W unit) w' with
    | (Ok _, _) => False | (Throw _, w'') => undone (owed created) w'' end).
  { intros e w' H. rewrite M_bind_run, ignored_run. by apply Hdo. }
  destruct (for_each _ _ w2) as [[[]|e] w3]; cbn [snd] in H3.
  2: { specialize (Hfail e w3 H3). destruct ((_ ← ignored _; rethrow e) w3) as [[|] w4]; [done|exact Hfail]. }
  rewrite M_bind_run. pose proof (Hdo (FsRemove root) w3 eq_refl H3) as H4. destruct (do _ w3) as [[[]|e] w4]; cbn [snd] in H4.
  2: { specialize (Hfail e w4 H4). destruct ((_ ← ignored _; rethrow e) w4) as [[|] w5]; [done|exact Hfail]. }
  unfold do at 1, ask. destruct (o_do o (calls w4) (FsRename temporary root)) as [[]|e] eqn:Eo.
  - split; [done|]. eapply undone_log; [by left| |exact H4]. intros u Hu. right. exists root. split; [exact Er|]. by inversion Hu.
  - assert (H5 : undone (owed created) (log_call (FsRename temporary root) w4)).
    { eapply undone_log; [done| |exact H4]. intros u Hu. inversion Hu; congruence. }
    specialize (Hfail e _ H5). destruct ((_ ← ignored _; rethrow e) _) as [[|] w5]; [done|exact Hfail].
Qed.
End Undone.

Section Failing.
Context (start : Log) (p : InspectedPluginPackage) (k : PluginSourceKind) (before : PluginRegistrySnapshot).
Abbreviation nothing := (fun _ : call => False).

Lemma undoing_restore pending {A} e : triple (undone start pending) (restore before (mret tt) e : W A) (fun _ => True).
Proof.
  apply (kept_restore (undone start pending) (fun _ => True)); auto using undone_keep, undone_policies, undone_replace.
  by apply triple_ret.
Qed.
Lemma undo_install_undoes {A} created e w : undone start (owed created) w ->
  undone start nothing (undo_install p before created false e w : result A * World).2.
Proof.
  intros Hw. unfold undo_install. rewrite M_bind_run. cbn [mret M_ret]. rewrite M_bind_run.
  assert (H : undone start nothing (remove_all (rev created) w).2).
  { eapply undone_remove_all; [exact Hw|]. intros u Hu. unfold owed in Hu. apply list_elem_of_In in Hu. apply list_elem_of_In.
    rewrite map_rev. by apply in_rev in Hu. }
  destruct (remove_all _ w) as [[[]|ex] w1]; [|exact H]. by apply undoing_restore.
Qed.
Lemma drop_skills_run pluginId d w : skillDirectory pluginId = Ok d -> drop_skills pluginId w = (Ok tt, log_call (FsRemove d) w).
Proof. intros E. unfold drop_skills. rewrite E, M_bind_run. change (lift ?r ?x) with (r, x). cbn iota beta. by rewrite ignored_run. Qed.
Lemma undo_committed_undoes {A} created e w : is_ok (skillDirectory (r_id (i_review p))) = true ->
  undone start (owed_skills (r_id (i_review p)) created) w -> undone start nothing (undo_install p before created true e w : result A * World).2.
Proof.
  intros Hd Hw. destruct (skillDirectory (r_id (i_review p))) as [d|] eqn:E; [|done].
  assert (H1 : undone start (owed created) (log_call (FsRemove d) w)).
  { eapply undone_by; [|by inversion 1|exact Hw]. intros u [Hu|(d' & Hd' & ->)]; [by right|left; congruence]. }
  pose proof (undo_install_undoes (A := A) created e _ H1) as H2. unfold undo_install in *. rewrite M_bind_run, (drop_skills_run _ d) by done.
  exact H2.
Qed.

(** The snapshot can be written as it is. *)
Definition restorable : Prop := snapshot_ok before /\ paths_stable before /\
  utf8_len (serialize JSON_stringify before) <= MAX_REGISTRY_BYTES.
(** The registry holds it again, or a write of it failed. *)
Definition put_back (w : World) : Prop :=
  memory w = before \/ exists l, since start (calls w) l (RegistryWrite before) /\ o_write o l <> NoFault.
Lemma put_back_log c w : put_back w -> put_back (log_call c w).
Proof.
  intros [H|(l & Hl & Hf)]; [by left|right]. exists l. split; [|done]. eapply since_grows; [|exact Hl]. by exists [c].
Qed.
Lemma replace_puts_back w : restorable -> prefix start (calls w) -> put_back (replace before w).2.
Proof.
  intros (H1 & H2 & H3) Hs. unfold replace, on_registry. destruct (o_write o (calls w)) eqn:Ew.
  2-4: right; exists (calls w); split; [|congruence]; destruct (PluginRegistry.replace _ _ _ _ _ _ _); split; [exact Hs|exists []; by rewrite app_nil_r].
  left. unfold PluginRegistry.replace. rewrite M_bind_run.
  change (lift ?r ?x) with (r, x). rewrite (plugin_registry_complete _ H1 H2). cbn iota beta. rewrite M_bind_run.
  unfold PluginRegistry.on_disk, savePluginRegistry. rewrite M_bind_run. unfold js_guard.
  destruct (Z.ltb_spec MAX_REGISTRY_BYTES (utf8_len (serialize JSON_stringify before))); [lia|]. done.
Qed.
Lemma restore_puts_back {A} e w : restorable -> prefix start (calls w) -> put_back (restore before (mret tt) e w : result A * World).2.
Proof.
  intros H Hs. unfold restore. rewrite M_bind_run, ignored_run, M_bind_run. cbn [mret M_ret]. rewrite M_bind_run, ignored_run. cbn.
  refine (proj1 (kept_materialize put_back _ _ [] _ _)); [auto using put_back_log|done|]. by apply replace_puts_back.
Qed.
Lemma remove_all_Ok l w : (remove_all l w).1 = Ok tt.
Proof. unfold remove_all. revert w. induction l as [|e l IH]; intros w; cbn [for_each]; [done|]. by rewrite M_bind_run, ignored_run. Qed.
Lemma remove_all_grows l w : prefix (calls w) (calls (remove_all l w).2).
Proof.
  unfold remove_all. revert w. induction l as [|e l IH]; intros w; cbn [for_each]; [done|]. rewrite M_bind_run, ignored_run.
  etrans; [|apply IH]. by exists [McpRemove e].
Qed.
Lemma undo_install_restores {A} created (committed : bool) e w : (committed = true -> is_ok (skillDirectory (r_id (i_review p))) = true) ->
  prefix start (calls w) -> restorable -> put_back (undo_install p before created committed e w : result A * World).2.
Proof.
  intros Hd Hs H. unfold undo_install. rewrite M_bind_run.
  assert (Hm : forall w1, prefix start (calls w1) -> put_back ((_ ← remove_all (rev created); restore before (mret tt) e) w1 : result A * World).2).
  { intros w1 Hw1. rewrite M_bind_run. pose proof (remove_all_Ok (rev created) w1) as Hr. pose proof (remove_all_grows (rev created) w1) as Hg.
    destruct (remove_all _ w1) as [r w2]. cbn in Hr, Hg. subst r. apply restore_puts_back; [done|]. by etrans. }
  destruct committed; [|by apply Hm]. destruct (skillDirectory (r_id (i_review p))) as [d|] eqn:E; [|by specialize (Hd eq_refl)].
  rewrite (drop_skills_run _ d) by done. apply Hm. etrans; [exact Hs|]. by exists [FsRemove d].
Qed.

(** A failure leaves nothing behind, and the snapshot as it was. *)
Definition clean (w : World) : Prop := undone start nothing w /\ (restorable -> put_back w).
Lemma install_new_clean w e w' : memory w = before -> undone start nothing w -> install_new p k before w = (Throw e, w') -> clean w'.
Proof.
  intros Hb Hw. unfold install_new. rewrite M_bind_run. unfold mcp_list, ask. cbn iota beta.
  pose proof (undone_keep start nothing McpList w eq_refl Hw) as H0.
  destruct (o_list o (calls w)) as [current|ex]; [|intros [= <- <-]; split; [done|intros _; by left]]. rewrite M_bind_run.
  match goal with |- context [collect ?f ?l ?v ?w1] => pose proof (undoing_collect start (i_review p) l v w1) as H end.
  specialize (H (undone_weaken _ _ _ _ (fun _ => False_ind _) H0)). destruct (collect _ _ _ _) as [[[oe v]|ex] w1]; [|done]. cbn [fst snd] in *.
  assert (Hundo : forall ex w, undone start (owed (v_created v)) w -> clean (undo_install p before (v_created v) false ex w : result PluginInstallResult * World).2).
  { intros ex w2 H2. split; [by apply undo_install_undoes|]. apply undo_install_restores; [done|apply H2]. }
  destruct oe as [ex|]; [intros E; specialize (Hundo ex w1 H); by rewrite E in Hundo|].
  rewrite M_bind_run. unfold settled. pose proof (undoing_commitSkills start p (v_created v) w1 H) as Hcommit.
  destruct (commitSkills p w1) as [[[]|ex] w2]; [|intros E; specialize (Hundo ex w2 Hcommit); by rewrite E in Hundo].
  destruct Hcommit as [Hd H2]. unfold try_catch.
  assert (H3 : undone start (owed_skills (r_id (i_review p)) (v_created v)) (commit_install p k before v w2).2).
  { apply (kept_commit_install (undone start _) (fun _ => True)); auto using undone_keep, undone_policies, undone_replace. }
  destruct (commit_install p k before v w2) as [[a|ex] w3]; [done|]. intros E.
  assert (w' = (undo_install p before (v_created v) true ex w3 : result PluginInstallResult * World).2) as -> by (by rewrite E).
  split; [by apply undo_committed_undoes|]. apply undo_install_restores; [done|apply H3].
Qed.
End Failing.

(** C23: A failed installation is taken back. When installing a package, in a
    manager that was started, throws, wherever that is: for every MCP extension it made a removal was
    asked for afterwards, and for the skills it put in place too (what these
    removals answer is ignored, as the code ignores it); and, when the snapshot
    of the registry before the call is one that can be written as it is -
    well-formed, within the size limit, with skill paths that the check returns
    unchanged -, the registry holds that snapshot again, or the write that was
    to put it back failed. *)
Theorem failed_install_is_undone root k w e w' : running w -> installLocal root k w = (Throw e, w') ->
  (forall l c u, since (calls w) (calls w') l c -> effect l c u -> taken_back (calls w) (calls w') l c u) /\
  (restorable (memory w) -> memory w' = memory w \/
     exists l, since (calls w) (calls w') l (RegistryWrite (memory w)) /\ o_write o l <> NoFault).
Proof.
  intros [Hi Hc]. unfold installLocal. rewrite M_bind_run, initialize_again by done. cbn iota beta. rewrite M_bind_run.
  assert (H0 : undone (calls w) (fun _ => False) w).
  { split; [done|]. intros l c u [Hs Hp] _. exfalso. destruct Hs as [k1 ->], Hp as [k2 E]. apply (f_equal length) in E.
    rewrite !length_app in E. cbn in E. lia. }
  assert (H : forall w1, clean (calls w) (memory w) w1 ->
    (forall l c u, since (calls w) (calls w1) l c -> effect l c u -> taken_back (calls w) (calls w1) l c u) /\ (restorable (memory w) -> put_back (calls w) (memory w) w1)).
  { intros w1 [[_ H1] H2]. split; [|done]. intros l c u Hs He. by destruct (H1 l c u Hs He). }
  unfold inspect, ask at 1. cbn iota beta. pose proof (undone_keep _ _ (Inspect root) w eq_refl H0) as H1.
  destruct (inspectLocalPluginPackage _ _ _ _ _ _ _ _).1 as [p|ex]; [|intros [= <- <-]; apply H; split; [done|intros _; by left]].
  unfold install_inspected. rewrite M_bind_run. unfold view, gets. cbn iota beta.
  destruct (plugin_by _ _); [done|]. intros E. apply H. by eapply (install_new_clean _ (adapted p) k); [| |exact E].
Qed.
End Manager.

(** ** A manager and what surrounds it *)

Definition sample_sha (s : jstr) : jstr :=
  take 64 (js_int (Z.of_N (foldl (fun h u => (h * 31 + u) mod 1000000007)%N 7%N s)) ++ replicate 64 97%N).
Definition package_files (root name : string) (servers : value) : list (jstr * jstr) :=
  let file p := js root ++ js p in
  [(file "/.codex-plugin/plugin.json"%string, sample_stringify (VObject
      [(js "name", VString (js name)); (js "version", VString (js "1.0.0")); (js "description", VString (js "A test"));
       (js "mcpServers", VString (js "./.mcp.json")); (js "skills", VString (js "./skills/")); (js "harness", VString (js "harness.json"))]));
   (file "/.mcp.json"%string, sample_stringify servers); (file "/harness.json"%string, sample_stringify extension);
   (file "/skills/review/SKILL.md"%string, js "# Review")].
Definition package_dirs (root : string) : list (jstr * list Dirent) := [(js root ++ js "/skills", [{| d_name := js "review"; d_kind := Directory |}])].
Definition local_server (command : string) : value := VObject [(js "command", VString (js command))].
Definition sample_packages : FileSystem := PluginPackage.disk
  (package_files "/one" "one" servers ++ package_files "/two" "two" (VObject [(js "shared", VObject [(js "command", VString (js "node")); (js "args", VArray [VString (js "x.js")])])])
   ++ package_files "/twins" "twins" (VObject [(js "a", local_server "node"); (js "b", local_server "node")]))
  (package_dirs "/one" ++ package_dirs "/two" ++ package_dirs "/twins") (fun p => p).

(** The extensions and the files as the calls left them *)
Definition set_enabled (e : jstr) (flag : bool) (x : McpExtensionView) : McpExtensionView :=
  if bool_decide (e_id x = e) then {| e_id := e_id x; e_namespace := e_namespace x; e_source := e_source x; e_transport := e_transport x;
                                      e_authType := e_authType x; e_enabled := flag |} else x.
Definition new_extension (i : McpExtensionInstallInput) : McpExtensionView :=
  {| e_id := in_id i; e_namespace := in_namespace i; e_source := in_source i; e_transport := in_transport i; e_authType := in_authType i; e_enabled := false |}.
Definition extensions_after : Log -> list McpExtensionView := foldl (fun l c =>
  match c with
  | McpInstall i => l ++ [new_extension i]
  | McpEnable e => map (set_enabled e true) l
  | McpDisable e => map (set_enabled e false) l
  | McpRemove e => filter (fun x => e_id x <> e) l
  | _ => l
  end) [].
Definition in_directory (d p : jstr) : bool := starts_with p (d ++ [SLASH]).
Definition files_after : Log -> list (jstr * jstr) := foldl (fun l c =>
  match c with
  | FsWrite p x => l ++ [(p, x)]
  | FsRemove d => filter (fun f => in_directory d f.1 = false) l
  | FsRename a b => map (fun f => if in_directory a f.1 then (b ++ drop (length a) f.1, f.2) else f) l
  | _ => l
  end) [].
(** The runtime fails when it is called for the time [n]. *)
Definition is_materialize (c : call) : bool := match c with Materialize _ => true | _ => false end.
Definition materialized (log : Log) : nat := length (filter (fun c => is_materialize c = true) log).
Definition sample_outside (fails : nat -> bool) : Outside := {|
  o_list := fun log => Ok (extensions_after log); o_install := fun _ i => Ok (new_extension i);
  o_tools := fun _ _ => Ok [{| t_originalName := js "t"; t_enabled := true; t_automatic := false |}];
  o_authorization := fun _ _ => Ok auth_not_required; o_files := fun _ => sample_packages; o_write := fun _ => NoFault;
  o_read := fun log p => match find (fun f => bool_decide (f.1 = p)) (files_after log) with Some f => Ok f.2 | None => fail "ENOENT" end;
  o_workspaces := fun _ => Ok [(js "w", [js "react"])];
  o_do := fun log c => match c with Materialize _ => if fails (materialized log) then fail "The daemon is not reachable" else Ok tt | _ => Ok tt end;
  o_now := fun log => Z.of_nat (length log) |}.
Definition sample_config : Config := {|
  cwd := js "/"; pid := js "1"; registryPath := js "/registry.json"; skillPolicyPath := js "/policy.json"; skillStoreRoot := js "/store/skills";
  marketplaceCacheRoot := js "/store/cache"; repositoryRoot := None; pluginRegistryUrl := DEFAULT_PLUGIN_REGISTRY_URL;
  has_workspaces := true; has_runtime := true |}.
Definition sample_world : World := {|
  registry := {| PluginRegistry.disk := ∅; snapshot := PluginRegistry.empty |}; skillPolicies := SkillPolicy.sample_store;
  initialized := false; calls := [] |}.
Definition never (n : nat) : bool := false.
Definition run_sample (fails : nat -> bool) (ops : list operation) (w : World) : World :=
  run sample_parse sample_stringify sample_url href sample_sha jstr_compare (sample_outside fails) sample_config ops w.
Definition install_both : list operation := [Install (js "/one") local; Install (js "/two") local].
Example both_are_installed : let s := memory (run_sample never install_both sample_world) in
  map (fun p => (id p, length (mcpExtensionIds p))) (plugins s) = [(js "one", 2%nat); (js "two", 1%nat)] /\
  map owners (mcpOwnership s) = [[js "one"]; [js "one"; js "two"]].
Proof. vm_compute. done. Qed.

Abbreviation sample_run := (run sample_parse sample_stringify sample_url href sample_sha jstr_compare).
Abbreviation sample_install := (installLocal sample_parse sample_stringify sample_url href sample_sha jstr_compare).
Lemma sample_ready : ready sample_parse sample_config sample_world.
Proof. intros s Hs. injection Hs as <-. split; [constructor|constructor|]. intros p e. split; intros (x & H & _); by apply not_elem_of_nil in H. Qed.
Lemma owners_are_the_listing_plugins_witness :
  let w := run_sample never (install_both ++ [Remove (js "one")]) sample_world in
  initialized w = true /\ NoDup (map id (plugins (memory w))).
Proof.
  cbv zeta. assert (Hi : initialized (run_sample never (install_both ++ [Remove (js "one")]) sample_world) = true) by (vm_compute; reflexivity).
  split; [exact Hi|].
  exact (proj1 (proj2 (owners_are_the_listing_plugins sample_parse sample_stringify sample_url href sample_sha jstr_compare
    (sample_outside never) sample_config _ sample_world sample_ready Hi))).
Defined.

(** Both plugins are installed and share an extension. *)
Definition both_world (fails : nat -> bool) : World := run_sample fails install_both sample_world.
Lemma both_running fails : initialized (both_world fails) = true -> running (both_world fails).
Proof. apply (running_run _ _ _ _ _ _ _ _ install_both sample_world), sample_ready. Qed.
Lemma others_are_left_alone_witness : exists l,
  calls (perform sample_parse sample_stringify sample_url href sample_sha jstr_compare (sample_outside never) sample_config (Remove (js "one")) (both_world never)).2 =
    calls (both_world never) ++ l.
Proof.
  assert (Hw : running (both_world never)) by (apply both_running; vm_compute; reflexivity).
  destruct (proj1 (others_are_left_alone sample_parse sample_stringify sample_url href sample_sha jstr_compare (sample_outside never) sample_config
    (both_world never) Hw) (Remove (js "one"))) as (l & Hl & _). exists l. exact Hl.
Defined.
Lemma runtime_gets_the_reviewed_witness : let (r, w') :=
    materializeRuntime sample_parse sample_sha (sample_outside never) sample_config [] (both_world never) in memory w' = memory (both_world never).
Proof.
  assert (Hw : running (both_world never)) by (apply both_running; vm_compute; reflexivity).
  assert (Hp : SkillPolicy.initialized (skillPolicies (both_world never)) = true) by (vm_compute; reflexivity).
  pose proof (runtime_gets_the_reviewed sample_parse sample_url sample_sha jstr_compare (sample_outside never) sample_config [] (both_world never) Hw Hp eq_refl) as H.
  destruct (materializeRuntime _ _ _ _ _ _) as [r w']. exact (proj1 H).
Defined.

(** The runtime is not reachable when the second plugin is installed. *)
Definition third_fails (n : nat) : bool := (n =? 2)%nat.
Definition one_world : World := run_sample third_fails [Install (js "/one") local] sample_world.
Lemma one_restorable : restorable sample_stringify (memory one_world).
Proof.
  assert (Hv : validateRegistry (registry_value (memory one_world)) = Ok (memory one_world)) by (vm_compute; reflexivity).
  split; [exact (validateRegistry_ok _ _ Hv)|]. split; [apply paths_stable_check; vm_compute; reflexivity|].
  vm_compute. discriminate.
Qed.
Lemma failed_install_is_undone_witness : exists e w',
  sample_install (sample_outside third_fails) sample_config (js "/two") local one_world = (Throw e, w') /\ memory w' = memory one_world.
Proof.
  assert (Hw : running one_world).
  { apply (running_run sample_parse sample_stringify sample_url href sample_sha jstr_compare (sample_outside third_fails) sample_config
      [Install (js "/one") local] sample_world sample_ready). vm_compute. reflexivity. }
  assert (He : exists e, (sample_install (sample_outside third_fails) sample_config (js "/two") local one_world).1 = Throw e).
  { eexists. vm_compute. reflexivity. }
  destruct He as [e He]. exists e, (sample_install (sample_outside third_fails) sample_config (js "/two") local one_world).2.
  assert (E : sample_install (sample_outside third_fails) sample_config (js "/two") local one_world =
    (Throw e, (sample_install (sample_outside third_fails) sample_config (js "/two") local one_world).2)) by (rewrite <- He; apply surjective_pairing).
  split; [exact E|].
  destruct (proj2 (failed_install_is_undone sample_parse sample_stringify sample_url href sample_sha jstr_compare (sample_outside third_fails) sample_config
    (js "/two") local one_world e _ Hw E) one_restorable) as [H|(l & _ & Hl)]; [exact H|]. by destruct Hl.
Defined.

(** Two servers of a package with the same definition share one extension,
    which the record of the plugin then lists twice, so that the registry
    refuses it and the package cannot be installed. *)
Example twin_servers_are_refused :
  (sample_install (sample_outside never) sample_config (js "/twins") local sample_world).1 =
  err [js "plugin twins MCP ids contains duplicate "; hd [] (map in_id (omap (fun c => match c with McpInstall i => Some i | _ => None end)
    (calls (run_sample never [Install (js "/twins") local] sample_world))))].
Proof. vm_compute. reflexivity. Qed.
(** The extension manager takes only lower-case letters, digits, [_] and [-]
    in an id. *)
Example managed_id_keeps_capitals_and_dots : managedExtensionId
  {| m_id := js "My.Server"; m_transport := stdio (js "node") []; m_auth := auth_none; m_definitionHash := js "0123456789abcdef0123" |} =
  js "plugin-My.Server-0123456789abcdef".
Proof. vm_compute. reflexivity. Qed.
(** A removal that fails after the skills are gone puts the plugin back without
    them. From then on everything that materializes the runtime fails: a
    removal of the other plugin takes its skills too, and neither plugin can
    be removed or disabled any more. *)
Definition fourth_fails (n : nat) : bool := (n =? 3)%nat.
Definition stranded (ops : list operation) : list jstr := map id (plugins (memory (run_sample fourth_fails (install_both ++ ops) sample_world))).
Example failed_removal_strands_plugins :
  stranded [Remove (js "one")] = [js "one"; js "two"] /\
  stranded [Remove (js "one"); Remove (js "two"); Remove (js "one"); Disable (js "one"); Disable (js "two"); Remove (js "two")] = [js "one"; js "two"] /\
  Forall (fun p => enabled p = true) (plugins (memory (run_sample fourth_fails
    (install_both ++ [Remove (js "one"); Remove (js "two"); Remove (js "one"); Disable (js "one"); Disable (js "two")]) sample_world))).
Proof. split; [vm_compute; reflexivity|]. split; [vm_compute; reflexivity|]. vm_compute. repeat constructor. Qed.
End PluginManager.
