(* ===== verification/ActivityDiff.v ===== *)
(** * Unified diffs of the activity ledger (conversation-activity-store.ts)

    A progress event may carry the diff of several files. The ledger cuts it at
    its [diff --git] lines, one row per file, and counts the changed lines of
    each: no line is lost and the counts add up. *)

From S2P Require Import Prelude JsValue Path Regex.

Module ActivityDiff.

(** ** Definitions *)

Definition LF : N := 10.
Definition CR : N := 13.
Definition TAB : N := 9.

(** [value.replace(/\r\n/g, "\n")] *)
Fixpoint crlf_to_lf (s : jstr) : jstr :=
  match s with
  | [] => []
  | u :: t => if (u =? CR)%N && head_is (N.eqb LF) t then crlf_to_lf t else u :: crlf_to_lf t
  end.

(** [value.split(/\r?\n/)]: a carriage return before a line feed is dropped. *)
Definition strip_cr (line : jstr) : jstr :=
  if bool_decide (last line = Some CR) then slice_last line else line.
Fixpoint strip_crs (lines : list jstr) : list jstr :=
  match lines with
  | [] => []
  | [l] => [l]
  | l :: ls => strip_cr l :: strip_crs ls
  end.
Definition split_lines (s : jstr) : list jstr := strip_crs (split_char LF s).

(** [basename]: the text behind the last slash, or all of it when that is empty. *)
Definition basename (v : jstr) : jstr :=
  let normalized := map (fun u => if (u =? 92)%N then SLASH else u) v in
  let tail := default [] (last (split_char SLASH normalized)) in
  if truthy tail then tail else normalized.

Definition normalizeDiffPath (v : jstr) : jstr :=
  let trimmed := trim (default [] (head (split_char TAB (trim v)))) in
  if negb (truthy trimmed) || bool_decide (trimmed = js "/dev/null") then []
  else if starts_with trimmed (js "a/") || starts_with trimmed (js "b/") then slice_from 2 trimmed
  else trimmed.

Definition is_addition (line : jstr) : bool := starts_with line (js "+") && negb (starts_with line (js "+++")).
Definition is_deletion (line : jstr) : bool := starts_with line (js "-") && negb (starts_with line (js "---")).

Record Stats := { s_additions : Z; s_deletions : Z }.

Definition count_line (s : Stats) (line : jstr) : Stats :=
  if is_addition line then {| s_additions := s_additions s + 1; s_deletions := s_deletions s |}
  else if is_deletion line then {| s_additions := s_additions s; s_deletions := s_deletions s + 1 |}
  else s.
Definition diffStats (diff : jstr) : Stats :=
  fold_left count_line (split_lines diff) {| s_additions := 0; s_deletions := 0 |}.

Record Section_ := { path : jstr; diff : jstr }.

(** The local variables of [splitUnifiedDiffByFile]. *)
Record Splitting := { sections : list Section_; current : list jstr; oldPath : jstr; newPath : jstr }.

Definition flush (s : Splitting) : Splitting :=
  match current s with
  | [] => s
  | _ => {| sections := sections s ++ [ {| path := if truthy (newPath s) then newPath s else oldPath s;
                                           diff := join [LF] (current s) |} ];
            current := []; oldPath := []; newPath := [] |}
  end.

Definition starts_section (line : jstr) : bool := starts_with line (js "diff --git ").

(** One turn of the loop over the lines. *)
Definition split_line (s : Splitting) (line : jstr) : Splitting :=
  let s := if starts_section line && negb (bool_decide (current s = [])) then flush s else s in
  {| sections := sections s;
     current := current s ++ [line];
     oldPath := if starts_with line (js "--- ") then normalizeDiffPath (slice_from 4 line) else oldPath s;
     newPath := if starts_with line (js "+++ ") then normalizeDiffPath (slice_from 4 line) else newPath s |}.

Definition splitUnifiedDiffByFile (d : jstr) : list Section_ :=
  let lines := split_char LF (crlf_to_lf d) in
  let s := flush (fold_left split_line lines {| sections := []; current := []; oldPath := []; newPath := [] |}) in
  match sections s with [] => [ {| path := []; diff := d |} ] | l => l end.

(** ** Lines *)

Lemma split_char_cons_ne c u s : u <> c ->
  exists w ws, split_char c s = w :: ws /\ split_char c (u :: s) = (u :: w) :: ws.
Proof.
  intros Hne. cbn. destruct (split_char c s) as [|w ws] eqn:E.
  - by apply split_char_nonempty in E.
  - rewrite (proj2 (N.eqb_neq u c)) by done. eauto.
Qed.

Lemma split_char_cons_eq c s : split_char c (c :: s) = [] :: split_char c s.
Proof.
  cbn. destruct (split_char c s) as [|w ws] eqn:E.
  - by apply split_char_nonempty in E.
  - by rewrite N.eqb_refl.
Qed.

Lemma join_app sep a b : a <> [] -> b <> [] -> join sep (a ++ b) = join sep a ++ sep ++ join sep b.
Proof.
  intros Ha Hb. induction a as [|x a IH]; [done|]. destruct a as [|y a].
  - cbn [app]. destruct b; [done|]. reflexivity.
  - change (x ++ sep ++ join sep ((y :: a) ++ b) = (x ++ sep ++ join sep (y :: a)) ++ sep ++ join sep b).
    rewrite IH by done. by rewrite <- !app_assoc.
Qed.

Lemma join_concat sep (ls : list (list jstr)) : Forall (fun l => l <> []) ls ->
  join sep (map (join sep) ls) = join sep (concat ls).
Proof.
  induction 1 as [|l ls Hl Hls IH]; [done|]. destruct ls as [|l' ls].
  - cbn. by rewrite app_nil_r.
  - rewrite map_cons, concat_cons, join_app; [|done|].
    + rewrite <- IH. reflexivity.
    + apply Forall_cons in Hls as [Hl' _]. cbn. by destruct l'.
Qed.

(** ** The sections *)

(** What the loop has done with the lines before: the sections and the lines
    of the section it is in, cut where a [diff --git] line begins. *)
Definition well_cut (ls : list jstr) : Prop :=
  match ls with [] => False | _ :: tail => Forall (fun l => starts_section l = false) tail end.

Definition begins_section (ls : list jstr) : Prop := exists l, head ls = Some l /\ starts_section l = true.

Record split_ok (lines : list jstr) (s : Splitting) (cuts : list (list jstr)) : Prop := {
  ok_diffs : map diff (sections s) = map (join [LF]) cuts;
  ok_lines : concat (cuts ++ [current s]) = lines;
  ok_cuts : Forall well_cut (cuts ++ [current s]);
  ok_heads : Forall begins_section (tail (cuts ++ [current s])) }.

Lemma well_cut_snoc ls line : well_cut ls -> starts_section line = false -> well_cut (ls ++ [line]).
Proof. destruct ls as [|x ls]; [done|]. cbn. intros H1 H2. apply Forall_app. auto. Qed.

Lemma well_cut_nonempty ls : well_cut ls -> ls <> [].
Proof. by destruct ls. Qed.

Lemma flush_sections s : current s <> [] ->
  map diff (sections (flush s)) = map diff (sections s) ++ [join [LF] (current s)] /\ current (flush s) = [].
Proof. unfold flush. destruct (current s); [done|]. intros _. cbn. by rewrite map_app. Qed.

Lemma tail_snoc {A} (l : list A) x y : tail ((l ++ [x]) ++ [y]) = tail (l ++ [x]) ++ [y].
Proof. by destruct l. Qed.

Lemma split_line_ok lines s cuts line : split_ok lines s cuts ->
  exists cuts', split_ok (lines ++ [line]) (split_line s line) cuts'.
Proof.
  intros [H1 H2 H3 H4]. pose proof H3 as [_ Hc]%Forall_app. apply Forall_cons in Hc as [Hc _].
  pose proof (well_cut_nonempty _ Hc) as Hne.
  unfold split_line. rewrite (bool_decide_eq_false_2 _ Hne), andb_true_r.
  destruct (starts_section line) eqn:E.
  - destruct (flush_sections s Hne) as [Hs Hcur].
    exists (cuts ++ [current s]). rewrite Hcur. split; cbn.
    + by rewrite Hs, map_app, H1.
    + by rewrite concat_app, H2.
    + apply Forall_app. split; [done|]. repeat constructor.
    + rewrite tail_snoc. apply Forall_app. split; [done|]. constructor; [|done]. by exists line.
  - exists cuts. split; cbn; [done| | |].
    + rewrite <- H2, !concat_app. cbn. by rewrite !app_nil_r, app_assoc.
    + apply Forall_app in H3 as [H3 _]. apply Forall_app. split; [done|]. constructor; [|done].
      by apply well_cut_snoc.
    + destruct cuts as [|c cuts]; [done|]. cbn in *. apply Forall_app in H4 as [H4 H5].
      apply Forall_app. split; [done|]. constructor; [|done].
      apply Forall_cons in H5 as [(l & Hl & Hs) _]. exists l. destruct (current s); [done|]. by split.
Qed.

Lemma split_lines_ok rest : forall lines s cuts, split_ok lines s cuts ->
  exists cuts', split_ok (lines ++ rest) (fold_left split_line rest s) cuts'.
Proof.
  induction rest as [|line rest IH]; intros lines s cuts H.
  - exists cuts. by rewrite app_nil_r.
  - destruct (split_line_ok _ _ _ line H) as [cuts' H']. cbn.
    destruct (IH _ _ _ H') as [cuts'' H'']. exists cuts''. by rewrite <- app_assoc in H''.
Qed.

(** The sections are the cuts of the line sequence at its [diff --git] lines. *)
Lemma splitUnifiedDiffByFile_cuts d : exists cuts,
  map diff (splitUnifiedDiffByFile d) = map (join [LF]) cuts /\
  concat cuts = split_char LF (crlf_to_lf d) /\ cuts <> [] /\
  Forall well_cut cuts /\ Forall begins_section (tail cuts).
Proof.
  unfold splitUnifiedDiffByFile. pose proof (split_char_nonempty LF (crlf_to_lf d)) as Hne.
  destruct (split_char LF (crlf_to_lf d)) as [|line rest]; [done|]. cbn [fold_left].
  set (s0 := split_line _ line).
  assert (Hs0 : split_ok [line] s0 []).
  { unfold s0, split_line. cbn [current]. rewrite bool_decide_eq_true_2 by done. rewrite andb_false_r.
    split; cbn; [done|done| |done]. repeat constructor. }
  destruct (split_lines_ok rest _ _ _ Hs0) as [cuts [H1 H2 H3 H4]].
  set (s := fold_left split_line rest s0) in *.
  assert (Hcur : current s <> []).
  { apply Forall_app in H3 as [_ H3]. apply Forall_cons in H3 as [H3 _]. by apply well_cut_nonempty. }
  destruct (flush_sections s Hcur) as [Hs _].
  exists (cuts ++ [current s]). split_and!; [|done| |done|done].
  - rewrite map_app. cbn. rewrite <- H1, <- Hs. destruct (sections (flush s)) eqn:E; [|done].
    cbn in Hs. by destruct (map diff (sections s)).
  - by destruct cuts.
Qed.

(** ** Counting lines *)

Fixpoint count (p : jstr -> bool) (ls : list jstr) : Z :=
  match ls with [] => 0 | l :: ls => Z.b2z (p l) + count p ls end.

Lemma count_app p a b : count p (a ++ b) = count p a + count p b.
Proof. induction a as [|x a IH]; cbn; [lia|]. rewrite IH. lia. Qed.

Lemma count_ext p q ls : (forall l, p l = q l) -> count p ls = count q ls.
Proof. intros H. induction ls as [|x ls IH]; cbn; [done|]. by rewrite IH, H. Qed.

(** The lines that count, whatever line ends they have. *)
Definition counted_deletion (l : jstr) : bool := negb (is_addition l) && is_deletion l.

Lemma count_line_fold ls : forall s, fold_left count_line ls s =
  {| s_additions := s_additions s + count is_addition ls; s_deletions := s_deletions s + count counted_deletion ls |}.
Proof.
  induction ls as [|l ls IH]; intros [a d]; cbn [fold_left count]; [f_equal; cbn; lia|].
  rewrite IH. unfold count_line, counted_deletion.
  destruct (is_addition l); [f_equal; cbn; lia|]. destruct (is_deletion l); f_equal; cbn; lia.
Qed.

Lemma starts_with_snoc_ne s p c : c ∉ p -> starts_with (s ++ [c]) p = starts_with s p.
Proof.
  revert p. induction s as [|u s IH]; intros [|x p] Hc; cbn; try done.
  - apply not_elem_of_cons in Hc as [Hx _].
    assert (H : (x =? c)%N = false) by (apply N.eqb_neq; congruence). by rewrite H.
  - apply not_elem_of_cons in Hc as [_ Hp]. by rewrite IH.
Qed.

Lemma strip_cr_starts l p : CR ∉ p -> starts_with (strip_cr l) p = starts_with l p.
Proof.
  intros Hp. unfold strip_cr. case_bool_decide as E; [|done].
  apply last_Some in E as [l' ->]. unfold slice_last. rewrite length_app. cbn.
  rewrite Nat.add_sub, take_app_length. symmetry. by apply starts_with_snoc_ne.
Qed.

Lemma strip_cr_addition l : is_addition (strip_cr l) = is_addition l.
Proof. unfold is_addition. by rewrite !strip_cr_starts by (vm_compute; set_solver). Qed.
Lemma strip_cr_deletion l : counted_deletion (strip_cr l) = counted_deletion l.
Proof.
  unfold counted_deletion. rewrite strip_cr_addition. f_equal. unfold is_deletion.
  by rewrite !strip_cr_starts by (vm_compute; set_solver).
Qed.

Lemma count_strip_crs p ls : (forall l, p (strip_cr l) = p l) -> count p (strip_crs ls) = count p ls.
Proof.
  intros H. induction ls as [|l ls IH]; [done|]. destruct ls as [|l' ls]; [done|].
  change (Z.b2z (p (strip_cr l)) + count p (strip_crs (l' :: ls)) = Z.b2z (p l) + count p (l' :: ls)).
  by rewrite H, IH.
Qed.

Lemma diffStats_spec d :
  diffStats d = {| s_additions := count is_addition (split_char LF d);
                   s_deletions := count counted_deletion (split_char LF d) |}.
Proof.
  unfold diffStats, split_lines. rewrite count_line_fold. cbn.
  by rewrite !count_strip_crs by auto using strip_cr_addition, strip_cr_deletion.
Qed.

(** Carriage returns at the ends of lines do not change what counts. *)
Lemma count_crlf p d : (forall l c, c = CR -> p (l ++ [c]) = p l) ->
  count p (split_char LF (crlf_to_lf d)) = count p (split_char LF d).
Proof.
  intros Hp.
  assert (H : exists w w' ws ws', split_char LF (crlf_to_lf d) = w :: ws /\ split_char LF d = w' :: ws' /\
    count p ws = count p ws' /\ (w' = w \/ (w' = w ++ [CR]))); [|].
  { induction d as [|u d IH].
    - exists [], [], [], []. cbn. auto.
    - destruct IH as (w & w' & ws & ws' & E & E' & Hc & Hw).
      cbn [crlf_to_lf]. destruct ((u =? CR)%N && head_is (N.eqb LF) d) eqn:Hb.
      + apply andb_prop in Hb as [->%N.eqb_eq Hd]. destruct d as [|v d]; [done|].
        apply (proj1 (N.eqb_eq LF v)) in Hd as <-. rewrite split_char_cons_eq in E'. simplify_eq.
        cbn [crlf_to_lf] in E |- *. change (LF =? CR)%N with false in *. cbn [andb] in *.
        rewrite split_char_cons_eq in E |- *. simplify_eq.
        destruct (split_char_cons_ne LF CR (LF :: d) ltac:(done)) as (w & ws & E & ->).
        rewrite split_char_cons_eq in E. simplify_eq. eexists _, _, _, _. split_and!; [done..|].
        by right.
      + destruct (decide (u = LF)) as [->|Hne].
        * rewrite !split_char_cons_eq, E, E'. eexists _, _, _, _. split_and!; [done..| |by left].
          cbn. rewrite Hc. destruct Hw as [->| ->]; [done|]. by rewrite Hp.
        * destruct (split_char_cons_ne LF u (crlf_to_lf d) Hne) as (x & xs & Ex & ->).
          destruct (split_char_cons_ne LF u d Hne) as (y & ys & Ey & ->).
          rewrite E in Ex. rewrite E' in Ey. injection Ex as <- <-. injection Ey as <- <-.
          exists (u :: w), (u :: w'), ws, ws'. split_and!; [reflexivity..|exact Hc|]. destruct Hw as [->| ->]; [by left|by right]. }
  destruct H as (w & w' & ws & ws' & -> & -> & Hc & Hw). cbn. rewrite Hc.
  destruct Hw as [->| ->]; [done|]. by rewrite Hp.
Qed.

Lemma snoc_CR_addition l c : c = CR -> is_addition (l ++ [c]) = is_addition l.
Proof. intros ->. unfold is_addition. by rewrite !starts_with_snoc_ne by (vm_compute; set_solver). Qed.
Lemma snoc_CR_deletion l c : c = CR -> counted_deletion (l ++ [c]) = counted_deletion l.
Proof.
  intros ->. unfold counted_deletion. rewrite snoc_CR_addition by done. f_equal.
  unfold is_deletion. by rewrite !starts_with_snoc_ne by (vm_compute; set_solver).
Qed.

Lemma count_concat p lss : count p (concat lss) = foldr (fun ls n => count p ls + n) 0 lss.
Proof. induction lss as [|ls lss IH]; cbn; [done|]. by rewrite count_app, IH. Qed.

Lemma count_cuts p cuts : Forall (fun c => split_char LF (join [LF] c) = c) cuts ->
  foldr (fun d n => count p (split_char LF d) + n) 0 (map (join [LF]) cuts) = count p (concat cuts).
Proof. rewrite count_concat. induction 1 as [|c cs Hc _ IH]; cbn; [done|]. by rewrite Hc, IH. Qed.

Definition total (f : Stats -> Z) (ds : list jstr) : Z := foldr (fun d n => f (diffStats d) + n) 0 ds.

Lemma total_additions ds :
  total s_additions ds = foldr (fun d n => count is_addition (split_char LF d) + n) 0 ds.
Proof. induction ds as [|d ds IH]; [done|]. cbn [total foldr]. fold (total s_additions ds). by rewrite IH, diffStats_spec. Qed.
Lemma total_deletions ds :
  total s_deletions ds = foldr (fun d n => count counted_deletion (split_char LF d) + n) 0 ds.
Proof. induction ds as [|d ds IH]; [done|]. cbn [total foldr]. fold (total s_deletions ds). by rewrite IH, diffStats_spec. Qed.

(** Cutting a diff loses nothing. The sections, joined by line feeds, are
    the diff with its line ends normalised; there is at least one; each but
    the first begins with a [diff --git] line and none contains another; and
    the added and deleted lines of the sections add up to those of the diff. *)
Theorem diff_split_exact d :
  let ds := map diff (splitUnifiedDiffByFile d) in
  ds <> [] /\
  join [LF] ds = crlf_to_lf d /\
  Forall (fun s => well_cut (split_char LF s)) ds /\
  Forall (fun s => begins_section (split_char LF s)) (tail ds) /\
  total s_additions ds = s_additions (diffStats d) /\
  total s_deletions ds = s_deletions (diffStats d).
Proof.
  cbn. destruct (splitUnifiedDiffByFile_cuts d) as (cuts & -> & Hl & Hne & Hw & Hb).
  assert (Hno : Forall (Forall (fun l => LF ∉ l)) cuts).
  { apply Forall_concat. rewrite Hl. apply Forall_forall, split_char_no_sep. }
  assert (Hsplit : forall c, well_cut c -> Forall (fun l => LF ∉ l) c -> split_char LF (join [LF] c) = c).
  { intros c Hc Hn. apply split_char_join; [by apply well_cut_nonempty | done]. }
  assert (Hall : Forall (fun c => split_char LF (join [LF] c) = c) cuts).
  { apply Forall_forall. intros c Hc. rewrite Forall_forall in Hw, Hno. auto. }
  split_and!.
  - by destruct cuts.
  - rewrite join_concat, Hl; [apply join_split_char|].
    exact (Forall_impl _ _ _ Hw well_cut_nonempty).
  - apply Forall_fmap. eapply Forall_impl; [exact (proj2 (Forall_and _ _) (conj Hw Hall))|].
    intros c [H1 H2]. cbn. by rewrite H2.
  - destruct cuts as [|c cuts]; [done|]. cbn in *. apply Forall_cons in Hall as [_ Hall].
    apply Forall_fmap. eapply Forall_impl; [exact (proj2 (Forall_and _ _) (conj Hb Hall))|].
    intros c' [H1 H2]. cbn. by rewrite H2.
  - rewrite total_additions, diffStats_spec, (count_cuts is_addition), Hl by done. cbn.
    apply count_crlf, snoc_CR_addition.
  - rewrite total_deletions, diffStats_spec, (count_cuts counted_deletion), Hl by done. cbn.
    apply count_crlf, snoc_CR_deletion.
Qed.

(** A deleted line of a hunk that itself begins with two dashes (a comment of
    SQL, Lua or Haskell) is taken for the file header: the row is named after
    the comment, and the line is not counted. *)
Definition sql_diff : jstr := join [LF] (map js
  ["diff --git a/q.sql b/q.sql"; "deleted file mode 100644"; "--- a/q.sql"; "+++ /dev/null";
   "@@ -1,2 +0,0 @@"; "--- drop the index"; "-DROP INDEX i;"]).
Example hunk_line_taken_for_header :
  map path (splitUnifiedDiffByFile sql_diff) = [js "drop the index"] /\ s_deletions (diffStats sql_diff) = 1.
Proof. vm_compute. done. Qed.

End ActivityDiff.
