(* ===== verification/ActivityEvents.v ===== *)
(** * Activities and log events of the timeline (conversation-activity-store.ts)

    A progress event of Codex or of the ChatGPT conversation becomes an
    activity, the row of the timeline it belongs to, and one or more log
    events. [mergeActivity] merges an activity into its row as it streams,
    [mergeActivityFromLog] as the log is replayed; on [faithful] events the two
    agree. [sha1] (the hex digest of [node:crypto]) and
    [Date.prototype.toISOString] are arguments. *)

From S2P Require Import Prelude JsValue Regex ActivityDiff.
Import ActivityDiff.

Module ActivityEvents.

(** ** Data *)

Inductive Source := codex | chatgpt.
Inductive Kind := response | reasoning | command_kind | file | tool.
Inductive Stage := started | streaming | completed | failed.
Inductive ChatActivityEventType :=
| assistant_text_delta | reasoning_delta | tool_call_started | tool_call_args | tool_call_output_delta
| tool_call_finished | command_started | command_output_delta | command_finished | file_changed
| file_diff | status_event.

#[export] Instance Source_eq_dec : EqDecision Source. Proof. solve_decision. Defined.
#[export] Instance Kind_eq_dec : EqDecision Kind. Proof. solve_decision. Defined.
#[export] Instance Stage_eq_dec : EqDecision Stage. Proof. solve_decision. Defined.
#[export] Instance ChatActivityEventType_eq_dec : EqDecision ChatActivityEventType. Proof. solve_decision. Defined.

(** The optional fields that activities, log events and Codex progress share;
    [None] is an absent field. *)
Record Details := {
  text : option jstr; command : option jstr; cwd : option jstr; functionName : option jstr;
  parameters : option jstr; output : option jstr; diff : option jstr; filePath : option jstr;
  additions : option num; deletions : option num; status : option jstr;
  exitCode : option num; durationMs : option num }.

(** [DesktopHarnessCodexActivityView] *)
Record Activity := {
  id : jstr; source : Source; runId : jstr; workspace : jstr; threadId : option jstr; turnId : jstr;
  itemId : option jstr; kind : Kind; stage : Stage; label : jstr; createdAt : jstr; updatedAt : jstr;
  position : Z; details : Details }.

Record ChatActivityEvent := {
  e_id : jstr; e_messageId : jstr; e_turnId : jstr; e_sequence : Z; e_createdAt : jstr;
  e_parentId : option jstr; e_groupId : option jstr; e_activityId : jstr; e_source : Source;
  e_runId : jstr; e_workspace : jstr; e_threadId : option jstr; e_itemId : option jstr; e_position : Z;
  e_type : ChatActivityEventType; e_kind : Kind; e_stage : Stage; e_label : jstr;
  e_details : Details; e_toolName : option jstr; e_result : option jstr }.

Record CodexProgress := {
  x_runId : jstr; x_workspace : jstr; x_threadId : option jstr; x_turnId : jstr; x_itemId : jstr;
  x_kind : Kind; x_stage : Stage; x_label : jstr; x_details : Details;
  x_activityId : option jstr; x_position : option num; x_createdAt : option num }.

Inductive ChatGptKind := g_response | g_reasoning | g_tool | g_diff.
#[export] Instance ChatGptKind_eq_dec : EqDecision ChatGptKind. Proof. solve_decision. Defined.

Record ChatGptProgress := {
  c_taskId : jstr; c_runId : jstr; c_workspace : jstr; c_kind : ChatGptKind; c_text : jstr;
  c_generating : option bool; c_stage : option jstr; c_itemId : option jstr; c_input : option jstr;
  c_output : option jstr; c_durationMs : option num; c_functionName : option jstr;
  c_parameters : option jstr; c_filePath : option jstr; c_additions : option num;
  c_deletions : option num; c_activityId : option jstr; c_position : option num;
  c_createdAt : option num }.

Inductive ProgressEvent := chatgpt_progress (g : ChatGptProgress) | codex_progress (x : CodexProgress).

(** ** Reading optional fields *)

(** [...(v ? { v } : {})] *)
Definition if_truthy (o : option jstr) : option jstr :=
  match o with Some s => if truthy s then Some s else None | None => None end.
(** [a ?? b] *)
Definition nullish {A} (a b : option A) : option A := match a with Some _ => a | None => b end.
(** [a || b] *)
Definition or_text (a : option jstr) (b : jstr) : jstr := default b (if_truthy a).

(** ** Bounds *)

Definition MAX_TEXT_CHARS : Z := 160000.
Definition ELLIPSIS : N := 0x2026.

(** The end of a text that is too long, behind an ellipsis. *)
Definition bounded (v : jstr) : jstr :=
  if slen v <=? MAX_TEXT_CHARS then v else slice_from (Z.to_nat (slen v - MAX_TEXT_CHARS + 1)) v ++ [ELLIPSIS].

Definition compact (d : Details) : Details := {|
  text := bounded <$> text d; command := bounded <$> command d; cwd := cwd d;
  functionName := functionName d; parameters := bounded <$> parameters d; output := bounded <$> output d;
  diff := bounded <$> diff d; filePath := filePath d; additions := additions d;
  deletions := deletions d; status := status d; exitCode := exitCode d; durationMs := durationMs d |}.

Definition with_details (d : Details) (a : Activity) : Activity := {|
  id := id a; source := source a; runId := runId a; workspace := workspace a; threadId := threadId a;
  turnId := turnId a; itemId := itemId a; kind := kind a; stage := stage a; label := label a;
  createdAt := createdAt a; updatedAt := updatedAt a; position := position a; details := d |}.

Definition compactActivity (a : Activity) : Activity := with_details (compact (details a)) a.

Definition compactEvent (e : ChatActivityEvent) : ChatActivityEvent := {|
  e_id := e_id e; e_messageId := e_messageId e; e_turnId := e_turnId e; e_sequence := e_sequence e;
  e_createdAt := e_createdAt e; e_parentId := e_parentId e; e_groupId := e_groupId e;
  e_activityId := e_activityId e; e_source := e_source e; e_runId := e_runId e;
  e_workspace := e_workspace e; e_threadId := e_threadId e; e_itemId := e_itemId e;
  e_position := e_position e; e_type := e_type e; e_kind := e_kind e; e_stage := e_stage e;
  e_label := e_label e; e_details := compact (e_details e); e_toolName := e_toolName e;
  e_result := bounded <$> e_result e |}.

(** ** Labels and stages of ChatGPT progress *)

Definition spaced_dot : regex := seqs [plus space; one 0xB7; plus space].
(** [value.split(regex, 1)[0]]: the text before the first match *)
Definition before_first (r : regex) (s : jstr) : jstr :=
  match exec r s with Some (start, _) => reverse (before start) | None => s end.

Definition chatGptLabel (g : ChatGptProgress) : jstr :=
  match c_kind g with
  | g_response => js "Response"
  | g_reasoning => or_text (Some (slice_to 180 (default [] (head (split_char LF (trim (c_text g))))))) (js "Working")
  | g_diff => match if_truthy (c_filePath g) with
              | Some p => js "Edited " ++ basename p
              | None => js "Changed files"
              end
  | g_tool => or_text (Some (trim (before_first spaced_dot (c_text g)))) (or_text (c_functionName g) (js "Tool call"))
  end.

Definition chatGptStage (g : ChatGptProgress) : Stage :=
  let stage := default [] (c_stage g) in
  if bool_decide (c_kind g = g_response)
  then if bool_decide (c_generating g = Some false) then completed else streaming
  else if test (alts [ilit "failed"; ilit "blocked"; ilit "error"]) stage then failed
  else if test (alts [ilit "result"; ilit "completed"; ilit "success"]) stage then completed
  else if test (ilit "stream") stage then streaming
  else if bool_decide (c_kind g = g_diff) || bool_decide (c_kind g = g_reasoning) then completed
  else started.

Definition chatGptTurnId (g : ChatGptProgress) : jstr := js "chatgpt-review:" ++ c_taskId g.

Definition chatGptToolIdentity (g : ChatGptProgress) : jstr :=
  trim (or_text (c_functionName g) (chatGptLabel g)).
Definition chatGptParameters (g : ChatGptProgress) : jstr :=
  trim (or_text (c_parameters g) (or_text (c_input g) [])).
Definition chatGptToolSignature (g : ChatGptProgress) : jstr :=
  chatGptToolIdentity g ++ [LF] ++ chatGptParameters g.
Definition chatGptActivityToolIdentity (a : Activity) : jstr := trim (or_text (functionName (details a)) (label a)).
Definition chatGptActivityToolSignature (a : Activity) : jstr :=
  chatGptActivityToolIdentity a ++ [LF] ++ trim (or_text (parameters (details a)) []).

Definition kind_name (k : Kind) : jstr :=
  js match k with response => "response" | reasoning => "reasoning" | command_kind => "command"
     | file => "file" | tool => "tool" end.
Definition chatgpt_kind_name (k : ChatGptKind) : jstr :=
  js match k with g_response => "response" | g_reasoning => "reasoning" | g_tool => "tool" | g_diff => "diff" end.
Definition type_name (t : ChatActivityEventType) : jstr :=
  js match t with
     | assistant_text_delta => "assistant_text_delta" | reasoning_delta => "reasoning_delta"
     | tool_call_started => "tool_call_started" | tool_call_args => "tool_call_args"
     | tool_call_output_delta => "tool_call_output_delta" | tool_call_finished => "tool_call_finished"
     | command_started => "command_started" | command_output_delta => "command_output_delta"
     | command_finished => "command_finished" | file_changed => "file_changed" | file_diff => "file_diff"
     | status_event => "status" end.

(** Template literals: the parts joined by colons. *)
Definition colons (parts : list jstr) : jstr := join [58%N] parts.

Definition event_activityId (e : ProgressEvent) : option jstr :=
  match e with chatgpt_progress g => c_activityId g | codex_progress x => x_activityId x end.
Definition event_position (e : ProgressEvent) : option num :=
  match e with chatgpt_progress g => c_position g | codex_progress x => x_position x end.
Definition event_createdAt (e : ProgressEvent) : option num :=
  match e with chatgpt_progress g => c_createdAt g | codex_progress x => x_createdAt x end.

(** ** From progress to activities *)

Section events.
Context (sha1 : jstr -> jstr).

Definition progressActivityId (e : ProgressEvent) : jstr :=
  match if_truthy (event_activityId e) with
  | Some id => id
  | None =>
      match e with
      | codex_progress x =>
          colons [js "codex"; default (x_runId x) (x_threadId x); x_turnId x; x_itemId x; kind_name (x_kind x)]
      | chatgpt_progress g =>
          let prefix := [js "chatgpt"; c_runId g; c_taskId g] in
          if bool_decide (c_kind g = g_diff) then
            colons (prefix ++ [js "diff"; slice_to 12 (sha1 (or_text (c_filePath g) (js "working-tree")))])
          else match if_truthy (c_itemId g) with
          | Some item => colons (prefix ++ [chatgpt_kind_name (c_kind g); item])
          | None =>
              if bool_decide (c_kind g = g_response) then colons (prefix ++ [js "response"])
              else colons (prefix ++ [chatgpt_kind_name (c_kind g);
                slice_to 12 (sha1 (colons [chatgpt_kind_name (c_kind g); default [] (c_stage g);
                                           chatGptLabel g; c_text g]))])
          end
      end
  end.

(** [splitUnifiedDiffByFile] applied to the diff of an event: one event per
    file, with its path and its line counts. *)
Definition with_file (p : jstr) (s : Stats) (d : Details) : Details := {|
  text := text d; command := command d; cwd := cwd d; functionName := functionName d;
  parameters := parameters d; output := output d; diff := diff d;
  filePath := if truthy p then Some p else filePath d;
  additions := Some (NInt (s_additions s)); deletions := Some (NInt (s_deletions s));
  status := status d; exitCode := exitCode d; durationMs := durationMs d |}.
Definition with_diff (t : jstr) (d : Details) : Details := {|
  text := text d; command := command d; cwd := cwd d; functionName := functionName d;
  parameters := parameters d; output := output d; diff := Some t; filePath := filePath d;
  additions := additions d; deletions := deletions d;
  status := status d; exitCode := exitCode d; durationMs := durationMs d |}.

Definition codex_file (x : CodexProgress) (item : jstr) (p : jstr) (d : Details) : CodexProgress := {|
  x_runId := x_runId x; x_workspace := x_workspace x; x_threadId := x_threadId x; x_turnId := x_turnId x;
  x_itemId := item; x_kind := x_kind x; x_stage := x_stage x;
  x_label := if truthy p then js "Edited " ++ basename p else x_label x;
  x_details := d; x_activityId := x_activityId x; x_position := x_position x; x_createdAt := x_createdAt x |}.

Definition chatgpt_file (g : ChatGptProgress) (item : option jstr) (t : jstr) (p : jstr) (s : Stats) : ChatGptProgress := {|
  c_taskId := c_taskId g; c_runId := c_runId g; c_workspace := c_workspace g; c_kind := c_kind g; c_text := t;
  c_generating := c_generating g; c_stage := c_stage g; c_itemId := item; c_input := c_input g;
  c_output := c_output g; c_durationMs := c_durationMs g; c_functionName := c_functionName g;
  c_parameters := c_parameters g; c_filePath := if truthy p then Some p else c_filePath g;
  c_additions := Some (NInt (s_additions s)); c_deletions := Some (NInt (s_deletions s));
  c_activityId := c_activityId g; c_position := c_position g; c_createdAt := c_createdAt g |}.

(** One section of several: the item is named by the file, or by its index. *)
Definition section_event (e : ProgressEvent) (index : nat) (s : Section_) : ProgressEvent :=
  let stats := diffStats (ActivityDiff.diff s) in
  let subject := if truthy (path s) then path s else js_int (Z.of_nat index) in
  let suffix := slice_to 10 (sha1 subject) in
  match e with
  | codex_progress x =>
      codex_progress (codex_file x (x_itemId x ++ js ":file:" ++ suffix) (path s)
        (with_file (path s) stats (with_diff (ActivityDiff.diff s) (x_details x))))
  | chatgpt_progress g =>
      chatgpt_progress (chatgpt_file g (Some (js "diff-file:" ++ suffix)) (ActivityDiff.diff s) (path s) stats)
  end.

Definition event_diff (e : ProgressEvent) : option jstr :=
  match e with
  | codex_progress x => if bool_decide (x_kind x = file) then diff (x_details x) else None
  | chatgpt_progress g => if bool_decide (c_kind g = g_diff) then Some (c_text g) else None
  end.

Definition normalizeProgressEvents (e : ProgressEvent) : list ProgressEvent :=
  match if_truthy (event_diff e) with
  | None => [e]
  | Some d =>
      match splitUnifiedDiffByFile d with
      | [] => [e]
      | [only] =>
          let stats := diffStats (ActivityDiff.diff only) in
          match e with
          | codex_progress x => [codex_progress (codex_file x (x_itemId x) (path only) (with_file (path only) stats (x_details x)))]
          | chatgpt_progress g => [chatgpt_progress (chatgpt_file g (c_itemId g) (c_text g) (path only) stats)]
          end
      | sections => imap (section_event e) sections
      end
  end.

(** The guards [...(v ? { v } : {})] on every text field *)
Definition truthy_only (d : Details) : Details := {|
  text := if_truthy (text d); command := if_truthy (command d); cwd := if_truthy (cwd d);
  functionName := if_truthy (functionName d); parameters := if_truthy (parameters d);
  output := if_truthy (output d); diff := if_truthy (diff d); filePath := if_truthy (filePath d);
  additions := additions d; deletions := deletions d; status := if_truthy (status d);
  exitCode := exitCode d; durationMs := durationMs d |}.

(** [createdAt] is [new Date(now).toISOString()]. *)
Definition activityFromEvent (e : ProgressEvent) (createdAt : jstr) (activityId : jstr) (position : Z) : Activity :=
  match e with
  | codex_progress x => compactActivity {|
      id := activityId; source := codex; runId := x_runId x; workspace := x_workspace x;
      threadId := if_truthy (x_threadId x); turnId := x_turnId x; itemId := Some (x_itemId x);
      kind := x_kind x; stage := x_stage x; label := x_label x; createdAt := createdAt; updatedAt := createdAt;
      position := position; details := truthy_only (x_details x) |}
  | chatgpt_progress g => compactActivity {|
      id := activityId; source := chatgpt; runId := c_runId g; workspace := c_workspace g;
      threadId := None; turnId := chatGptTurnId g; itemId := if_truthy (c_itemId g);
      kind := match c_kind g with g_response => response | g_reasoning => reasoning | g_tool => tool | g_diff => file end;
      stage := chatGptStage g; label := chatGptLabel g; createdAt := createdAt; updatedAt := createdAt;
      position := position;
      details := {|
        text := if bool_decide (c_kind g = g_response) || bool_decide (c_kind g = g_reasoning) then Some (c_text g) else None;
        command := None; cwd := None; functionName := if_truthy (c_functionName g);
        parameters := if_truthy (nullish (c_parameters g) (c_input g)); output := if_truthy (c_output g);
        diff := if bool_decide (c_kind g = g_diff) then Some (c_text g) else None;
        filePath := if_truthy (c_filePath g); additions := c_additions g; deletions := c_deletions g;
        status := if_truthy (c_stage g); exitCode := None; durationMs := c_durationMs g |} |}
  end.

(** ** From activities to log events *)

(** [push(type)]: the log event of an activity under the next sequence number *)
Definition log_event (a : Activity) (createdAt : jstr) (type : ChatActivityEventType) (sequence : Z) : ChatActivityEvent :=
  compactEvent {|
    e_id := colons [type_name type; id a; js_int sequence]; e_messageId := turnId a; e_turnId := turnId a;
    e_sequence := sequence; e_createdAt := createdAt; e_parentId := Some (id a);
    e_groupId := Some (colons [runId a; turnId a]); e_activityId := id a; e_source := source a;
    e_runId := runId a; e_workspace := workspace a; e_threadId := if_truthy (threadId a);
    e_itemId := if_truthy (itemId a); e_position := position a; e_type := type; e_kind := kind a;
    e_stage := stage a; e_label := label a; e_details := truthy_only (details a);
    e_toolName := if_truthy (functionName (details a)); e_result := if_truthy (output (details a)) |}.

(** The types of the log events an activity gives rise to, in order. (The
    finished tool call's [result] is the activity's output in any case.) *)
Definition log_types (a : Activity) : list ChatActivityEventType :=
  match kind a with
  | response => [assistant_text_delta]
  | reasoning => [reasoning_delta]
  | command_kind => match stage a with
      | started => [command_started]
      | streaming => [command_output_delta]
      | _ => [command_finished]
      end
  | file => if truthy_opt (diff (details a)) then [file_diff] else [file_changed]
  | tool =>
      let args := if truthy_opt (parameters (details a)) then [tool_call_args] else [] in
      match stage a with
      | started => tool_call_started :: args
      | streaming => [tool_call_output_delta]
      | _ => args ++ [tool_call_finished]
      end
  end.

Definition activityFromLogEvent (e : ChatActivityEvent) : Activity := compactActivity {|
  id := e_activityId e; source := e_source e; runId := e_runId e; workspace := e_workspace e;
  threadId := if_truthy (e_threadId e); turnId := e_turnId e; itemId := if_truthy (e_itemId e);
  kind := e_kind e; stage := e_stage e; label := e_label e; createdAt := e_createdAt e;
  updatedAt := e_createdAt e; position := e_position e;
  details := truthy_only {|
    text := text (e_details e); command := command (e_details e); cwd := cwd (e_details e);
    functionName := functionName (e_details e); parameters := parameters (e_details e);
    output := nullish (output (e_details e)) (e_result e); diff := diff (e_details e);
    filePath := filePath (e_details e); additions := additions (e_details e);
    deletions := deletions (e_details e); status := status (e_details e);
    exitCode := exitCode (e_details e); durationMs := durationMs (e_details e) |} |}.

Definition is_final (s : Stage) : bool := bool_decide (s = completed) || bool_decide (s = failed).

Definition snapshot_type (a : Activity) : ChatActivityEventType :=
  match kind a with
  | response => assistant_text_delta
  | reasoning => reasoning_delta
  | command_kind => if is_final (stage a) then command_finished else command_started
  | file => if truthy_opt (diff (details a)) then file_diff else file_changed
  | tool => if is_final (stage a) then tool_call_finished else tool_call_started
  end.
Definition snapshotActivityEvent (a : Activity) (sequence : Z) : ChatActivityEvent :=
  log_event a (createdAt a) (snapshot_type a) sequence.

(** ** Merging an activity into its row *)

Definition strongestActivityStage (left right : Stage) : Stage :=
  if bool_decide (left = failed) || bool_decide (right = failed) then failed
  else if bool_decide (left = completed) || bool_decide (right = completed) then completed
  else if bool_decide (left = streaming) || bool_decide (right = streaming) then streaming
  else started.

(** [...(i ? { v: f(i) } : p ? { v: p } : {})] over [{ ...previous, ...incoming }] *)
Definition pick (f : jstr -> jstr) (p i : option jstr) : option jstr :=
  match if_truthy i with
  | Some s => Some (f s)
  | None => match if_truthy p with Some s => Some s | None => nullish i p end
  end.
Definition append_or_replace (append : bool) (p : option jstr) (i : jstr) : jstr :=
  if append then bounded (default [] p ++ i) else bounded i.

(** What the two merges share. [status], [exitCode] and [durationMs] come from
    the spread in one of them and from a guard in the other. *)
Definition merge_details (appendText appendOutput : bool) (statusOf : option jstr -> option jstr -> option jstr)
    (p i : Details) : Details := {|
  text := pick (append_or_replace appendText (text p)) (text p) (text i);
  command := pick (fun s => s) (command p) (command i); cwd := pick (fun s => s) (cwd p) (cwd i);
  functionName := pick (fun s => s) (functionName p) (functionName i);
  parameters := pick (fun s => s) (parameters p) (parameters i);
  output := pick (append_or_replace appendOutput (output p)) (output p) (output i);
  diff := pick bounded (diff p) (diff i); filePath := pick (fun s => s) (filePath p) (filePath i);
  additions := nullish (additions i) (additions p); deletions := nullish (deletions i) (deletions p);
  status := statusOf (status p) (status i); exitCode := nullish (exitCode i) (exitCode p);
  durationMs := nullish (durationMs i) (durationMs p) |}.
Definition merged (appendText appendOutput : bool) (statusOf : option jstr -> option jstr -> option jstr)
    (previous incoming : Activity) : Activity := compactActivity {|
  id := id previous; source := source incoming; runId := runId incoming; workspace := workspace incoming;
  threadId := nullish (threadId incoming) (threadId previous); turnId := turnId incoming;
  itemId := nullish (itemId incoming) (itemId previous); kind := kind incoming;
  stage := strongestActivityStage (stage previous) (stage incoming); label := label incoming;
  createdAt := createdAt previous; updatedAt := updatedAt incoming; position := position previous;
  details := merge_details appendText appendOutput statusOf (details previous) (details incoming) |}.

Definition codex_streaming (e : ProgressEvent) : bool :=
  match e with codex_progress x => bool_decide (x_stage x = streaming) | _ => false end.
Definition is_text_kind (k : Kind) : bool := bool_decide (k = response) || bool_decide (k = reasoning).

Definition mergeActivity (previous incoming : Activity) (e : ProgressEvent) : Activity :=
  let appendDelta := codex_streaming e in
  merged (appendDelta && is_text_kind (kind incoming)) appendDelta (pick (fun s => s)) previous incoming.

Definition mergeActivityFromLog (previous incoming : Activity) (e : ChatActivityEvent) : Activity :=
  let appendText := (bool_decide (e_type e = assistant_text_delta) || bool_decide (e_type e = reasoning_delta))
                    && bool_decide (e_stage e = streaming) in
  let appendOutput := bool_decide (e_type e = command_output_delta) || bool_decide (e_type e = tool_call_output_delta) in
  merged appendText appendOutput (fun p i => nullish i p) previous incoming.

End events.

(** The row after a log event: a new one, or the merged old one. *)
Definition apply_row (row : option Activity) (e : ChatActivityEvent) : Activity :=
  match row with
  | None => activityFromLogEvent e
  | Some previous => mergeActivityFromLog previous (activityFromLogEvent e) e
  end.
(** The row after a progress event, live. *)
Definition upsert_row (row : option Activity) (a : Activity) (e : ProgressEvent) : Activity :=
  match row with None => a | Some previous => mergeActivity previous a e end.

(** ** Bounds *)

Lemma slen_app a b : slen (a ++ b) = slen a + slen b.
Proof. unfold slen. rewrite length_app. lia. Qed.

Lemma bounded_le v : slen (bounded v) <= MAX_TEXT_CHARS.
Proof.
  unfold bounded. destruct (slen v <=? MAX_TEXT_CHARS) eqn:E; to_prop; [done|].
  rewrite slen_app. unfold slice_from, slen in *. rewrite length_drop.
  unfold MAX_TEXT_CHARS in *. change (length [ELLIPSIS]) with 1%nat. lia.
Qed.

Lemma bounded_short v : slen v <= MAX_TEXT_CHARS -> bounded v = v.
Proof. intros H. unfold bounded. apply Z.leb_le in H. by rewrite H. Qed.

Lemma bounded_idem v : bounded (bounded v) = bounded v.
Proof. apply bounded_short, bounded_le. Qed.

Lemma bounded_truthy v : truthy (bounded v) = truthy v.
Proof.
  destruct v as [|u v]; [done|].
  unfold bounded. destruct (_ <=? _); [done|]. by destruct (slice_from _ _).
Qed.

(** ** Optional texts *)

Lemma if_truthy_idem o : if_truthy (if_truthy o) = if_truthy o.
Proof. destruct o as [s|]; [|done]. cbn. destruct (truthy s) eqn:E; cbn; by rewrite ?E. Qed.

Lemma if_truthy_fmap f (o : option jstr) : (forall s, truthy (f s) = truthy s) -> if_truthy (f <$> o) = f <$> if_truthy o.
Proof. intros Hf. destruct o as [s|]; [|done]. cbn. rewrite Hf. by destruct (truthy s). Qed.

Lemma if_truthy_bounded o : if_truthy (bounded <$> o) = bounded <$> if_truthy o.
Proof. apply if_truthy_fmap, bounded_truthy. Qed.

Lemma fmap_bounded_idem (o : option jstr) : bounded <$> (bounded <$> o) = bounded <$> o.
Proof. destruct o as [s|]; [|done]. cbn. by rewrite bounded_idem. Qed.

Lemma nullish_diag {A} (o : option A) : nullish o o = o.
Proof. by destruct o. Qed.

Lemma nullish_absorb {A} (i p : option A) : nullish i (nullish i p) = nullish i p.
Proof. by destruct i. Qed.

Lemma if_truthy_pick f p i : (forall s, truthy s = true -> truthy (f s) = true) ->
  if_truthy (pick f p i) = pick f (if_truthy p) (if_truthy i).
Proof.
  intros Hf. unfold pick. rewrite !if_truthy_idem.
  destruct i as [i|]; cbn; [destruct (truthy i) eqn:Ei; cbn; [by rewrite Hf|]|];
    (destruct p as [p|]; cbn; [destruct (truthy p) eqn:Ep; cbn; rewrite ?Ei, ?Ep; done|]); cbn; by rewrite ?Ei.
Qed.

Lemma if_truthy_pick_id p i : if_truthy (pick (fun s => s) p i) = nullish (if_truthy i) (if_truthy p).
Proof.
  rewrite if_truthy_pick by done. unfold pick. rewrite !if_truthy_idem.
  destruct (if_truthy i), (if_truthy p); done.
Qed.

Lemma pick_None f p : if_truthy p = p -> pick f p None = p.
Proof. intros H. unfold pick. cbn. rewrite H. by destruct p. Qed.

Lemma pick_ext f g p i : (truthy_opt i = true -> forall s, f s = g s) -> pick f p i = pick g p i.
Proof.
  intros H. unfold pick. destruct i as [i|]; [|done]. cbn in *. destruct (truthy i) eqn:E; [|done].
  by rewrite H.
Qed.

(** ** Tidy activities

    An activity whose empty texts count as absent: what the guards of the
    log keep of it. *)
Definition tidy (a : Activity) : Activity := {|
  id := id a; source := source a; runId := runId a; workspace := workspace a;
  threadId := if_truthy (threadId a); turnId := turnId a; itemId := if_truthy (itemId a);
  kind := kind a; stage := stage a; label := label a; createdAt := createdAt a; updatedAt := updatedAt a;
  position := position a; details := truthy_only (details a) |}.

Definition bounded_details (d : Details) : Prop := compact d = d.
(** An activity as [activityFromEvent] makes it *)
Definition fresh (a : Activity) : Prop := bounded_details (details a) /\ updatedAt a = createdAt a.

Lemma compact_bounded d : bounded_details (compact d).
Proof. unfold bounded_details, compact. cbn. by rewrite !fmap_bounded_idem. Qed.

Lemma compact_truthy d : compact (truthy_only d) = truthy_only (compact d).
Proof. unfold compact, truthy_only. cbn. by rewrite !if_truthy_bounded. Qed.

Lemma truthy_only_idem d : truthy_only (truthy_only d) = truthy_only d.
Proof. unfold truthy_only. cbn. by rewrite !if_truthy_idem. Qed.

Lemma activityFromEvent_fresh e ts i p : fresh (activityFromEvent e ts i p).
Proof. destruct e; split; cbn; (apply compact_bounded || done). Qed.

(** What a log event says of its activity: all of it, tidied. *)
Lemma activityFromLogEvent_log_event a t n : fresh a ->
  activityFromLogEvent (log_event a (createdAt a) t n) = tidy a.
Proof.
  intros [Hb Hu]. unfold activityFromLogEvent, compactActivity, with_details, tidy. cbn -[compact truthy_only].
  rewrite !if_truthy_idem, Hu. f_equal.
  transitivity (compact (truthy_only (compact (truthy_only (details a))))).
  - do 2 f_equal. unfold compact, truthy_only. cbn. by rewrite nullish_diag.
  - rewrite !compact_truthy, truthy_only_idem. unfold bounded_details in Hb. by rewrite !Hb.
Qed.

(** ** Live merging and replay agree *)

Lemma append_or_replace_truthy b p s : truthy s = true -> truthy (append_or_replace b p s) = true.
Proof.
  intros Hs. unfold append_or_replace. destruct b; rewrite bounded_truthy; [|done].
  destruct p as [[|u p]|]; cbn; done.
Qed.

Lemma default_if_truthy o : default [] (if_truthy o) = default [] o.
Proof. by destruct o as [[|u s]|]. Qed.

Lemma append_or_replace_tidy b p s : append_or_replace b (if_truthy p) s = append_or_replace b p s.
Proof. unfold append_or_replace. by rewrite default_if_truthy. Qed.

Lemma merge_details_tidy aT aO aT' aO' p i :
  (truthy_opt (text i) = true -> aT = aT') -> (truthy_opt (output i) = true -> aO = aO') ->
  truthy_only (merge_details aT aO (pick (fun s => s)) p i) =
  merge_details aT' aO' (fun p i => nullish i p) (truthy_only p) (truthy_only i).
Proof.
  intros HT HO. unfold truthy_only, merge_details. cbn.
  rewrite (pick_ext (append_or_replace aT (text p)) (append_or_replace aT' (text p)) (text p) (text i))
    by (intros H s; by rewrite (HT H)).
  rewrite (pick_ext (append_or_replace aO (output p)) (append_or_replace aO' (output p)) (output p) (output i))
    by (intros H s; by rewrite (HO H)).
  f_equal; try (apply if_truthy_pick; intros s Hs; rewrite ?bounded_truthy; done).
  - rewrite if_truthy_pick by (intros; by apply append_or_replace_truthy).
    apply pick_ext. intros _ s. symmetry. apply append_or_replace_tidy.
  - rewrite if_truthy_pick by (intros; by apply append_or_replace_truthy).
    apply pick_ext. intros _ s. symmetry. apply append_or_replace_tidy.
  - apply if_truthy_pick_id.
Qed.

Lemma if_truthy_nullish (i p : option jstr) : if_truthy i = i ->
  if_truthy (nullish i p) = nullish (if_truthy i) (if_truthy p).
Proof. intros H. destruct i as [s|]; [|done]. rewrite H. cbn in *. by destruct (truthy s). Qed.

Lemma merged_tidy aT aO aT' aO' p i :
  (truthy_opt (text (details i)) = true -> aT = aT') -> (truthy_opt (output (details i)) = true -> aO = aO') ->
  if_truthy (itemId i) = itemId i -> if_truthy (threadId i) = threadId i ->
  tidy (merged aT aO (pick (fun s => s)) p i) = merged aT' aO' (fun p i => nullish i p) (tidy p) (tidy i).
Proof.
  intros HT HO Hitem Hthread. unfold merged, compactActivity, with_details, tidy. cbn -[compact merge_details truthy_only].
  rewrite <- compact_truthy, (merge_details_tidy aT aO aT' aO') by done.
  by rewrite !if_truthy_nullish.
Qed.

(** A second log event of the same activity changes nothing more. *)
Lemma pick_again f (p i : option jstr) : (forall s, f (f s) = f s) -> if_truthy i = i -> if_truthy p = p ->
  pick f (pick f p i) i = pick f p i.
Proof.
  intros Hf Hi Hp. destruct i as [i|].
  - unfold pick at 1 3. by rewrite Hi.
  - by rewrite !(pick_None f) by (rewrite ?(pick_None f); done).
Qed.

Lemma strongest_again p i : strongestActivityStage (strongestActivityStage p i) i = strongestActivityStage p i.
Proof. by destruct p, i. Qed.
Lemma strongest_diag i : strongestActivityStage i i = i.
Proof. by destruct i. Qed.

Lemma pick_self f (i : option jstr) : if_truthy i = i -> f <$> i = i -> pick f i i = i.
Proof. intros Hi Hf. unfold pick. rewrite Hi. by destruct i. Qed.

Lemma truthy_only_fields d : truthy_only d = d ->
  if_truthy (text d) = text d /\ if_truthy (command d) = command d /\ if_truthy (cwd d) = cwd d /\
  if_truthy (functionName d) = functionName d /\ if_truthy (parameters d) = parameters d /\
  if_truthy (output d) = output d /\ if_truthy (diff d) = diff d /\ if_truthy (filePath d) = filePath d /\
  if_truthy (status d) = status d.
Proof. intros H. rewrite <- H. cbn. by rewrite !if_truthy_idem. Qed.

Lemma bounded_fields d : bounded_details d ->
  bounded <$> text d = text d /\ bounded <$> command d = command d /\ bounded <$> parameters d = parameters d /\
  bounded <$> output d = output d /\ bounded <$> diff d = diff d.
Proof. intros H. rewrite <- H. cbn. by rewrite !fmap_bounded_idem. Qed.

Lemma fmap_same (o : option jstr) : (fun s : jstr => s) <$> o = o.
Proof. by destruct o. Qed.

Lemma merged_self i : tidy i = i -> bounded_details (details i) ->
  merged false false (fun p i => nullish i p) i i = i.
Proof.
  intros Ht Hb. pose proof (bounded_fields _ Hb) as (B1 & B2 & B3 & B4 & B5).
  assert (Hd : truthy_only (details i) = details i) by (rewrite <- Ht at 2; done).
  pose proof (truthy_only_fields _ Hd) as (T1 & T2 & T3 & T4 & T5 & T6 & T7 & T8 & T9).
  unfold merged, compactActivity, with_details. cbn -[compact merge_details].
  rewrite strongest_diag, !nullish_diag.
  assert (Hm : merge_details false false (fun p i => nullish i p) (details i) (details i) = details i).
  { unfold merge_details. rewrite !pick_self, !nullish_diag by (done || apply fmap_same). by destruct (details i). }
  rewrite Hm, Hb. by destruct i.
Qed.

Lemma pick_bounded f (p i : option jstr) : bounded <$> p = p -> bounded <$> i = i ->
  (forall s, bounded s = s -> bounded (f s) = f s) -> bounded <$> pick f p i = pick f p i.
Proof.
  intros Hp Hi Hf. unfold pick. destruct i as [i|]; cbn in *; [destruct (truthy i) eqn:E; cbn|].
  - f_equal. apply Hf. congruence.
  - destruct p as [p|]; cbn in *; [destruct (truthy p)|]; cbn; done.
  - destruct p as [p|]; cbn in *; [destruct (truthy p)|]; cbn; done.
Qed.

Lemma merge_details_bounded p i : bounded_details p -> bounded_details i ->
  bounded_details (merge_details false false (fun p i => nullish i p) p i).
Proof.
  intros Hp Hi. pose proof (bounded_fields _ Hp) as (P1 & P2 & P3 & P4 & P5).
  pose proof (bounded_fields _ Hi) as (I1 & I2 & I3 & I4 & I5).
  unfold bounded_details, compact. cbn.
  rewrite !pick_bounded; auto using bounded_idem.
Qed.

Lemma merged_again p i : tidy p = p -> tidy i = i -> bounded_details (details p) -> bounded_details (details i) ->
  let m := merged false false (fun p i => nullish i p) p i in
  merged false false (fun p i => nullish i p) m i = m.
Proof.
  intros Hp Hi Bp Bi m.
  assert (Dp : truthy_only (details p) = details p) by (rewrite <- Hp at 2; done).
  assert (Di : truthy_only (details i) = details i) by (rewrite <- Hi at 2; done).
  pose proof (truthy_only_fields _ Dp) as (P1 & P2 & P3 & P4 & P5 & P6 & P7 & P8 & P9).
  pose proof (truthy_only_fields _ Di) as (I1 & I2 & I3 & I4 & I5 & I6 & I7 & I8 & I9).
  pose proof (merge_details_bounded _ _ Bp Bi) as Bm.
  assert (Hm : details m = merge_details false false (fun p i => nullish i p) (details p) (details i)) by exact Bm.
  unfold merged at 1. unfold compactActivity, with_details. cbn -[compact merge_details m].
  assert (HD : merge_details false false (fun p i => nullish i p) (details m) (details i) = details m).
  { rewrite Hm. unfold merge_details. cbn [text command cwd functionName parameters output diff filePath additions
      deletions status exitCode durationMs].
    rewrite !pick_again, !nullish_absorb by (done || apply bounded_idem). done. }
  rewrite HD, Hm, Bm, <- Hm. unfold m, merged, compactActivity, with_details.
  cbn -[compact merge_details]. rewrite strongest_again, !nullish_absorb. done.
Qed.

(** ** One progress event: its log events replay to the merged row *)

(** Events whose live merge the log can express: a Codex item has an id and
    output streams only into commands and tools; text and output of the
    ChatGPT conversation come as whole values, not as streamed parts. *)
Definition faithful (e : ProgressEvent) : bool :=
  match e with
  | codex_progress x =>
      truthy (x_itemId x) &&
      (negb (bool_decide (x_stage x = streaming)) || bool_decide (x_kind x = command_kind) || bool_decide (x_kind x = tool)
       || negb (truthy_opt (output (x_details x))))
  | chatgpt_progress g =>
      negb (bool_decide (chatGptStage g = streaming)) || bool_decide (c_kind g = g_diff)
      || (bool_decide (c_kind g = g_tool) && negb (truthy_opt (c_output g)))
  end.

Definition log_appends_text (t : ChatActivityEventType) (s : Stage) : bool :=
  (bool_decide (t = assistant_text_delta) || bool_decide (t = reasoning_delta)) && bool_decide (s = streaming).
Definition log_appends_output (t : ChatActivityEventType) : bool :=
  bool_decide (t = command_output_delta) || bool_decide (t = tool_call_output_delta).

Definition single_type (a : Activity) (t : ChatActivityEventType) : Prop :=
  log_appends_text t (stage a) = is_text_kind (kind a) && bool_decide (stage a = streaming) /\
  log_appends_output t = (bool_decide (kind a = command_kind) || bool_decide (kind a = tool)) && bool_decide (stage a = streaming).
Definition quiet_type (a : Activity) (t : ChatActivityEventType) : Prop :=
  log_appends_text t (stage a) = false /\ log_appends_output t = false.

Lemma log_types_cases a :
  (exists t, log_types a = [t] /\ single_type a t) \/
  (exists t1 t2, log_types a = [t1; t2] /\ kind a = tool /\ stage a <> streaming /\ quiet_type a t1 /\ quiet_type a t2).
Proof.
  unfold log_types, single_type, quiet_type.
  destruct (kind a), (stage a), (truthy_opt (diff (details a))), (truthy_opt (parameters (details a)));
    cbn; (left; eexists; split; [reflexivity|by split]) || (right; do 2 eexists; split; [reflexivity|by split_and!]).
Qed.

Lemma tidy_idem a : tidy (tidy a) = tidy a.
Proof. unfold tidy. cbn -[truthy_only]. by rewrite !if_truthy_idem, truthy_only_idem. Qed.

Lemma truthy_opt_bounded o : truthy_opt (bounded <$> o) = truthy_opt o.
Proof. destruct o; [apply bounded_truthy|done]. Qed.
Lemma truthy_opt_if o : truthy_opt (if_truthy o) = truthy_opt o.
Proof. destruct o as [[|u s]|]; done. Qed.

(** A faithful event's activity streams the way its log events say. *)
Lemma faithful_flags e ts aid pos : faithful e = true ->
  let a := activityFromEvent e ts aid pos in
  (truthy_opt (text (details a)) = true ->
   codex_streaming e && is_text_kind (kind a) = is_text_kind (kind a) && bool_decide (stage a = streaming)) /\
  (truthy_opt (output (details a)) = true ->
   codex_streaming e = (bool_decide (kind a = command_kind) || bool_decide (kind a = tool)) && bool_decide (stage a = streaming)).
Proof.
  intros Hf a. destruct e as [g|x]; unfold a; cbn -[is_text_kind chatGptStage faithful] in *.
  - unfold faithful in Hf. destruct (bool_decide (chatGptStage g = streaming)); rewrite ?andb_false_r; [|done].
    destruct (c_kind g) eqn:Ek; cbn in *; try discriminate; split; try done.
    intros Ho. rewrite truthy_opt_bounded, truthy_opt_if in Ho. by rewrite Ho in Hf.
  - unfold faithful in Hf. apply andb_prop in Hf as [_ Hf].
    split; [intros _; apply andb_comm|]. rewrite truthy_opt_bounded, truthy_opt_if. intros Ho.
    rewrite Ho in Hf. rewrite orb_false_r in Hf.
    destruct (bool_decide (x_stage x = streaming)); [|by rewrite andb_false_r]. by rewrite andb_true_r, <- Hf.
Qed.

Lemma faithful_ids e ts aid pos : faithful e = true ->
  let a := activityFromEvent e ts aid pos in
  if_truthy (itemId a) = itemId a /\ if_truthy (threadId a) = threadId a.
Proof.
  intros Hf. destruct e as [g|x]; cbn in *; rewrite ?if_truthy_idem; [done|].
  apply andb_prop in Hf as [Hf _]. by rewrite Hf.
Qed.

Lemma tidy_details a : details (tidy a) = truthy_only (details a).
Proof. done. Qed.

Lemma fresh_tidy_bounded a : fresh a -> bounded_details (details (tidy a)).
Proof. intros [H _]. unfold bounded_details. rewrite tidy_details, compact_truthy. by rewrite H. Qed.

Lemma merged_bounded aT aO st p i : bounded_details (details (merged aT aO st p i)).
Proof. apply compact_bounded. Qed.

Definition row_ok (a : Activity) : Prop := bounded_details (details a).

Lemma upsert_row_ok row a e : row_ok a -> row_ok (upsert_row row a e).
Proof. destruct row; [|done]. intros _. apply merged_bounded. Qed.

(** The log events of one activity, applied to a row in turn. *)
Definition replay_row (row : option Activity) (evs : list ChatActivityEvent) : option Activity :=
  fold_left (fun row e => Some (apply_row row e)) evs row.

Lemma apply_row_event row a t n : fresh a ->
  apply_row row (log_event a (createdAt a) t n) =
  match row with
  | None => tidy a
  | Some p => merged (log_appends_text t (stage a)) (log_appends_output t) (fun p i => nullish i p) p (tidy a)
  end.
Proof. intros Ha. unfold apply_row, mergeActivityFromLog. rewrite activityFromLogEvent_log_event by done. done. Qed.

(** The log events of a faithful event turn the tidied row into the tidied
    merged row. *)
Lemma replay_row_events e ts aid pos row ns : faithful e = true ->
  let a := activityFromEvent e ts aid pos in
  length ns = length (log_types a) ->
  (forall p, row = Some p -> row_ok p) ->
  replay_row (tidy <$> row) (zip_with (log_event a ts) (log_types a) ns) = Some (tidy (upsert_row row a e)).
Proof.
  intros Hf a Hns Hrow. pose proof (activityFromEvent_fresh e ts aid pos) as Ha. fold a in Ha.
  destruct (faithful_flags e ts aid pos Hf) as [FT FO]. destruct (faithful_ids e ts aid pos Hf) as [FI FH].
  fold a in FT, FO, FI, FH.
  assert (Hts : ts = createdAt a) by (unfold a; by destruct e). rewrite Hts.
  destruct (log_types_cases a) as [(t & Et & ST & SO)|(t1 & t2 & Et & Ek & Es & [Q1 Q1'] & [Q2 Q2'])];
    rewrite Et in *; destruct ns as [|n1 ns]; try discriminate.
  - destruct ns; [|discriminate]. cbn. f_equal. rewrite apply_row_event by done.
    destruct row as [p|]; [|done]. cbn. symmetry. unfold mergeActivity.
    apply merged_tidy; [|..|done|done]; rewrite ?ST, ?SO; done.
  - destruct ns as [|n2 [|]]; try discriminate. cbn. f_equal. rewrite apply_row_event by done.
    rewrite Q1, Q1'. unfold mergeActivityFromLog. rewrite activityFromLogEvent_log_event by done.
    change (e_type _) with t2. change (e_stage _) with (stage a).
    fold (log_appends_text t2 (stage a)) (log_appends_output t2). rewrite Q2, Q2'.
    assert (Htidy : tidy (tidy a) = tidy a) by apply tidy_idem.
    pose proof (fresh_tidy_bounded a Ha) as Hb.
    destruct row as [p|]; cbn.
    + specialize (Hrow p eq_refl). rewrite merged_again; [|apply tidy_idem|done| |done].
      * symmetry. unfold mergeActivity. apply merged_tidy; [| |done|done]; intros H;
          [rewrite (FT H)|rewrite (FO H)]; by rewrite (bool_decide_eq_false_2 _ Es), andb_false_r.
      * rewrite tidy_details. unfold bounded_details. rewrite compact_truthy. by rewrite Hrow.
    + by apply merged_self.
Qed.

End ActivityEvents.
