(* ===== verification/ActivityStore.v ===== *)
(** * The activity ledger (conversation-activity-store.ts)

    The store keeps the log of activity events and the rows of the timeline it
    has merged from them live. This file holds its operations in memory and
    shows that the rows are, whatever happens, what a replay of the log gives:
    the code's promise that a reload renders the timeline that streamed. The
    file, the write queue and restarts are in [ActivityFile].

    [sha1], [toISOString], [Date.parse], [Date.now] (the clock, read at a
    sequence number) and [localeCompare] are arguments. *)

From S2P Require Import Prelude JsValue JsMap Regex ActivityDiff ActivityEvents.
Import ActivityEvents.

Module ActivityStore.

Definition MAX_EVENTS : Z := 24000.
Definition MAX_MESSAGES : Z := 4000.

Inductive Role := user | assistant.
#[export] Instance Role_eq_dec : EqDecision Role. Proof. solve_decision. Defined.

(** [PersistedConversationMessage] *)
Record Message := {
  m_id : jstr; m_role : Role; m_text : jstr; m_createdAt : jstr; m_turnId : option jstr;
  m_runId : jstr; m_workspace : jstr; m_conversationId : option jstr }.

(** [PersistedState]: what a write puts into the file *)
Record Snapshot := {
  s_nextPosition : Z; s_nextSequence : Z; s_events : list ChatActivityEvent; s_messages : list Message }.

Record Store := {
  events : list ChatActivityEvent;
  activities : list Activity;
  messages : list Message;
  byId : list (jstr * nat);
  nextPosition : Z;
  nextSequence : Z;
  (** whether [flushTimer] is set *)
  flushTimer : bool;
  (** the snapshots whose write has not happened yet *)
  writeQueue : list Snapshot }.

Definition new_store : Store := {|
  events := []; activities := []; messages := []; byId := []; nextPosition := 1; nextSequence := 1;
  flushTimer := false; writeQueue := [] |}.

Definition with_events (l : list ChatActivityEvent) (s : Store) : Store := {|
  events := l; activities := activities s; messages := messages s; byId := byId s;
  nextPosition := nextPosition s; nextSequence := nextSequence s; flushTimer := flushTimer s; writeQueue := writeQueue s |}.
Definition with_rows (r : list Activity * list (jstr * nat)) (s : Store) : Store := {|
  events := events s; activities := r.1; messages := messages s; byId := r.2;
  nextPosition := nextPosition s; nextSequence := nextSequence s; flushTimer := flushTimer s; writeQueue := writeQueue s |}.
Definition with_messages (l : list Message) (s : Store) : Store := {|
  events := events s; activities := activities s; messages := l; byId := byId s;
  nextPosition := nextPosition s; nextSequence := nextSequence s; flushTimer := flushTimer s; writeQueue := writeQueue s |}.
Definition with_counters (pos seq : Z) (s : Store) : Store := {|
  events := events s; activities := activities s; messages := messages s; byId := byId s;
  nextPosition := pos; nextSequence := seq; flushTimer := flushTimer s; writeQueue := writeQueue s |}.
Definition with_writes (timer : bool) (q : list Snapshot) (s : Store) : Store := {|
  events := events s; activities := activities s; messages := messages s; byId := byId s;
  nextPosition := nextPosition s; nextSequence := nextSequence s; flushTimer := timer; writeQueue := q |}.

(** [n + 1] for an integer held in a double *)
Definition number_succ (z : Z) : Z := match round_to_double (z + 1) with NInt k => k | _ => z end.
(** [Number.isFinite(n)], with [Math.floor(n)] *)
Definition finite_floor (n : num) : option Z :=
  match n with NInt z => Some z | NFrac m e => Some (m / 2 ^ Zpos e) | _ => None end.

Definition maxPosition (l : list Activity) : Z := fold_left (fun m a => Z.max m (position a)) l 0.
Definition maxEventPosition (l : list ChatActivityEvent) : Z := fold_left (fun m e => Z.max m (e_position e)) l 0.
Definition maxSequence (l : list ChatActivityEvent) : Z := fold_left (fun m e => Z.max m (e_sequence e)) l 0.

(** ** Rows and their index *)

Definition Rows : Type := list Activity * list (jstr * nat).

(** Push a new row, or replace the one [byId] finds. (The index it holds is in
    range: [rows_ok] below.) *)
Definition put_row (key : jstr) (f : option Activity -> Activity) (r : Rows) : Rows :=
  match map_get r.2 key with
  | None => (r.1 ++ [f None], map_set r.2 key (length r.1))
  | Some i => (alter (fun previous => f (Some previous)) i r.1, r.2)
  end.

Definition rows_of (s : Store) : Rows := (activities s, byId s).

Definition upsertActivity (a : Activity) (e : ProgressEvent) (s : Store) : Store :=
  with_rows (put_row (id a) (fun row => upsert_row row a e) (rows_of s)) s.

Definition applyLogEvent (r : Rows) (e : ChatActivityEvent) : Rows :=
  put_row (e_activityId e) (fun row => apply_row row e) r.
Definition replay (l : list ChatActivityEvent) : Rows :=
  fold_left applyLogEvent (sort_by (fun l r => e_sequence l - e_sequence r) l) ([], []).
Definition replayEvents (s : Store) : Store := with_rows (replay (events s)) s.

Definition reindex (s : Store) : Store :=
  with_rows (activities s, map_of (imap (fun i a => (id a, i)) (activities s))) s.

Definition scheduleFlush (s : Store) : Store := with_writes true (writeQueue s) s.

Definition snapshot_of (s : Store) : Snapshot := {|
  s_nextPosition := nextPosition s; s_nextSequence := nextSequence s; s_events := events s; s_messages := messages s |}.
Definition enqueueWrite (s : Store) : Store := with_writes (flushTimer s) (writeQueue s ++ [snapshot_of s]) s.

(** The timer's callback; [flush] does the same before it waits for the queue. *)
Definition flush_timer (s : Store) : Store :=
  if flushTimer s then enqueueWrite (with_writes false (writeQueue s) s) else s.

Definition trimEvents (s : Store) : Store :=
  if Z.of_nat (length (events s)) <=? MAX_EVENTS then s
  else
    let s := replayEvents (with_events (last_n MAX_EVENTS (events s)) s) in
    with_counters (Z.max (nextPosition s) (number_succ (maxPosition (activities s))))
                  (Z.max (nextSequence s) (number_succ (maxSequence (events s)))) s.

(** ** Recording *)

(** What [recordProgress] returns beside the event itself. *)
Record Progressed := { r_event : ProgressEvent; r_activityId : jstr; r_position : Z; r_createdAt : num }.

Section store.
Context (sha1 : jstr -> jstr) (toISOString : num -> result jstr) (Date_parse : jstr -> num) (Date_now : Z -> num).
Context (localeCompare : jstr -> jstr -> Z).

Definition is_chatgpt_tool (g : ChatGptProgress) (a : Activity) : bool :=
  bool_decide (source a = chatgpt) && bool_decide (runId a = c_runId g)
  && bool_decide (turnId a = chatGptTurnId g) && bool_decide (kind a = tool).

(** [candidates.find(exact) ?? candidates.find(compatible)] of the open tool rows *)
Definition open_tool_row (g : ChatGptProgress) (s : Store) : option Activity :=
  let candidates := List.filter (fun a => is_chatgpt_tool g a && negb (is_final (stage a))) (reverse (activities s)) in
  let parameters' := chatGptParameters g in
  nullish (List.find (fun a => bool_decide (chatGptActivityToolSignature a = chatGptToolSignature g)) candidates)
    (List.find (fun a =>
       let known := trim (default [] (parameters (details a))) in
       bool_decide (chatGptActivityToolIdentity a = chatGptToolIdentity g)
       && (negb (truthy parameters') || negb (truthy known) || bool_decide (known = parameters'))) candidates).

(** The method of this name: the tool calls of a ChatGPT turn find their row. *)
Definition activity_id_for (e : ProgressEvent) (s : Store) : jstr :=
  match if_truthy (event_activityId e), e with
  | Some i, _ => i
  | None, chatgpt_progress g =>
      if negb (bool_decide (c_kind g = g_tool)) then progressActivityId sha1 e
      else
        let item_row := match if_truthy (c_itemId g) with
          | None => None
          | Some item =>
              match List.find (fun a => is_chatgpt_tool g a && bool_decide (itemId a = Some item))
                              (reverse (activities s)) with
              | Some a => Some (id a)
              | None => let i := progressActivityId sha1 e in if map_has (byId s) i then Some i else None
              end
          end in
        match item_row with
        | Some i => i
        | None =>
            match open_tool_row g s with
            | Some a => id a
            | None =>
                if truthy_opt (c_itemId g) then progressActivityId sha1 e
                else colons [js "chatgpt"; c_runId g; c_taskId g; js "tool";
                             slice_to 12 (sha1 (chatGptToolSignature g)); js_int (nextPosition s)]
            end
        end
  | None, _ => progressActivityId sha1 e
  end.

Definition positionFor (activityId : jstr) (incoming : option num) : M Store Z := fun s =>
  match map_get (byId s) activityId with
  | Some i => (match activities s !! i with Some a => Ok (position a) | None => Throw (NotAnError (js "TypeError")) end, s)
  | None =>
      match incoming ≫= finite_floor with
      | Some p => (Ok p, with_counters (Z.max (nextPosition s) (number_succ p)) (nextSequence s) s)
      | None => (Ok (nextPosition s), with_counters (number_succ (nextPosition s)) (nextSequence s) s)
      end
  end.

(** [nextSequence++], once for each log event *)
Fixpoint take_sequences (n : nat) (next : Z) : list Z * Z :=
  match n with
  | O => ([], next)
  | S n => let (l, next') := take_sequences n (number_succ next) in (next :: l, next')
  end.

Definition logEventsFromProgress (a : Activity) (createdAt : jstr) (s : Store) : list ChatActivityEvent * Store :=
  let types := log_types a in
  let (sequences, next) := take_sequences (length types) (nextSequence s) in
  (zip_with (log_event a createdAt) types sequences, with_counters (nextPosition s) next s).

(** After [createdAt] is known: log the activity and merge it into its row. *)
Definition log_activity (a : Activity) (e : ProgressEvent) (s : Store) : Store :=
  let (logEvents, s) := logEventsFromProgress a (createdAt a) s in
  scheduleFlush (trimEvents (upsertActivity a e (with_events (events s ++ logEvents) s))).

Definition recordProgress (e : ProgressEvent) : M Store Progressed :=
  now ← gets (fun s => default (Date_now (nextSequence s)) (event_createdAt e));
  activityId ← gets (activity_id_for e);
  position ← positionFor activityId (event_position e);
  createdAt ← lift (toISOString now);
  let a := activityFromEvent e createdAt activityId position in
  _ ← modify (log_activity a e);
  mret {| r_event := e; r_activityId := id a; r_position := position; r_createdAt := Date_parse createdAt |}.

Fixpoint record_all (es : list ProgressEvent) : M Store (list Progressed) :=
  match es with
  | [] => mret []
  | e :: es => p ← recordProgress e; ps ← record_all es; mret (p :: ps)
  end.

Definition is_chatgpt_reasoning (e : ProgressEvent) : bool :=
  match e with chatgpt_progress g => bool_decide (c_kind g = g_reasoning) | _ => false end.

(** [record] of a progress event; [None] is the event passed through as it is
    (as any other event of the runtime is). *)
Definition record (e : ProgressEvent) : M Store (option (list Progressed)) :=
  if is_chatgpt_reasoning e then mret None
  else ps ← record_all (normalizeProgressEvents sha1 e); mret (Some ps).

(** ** Other operations *)

Definition with_thread (t : jstr) (e : ChatActivityEvent) : ChatActivityEvent := {|
  e_id := e_id e; e_messageId := e_messageId e; e_turnId := e_turnId e; e_sequence := e_sequence e;
  e_createdAt := e_createdAt e; e_parentId := e_parentId e; e_groupId := e_groupId e;
  e_activityId := e_activityId e; e_source := e_source e; e_runId := e_runId e;
  e_workspace := e_workspace e; e_threadId := Some t; e_itemId := e_itemId e;
  e_position := e_position e; e_type := e_type e; e_kind := e_kind e; e_stage := e_stage e;
  e_label := e_label e; e_details := e_details e; e_toolName := e_toolName e; e_result := e_result e |}.

Definition other_thread (run thread : jstr) (e : ChatActivityEvent) : bool :=
  bool_decide (e_source e = codex) && bool_decide (e_runId e = run) && negb (bool_decide (e_threadId e = Some thread)).
Definition attachThread (run thread : jstr) (s : Store) : Store :=
  if existsb (other_thread run thread) (events s) then
    scheduleFlush (replayEvents (with_events
      (map (fun e => if other_thread run thread e then with_thread thread e else e) (events s)) s))
  else s.

Fixpoint set_message (m : Message) (l : list Message) : list Message :=
  match l with
  | [] => [m]
  | m' :: l' => if bool_decide (m_id m' = m_id m) then m :: l' else m' :: set_message m l'
  end.
Definition recordMessage (m : Message) (s : Store) : Store :=
  scheduleFlush (with_messages (last_n MAX_MESSAGES (set_message m (messages s))) s).

Definition clearWorkspace (ws : jstr) (s : Store) : Store :=
  let next := List.filter (fun e => negb (bool_decide (e_workspace e = ws))) (events s) in
  let nextMessages := List.filter (fun m => negb (bool_decide (m_workspace m = ws))) (messages s) in
  if Nat.eqb (length next) (length (events s)) && Nat.eqb (length nextMessages) (length (messages s)) then s
  else scheduleFlush (replayEvents (with_messages nextMessages (with_events next s))).

(** ** Queries *)

Definition by_position (l : list Activity) : list Activity := sort_by (fun l r => position l - position r) l.

Definition list_activities (ws run : jstr) (thread : option jstr) (s : Store) : list Activity :=
  by_position (List.filter (fun a => bool_decide (workspace a = ws)
    && (bool_decide (runId a = run) || (truthy_opt thread && bool_decide (threadId a = thread)))) (activities s)).

Definition listConversationActivities (ws conversation : jstr) (run : option jstr) (s : Store) : list Activity :=
  let ms := List.filter (fun m => bool_decide (m_workspace m = ws) && bool_decide (m_conversationId m = Some conversation))
                        (messages s) in
  let turnIds := omap (fun m => if_truthy (m_turnId m)) ms in
  let runIds := map m_runId ms in
  by_position (List.filter (fun a =>
    bool_decide (workspace a = ws)
    && (bool_decide (turnId a ∈ turnIds) || (truthy_opt run && bool_decide (Some (runId a) = run))
        || (bool_decide (runId a ∈ runIds) && bool_decide (source a = chatgpt)))) (activities s)).

Definition unset_or {A} (o : option A) (b : bool) : bool := match o with None => true | Some _ => b end.
Definition listEvents (ws run thread : option jstr) (s : Store) : list ChatActivityEvent :=
  sort_by (fun l r => e_sequence l - e_sequence r) (List.filter (fun e =>
    unset_or ws (bool_decide (Some (e_workspace e) = ws))
    && unset_or run (bool_decide (Some (e_runId e) = run) || (truthy_opt thread && bool_decide (e_threadId e = thread)))
    && unset_or thread (bool_decide (e_threadId e = thread))) (events s)).

Definition conversationId (ws run : jstr) (s : Store) : option jstr :=
  head (omap (fun m =>
    if bool_decide (m_workspace m = ws) && bool_decide (m_runId m = run) then if_truthy (m_conversationId m) else None)
    (reverse (messages s))).

(** [DesktopHarnessCodexConversationMessage]: a message without where it belongs *)
Record MessageView := { v_id : jstr; v_role : Role; v_text : jstr; v_createdAt : jstr; v_turnId : option jstr }.
Definition message_view (m : Message) : MessageView :=
  {| v_id := m_id m; v_role := m_role m; v_text := m_text m; v_createdAt := m_createdAt m; v_turnId := m_turnId m |}.

Definition listMessages (ws run : jstr) (conversation : option jstr) (s : Store) : list MessageView :=
  let conversation := nullish conversation (conversationId ws run s) in
  sort_by (fun l r => localeCompare (v_createdAt l) (v_createdAt r)) (map message_view (List.filter (fun m =>
    bool_decide (m_workspace m = ws)
    && if negb (truthy_opt conversation) then bool_decide (m_runId m = run)
       else bool_decide (m_conversationId m = conversation)
            || (bool_decide (m_runId m = run) && bool_decide (m_conversationId m = None))) (messages s))).

Record Summary := {
  y_runId : jstr; y_conversationId : jstr; y_workspace : jstr; y_title : jstr; y_preview : jstr;
  y_createdAt : jstr; y_updatedAt : jstr }.

Definition boundedConversationText (v fallback : jstr) : jstr :=
  let compact := trim (replace_all (plus space) (fun _ => js " ") v) in
  if negb (truthy compact) then fallback
  else if slen compact <=? 120 then compact else slice_to 117 compact ++ [ELLIPSIS].

(** The messages of each conversation, in the order of their first message. *)
Definition group_messages (ws : jstr) (l : list Message) : list (jstr * list Message) :=
  fold_left (fun g m =>
    match (if bool_decide (m_workspace m = ws) then if_truthy (m_conversationId m) else None) with
    | Some c => map_set g c (default [] (map_get g c) ++ [m])
    | None => g
    end) l [].

(** [None]: the group is empty, which [group_messages] never makes. *)
Definition summarize (ws : jstr) (g : jstr * list Message) : option Summary :=
  let sorted := sort_by (fun l r => localeCompare (m_createdAt l) (m_createdAt r)) g.2 in
  match sorted, last sorted with
  | first :: _, Some latest =>
      let firstUser := default first (List.find (fun m => bool_decide (m_role m = user)) sorted) in
      let latestAssistant := List.find (fun m => bool_decide (m_role m = assistant)) (reverse sorted) in
      Some {| y_runId := m_runId latest; y_conversationId := g.1; y_workspace := ws;
              y_title := boundedConversationText (m_text firstUser) (js "ChatGPT conversation");
              y_preview := boundedConversationText (m_text (default latest latestAssistant)) (js "ChatGPT conversation");
              y_createdAt := m_createdAt first; y_updatedAt := m_createdAt latest |}
  | _, _ => None
  end.
Definition listConversationSummaries (ws : jstr) (s : Store) : list Summary :=
  sort_by (fun l r => localeCompare (y_updatedAt r) (y_updatedAt l))
          (omap (summarize ws) (group_messages ws (messages s))).

End store.

#[local] Arguments replay : simpl never.
#[local] Arguments put_row : simpl never.
#[local] Arguments maxSequence : simpl never.

(** ** Rows *)

Record rows_ok (r : Rows) : Prop := {
  rows_indexed : forall key i, map_get r.2 key = Some i <-> exists a, r.1 !! i = Some a /\ id a = key;
  rows_unique : NoDup (map id r.1) }.

(** What may happen to a row: it keeps its id. *)
Definition keeps_id (key : jstr) (f : option Activity -> Activity) : Prop :=
  id (f None) = key /\ forall p, id p = key -> id (f (Some p)) = key.

Lemma rows_ok_nil : rows_ok ([], []).
Proof. split; [|constructor]. intros key i. split; [done|]. by intros (a & Ha & _). Qed.

Lemma map_id_lookup (l : list Activity) i a : l !! i = Some a -> map id l !! i = Some (id a).
Proof. intros H. by rewrite list_lookup_fmap, H. Qed.

Lemma put_row_ok key f r : rows_ok r -> keeps_id key f -> rows_ok (put_row key f r).
Proof.
  intros [Hi Hu] [HN HS]. unfold put_row. destruct (map_get r.2 key) as [i|] eqn:E.
  - apply Hi in E as (p & Hp & Hk). split; cbn.
    + intros key' j. rewrite Hi. destruct (decide (j = i)) as [->|Hj].
      * rewrite list_lookup_alter_eq, Hp. cbn. split.
        -- intros (a & [= <-] & Ha). exists (f (Some p)). split; [done|]. rewrite <- Ha, Hk. by apply HS.
        -- intros (a & [= <-] & Ha). exists p. split; [done|]. rewrite <- Ha, Hk. symmetry. by apply HS.
      * by rewrite list_lookup_alter_ne.
    + replace (map id (alter (fun previous => f (Some previous)) i r.1)) with (map id r.1); [done|].
      apply list_eq. intros j. destruct (decide (j = i)) as [->|Hj].
      * rewrite !list_lookup_fmap, list_lookup_alter_eq, Hp. cbn. by rewrite HS, Hk.
      * by rewrite !list_lookup_fmap, list_lookup_alter_ne.
  - assert (Hno : forall a, a ∈ r.1 -> id a <> key).
    { intros a [j Hj]%list_elem_of_lookup Ha. assert (map_get r.2 key = Some j) by (apply Hi; eauto). congruence. }
    split; cbn.
    + intros key' j. rewrite map_get_set. case_bool_decide as Hk.
      * subst key'. split.
        -- intros [= <-]. exists (f None). by rewrite list_lookup_middle by done.
        -- intros (a & Ha & Hid). apply lookup_app_Some in Ha as [Ha|[Hl Ha]].
           ++ exfalso. apply (Hno a); [by eapply list_elem_of_lookup_2|done].
           ++ apply list_lookup_singleton_Some in Ha as [Hj _]. f_equal. lia.
      * rewrite Hi. split; intros (a & Ha & Hid); exists a; (split; [|done]).
        -- by apply lookup_app_l_Some.
        -- apply lookup_app_Some in Ha as [Ha|[_ Ha]]; [done|].
           apply list_lookup_singleton_Some in Ha as [_ <-]. congruence.
    + rewrite map_app. apply NoDup_app. split; [done|]. split; [|apply NoDup_singleton].
      intros x Hx Hy. apply list_elem_of_singleton in Hy as ->. apply list_elem_of_fmap in Hx as (a & Hid & Ha).
      apply (Hno a Ha). congruence.
Qed.

Lemma put_row_put_row key f g r :
  put_row key g (put_row key f r) = put_row key (fun row => g (Some (f row))) r.
Proof.
  unfold put_row. destruct (map_get r.2 key) as [i|] eqn:E; cbn.
  - rewrite E. f_equal. apply list_eq. intros j. destruct (decide (j = i)) as [->|Hj].
    + rewrite !list_lookup_alter_eq. by destruct (r.1 !! i).
    + by rewrite !list_lookup_alter_ne.
  - rewrite map_get_set_eq. f_equal. induction r.1 as [|x l IH]; cbn; [done|]. by rewrite <- IH.
Qed.

Lemma put_row_tidy key f g r :
  (forall row, (forall p, row = Some p -> p ∈ r.1) -> g (tidy <$> row) = tidy (f row)) ->
  put_row key g (map tidy r.1, r.2) = (map tidy (put_row key f r).1, (put_row key f r).2).
Proof.
  intros H. unfold put_row. cbn. destruct (map_get r.2 key) as [i|]; cbn.
  - f_equal. apply list_eq. intros j. rewrite list_lookup_fmap. destruct (decide (j = i)) as [->|Hj].
    + rewrite !list_lookup_alter_eq, list_lookup_fmap. destruct (r.1 !! i) as [p|] eqn:E; cbn; [|done].
      f_equal. apply (H (Some p)). intros ? [= <-]. by eapply list_elem_of_lookup_2.
    + by rewrite !list_lookup_alter_ne, list_lookup_fmap.
  - rewrite map_app, length_map. cbn. do 2 f_equal. f_equal. by apply (H None).
Qed.

Lemma put_row_Forall (P : Activity -> Prop) key f r : Forall P r.1 ->
  (forall row, (forall p, row = Some p -> P p) -> P (f row)) -> Forall P (put_row key f r).1.
Proof.
  intros Hr Hf. unfold put_row. destruct (map_get r.2 key); cbn.
  - apply Forall_alter; [done|]. intros p Hp HP. apply Hf. by intros ? [= <-].
  - apply Forall_app. split; [done|]. constructor; [|done]. by apply Hf.
Qed.

(** ** Replaying *)

Lemma applyLogEvents_row evs key r row0 : evs <> [] -> Forall (fun e => e_activityId e = key) evs ->
  fold_left applyLogEvent evs r = put_row key (fun row => default row0 (replay_row row evs)) r.
Proof.
  intros Hne H. destruct evs as [|e evs]; [done|]. apply Forall_cons in H as [He H]. cbn [fold_left].
  assert (G : forall l f, Forall (fun e => e_activityId e = key) l ->
    fold_left applyLogEvent l (put_row key f r) = put_row key (fun row => default row0 (replay_row (Some (f row)) l)) r).
  { clear. intros l. induction l as [|e l IH]; intros f H; [done|]. apply Forall_cons in H as [He H].
    cbn [fold_left]. unfold applyLogEvent at 2. rewrite He, put_row_put_row. by rewrite IH. }
  unfold applyLogEvent at 2. rewrite He. by rewrite G.
Qed.

Definition clean (a : Activity) : Prop := tidy a = a /\ row_ok a.

Lemma activityFromLogEvent_clean e : clean (activityFromLogEvent e).
Proof.
  split; [|apply compact_bounded]. unfold tidy, activityFromLogEvent, compactActivity, with_details.
  cbn -[compact truthy_only]. by rewrite <- compact_truthy, !if_truthy_idem, truthy_only_idem.
Qed.

Lemma merged_clean aT aO p i : clean p -> clean i -> clean (merged aT aO (fun p i => nullish i p) p i).
Proof.
  intros [Hp _] [Hi _]. split; [|apply compact_bounded].
  assert (Hitem : if_truthy (itemId i) = itemId i) by (rewrite <- Hi at 2; done).
  assert (Hthread : if_truthy (threadId i) = threadId i) by (rewrite <- Hi at 2; done).
  pose proof (merged_tidy aT aO aT aO p i ltac:(done) ltac:(done) Hitem Hthread) as H.
  rewrite Hp, Hi in H. by rewrite <- H, tidy_idem.
Qed.

Lemma apply_row_clean row e : (forall p, row = Some p -> clean p) -> clean (apply_row row e).
Proof.
  intros H. destruct row as [p|]; cbn; [|apply activityFromLogEvent_clean].
  apply merged_clean; [by apply H|apply activityFromLogEvent_clean].
Qed.

Lemma apply_row_id e : keeps_id (e_activityId e) (fun row => apply_row row e).
Proof. split; [done|]. by intros p Hp. Qed.

Lemma replay_wf l : rows_ok (replay l) /\ Forall clean (replay l).1.
Proof.
  unfold replay. generalize (sort_by (fun l r => e_sequence l - e_sequence r) l). clear l. intros l.
  assert (G : forall l r, rows_ok r /\ Forall clean r.1 ->
    rows_ok (fold_left applyLogEvent l r) /\ Forall clean (fold_left applyLogEvent l r).1).
  { clear. intros l. induction l as [|e l IH]; intros r [H1 H2]; [done|]. cbn. apply IH. split.
    - apply put_row_ok; [done|apply apply_row_id].
    - apply put_row_Forall; [done|]. intros row. apply apply_row_clean. }
  apply G. split; [apply rows_ok_nil|constructor].
Qed.

Definition in_order : list ChatActivityEvent -> Prop := StronglySorted (fun l r => e_sequence l - e_sequence r <= 0).

Lemma replay_snoc l k : in_order (l ++ k) -> replay (l ++ k) = fold_left applyLogEvent k (replay l).
Proof.
  intros H. unfold replay. rewrite sort_by_sorted, fold_left_app by done.
  rewrite (sort_by_sorted _ l); [done|]. by eapply StronglySorted_app_1_l.
Qed.

Lemma tidy_clean l : Forall clean l -> map tidy l = l.
Proof. induction 1 as [|a l [H _] _ IH]; [done|]. cbn. by rewrite H, IH. Qed.

(** ** The state of the ledger *)

Definition MAX_SEQUENCE : Z := 2 ^ 53.

Record ledger_ok (s : Store) : Prop := {
  ok_rows : rows_ok (rows_of s);
  ok_bounded : Forall row_ok (activities s);
  (** the rows are the replay of the log *)
  ok_replay : replay (events s) = (map tidy (activities s), byId s);
  ok_order : in_order (events s);
  ok_sequences : Forall (fun e => 0 <= e_sequence e <= nextSequence s) (events s);
  ok_counter : 0 <= nextSequence s <= MAX_SEQUENCE;
  ok_events : Z.of_nat (length (events s)) <= MAX_EVENTS;
  ok_messages : Z.of_nat (length (messages s)) <= MAX_MESSAGES }.

Lemma number_succ_bounds z : 0 <= z <= MAX_SEQUENCE -> z <= number_succ z <= MAX_SEQUENCE.
Proof.
  unfold MAX_SEQUENCE. intros H. destruct (decide (z = 2 ^ 53)) as [->|Hz]; [by vm_compute|].
  unfold number_succ, round_to_double.
  assert (E : (Z.abs (z + 1) <=? 2 ^ 53) = true) by (apply Z.leb_le; lia). rewrite E. lia.
Qed.

Lemma take_sequences_ok n : forall next, 0 <= next <= MAX_SEQUENCE ->
  let (l, next') := take_sequences n next in
  length l = n /\ next <= next' <= MAX_SEQUENCE /\ Forall (fun x => next <= x <= next') l /\ StronglySorted Z.le l.
Proof.
  induction n as [|n IH]; intros next H; cbn.
  - split_and!; try done || lia; constructor.
  - pose proof (number_succ_bounds next H) as Hs. specialize (IH (number_succ next) ltac:(lia)).
    destruct (take_sequences n (number_succ next)) as [l next']. destruct IH as (H1 & H2 & H3 & H4).
    split_and!; [by rewrite <- H1|lia|lia| |].
    + constructor; [lia|]. eapply Forall_impl; [done|]. cbn. lia.
    + constructor; [done|]. eapply Forall_impl; [done|]. cbn. lia.
Qed.

Lemma log_event_fields a ts types ns : length ns = length types ->
  map e_sequence (zip_with (log_event a ts) types ns) = ns /\
  Forall (fun e => e_activityId e = id a) (zip_with (log_event a ts) types ns).
Proof.
  revert ns. induction types as [|t types IH]; intros [|n ns] H; try discriminate; [done|].
  injection H as H. destruct (IH ns H) as [H1 H2]. cbn. split; [by f_equal|]. by constructor.
Qed.

Lemma in_order_map l : in_order l <-> StronglySorted Z.le (map e_sequence l).
Proof.
  unfold in_order. induction l as [|e l IH]; cbn; [by split; constructor|]. split.
  - intros H. apply StronglySorted_inv in H as [H1 H2]. constructor; [by apply IH|].
    apply Forall_fmap. eapply Forall_impl; [done|]. cbn. lia.
  - intros H. apply StronglySorted_inv in H as [H1 H2]. constructor; [by apply IH|].
    apply (proj1 (Forall_fmap e_sequence _ _)) in H2. eapply Forall_impl; [exact H2|]. cbn. lia.
Qed.

Lemma log_types_nonempty a : log_types a <> [].
Proof.
  unfold log_types.
  by destruct (kind a), (stage a), (truthy_opt (diff (details a))), (truthy_opt (parameters (details a))).
Qed.

Lemma maxSequence_bounds l m : Forall (fun e => 0 <= e_sequence e <= m) l -> 0 <= m -> 0 <= maxSequence l <= m.
Proof.
  unfold maxSequence. intros H. assert (G : forall x, 0 <= x <= m ->
    0 <= fold_left (fun m e => Z.max m (e_sequence e)) l x <= m).
  { induction H as [|e l He _ IH]; intros x Hx; cbn; [done|]. apply IH. lia. }
  intros Hm. apply G. lia.
Qed.

Lemma maxSequence_ge l e : e ∈ l -> e_sequence e <= maxSequence l.
Proof.
  unfold maxSequence. assert (G : forall x, x <= fold_left (fun m e => Z.max m (e_sequence e)) l x /\
    (e ∈ l -> e_sequence e <= fold_left (fun m e => Z.max m (e_sequence e)) l x)).
  { induction l as [|e' l IH]; intros x; cbn; [split; [done|by intros ?%not_elem_of_nil]|].
    destruct (IH (Z.max x (e_sequence e'))) as [H1 H2]. split; [lia|]. intros [->|He]%elem_of_cons; [lia|auto]. }
  apply G.
Qed.

(** Whatever replays its log is in order, if its log is. *)
Lemma replayEvents_ok s : in_order (events s) ->
  Forall (fun e => 0 <= e_sequence e <= nextSequence s) (events s) -> 0 <= nextSequence s <= MAX_SEQUENCE ->
  Z.of_nat (length (events s)) <= MAX_EVENTS -> Z.of_nat (length (messages s)) <= MAX_MESSAGES ->
  ledger_ok (replayEvents s).
Proof.
  intros H1 H2 H3 H4 H5. destruct (replay_wf (events s)) as [R1 R2]. split; cbn; try done.
  - unfold rows_of. cbn. by rewrite <- surjective_pairing.
  - eapply Forall_impl; [exact R2|]. by intros a [_ ?].
  - rewrite tidy_clean by done. apply surjective_pairing.
Qed.

Lemma ledger_ok_counters pos s : ledger_ok s -> ledger_ok (with_counters pos (nextSequence s) s).
Proof. intros [H1 H2 H3 H4 H5 H6 H7 H8]. by split. Qed.
Lemma ledger_ok_writes b q s : ledger_ok s -> ledger_ok (with_writes b q s).
Proof. intros [H1 H2 H3 H4 H5 H6 H7 H8]. by split. Qed.

(** Logging the events of an activity and merging it live agree; only the
    bound on the length of the log waits for [trimEvents]. *)
Lemma log_upsert_ok e ts aid pos s : faithful e = true -> ledger_ok s ->
  let a := activityFromEvent e ts aid pos in
  let (logEvents, s1) := logEventsFromProgress a ts s in
  let s' := upsertActivity a e (with_events (events s ++ logEvents) s1) in
  rows_ok (rows_of s') /\ Forall row_ok (activities s') /\
  replay (events s') = (map tidy (activities s'), byId s') /\ in_order (events s') /\
  Forall (fun e => 0 <= e_sequence e <= nextSequence s') (events s') /\ 0 <= nextSequence s' <= MAX_SEQUENCE.
Proof.
  intros Hf [K1 K2 K3 K4 K5 K6 K7 K8] a. unfold logEventsFromProgress.
  pose proof (take_sequences_ok (length (log_types a)) (nextSequence s) K6) as HT.
  destruct (take_sequences (length (log_types a)) (nextSequence s)) as [ns next].
  destruct HT as (HL & Hn & Hb & Hs). destruct (log_event_fields a ts (log_types a) ns HL) as [Hseq Hid].
  set (evs := zip_with (log_event a ts) (log_types a) ns) in *.
  assert (Hne : evs <> []).
  { intros E. pose proof (log_types_nonempty a). apply (f_equal (map e_sequence)) in E. rewrite Hseq in E.
    destruct (log_types a); [done|]. by destruct ns. }
  assert (Hord : in_order (events s ++ evs)).
  { apply in_order_map. rewrite map_app, Hseq. apply StronglySorted_app. split_and!; [| |done].
    - intros x y Hx Hy. apply list_elem_of_fmap in Hx as (ev & -> & Hev). rewrite Forall_forall in K5. rewrite Forall_forall in Hb.
      specialize (K5 ev Hev). specialize (Hb y Hy). lia.
    - by apply in_order_map. }
  assert (Ha : id a = aid) by (unfold a; by destruct e).
  assert (Hkeeps : keeps_id (id a) (fun row => upsert_row row a e)) by (split; [done|by intros p Hp]).
  cbn. split_and!; try lia.
  - unfold rows_of. cbn. pose proof (put_row_ok _ _ _ K1 Hkeeps) as H. by destruct (put_row _ _ _).
  - apply (put_row_Forall row_ok); [done|]. intros row Hrow. apply upsert_row_ok.
    exact (proj1 (activityFromEvent_fresh e ts aid pos)).
  - rewrite replay_snoc by done. rewrite K3, (applyLogEvents_row evs (id a) _ (tidy a)) by done.
    apply (put_row_tidy (id a) _ _ (activities s, byId s)). intros row Hrow.
    unfold evs, a. rewrite (replay_row_events e ts aid pos row ns) by (try done; intros p ->; rewrite Forall_forall in K2; auto).
    done.
  - done.
  - apply Forall_app. split; [eapply Forall_impl; [done|]; cbn; lia|].
    apply Forall_forall. intros ev Hev. assert (Hx : e_sequence ev ∈ ns) by (rewrite <- Hseq; by apply list_elem_of_fmap_2).
    rewrite Forall_forall in Hb. specialize (Hb _ Hx). lia.
Qed.

Lemma trimEvents_ok s : rows_ok (rows_of s) -> Forall row_ok (activities s) ->
  replay (events s) = (map tidy (activities s), byId s) -> in_order (events s) ->
  Forall (fun e => 0 <= e_sequence e <= nextSequence s) (events s) -> 0 <= nextSequence s <= MAX_SEQUENCE ->
  Z.of_nat (length (messages s)) <= MAX_MESSAGES -> ledger_ok (trimEvents s).
Proof.
  intros H1 H2 H3 H4 H5 H6 H7. unfold trimEvents. destruct (_ <=? _) eqn:E; to_prop; [by split|].
  set (s1 := with_events (last_n MAX_EVENTS (events s)) s).
  assert (Hs1 : ledger_ok (replayEvents s1)).
  { apply replayEvents_ok; cbn; [by apply last_n_sorted|by apply last_n_Forall|done|by apply last_n_length|done]. }
  destruct Hs1 as [K1 K2 K3 K4 K5 K6 K7 K8].
  pose proof (maxSequence_bounds _ _ K5 (proj1 K6)) as Hm. cbn in Hm, K6.
  pose proof (number_succ_bounds (maxSequence (last_n MAX_EVENTS (events s))) ltac:(lia)) as Hsucc.
  split; try done; cbn.
  - eapply Forall_impl; [exact K5|]. cbn. lia.
  - lia.
Qed.

Lemma log_activity_ok e ts aid pos s : faithful e = true -> ledger_ok s ->
  ledger_ok (log_activity (activityFromEvent e ts aid pos) e s).
Proof.
  intros Hf Hok. set (a := activityFromEvent e ts aid pos).
  assert (Hts : createdAt a = ts) by (unfold a; by destruct e).
  unfold log_activity. rewrite Hts. pose proof (log_upsert_ok e ts aid pos s Hf Hok) as H. cbn zeta in H. fold a in H.
  assert (Hm : messages (logEventsFromProgress a ts s).2 = messages s /\ events (logEventsFromProgress a ts s).2 = events s).
  { unfold logEventsFromProgress. by destruct (take_sequences _ _). }
  destruct (logEventsFromProgress a ts s) as [logEvents s1]. destruct H as (H1 & H2 & H3 & H4 & H5 & H6).
  cbn [snd] in Hm. destruct Hm as [Hm He]. rewrite He. apply ledger_ok_writes, trimEvents_ok; [assumption..|].
  change (Z.of_nat (length (messages s1)) <= MAX_MESSAGES). rewrite Hm. apply Hok.
Qed.

(** ** The operations *)

Lemma faithful_file x item p d : faithful (codex_progress x) = true -> truthy item = true ->
  output d = output (x_details x) -> faithful (codex_progress (codex_file x item p d)) = true.
Proof. cbn. intros H Hi ->. rewrite Hi. apply andb_prop in H as [_ H]. exact H. Qed.

Lemma truthy_app_l a b : truthy a = true -> truthy (a ++ b) = true.
Proof. by destruct a. Qed.

Lemma faithful_normalized sha1 e : faithful e = true -> Forall (fun e => faithful e = true) (normalizeProgressEvents sha1 e).
Proof.
  intros Hf. unfold normalizeProgressEvents. destruct (if_truthy (event_diff e)) as [d|] eqn:Ed; [|by repeat constructor].
  assert (Hg : forall g item t p st, e = chatgpt_progress g -> faithful (chatgpt_progress (chatgpt_file g item t p st)) = true).
  { intros g item t p st ->. cbn in Ed. case_bool_decide as Hk; [|done]. unfold faithful. cbn.
    by rewrite Hk, orb_true_r. }
  assert (Hone : forall only, faithful match e with
    | codex_progress x => codex_progress (codex_file x (x_itemId x) (ActivityDiff.path only)
        (with_file (ActivityDiff.path only) (ActivityDiff.diffStats (ActivityDiff.diff only)) (x_details x)))
    | chatgpt_progress g => chatgpt_progress (chatgpt_file g (c_itemId g) (c_text g) (ActivityDiff.path only)
        (ActivityDiff.diffStats (ActivityDiff.diff only)))
    end = true).
  { intros only. destruct e as [g|x]; [by apply Hg|]. apply faithful_file; [done| |done].
    cbn in Hf. by apply andb_prop in Hf as [? _]. }
  destruct (ActivityDiff.splitUnifiedDiffByFile d) as [|only [|second rest]]; [by repeat constructor| |].
  - specialize (Hone only). destruct e; by repeat constructor.
  - apply Forall_forall. intros e' (i & s & -> & _)%elem_of_lookup_imap. unfold section_event.
    destruct e as [g|x]; [by apply Hg|]. apply faithful_file; [done| |done].
    apply truthy_app_l. cbn in Hf. by apply andb_prop in Hf as [? _].
Qed.

Section operations.
Context (sha1 : jstr -> jstr) (toISOString : num -> result jstr) (Date_parse : jstr -> num) (Date_now : Z -> num).

Lemma positionFor_ok i incoming s : ledger_ok s -> ledger_ok (positionFor i incoming s).2.
Proof.
  intros H. unfold positionFor. destruct (map_get (byId s) i); [done|].
  destruct (incoming ≫= finite_floor); by apply ledger_ok_counters.
Qed.

Lemma recordProgress_ok e s : faithful e = true -> ledger_ok s ->
  ledger_ok (recordProgress sha1 toISOString Date_parse Date_now e s).2.
Proof.
  intros Hf Hok. unfold recordProgress. rewrite M_bind_run. cbn [gets]. rewrite M_bind_run. cbn [gets].
  rewrite M_bind_run. pose proof (positionFor_ok (activity_id_for sha1 e s) (event_position e) s Hok) as Hp.
  destruct (positionFor (activity_id_for sha1 e s) (event_position e) s) as [[pos|x] s1]; [|done].
  rewrite M_bind_run. cbn [lift]. destruct (toISOString _) as [ts|x]; [|done].
  rewrite M_bind_run. cbn [modify]. cbn. by apply log_activity_ok.
Qed.

Lemma record_all_ok es : forall s, Forall (fun e => faithful e = true) es -> ledger_ok s ->
  ledger_ok (record_all sha1 toISOString Date_parse Date_now es s).2.
Proof.
  induction es as [|e es IH]; intros s Hes Hok; [done|]. apply Forall_cons in Hes as [He Hes]. cbn [record_all].
  rewrite M_bind_run. pose proof (recordProgress_ok e s He Hok) as H1.
  destruct (recordProgress sha1 toISOString Date_parse Date_now e s) as [[p|x] s1]; [|done].
  rewrite M_bind_run. specialize (IH s1 Hes H1).
  by destruct (record_all sha1 toISOString Date_parse Date_now es s1) as [[ps|x] s2].
Qed.

Lemma record_keeps_ledger e s : faithful e = true -> ledger_ok s ->
  ledger_ok (record sha1 toISOString Date_parse Date_now e s).2.
Proof.
  intros Hf Hok. unfold record. destruct (is_chatgpt_reasoning e); [done|].
  rewrite M_bind_run. pose proof (record_all_ok _ s (faithful_normalized sha1 e Hf) Hok) as H.
  by destruct (record_all sha1 toISOString Date_parse Date_now (normalizeProgressEvents sha1 e) s) as [[ps|x] s2].
Qed.

End operations.

Lemma attachThread_ok run thread s : ledger_ok s -> ledger_ok (attachThread run thread s).
Proof.
  intros [H1 H2 H3 H4 H5 H6 H7 H8]. unfold attachThread. destruct (existsb _ _); [|by split].
  set (f := fun e => if other_thread run thread e then with_thread thread e else e).
  assert (Hf : forall e, e_sequence (f e) = e_sequence e) by (intros e; unfold f; by destruct (other_thread _ _ _)).
  apply ledger_ok_writes, replayEvents_ok; cbn; try done.
  - apply in_order_map. rewrite map_map. erewrite map_ext; [|exact Hf]. by apply in_order_map.
  - apply Forall_fmap. eapply Forall_impl; [exact H5|]. cbn. intros e He. by rewrite Hf.
  - by rewrite length_map.
Qed.

Lemma recordMessage_ok m s : ledger_ok s -> ledger_ok (recordMessage m s).
Proof.
  intros [H1 H2 H3 H4 H5 H6 H7 H8]. apply ledger_ok_writes. split; try done. cbn. by apply last_n_length.
Qed.

Lemma in_order_filter p l : in_order l -> in_order (List.filter p l).
Proof.
  unfold in_order. induction 1 as [|e l _ IH H]; cbn; [constructor|]. destruct (p e); [|done].
  constructor; [done|]. apply Forall_forall. intros x Hx. rewrite list_elem_of_In, filter_In in Hx.
  rewrite Forall_forall in H. apply H. rewrite list_elem_of_In. tauto.
Qed.

Lemma Forall_List_filter {A} (P : A -> Prop) p l : Forall P l -> Forall P (List.filter p l).
Proof. induction 1 as [|x l Hx _ IH]; cbn; [done|]. destruct (p x); [by constructor|done]. Qed.

Lemma clearWorkspace_ok ws s : ledger_ok s -> ledger_ok (clearWorkspace ws s).
Proof.
  intros [H1 H2 H3 H4 H5 H6 H7 H8]. unfold clearWorkspace. destruct (_ && _); [by split|].
  apply ledger_ok_writes, replayEvents_ok; cbn; try done.
  - by apply in_order_filter.
  - by apply Forall_List_filter.
  - etransitivity; [|exact H7]. apply Nat2Z.inj_le, List.filter_length_le.
  - etransitivity; [|exact H8]. apply Nat2Z.inj_le, List.filter_length_le.
Qed.

Lemma enqueueWrite_ok s : ledger_ok s -> ledger_ok (enqueueWrite s).
Proof. apply ledger_ok_writes. Qed.
Lemma flush_timer_ok s : ledger_ok s -> ledger_ok (flush_timer s).
Proof. intros H. unfold flush_timer. destruct (flushTimer s); [|done]. by do 2 apply ledger_ok_writes. Qed.

Lemma new_store_ok : ledger_ok new_store.
Proof. split; cbn; [apply rows_ok_nil|constructor|done|constructor|constructor|done|done|done]. Qed.

End ActivityStore.
