(* ===== verification/ActivityFile.v ===== *)
(** * The activity ledger's file (conversation-activity-store.ts)

    The snapshots of [ActivityStore] as JSON, the queue of writes (a temporary
    file renamed over the ledger, any step of which may fail), and the start on
    what is found there. A [World] is a running store and its disk; a restart
    forgets the store and starts on the disk. *)

From S2P Require Import Prelude JsValue JsMap Regex JsonCodec ActivityDiff ActivityEvents ActivityStore.
Import ActivityEvents ActivityStore.

Module ActivityFile.

Definition STORE_VERSION : Z := 2.
Definition LEGACY_ACTIVITY_STORE_VERSION : Z := 1.

(** ** Objects *)

(** An object literal in which an absent optional field has no key. *)
Definition table : Type := list (jstr * option value).
Definition object (t : table) : value :=
  VObject (omap (fun kv => match kv.2 with Some v => Some (kv.1, v) | None => None end) t).
Fixpoint table_get (t : table) (k : jstr) : option value :=
  match t with
  | [] => None
  | (k', v) :: t' => if bool_decide (k' = k) then v else table_get t' k
  end.

Definition key (k : string) (v : value) : jstr * option value := (js k, Some v).
Definition key_text (k : string) (v : jstr) : jstr * option value := (js k, Some (VString v)).
Definition key_int (k : string) (v : Z) : jstr * option value := (js k, Some (VNumber (NInt v))).
Definition opt_text (k : string) (v : option jstr) : jstr * option value := (js k, VString <$> v).
Definition opt_num (k : string) (v : option num) : jstr * option value := (js k, VNumber <$> v).

Definition source_name (s : Source) : jstr := js match s with codex => "codex" | chatgpt => "chatgpt" end.
Definition stage_name (s : Stage) : jstr :=
  js match s with started => "started" | streaming => "streaming" | completed => "completed" | failed => "failed" end.
Definition role_name (r : Role) : jstr := js match r with user => "user" | assistant => "assistant" end.

Definition details_table (d : Details) : table := [
  opt_text "text" (text d); opt_text "command" (command d); opt_text "cwd" (cwd d);
  opt_text "functionName" (functionName d); opt_text "parameters" (parameters d);
  opt_text "output" (output d); opt_text "diff" (diff d); opt_text "filePath" (filePath d);
  opt_num "additions" (additions d); opt_num "deletions" (deletions d); opt_text "status" (status d);
  opt_num "exitCode" (exitCode d); opt_num "durationMs" (durationMs d)].

Definition event_table (e : ChatActivityEvent) : table := [
  key_text "id" (e_id e); key_text "messageId" (e_messageId e); key_text "turnId" (e_turnId e);
  key_int "sequence" (e_sequence e); key_text "createdAt" (e_createdAt e); opt_text "parentId" (e_parentId e);
  opt_text "groupId" (e_groupId e); key_text "activityId" (e_activityId e);
  key_text "source" (source_name (e_source e)); key_text "runId" (e_runId e);
  key_text "workspace" (e_workspace e); opt_text "threadId" (e_threadId e); opt_text "itemId" (e_itemId e);
  key_int "position" (e_position e); key_text "type" (type_name (e_type e));
  key_text "kind" (kind_name (e_kind e)); key_text "stage" (stage_name (e_stage e));
  key_text "label" (e_label e); opt_text "toolName" (e_toolName e); opt_text "result" (e_result e)]
  ++ details_table (e_details e).
Definition event_value (e : ChatActivityEvent) : value := object (event_table e).

Definition message_table (m : Message) : table := [
  key_text "id" (m_id m); key_text "role" (role_name (m_role m)); key_text "text" (m_text m);
  key_text "createdAt" (m_createdAt m); opt_text "turnId" (m_turnId m); key_text "runId" (m_runId m);
  key_text "workspace" (m_workspace m); opt_text "conversationId" (m_conversationId m)].
Definition message_value (m : Message) : value := object (message_table m).

Definition snapshot_table (s : Snapshot) : table := [
  key_int "version" STORE_VERSION; key_int "nextPosition" (s_nextPosition s);
  key_int "nextSequence" (s_nextSequence s); key "events" (VArray (map event_value (s_events s)));
  key "messages" (VArray (map message_value (s_messages s)))].
Definition snapshot_value (s : Snapshot) : value := object (snapshot_table s).

(** ** Reading

    Entries that fail the checks are dropped. Fields that the checks leave
    open are read as absent when they hold another type than the store
    writes. *)

(** [v.k] for an object [v] *)
Definition at_field (v : value) (k : string) : value :=
  match v with VObject fs => field fs (js k) | _ => VUndefined end.
Definition is_object (v : value) : bool := match is_record v with Some _ => true | None => false end.
Definition is_text (v : value) : bool := match v with VString _ => true | _ => false end.
Definition is_number (v : value) : bool := match v with VNumber _ => true | _ => false end.
Definition is_undefined (v : value) : bool := match v with VUndefined => true | _ => false end.
(** [names.includes(String(v))] of a string *)
Definition is_one_of (names : list jstr) (v : value) : bool :=
  match v with VString s => bool_decide (s ∈ names) | _ => false end.

Definition all_kinds : list Kind := [response; reasoning; command_kind; file; tool].
Definition all_stages : list Stage := [started; streaming; completed; failed].
Definition all_types : list ChatActivityEventType :=
  [assistant_text_delta; reasoning_delta; tool_call_started; tool_call_args; tool_call_output_delta;
   tool_call_finished; command_started; command_output_delta; command_finished; file_changed; file_diff; status_event].
(** The value that carries a name. *)
Definition named {A} (name : A -> jstr) (all : list A) (d : A) (v : value) : A :=
  default d (List.find (fun a => is_string v (name a)) all).

Definition isPersistedConversationMessage (v : value) : bool :=
  let f := at_field v in
  is_object v && is_text (f "id") && is_one_of [js "user"; js "assistant"] (f "role") && is_text (f "text")
  && is_text (f "createdAt") && is_text (f "runId") && is_text (f "workspace")
  && (is_undefined (f "conversationId") || is_text (f "conversationId"))
  && (is_undefined (f "turnId") || is_text (f "turnId")).

Definition isActivity (v : value) : bool :=
  let f := at_field v in
  is_object v && is_text (f "id") && is_one_of [js "codex"; js "chatgpt"] (f "source") && is_text (f "runId")
  && is_text (f "workspace") && is_text (f "turnId") && is_number (f "position")
  && is_text (f "createdAt") && is_text (f "updatedAt")
  && is_one_of (map kind_name all_kinds) (f "kind") && is_one_of (map stage_name all_stages) (f "stage").

Definition isChatActivityEvent (v : value) : bool :=
  let f := at_field v in
  is_object v && is_text (f "id") && is_text (f "messageId") && is_text (f "turnId") && is_number (f "sequence")
  && is_text (f "createdAt") && is_text (f "activityId") && is_text (f "runId") && is_text (f "workspace")
  && is_number (f "position") && is_one_of [js "codex"; js "chatgpt"] (f "source")
  && is_one_of (map type_name all_types) (f "type")
  && is_one_of (map kind_name all_kinds) (f "kind") && is_one_of (map stage_name all_stages) (f "stage").

Definition read_opt_text (v : value) : option jstr := match v with VString s => Some s | _ => None end.
Definition read_opt_num (v : value) : option num := match v with VNumber n => Some n | _ => None end.
Definition read_text (v : value) : jstr := default [] (read_opt_text v).
Definition read_int (v : value) : Z := default 0 (read_opt_num v ≫= finite_floor).

Section reading.
Context (f : string -> value).

Definition read_details : Details := {|
  text := read_opt_text (f "text"); command := read_opt_text (f "command"); cwd := read_opt_text (f "cwd");
  functionName := read_opt_text (f "functionName"); parameters := read_opt_text (f "parameters");
  output := read_opt_text (f "output"); diff := read_opt_text (f "diff"); filePath := read_opt_text (f "filePath");
  additions := read_opt_num (f "additions"); deletions := read_opt_num (f "deletions");
  status := read_opt_text (f "status"); exitCode := read_opt_num (f "exitCode");
  durationMs := read_opt_num (f "durationMs") |}.

Definition read_event : ChatActivityEvent := {|
  e_id := read_text (f "id"); e_messageId := read_text (f "messageId"); e_turnId := read_text (f "turnId");
  e_sequence := read_int (f "sequence"); e_createdAt := read_text (f "createdAt");
  e_parentId := read_opt_text (f "parentId"); e_groupId := read_opt_text (f "groupId");
  e_activityId := read_text (f "activityId"); e_source := named source_name [codex; chatgpt] codex (f "source");
  e_runId := read_text (f "runId"); e_workspace := read_text (f "workspace");
  e_threadId := read_opt_text (f "threadId"); e_itemId := read_opt_text (f "itemId");
  e_position := read_int (f "position"); e_type := named type_name all_types status_event (f "type");
  e_kind := named kind_name all_kinds tool (f "kind"); e_stage := named stage_name all_stages started (f "stage");
  e_label := read_text (f "label"); e_details := read_details; e_toolName := read_opt_text (f "toolName");
  e_result := read_opt_text (f "result") |}.

Definition read_activity : Activity := {|
  id := read_text (f "id"); source := named source_name [codex; chatgpt] codex (f "source");
  runId := read_text (f "runId"); workspace := read_text (f "workspace");
  threadId := read_opt_text (f "threadId"); turnId := read_text (f "turnId"); itemId := read_opt_text (f "itemId");
  kind := named kind_name all_kinds tool (f "kind"); stage := named stage_name all_stages started (f "stage");
  label := read_text (f "label"); createdAt := read_text (f "createdAt"); updatedAt := read_text (f "updatedAt");
  position := read_int (f "position"); details := read_details |}.

Definition read_message : Message := {|
  m_id := read_text (f "id"); m_role := named role_name [user; assistant] user (f "role");
  m_text := read_text (f "text"); m_createdAt := read_text (f "createdAt");
  m_turnId := read_opt_text (f "turnId"); m_runId := read_text (f "runId");
  m_workspace := read_text (f "workspace"); m_conversationId := read_opt_text (f "conversationId") |}.
End reading.

(** [Number.isSafeInteger(v) ? Math.max(v, most + 1) : most + 1] *)
Definition next_after (v : value) (most : Z) : Z :=
  match v with
  | VNumber n => match safe_integer n with Some z => Z.max z (number_succ most) | None => number_succ most end
  | _ => number_succ most
  end.

(** [this.activities.map((activity) => snapshotActivityEvent(activity, this.nextSequence++))] *)
Fixpoint snapshot_events (l : list Activity) (next : Z) : list ChatActivityEvent * Z :=
  match l with
  | [] => ([], next)
  | a :: l => let (evs, next') := snapshot_events l (number_succ next) in (snapshotActivityEvent a next :: evs, next')
  end.

(** [initialize], once the file is parsed *)
Definition open_events (v : value) (items : list value) : Store :=
  let evs := last_n MAX_EVENTS (map (fun v => read_event (at_field v)) (List.filter isChatActivityEvent items)) in
  let ms := match at_field v "messages" with
            | VArray l => last_n MAX_MESSAGES (map (fun v => read_message (at_field v)) (List.filter isPersistedConversationMessage l))
            | _ => []
            end in
  replayEvents (with_counters (next_after (at_field v "nextPosition") (maxEventPosition evs))
                              (next_after (at_field v "nextSequence") (maxSequence evs))
                (with_messages ms (with_events evs new_store))).

Definition open_legacy (v : value) (items : list value) : Store :=
  let acts := last_n MAX_EVENTS (map (fun v => read_activity (at_field v)) (List.filter isActivity items)) in
  let (evs, next) := snapshot_events acts (nextSequence new_store) in
  reindex (with_counters (next_after (at_field v "nextPosition") (maxPosition acts)) next
           (with_events evs (with_rows (acts, []) new_store))).

Definition as_array (v : value) : option (list value) := match v with VArray l => Some l | _ => None end.
Definition open_parsed (v : value) : result Store :=
  if is_nullish v then Throw (NotAnError (js "TypeError"))
  else
    let version n := is_int (at_field v "version") n in
    match (if version STORE_VERSION then as_array (at_field v "events") else None),
          (if version LEGACY_ACTIVITY_STORE_VERSION then as_array (at_field v "activities") else None) with
    | Some items, _ => Ok (open_events v items)
    | None, Some items => Ok (open_legacy v items)
    | None, None => Ok new_store
    end.

(** ** The disk *)

Record Disk := { d_file : option jstr; d_tmp : option jstr }.

(** How a write ends: whole, or at the step that fails. *)
Inductive WriteOutcome := Written | MkdirFails | WriteFails (partial : jstr) | RenameFails.

Record World := { store : Store; disk : Disk }.

Definition new_world : World := {| store := new_store; disk := {| d_file := None; d_tmp := None |} |}.

Section file.
Context (JSON_parse : jstr -> result value) (JSON_stringify : value -> jstr).

Definition serialize (s : Snapshot) : jstr := JSON_stringify (snapshot_value s).

(** The closure that [enqueueWrite] queues; its failures are swallowed. *)
Definition write (o : WriteOutcome) (s : Snapshot) (d : Disk) : Disk :=
  match o with
  | Written => {| d_file := Some (serialize s); d_tmp := None |}
  | MkdirFails => d
  | WriteFails partial => {| d_file := d_file d; d_tmp := Some partial |}
  | RenameFails => {| d_file := d_file d; d_tmp := Some (serialize s) |}
  end.

(** [initialize]: a missing file is a new ledger. *)
Definition initialize (d : Disk) : result Store :=
  match d_file d with
  | None => Ok new_store
  | Some raw => v ← JSON_parse raw; open_parsed v
  end.

Inductive Op :=
| Record (e : ProgressEvent)
| AttachThread (run thread : jstr)
| RecordMessage (m : Message)
| ClearWorkspace (ws : jstr)
| FlushTimer
| Write (o : WriteOutcome)
| Restart.

Section ops.
Context (sha1 : jstr -> jstr) (toISOString : num -> result jstr) (Date_parse : jstr -> num) (Date_now : Z -> num).

Definition on_store (f : Store -> Store) (w : World) : World := {| store := f (store w); disk := disk w |}.

Definition run_op (op : Op) (w : World) : World :=
  match op with
  | Record e => on_store (fun s => (record sha1 toISOString Date_parse Date_now e s).2) w
  | AttachThread run thread => on_store (attachThread run thread) w
  | RecordMessage m => on_store (recordMessage m) w
  | ClearWorkspace ws => on_store (clearWorkspace ws) w
  | FlushTimer => on_store flush_timer w
  | Write o =>
      match writeQueue (store w) with
      | [] => w
      | s :: q => {| store := with_writes (flushTimer (store w)) q (store w); disk := write o s (disk w) |}
      end
  | Restart =>
      {| store := match initialize (disk w) with Ok s => s | Throw _ => new_store end; disk := disk w |}
  end.
Definition run_ops (ops : list Op) (w : World) : World := fold_left (fun w op => run_op op w) ops w.

End ops.
End file.

(** ** What is written can be read *)

Lemma field_object t k : NoDup (map fst t) -> at_field (object t) k = default VUndefined (table_get t (js k)).
Proof.
  intros H. unfold at_field, object. induction t as [|[k' v] t IH]; [done|]. cbn in H. apply NoDup_cons in H as [Hk H].
  specialize (IH H). cbn. destruct v as [v|]; cbn; case_bool_decide as E; try done.
  - rewrite IH. subst k'. cbn. assert (Hn : table_get t (js k) = None); [|by rewrite Hn].
    clear -Hk. induction t as [|[k' v] t IH]; [done|]. cbn in *. apply not_elem_of_cons in Hk as [Hk1 Hk2].
    rewrite bool_decide_eq_false_2 by congruence. auto.
Qed.

Ltac decide_keys := apply (bool_decide_unpack _); vm_compute; exact I.

Lemma event_keys e : NoDup (map fst (event_table e)).
Proof. decide_keys. Qed.
Lemma message_keys m : NoDup (map fst (message_table m)).
Proof. decide_keys. Qed.
Lemma snapshot_keys s : NoDup (map fst (snapshot_table s)).
Proof. decide_keys. Qed.

Lemma read_opt_text_fmap o : read_opt_text (default VUndefined (VString <$> o)) = o.
Proof. by destruct o. Qed.
Lemma read_opt_num_fmap o : read_opt_num (default VUndefined (VNumber <$> o)) = o.
Proof. by destruct o. Qed.

Lemma named_source s : named source_name [codex; chatgpt] codex (VString (source_name s)) = s.
Proof. by destruct s. Qed.
Lemma named_kind k : named kind_name all_kinds tool (VString (kind_name k)) = k.
Proof. by destruct k. Qed.
Lemma named_stage s : named stage_name all_stages started (VString (stage_name s)) = s.
Proof. by destruct s. Qed.
Lemma named_type t : named type_name all_types status_event (VString (type_name t)) = t.
Proof. by destruct t. Qed.
Lemma named_role r : named role_name [user; assistant] user (VString (role_name r)) = r.
Proof. by destruct r. Qed.

(** Look the fields of a literal object up. *)
Ltac look_up :=
  repeat match goal with |- context [table_get ?t ?k] =>
    let r := eval lazy -[type_name kind_name stage_name source_name role_name event_value message_value fmap option_fmap] in (table_get t k) in
    change (table_get t k) with r
  end; cbn [default].
Lemma one_of_name {A} (name : A -> jstr) all a : a ∈ all -> is_one_of (map name all) (VString (name a)) = true.
Proof. intros H. apply bool_decide_eq_true. by apply list_elem_of_fmap_2. Qed.
Lemma opt_text_accepted o : is_undefined (default VUndefined (VString <$> o)) || is_text (default VUndefined (VString <$> o)) = true.
Proof. by destruct o. Qed.
Lemma one_of_source s : is_one_of [js "codex"; js "chatgpt"] (VString (source_name s)) = true.
Proof. by destruct s. Qed.
Lemma one_of_role r : is_one_of [js "user"; js "assistant"] (VString (role_name r)) = true.
Proof. by destruct r. Qed.
Lemma all_types_all t : t ∈ all_types.
Proof. destruct t; vm_compute; set_solver. Qed.
Lemma all_kinds_all k : k ∈ all_kinds.
Proof. destruct k; vm_compute; set_solver. Qed.
Lemma all_stages_all s : s ∈ all_stages.
Proof. destruct s; vm_compute; set_solver. Qed.
#[local] Hint Resolve all_types_all all_kinds_all all_stages_all : core.
Ltac accepted F :=
  rewrite ?F; look_up;
  repeat (apply andb_true_intro; split); try exact eq_refl;
  first [apply one_of_source | apply one_of_role | apply opt_text_accepted | by apply one_of_name].
Ltac read_back F :=
  rewrite ?F; look_up;
  first [exact eq_refl | apply read_opt_text_fmap | apply read_opt_num_fmap | apply named_source
        | apply named_kind | apply named_stage | apply named_type | apply named_role].

Lemma event_accepted e : isChatActivityEvent (event_value e) = true.
Proof.
  pose proof (fun k => field_object (event_table e) k (event_keys e)) as F. fold (event_value e) in F.
  unfold isChatActivityEvent. accepted F.
Qed.
Lemma message_accepted m : isPersistedConversationMessage (message_value m) = true.
Proof.
  pose proof (fun k => field_object (message_table m) k (message_keys m)) as F. fold (message_value m) in F.
  unfold isPersistedConversationMessage. accepted F.
Qed.

Lemma read_event_value e : read_event (at_field (event_value e)) = e.
Proof.
  pose proof (fun k => field_object (event_table e) k (event_keys e)) as F. fold (event_value e) in F.
  unfold read_event, read_details. destruct e as [? ? ? ? ? ? ? ? ? ? ? ? ? ? ? ? ? ? d ? ?]. destruct d.
  f_equal; [..|f_equal| |]; read_back F.
Qed.
Lemma read_message_value m : read_message (at_field (message_value m)) = m.
Proof.
  pose proof (fun k => field_object (message_table m) k (message_keys m)) as F. fold (message_value m) in F.
  unfold read_message. destruct m. f_equal; read_back F.
Qed.

(** ** What JSON keeps

    [JSON.parse] inverts [JSON.stringify] on values without [undefined],
    infinities, NaN and repeated keys. *)
Definition is_finite (n : num) : bool := match n with NInt _ | NFrac _ _ => true | _ => false end.
Fixpoint json_safe (v : value) : bool :=
  match v with
  | VUndefined => false
  | VNumber n => is_finite n
  | VArray l => forallb json_safe l
  | VObject fs => bool_decide (NoDup (map fst fs)) && forallb (fun kv => json_safe kv.2) fs
  | _ => true
  end.

Definition finite_opt (o : option num) : bool := match o with Some n => is_finite n | None => true end.
Definition finite_details (d : Details) : bool :=
  finite_opt (additions d) && finite_opt (deletions d) && finite_opt (exitCode d) && finite_opt (durationMs d).
Definition event_finite (e : ChatActivityEvent) : Prop := finite_details (e_details e) = true.
(** The numbers of a progress event are finite, as those of every message
    that was parsed from JSON. *)
Definition finite_numbers (e : ProgressEvent) : bool :=
  match e with
  | codex_progress x => finite_details (x_details x)
  | chatgpt_progress g => finite_opt (c_additions g) && finite_opt (c_deletions g) && finite_opt (c_durationMs g)
  end.

Lemma object_safe t : NoDup (map fst t) ->
  Forall (fun kv => match kv.2 with Some v => json_safe v = true | None => True end) t -> json_safe (object t) = true.
Proof.
  intros Hk Ht. unfold object. cbn [json_safe]. apply andb_true_intro. split.
  - apply bool_decide_eq_true. clear Ht. induction t as [|[k v] t IH]; [constructor|].
    cbn in Hk. apply NoDup_cons in Hk as [Hk Ht]. destruct v as [v|]; cbn; [|by apply IH].
    constructor; [|by apply IH]. intros (kv & -> & (kv' & Hin & E)%list_elem_of_omap)%list_elem_of_fmap.
    destruct kv' as [k' [v'|]]; [|done]. injection E as <-. apply Hk.
    exact (list_elem_of_fmap_2 fst t (k', Some v') Hin).
  - clear Hk. induction Ht as [|[k [v|]] t Hv _ IH]; cbn; [done| |done]. by rewrite Hv.
Qed.

Lemma event_safe e : event_finite e -> json_safe (event_value e) = true.
Proof.
  unfold event_finite, finite_details. intros H. apply object_safe; [apply event_keys|]. destruct e as [? ? ? ? ? ? ? ? ? ? ? ? ? ? ? ? ? ? d ? ?].
  destruct d as [? ? ? ? ? ? ? ? a b ? c t]. cbn in H. apply andb_prop in H as [H H4]. apply andb_prop in H as [H H3].
  apply andb_prop in H as [H1 H2]. unfold event_table, details_table. cbn [app].
  repeat apply Forall_cons_2; try apply Forall_nil_2; cbn; repeat case_match; simplify_eq; try done.
  all: by repeat match goal with H : (_ <$> _) = Some _ |- _ => apply fmap_Some in H as (? & -> & ->) end.
Qed.

Lemma message_safe m : json_safe (message_value m) = true.
Proof.
  apply object_safe; [apply message_keys|]. destruct m. unfold message_table.
  repeat apply Forall_cons_2; try apply Forall_nil_2; cbn; repeat case_match; try done.
  all: by repeat match goal with H : (_ <$> _) = Some _ |- _ => apply fmap_Some in H as (? & -> & ->) end.
Qed.

Lemma forallb_map {A B} (p : B -> bool) (f : A -> B) (P : A -> Prop) l :
  Forall P l -> (forall x, P x -> p (f x) = true) -> forallb p (map f l) = true.
Proof. intros H HP. induction H as [|x l Hx _ IH]; cbn; [done|]. by rewrite HP, IH. Qed.

Lemma snapshot_safe s : Forall event_finite (s_events s) -> json_safe (snapshot_value s) = true.
Proof.
  intros H. apply object_safe; [apply snapshot_keys|]. unfold snapshot_table.
  repeat apply Forall_cons_2; try apply Forall_nil_2; cbn -[json_safe]; try done; cbn [json_safe].
  - by eapply forallb_map, event_safe.
  - apply (forallb_map _ _ (fun _ => True)); [by apply Forall_true|]. intros m _. apply message_safe.
Qed.

(** ** Opening a snapshot *)

Definition snap_ok (n : Snapshot) : Prop :=
  exists s, ledger_ok s /\ Forall event_finite (events s) /\ n = snapshot_of s.

Lemma filter_map_all {A B} (p : B -> bool) (f : A -> B) l : (forall x, p (f x) = true) -> List.filter p (map f l) = map f l.
Proof. intros H. induction l as [|x l IH]; cbn; [done|]. by rewrite H, IH. Qed.
Lemma map_map_id {A B} (f : A -> B) (g : B -> A) l : (forall x, g (f x) = x) -> map g (map f l) = l.
Proof. intros H. induction l as [|x l IH]; cbn; [done|]. by rewrite H, IH. Qed.

Lemma next_after_bounds z m : 0 <= m <= MAX_SEQUENCE -> z <= MAX_SEQUENCE ->
  m <= next_after (VNumber (NInt z)) m <= MAX_SEQUENCE.
Proof.
  intros Hm Hz. pose proof (number_succ_bounds m Hm). unfold next_after.
  destruct (safe_integer (NInt z)) as [y|] eqn:E; [|lia].
  unfold safe_integer in E. destruct (_ && _); [|done]. injection E as <-. lia.
Qed.

Lemma snapshot_fields n :
  at_field (snapshot_value n) "version" = VNumber (NInt STORE_VERSION) /\
  at_field (snapshot_value n) "nextPosition" = VNumber (NInt (s_nextPosition n)) /\
  at_field (snapshot_value n) "nextSequence" = VNumber (NInt (s_nextSequence n)) /\
  at_field (snapshot_value n) "events" = VArray (map event_value (s_events n)) /\
  at_field (snapshot_value n) "messages" = VArray (map message_value (s_messages n)).
Proof.
  pose proof (fun k => field_object (snapshot_table n) k (snapshot_keys n)) as F. fold (snapshot_value n) in F.
  rewrite !F. by split_and!.
Qed.

(** Opening the snapshot of a ledger gives its log, its messages and its rows. *)
Lemma open_snapshot s : ledger_ok s -> exists s',
  open_parsed (snapshot_value (snapshot_of s)) = Ok s' /\ ledger_ok s' /\
  events s' = events s /\ messages s' = messages s /\
  activities s' = map tidy (activities s) /\ byId s' = byId s /\ writeQueue s' = [].
Proof.
  intros [H1 H2 H3 H4 H5 H6 H7 H8].
  destruct (snapshot_fields (snapshot_of s)) as (F1 & F2 & F3 & F4 & F5).
  unfold open_parsed, open_events. rewrite F1, F2, F3, F4, F5. change (is_nullish (snapshot_value _)) with false.
  cbn [is_int as_array STORE_VERSION LEGACY_ACTIVITY_STORE_VERSION Z.eqb Pos.eqb].
  change (s_events (snapshot_of s)) with (events s). change (s_messages (snapshot_of s)) with (messages s).
  rewrite !filter_map_all by auto using event_accepted, message_accepted.
  rewrite (map_map_id event_value), (map_map_id message_value) by auto using read_event_value, read_message_value.
  rewrite !last_n_all by done.
  eexists. split; [reflexivity|].
  set (s1 := with_counters _ _ _).
  assert (Hev : events s1 = events s) by done. assert (Hms : messages s1 = messages s) by done.
  pose proof (maxSequence_bounds _ _ H5 (proj1 H6)) as Hmax.
  assert (Hmax' : 0 <= maxSequence (events s) <= MAX_SEQUENCE) by lia.
  pose proof (next_after_bounds (nextSequence s) (maxSequence (events s)) Hmax' (proj2 H6)) as Hnext.
  assert (Hns : nextSequence s1 = next_after (VNumber (NInt (nextSequence s))) (maxSequence (events s))) by done.
  split_and!; try done.
  - apply replayEvents_ok; rewrite ?Hev, ?Hms, ?Hns; try done.
    + apply Forall_forall. intros e He. pose proof (maxSequence_ge _ _ He). rewrite Forall_forall in H5.
      specialize (H5 e He). lia.
    + lia.
  - change ((replay (events s)).1 = map tidy (activities s)). by rewrite H3.
  - change ((replay (events s)).2 = byId s). by rewrite H3.
Qed.

(** ** The events that the operations leave *)

Lemma log_event_finite a ts t n : finite_details (details a) = true -> event_finite (log_event a ts t n).
Proof. done. Qed.

Lemma activity_finite e ts i p : finite_numbers e = true -> finite_details (details (activityFromEvent e ts i p)) = true.
Proof.
  destruct e as [g|x]; cbn; [|done]. unfold finite_details. cbn. by rewrite andb_true_r.
Qed.

Lemma finite_normalized sha1 e : finite_numbers e = true ->
  Forall (fun e => finite_numbers e = true) (normalizeProgressEvents sha1 e).
Proof.
  intros Hf. unfold normalizeProgressEvents. destruct (if_truthy (event_diff e)) as [d|]; [|by repeat constructor].
  assert (Hx : forall x i p d s, finite_details (x_details x) = true -> finite_details d = finite_details (x_details x) ->
    finite_numbers (codex_progress (codex_file x i p (with_file p s d))) = true).
  { intros x i p d' s H E. cbn. unfold finite_details in *. cbn. rewrite H in E.
    repeat (apply andb_prop in E as [E ?]). by apply andb_true_intro. }
  assert (Hg : forall g i t p s, finite_numbers (chatgpt_progress g) = true ->
    finite_numbers (chatgpt_progress (chatgpt_file g i t p s)) = true).
  { intros g i t p s H. cbn in *. by repeat (apply andb_prop in H as [H ?]). }
  destruct (ActivityDiff.splitUnifiedDiffByFile d) as [|only [|second rest]]; [by repeat constructor| |].
  - destruct e; repeat constructor; [by apply Hg|by apply Hx].
  - apply Forall_forall. intros e' (i & s & -> & _)%elem_of_lookup_imap. unfold section_event.
    destruct e; [by apply Hg|by apply Hx].
Qed.

Lemma trimEvents_Forall (P : ChatActivityEvent -> Prop) s : Forall P (events s) -> Forall P (events (trimEvents s)).
Proof. intros H. unfold trimEvents. destruct (_ <=? _); [done|]. cbn. by apply last_n_Forall. Qed.

Lemma log_activity_finite a e s : finite_details (details a) = true -> Forall event_finite (events s) ->
  Forall event_finite (events (log_activity a e s)).
Proof.
  intros Ha Hs. unfold log_activity, logEventsFromProgress. destruct (take_sequences _ _) as [ns next].
  apply trimEvents_Forall. cbn. apply Forall_app. split; [done|].
  generalize (log_types a) as types. clear -Ha. intros types. revert ns.
  induction types as [|t types IH]; intros [|n ns]; cbn; constructor; [done|apply IH].
Qed.

Section world.
Context (JSON_parse : jstr -> result value) (JSON_stringify : value -> jstr).
Context (sha1 : jstr -> jstr) (toISOString : num -> result jstr) (Date_parse : jstr -> num) (Date_now : Z -> num).

Let recordProgress := recordProgress sha1 toISOString Date_parse Date_now.
Let record_all := record_all sha1 toISOString Date_parse Date_now.

Lemma recordProgress_finite e s : finite_numbers e = true -> Forall event_finite (events s) ->
  Forall event_finite (events (recordProgress e s).2).
Proof.
  intros He Hs. unfold recordProgress, ActivityStore.recordProgress. rewrite M_bind_run. cbn [gets]. rewrite M_bind_run. cbn [gets].
  rewrite M_bind_run.
  assert (Hp : events (positionFor (activity_id_for sha1 e s) (event_position e) s).2 = events s).
  { unfold positionFor. destruct (map_get _ _); [done|]. by destruct (_ ≫= _). }
  destruct (positionFor _ _ _) as [[pos|x] s1]; cbn in Hp; [|cbn; by rewrite Hp].
  rewrite M_bind_run. cbn [lift]. destruct (toISOString _) as [ts|x]; [|cbn; by rewrite Hp].
  rewrite M_bind_run. cbn [modify]. cbn. apply log_activity_finite; [by apply activity_finite|by rewrite Hp].
Qed.

Lemma record_all_finite es : forall s, Forall (fun e => finite_numbers e = true) es -> Forall event_finite (events s) ->
  Forall event_finite (events (record_all es s).2).
Proof.
  induction es as [|e es IH]; intros s Hes Hs; [done|]. apply Forall_cons in Hes as [He Hes]. unfold record_all. cbn [ActivityStore.record_all].
  rewrite M_bind_run. pose proof (recordProgress_finite e s He Hs) as H1. unfold recordProgress in H1.
  destruct (ActivityStore.recordProgress _ _ _ _ _ _) as [[p|x] s1]; [|done].
  rewrite M_bind_run. specialize (IH s1 Hes H1). unfold record_all in IH.
  by destruct (ActivityStore.record_all _ _ _ _ _ _) as [[ps|x] s2].
Qed.

Lemma record_finite e s : finite_numbers e = true -> Forall event_finite (events s) ->
  Forall event_finite (events (record sha1 toISOString Date_parse Date_now e s).2).
Proof.
  intros He Hs. unfold record. destruct (is_chatgpt_reasoning e); [done|]. rewrite M_bind_run.
  pose proof (record_all_finite _ s (finite_normalized sha1 e He) Hs) as H. unfold record_all in H.
  by destruct (ActivityStore.record_all _ _ _ _ _ _) as [[ps|x] s2].
Qed.

(** ** Worlds *)

Record world_ok (w : World) : Prop := {
  wo_store : ledger_ok (store w);
  wo_finite : Forall event_finite (events (store w));
  wo_queue : Forall snap_ok (writeQueue (store w));
  wo_file : match d_file (disk w) with
            | None => True
            | Some raw => exists n, raw = serialize JSON_stringify n /\ snap_ok n
            end }.

Definition op_ok (op : Op) : Prop :=
  match op with Record e => faithful e = true /\ finite_numbers e = true | _ => True end.

Context (Hjson : forall v, json_safe v = true -> JSON_parse (JSON_stringify v) = Ok v).

Lemma snap_finite n : snap_ok n -> Forall event_finite (s_events n).
Proof. intros (s & _ & Hf & ->). exact Hf. Qed.

(** The file can always be opened, on the ledger of the last write. *)
Lemma initialize_snapshot d n : d_file d = Some (serialize JSON_stringify n) -> snap_ok n -> exists s',
  initialize JSON_parse d = Ok s' /\ ledger_ok s' /\ Forall event_finite (events s') /\ writeQueue s' = [] /\
  forall s, n = snapshot_of s -> ledger_ok s ->
    events s' = events s /\ messages s' = messages s /\ activities s' = map tidy (activities s) /\ byId s' = byId s.
Proof.
  intros Hd (s & Hs & Hf & ->). destruct (open_snapshot s Hs) as (s' & Ho & Hok & He & Hm & Ha & Hi & Hq).
  exists s'. unfold initialize. rewrite Hd. unfold serialize. rewrite Hjson by by apply snapshot_safe. cbn.
  split_and!; try done; [by rewrite He|]. intros s2 E Hs2.
  assert (Ee : events s2 = events s) by (apply (f_equal s_events) in E; done).
  assert (Em : messages s2 = messages s) by (apply (f_equal s_messages) in E; done).
  pose proof (ok_replay _ Hs2) as R2. rewrite Ee, (ok_replay _ Hs) in R2. injection R2 as R2a R2b.
  rewrite He, Hm, Ha, Hi, Ee, Em. by rewrite R2a, R2b.
Qed.

Lemma log_activity_queue a e s : writeQueue (log_activity a e s) = writeQueue s /\ flushTimer (log_activity a e s) = true.
Proof.
  unfold log_activity, logEventsFromProgress. destruct (take_sequences _ _) as [ns next].
  unfold trimEvents. by destruct (_ <=? _).
Qed.

Lemma recordProgress_queue e s : writeQueue (recordProgress e s).2 = writeQueue s.
Proof.
  unfold recordProgress, ActivityStore.recordProgress. rewrite M_bind_run. cbn [gets]. rewrite M_bind_run. cbn [gets].
  rewrite M_bind_run.
  assert (Hp : writeQueue (positionFor (activity_id_for sha1 e s) (event_position e) s).2 = writeQueue s).
  { unfold positionFor. destruct (map_get _ _); [done|]. by destruct (_ ≫= _). }
  destruct (positionFor _ _ _) as [[pos|x] s1]; cbn in Hp; [|done].
  rewrite M_bind_run. cbn [lift]. destruct (toISOString _) as [ts|x]; [|done].
  rewrite M_bind_run. cbn [modify]. cbn. by rewrite (proj1 (log_activity_queue _ _ _)).
Qed.

Lemma record_all_queue es : forall s, writeQueue (record_all es s).2 = writeQueue s.
Proof.
  induction es as [|e es IH]; intros s; [done|]. unfold record_all. cbn [ActivityStore.record_all].
  rewrite M_bind_run. pose proof (recordProgress_queue e s) as H1. unfold recordProgress in H1.
  destruct (ActivityStore.recordProgress _ _ _ _ _ _) as [[p|x] s1]; [|done]. cbn in H1.
  rewrite M_bind_run. specialize (IH s1). unfold record_all in IH.
  destruct (ActivityStore.record_all _ _ _ _ _ _) as [[ps|x] s2]; cbn in *; congruence.
Qed.

Lemma record_queue e s : writeQueue (record sha1 toISOString Date_parse Date_now e s).2 = writeQueue s.
Proof.
  unfold record. destruct (is_chatgpt_reasoning e); [done|]. rewrite M_bind_run.
  pose proof (record_all_queue (normalizeProgressEvents sha1 e) s) as H. unfold record_all in H.
  by destruct (ActivityStore.record_all _ _ _ _ _ _) as [[ps|x] s2].
Qed.

Let run_op := run_op JSON_parse JSON_stringify sha1 toISOString Date_parse Date_now.

Lemma write_file o n d : snap_ok n ->
  match d_file d with None => True | Some raw => exists n, raw = serialize JSON_stringify n /\ snap_ok n end ->
  match d_file (write JSON_stringify o n d) with
  | None => True | Some raw => exists n, raw = serialize JSON_stringify n /\ snap_ok n end.
Proof. intros Hn Hd. destruct o; cbn; eauto. Qed.

Lemma run_op_ok op w : op_ok op -> world_ok w -> world_ok (run_op op w).
Proof.
  intros Hop [Hs Hf Hq Hd]. destruct op as [e|run thread|m|ws| |o|]; cbn in *.
  - destruct Hop as [H1 H2]. split; cbn; [by apply record_keeps_ledger|by apply record_finite|by rewrite record_queue|done].
  - split; cbn; [by apply attachThread_ok| | |done].
    + unfold attachThread. destruct (existsb _ _); [|done]. cbn. apply Forall_fmap.
      eapply Forall_impl; [exact Hf|]. intros e He. cbn. by destruct (other_thread _ _ _).
    + unfold attachThread. by destruct (existsb _ _).
  - split; cbn; [by apply recordMessage_ok|done..].
  - split; cbn; [by apply clearWorkspace_ok| | |done].
    + unfold clearWorkspace. destruct (_ && _); [done|]. cbn. by apply Forall_List_filter.
    + unfold clearWorkspace. by destruct (_ && _).
  - split; cbn; [by apply flush_timer_ok| | |done]; unfold flush_timer; destruct (flushTimer _); try done.
    cbn. apply Forall_app. split; [done|]. constructor; [|done]. by exists (store w).
  - destruct (writeQueue (store w)) as [|n q] eqn:Eq; [by split; rewrite ?Eq|].
    apply Forall_cons in Hq as [Hn Hq].
    split; cbn; [by apply ledger_ok_writes|done|done|by apply write_file].
  - destruct (d_file (disk w)) as [raw|] eqn:Ed.
    + destruct Hd as (n & -> & Hn). destruct (initialize_snapshot _ _ Ed Hn) as (s' & -> & H1 & H2 & H3 & _).
      split; cbn; [done|done|by rewrite H3|]. rewrite Ed. eauto.
    + unfold initialize. rewrite Ed. split; cbn; [apply new_store_ok|constructor|constructor|by rewrite Ed].
Qed.

Lemma run_world_ok ops : forall w, Forall op_ok ops -> world_ok w ->
  world_ok (run_ops JSON_parse JSON_stringify sha1 toISOString Date_parse Date_now ops w).
Proof.
  induction ops as [|op ops IH]; intros w Hops Hw; [done|]. apply Forall_cons in Hops as [H1 H2].
  apply IH; [done|]. by apply run_op_ok.
Qed.

Lemma new_world_ok : world_ok new_world.
Proof. split; cbn; [apply new_store_ok|constructor|constructor|done]. Qed.

End world.

(** The numbering of the rows in the index *)
Definition indexed (s : Store) : Prop :=
  forall key i, map_get (byId s) key = Some i <-> exists a, activities s !! i = Some a /\ id a = key.

(** C11: the timeline that streams live is the one that a reload renders, for
    the events whose parts the log can express: a Codex item with an id, whose
    output streams only if it is a command or a tool, and of the ChatGPT
    conversation everything but what is still streaming (of that, only diffs
    and tools without output); with finite numbers. Streaming ChatGPT responses
    are excluded, and do repeat in the reload ([reload_repeats_response]).
    Whatever such events are recorded, threads attached, messages recorded,
    workspaces cleared, snapshots written or lost, and however often the
    application restarts: the rows of the timeline, their empty texts counting
    as absent, are what the replay of the event log gives; every row has an id
    of its own, under which the index finds it; the log keeps its order and its
    limit; and the file can be opened. *)
Theorem timeline_is_replayed JSON_parse JSON_stringify sha1 toISOString Date_parse Date_now ops
  (Hjson : forall v, json_safe v = true -> JSON_parse (JSON_stringify v) = Ok v)
  (Hops : Forall op_ok ops) :
  let w := run_ops JSON_parse JSON_stringify sha1 toISOString Date_parse Date_now ops new_world in
  let s := store w in
  replay (events s) = (map tidy (activities s), byId s) /\
  NoDup (map id (activities s)) /\ indexed s /\
  StronglySorted Z.le (map e_sequence (events s)) /\
  Z.of_nat (length (events s)) <= MAX_EVENTS /\ Z.of_nat (length (messages s)) <= MAX_MESSAGES /\
  is_ok (initialize JSON_parse (disk w)) = true.
Proof.
  intros w s. destruct (run_world_ok JSON_parse JSON_stringify sha1 toISOString Date_parse Date_now Hjson ops new_world
    Hops (new_world_ok JSON_stringify)) as [Hs Hf Hq Hd]. fold w in Hs, Hf, Hq, Hd. fold s in Hs, Hf, Hq.
  destruct Hs as [[I1 I2] K2 K3 K4 K5 K6 K7 K8].
  split_and!; try done; [by apply in_order_map|].
  destruct (d_file (disk w)) as [raw|] eqn:Ed.
  - destruct Hd as (n & -> & Hn). by destruct (initialize_snapshot JSON_parse JSON_stringify Hjson _ _ Ed Hn) as (s' & -> & _).
  - unfold initialize. by rewrite Ed.
Qed.

(** Work off the queue with these outcomes. *)
Definition writes (outcomes : list WriteOutcome) : list Op := map Write outcomes.

Lemma run_writes JSON_parse JSON_stringify sha1 iso parse now os : forall w q n,
  writeQueue (store w) = q ++ [n] -> length os = length q ->
  let w' := run_ops JSON_parse JSON_stringify sha1 iso parse now (writes (os ++ [Written])) w in
  d_file (disk w') = Some (serialize JSON_stringify n).
Proof.
  induction os as [|o os IH]; intros w q n Hq Hl; destruct q as [|n' q]; try discriminate.
  - cbn in *. by rewrite Hq.
  - injection Hl as Hl. cbn [writes app map]. unfold run_ops. cbn [fold_left run_op].
    rewrite Hq. cbn [app]. by apply (IH _ q).
Qed.

(** C12: what the user saw survives, for events as in C11 (no streaming ChatGPT
    responses). When a change is pending, flushing and working off the queue -
    whichever of the earlier writes fail, as long as the last succeeds - leaves
    a file on which the next start has the same log, the same messages, the
    same index, and the same rows up to empty texts. *)
Theorem flush_makes_durable JSON_parse JSON_stringify sha1 toISOString Date_parse Date_now ops outcomes
  (Hjson : forall v, json_safe v = true -> JSON_parse (JSON_stringify v) = Ok v)
  (Hops : Forall op_ok ops) :
  let run := run_ops JSON_parse JSON_stringify sha1 toISOString Date_parse Date_now in
  let w := run ops new_world in
  let s := store w in
  flushTimer s = true -> length outcomes = length (writeQueue s) ->
  let w' := run (FlushTimer :: writes (outcomes ++ [Written])) w in
  exists s', initialize JSON_parse (disk w') = Ok s' /\
    events s' = events s /\ messages s' = messages s /\
    activities s' = map tidy (activities s) /\ byId s' = byId s.
Proof.
  intros run w s Ht Hl w'. unfold run in w.
  destruct (run_world_ok JSON_parse JSON_stringify sha1 toISOString Date_parse Date_now Hjson ops new_world
    Hops (new_world_ok JSON_stringify)) as [Hs Hf Hq Hd]. fold w in Hs, Hf, Hq, Hd. fold s in Hs, Hf, Hq.
  assert (Hfile : d_file (disk w') = Some (serialize JSON_stringify (snapshot_of s))).
  { apply (run_writes JSON_parse JSON_stringify sha1 toISOString Date_parse Date_now outcomes
      (run_op JSON_parse JSON_stringify sha1 toISOString Date_parse Date_now FlushTimer w) (writeQueue s)); [|done].
    cbn. fold s. unfold flush_timer. by rewrite Ht. }
  assert (Hn : snap_ok (snapshot_of s)) by (by exists s).
  destruct (initialize_snapshot JSON_parse JSON_stringify Hjson _ _ Hfile Hn) as (s' & Hi & _ & _ & _ & H).
  exists s'. split; [done|]. by apply H.
Qed.

(** ** Concrete runs *)

Definition no_details : Details := {|
  text := None; command := None; cwd := None; functionName := None; parameters := None; output := None;
  diff := None; filePath := None; additions := None; deletions := None; status := None; exitCode := None;
  durationMs := None |}.
Definition sample_codex (k : Kind) (s : Stage) (t o : option jstr) : ProgressEvent := codex_progress {|
  x_runId := js "run"; x_workspace := js "api"; x_threadId := Some (js "thread"); x_turnId := js "turn";
  x_itemId := js "item"; x_kind := k; x_stage := s; x_label := js "Label";
  x_details := {| text := t; command := None; cwd := None; functionName := None; parameters := Some (js "args");
    output := o; diff := None; filePath := None; additions := None; deletions := None; status := None;
    exitCode := None; durationMs := None |};
  x_activityId := None; x_position := None; x_createdAt := None |}.
Definition sample_response (t : string) (generating : bool) : ProgressEvent := chatgpt_progress {|
  c_taskId := js "task"; c_runId := js "run"; c_workspace := js "api"; c_kind := g_response; c_text := js t;
  c_generating := Some generating; c_stage := None; c_itemId := None; c_input := None; c_output := None;
  c_durationMs := None; c_functionName := None; c_parameters := None; c_filePath := None; c_additions := None;
  c_deletions := None; c_activityId := None; c_position := None; c_createdAt := None |}.
Definition sample_message : Message := {|
  m_id := js "m"; m_role := user; m_text := js "Hi"; m_createdAt := js "2026"; m_turnId := None;
  m_runId := js "run"; m_workspace := js "api"; m_conversationId := Some (js "c") |}.

Definition sample_ops : list Op := [
  Record (sample_codex tool started None None); Record (sample_codex tool streaming None (Some (js "a")));
  FlushTimer; Write Written; Restart; Record (sample_codex response streaming (Some (js "He")) None);
  Record (sample_codex response streaming (Some (js "llo")) None); RecordMessage sample_message;
  FlushTimer; Record (sample_response "Done" false)].

Abbreviation sample_run := (run_ops sample_parse sample_stringify (fun s => s) (fun _ => Ok (js "2026"))
  (fun _ => NNaN) (fun n => NInt n)).

Lemma sample_ops_ok : Forall op_ok sample_ops.
Proof. repeat apply Forall_cons_2; try apply Forall_nil_2; by vm_compute. Qed.

Lemma timeline_is_replayed_witness :
  replay (events (store (sample_run sample_ops new_world))) =
  (map tidy (activities (store (sample_run sample_ops new_world))), byId (store (sample_run sample_ops new_world))).
Proof.
  destruct (timeline_is_replayed sample_parse sample_stringify (fun s => s) (fun _ => Ok (js "2026")) (fun _ => NNaN)
    (fun n => NInt n) sample_ops (fun v _ => sample_json v) sample_ops_ok) as [H _]. exact H.
Defined.

Lemma flush_makes_durable_witness : exists s',
  initialize sample_parse (disk (sample_run [FlushTimer; Write RenameFails; Write Written] (sample_run sample_ops new_world))) = Ok s' /\
  events s' = events (store (sample_run sample_ops new_world)).
Proof.
  destruct (flush_makes_durable sample_parse sample_stringify (fun s => s) (fun _ => Ok (js "2026")) (fun _ => NNaN)
    (fun n => NInt n) sample_ops [RenameFails] (fun v _ => sample_json v) sample_ops_ok ltac:(vm_compute; reflexivity)
    ltac:(vm_compute; reflexivity)) as (s' & H1 & H2 & _).
  exists s'. split; [exact H1|exact H2].
Defined.

(** The ChatGPT conversation reports its response as the whole text so far.
    Live, each report replaces the last; the log keeps them as streamed parts
    of a response, and its replay - every restart, every attached thread -
    strings them together. *)
Example reload_repeats_response :
  let s := store (sample_run [Record (sample_response "Hel" true); Record (sample_response "Hello" true)] new_world) in
  map (fun a => text (details a)) (activities s) = [Some (js "Hello")] /\
  map (fun a => text (details a)) (replay (events s)).1 = [Some (js "HelHello")].
Proof. vm_compute. done. Qed.

(** A write that fails is dropped, and nothing asks for another: the flush
    that ends the application then changes nothing. *)
Example failed_write_is_forgotten :
  let w := sample_run [RecordMessage sample_message; FlushTimer; Write RenameFails; FlushTimer; Write Written] new_world in
  d_file (disk w) = None /\ flushTimer (store w) = false /\ writeQueue (store w) = [] /\ messages (store w) = [sample_message].
Proof. vm_compute. done. Qed.

End ActivityFile.
